(* ===== verification/_CoqProject ===== *)
-Q . S2P
Prelude.v
Sha256.v
Float64.v
Sha256d.v
Worker.v
Arbitration.v
Bech32.v
Base58.v
Script.v
Utf8.v
Json.v
Text.v
Metrics.v
Poolproto.v
StratumV1.v
V1Jobs.v
V1System.v
V1Calls.v
Wire.v
Frame.v
Messages.v
Seed.v
Wallet.v
StratumV2.v
Config.v
Reconnect.v
EngineStats.v
EngineV2.v
EngineV1.v
EngineSession.v
Provider.v
EngineArb.v
EngineSystem.v
FanIn.v
Rates.v
Quoting.v
JsonOut.v
WordList.v
EngineSetup.v
EngineMetrics.v
EngineTick.v
EngineDial.v
Daemon.v
Suggest.v
LogFile.v
WalletCmd.v
Doctor.v
DoctorChecks.v
I18n.v
Tui.v
HttpServer.v
Logger.v
Gpu.v
Flags.v
ConfigCmd.v
RunCmd.v
MainCmd.v
Noise.v
RateSources.v
