(* ===== verification/Prelude.v ===== *)
(** * A verification library for Otedama

    Otedama (src/, written in Go) is a Bitcoin miner: it detects devices, asks
    revenue providers for quotes, assigns devices to revenue streams, connects
    to a mining pool over Stratum V1 or V2, grinds SHA-256d headers and submits
    the shares found, and keeps a seed for a Lightning wallet.  This library
    models the parts of the program that decide something and proves the
    properties that make them correct.  Definitions follow the Go code, function
    by function; they are executable, so the examples and witnesses run them.

    ** The program and its models

    - Shared ground.  [Prelude] (this file): words, errors, results, digits, the
      tactics ([case_if], [if_lia], [word_lia], [decide_vm]) and the hint
      database [otd].  [Sha256]: FIPS 180-4 SHA-256.  [Float64]: IEEE binary64
      on the Standard Library's SpecFloat, and the big.Float operations used.
      [Utf8], [Json]: runes, encoding/json, strconv and encoding/hex.  [Text],
      [Quoting]: decimal output down to [%g], [strconv.Quote] with a reader that
      inverts it, splitting, trimming and lexical paths.  [JsonOut]: the encoder of
      encoding/json, [%f], durations.
    - internal/miner.  [Sha256d]: block headers, hashing, targets, nBits and
      difficulty.  [Worker]: the shared [Worker] object and its goroutines; a
      step is one access to shared state, and every interleaving with [SetWork],
      cancellation and the share consumer is covered by [Worker.step].
    - internal/arbitration.  [Arbitration]: [Decide] and what it calls.
    - internal/btccrypto.  [Bech32], [Base58], [Script]: address validation,
      classification and locking scripts; the coinbase scanner.
    - internal/poolproto.  [Poolproto]: URL schemes, credential redaction, the
      dialer registry, [DialURL], the sanitizer for pool text.
    - internal/poolproto/stratumv1.  [StratumV1]: the parsers, the session record
      and its handlers as functions on it; [V1Jobs]: jobs and shares; [V1System]:
      the read loop, Negotiate, Submit, the consumer and Close as concurrent
      processes over the session; [V1Calls]: the pending-call table.
    - internal/stratum.  [Wire]: the io.Reader contract (class [StreamReader]) and
      the wire primitives; [Frame]: headers, frames and the bounded decoder over
      any lawful reader; [Messages]: the thirteen Stratum V2 messages, framing
      and dispatch.  [Noise]: the handshake, the cipher states and the encrypted
      connection, which is again a reader for [Frame].
    - internal/poolproto/stratumv2.  [StratumV2]: the handshake, the job
      assembler, the read loop and Submit, on top of [Frame] and [Messages].
    - internal/lightning.  [Seed]: BIP-39 entropy and mnemonics; [WordList]: the
      English list; [Wallet]: the encrypted seed file, and the wallet directory as
      a file system whose every intermediate state is kept.  [WalletCmd]: the
      first-run display and quiz of internal/engine/setup.go and the commands of
      cmd/otedama/wallet.go.
    - internal/metrics.  [Metrics]: the registry, its instruments and the text
      exposition, down to the bytes of a writer that may fail.
    - internal/daemon.  [Daemon]: the service definitions of the three platforms and
      installing, removing and querying them as programs over host actions.
    - internal/doctor.  [Doctor]: the runner, its goroutines and the two report
      formats; [DoctorChecks]: the seventeen checks over the answers of a machine.
    - internal/tui, internal/i18n.  [Tui]: the dashboard frame, byte for byte.
      [I18n]: language detection, the catalogs, templates and fallbacks.
    - internal/logger, internal/httpserver, internal/hal.  [Logger]: levels, sinks
      and the default logger as a race of goroutines.  [HttpServer]: the routes and
      what they answer.  [Gpu]: the render nodes of sysfs as a hardware driver.
    - cmd/otedama and internal/version.  [Flags]: the flag package on the kinds of
      flags used, and the flag sets.  [ConfigCmd]: configuration files, config show
      and validate.  [RunCmd]: run, from the arguments to the exit code, as the
      sequence of what it prints, acquires and releases.  [MainCmd]: version,
      service, doctor, completion, the wallet flags and the dispatcher.  [LogFile]:
      the size-capped log file.  [Suggest]: the edit distance and the suggestion
      for a mistyped subcommand.
    - internal/config and the configuration readers of internal/engine/setup.go.
      [Config]: the layers, their origins, validation.
    - internal/engine.  [Reconnect]: [runReconnectLoop] with pool failover,
      payout-address failover, yield marks and backoff.
      [EngineStats]: the statistics of stats.go.  [EngineV2], [EngineV1]:
      [runSession] and [runSessionV1], one function per arm of their select
      statements.  [EngineSession]: what the two owe the rest of the engine.
      [EngineArb]: arbitrate.go, from quotes to paused workers.  [EngineSystem]:
      the price loop, the arbitration loop, the session and the reconnect loop
      as steps over the workers, the curtailment gate and the pause set they
      share.  [FanIn]: fanin.go as a concurrent system.  [EngineSetup]: device
      detection (with internal/hal: identities, driver registry, detector) and
      the nonce layout of the workers.  [EngineMetrics]: the instruments of
      metrics.go on the registry of [Metrics].  [EngineTick]: the statistics tick
      of both sessions.  [EngineDial]: from a pool URL to a transport, with the
      TLS settings of both protocol packages and the V1 dialer.
    - internal/provider.  [Provider]: quotes, the bounded quote channel, the mining
      and the GPU-rental provider.
    - internal/rates.  [Rates]: the price and the hashrate feed, and the coalescing
      of concurrent fetches.  [RateSources]: what the documents of the sources mean.

    ** What the theorems show

    Each claim is a theorem whose comment starts with its number.
    - Mining ([Worker], [Sha256d]): no header is hashed twice, shares are proofs
      of work for jobs that were set, the counters account for every hash, no
      goroutine panics, Stop terminates; [MeetsTarget] decides the numeric
      comparison, nBits and headers round-trip.
    - The pool connection: frames and messages round-trip over any transport and
      accept nothing else ([Frame], [Messages]); the V2 session refines an
      unbounded specification of announced jobs ([StratumV2]); the V1 session
      applies nothing before authorization, keeps order, loses no call, and its
      shares let the pool rebuild the hashed root ([V1System], [V1Calls],
      [V1Jobs]).
    - Money: addresses and scripts are accepted exactly when well formed, typos
      are detected ([Bech32], [Base58], [Script]); a validated configuration is
      runnable ([Config]); the payout address is never silently changed and
      failover is exhaustive ([Reconnect]); devices go to viable, best streams
      ([Arbitration]); the wallet survives a crash at any point of a passphrase
      change and the recovery phrase restores it ([Wallet], [Seed]).
    - The engine: a worker that has work hashes what the current session wants,
      never while curtailed and never on a paused device, in every reachable
      state of the shared goroutines ([EngineSystem], against the interface of
      [EngineSession]); workers of different devices have disjoint nonces
      ([EngineSetup]); a pool cannot make a session count a share twice or grow
      its tables, and every frame it writes submits a share of the active job
      ([EngineV2], [EngineV1]); the streams arbitrated are the unexpired last
      quotes ([EngineArb], a refinement of a quote ledger); merging channels
      loses and reorders nothing ([FanIn]); a majority of honest price sources
      fixes the price ([Rates]).
    - Around the engine: a pool configured for TLS is never reached in plaintext
      ([EngineDial]); otedama_up and the warnings say what the ticks measured
      ([EngineTick]); the exposition reads back as the registered series
      ([Metrics], [EngineMetrics]); the recovery phrase shown is the one that
      verifies, and the quiz is exact ([WalletCmd], [WordList]); the service
      definitions say what was asked for and nothing else ([Daemon]); the log
      stays within its disk budget ([LogFile]).
    - At the edges: frames written to the encrypted connection arrive equal and in
      order, and a network can only cut them short ([Noise]); every
      row of the dashboard is as wide as the terminal and leaves no escape sequence
      open ([Tui]); every language renders every message ([I18n]); the verdicts and the
      exit code of doctor mean what they say under every schedule ([Doctor],
      [DoctorChecks]).
    - The command line: every spelling of flags is read as written ([Flags]); what
      config show prints cannot forge a line ([ConfigCmd]); run ends with the code
      of its outcome, mines only with a validated configuration and releases what
      it acquired ([RunCmd]); wallet, doctor and service commands mean by a command
      line what run means by it, and the lists of subcommands are in step
      ([MainCmd]).
    - Races and defects of the code itself are lemmas about concrete runs:
      [EngineSystem.curtail_race], [EngineSystem.first_allocation_keeps_hashing],
      [EngineSystem.v1_retarget_revives_old_job], [EngineArb.expired_price_survives],
      [Rates.NaN_passes_the_band], [EngineTick.drops_recounted],
      [Metrics.metricKey_collision], [Daemon.backslash_unquoted],
      [Noise.oversized_write_desyncs], [Flags.positional_hides_flags],
      [Daemon.home_markup_breaks_plist], [LogFile.failed_reopen_is_final].

    ** Interfaces

    [StreamReader] (what the decoder needs from a transport; byte slices and a
    segmented connection are instances), [LawfulWordList], [SeedCrypto] with
    [SeedCryptoLaws], the [Dialer] record of [Poolproto], and [Session] with
    [Feeder] (what a pool session of either protocol promises the goroutines it
    shares the workers with; the V1 session, the V2 session and their sum are
    instances).

    ** Bounds and fuel

    Machine integers are [Z] with the width written out ([x ∈u w], [wrap w v]).
    Loops that are not structural take fuel, and the theorems show that it
    suffices: [io.ReadFull] and [LimitReader] loops by the reader's [budget];
    the compact-size and output scanners by the length of the transaction;
    base58 and digit loops by the number of digits; [failover_walk] by the number
    of pools, after which the walk is back at its start; the stride loop of
    [EngineSetup] by 32, the width of the stride; the JSON parser by the
    length of the text.  [Diverges] marks exhaustion and is ruled out.

    ** Parameters

    Code that is not under src/ is an argument: Unicode case mapping of non-ASCII
    text, [runtime.NumCPU], the clock, random sources, pbkdf2, scrypt and
    AES-GCM (with the laws of [SeedCryptoLaws]), the P-256 and ChaCha20-Poly1305 of
    [Noise] (with its laws), the transport opened by a dialer, the decoding of a
    YAML file, [strconv.ParseFloat] where the code does not depend on it, the
    template package of [I18n], the text of an error, and the conversion of a float
    outside the uint64 range, which Go leaves to the implementation; the order in
    which Go's range visits a map, the answers of HTTP price sources, of sysfs, of
    dialling, of reading files and of the tools of the host, and the Unicode tables
    of printable and case-folding runes outside the ranges the code tests itself.

    ** Not modelled

    The HTTP exchange of the price sources and of the server (net/http, of which
    only the routing is described), crypto/tls, the pprof handlers, the layout of a
    log/slog record, the usage texts of the commands and of the flag package, the
    polling tickers, the clock abstraction (time is an argument) and the wiring of
    the providers in setup.go.  The engine of the run command is its start-up and
    shut-down order; what it does in between are the models of internal/engine.
    The digest of the word list is written down and not evaluated.  Read and write
    deadlines are events the environment chooses. *)
From Stdlib Require Export ZArith Lia ZifyBool Ascii String Sorted.
From stdpp Require Export base tactics numbers list strings gmap.

(** * Notations

    Go's fixed-width integers are kept as [Z] with their width written out:
    [x ∈u w] says that [x] is a [w]-bit unsigned word, and [wrap w v] reduces
    [v] to one. *)

Declare Scope otedama_scope.
Delimit Scope otedama_scope with otd.
Open Scope otedama_scope.
Open Scope Z_scope.

Notation "x ∈u w" := (0 ≤ x < 2 ^ w) (at level 70, no associativity) : otedama_scope.

Definition wrap (w v : Z) : Z := v `mod` 2 ^ w.

(** * Errors

    A Go [error] value.  [EOF] and [ErrUnexpectedEOF] are [io]'s sentinels,
    [Errorf] an error created with [errors.New]/[fmt.Errorf] (its format, and
    the numbers the format prints), [Wrapf] one created with [fmt.Errorf] and
    a [%w] verb, and [Sentinel] a package-level [errors.New] variable.
    [Diverges] is not a Go error: it marks a model loop that ran out of fuel,
    and every theorem about a fuelled loop shows that it does not occur. *)
Inductive error :=
  | EOF
  | ErrUnexpectedEOF
  | Errorf (fmt : string) (args : list Z)
  | Wrapf (fmt : string) (inner : error)
  | Sentinel (name : string)
  | Diverges.

#[export] Instance error_eq_dec : EqDecision error.
Proof. solve_decision. Defined.

(** [errors.Is(e, target)]: walk the [%w] chain. *)
Fixpoint errors_Is (e target : error) : bool :=
  bool_decide (e = target) ||
  match e with Wrapf _ i => errors_Is i target | _ => false end.

(** [(value, error)] results: the value that accompanies a non-nil error is
    not kept, because no caller in the repository reads it. *)
Inductive result (A : Type) :=
  | Ok (a : A)
  | Err (e : error).
Arguments Ok {_} _.
Arguments Err {_} _.

#[export] Instance result_eq_dec {A} `{EqDecision A} : EqDecision (result A).
Proof. solve_decision. Defined.

#[export] Instance result_ret : MRet result := λ A a, Ok a.
#[export] Instance result_bind : MBind result := λ A B k c,
  match c with Ok a => k a | Err e => Err e end.
#[export] Instance result_fmap : FMap result := λ A B f c,
  match c with Ok a => Ok (f a) | Err e => Err e end.

Definition is_ok {A} (c : result A) : bool :=
  match c with Ok _ => true | Err _ => false end.

(** [fmt.Errorf("... %w", err)] around a failing call. *)
Definition wrapping {A} (fmt : string) (c : result A) : result A :=
  match c with Ok a => Ok a | Err e => Err (Wrapf fmt e) end.

(** * Bytes *)

Definition byte_ok (b : Z) : Prop := b ∈u 8.
Notation bytes_ok := (Forall byte_ok).

#[export] Instance byte_ok_dec b : Decision (byte_ok b).
Proof. unfold byte_ok; apply _. Defined.

(** A 32-byte array and a 32-bit word. *)
Definition is_hash (h : list Z) : Prop := length h = 32%nat ∧ bytes_ok h.
#[export] Instance is_hash_dec h : Decision (is_hash h).
Proof. unfold is_hash; apply _. Defined.
Definition is_u32 (v : Z) : Prop := v ∈u 32.

(** [binary.LittleEndian]: [n] bytes of [v], least significant first. *)
Fixpoint le_bytes (n : nat) (v : Z) : list Z :=
  match n with
  | O => []
  | S n => v `mod` 256 :: le_bytes n (v `div` 256)
  end.

Fixpoint le_Z (bs : list Z) : Z :=
  match bs with
  | [] => 0
  | b :: bs => b + 256 * le_Z bs
  end.

(** [math/big]'s [SetBytes]: the big-endian magnitude. *)
Definition be_Z (bs : list Z) : Z := foldl (λ acc b, 256 * acc + b) 0 bs.

(** [b[i:j]]. *)
Definition slice {A} (i j : nat) (l : list A) : list A := take (j - i) (drop i l).

(** Go strings are byte sequences; so is Rocq's [string]. *)
Definition Z_of_ascii (c : ascii) : Z := Z.of_N (N_of_ascii c).
Definition ascii_of_Z (b : Z) : ascii := ascii_of_N (Z.to_N b).
Fixpoint bytes_of_string (s : string) : list Z :=
  match s with
  | String.EmptyString => []
  | String.String c s => Z_of_ascii c :: bytes_of_string s
  end.
Fixpoint string_of_bytes (bs : list Z) : string :=
  match bs with
  | [] => String.EmptyString
  | b :: bs => String.String (ascii_of_Z b) (string_of_bytes bs)
  end.

(** * Tactics and hint databases *)

Create HintDb otd.

(** Split the [if]s and [match]es of a goal or hypothesis that are decided by
    a boolean comparison on [Z] or [nat]. *)
Ltac zbool :=
  repeat match goal with
  | H : (_ <? _)%Z = true |- _ => apply Z.ltb_lt in H
  | H : (_ <? _)%Z = false |- _ => apply Z.ltb_ge in H
  | H : (_ <=? _)%Z = true |- _ => apply Z.leb_le in H
  | H : (_ <=? _)%Z = false |- _ => apply Z.leb_gt in H
  | H : (_ =? _)%Z = true |- _ => apply Z.eqb_eq in H
  | H : (_ =? _)%Z = false |- _ => apply Z.eqb_neq in H
  | H : (_ <? _)%nat = true |- _ => apply Nat.ltb_lt in H
  | H : (_ <? _)%nat = false |- _ => apply Nat.ltb_ge in H
  | H : (_ <=? _)%nat = true |- _ => apply Nat.leb_le in H
  | H : (_ <=? _)%nat = false |- _ => apply Nat.leb_gt in H
  | H : (_ =? _)%nat = true |- _ => apply Nat.eqb_eq in H
  | H : (_ =? _)%nat = false |- _ => apply Nat.eqb_neq in H
  end.

Ltac case_if :=
  match goal with
  | |- context [if ?b then _ else _] => destruct b eqn:?
  | H : context [if ?b then _ else _] |- _ => destruct b eqn:?
  end; zbool.

(** Decide an [if] whose boolean guard is settled by linear arithmetic. *)
Ltac if_lia :=
  match goal with
  | |- context [if ?b then _ else _] =>
      first
        [ let E := fresh in assert (b = true) as E by lia; rewrite E; clear E
        | let E := fresh in assert (b = false) as E by lia; rewrite E; clear E ]
  end.

(** Evaluate the powers of two that bound machine words, for [lia]. *)
Ltac pow_consts :=
  unfold byte_ok in *;
  repeat match goal with
  | |- context [2 ^ 8] => change (2 ^ 8) with 256
  | |- context [2 ^ 16] => change (2 ^ 16) with 65536
  | |- context [2 ^ 24] => change (2 ^ 24) with 16777216
  | |- context [2 ^ 32] => change (2 ^ 32) with 4294967296
  | |- context [2 ^ 64] => change (2 ^ 64) with 18446744073709551616
  | H : context [2 ^ 8] |- _ => change (2 ^ 8) with 256 in H
  | H : context [2 ^ 16] |- _ => change (2 ^ 16) with 65536 in H
  | H : context [2 ^ 24] |- _ => change (2 ^ 24) with 16777216 in H
  | H : context [2 ^ 32] |- _ => change (2 ^ 32) with 4294967296 in H
  | H : context [2 ^ 64] |- _ => change (2 ^ 64) with 18446744073709551616 in H
  | |- context [256 ^ Z.of_nat 2] => change (256 ^ Z.of_nat 2) with 65536
  | |- context [256 ^ Z.of_nat 3] => change (256 ^ Z.of_nat 3) with 16777216
  | |- context [256 ^ Z.of_nat 4] => change (256 ^ Z.of_nat 4) with 4294967296
  | |- context [256 ^ Z.of_nat 8] => change (256 ^ Z.of_nat 8) with 18446744073709551616
  end.
Ltac word_lia := pow_consts; lia.

(** Open the conjunctions and existentials of the context. *)
Ltac unpack :=
  repeat match goal with
  | H : _ ∧ _ |- _ => destruct H
  | H : ∃ _, _ |- _ => destruct H
  end.

(** Settle a closed decidable proposition by evaluating its decision procedure. *)
Ltac decide_vm := refine (bool_decide_unpack _ _); vm_compute; exact I.

Lemma Ok_inj {A} (a b : A) : Ok a = Ok b → a = b.
Proof. congruence. Qed.

(** * Words *)

Lemma wrap_range w v : 0 ≤ w → wrap w v ∈u w.
Proof. intros. unfold wrap. apply Z.mod_pos_bound. lia. Qed.

Lemma wrap_small w v : v ∈u w → wrap w v = v.
Proof. intros. unfold wrap. by apply Z.mod_small. Qed.

Lemma wrap_idemp w v : 0 ≤ w → wrap w (wrap w v) = wrap w v.
Proof. intros. apply wrap_small. by apply wrap_range. Qed.

(** Or-ing disjoint fields is adding them. *)
Lemma land_shiftl_small a b n : 0 ≤ n → a ∈u n → Z.land a (Z.shiftl b n) = 0.
Proof.
  intros Hn Ha. apply Z.bits_inj'. intros i Hi.
  rewrite Z.land_spec, Z.bits_0, Z.shiftl_spec by lia.
  destruct (Z.ltb_spec i n).
  - rewrite (Z.testbit_neg_r b) by lia. apply andb_false_r.
  - assert (a < 2 ^ i) by
      (eapply Z.lt_le_trans; [apply Ha|apply Z.pow_le_mono_r; lia]).
    rewrite Z.testbit_eqb, Z.div_small by lia. done.
Qed.

Lemma lor_shiftl_add a b n : 0 ≤ n → a ∈u n → Z.lor a (Z.shiftl b n) = a + 2 ^ n * b.
Proof.
  intros Hn Ha. pose proof (land_shiftl_small a b n Hn Ha) as Hl.
  rewrite <- Z.lxor_lor, <- Z.add_nocarry_lxor by done.
  rewrite Z.shiftl_mul_pow2 by lia. lia.
Qed.

#[export] Hint Resolve wrap_range : otd.

(** * Little- and big-endian numbers *)

Lemma length_le_bytes n v : length (le_bytes n v) = n.
Proof. revert v. induction n; intros; simpl; auto. Qed.

Lemma le_bytes_ok n v : bytes_ok (le_bytes n v).
Proof.
  revert v. induction n as [|n IH]; intros v; simpl; constructor; auto.
  unfold byte_ok. change (2 ^ 8) with 256. apply Z.mod_pos_bound. lia.
Qed.

Lemma le_Z_range bs : bytes_ok bs → 0 ≤ le_Z bs < 256 ^ Z.of_nat (length bs).
Proof.
  induction 1 as [|b bs Hb _ IH]; simpl le_Z; [simpl; lia|].
  cbn [length]. rewrite Nat2Z.inj_succ, Z.pow_succ_r by lia.
  unfold byte_ok in Hb. change (2 ^ 8) with 256 in Hb. lia.
Qed.

Lemma le_Z_le_bytes n v :
  0 ≤ v < 256 ^ Z.of_nat n → le_Z (le_bytes n v) = v.
Proof.
  revert v. induction n as [|n IH]; intros v Hv; cbn [le_bytes le_Z].
  - simpl in Hv. lia.
  - rewrite Nat2Z.inj_succ, Z.pow_succ_r in Hv by lia.
    rewrite IH.
    + pose proof (Z.div_mod v 256). lia.
    + split; [apply Z.div_pos; lia|].
      apply Z.div_lt_upper_bound; lia.
Qed.

Lemma le_bytes_le_Z bs n :
  bytes_ok bs → length bs = n → le_bytes n (le_Z bs) = bs.
Proof.
  intros H. revert n. induction H as [|b bs Hb _ IH]; intros n <-; [done|].
  cbn [length le_bytes le_Z]. unfold byte_ok in Hb. change (2 ^ 8) with 256 in Hb.
  rewrite (Z.mul_comm 256), Z_mod_plus_full, Z.div_add, Z.mod_small, Z.div_small by lia.
  rewrite Z.add_0_l. f_equal. by apply IH.
Qed.

Lemma le_Z_app b1 b2 :
  le_Z (b1 ++ b2) = le_Z b1 + 256 ^ Z.of_nat (length b1) * le_Z b2.
Proof.
  induction b1 as [|b b1 IH]; cbn [le_Z length app]; [simpl; lia|].
  rewrite IH, Nat2Z.inj_succ, Z.pow_succ_r by lia. ring.
Qed.

Lemma be_Z_le_Z bs : be_Z bs = le_Z (reverse bs).
Proof.
  unfold be_Z. induction bs as [|b bs IH] using rev_ind; [done|].
  rewrite foldl_app, reverse_snoc. simpl. lia.
Qed.

Lemma be_Z_app b1 b2 :
  be_Z (b1 ++ b2) = be_Z b1 * 256 ^ Z.of_nat (length b2) + be_Z b2.
Proof.
  rewrite !be_Z_le_Z, reverse_app, le_Z_app, length_reverse. lia.
Qed.

Lemma be_Z_zeros k bs : be_Z (replicate k 0 ++ bs) = be_Z bs.
Proof.
  rewrite be_Z_app. replace (be_Z (replicate k 0)) with 0; [lia|].
  rewrite be_Z_le_Z, reverse_replicate. induction k; simpl; lia.
Qed.

Lemma bytes_ok_reverse bs : bytes_ok bs → bytes_ok (reverse bs).
Proof. apply Forall_reverse. Qed.

#[export] Hint Resolve le_bytes_ok bytes_ok_reverse : otd.
#[export] Hint Rewrite length_le_bytes : otd.

(** * Strings as bytes *)

Lemma ascii_of_Z_of_ascii c : ascii_of_Z (Z_of_ascii c) = c.
Proof. unfold ascii_of_Z, Z_of_ascii. by rewrite N2Z.id, ascii_N_embedding. Qed.

Lemma string_of_bytes_of_string s : string_of_bytes (bytes_of_string s) = s.
Proof.
  induction s as [|c s IH]; simpl; [done|].
  by rewrite ascii_of_Z_of_ascii, IH.
Qed.

Lemma Z_of_ascii_ok c : byte_ok (Z_of_ascii c).
Proof.
  unfold byte_ok, Z_of_ascii. pose proof (N_ascii_bounded c).
  change (2 ^ 8) with 256. lia.
Qed.

Lemma bytes_of_string_ok s : bytes_ok (bytes_of_string s).
Proof. induction s; simpl; constructor; auto using Z_of_ascii_ok. Qed.

Lemma length_bytes_of_string s : length (bytes_of_string s) = String.length s.
Proof. induction s; simpl; auto. Qed.

Lemma Z_of_ascii_of_Z b : byte_ok b → Z_of_ascii (ascii_of_Z b) = b.
Proof.
  unfold byte_ok, Z_of_ascii, ascii_of_Z. change (2 ^ 8) with 256. intros.
  rewrite N_ascii_embedding; lia.
Qed.

Lemma bytes_of_string_of_bytes bs :
  bytes_ok bs → bytes_of_string (string_of_bytes bs) = bs.
Proof.
  induction 1 as [|b bs Hb _ IH]; simpl; [done|].
  by rewrite IH, Z_of_ascii_of_Z.
Qed.

#[export] Hint Resolve bytes_of_string_ok Z_of_ascii_ok : otd.
#[export] Hint Rewrite length_bytes_of_string string_of_bytes_of_string : otd.

(** * Lists *)

Lemma take_app_exact {A} (l k : list A) n : length l = n → take n (l ++ k) = l.
Proof. intros <-. apply take_app_length. Qed.

Lemma drop_app_exact {A} (l k : list A) n : length l = n → drop n (l ++ k) = k.
Proof. intros <-. apply drop_app_length. Qed.

Lemma slice_app_mid {A} (l1 l2 l3 : list A) i j :
  length l1 = i → length l2 = (j - i)%nat → slice i j (l1 ++ l2 ++ l3) = l2.
Proof.
  intros H1 H2. unfold slice. rewrite (drop_app_exact l1), (take_app_exact l2); auto.
Qed.

Lemma slice_app_l {A} (l1 l2 : list A) j : length l1 = j → slice 0 j (l1 ++ l2) = l1.
Proof. intros. unfold slice. rewrite drop_0, Nat.sub_0_r. by apply take_app_exact. Qed.

Lemma slice_app_r {A} (l1 l2 : list A) i j :
  (length l1 ≤ i)%nat →
  slice i j (l1 ++ l2) = slice (i - length l1) (j - length l1) l2.
Proof.
  intros. unfold slice. rewrite drop_app_ge by done. f_equal. lia.
Qed.

(** Evaluate the slices of a concatenation whose parts have known lengths. *)
Ltac lens :=
  repeat first
    [ rewrite length_le_bytes
    | match goal with H : length ?l = _ |- context [length ?l] => rewrite H end ];
  cbn [length Nat.sub].
Ltac slices :=
  repeat match goal with
  | |- context [slice (?i - ?k) ?j _] =>
      let n := eval vm_compute in (i - k)%nat in progress change (i - k)%nat with n
  | |- context [slice _ (?i - ?k) _] =>
      let n := eval vm_compute in (i - k)%nat in progress change (i - k)%nat with n
  | |- context [slice 0 ?j (?l1 ++ ?l2)] =>
      rewrite (slice_app_l l1 l2 j) by (lens; reflexivity)
  | |- context [slice ?i ?j (?l1 ++ ?l2)] =>
      rewrite (slice_app_r l1 l2 i j) by (lens; lia); lens
  end.

(** * math/big.Int

    [Bytes] of a non-negative integer: the big-endian magnitude without
    leading zeros. *)
Definition big_len (v : Z) : nat :=
  if v =? 0 then 0%nat else Z.to_nat (Z.log2 v / 8 + 1).
Definition big_Bytes (v : Z) : list Z := reverse (le_bytes (big_len v) v).

Lemma length_big_Bytes v : length (big_Bytes v) = big_len v.
Proof. unfold big_Bytes. by rewrite length_reverse, length_le_bytes. Qed.

Lemma big_Bytes_ok v : bytes_ok (big_Bytes v).
Proof. apply bytes_ok_reverse, le_bytes_ok. Qed.

Lemma pow_256 k : 0 ≤ k → 256 ^ k = 2 ^ (8 * k).
Proof. intros. rewrite Z.pow_mul_r by lia. done. Qed.

(** [big_len v] is the least number of bytes that holds [v]. *)
Lemma big_len_spec v :
  0 < v → (0 < big_len v)%nat ∧
  256 ^ (Z.of_nat (big_len v) - 1) ≤ v < 256 ^ Z.of_nat (big_len v).
Proof.
  intros Hv. unfold big_len. if_lia.
  pose proof (Z.log2_nonneg v). pose proof (Z.div_pos (Z.log2 v) 8).
  rewrite Z2Nat.id by lia. split; [lia|].
  rewrite !pow_256 by lia. pose proof (Z.div_mod (Z.log2 v) 8).
  pose proof (Z.mod_pos_bound (Z.log2 v) 8). split.
  - apply Z.log2_le_pow2; lia.
  - apply Z.log2_lt_pow2; lia.
Qed.

Lemma big_len_le v n : 0 ≤ v → (big_len v ≤ n)%nat ↔ v < 256 ^ Z.of_nat n.
Proof.
  intros Hv. destruct (decide (v = 0)) as [->|].
  - pose proof (Z.pow_pos_nonneg 256 (Z.of_nat n)). unfold big_len; simpl. lia.
  - destruct (big_len_spec v) as (H1 & H2 & H3); [lia|]. split; intros H.
    + eapply Z.lt_le_trans; [exact H3|]. apply Z.pow_le_mono_r; lia.
    + destruct (decide (big_len v ≤ n)%nat); [done|].
      pose proof (Z.pow_le_mono_r 256 (Z.of_nat n) (Z.of_nat (big_len v) - 1)). lia.
Qed.

Lemma le_Z_big_Bytes v : 0 ≤ v → be_Z (big_Bytes v) = v.
Proof.
  intros Hv. unfold big_Bytes. rewrite be_Z_le_Z, reverse_involutive.
  apply le_Z_le_bytes. split; [done|]. by apply big_len_le.
Qed.

(** The bytes of a number are determined by the number and their count. *)
Lemma le_Z_inj b1 b2 :
  bytes_ok b1 → bytes_ok b2 → length b1 = length b2 → le_Z b1 = le_Z b2 → b1 = b2.
Proof.
  intros H1 H2 Hl He.
  rewrite <- (le_bytes_le_Z b1 (length b1)), <- (le_bytes_le_Z b2 (length b1)) by auto.
  by rewrite He.
Qed.

Lemma le_Z_zeros bs k : le_Z (bs ++ replicate k 0) = le_Z bs.
Proof.
  rewrite le_Z_app. replace (le_Z (replicate k 0)) with 0; [lia|].
  induction k; simpl; lia.
Qed.

(** * Sorting

    [slices.SortStableFunc]: the stable order of a three-way comparison.  For
    a comparison that is a total preorder the stable result is unique, so an
    insertion sort computes what Go's insertion-and-merge computes;
    [slices.SortFunc] agrees with it where the keys are distinct. *)
Section Sorting.
Context {A : Type} (cmp : A → A → comparison).

Fixpoint insert_by (x : A) (l : list A) : list A :=
  match l with
  | [] => [x]
  | y :: l' => match cmp x y with Gt => y :: insert_by x l' | _ => x :: l end
  end.
Definition SortStableFunc (l : list A) : list A := foldr insert_by [] l.

Lemma insert_by_Permutation x l : insert_by x l ≡ₚ x :: l.
Proof.
  induction l as [|y l IH]; simpl; [done|]. destruct (cmp x y); [done..|].
  rewrite IH. apply Permutation_swap.
Qed.

Lemma SortStableFunc_Permutation l : SortStableFunc l ≡ₚ l.
Proof.
  induction l as [|x l IH]; simpl; [done|]. by rewrite insert_by_Permutation, IH.
Qed.

Lemma elem_of_SortStableFunc x l : x ∈ SortStableFunc l ↔ x ∈ l.
Proof. by rewrite SortStableFunc_Permutation. Qed.

(** The comparison need be a total preorder only on the elements sorted. *)
Definition cmp_le (x y : A) : Prop := cmp x y ≠ Gt.
Context (P : A → Prop).
Context (cmp_total : ∀ x y, P x → P y → cmp x y = Gt → cmp_le y x).
Context (cmp_trans : ∀ x y z, P x → P y → P z → cmp_le x y → cmp_le y z → cmp_le x z).

Lemma insert_by_sorted x l :
  P x → Forall P l → StronglySorted cmp_le l → StronglySorted cmp_le (insert_by x l).
Proof.
  intros Hx HP Hs. induction Hs as [|y l Hs IH Hy]; simpl; [by repeat constructor|].
  apply Forall_cons in HP as [HPy HPl].
  destruct (cmp x y) eqn:E.
  3: { constructor; [by apply IH|]. rewrite insert_by_Permutation.
    constructor; [by apply cmp_total|done]. }
  all: assert (cmp_le x y) as Hxy by (unfold cmp_le; congruence).
  all: constructor; [by constructor|]; constructor; [done|].
  all: rewrite Forall_forall in Hy, HPl |- *.
  all: intros z Hz; eapply (cmp_trans x y z); auto.
Qed.

Lemma SortStableFunc_sorted l :
  Forall P l → StronglySorted cmp_le (SortStableFunc l).
Proof.
  induction 1 as [|x l Hx HP IH]; simpl; [constructor|].
  apply insert_by_sorted; [done| |done]. by rewrite SortStableFunc_Permutation.
Qed.

(** The head of the sorted list is least. *)
Lemma SortStableFunc_head l x xs :
  Forall P l → (∀ y, P y → cmp_le y y) → SortStableFunc l = x :: xs →
  ∀ y, y ∈ l → cmp_le x y.
Proof.
  intros HP Hr E y Hy. pose proof (SortStableFunc_sorted l HP) as Hs. rewrite E in Hs.
  apply elem_of_SortStableFunc in Hy as Hy'. rewrite E in Hy'.
  apply elem_of_cons in Hy' as [->|Hy'].
  - apply Hr. rewrite Forall_forall in HP. by apply HP.
  - apply StronglySorted_inv in Hs as [_ Hf]. rewrite Forall_forall in Hf. by apply Hf.
Qed.
End Sorting.

(** [cmp.Compare] on strings is the byte-wise lexicographic order. *)
Lemma string_compare_le a b : String.compare a b ≠ Gt ↔ String.le a b.
Proof.
  unfold String.le, String.leb. destruct (String.compare a b); simpl; split; intros H; try done.
Qed.

(** * Positional numbers

    Big-endian digits in an arbitrary base. *)
Definition of_digits (B : Z) (l : list Z) : Z := foldl (λ a d, a * B + d) 0 l.
Fixpoint to_digits (B : Z) (n : nat) (v : Z) : list Z :=
  match n with O => [] | S n => to_digits B n (v / B) ++ [v mod B] end.
Notation digits_ok B := (Forall (λ d, 0 ≤ d < B)).

Lemma of_digits_snoc B l d : of_digits B (l ++ [d]) = of_digits B l * B + d.
Proof. unfold of_digits. by rewrite foldl_app. Qed.

Lemma of_digits_app B l1 l2 :
  of_digits B (l1 ++ l2) = of_digits B l1 * B ^ Z.of_nat (length l2) + of_digits B l2.
Proof.
  induction l2 as [|d l2 IH] using rev_ind.
  - rewrite app_nil_r. cbn. lia.
  - rewrite app_assoc, !of_digits_snoc, IH, length_app, Nat.add_1_r, Nat2Z.inj_succ,
      Z.pow_succ_r by lia. ring.
Qed.

Lemma of_digits_range B l :
  0 < B → digits_ok B l → 0 ≤ of_digits B l < B ^ Z.of_nat (length l).
Proof.
  intros HB. induction l as [|d l IH] using rev_ind; intros H.
  - cbn. lia.
  - apply Forall_app in H as [Hl [Hd _]%Forall_cons]. specialize (IH Hl).
    rewrite of_digits_snoc, length_app, Nat.add_1_r, Nat2Z.inj_succ, Z.pow_succ_r by lia. nia.
Qed.

Lemma length_to_digits B n v : length (to_digits B n v) = n.
Proof. revert v. induction n; intros; simpl; [done|]. rewrite length_app, IHn. simpl. lia. Qed.

Lemma to_digits_ok B n v : 0 < B → digits_ok B (to_digits B n v).
Proof.
  intros HB. revert v. induction n; intros; simpl; [done|].
  apply Forall_app. split; [auto|]. apply Forall_singleton. by apply Z.mod_pos_bound.
Qed.

Lemma of_to_digits B n v : 1 < B → 0 ≤ v < B ^ Z.of_nat n → of_digits B (to_digits B n v) = v.
Proof.
  intros HB. revert v. induction n as [|n IH]; intros v Hv; cbn [to_digits].
  - cbn in *. lia.
  - rewrite Nat2Z.inj_succ, Z.pow_succ_r in Hv by lia.
    rewrite of_digits_snoc, IH; [pose proof (Z.div_mod v B); lia|].
    split; [apply Z.div_pos; lia|apply Z.div_lt_upper_bound; lia].
Qed.

Lemma to_of_digits B l n :
  1 < B → digits_ok B l → length l = n → to_digits B n (of_digits B l) = l.
Proof.
  intros HB. revert n. induction l as [|d l IH] using rev_ind; intros n H Hn; subst n; [done|].
  apply Forall_app in H as [Hl [Hd _]%Forall_cons].
  rewrite length_app, Nat.add_1_r, of_digits_snoc. cbn [to_digits].
  rewrite Z.add_comm, Z.div_add, (Z.div_small d), Z.mod_add, Z.mod_small by lia.
  rewrite Z.add_0_l. by rewrite IH.
Qed.

Lemma of_digits_inj B l1 l2 :
  1 < B → digits_ok B l1 → digits_ok B l2 → length l1 = length l2 →
  of_digits B l1 = of_digits B l2 → l1 = l2.
Proof.
  intros HB H1 H2 Hl He.
  by rewrite <- (to_of_digits B l1 (length l1)), He, Hl, to_of_digits.
Qed.

Lemma of_digits_zeros B k l : of_digits B (replicate k 0 ++ l) = of_digits B l.
Proof.
  rewrite of_digits_app. replace (of_digits B (replicate k 0)) with 0; [lia|].
  induction k as [|k IH]; [done|]. rewrite replicate_S_end, of_digits_snoc. lia.
Qed.

(** * Bits *)

Lemma lxor_range n a b : 0 ≤ n → a ∈u n → b ∈u n → Z.lxor a b ∈u n.
Proof.
  intros Hn [Ha1 Ha2] [Hb1 Hb2].
  assert (0 ≤ Z.lxor a b) as H0 by (apply Z.lxor_nonneg; lia).
  split; [done|]. apply Z.bounded_iff_bits_nonneg; [done..|]. intros l Hl.
  rewrite Z.lxor_spec.
  rewrite (proj1 (Z.bounded_iff_bits_nonneg n a Hn Ha1) Ha2 l Hl).
  by rewrite (proj1 (Z.bounded_iff_bits_nonneg n b Hn Hb1) Hb2 l Hl).
Qed.

Lemma lxor_shiftl_add a b n : 0 ≤ n → b ∈u n → Z.lxor (Z.shiftl a n) b = a * 2 ^ n + b.
Proof.
  intros Hn Hb. pose proof (land_shiftl_small b a n Hn Hb) as Hl.
  rewrite Z.lxor_comm, <- Z.add_nocarry_lxor, Z.shiftl_mul_pow2 by done. lia.
Qed.

(** A property of the [n]-bit words is settled by testing them all. *)
Lemma forallb_words (n : nat) (P : Z → bool) :
  forallb P (map Z.of_nat (seq 0 n)) = true → ∀ a, 0 ≤ a < Z.of_nat n → P a = true.
Proof.
  rewrite forallb_forall. intros H a Ha. apply H. apply in_map_iff.
  exists (Z.to_nat a). split; [lia|]. apply in_seq. lia.
Qed.
