(* ===== verification/Sha256.v ===== *)
(** * Go's crypto/sha256

    SHA-256 (FIPS 180-4) as the standard library computes it, executable on
    byte lists.  The miner, the address checksums, the BIP-39 checksum and
    the Noise key schedule all use it, so their witnesses run on real data
    (the genesis block header, real addresses). *)
From S2P Require Import Prelude.

Open Scope Z_scope.

Definition rotr (n x : Z) : Z :=
  Z.lor (Z.shiftr x n) (wrap 32 (Z.shiftl x (32 - n))).

(** The constants of FIPS 180-4, by their definition: the first 32 bits of the
    fractional parts of the cube roots of the first 64 primes, and of the
    square roots of the first 8. *)
Definition is_prime (n : Z) : bool :=
  (2 <=? n) && forallb (λ d, negb (n mod d =? 0)) (seqZ 2 (Z.sqrt n - 1)).
Definition primes : list Z := List.filter is_prime (seqZ 2 310).

(** The integer cube root, bit by bit from the top. *)
Fixpoint icbrt (bits : nat) (acc n : Z) : Z :=
  match bits with
  | O => acc
  | S k => let c := acc + 2 ^ Z.of_nat k in icbrt k (if c ^ 3 <=? n then c else acc) n
  end.

Definition sha256_K : list Z :=
  Eval vm_compute in map (λ p, wrap 32 (icbrt 40 0 (p * 2 ^ 96))) primes.
Definition sha256_H0 : list Z :=
  Eval vm_compute in map (λ p, wrap 32 (Z.sqrt (p * 2 ^ 64))) (take 8 primes).

(** [n] big-endian bytes of [v]. *)
Definition be_bytes (n : nat) (v : Z) : list Z := reverse (le_bytes n v).

Definition sha256_pad (msg : list Z) : list Z :=
  let l := length msg in
  let zeros := ((119 - l `mod` 64) `mod` 64)%nat in
  msg ++ [0x80] ++ replicate zeros 0 ++ be_bytes 8 (8 * Z.of_nat l).

(** The message schedule, newest word first. *)
Fixpoint sha256_extend (k : nat) (w : list Z) : list Z :=
  match k with
  | O => w
  | S k =>
      let w15 := nth 14 w 0 in
      let w2 := nth 1 w 0 in
      let s0 := Z.lxor (Z.lxor (rotr 7 w15) (rotr 18 w15)) (Z.shiftr w15 3) in
      let s1 := Z.lxor (Z.lxor (rotr 17 w2) (rotr 19 w2)) (Z.shiftr w2 10) in
      sha256_extend k (wrap 32 (nth 15 w 0 + s0 + nth 6 w 0 + s1) :: w)
  end.

Definition sha256_words (block : list Z) : list Z :=
  map (λ i, be_Z (slice (4 * i) (4 * i + 4) block)) (seq 0 16).

Definition sha256_round (st : list Z) (kw : Z * Z) : list Z :=
  match st with
  | [a; b; c; d; e; f; g; h] =>
      let S1 := Z.lxor (Z.lxor (rotr 6 e) (rotr 11 e)) (rotr 25 e) in
      let ch := Z.lxor (Z.land e f) (Z.land (Z.lxor e 0xffffffff) g) in
      let t1 := wrap 32 (h + S1 + ch + fst kw + snd kw) in
      let S0 := Z.lxor (Z.lxor (rotr 2 a) (rotr 13 a)) (rotr 22 a) in
      let maj := Z.lxor (Z.lxor (Z.land a b) (Z.land a c)) (Z.land b c) in
      let t2 := wrap 32 (S0 + maj) in
      [wrap 32 (t1 + t2); a; b; c; wrap 32 (d + t1); e; f; g]
  | _ => st
  end.

Definition sha256_compress (h block : list Z) : list Z :=
  let w := reverse (sha256_extend 48 (reverse (sha256_words block))) in
  let st := foldl sha256_round h (zip sha256_K w) in
  zip_with (λ x y, wrap 32 (x + y)) h st.

Fixpoint sha256_blocks (n : nat) (h msg : list Z) : list Z :=
  match n with
  | O => h
  | S n => sha256_blocks n (sha256_compress h (take 64 msg)) (drop 64 msg)
  end.

(** [sha256.Sum256]. *)
Definition Sum256 (msg : list Z) : list Z :=
  let p := sha256_pad msg in
  concat (map (be_bytes 4) (sha256_blocks (length p / 64) sha256_H0 p)).

(** ** The digest is always 32 bytes *)

Lemma length_sha256_round st kw : length st = 8%nat → length (sha256_round st kw) = 8%nat.
Proof. intros H. do 9 (destruct st as [|? st]; try done). Qed.

Lemma length_sha256_rounds kws st :
  length st = 8%nat → length (foldl sha256_round st kws) = 8%nat.
Proof.
  revert st. induction kws as [|kw kws IH]; intros st Hs; [done|].
  simpl. by apply IH, length_sha256_round.
Qed.

Lemma length_sha256_compress h block :
  length h = 8%nat → length (sha256_compress h block) = 8%nat.
Proof.
  intros Hh. unfold sha256_compress. rewrite length_zip_with, Hh.
  by rewrite length_sha256_rounds.
Qed.

Lemma length_sha256_blocks n h msg :
  length h = 8%nat → length (sha256_blocks n h msg) = 8%nat.
Proof.
  revert h msg. induction n as [|n IH]; intros h msg Hh; [done|].
  simpl. by apply IH, length_sha256_compress.
Qed.

Lemma length_be_bytes n v : length (be_bytes n v) = n.
Proof. unfold be_bytes. by rewrite length_reverse, length_le_bytes. Qed.

Lemma be_bytes_ok n v : bytes_ok (be_bytes n v).
Proof. apply bytes_ok_reverse, le_bytes_ok. Qed.

Lemma length_concat_words ws : length (concat (map (be_bytes 4) ws)) = (4 * length ws)%nat.
Proof.
  induction ws as [|w ws IH]; [done|]. cbn [map concat length].
  rewrite length_app, length_be_bytes, IH. lia.
Qed.

Lemma length_Sum256 msg : length (Sum256 msg) = 32%nat.
Proof.
  unfold Sum256. rewrite length_concat_words.
  by rewrite length_sha256_blocks.
Qed.

Lemma Sum256_bytes_ok msg : bytes_ok (Sum256 msg).
Proof.
  unfold Sum256. apply Forall_concat, Forall_map, Forall_true. intros. apply be_bytes_ok.
Qed.

#[export] Hint Resolve Sum256_bytes_ok be_bytes_ok : otd.
#[export] Hint Rewrite length_Sum256 length_be_bytes : otd.

(** ** Test vectors (FIPS 180-4) *)

Example Sum256_abc :
  be_Z (Sum256 [0x61; 0x62; 0x63]) =
  0xba7816bf8f01cfea414140de5dae2223b00361a396177a9cb410ff61f20015ad.
Proof. vm_compute. reflexivity. Qed.

Example Sum256_empty :
  be_Z (Sum256 []) = 0xe3b0c44298fc1c149afbf4c8996fb92427ae41e4649b934ca495991b7852b855.
Proof. vm_compute. reflexivity. Qed.

Example Sum256_two_blocks :
  be_Z (Sum256 (bytes_of_string "abcdbcdecdefdefgefghfghighijhijkijkljklmklmnlmnomnopnopq")) =
  0x248d6a61d20638b8e5c026930c3e6039a33ce45964ff2167f6ecedd419db06c1.
Proof. vm_compute. reflexivity. Qed.
