(* ===== verification/Float64.v ===== *)
(** * Go's float64 and math/big.Float

    IEEE 754 binary64 values and operations, executable, through the Standard
    Library's [SpecFloat] (round to nearest, ties to even), and the big.Float
    quotient the miner uses.  NaN payloads are not distinguished: Go code
    here never inspects them.

    The lemmas give what the arbitration engine relies on: [<] is a strict
    weak order on non-NaN values, products of positive values are never NaN,
    results of operations are canonical, and the difference of an ordered
    pair of finite values is non-negative. *)
From Stdlib Require Import SpecFloat.
From S2P Require Import Prelude.

Open Scope Z_scope.

Definition float64 : Type := spec_float.

Definition f64_prec : Z := 53.
Definition f64_emax : Z := 1024.

Definition fadd : float64 → float64 → float64 := SFadd f64_prec f64_emax.
Definition fsub : float64 → float64 → float64 := SFsub f64_prec f64_emax.
Definition fmul : float64 → float64 → float64 := SFmul f64_prec f64_emax.
Definition fdiv : float64 → float64 → float64 := SFdiv f64_prec f64_emax.
(** Go's [<], [<=] and [==]. *)
Definition flt : float64 → float64 → bool := SFltb.
Definition fle : float64 → float64 → bool := SFleb.
Definition feq : float64 → float64 → bool := SFeqb.
(** [float64(n)]. *)
Definition f64_of_Z (n : Z) : float64 := binary_normalize f64_prec f64_emax n 0 false.
(** The constant [n / d], correctly rounded, as the compiler converts a decimal. *)
Definition f64_const (n d : Z) : float64 := fdiv (f64_of_Z n) (f64_of_Z d).

Definition fzero : float64 := S754_zero false.
Definition fone : float64 := f64_of_Z 1.

(** [math.IsNaN], [math.IsInf(f, 0)]. *)
Definition IsNaN (f : float64) : bool := match f with S754_nan => true | _ => false end.
Definition IsInf (f : float64) : bool := match f with S754_infinity _ => true | _ => false end.
Definition signbit (f : float64) : bool :=
  match f with
  | S754_zero s | S754_infinity s | S754_finite s _ _ => s
  | S754_nan => false
  end.

(** The builtin [min] and [max]: NaN is contagious and -0.0 < +0.0. *)
Definition fmin (x y : float64) : float64 :=
  if IsNaN x || IsNaN y then S754_nan
  else if flt x y then x else if flt y x then y
  else if signbit x then x else y.
Definition fmax (x y : float64) : float64 :=
  if IsNaN x || IsNaN y then S754_nan
  else if flt x y then y else if flt y x then x
  else if signbit x then y else x.

(** [cmp.Compare] on floats: NaN equals NaN and precedes everything else. *)
Definition fcompare (x y : float64) : comparison :=
  match IsNaN x, IsNaN y with
  | true, true => Eq
  | true, false => Lt
  | false, true => Gt
  | false, false => if flt x y then Lt else if flt y x then Gt else Eq
  end.

(** ** big.Float *)

(** [Quo] with the receiver's precision, nearest-even; the exponent range of
    big.Float (int32) is never reached by the operands used here. *)
Definition big_emax : Z := 2 ^ 31.
Definition big_Quo (prec : Z) : spec_float → spec_float → spec_float := SFdiv prec big_emax.
(** [SetInt] of a positive integer that fits the precision. *)
Definition big_SetInt (v : Z) : spec_float :=
  match v with Zpos p => S754_finite false p 0 | Zneg p => S754_finite true p 0 | Z0 => S754_zero false end.
(** [SetPrec(prec).SetInt(v)] of a positive integer: rounded to the precision. *)
Definition big_round (prec v : Z) : spec_float :=
  match v with
  | Zpos p => binary_round_aux prec big_emax false (Zpos p) 0 loc_Exact
  | Zneg p => binary_round_aux prec big_emax true (Zpos p) 0 loc_Exact
  | Z0 => S754_zero false
  end.
(** [Int]: truncation toward zero. *)
Definition big_Int (f : spec_float) : Z :=
  match f with
  | S754_finite s m e =>
      let a := if 0 <=? e then Zpos m * 2 ^ e else Zpos m / 2 ^ (- e) in
      if s then - a else a
  | _ => 0
  end.
(** [Float64]: round to binary64. *)
Definition big_Float64 (f : spec_float) : float64 :=
  match f with
  | S754_finite s m e => binary_round_aux f64_prec f64_emax s (Zpos m) e loc_Exact
  | _ => f
  end.

(** ** The order *)

(** The value's place in the order: class, exponent, mantissa. *)
Definition fkey (f : float64) : Z * Z * Z :=
  match f with
  | S754_infinity true => (-2, 0, 0)
  | S754_finite true m e => (-1, - e, - Zpos m)
  | S754_zero _ | S754_nan => (0, 0, 0)
  | S754_finite false m e => (1, e, Zpos m)
  | S754_infinity false => (2, 0, 0)
  end.

Definition klt (a b : Z * Z * Z) : Prop :=
  let '(a1, a2, a3) := a in
  let '(b1, b2, b3) := b in
  a1 < b1 ∨ (a1 = b1 ∧ (a2 < b2 ∨ (a2 = b2 ∧ a3 < b3))).

Lemma SFcompare_key a b :
  IsNaN a = false → IsNaN b = false →
  match SFcompare a b with
  | Some Lt => klt (fkey a) (fkey b)
  | Some Gt => klt (fkey b) (fkey a)
  | Some Eq => fkey a = fkey b
  | None => False
  end.
Proof.
  destruct a as [sa|sa| |sa ma ea], b as [sb|sb| |sb mb eb]; try done; intros _ _;
    try (destruct sa); try (destruct sb); cbn -[Z.compare]; try done; try lia.
  all: destruct (Z.compare_spec ea eb); cbn; try lia.
  all: change (Pos.compare_cont Eq ma mb) with (Pos.compare ma mb);
    destruct (Pos.compare_spec ma mb); cbn; subst; try lia; done.
Qed.

Lemma flt_key a b :
  IsNaN a = false → IsNaN b = false → flt a b = true ↔ klt (fkey a) (fkey b).
Proof.
  intros Ha Hb. pose proof (SFcompare_key a b Ha Hb) as H. unfold flt, SFltb.
  destruct (fkey a) as [[a1 a2] a3], (fkey b) as [[b1 b2] b3]. unfold klt in *.
  destruct (SFcompare a b) as [[]|]; try done; split; try done; intros; simplify_eq; lia.
Qed.

Lemma feq_key a b :
  IsNaN a = false → IsNaN b = false → feq a b = true ↔ fkey a = fkey b.
Proof.
  intros Ha Hb. pose proof (SFcompare_key a b Ha Hb) as H. unfold feq, SFeqb.
  destruct (fkey a) as [[a1 a2] a3], (fkey b) as [[b1 b2] b3]. unfold klt in *.
  destruct (SFcompare a b) as [[]|]; try done; split; try done; intros; simplify_eq; lia.
Qed.

Lemma fle_key a b :
  IsNaN a = false → IsNaN b = false → fle a b = true ↔ ¬ klt (fkey b) (fkey a).
Proof.
  intros Ha Hb. pose proof (SFcompare_key a b Ha Hb) as H. unfold fle, SFleb.
  destruct (fkey a) as [[a1 a2] a3], (fkey b) as [[b1 b2] b3]. unfold klt in *.
  destruct (SFcompare a b) as [[]|]; try done; split; try done; intros; simplify_eq; lia.
Qed.

Lemma flt_not_nan a b : flt a b = true → IsNaN a = false ∧ IsNaN b = false.
Proof. unfold flt, SFltb. destruct a, b; done. Qed.

Lemma flt_fle_neg a b :
  IsNaN a = false → IsNaN b = false → flt a b = false ↔ fle b a = true.
Proof.
  intros Ha Hb. rewrite fle_key by done. rewrite <- flt_key by done.
  destruct (flt a b); split; congruence.
Qed.

Ltac abstract_key a :=
  let k := fresh "k" in let E := fresh "E" in
  remember (fkey a) as k eqn:E; clear E; destruct k as [[? ?] ?].

(** Decide goals about [flt]/[fle]/[feq] on non-NaN values by their keys. *)
Ltac fkeys :=
  repeat match goal with
  | H : flt ?a ?b = true |- _ => apply flt_key in H; [|by auto..]
  | H : fle ?a ?b = true |- _ => apply fle_key in H; [|by auto..]
  | H : feq ?a ?b = true |- _ => apply feq_key in H; [|by auto..]
  | H : flt ?a ?b = false |- _ => apply flt_fle_neg in H; [|by auto..]
  | |- flt ?a ?b = true => apply flt_key; [by auto..|]
  | |- fle ?a ?b = true => apply fle_key; [by auto..|]
  | |- feq ?a ?b = true => apply feq_key; [by auto..|]
  | |- flt ?a ?b = false => apply flt_fle_neg; [by auto..|]
  end;
  repeat match goal with
  | H : context [fkey ?a] |- _ => abstract_key a
  | |- context [fkey ?a] => abstract_key a
  end; unfold klt in *; simplify_eq/=; try lia; try (repeat f_equal; lia).

Lemma flt_trans a b c : flt a b = true → flt b c = true → flt a c = true.
Proof.
  intros H1 H2. destruct (flt_not_nan _ _ H1), (flt_not_nan _ _ H2). fkeys.
Qed.

Lemma fle_trans a b c :
  IsNaN a = false → IsNaN b = false → IsNaN c = false →
  fle a b = true → fle b c = true → fle a c = true.
Proof. intros. fkeys. Qed.

Lemma fle_lt_trans a b c :
  IsNaN a = false → fle a b = true → flt b c = true → flt a c = true.
Proof. intros ? ? H. destruct (flt_not_nan _ _ H). fkeys. Qed.

Lemma fle_refl a : IsNaN a = false → fle a a = true.
Proof. intros. fkeys. Qed.

Lemma flt_le a b : flt a b = true → fle a b = true.
Proof. intros H. destruct (flt_not_nan _ _ H). fkeys. Qed.

Lemma fle_total a b : IsNaN a = false → IsNaN b = false → fle a b = true ∨ fle b a = true.
Proof.
  intros. destruct (flt a b) eqn:E.
  - left. by apply flt_le.
  - right. by apply flt_fle_neg.
Qed.

(** ** Rounding *)

Abbreviation f64_fexp := (SpecFloat.fexp f64_prec f64_emax).
Definition fvalid (f : float64) : Prop := valid_binary f64_prec f64_emax f = true.

Lemma f64_fexp_eq e : f64_fexp e = Z.max (e - 53) (-1074).
Proof. reflexivity. Qed.

Lemma Zdigits2_log2 m : 0 < m → Zdigits2 m = Z.log2 m + 1.
Proof.
  destruct m as [|p|p]; try lia. intros _.
  change (Zdigits2 (Zpos p)) with (Zpos (digits2_pos p)).
  induction p as [p IH|p IH|]; cbn [digits2_pos]; [| |done].
  all: rewrite Pos2Z.inj_succ, IH.
  - rewrite Pos2Z.inj_xI, Z.log2_succ_double by lia. lia.
  - rewrite Pos2Z.inj_xO, Z.log2_double by lia. lia.
Qed.

Lemma shr_1_m r : 0 ≤ shr_m r → shr_m (shr_1 r) = shr_m r / 2.
Proof.
  destruct r as [m rr s]. cbn [shr_m shr_1]. intros Hm.
  destruct m as [|[p|p|]|p]; cbn [shr_m]; try done.
  - rewrite Pos2Z.inj_xI. apply Z.div_unique with 1; lia.
  - rewrite Pos2Z.inj_xO. apply Z.div_unique with 0; lia.
Qed.

Lemma shr_iter_m p r :
  0 ≤ shr_m r →
  shr_m (SpecFloat.iter_pos shr_1 p r) = shr_m r / 2 ^ Zpos p ∧
  0 ≤ shr_m (SpecFloat.iter_pos shr_1 p r).
Proof.
  assert (∀ x k, 0 ≤ x → 0 ≤ x / 2 ^ k) as Hpos.
  { intros x k Hx. destruct (decide (k < 0)).
    - rewrite Z.pow_neg_r, Zdiv_0_r by lia. lia.
    - apply Z.div_pos; lia. }
  revert r. induction p as [p IH|p IH|]; intros r Hr; cbn [SpecFloat.iter_pos].
  - assert (0 ≤ shr_m (shr_1 r)) as H1 by (rewrite shr_1_m by done; apply Z.div_pos; lia).
    destruct (IH _ H1) as [E1 P1]. destruct (IH _ P1) as [E2 P2]. split; [|done].
    rewrite E2, E1, shr_1_m, !Zdiv_Zdiv by lia. f_equal.
    rewrite <- (Z.pow_1_r 2) at 1. rewrite <- !Z.pow_add_r by lia. f_equal. lia.
  - destruct (IH _ Hr) as [E1 P1]. destruct (IH _ P1) as [E2 P2]. split; [|done].
    rewrite E2, E1, !Zdiv_Zdiv by lia. f_equal. rewrite <- Z.pow_add_r by lia. f_equal. lia.
  - rewrite shr_1_m by done. change (2 ^ 1) with 2. split; [done|apply Z.div_pos; lia].
Qed.

Lemma shr_m_of_loc m l : shr_m (shr_record_of_loc m l) = m.
Proof. by destruct l as [|[]]. Qed.

(** A shift to the canonical exponent keeps the magnitude's scale. *)
Lemma shr_fexp_spec m e l r e' :
  0 ≤ m → e ≤ f64_fexp (Zdigits2 m + e) →
  shr_fexp f64_prec f64_emax m e l = (r, e') →
  e' = f64_fexp (Zdigits2 m + e) ∧ shr_m r = m / 2 ^ (e' - e) ∧ 0 ≤ shr_m r ∧
  (0 < shr_m r → Zdigits2 (shr_m r) + e' = Zdigits2 m + e).
Proof.
  intros Hm He H. unfold shr_fexp, shr in H.
  assert (e' = f64_fexp (Zdigits2 m + e) ∧ shr_m r = m / 2 ^ (e' - e)) as [-> Hr].
  { destruct (f64_fexp (Zdigits2 m + e) - e) as [|p|p] eqn:En; simplify_eq.
    - rewrite shr_m_of_loc. replace (f64_fexp _) with e' by lia.
      by rewrite Z.sub_diag, Z.div_1_r.
    - destruct (shr_iter_m p (shr_record_of_loc m l)) as [Hs _]; rewrite shr_m_of_loc in *; [done|].
      rewrite Hs. split; [lia|]. f_equal. f_equal. lia.
    - lia. }
  split_and!; [done|done|rewrite Hr; apply Z.div_pos; lia|].
  intros Hp. assert (0 < m).
  { destruct (decide (m = 0)) as [->|]; [|lia]. rewrite Z.div_0_l in Hr by lia. lia. }
  set (E := f64_fexp (Zdigits2 m + e)) in *. clearbody E.
  rewrite !Zdigits2_log2 by done. rewrite Hr in *.
  rewrite <- Z.shiftr_div_pow2 in * by lia. rewrite Z.log2_shiftr by done.
  assert (E - e ≤ Z.log2 m); [|lia].
  rewrite Z.shiftr_div_pow2 in Hp by lia.
  destruct (decide (E - e ≤ Z.log2 m)); [done|].
  rewrite Z.div_small in Hp; [lia|]. split; [lia|].
  apply Z.log2_lt_pow2; lia.
Qed.

Lemma round_nearest_even_range m l : m ≤ round_nearest_even m l ≤ m + 1.
Proof. unfold round_nearest_even. destruct l as [|[]]; try lia. destruct (Z.even m); lia. Qed.

Lemma Zdigits2_mono a b : 0 ≤ a ≤ b → Zdigits2 a ≤ Zdigits2 b.
Proof.
  intros H. destruct (decide (a = 0)) as [->|].
  - simpl. destruct (decide (b = 0)) as [->|]; [done|].
    rewrite Zdigits2_log2 by lia. pose proof (Z.log2_nonneg b). lia.
  - rewrite !Zdigits2_log2 by lia. pose proof (Z.log2_le_mono a b). lia.
Qed.

(** Rounding a non-negative magnitude: never NaN, the sign requested, canonical. *)
Lemma binary_round_aux_spec s m e l :
  0 ≤ m → e ≤ f64_fexp (Zdigits2 m + e) →
  let r := binary_round_aux f64_prec f64_emax s m e l in
  fvalid r ∧ IsNaN r = false ∧ signbit r = s.
Proof.
  intros Hm He. unfold binary_round_aux.
  destruct (shr_fexp _ _ m e l) as [r1 e1] eqn:E1.
  destruct (shr_fexp_spec m e l r1 e1 Hm He E1) as (He1 & Hr1 & Hp1 & Hd1).
  pose proof (round_nearest_even_range (shr_m r1) (loc_of_shr_record r1)) as Hrd.
  set (m2 := round_nearest_even _ _) in *.
  assert (e1 ≤ f64_fexp (Zdigits2 m2 + e1)) as He2.
  { rewrite f64_fexp_eq in *. destruct (decide (shr_m r1 = 0)) as [Hz|Hz].
    - assert (e1 = -1074); [|lia].
      destruct (decide (0 < m)); [|assert (m = 0) as -> by lia; simpl in *; lia].
      rewrite Zdigits2_log2 in He1, He by done.
      assert (m < 2 ^ (e1 - e)) as Hlt.
      { rewrite Hz in Hr1. symmetry in Hr1. apply Z.div_small_iff in Hr1; [lia|].
        apply Z.pow_nonzero; lia. }
      assert (0 ≤ e1 - e) by lia.
      apply Z.log2_lt_pow2 in Hlt; [|lia]. lia.
    - specialize (Hd1 ltac:(lia)).
      pose proof (Zdigits2_mono (shr_m r1) m2 ltac:(lia)). lia. }
  destruct (shr_fexp _ _ m2 e1 loc_Exact) as [r2 e2] eqn:E2.
  destruct (shr_fexp_spec m2 e1 loc_Exact r2 e2 ltac:(lia) He2 E2) as (He2' & _ & Hp2 & Hd2).
  destruct (shr_m r2) as [|p|p] eqn:Hr2; [done| |lia].
  destruct (Z.leb_spec e2 (f64_emax - f64_prec)) as [Hle|Hle]; [|done].
  split_and!; [|done|done]. unfold fvalid. cbn [valid_binary]. unfold bounded, canonical_mantissa.
  specialize (Hd2 ltac:(lia)). cbn [Zdigits2] in Hd2.
  apply andb_true_intro. split; [|by apply Z.leb_le].
  apply Z.eqb_eq. rewrite Hd2. by symmetry.
Qed.

Lemma fvalid_finite s m e :
  fvalid (S754_finite s m e) ↔
  Z.max (Zdigits2 (Zpos m) + e - 53) (-1074) = e ∧ e ≤ 971.
Proof.
  unfold fvalid. cbn [valid_binary]. unfold bounded, canonical_mantissa.
  rewrite andb_true_iff, Z.eqb_eq, Z.leb_le. reflexivity.
Qed.

Lemma shl_align_spec m e e' :
  let '(m', e'') := shl_align m e e' in
  Zpos m' = Zpos m * 2 ^ (e - e'') ∧ e'' = Z.min e e'.
Proof.
  unfold shl_align. destruct (e' - e) as [|d|d] eqn:E.
  - rewrite Z.sub_diag. split; lia.
  - rewrite Z.sub_diag. split; lia.
  - split; [|lia]. replace (e - e') with (Zpos d) by lia.
    clear E. induction d as [|d IH] using Pos.peano_ind.
    + cbn. lia.
    + rewrite Pos.iter_succ, Pos2Z.inj_succ, Z.pow_succ_r, Pos2Z.inj_xO, IH by lia. lia.
Qed.

Lemma Zdigits2_shift m k : 0 < m → 0 ≤ k → Zdigits2 (m * 2 ^ k) = Zdigits2 m + k.
Proof.
  intros. rewrite !Zdigits2_log2, Z.log2_mul_pow2 by nia. lia.
Qed.

Lemma binary_round_spec s m e :
  let r := binary_round f64_prec f64_emax s m e in
  fvalid r ∧ IsNaN r = false ∧ signbit r = s.
Proof.
  unfold binary_round. pose proof (shl_align_spec m e (f64_fexp (Zpos (digits2_pos m) + e))) as H.
  change (Zpos (digits2_pos m)) with (Zdigits2 (Zpos m)) in *.
  destruct (shl_align _ _ _) as [mz ez]. destruct H as [Hm He].
  apply binary_round_aux_spec; [lia|].
  rewrite Hm, Zdigits2_shift by lia. rewrite f64_fexp_eq in *. lia.
Qed.

(** A float that is not NaN and whose sign is +. *)
Definition fnonneg (f : float64) : Prop := IsNaN f = false ∧ signbit f = false.
(** A positive finite float. *)
Definition fpos (f : float64) : Prop := ∃ m e, f = S754_finite false m e.

Lemma fpos_nonneg f : fpos f → fnonneg f.
Proof. by intros (m & e & ->). Qed.

Lemma fpos_not_nan f : fpos f → IsNaN f = false.
Proof. by intros (m & e & ->). Qed.

Lemma flt_zero_fpos f : flt fzero f = true → IsInf f = false → fpos f.
Proof. unfold flt, SFltb, fpos. destruct f as [[]|[]| |[]]; try done; eauto. Qed.

Lemma fpos_flt_zero f : fpos f → flt fzero f = true.
Proof. by intros (m & e & ->). Qed.

Lemma fnonneg_fle_zero f : fnonneg f ↔ IsNaN f = false ∧ (fle fzero f = true ∧ (feq fzero f = true → signbit f = false)).
Proof. unfold fnonneg, fle, feq, SFleb, SFeqb. destruct f as [[]|[]| |[]]; naive_solver. Qed.

Lemma fmul_fpos a b :
  fvalid a → fvalid b → fpos a → fpos b → fvalid (fmul a b) ∧ fnonneg (fmul a b).
Proof.
  intros Ha Hb (ma & ea & ->) (mb & eb & ->). apply fvalid_finite in Ha, Hb.
  unfold fmul. cbn [SFmul xorb].
  destruct (binary_round_aux_spec false (Zpos (ma * mb)) (ea + eb) loc_Exact) as (? & ? & ?);
    [lia| |done].
  rewrite f64_fexp_eq, Pos2Z.inj_mul. rewrite !Zdigits2_log2 in * by lia.
  pose proof (Z.log2_mul_below (Zpos ma) (Zpos mb)).
  pose proof (Z.log2_nonneg (Zpos ma)). pose proof (Z.log2_nonneg (Zpos mb)). lia.
Qed.

Lemma binary_normalize_nonneg m e :
  0 ≤ m → let r := binary_normalize f64_prec f64_emax m e false in fvalid r ∧ fnonneg r.
Proof.
  intros Hm. destruct m as [|p|p]; [done| |lia]. cbn [binary_normalize].
  destruct (binary_round_spec false p e) as (? & ? & ?). done.
Qed.

Lemma f64_of_Z_nonneg n : 0 ≤ n → fvalid (f64_of_Z n) ∧ fnonneg (f64_of_Z n).
Proof. apply binary_normalize_nonneg. Qed.

Lemma fadd_nonneg a b :
  fvalid a → fvalid b → fnonneg a → fnonneg b → fvalid (fadd a b) ∧ fnonneg (fadd a b).
Proof.
  intros Va Vb [Na Sa] [Nb Sb].
  destruct a as [[]|[]| |[] ma ea], b as [[]|[]| |[] mb eb]; try done.
  apply binary_normalize_nonneg. cbn. lia.
Qed.

(** Among canonical finite values the order of the keys is the order of the
    magnitudes, so an ordered difference is non-negative. *)
Lemma fkey_magnitude ma ea mb eb :
  fvalid (S754_finite false ma ea) → fvalid (S754_finite false mb eb) →
  fle (S754_finite false mb eb) (S754_finite false ma ea) = true →
  Zpos mb * 2 ^ (eb - Z.min ea eb) ≤ Zpos ma * 2 ^ (ea - Z.min ea eb).
Proof.
  intros Va Vb H. apply fvalid_finite in Va, Vb. apply fle_key in H; [|done..].
  cbn [fkey] in H. unfold klt in H. rewrite !Zdigits2_log2 in * by lia.
  destruct (Z.compare_spec ea eb) as [->|Hlt|Hgt]; [|lia|].
  - rewrite Z.min_id, Z.sub_diag. lia.
  - rewrite Z.min_r, Z.sub_diag, Z.mul_1_r by lia.
    assert (2 ^ 52 ≤ Zpos ma) by (apply Z.log2_le_pow2; lia).
    assert (Zpos mb < 2 ^ 53) by (apply Z.log2_lt_pow2; lia).
    assert (2 ^ 1 ≤ 2 ^ (ea - eb)) by (apply Z.pow_le_mono_r; lia). nia.
Qed.

Lemma fsub_nonneg a b :
  fvalid a → fvalid b → fpos a → fpos b → fle b a = true →
  fvalid (fsub a b) ∧ fnonneg (fsub a b).
Proof.
  intros Va Vb (ma & ea & ->) (mb & eb & ->) Hle.
  pose proof (fkey_magnitude _ _ _ _ Va Vb Hle) as Hm.
  unfold fsub. cbn [SFsub]. apply binary_normalize_nonneg. cbn [cond_Zopp].
  pose proof (shl_align_spec ma ea (Z.min ea eb)) as HA.
  pose proof (shl_align_spec mb eb (Z.min ea eb)) as HB.
  destruct (shl_align ma ea _) as [xa ya], (shl_align mb eb _) as [xb yb]. cbn [fst].
  destruct HA as [-> ->], HB as [-> ->].
  rewrite (Z.min_r ea), (Z.min_r eb) by lia. lia.
Qed.

Lemma fsub_self a : fpos a → fsub a a = fzero.
Proof.
  intros (m & e & ->). unfold fsub. cbn [SFsub cond_Zopp]. by rewrite Z.sub_diag.
Qed.

(** Values of Go's float64 other than NaN. *)
Definition fnum (f : float64) : Prop := fvalid f ∧ IsNaN f = false.

Lemma binary_normalize_num m e : fnum (binary_normalize f64_prec f64_emax m e false).
Proof.
  destruct m as [|p|p]; [done|..]; cbn [binary_normalize].
  - destruct (binary_round_spec false p e) as (? & ? & ?). done.
  - destruct (binary_round_spec true p e) as (? & ? & ?). done.
Qed.

Lemma f64_of_Z_num n : fnum (f64_of_Z n).
Proof. apply binary_normalize_num. Qed.

(** A product with a positive finite factor is a number. *)
Lemma fmul_num a b : fnum a → fvalid b → fpos b → fnum (fmul a b) ∧ fnum (fmul b a).
Proof.
  intros [Va Na] Vb (mb & eb & ->).
  destruct a as [sa|sa| |sa ma ea]; try done.
  apply fvalid_finite in Va, Vb. unfold fmul. cbn [SFmul].
  rewrite !Zdigits2_log2 in * by lia.
  pose proof (Z.log2_mul_below (Zpos ma) (Zpos mb)).
  pose proof (Z.log2_nonneg (Zpos ma)). pose proof (Z.log2_nonneg (Zpos mb)).
  split.
  - destruct (binary_round_aux_spec (xorb sa false) (Zpos (ma * mb)) (ea + eb) loc_Exact)
      as (? & ? & ?); [lia| |done].
    rewrite f64_fexp_eq, Pos2Z.inj_mul, Zdigits2_log2; lia.
  - destruct (binary_round_aux_spec (xorb false sa) (Zpos (mb * ma)) (eb + ea) loc_Exact)
      as (? & ? & ?); [lia| |done].
    rewrite f64_fexp_eq, Pos2Z.inj_mul, Zdigits2_log2, Z.mul_comm; lia.
Qed.

(** So is a sum with a positive finite term. *)
Lemma fadd_num a b : fvalid a → fpos a → fnum b → fnum (fadd a b).
Proof.
  intros Va (ma & ea & ->) [Vb Nb].
  destruct b as [sb|sb| |sb mb eb]; try done.
  apply binary_normalize_num.
Qed.

Example f64_105 : f64_const 105 100 = S754_finite false 4728779608739021 (-52).
Proof. vm_compute. reflexivity. Qed.
