(* ===== verification/Sha256d.v ===== *)
(** * internal/miner/sha256d.go

    The 80-byte block header, double SHA-256, the 256-bit comparison of
    hashes, and the compact (nBits) and difficulty encodings of targets.
    Hashes and targets are little-endian 32-byte lists, as the Go [Hash]
    type; [le_Z] is their numeric value. *)
From Stdlib Require Import SpecFloat.
From S2P Require Import Prelude.
From S2P Require Import Sha256.
From S2P Require Import Float64.

Open Scope Z_scope.

Definition HeaderSize : nat := 80.

Record Header := {
  Version : Z;
  PrevHash : list Z;    (* [32]byte *)
  MerkleRoot : list Z;  (* [32]byte *)
  Time : Z;
  Bits : Z;
  Nonce : Z;
}.

Definition Header_Bytes (h : Header) : list Z :=
  le_bytes 4 (Version h) ++ PrevHash h ++ MerkleRoot h ++
  le_bytes 4 (Time h) ++ le_bytes 4 (Bits h) ++ le_bytes 4 (Nonce h).

Definition ParseHeader (b : list Z) : Header := {|
  Version := le_Z (slice 0 4 b);
  PrevHash := slice 4 36 b;
  MerkleRoot := slice 36 68 b;
  Time := le_Z (slice 68 72 b);
  Bits := le_Z (slice 72 76 b);
  Nonce := le_Z (slice 76 80 b);
|}.

Definition Hash : Type := list Z.

(** The loop [for i := 31; i >= 0; i--]. *)
Fixpoint LessOrEqual_loop (k : nat) (h other : Hash) : bool :=
  match k with
  | O => true
  | S i =>
      if nth i h 0 <? nth i other 0 then true
      else if nth i other 0 <? nth i h 0 then false
      else LessOrEqual_loop i h other
  end.
Definition LessOrEqual (h other : Hash) : bool := LessOrEqual_loop 32 h other.

Definition SHA256d (data : list Z) : Hash := Sum256 (Sum256 data).
Definition HashHeader (h : Header) : Hash := SHA256d (Header_Bytes h).

(** [copy(be[32-len(b):], b)] followed by the byte reversal. *)
Definition hash_of_big (b : list Z) : Hash := reverse (replicate (32 - length b) 0 ++ b).

Definition TargetFromNBits (nBits : Z) : result Hash :=
  let exp := Z.shiftr nBits 24 in
  let mant := Z.land nBits 0x007fffff in
  if negb (Z.land nBits 0x00800000 =? 0)
  then Err (Errorf "miner: nBits 0x%08X has negative mantissa bit set" [nBits])
  else if exp <? 3
  then Err (Errorf "miner: nBits 0x%08X exponent %d is below minimum 3" [nBits; exp])
  else if mant =? 0
  then Err (Errorf "miner: nBits 0x%08X has zero mantissa (target would be zero; no hash can meet it)" [nBits])
  else
    let v := Z.shiftl mant (8 * (exp - 3)) in
    let b := big_Bytes v in
    if (32 <? length b)%nat
    then Err (Errorf "miner: nBits 0x%08X target overflows 256 bits" [nBits])
    else Ok (hash_of_big b).

Definition NBitsFromTarget (target : Hash) : Z :=
  let v := be_Z (reverse target) in
  if v =? 0 then 0
  else
    let b := big_Bytes v in
    let b := if negb (Z.land (nth 0 b 0) 0x80 =? 0) then 0 :: b else b in
    let exp := wrap 8 (Z.of_nat (length b)) in
    let mant :=
      match length b with
      | 0%nat => 0
      | 1%nat => nth 0 b 0
      | 2%nat => Z.lor (Z.shiftl (nth 0 b 0) 8) (nth 1 b 0)
      | _ => Z.lor (Z.lor (Z.shiftl (nth 0 b 0) 16) (Z.shiftl (nth 1 b 0) 8)) (nth 2 b 0)
      end in
    Z.lor (Z.shiftl exp 24) mant.

Definition diff1Target : Z := Z.shiftl 0xffff 208.

Definition TargetFromDifficulty (difficulty : float64) : result Hash :=
  if negb (flt fzero difficulty) || IsInf difficulty
  then Err (Errorf "miner: invalid difficulty %v" [])
  else
    let q := big_Quo 256 (big_SetInt diff1Target) difficulty in
    let target := big_Int q in
    if target <=? 0
    then Err (Errorf "miner: difficulty %v produces a non-positive target" [])
    else
      let b := big_Bytes target in
      if (32 <? length b)%nat
      then Err (Errorf "miner: difficulty %v target overflows 256 bits" [])
      else Ok (hash_of_big b).

Definition DifficultyFromTarget (t : Hash) : float64 :=
  let tgt := be_Z (reverse t) in
  if tgt <=? 0 then S754_infinity false
  else big_Float64 (big_Quo 128 (big_SetInt diff1Target) (big_round 128 tgt)).

Definition MeetsTarget (hash : Hash) (nBits : Z) : result bool :=
  target ← TargetFromNBits nBits; Ok (LessOrEqual hash target).

(** * Hashes as 256-bit numbers *)


Lemma le_Z_hash_range h : is_hash h → 0 ≤ le_Z h < 2 ^ 256.
Proof. intros [Hl Hb]. pose proof (le_Z_range h Hb) as H. by rewrite Hl in H. Qed.

Lemma le_Z_take_S h i x :
  h !! i = Some x → le_Z (take (S i) h) = le_Z (take i h) + 256 ^ Z.of_nat i * x.
Proof.
  intros Hx. rewrite (take_S_r _ _ _ Hx), le_Z_app, length_take_le; [simpl; lia|].
  apply lookup_lt_Some in Hx. lia.
Qed.

Lemma LessOrEqual_loop_spec k h o :
  bytes_ok h → bytes_ok o → (k ≤ length h)%nat → (k ≤ length o)%nat →
  LessOrEqual_loop k h o = (le_Z (take k h) <=? le_Z (take k o)).
Proof.
  intros Hh Ho. induction k as [|i IH]; intros Hk1 Hk2; [done|].
  cbn [LessOrEqual_loop].
  destruct (lookup_lt_is_Some_2 h i) as [x Hx]; [lia|].
  destruct (lookup_lt_is_Some_2 o i) as [y Hy]; [lia|].
  rewrite (nth_lookup_Some _ _ _ _ Hx), (nth_lookup_Some _ _ _ _ Hy).
  rewrite (le_Z_take_S _ _ _ Hx), (le_Z_take_S _ _ _ Hy), IH by lia.
  pose proof (le_Z_range (take i h) (Forall_take _ _ _ Hh)) as H1.
  pose proof (le_Z_range (take i o) (Forall_take _ _ _ Ho)) as H2.
  rewrite length_take_le in H1, H2 by lia.
  set (p := 256 ^ Z.of_nat i) in *.
  destruct (Z.lt_total x y) as [?|[->|?]].
  - if_lia. symmetry. apply Z.leb_le. nia.
  - repeat if_lia. apply eq_true_iff_eq. rewrite !Z.leb_le. lia.
  - do 2 if_lia. symmetry. apply Z.leb_gt. nia.
Qed.

Lemma LessOrEqual_numeric h o :
  is_hash h → is_hash o → LessOrEqual h o = (le_Z h <=? le_Z o).
Proof.
  intros [H1 H2] [H3 H4]. unfold LessOrEqual.
  rewrite LessOrEqual_loop_spec by (auto || lia).
  by rewrite !firstn_all2 by lia.
Qed.

Lemma hash_of_big_spec b :
  bytes_ok b → (length b ≤ 32)%nat →
  is_hash (hash_of_big b) ∧ le_Z (hash_of_big b) = be_Z b.
Proof.
  intros Hb Hl. unfold hash_of_big, is_hash.
  rewrite length_reverse, length_app, length_replicate.
  rewrite <- be_Z_le_Z, be_Z_zeros. repeat split; [lia|].
  apply bytes_ok_reverse, Forall_app. split; [|done].
  apply Forall_replicate. unfold byte_ok. lia.
Qed.

Lemma hash_of_big_Bytes v :
  0 ≤ v → (big_len v ≤ 32)%nat →
  is_hash (hash_of_big (big_Bytes v)) ∧ le_Z (hash_of_big (big_Bytes v)) = v.
Proof.
  intros Hv Hl. destruct (hash_of_big_spec (big_Bytes v)) as [H1 H2].
  - apply big_Bytes_ok.
  - by rewrite length_big_Bytes.
  - by rewrite le_Z_big_Bytes in H2.
Qed.

Lemma is_hash_SHA256d d : is_hash (SHA256d d).
Proof. split; [apply length_Sum256|apply Sum256_bytes_ok]. Qed.

(** * Compact targets *)

Definition nb_exp (n : Z) : Z := n / 2 ^ 24.
Definition nb_mant (n : Z) : Z := n mod 2 ^ 23.
Definition nb_value (n : Z) : Z := nb_mant n * 256 ^ (nb_exp n - 3).
(** The nBits that denote a positive 256-bit target. *)
Definition nb_valid (n : Z) : Prop :=
  Z.testbit n 23 = false ∧ 3 ≤ nb_exp n ∧ nb_mant n ≠ 0 ∧ nb_value n < 2 ^ 256.

Lemma land_pow2_zero n k : 0 ≤ k → (Z.land n (2 ^ k) =? 0) = negb (Z.testbit n k).
Proof.
  intros Hk. destruct (Z.testbit n k) eqn:E; simpl.
  - apply Z.eqb_neq. intros H. apply (f_equal (λ z, Z.testbit z k)) in H.
    rewrite Z.land_spec, E, Z.pow2_bits_true, Z.bits_0 in H; [done|lia].
  - apply Z.eqb_eq. apply Z.bits_inj'. intros i Hi.
    rewrite Z.land_spec, Z.bits_0, Z.pow2_bits_eqb by lia.
    destruct (k =? i) eqn:Ei; [|apply andb_false_r]. zbool. subst. by rewrite E.
Qed.

Lemma TargetFromNBits_spec n :
  0 ≤ n →
  (nb_valid n → ∃ t, TargetFromNBits n = Ok t ∧ is_hash t ∧ le_Z t = nb_value n) ∧
  (¬ nb_valid n → ∃ e, TargetFromNBits n = Err e).
Proof.
  intros Hn. unfold TargetFromNBits, nb_valid.
  change 0x800000 with (2 ^ 23). change 0x7fffff with (Z.ones 23).
  rewrite land_pow2_zero, Z.land_ones, Z.shiftr_div_pow2, negb_involutive by lia.
  fold (nb_exp n) (nb_mant n). cbv zeta.
  destruct (Z.testbit n 23); [split; [naive_solver|by eauto]|].
  case_if; [split; [intros; lia|by eauto]|].
  case_if; [split; [intros; lia|by eauto]|].
  assert (Z.shiftl (nb_mant n) (8 * (nb_exp n - 3)) = nb_value n) as ->.
  { unfold nb_value. rewrite Z.shiftl_mul_pow2, pow_256; lia. }
  assert (0 ≤ nb_value n) as Hv.
  { apply Z.mul_nonneg_nonneg; [|apply Z.pow_nonneg; lia].
    apply Z.mod_pos_bound. lia. }
  rewrite length_big_Bytes. pose proof (big_len_le (nb_value n) 32 Hv) as Hl.
  change (256 ^ Z.of_nat 32) with (2 ^ 256) in Hl.
  case_if; (split; [|by eauto || (intros [] ; naive_solver lia)]); intros.
  - naive_solver lia.
  - destruct (hash_of_big_Bytes (nb_value n)); eauto.
Qed.

(** The magnitude with the sign-bit padding of [NBitsFromTarget]. *)
Definition nb_pad (b : list Z) : list Z :=
  if negb (Z.land (nth 0 b 0) 0x80 =? 0) then 0 :: b else b.

Lemma be_Z_cons x b : be_Z (x :: b) = x * 256 ^ Z.of_nat (length b) + be_Z b.
Proof. change (x :: b) with ([x] ++ b). rewrite be_Z_app. unfold be_Z at 1. simpl. lia. Qed.

Lemma be_Z_range b : bytes_ok b → 0 ≤ be_Z b < 256 ^ Z.of_nat (length b).
Proof.
  intros Hb. rewrite be_Z_le_Z, <- length_reverse.
  by apply le_Z_range, bytes_ok_reverse.
Qed.

Lemma byte_high_bit x : byte_ok x → negb (Z.land x 0x80 =? 0) = (128 <=? x).
Proof.
  intros Hx. change 0x80 with (2 ^ 7). rewrite land_pow2_zero, negb_involutive by lia.
  rewrite Z.testbit_eqb by lia. unfold byte_ok in Hx.
  change (2 ^ 8) with 256 in Hx. change (2 ^ 7) with 128.
  assert (x / 128 = if 128 <=? x then 1 else 0) as ->; [|by destruct (128 <=? x)].
  destruct (Z.leb_spec 128 x); symmetry; [apply (Z.div_unique x 128 1 (x - 128))|
    apply (Z.div_unique x 128 0 x)]; lia.
Qed.

(** Padding makes room for the doubled value: [big_len (2 * v)] bytes. *)
Lemma nb_pad_spec v :
  0 < v →
  bytes_ok (nb_pad (big_Bytes v)) ∧ be_Z (nb_pad (big_Bytes v)) = v ∧
  length (nb_pad (big_Bytes v)) = big_len (2 * v).
Proof.
  intros Hv. pose proof (big_Bytes_ok v) as Hok. pose proof (le_Z_big_Bytes v) as Hval.
  pose proof (length_big_Bytes v) as Hlen.
  destruct (big_len_spec v Hv) as (H1 & H2 & H3).
  destruct (big_Bytes v) as [|x b] eqn:E; [simpl in Hlen; lia|].
  apply Forall_cons in Hok as [Hx Hb]. unfold nb_pad. cbn [nth].
  rewrite byte_high_bit by done. rewrite be_Z_cons in Hval.
  pose proof (be_Z_range b Hb) as Hr. cbn [length] in Hlen. rewrite <- Hlen in *.
  set (L := length b) in *. set (p := 256 ^ Z.of_nat L) in *.
  assert (256 ^ Z.of_nat (S L) = 256 * p) as HpS
    by (rewrite Nat2Z.inj_succ, Z.pow_succ_r; lia).
  assert (256 ^ Z.of_nat (S (S L)) = 65536 * p) as HpSS
    by (rewrite Nat2Z.inj_succ, Z.pow_succ_r by lia; lia).
  replace (Z.of_nat (S L) - 1) with (Z.of_nat L) in H2 by lia. fold p in H2.
  pose proof (big_len_le (2 * v) L) as A1. pose proof (big_len_le (2 * v) (S L)) as A2.
  pose proof (big_len_le (2 * v) (S (S L))) as A3. fold p in A1.
  destruct (Z.leb_spec 128 x).
  - split; [repeat apply Forall_cons_2; [word_lia|done..]|]. rewrite !be_Z_cons. fold L p. cbn [length].
    fold L. split; [lia|]. assert (¬ 2 * v < 256 * p) by nia. lia.
  - split; [by constructor|]. rewrite be_Z_cons. fold L p. cbn [length]. fold L.
    split; [lia|]. assert (2 * v < 256 * p) by nia. lia.
Qed.

Lemma be3 x y z :
  byte_ok x → byte_ok y → byte_ok z →
  Z.lor (Z.lor (Z.shiftl x 16) (Z.shiftl y 8)) z = be_Z [x; y; z].
Proof.
  intros. rewrite (Z.lor_comm _ z), (Z.lor_comm (Z.shiftl x 16)), Z.lor_assoc.
  rewrite (lor_shiftl_add z y 8) by word_lia.
  rewrite lor_shiftl_add by word_lia. unfold be_Z; cbn [foldl]. word_lia.
Qed.

Lemma be2 x y :
  byte_ok x → byte_ok y → Z.lor (Z.shiftl x 8) y = be_Z [x; y].
Proof.
  intros. rewrite Z.lor_comm, lor_shiftl_add by word_lia.
  unfold be_Z; cbn [foldl]. word_lia.
Qed.

Lemma be_Z_top3 x y z b :
  bytes_ok b → be_Z [x; y; z] = be_Z (x :: y :: z :: b) / 256 ^ Z.of_nat (length b).
Proof.
  intros Hb. change (x :: y :: z :: b) with ([x; y; z] ++ b). rewrite be_Z_app.
  pose proof (be_Z_range b Hb). apply (Z.div_unique _ _ _ (be_Z b)); lia.
Qed.

(** [NBitsFromTarget] in arithmetic: the exponent is the byte length of twice
    the target, the mantissa its three leading bytes. *)
Lemma NBitsFromTarget_spec t :
  is_hash t → 0 < le_Z t →
  let v := le_Z t in let e := Z.of_nat (big_len (2 * v)) in
  1 ≤ e ≤ 33 ∧
  NBitsFromTarget t = e * 2 ^ 24 + (if e <? 3 then v else v / 256 ^ (e - 3)).
Proof.
  intros Ht Hv v e. unfold NBitsFromTarget.
  rewrite be_Z_le_Z, reverse_involutive. fold v. if_lia. cbv zeta.
  fold (nb_pad (big_Bytes v)).
  destruct (nb_pad_spec v Hv) as (Hok & Hval & Hlen).
  assert (1 ≤ e ≤ 33) as He.
  { pose proof (le_Z_hash_range t Ht) as Hr. fold v in Hr. unfold e.
    pose proof (big_len_spec (2 * v)) as [? _]; [lia|].
    pose proof (big_len_le (2 * v) 33) as Hl.
    change (256 ^ Z.of_nat 33) with (2 ^ 256 * 256) in Hl. lia. }
  split; [done|]. rewrite Hlen. fold e.
  rewrite wrap_small by word_lia.
  destruct (nb_pad (big_Bytes v)) as [|x [|y [|z b]]] eqn:E; cbn [length nth] in *.
  - lia.
  - assert (e = 1) as -> by lia. apply Forall_cons in Hok as [Hx _].
    rewrite <- Hlen, Z.lor_comm, lor_shiftl_add by word_lia.
    unfold be_Z in Hval; cbn [foldl] in Hval. if_lia. word_lia.
  - assert (e = 2) as -> by lia.
    apply Forall_cons in Hok as [Hx Hok]. apply Forall_cons in Hok as [Hy _].
    rewrite <- Hlen, be2, Hval, Z.lor_comm, lor_shiftl_add; auto; [|lia|].
    + if_lia. word_lia.
    + rewrite <- Hval. unfold be_Z; cbn [foldl]. word_lia.
  - rewrite <- Hlen. if_lia.
    apply Forall_cons in Hok as [Hx Hok]. apply Forall_cons in Hok as [Hy Hok].
    apply Forall_cons in Hok as [Hz Hok].
    rewrite be3, Z.lor_comm, lor_shiftl_add by
      (done || unfold be_Z; cbn [foldl]; word_lia).
    rewrite (be_Z_top3 x y z b Hok), Hval.
    replace (e - 3) with (Z.of_nat (length b)) by lia. lia.
Qed.

Lemma nb_fields e m :
  0 ≤ m < 2 ^ 23 →
  nb_exp (e * 2 ^ 24 + m) = e ∧ nb_mant (e * 2 ^ 24 + m) = m ∧
  Z.testbit (e * 2 ^ 24 + m) 23 = false.
Proof.
  intros Hm. unfold nb_exp, nb_mant. change (2 ^ 24) with (2 * 2 ^ 23) in *. repeat split.
  - symmetry. apply (Z.div_unique _ _ _ m); lia.
  - symmetry. apply (Z.mod_unique _ _ (2 * e)); lia.
  - rewrite Z.testbit_eqb by lia.
    assert ((e * (2 * 2 ^ 23) + m) / 2 ^ 23 = e * 2) as ->
      by (symmetry; apply (Z.div_unique _ _ _ m); lia).
    by rewrite Z.mod_mul.
Qed.

Lemma pow_256_split e : 3 ≤ e →
  256 ^ e = 2 ^ 24 * 256 ^ (e - 3) ∧ 256 ^ (e - 1) = 2 ^ 16 * 256 ^ (e - 3).
Proof.
  intros He. split.
  - replace e with (3 + (e - 3)) at 1 by lia. by rewrite Z.pow_add_r by lia.
  - replace (e - 1) with (2 + (e - 3)) at 1 by lia. by rewrite Z.pow_add_r by lia.
Qed.

(** For targets of at least [2 ^ 15] the mantissa has 16 to 23 significant bits. *)
Lemma NBitsFromTarget_large t :
  is_hash t → 2 ^ 15 ≤ le_Z t →
  let v := le_Z t in let e := Z.of_nat (big_len (2 * v)) in
  let m := v / 256 ^ (e - 3) in
  NBitsFromTarget t = e * 2 ^ 24 + m ∧ 3 ≤ e ≤ 33 ∧ 2 ^ 15 ≤ m < 2 ^ 23 ∧
  0 < 256 ^ (e - 3) ∧ m * 256 ^ (e - 3) ≤ v < (m + 1) * 256 ^ (e - 3).
Proof.
  intros Ht Hv v e m.
  destruct (NBitsFromTarget_spec t Ht) as [He Hn]; [lia|]. fold v e in He, Hn.
  destruct (big_len_spec (2 * v)) as (_ & B1 & B2); [lia|]. fold e in B1, B2.
  assert (3 ≤ e) as He3.
  { destruct (Z.le_gt_cases 3 e) as [|Hlt]; [done|].
    assert (256 ^ e ≤ 256 ^ 2) by (apply Z.pow_le_mono_r; lia). lia. }
  destruct (pow_256_split e He3) as [P1 P2].
  assert (0 < 256 ^ (e - 3)) as P3 by (apply Z.pow_pos_nonneg; lia).
  rewrite (proj2 (Z.ltb_ge e 3) He3) in Hn. fold m in Hn.
  pose proof (Z.div_mod v (256 ^ (e - 3))) as D.
  pose proof (Z.mod_pos_bound v (256 ^ (e - 3)) P3) as Hmod. fold m in D.
  set (p := 256 ^ (e - 3)) in *. rewrite P2 in B1. rewrite P1 in B2.
  repeat split; try done; try lia; nia.
Qed.

Lemma big_len_unique v e :
  0 < e → 256 ^ (e - 1) ≤ v < 256 ^ e → Z.of_nat (big_len v) = e.
Proof.
  intros He Hv. assert (0 < 256 ^ (e - 1)) by (apply Z.pow_pos_nonneg; lia).
  pose proof (big_len_le v (Z.to_nat e)) as A1.
  pose proof (big_len_le v (Z.to_nat (e - 1))) as A2.
  rewrite Z2Nat.id in A1, A2 by lia. lia.
Qed.

(** The canonical compact form of [m * 256 ^ (e - 3)]. *)
Lemma NBitsFromTarget_canonical t e m :
  is_hash t → 3 ≤ e → 2 ^ 15 ≤ m < 2 ^ 23 → le_Z t = m * 256 ^ (e - 3) →
  NBitsFromTarget t = e * 2 ^ 24 + m.
Proof.
  intros Ht He Hm Hv.
  assert (0 < 256 ^ (e - 3)) as Hp by (apply Z.pow_pos_nonneg; lia).
  destruct (NBitsFromTarget_large t Ht) as (-> & _); [nia|].
  assert (Z.of_nat (big_len (2 * le_Z t)) = e) as ->.
  { apply big_len_unique; [lia|]. destruct (pow_256_split e He) as [-> ->].
    rewrite Hv. nia. }
  rewrite Hv, Z.div_mul by lia. done.
Qed.

#[export] Instance nb_valid_dec n : Decision (nb_valid n).
Proof. unfold nb_valid; apply _. Defined.

(** C7. [MeetsTarget hash nBits] decides [hash <= mantissa * 256^(exponent-3)]
    as 256-bit numbers, for exactly those nBits whose sign bit is clear, whose
    exponent is at least 3, whose mantissa is not zero and whose value fits in
    256 bits; every other nBits is an error. *)
Theorem MeetsTarget_correct hash nBits :
  is_hash hash → nBits ∈u 32 →
  (nb_valid nBits → MeetsTarget hash nBits = Ok (le_Z hash <=? nb_value nBits)) ∧
  (¬ nb_valid nBits → ∃ e, MeetsTarget hash nBits = Err e).
Proof.
  intros Hh [Hn _]. destruct (TargetFromNBits_spec nBits Hn) as [H1 H2].
  unfold MeetsTarget. split; intros Hv.
  - destruct (H1 Hv) as (t & -> & Ht & <-). simpl. by rewrite LessOrEqual_numeric.
  - destruct (H2 Hv) as (e & ->). by exists e.
Qed.

(** [TargetFromNBits (NBitsFromTarget t)] succeeds for every target of at
    least [2 ^ 15], never rounds up, loses less than one part in [2 ^ 15], and
    is a fixed point of the conversion. *)
Theorem NBitsFromTarget_truncates t :
  is_hash t → 2 ^ 15 ≤ le_Z t →
  ∃ t', TargetFromNBits (NBitsFromTarget t) = Ok t' ∧ is_hash t' ∧
    le_Z t' ≤ le_Z t ∧ 2 ^ 15 * (le_Z t - le_Z t') < le_Z t' ∧
    NBitsFromTarget t' = NBitsFromTarget t.
Proof.
  intros Ht Hv. destruct (NBitsFromTarget_large t Ht Hv) as (-> & He & Hm & Hp & Hb).
  set (e := Z.of_nat _) in *. set (m := _ / _) in *.
  destruct (nb_fields e m) as (F1 & F2 & F3); [lia|].
  pose proof (le_Z_hash_range t Ht) as Hr.
  destruct (TargetFromNBits_spec (e * 2 ^ 24 + m)) as [(t' & H1 & H2 & H3) _]; [lia|..].
  { unfold nb_valid, nb_value. rewrite F1, F2, F3. repeat split; lia. }
  unfold nb_value in H3. rewrite F1, F2 in H3.
  exists t'. repeat split; try done; try (rewrite H3; nia); [apply H2..|].
  by apply NBitsFromTarget_canonical; [..|lia| |].
Qed.

(** A canonical compact target (16 to 23 mantissa bits) survives the
    decode-encode round trip bit for bit. *)
Theorem NBits_roundtrip nBits t :
  nBits ∈u 32 → TargetFromNBits nBits = Ok t → 2 ^ 15 ≤ nb_mant nBits →
  NBitsFromTarget t = nBits.
Proof.
  intros [Hn _] Ht Hm. destruct (TargetFromNBits_spec nBits Hn) as [H1 H2].
  destruct (decide (nb_valid nBits)) as [Hv|Hv]; [|destruct (H2 Hv); congruence].
  destruct (H1 Hv) as (t' & E & Hh & Hval). rewrite E in Ht. apply Ok_inj in Ht as <-.
  destruct Hv as (Hs & He & _ & _).
  rewrite (NBitsFromTarget_canonical t' (nb_exp nBits) (nb_mant nBits)); auto.
  - unfold nb_exp, nb_mant. rewrite Z.testbit_eqb in Hs by lia. apply Z.eqb_neq in Hs.
    change (2 ^ 24) with (2 ^ 23 * 2). rewrite <- Z.div_div by lia.
    pose proof (Z.div_mod nBits (2 ^ 23)). pose proof (Z.div_mod (nBits / 2 ^ 23) 2).
    pose proof (Z.mod_pos_bound (nBits / 2 ^ 23) 2). lia.
  - split; [done|]. apply Z.mod_pos_bound. lia.
Qed.

(** For targets below [2 ^ 15] the two conversions are not inverse to
    each other: [NBitsFromTarget] gives an exponent below 3 (or the zero
    word), which [TargetFromNBits] rejects. *)
Theorem NBitsFromTarget_small_rejected t :
  is_hash t → le_Z t < 2 ^ 15 →
  ∃ e, TargetFromNBits (NBitsFromTarget t) = Err e.
Proof.
  intros Ht Hv. pose proof (le_Z_hash_range t Ht) as Hr.
  destruct (decide (le_Z t = 0)) as [H0|H0].
  { unfold NBitsFromTarget. rewrite be_Z_le_Z, reverse_involutive, H0. by eexists. }
  destruct (NBitsFromTarget_spec t Ht) as [He ->]; [lia|].
  set (e := Z.of_nat _) in *.
  assert (e ≤ 2) as He2 by (pose proof (big_len_le (2 * le_Z t) 2) as Hl;
    change (256 ^ Z.of_nat 2) with (2 * 2 ^ 15) in Hl; lia).
  if_lia. destruct (nb_fields e (le_Z t)) as (F1 & _ & _); [lia|].
  apply TargetFromNBits_spec; [lia|]. unfold nb_valid. rewrite F1. lia.
Qed.

(** * Block headers *)

Definition header_ok (h : Header) : Prop :=
  Version h ∈u 32 ∧ is_hash (PrevHash h) ∧ is_hash (MerkleRoot h) ∧
  Time h ∈u 32 ∧ Bits h ∈u 32 ∧ Nonce h ∈u 32.
#[export] Instance header_ok_dec h : Decision (header_ok h).
Proof. unfold header_ok; apply _. Defined.

Lemma le_bytes_slice b i j n :
  bytes_ok b → (j ≤ length b)%nat → n = (j - i)%nat →
  le_bytes n (le_Z (slice i j b)) = slice i j b.
Proof.
  intros Hb Hl ->. apply le_bytes_le_Z; unfold slice.
  - by apply Forall_take, Forall_drop.
  - rewrite length_take, length_drop. lia.
Qed.

Lemma slice_slice_app {A} (b : list A) i j k :
  (i ≤ j ≤ k)%nat → slice i j b ++ slice j k b = slice i k b.
Proof.
  intros H. unfold slice. replace (k - i)%nat with ((j - i) + (k - j))%nat by lia.
  rewrite <- (take_take_drop (drop i b)), drop_drop.
  by replace (i + (j - i))%nat with j by lia.
Qed.

Lemma slice_all {A} (b : list A) n : length b = n → slice 0 n b = b.
Proof. intros <-. unfold slice. rewrite drop_0. apply firstn_all2. lia. Qed.

(** The 80-byte wire form and the header structure are in bijection. *)
Theorem header_roundtrip :
  (∀ h, header_ok h → length (Header_Bytes h) = HeaderSize ∧
        bytes_ok (Header_Bytes h) ∧ ParseHeader (Header_Bytes h) = h) ∧
  (∀ b, length b = HeaderSize → bytes_ok b →
        header_ok (ParseHeader b) ∧ Header_Bytes (ParseHeader b) = b).
Proof.
  split.
  - intros [v p m t b n] (Hv & [Hp1 Hp2] & [Hm1 Hm2] & Ht & Hb & Hn).
    unfold Header_Bytes; cbn [Version PrevHash MerkleRoot Time Bits Nonce] in *.
    split; [by rewrite !length_app, !length_le_bytes, Hp1, Hm1|].
    split; [by rewrite !Forall_app; auto 12 with otd|].
    unfold ParseHeader. f_equal; slices; try done;
      rewrite ?slice_all by apply length_le_bytes; by apply le_Z_le_bytes.
  - intros b Hl Hb. unfold HeaderSize in Hl.
    assert (∀ i j, bytes_ok (slice i j b)) as Hs
      by (intros; by apply Forall_take, Forall_drop).
    assert (∀ i j, (j ≤ 80)%nat → length (slice i j b) = (j - i)%nat) as Hsl
      by (intros; unfold slice; rewrite length_take, length_drop; lia).
    assert (∀ i j, (j ≤ 80)%nat → (j - i = 4)%nat → le_Z (slice i j b) ∈u 32) as Hw.
    { intros i j Hj H4. pose proof (le_Z_range _ (Hs i j)) as Hr.
      by rewrite Hsl, H4 in Hr by lia. }
    split.
    + unfold header_ok, is_hash, ParseHeader;
        cbn [Version PrevHash MerkleRoot Time Bits Nonce].
      rewrite !Hsl by lia. repeat split; auto; apply Hw; lia.
    + unfold Header_Bytes, ParseHeader;
        cbn [Version PrevHash MerkleRoot Time Bits Nonce].
      rewrite !le_bytes_slice by (auto || lia).
      rewrite !slice_slice_app by lia. by apply slice_all.
Qed.

(** * Share difficulty *)

(** An accepted difficulty is a positive finite number and its target the
    truncated 256-bit quotient. *)
Lemma TargetFromDifficulty_Ok d t :
  TargetFromDifficulty d = Ok t →
  flt fzero d = true ∧ IsInf d = false ∧ is_hash t ∧ 0 < le_Z t ∧
  le_Z t = big_Int (big_Quo 256 (big_SetInt diff1Target) d).
Proof.
  unfold TargetFromDifficulty. set (v := big_Int _).
  destruct (flt fzero d), (IsInf d); simpl; try done.
  case_if; [done|]. rewrite length_big_Bytes. case_if; [done|]. intros <-%Ok_inj.
  destruct (hash_of_big_Bytes v) as [? ->]; auto with lia.
Qed.

(** * The genesis block *)

Definition genesis : Header := {|
  Version := 1;
  PrevHash := replicate 32 0;
  MerkleRoot := le_bytes 32
    0x4a5e1e4baab89f3a32518a88c31bc87f618f76673e2cc77ab2127b7afdeda33b;
  Time := 1231006505; Bits := 0x1d00ffff; Nonce := 2083236893 |}.

Example genesis_hash : le_Z (HashHeader genesis) =
  0x000000000019d6689c085ae165831e934ff763ae46a2a6c172b3f1b60a8ce26f.
Proof. vm_compute. reflexivity. Qed.

Example difficulty_one :
  le_Z <$> TargetFromDifficulty fone = Ok diff1Target ∧
  DifficultyFromTarget (le_bytes 32 diff1Target) = fone.
Proof. split; vm_compute; reflexivity. Qed.

Lemma MeetsTarget_correct_witness :
  MeetsTarget (HashHeader genesis) 0x1d00ffff = Ok true.
Proof.
  rewrite (proj1 (MeetsTarget_correct (HashHeader genesis) 0x1d00ffff
    (is_hash_SHA256d _) ltac:(lia))) by (decide_vm).
  vm_compute. reflexivity.
Defined.

Lemma NBitsFromTarget_truncates_witness :
  ∃ t', TargetFromNBits (NBitsFromTarget (le_bytes 32 (2 ^ 200 + 12345))) = Ok t' ∧
    le_Z t' ≤ 2 ^ 200 + 12345.
Proof.
  destruct (NBitsFromTarget_truncates (le_bytes 32 (2 ^ 200 + 12345)))
    as (t' & H1 & _ & H2 & _).
  - decide_vm.
  - decide_vm.
  - exists t'. split; [exact H1|].
    rewrite le_Z_le_bytes in H2 by (decide_vm).
    exact H2.
Defined.

Lemma NBits_roundtrip_witness :
  NBitsFromTarget (le_bytes 32 diff1Target) = 0x1d00ffff.
Proof.
  apply (NBits_roundtrip 0x1d00ffff); [lia|vm_compute; reflexivity|].
  decide_vm.
Defined.

Lemma NBitsFromTarget_small_rejected_witness :
  ∃ e, TargetFromNBits (NBitsFromTarget (le_bytes 32 1)) = Err e.
Proof.
  apply NBitsFromTarget_small_rejected;
    decide_vm.
Defined.

Lemma header_roundtrip_witness : ParseHeader (Header_Bytes genesis) = genesis.
Proof.
  apply (proj1 header_roundtrip). decide_vm.
Defined.
