(* ===== verification/Worker.v ===== *)
(** * internal/miner/worker.go

    The multi-threaded nonce grinder.  [Worker] is the shared object, one
    [grinder] per goroutine holds the local variables of [grind], and
    [grind_step] performs the goroutine's next access to shared state: the
    context poll, the reload under the mutex, one hash, one atomic counter
    update or one channel operation.  [step] interleaves the goroutines with
    the callers ([SetWork], cancellation, the consumer of the share channel and
    the goroutine that closes it), and carries the hashed headers as a trace. *)
From stdpp Require Import relations.
From S2P Require Import Prelude.
From S2P Require Import Float64.
From S2P Require Import Sha256d.

Open Scope Z_scope.

Record Work := {
  Work_JobID : Z;
  Work_ChannelID : Z;
  Work_Header : Header;
  Work_NBits : Z;
  Work_Target : Hash;
  Work_ExtraNonce : list Z;
}.

Record Share := {
  Share_ChannelID : Z;
  Share_JobID : Z;
  Share_Nonce : Z;
  Share_NTime : Z;
  Share_Version : Z;
  Share_Hash : Hash;
  Share_Target : Hash;
  Share_DeviceID : string;
  Share_ExtraNonce : list Z;
}.

Record WorkerConfig := {
  Threads : Z;      (* int *)
  NonceStep : Z;    (* uint32 *)
  NonceOffset : Z;  (* uint32 *)
  cfg_DeviceID : string;
}.

(** [runtime.NumCPU()] is a parameter. *)
Definition DefaultWorkerConfig (NumCPU : Z) : WorkerConfig :=
  {| Threads := NumCPU; NonceStep := 0; NonceOffset := 0; cfg_DeviceID := "" |}.

(** A [*Work]: the pointer's address and what it points to. *)
Definition work_ptr : Type := option (nat * Work).
Definition ptr_eqb (p q : work_ptr) : bool :=
  match p, q with
  | None, None => true
  | Some (a, _), Some (b, _) => (a =? b)%nat
  | _, _ => false
  end.

Record Worker := {
  cfg : WorkerConfig;
  work : work_ptr;
  workVer : Z;
  hashCount : Z;
  shareCount : Z;
  dropCount : Z;
  startTime : Z;
  started : bool;
  cancelled : bool;        (* the inner context is done *)
  chan_buf : list Share;   (* the share channel *)
  chan_closed : bool;
  done : bool;             (* w.done is closed *)
}.

Definition NewWorker (NumCPU : Z) (c : WorkerConfig) : Worker :=
  let thr := if Threads c <=? 0 then NumCPU else Threads c in
  let stp := if NonceStep c =? 0 then wrap 32 thr else NonceStep c in
  {| cfg := {| Threads := thr; NonceStep := stp; NonceOffset := NonceOffset c;
               cfg_DeviceID := cfg_DeviceID c |};
     work := None; workVer := 0; hashCount := 0; shareCount := 0; dropCount := 0;
     startTime := 0; started := false; cancelled := false;
     chan_buf := []; chan_closed := false; done := false |}.

Definition set_work_ver (p : work_ptr) (v : Z) (w : Worker) : Worker :=
  {| cfg := cfg w; work := p; workVer := v; hashCount := hashCount w;
     shareCount := shareCount w; dropCount := dropCount w; startTime := startTime w;
     started := started w; cancelled := cancelled w; chan_buf := chan_buf w;
     chan_closed := chan_closed w; done := done w |}.
Definition set_counts (h s d : Z) (w : Worker) : Worker :=
  {| cfg := cfg w; work := work w; workVer := workVer w; hashCount := h;
     shareCount := s; dropCount := d; startTime := startTime w;
     started := started w; cancelled := cancelled w; chan_buf := chan_buf w;
     chan_closed := chan_closed w; done := done w |}.
Definition set_chan (b : list Share) (c d : bool) (w : Worker) : Worker :=
  {| cfg := cfg w; work := work w; workVer := workVer w; hashCount := hashCount w;
     shareCount := shareCount w; dropCount := dropCount w; startTime := startTime w;
     started := started w; cancelled := cancelled w; chan_buf := b;
     chan_closed := c; done := d |}.
Definition set_cancelled (w : Worker) : Worker :=
  {| cfg := cfg w; work := work w; workVer := workVer w; hashCount := hashCount w;
     shareCount := shareCount w; dropCount := dropCount w; startTime := startTime w;
     started := started w; cancelled := true; chan_buf := chan_buf w;
     chan_closed := chan_closed w; done := done w |}.

Definition SetWork (p : work_ptr) (w : Worker) : Worker :=
  set_work_ver p (wrap 64 (workVer w + 1)) w.

Definition DeviceID (w : Worker) : string := cfg_DeviceID (cfg w).
Definition HasWork (w : Worker) : bool :=
  match work w with Some _ => true | None => false end.

(** The capacity of the share channel. *)
Definition chan_cap (w : Worker) : nat := Z.to_nat (Threads (cfg w) * 4).

(** ** grind *)

Inductive phase :=
  | PTop                                   (* select on ctx.Done *)
  | PReload                                (* the critical section *)
  | PIdle                                  (* time.Sleep; continue *)
  | PHash (i : nat) (h : Header)           (* head of the batch loop *)
  | PFound (i : nat) (h : Header) (s : Share)  (* shareCount.Add *)
  | PSend (i : nat) (h : Header) (s : Share)   (* the non-blocking send *)
  | PDrop (i : nat) (h : Header)           (* dropCount.Add *)
  | PAdvance (i : nat) (h : Header)        (* nonce += step *)
  | PReturned
  | PPanicked.                             (* send on a closed channel *)

Record grinder := {
  localWork : work_ptr;
  localWorkVer : Z;
  nonce : Z;
  ntimeRoll : Z;
  at_ : phase;
}.

Definition batchSize : nat := 1024.

Definition startNonce (c : WorkerConfig) (threadID : Z) : Z :=
  wrap 32 (NonceOffset c + threadID).

Definition grind_init (c : WorkerConfig) (threadID : Z) : grinder :=
  {| localWork := None; localWorkVer := 0; nonce := startNonce c threadID;
     ntimeRoll := 0; at_ := PTop |}.

Definition goto (p : phase) (g : grinder) : grinder :=
  {| localWork := localWork g; localWorkVer := localWorkVer g; nonce := nonce g;
     ntimeRoll := ntimeRoll g; at_ := p |}.

Definition header_with_time (h : Header) (t : Z) : Header :=
  {| Version := Version h; PrevHash := PrevHash h; MerkleRoot := MerkleRoot h;
     Time := t; Bits := Bits h; Nonce := Nonce h |}.
Definition header_with_nonce (h : Header) (n : Z) : Header :=
  {| Version := Version h; PrevHash := PrevHash h; MerkleRoot := MerkleRoot h;
     Time := Time h; Bits := Bits h; Nonce := n |}.

(** The share built for a hash that meets the target. *)
Definition mkShare (c : WorkerConfig) (lw : Work) (n : Z) (h : Header) (hash : Hash) : Share :=
  {| Share_ChannelID := Work_ChannelID lw; Share_JobID := Work_JobID lw;
     Share_Nonce := n; Share_NTime := Time h; Share_Version := Version h;
     Share_Hash := hash; Share_Target := Work_Target lw;
     Share_DeviceID := cfg_DeviceID c; Share_ExtraNonce := Work_ExtraNonce lw |}.

(** [nonce += step; if nonce < prev { ntimeRoll++ ... }]. *)
Definition advance (stp : Z) (nr : Z * Z) : Z * Z :=
  let n' := wrap 32 (nr.1 + stp) in
  (n', if n' <? nr.1 then wrap 32 (nr.2 + 1) else nr.2).

(** A hash performed: thread, work version, header. *)
Record hashed := { by_thread : Z; by_version : Z; hashed_header : Header }.

(** One access of thread [tid] to shared state; the trace entry is the header
    it hashed, if any. *)
Definition grind_step (tid : Z) (w : Worker) (g : grinder)
    : Worker * grinder * option hashed :=
  match at_ g with
  | PTop => (w, if cancelled w then goto PReturned g else goto PReload g, None)
  | PReload =>
      let g :=
        if negb (ptr_eqb (work w) (localWork g)) || negb (workVer w =? localWorkVer g)
        then {| localWork := work w; localWorkVer := workVer w;
                nonce := startNonce (cfg w) tid; ntimeRoll := 0; at_ := PReload |}
        else g in
      (w, match localWork g with
          | None => goto PIdle g
          | Some (_, lw) =>
              let h := Work_Header lw in
              goto (PHash 0 (header_with_time h (wrap 32 (Time h + ntimeRoll g)))) g
          end, None)
  | PIdle => (w, goto PTop g, None)
  | PHash i h =>
      if (i <? batchSize)%nat then
        match localWork g with
        | None => (w, goto PPanicked g, None)   (* nil dereference *)
        | Some (_, lw) =>
            let h := header_with_nonce h (nonce g) in
            let hash := HashHeader h in
            let w := set_counts (wrap 64 (hashCount w + 1)) (shareCount w) (dropCount w) w in
            (w, if LessOrEqual hash (Work_Target lw)
                then goto (PFound i h (mkShare (cfg w) lw (nonce g) h hash)) g
                else goto (PAdvance i h) g,
             Some {| by_thread := tid; by_version := localWorkVer g; hashed_header := h |})
        end
      else (w, goto PTop g, None)
  | PFound i h s =>
      (set_counts (hashCount w) (wrap 64 (shareCount w + 1)) (dropCount w) w,
       goto (PSend i h s) g, None)
  | PSend i h s =>
      if chan_closed w then (w, goto PPanicked g, None)
      else if (length (chan_buf w) <? chan_cap w)%nat
      then (set_chan (chan_buf w ++ [s]) false (done w) w, goto (PAdvance i h) g, None)
      else (w, goto (PDrop i h) g, None)
  | PDrop i h =>
      (set_counts (hashCount w) (shareCount w) (wrap 64 (dropCount w + 1)) w,
       goto (PAdvance i h) g, None)
  | PAdvance i h =>
      let '(n', r') := advance (NonceStep (cfg w)) (nonce g, ntimeRoll g) in
      let h' :=
        match localWork g with
        | Some (_, lw) =>
            if n' <? nonce g
            then header_with_time h (wrap 32 (Time (Work_Header lw) + r')) else h
        | None => h
        end in
      (w, {| localWork := localWork g; localWorkVer := localWorkVer g;
             nonce := n'; ntimeRoll := r'; at_ := PHash (S i) h' |}, None)
  | PReturned => (w, g, None)
  | PPanicked => (w, g, None)
  end.

(** ** Start, Stop and the interleaving *)

(** A started worker: the shared object and its goroutines. *)
Record system := { shared : Worker; grinders : list grinder }.

(** A second call of [Start] panics. *)
Definition Start (now : Z) (w : Worker) : result system :=
  if started w then Err (Sentinel "panic: miner: Worker.Start called more than once")
  else
    let w := {| cfg := cfg w; work := work w; workVer := workVer w;
                hashCount := hashCount w; shareCount := shareCount w;
                dropCount := dropCount w; startTime := now; started := true;
                cancelled := false; chan_buf := []; chan_closed := false;
                done := done w |} in
    Ok {| shared := w;
          grinders := map (λ i, grind_init (cfg w) (wrap 32 (Z.of_nat i)))
                        (seq 0 (Z.to_nat (Threads (cfg w)))) |}.

(** [Stop] of a worker that was started cancels the inner context (and then
    waits for [done]). *)
Definition Stop (w : Worker) : Worker := if started w then set_cancelled w else w.

Definition is_returned (g : grinder) : bool :=
  match at_ g with PReturned => true | _ => false end.

(** What an execution shows: hashes performed, jobs set, shares consumed. *)
Inductive event :=
  | EHash (h : hashed)
  | ESetWork (p : work_ptr)
  | EReceive (s : Share).

Inductive step : system → list event → system → Prop :=
  | step_thread tid w gs g w' g' o :
      gs !! tid = Some g →
      grind_step (wrap 32 (Z.of_nat tid)) w g = (w', g', o) →
      step {| shared := w; grinders := gs |} (EHash <$> option_list o)
           {| shared := w'; grinders := <[tid := g']> gs |}
  | step_SetWork p w gs :
      step {| shared := w; grinders := gs |} [ESetWork p]
           {| shared := SetWork p w; grinders := gs |}
  | step_cancel w gs :   (* the parent context, or [Stop] *)
      step {| shared := w; grinders := gs |} []
           {| shared := set_cancelled w; grinders := gs |}
  | step_receive s buf w gs :
      chan_buf w = s :: buf →
      step {| shared := w; grinders := gs |} [EReceive s]
           {| shared := set_chan buf (chan_closed w) (done w) w; grinders := gs |}
  | step_close w gs :   (* wg.Wait(); close(shares); close(w.done) *)
      forallb is_returned gs = true → chan_closed w = false →
      step {| shared := w; grinders := gs |} []
           {| shared := set_chan (chan_buf w) true true w; grinders := gs |}.

Inductive steps (s0 : system) : list event → system → Prop :=
  | steps_refl : steps s0 [] s0
  | steps_snoc tr s ev s' : steps s0 tr s → step s ev s' → steps s0 (tr ++ ev) s'.

(** The statistics snapshot; [now] is the wall clock in nanoseconds. *)
Record Stats := {
  HashesTotal : Z; SharesFound : Z; SharesDropped : Z; Uptime : Z; HashRate : float64
}.
(** [Duration.Seconds()]: whole seconds plus the fraction. *)
Definition Seconds (d : Z) : float64 :=
  fadd (f64_of_Z (Z.quot d 1000000000))
       (fdiv (f64_of_Z (Z.rem d 1000000000)) (f64_of_Z 1000000000)).
Definition Worker_Stats (now : Z) (w : Worker) : Stats :=
  if startTime w =? 0
  then {| HashesTotal := 0; SharesFound := 0; SharesDropped := 0; Uptime := 0; HashRate := fzero |}
  else
    let uptime := now - startTime w in
    {| HashesTotal := hashCount w; SharesFound := shareCount w;
       SharesDropped := dropCount w; Uptime := uptime;
       HashRate := if 0 <? uptime then fdiv (f64_of_Z (hashCount w)) (Seconds uptime)
                   else fzero |}.

(** * Executions *)

Definition works_set (tr : list event) : list work_ptr :=
  omap (λ e, match e with ESetWork p => Some p | _ => None end) tr.
Definition hashes (tr : list event) : list hashed :=
  omap (λ e, match e with EHash h => Some h | _ => None end) tr.
Definition received (tr : list event) : list Share :=
  omap (λ e, match e with EReceive s => Some s | _ => None end) tr.

(** The work of each version: version 0 is the initial nil. *)
Definition history (tr : list event) : list work_ptr := None :: works_set tr.

Lemma works_set_app t1 t2 : works_set (t1 ++ t2) = works_set t1 ++ works_set t2.
Proof. apply omap_app. Qed.
Lemma hashes_app t1 t2 : hashes (t1 ++ t2) = hashes t1 ++ hashes t2.
Proof. apply omap_app. Qed.
Lemma received_app t1 t2 : received (t1 ++ t2) = received t1 ++ received t2.
Proof. apply omap_app. Qed.
Lemma history_app t1 t2 : history (t1 ++ t2) = history t1 ++ works_set t2.
Proof. unfold history. by rewrite works_set_app. Qed.

(** The header of [lw] at a nonce and ntime roll. *)
Definition header_at (lw : Work) (nr : Z * Z) : Header :=
  header_with_nonce
    (header_with_time (Work_Header lw) (wrap 32 (Time (Work_Header lw) + nr.2))) nr.1.

(** A share that was honestly found for one of the jobs [ws]. *)
Definition share_valid (c : WorkerConfig) (ws : list work_ptr) (s : Share) : Prop :=
  ∃ a lw n r, Some (a, lw) ∈ ws ∧
    s = mkShare c lw n (header_at lw (n, r)) (HashHeader (header_at lw (n, r))) ∧
    LessOrEqual (Share_Hash s) (Share_Target s) = true.

Definition batch_ok (g : grinder) (i : nat) (h : Header) : Prop :=
  ∃ a lw, localWork g = Some (a, lw) ∧ h = header_at lw (Nonce h, ntimeRoll g).

Definition phase_ok (c : WorkerConfig) (ws : list work_ptr) (g : grinder) : Prop :=
  match at_ g with
  | PHash i h => batch_ok g i h ∧ (i ≤ batchSize)%nat
  | PFound i h s | PSend i h s =>
      batch_ok g i h ∧ (i < batchSize)%nat ∧ share_valid c ws s
  | PDrop i h | PAdvance i h => batch_ok g i h ∧ (i < batchSize)%nat
  | PPanicked => False
  | _ => True
  end.

Definition grinder_ok (c : WorkerConfig) (ws : list work_ptr) (g : grinder) : Prop :=
  localWork g ∈ ws ∧ phase_ok c ws g.

(** Shares found but not yet sent or counted as dropped. *)
Definition in_flight (g : grinder) : nat :=
  match at_ g with PSend _ _ _ | PDrop _ _ => 1%nat | _ => 0%nat end.

(** The invariant of a started worker with configuration [c]. *)
Record inv (c : WorkerConfig) (tr : list event) (s : system) : Prop := {
  inv_cfg : cfg (shared s) = c;
  inv_threads : length (grinders s) = Z.to_nat (Threads c);
  inv_work : work (shared s) ∈ history tr;
  inv_grinders : Forall (grinder_ok c (history tr)) (grinders s);
  inv_shares : Forall (share_valid c (history tr)) (received tr ++ chan_buf (shared s));
  inv_cap : (length (chan_buf (shared s)) ≤ chan_cap (shared s))%nat;
  inv_closed : chan_closed (shared s) = true → forallb is_returned (grinders s) = true;
  inv_done : done (shared s) = chan_closed (shared s);
  inv_hashes : hashCount (shared s) = wrap 64 (Z.of_nat (length (hashes tr)));
  inv_found : shareCount (shared s) = wrap 64
    (Z.of_nat (length (received tr) + length (chan_buf (shared s)) +
               sum_list (in_flight <$> grinders s)) + dropCount (shared s));
  inv_drop : dropCount (shared s) ∈u 64;
}.

Lemma share_valid_mono c ws ws' s : ws ⊆ ws' → share_valid c ws s → share_valid c ws' s.
Proof. intros Hs (a & lw & n & r & H1 & H2). exists a, lw, n, r. auto. Qed.

Lemma grinder_ok_mono c ws ws' g : ws ⊆ ws' → grinder_ok c ws g → grinder_ok c ws' g.
Proof.
  intros Hs [H1 H2]. split; [by apply Hs|]. unfold phase_ok in *.
  destruct (at_ g); naive_solver eauto using share_valid_mono.
Qed.

(** Case analysis on the goroutine's next step. *)
Ltac grind_cases H :=
  unfold grind_step in H;
  repeat match type of H with
  | context [match at_ ?g with _ => _ end] => destruct (at_ g) eqn:?
  | context [match localWork ?g with _ => _ end] => destruct (localWork g) as [[? ?]|] eqn:?
  | context [match work ?w with _ => _ end] => destruct (work w) as [[? ?]|] eqn:?
  | context [if ?b then _ else _] => destruct b eqn:?
  | context [let '(_, _) := advance ?a ?b in _] => destruct (advance a b) as [? ?] eqn:?
  end; zbool; simplify_eq/=.

(** What a goroutine's step leaves alone. *)
Lemma grind_step_frame tid w g w' g' o :
  grind_step tid w g = (w', g', o) →
  cfg w' = cfg w ∧ work w' = work w ∧ workVer w' = workVer w ∧
  chan_closed w' = chan_closed w ∧ done w' = done w ∧ cancelled w' = cancelled w.
Proof. intros H. grind_cases H; auto 10. Qed.

Lemma header_with_nonce_at lw h r n :
  h = header_at lw (Nonce h, r) → header_with_nonce h n = header_at lw (n, r).
Proof. intros ->. done. Qed.

Lemma header_with_time_at lw h r r' :
  h = header_at lw (Nonce h, r) →
  header_with_time h (wrap 32 (Time (Work_Header lw) + r')) = header_at lw (Nonce h, r').
Proof. intros ->. done. Qed.

Lemma advance_roll stp n r n' r' :
  advance stp (n, r) = (n', r') → (n' <? n) = false → r' = r.
Proof. unfold advance. simpl. intros [= <- <-] ->. done. Qed.

(** A goroutine's local invariant is preserved by its own steps. *)
Lemma grind_step_ok tid w g w' g' o ws :
  grind_step tid w g = (w', g', o) →
  work w ∈ ws → (chan_closed w = true → is_returned g = true) →
  grinder_ok (cfg w) ws g → grinder_ok (cfg w) ws g'.
Proof.
  intros H Hw Hc [Hl Hp]. unfold phase_ok in Hp.
  grind_cases H; unfold grinder_ok, phase_ok, goto, batch_ok in *; simpl in *;
    unpack; simplify_eq/=; try done; eauto.
  all: try (by split; [congruence|repeat split; unfold batchSize; eauto with lia]).
  all: unfold is_returned in *.
  all: match goal with
  | Hh : ?h = header_at ?lw (Nonce ?h, ntimeRoll ?g) |- context [HashHeader] =>
      rewrite (header_with_nonce_at lw h (ntimeRoll g) (nonce g) Hh) in *;
      split; [congruence|split; [by eauto|split; [done|]]];
      by exists n, lw, (nonce g), (ntimeRoll g)
  | Hh : ?h = header_at ?lw (Nonce ?h, ntimeRoll ?g) |- context [header_with_nonce] =>
      rewrite (header_with_nonce_at lw h (ntimeRoll g) (nonce g) Hh);
      split; [congruence|by eauto]
  | Hh : ?h = header_at ?lw (Nonce ?h, ?r) |- context [header_with_time] =>
      split; [done|]; split; [exists n, lw; split; [done|]|lia];
      by apply (header_with_time_at lw h r)
  | Ha : advance _ _ = _, Hh : ?h = header_at _ _ |- context [S ?i] =>
      apply advance_roll in Ha as ->; [|by apply Z.ltb_ge];
      split; [done|]; split; [by eauto|lia]
  | Hc : _ → _ = true, Hq : at_ ?g = PSend _ _ _ |- _ ∧ False =>
      rewrite Hq in Hc; by specialize (Hc eq_refl)
  | Hq : at_ ?g = PReturned |- _ => by rewrite Hq
  end.
Qed.

(** The counters and the channel across a goroutine's step. *)
Lemma grind_step_counts tid w g w' g' o :
  grind_step tid w g = (w', g', o) → at_ g' ≠ PPanicked → dropCount w ∈u 64 →
  hashCount w' = match o with Some _ => wrap 64 (hashCount w + 1) | None => hashCount w end ∧
  (∃ k, shareCount w' = shareCount w ∧
    Z.of_nat (length (chan_buf w') + in_flight g') + dropCount w' =
    Z.of_nat (length (chan_buf w) + in_flight g) + dropCount w + k * 2 ^ 64 ∨
   shareCount w' = wrap 64 (shareCount w + 1) ∧
    Z.of_nat (length (chan_buf w') + in_flight g') + dropCount w' =
    Z.of_nat (length (chan_buf w) + in_flight g) + dropCount w + 1) ∧
  dropCount w' ∈u 64 ∧
  ((length (chan_buf w) ≤ chan_cap w → length (chan_buf w') ≤ chan_cap w')%nat) ∧
  (chan_buf w' = chan_buf w ∨
   ∃ i h s, at_ g = PSend i h s ∧ chan_buf w' = chan_buf w ++ [s]).
Proof.
  intros H Hp Hd. grind_cases H; unfold in_flight, goto in *; simpl in *;
    rewrite ?Heqp; simpl; repeat split; auto with otd lia.
  all: try (exists 0; lia).
  all: rewrite ?length_app; simpl length.
  all: try (exists 0; lia).
  - unfold chan_cap in *. simpl in *. lia.
  - eauto 10.
  - unfold wrap. pose proof (Z.div_mod (dropCount w + 1) (2 ^ 64)).
    exists (- ((dropCount w + 1) / 2 ^ 64)). left. lia.
  - by apply wrap_range.
  - by apply wrap_range.
Qed.

Lemma sum_in_flight_insert gs t g g' :
  gs !! t = Some g →
  (sum_list (in_flight <$> <[t:=g']> gs) + in_flight g =
   sum_list (in_flight <$> gs) + in_flight g')%nat.
Proof.
  revert t. induction gs as [|x gs IH]; intros [|t] Ht; simplify_eq/=; [lia|].
  specialize (IH _ Ht). lia.
Qed.

Lemma wrap_add_wrap w a b : wrap w (wrap w a + b) = wrap w (a + b).
Proof. unfold wrap. apply Zplus_mod_idemp_l. Qed.
Lemma wrap_add_mult w a k : wrap w (a + k * 2 ^ w) = wrap w a.
Proof. unfold wrap. apply Z_mod_plus_full. Qed.

Lemma is_returned_at gs t g :
  forallb is_returned gs = true → gs !! t = Some g → is_returned g = true.
Proof.
  rewrite forallb_forall. intros H Ht.
  apply H, list_elem_of_In. by eapply list_elem_of_lookup_2.
Qed.

Lemma grind_step_returned tid w g w' g' o :
  grind_step tid w g = (w', g', o) → is_returned g = true → g' = g.
Proof.
  intros H Hr. unfold is_returned in Hr. unfold grind_step in H.
  destruct (at_ g); try discriminate Hr. congruence.
Qed.

Lemma hashes_EHash o : hashes (EHash <$> option_list o) = option_list o.
Proof. by destruct o. Qed.
Lemma works_set_EHash o : works_set (EHash <$> option_list o) = [].
Proof. by destruct o. Qed.
Lemma received_EHash o : received (EHash <$> option_list o) = [].
Proof. by destruct o. Qed.

Lemma inv_step_thread c tr w gs tid g w' g' o :
  inv c tr {| shared := w; grinders := gs |} → gs !! tid = Some g →
  grind_step (wrap 32 (Z.of_nat tid)) w g = (w', g', o) →
  inv c (tr ++ (EHash <$> option_list o)) {| shared := w'; grinders := <[tid:=g']> gs |}.
Proof.
  intros [I1 I2 I3 I4 I5 I6 I7 I8 I9 I10 I11] Hg Hst. simpl in *.
  destruct (grind_step_frame _ _ _ _ _ _ Hst) as (F1 & F2 & _ & F3 & F4 & _).
  pose proof (Forall_lookup_1 _ _ _ _ I4 Hg) as Hok.
  assert (grinder_ok c (history tr) g') as Hok'.
  { subst c. eapply grind_step_ok; eauto.
    intros Hc. eapply is_returned_at; eauto. }
  assert (at_ g' ≠ PPanicked) as Hnp
    by (intros Hp; destruct Hok' as [_ Hok']; unfold phase_ok in Hok'; by rewrite Hp in Hok').
  destruct (grind_step_counts _ _ _ _ _ _ Hst Hnp I11) as (C1 & [k C2] & C3 & C4 & C5).
  pose proof (sum_in_flight_insert gs tid g g' Hg) as Hsum.
  constructor; simpl; rewrite ?hashes_app, ?received_app, ?history_app,
    ?hashes_EHash, ?works_set_EHash, ?received_EHash, ?app_nil_r; auto; try congruence.
  - by rewrite length_insert.
  - by apply Forall_insert.
  - destruct C5 as [->|(i & h & sh & Hp & ->)]; [done|].
    rewrite app_assoc. apply Forall_app. split; [done|]. apply Forall_singleton.
    destruct Hok as [_ Hok]. unfold phase_ok in Hok. rewrite Hp in Hok. apply Hok.
  - rewrite F3. intros Hc. specialize (I7 Hc).
    rewrite (grind_step_returned _ _ _ _ _ _ Hst) by (by eapply is_returned_at).
    by rewrite list_insert_id.
  - rewrite C1. destruct o; simpl; rewrite ?app_nil_r, ?length_app; [|done].
    rewrite I9, wrap_add_wrap. f_equal. simpl. lia.
  - destruct C2 as [[-> C2]|[-> C2]]; rewrite I10.
    + rewrite <- (wrap_add_mult 64 _ k). f_equal. lia.
    + rewrite wrap_add_wrap. f_equal. lia.
Qed.

Lemma inv_step c tr s ev s' : inv c tr s → step s ev s' → inv c (tr ++ ev) s'.
Proof.
  intros [I1 I2 I3 I4 I5 I6 I7 I8 I9 I10 I11] Hs.
  assert (history tr ⊆ history (tr ++ ev)) as Hsub
    by (rewrite history_app; set_solver).
  destruct Hs as [tid w gs g w' g' o Hg Hst|p w gs|w gs|sh buf w gs Hb|w gs Hr Hc];
    simpl in *.
  - by eapply inv_step_thread.
  - constructor; simpl; rewrite ?hashes_app, ?received_app, ?history_app, ?app_nil_r; auto.
    + set_solver.
    + eapply Forall_impl; [exact I4|]. intros. eapply grinder_ok_mono; [|done]. set_solver.
    + eapply Forall_impl; [exact I5|]. intros. eapply share_valid_mono; [|done]. set_solver.
  - rewrite app_nil_r. by constructor.
  - constructor; simpl; rewrite ?hashes_app, ?received_app, ?history_app, ?app_nil_r; auto.
    + rewrite <- app_assoc. simpl. by rewrite <- Hb.
    + unfold chan_cap in *. rewrite Hb in I6. simpl in *. lia.
    + rewrite I10, Hb, length_app. f_equal. simpl. lia.
  - rewrite app_nil_r. constructor; simpl; auto.
Qed.

(** A worker as [NewWorker] builds it and [Start] launches it. *)
Definition launched (NumCPU : Z) (c : WorkerConfig) (now : Z) (s : system) : Prop :=
  Start now (NewWorker NumCPU c) = Ok s.

Lemma inv_launched n c now s :
  launched n c now s → inv (cfg (shared s)) [] s.
Proof.
  unfold launched, Start. simpl. intros <-%Ok_inj. simpl.
  set (c' := Build_WorkerConfig _ _ _ _).
  constructor; simpl; auto; try done.
  - by rewrite length_map, length_seq.
  - left.
  - apply Forall_fmap, Forall_true. intros i. split; [left|done].
  - lia.
  - assert (∀ l, sum_list (in_flight <$> map (λ i, grind_init c' (wrap 32 (Z.of_nat i))) l) = 0%nat)
      as -> by (intros l; induction l; simpl; auto). done.
Qed.

Lemma inv_steps n c now s0 tr s :
  launched n c now s0 → steps s0 tr s → inv (cfg (shared s0)) tr s.
Proof.
  intros Hl. induction 1 as [|tr s ev s' _ IH Hst]; [by eapply inv_launched|].
  by eapply inv_step.
Qed.

(** * The nonce space *)

(** The (nonce, ntime roll) of a goroutine after [k] iterations on a job. *)
Definition pos (c : WorkerConfig) (t k : nat) : Z * Z :=
  Nat.iter k (advance (NonceStep c)) (startNonce c (wrap 32 (Z.of_nat t)), 0).

(** Seen as one 64-bit counter, the position advances by the step. *)
Definition lin (c : WorkerConfig) (t k : nat) : Z :=
  startNonce c (wrap 32 (Z.of_nat t)) + Z.of_nat k * NonceStep c.

Lemma advance_lin stp L :
  0 ≤ L → stp ∈u 32 →
  advance stp (L mod 2 ^ 32, (L / 2 ^ 32) mod 2 ^ 32) =
  ((L + stp) mod 2 ^ 32, ((L + stp) / 2 ^ 32) mod 2 ^ 32).
Proof.
  intros HL Hs. unfold advance, wrap. cbn [fst snd].
  rewrite Zplus_mod_idemp_l. f_equal.
  pose proof (Z.div_mod L (2 ^ 32)) as D1. pose proof (Z.div_mod (L + stp) (2 ^ 32)) as D2.
  pose proof (Z.mod_pos_bound L (2 ^ 32)) as M1.
  pose proof (Z.mod_pos_bound (L + stp) (2 ^ 32)) as M2.
  set (q := L / 2 ^ 32) in *. set (q' := (L + stp) / 2 ^ 32) in *.
  destruct (Z.ltb_spec ((L + stp) mod 2 ^ 32) (L mod 2 ^ 32)).
  - assert (q' = q + 1) as -> by lia. by rewrite Zplus_mod_idemp_l.
  - assert (q' = q) as -> by lia. done.
Qed.

Lemma pos_lin c t k :
  NonceStep c ∈u 32 →
  pos c t k = (lin c t k mod 2 ^ 32, (lin c t k / 2 ^ 32) mod 2 ^ 32).
Proof.
  intros Hs. unfold pos, lin.
  pose proof (wrap_range 32 (NonceOffset c + wrap 32 (Z.of_nat t)) ltac:(lia)) as Hr.
  fold (startNonce c (wrap 32 (Z.of_nat t))) in Hr.
  set (s := startNonce _ _) in *. induction k as [|k IH].
  - simpl. rewrite Z.add_0_r, Z.mod_small, Z.div_small by lia. done.
  - rewrite Nat.iter_succ, IH, advance_lin by lia.
    replace (s + Z.of_nat (S k) * NonceStep c)
      with (s + Z.of_nat k * NonceStep c + NonceStep c) by lia. done.
Qed.

(** A configuration whose threads have distinct residues modulo the step. *)
Definition partitioned (c : WorkerConfig) : Prop :=
  0 ≤ NonceOffset c ∧ NonceOffset c + Threads c ≤ 2 ^ 32 ∧
  0 < NonceStep c < 2 ^ 32 ∧ Threads c ≤ NonceStep c.

Lemma lin_inj c t1 k1 t2 k2 :
  partitioned c → Z.of_nat t1 < Threads c → Z.of_nat t2 < Threads c →
  lin c t1 k1 = lin c t2 k2 → t1 = t2 ∧ k1 = k2.
Proof.
  intros (H1 & H2 & H3 & H4) Ht1 Ht2. unfold lin, startNonce.
  rewrite !(wrap_small 32 (Z.of_nat _)) by lia. rewrite !wrap_small by lia.
  intros He. assert (Z.of_nat k1 = Z.of_nat k2) by nia. lia.
Qed.

Lemma header_at_inj lw n1 r1 n2 r2 :
  r1 ∈u 32 → r2 ∈u 32 → header_at lw (n1, r1) = header_at lw (n2, r2) → n1 = n2 ∧ r1 = r2.
Proof.
  intros H1 H2 H. unfold header_at, header_with_nonce, header_with_time in H. simpl in H.
  injection H as Ht Hn. split; [done|]. unfold wrap in Ht.
  assert ((r1 - r2) mod 2 ^ 32 = 0) as Hd.
  { replace (r1 - r2) with (Time (Work_Header lw) + r1 - (Time (Work_Header lw) + r2)) by lia.
    by rewrite Zminus_mod, Ht, Z.sub_diag. }
  apply Z.mod_divide in Hd as [q Hq]; [|lia]. nia.
Qed.

Lemma header_pos_inj c lw t1 k1 t2 k2 :
  partitioned c → Z.of_nat t1 < Threads c → Z.of_nat t2 < Threads c →
  lin c t1 k1 < 2 ^ 64 → lin c t2 k2 < 2 ^ 64 →
  header_at lw (pos c t1 k1) = header_at lw (pos c t2 k2) → t1 = t2 ∧ k1 = k2.
Proof.
  intros Hc Ht1 Ht2 Hk1 Hk2. pose proof Hc as (_ & _ & Hs & _).
  rewrite !pos_lin by lia. intros H.
  apply header_at_inj in H as [Hn Hr]; [|apply Z.mod_pos_bound; lia..].
  apply (lin_inj c); try done.
  assert (∀ t k, 0 ≤ lin c t k) as Hpos.
  { intros t k. unfold lin. pose proof (wrap_range 32 (NonceOffset c + wrap 32 (Z.of_nat t)) ltac:(lia)).
    unfold startNonce. lia. }
  change (2 ^ 64) with (2 ^ 32 * 2 ^ 32) in *.
  assert (∀ L, 0 ≤ L → L < 2 ^ 32 * 2 ^ 32 → (L / 2 ^ 32) mod 2 ^ 32 = L / 2 ^ 32) as Hdiv.
  { intros L HL1 HL2. apply Z.mod_small. split; [apply Z.div_pos; lia|].
    apply Z.div_lt_upper_bound; lia. }
  rewrite !Hdiv in Hr by auto.
  pose proof (Z.div_mod (lin c t1 k1) (2 ^ 32)). pose proof (Z.div_mod (lin c t2 k2) (2 ^ 32)).
  lia.
Qed.

(** * No header is hashed twice *)

(** Every hash has a key: thread, work version, iteration. *)
Definition key : Type := nat * nat * nat.
Definition key_hash (c : WorkerConfig) (ws : list work_ptr) (k : key) (h : hashed) : Prop :=
  let '(t, v, j) := k in
  Z.of_nat t < Threads c ∧
  ∃ a lw, ws !! v = Some (Some (a, lw)) ∧
    h = {| by_thread := wrap 32 (Z.of_nat t); by_version := Z.of_nat v;
           hashed_header := header_at lw (pos c t j) |}.

(** The goroutine has hashed at its current position. *)
Definition after_hash (g : grinder) : nat :=
  match at_ g with
  | PFound _ _ _ | PSend _ _ _ | PDrop _ _ | PAdvance _ _ => 1
  | _ => 0
  end.

(** Thread [t] is at iteration [k] of its version, and past the keys it used. *)
Definition thread_at (c : WorkerConfig) (ws : list work_ptr) (ver : Z) (keys : list key)
    (t : nat) (g : grinder) (k : nat) : Prop :=
  0 ≤ localWorkVer g ≤ ver ∧
  ws !! Z.to_nat (localWorkVer g) = Some (localWork g) ∧
  (nonce g, ntimeRoll g) = pos c t k ∧
  (k + after_hash g ≤ length keys)%nat ∧
  ∀ v j, (t, v, j) ∈ keys →
    Z.of_nat v ≤ localWorkVer g ∧ (Z.of_nat v = localWorkVer g → (j < k + after_hash g)%nat).

Record keyed (c : WorkerConfig) (tr : list event) (s : system) (keys : list key) : Prop := {
  keyed_ver : workVer (shared s) = Z.of_nat (length (works_set tr));
  keyed_work : history tr !! length (works_set tr) = Some (work (shared s));
  keyed_hashes : Forall2 (key_hash c (history tr)) keys (hashes tr);
  keyed_nodup : NoDup keys;
  keyed_bound : Forall (λ k : key, (k.2 < length keys)%nat) keys;
  keyed_threads : ∀ t g, grinders s !! t = Some g →
    ∃ k, thread_at c (history tr) (workVer (shared s)) keys t g k;
}.

Lemma key_hash_mono c ws ws' k h : key_hash c ws k h → key_hash c (ws ++ ws') k h.
Proof.
  destruct k as [[t v] j]. intros (Ht & a & lw & Hl & ->). split; [done|].
  exists a, lw. split; [|done]. by apply lookup_app_l_Some.
Qed.

Lemma ptr_eqb_refl p : ptr_eqb p p = true.
Proof. destruct p as [[a ?]|]; simpl; [apply Nat.eqb_refl|done]. Qed.

(** Outside the reload, a step keeps the work; it hashes at the current
    position, or advances after a hash, or keeps the position. *)
Lemma grind_step_position tid w g w' g' o :
  grind_step tid w g = (w', g', o) → at_ g ≠ PReload → at_ g' ≠ PPanicked →
  localWork g' = localWork g ∧ localWorkVer g' = localWorkVer g ∧
  match o with
  | Some hd => after_hash g = 0%nat ∧ after_hash g' = 1%nat ∧
      (nonce g', ntimeRoll g') = (nonce g, ntimeRoll g) ∧
      ∃ i h, at_ g = PHash i h ∧
        hd = {| by_thread := tid; by_version := localWorkVer g;
                hashed_header := header_with_nonce h (nonce g) |}
  | None =>
      (nonce g', ntimeRoll g') = (nonce g, ntimeRoll g) ∧ after_hash g' = after_hash g ∨
      (nonce g', ntimeRoll g') = advance (NonceStep (cfg w)) (nonce g, ntimeRoll g) ∧
        after_hash g = 1%nat ∧ after_hash g' = 0%nat
  end.
Proof.
  intros H Hr Hp. grind_cases H; unfold after_hash; rewrite ?Heqp; simpl; eauto 10.
Qed.

Lemma grind_step_reload tid w g w' g' o :
  grind_step tid w g = (w', g', o) → at_ g = PReload →
  o = None ∧ after_hash g' = 0%nat ∧
  (localWork g' = work w ∧ localWorkVer g' = workVer w ∧
     (nonce g', ntimeRoll g') = (startNonce (cfg w) tid, 0) ∧
     (localWork g = work w → localWorkVer g ≠ workVer w) ∨
   localWork g' = localWork g ∧ localWorkVer g' = localWorkVer g ∧
     (nonce g', ntimeRoll g') = (nonce g, ntimeRoll g)).
Proof.
  unfold grind_step. intros H Hr. rewrite Hr in H. unfold after_hash.
  destruct (negb _ || negb _) eqn:E.
  - assert (localWork g = work w → localWorkVer g ≠ workVer w).
    { intros He Hv. by rewrite He, Hv, ptr_eqb_refl, Z.eqb_refl in E. }
    destruct (work w) as [[a lw]|] eqn:Ew; simplify_eq/=; rewrite ?Ew; auto 10.
  - destruct (localWork g) as [[a lw]|] eqn:Ew; simplify_eq/=; rewrite ?Ew; auto 10.
Qed.

Lemma thread_at_keep c ws ver keys t g g' k k' :
  thread_at c ws ver keys t g k →
  localWork g' = localWork g → localWorkVer g' = localWorkVer g →
  (nonce g', ntimeRoll g') = pos c t k' →
  (k' + after_hash g' = k + after_hash g)%nat →
  thread_at c ws ver keys t g' k'.
Proof.
  intros (V & W & P & B & K) H1 H2 H3 H4. unfold thread_at. rewrite H1, H2, H3, H4.
  auto 10.
Qed.

(** A step without a hash keeps the keys sound. *)
Lemma thread_at_step c ws w g w' g' t k keys :
  cfg w = c → thread_at c ws (workVer w) keys t g k → at_ g' ≠ PPanicked →
  ws !! Z.to_nat (workVer w) = Some (work w) → 0 ≤ workVer w →
  grind_step (wrap 32 (Z.of_nat t)) w g = (w', g', None) →
  ∃ k', thread_at c ws (workVer w) keys t g' k'.
Proof.
  intros Hc Ht Hp Hw Hv H. pose proof Ht as (V & W & P & B & K).
  assert (at_ g = PReload ∨ at_ g ≠ PReload) as [Hat|Hat] by (destruct (at_ g); auto).
  - assert (after_hash g = 0%nat) as Ha by (unfold after_hash; by rewrite Hat).
    destruct (grind_step_reload _ _ _ _ _ _ H Hat) as (_ & Ha' & [R|R]).
    + destruct R as (R1 & R2 & R3 & R4). exists 0%nat. unfold thread_at.
      rewrite R1, R2, R3, Ha', Hc. split; [lia|]. do 3 (split; [done || lia|]).
      assert (localWorkVer g ≠ workVer w).
      { intros He. apply R4; [|done]. rewrite He in W. congruence. }
      intros v j Hin. destruct (K v j Hin). lia.
    + destruct R as (R1 & R2 & R3). exists k. eapply thread_at_keep; eauto; first [congruence | lia].
  - destruct (grind_step_position _ _ _ _ _ _ H Hat Hp) as (L1 & L2 & [[R1 R2]|(R1 & R2 & R3)]).
    + exists k. eapply thread_at_keep; eauto; first [congruence | lia].
    + exists (S k). eapply thread_at_keep; eauto; [|lia].
      unfold pos. rewrite Nat.iter_succ. fold (pos c t k). congruence.
Qed.

(** A step that hashes adds the key of the current position. *)
Lemma thread_at_hash c ws w g w' g' hd t k keys :
  cfg w = c → thread_at c ws (workVer w) keys t g k → grinder_ok c ws g →
  at_ g' ≠ PPanicked → Z.of_nat t < Threads c →
  grind_step (wrap 32 (Z.of_nat t)) w g = (w', g', Some hd) →
  let kk := (t, Z.to_nat (localWorkVer g), k) in
  kk ∉ keys ∧ key_hash c ws kk hd ∧ (k ≤ length keys)%nat ∧
  thread_at c ws (workVer w) (keys ++ [kk]) t g' k.
Proof.
  intros Hc (V & W & P & B & K) [_ Hok] Hp Ht H kk.
  assert (at_ g ≠ PReload) as Hat
    by (intros Hat; by destruct (grind_step_reload _ _ _ _ _ _ H Hat)).
  destruct (grind_step_position _ _ _ _ _ _ H Hat Hp)
    as (L1 & L2 & A1 & A2 & P' & i & h & Hph & ->).
  unfold phase_ok in Hok. rewrite Hph in Hok. destruct Hok as [(a & lw & Hlw & Hh) _].
  split; [|split; [|split]].
  - intros Hin. destruct (K _ _ Hin) as [_ K2]. lia.
  - unfold kk, key_hash. split; [done|]. exists a, lw. rewrite <- Hlw. split; [exact W|].
    rewrite Z2Nat.id by lia. f_equal.
    rewrite (header_with_nonce_at lw h (ntimeRoll g)) by done. by rewrite P.
  - lia.
  - unfold thread_at. rewrite L1, L2, P', A2, length_app. simpl.
    do 3 (split; [done|]). split; [lia|]. intros v j [Hin|Hin]%elem_of_app.
    + destruct (K v j Hin). split; [done|]. lia.
    + apply list_elem_of_singleton in Hin. injection Hin as -> ->. lia.
Qed.

(** Other threads are not affected by the new key or the longer history. *)
Lemma thread_at_other c ws ws' ver ver' keys keys' t g k :
  thread_at c ws ver keys t g k → ver ≤ ver' →
  (∀ v j, (t, v, j) ∉ keys') →
  thread_at c (ws ++ ws') ver' (keys ++ keys') t g k.
Proof.
  intros (V & W & P & B & K) Hv Hk. split; [lia|]. split; [by apply lookup_app_l_Some|].
  split; [done|]. rewrite length_app. split; [lia|].
  intros v j [Hin|Hin]%elem_of_app; [by apply K|]. by destruct (Hk v j).
Qed.

Lemma history_latest tr p :
  history (tr ++ [ESetWork p]) !! length (works_set (tr ++ [ESetWork p])) = Some p.
Proof.
  unfold history. rewrite works_set_app, length_app, Nat.add_1_r. simpl.
  by apply list_lookup_middle.
Qed.

Lemma keyed_step_thread c tr w gs keys tid g w' g' o :
  inv c tr {| shared := w; grinders := gs |} →
  keyed c tr {| shared := w; grinders := gs |} keys →
  gs !! tid = Some g → grind_step (wrap 32 (Z.of_nat tid)) w g = (w', g', o) →
  ∃ keys', keyed c (tr ++ (EHash <$> option_list o))
             {| shared := w'; grinders := <[tid:=g']> gs |} keys'.
Proof.
  intros Hi [K1 K2 K3 K4 K5 K6] Hg Hst. simpl in *.
  pose proof (inv_step_thread _ _ _ _ _ _ _ _ _ Hi Hg Hst) as Hi'.
  destruct (grind_step_frame _ _ _ _ _ _ Hst) as (F1 & F2 & F3 & _).
  pose proof (lookup_lt_Some _ _ _ Hg) as Hlt.
  assert (at_ g' ≠ PPanicked) as Hp.
  { intros Hp. pose proof (inv_grinders _ _ _ Hi') as Hf. simpl in Hf.
    destruct (Forall_lookup_1 _ _ tid g' Hf) as [_ Hq]; [by apply list_lookup_insert_eq|].
    unfold phase_ok in Hq. by rewrite Hp in Hq. }
  destruct (K6 tid g Hg) as [k Hk].
  assert (history tr !! Z.to_nat (workVer w) = Some (work w)) as Hw
    by (by rewrite K1, Nat2Z.id).
  destruct o as [hd|].
  - pose proof (inv_threads _ _ _ Hi) as Hn. simpl in Hn.
    destruct (thread_at_hash c (history tr) w g w' g' hd tid k keys) as (N & KH & Hle & T);
      auto; [apply (inv_cfg _ _ _ Hi)|by eapply Forall_lookup_1; [apply (inv_grinders _ _ _ Hi)|]|lia|].
    set (kk := (tid, _, k)) in *. exists (keys ++ [kk]).
    constructor; simpl; rewrite ?history_app, ?works_set_app, ?hashes_app, ?app_nil_r,
      ?F2, ?F3; simpl; rewrite ?app_nil_r; auto.
    + apply Forall2_app; [done|]. by apply Forall2_cons.
    + apply NoDup_app. split; [done|]. split; [set_solver|apply NoDup_singleton].
    + rewrite length_app. apply Forall_app. split; [|apply Forall_singleton; simpl; lia].
      eapply Forall_impl; [exact K5|]. simpl. lia.
    + intros t g0. destruct (decide (t = tid)) as [->|Hne].
      * rewrite list_lookup_insert_eq by done. intros [= <-]. eauto.
      * rewrite list_lookup_insert_ne by done. intros Hg0.
        destruct (K6 t g0 Hg0) as [k0 Hk0]. exists k0.
        rewrite <- (app_nil_r (history tr)).
        eapply thread_at_other; [done|lia|]. unfold kk. set_solver.
  - simpl. rewrite app_nil_r. exists keys.
    constructor; simpl; rewrite ?F2, ?F3; auto.
    intros t g0. destruct (decide (t = tid)) as [->|Hne].
    + rewrite list_lookup_insert_eq by done. intros [= <-].
      eapply thread_at_step; eauto; [apply (inv_cfg _ _ _ Hi)|lia].
    + rewrite list_lookup_insert_ne by done. apply K6.
Qed.

Lemma keyed_step c tr s ev s' keys :
  inv c tr s → keyed c tr s keys → step s ev s' →
  Z.of_nat (length (works_set (tr ++ ev))) < 2 ^ 64 →
  ∃ keys', keyed c (tr ++ ev) s' keys'.
Proof.
  intros Hi [K1 K2 K3 K4 K5 K6] Hs Hb.
  destruct Hs as [tid w gs g w' g' o Hg Hst|p w gs|w gs|sh buf w gs Hbuf|w gs Hr Hc];
    simpl in *.
  - by eapply keyed_step_thread.
  - rewrite works_set_app, length_app in Hb. simpl in Hb. exists keys.
    constructor; cbn [shared grinders SetWork set_work_ver work workVer]; auto.
    + rewrite K1, works_set_app, length_app, wrap_small; simpl; lia.
    + apply history_latest.
    + rewrite history_app, hashes_app, app_nil_r.
      eapply Forall2_impl; [exact K3|]. intros; by apply key_hash_mono.
    + intros t g Hg. destruct (K6 t g Hg) as [k Hk]. exists k.
      rewrite history_app, <- (app_nil_r keys). eapply thread_at_other; [done| |intros; by apply not_elem_of_nil].
      rewrite wrap_small; lia.
  - exists keys. rewrite app_nil_r. by constructor.
  - exists keys. constructor; simpl; rewrite ?works_set_app, ?hashes_app, ?history_app, ?app_nil_r; auto.
  - exists keys. rewrite app_nil_r. by constructor.
Qed.

Lemma keyed_launched n c now s : launched n c now s → keyed (cfg (shared s)) [] s [].
Proof.
  unfold launched, Start. simpl. intros <-%Ok_inj. constructor; simpl; auto.
  - apply NoDup_nil_2.
  - intros t g Hg. apply list_lookup_fmap_Some in Hg as (i & -> & Hi).
    exists 0%nat. unfold thread_at. simpl. split; [lia|]. split; [done|].
    apply lookup_seq in Hi as [-> _]. split; [done|]. split; [unfold after_hash; simpl; lia|].
    intros v j Hin. by apply not_elem_of_nil in Hin.
Qed.

Lemma works_set_prefix_le t1 t2 :
  (length (works_set t1) ≤ length (works_set (t1 ++ t2)))%nat.
Proof. rewrite works_set_app, length_app. lia. Qed.

Lemma keyed_steps n c now s0 tr s :
  launched n c now s0 → steps s0 tr s → Z.of_nat (length (works_set tr)) < 2 ^ 64 →
  ∃ keys, keyed (cfg (shared s0)) tr s keys.
Proof.
  intros Hl. induction 1 as [|tr s ev s' Hst IH Hs]; intros Hb.
  - exists []. by eapply keyed_launched.
  - pose proof (works_set_prefix_le tr ev). destruct IH as [keys Hk]; [lia|].
    eapply keyed_step; eauto. by eapply inv_steps.
Qed.

(** C1. No header is hashed twice.  With the nonce layout of a worker whose
    threads have distinct residues modulo the step, two hashes of an execution
    under the same job version are of different headers, whichever threads
    computed them and however the nonce wrapped, until a thread has used up all
    [2 ^ 64] (ntime roll, nonce) pairs. *)
Theorem no_header_hashed_twice NumCPU c now s0 tr s i1 i2 h1 h2 :
  launched NumCPU c now s0 → steps s0 tr s → partitioned (cfg (shared s0)) →
  Z.of_nat (length (works_set tr)) < 2 ^ 64 →
  2 ^ 32 + Z.of_nat (length (hashes tr)) * NonceStep (cfg (shared s0)) ≤ 2 ^ 64 →
  hashes tr !! i1 = Some h1 → hashes tr !! i2 = Some h2 →
  by_version h1 = by_version h2 → hashed_header h1 = hashed_header h2 → i1 = i2.
Proof.
  intros Hl Hst Hc Hsets Hlen Hi1 Hi2 Hv Hh. set (c' := cfg (shared s0)) in *.
  destruct (keyed_steps _ _ _ _ _ _ Hl Hst Hsets) as [keys [_ _ K3 K4 K5 _]].
  pose proof (Forall2_length _ _ _ K3) as Hkl.
  destruct (Forall2_lookup_r _ _ _ _ _ K3 Hi1) as ([[t1 v1] j1] & Hk1 & Ht1 & a1 & lw1 & Hw1 & ->).
  destruct (Forall2_lookup_r _ _ _ _ _ K3 Hi2) as ([[t2 v2] j2] & Hk2 & Ht2 & a2 & lw2 & Hw2 & ->).
  simpl in Hv, Hh. assert (v1 = v2) as <- by lia.
  rewrite Hw1 in Hw2. injection Hw2 as <- <-.
  pose proof (Forall_lookup_1 _ _ _ _ K5 Hk1) as B1.
  pose proof (Forall_lookup_1 _ _ _ _ K5 Hk2) as B2. simpl in B1, B2.
  assert (∀ t j, (j < length keys)%nat → lin c' t j < 2 ^ 64) as Hlin.
  { intros t j Hj. unfold lin, startNonce. destruct Hc as (_ & _ & Hs & _).
    pose proof (wrap_range 32 (NonceOffset c' + wrap 32 (Z.of_nat t)) ltac:(lia)). nia. }
  apply header_pos_inj in Hh as [-> ->]; auto.
  by eapply NoDup_lookup.
Qed.

(** C5. Every share the consumer received or that waits in the channel was
    found for a job some [SetWork] installed: its hash is the double SHA-256 of
    that job's header at the share's nonce and (rolled) time, the hash is at
    most the job's target as a 256-bit number, and version, job, channel,
    extranonce and device are the ones the pool needs to rebuild it. *)
Theorem shares_are_valid NumCPU c now s0 tr s sh :
  launched NumCPU c now s0 → steps s0 tr s →
  sh ∈ received tr ++ chan_buf (shared s) →
  ∃ a lw h, ESetWork (Some (a, lw)) ∈ tr ∧
    Share_Hash sh = HashHeader h ∧ Share_Target sh = Work_Target lw ∧
    (is_hash (Work_Target lw) → le_Z (HashHeader h) ≤ le_Z (Work_Target lw)) ∧
    Nonce h = Share_Nonce sh ∧ Time h = Share_NTime sh ∧ Version h = Share_Version sh ∧
    Version h = Version (Work_Header lw) ∧ PrevHash h = PrevHash (Work_Header lw) ∧
    MerkleRoot h = MerkleRoot (Work_Header lw) ∧ Bits h = Bits (Work_Header lw) ∧
    Share_JobID sh = Work_JobID lw ∧ Share_ChannelID sh = Work_ChannelID lw ∧
    Share_ExtraNonce sh = Work_ExtraNonce lw ∧ Share_DeviceID sh = cfg_DeviceID c.
Proof.
  intros Hl Hst Hin. pose proof (inv_shares _ _ _ (inv_steps _ _ _ _ _ _ Hl Hst)) as Hf.
  rewrite Forall_forall in Hf. destruct (Hf _ Hin) as (a & lw & n & r & Hw & -> & Hle).
  exists a, lw, (header_at lw (n, r)). simpl in *.
  assert (cfg_DeviceID (cfg (shared s0)) = cfg_DeviceID c) as ->.
  { unfold launched, Start in Hl. simpl in Hl. by apply Ok_inj in Hl as <-. }
  apply elem_of_cons in Hw as [?|Hw]; [done|].
  apply list_elem_of_omap in Hw as (e & He & Hee). destruct e; simplify_eq.
  split; [done|]. do 2 (split; [done|]). split; [|done].
  intros Ht. rewrite LessOrEqual_numeric in Hle; [lia|apply is_hash_SHA256d|done].
Qed.

Lemma in_flight_returned gs :
  forallb is_returned gs = true → sum_list (in_flight <$> gs) = 0%nat.
Proof.
  induction gs as [|g gs IH]; [done|]. simpl. intros [Hg Hgs]%andb_true_iff.
  specialize (IH Hgs). assert (in_flight g = 0%nat) as Hz
    by (unfold is_returned, in_flight in *; by destruct (at_ g)).
  rewrite Hz. exact IH.
Qed.

(** The counters account for every hash and every share: hashes counted
    are hashes performed; shares counted are those consumed, buffered, dropped
    or between their counter update and their send; and the buffer never
    exceeds its capacity (all counters are 64-bit and wrap). *)
Theorem counters_account NumCPU c now s0 tr s :
  launched NumCPU c now s0 → steps s0 tr s →
  let w := shared s in
  hashCount w = wrap 64 (Z.of_nat (length (hashes tr))) ∧
  shareCount w = wrap 64
    (Z.of_nat (length (received tr) + length (chan_buf w) +
               sum_list (in_flight <$> grinders s)) + dropCount w) ∧
  (length (chan_buf w) ≤ Z.to_nat (Threads (cfg (shared s0)) * 4))%nat ∧
  (done w = true → sum_list (in_flight <$> grinders s) = 0%nat).
Proof.
  intros Hl Hst w. pose proof (inv_steps _ _ _ _ _ _ Hl Hst) as I.
  split; [apply (inv_hashes _ _ _ I)|]. split; [apply (inv_found _ _ _ I)|]. split.
  - pose proof (inv_cap _ _ _ I) as Hc. unfold chan_cap in Hc.
    by rewrite (inv_cfg _ _ _ I) in Hc.
  - unfold w. rewrite (inv_done _ _ _ I). intros Hd. apply (inv_closed _ _ _ I) in Hd.
    by apply in_flight_returned.
Qed.

(** The goroutines never panic (no nil job is dereferenced, nothing is
    sent on the closed share channel), and the channel is closed only after
    every goroutine has returned. *)
Theorem worker_never_panics NumCPU c now s0 tr s g :
  launched NumCPU c now s0 → steps s0 tr s → g ∈ grinders s →
  at_ g ≠ PPanicked ∧ (chan_closed (shared s) = true → at_ g = PReturned).
Proof.
  intros Hl Hst Hg. pose proof (inv_steps _ _ _ _ _ _ Hl Hst) as I.
  pose proof (inv_grinders _ _ _ I) as Hf. rewrite Forall_forall in Hf.
  destruct (Hf g Hg) as [_ Hp]. unfold phase_ok in Hp. split.
  - intros Ha. by rewrite Ha in Hp.
  - intros Hc%(inv_closed _ _ _ I). apply list_elem_of_lookup_1 in Hg as [i Hi].
    pose proof (is_returned_at _ _ _ Hc Hi) as Hr. unfold is_returned in Hr.
    by destruct (at_ g).
Qed.

(** * Cancellation terminates *)

(** An upper bound on the steps a goroutine still takes once cancelled. *)
Definition remaining (g : grinder) : nat :=
  let batch i := (2 + 5 * (batchSize - i))%nat in
  match at_ g with
  | PReturned | PPanicked => 0
  | PTop => 1
  | PIdle => 2
  | PReload => 1 + batch 0%nat
  | PHash i _ => batch i
  | PFound i _ _ => batch i - 1
  | PSend i _ _ => batch i - 2
  | PDrop i _ => batch i - 3
  | PAdvance i _ => batch i - 4
  end.

Lemma remaining_decreases tid w g w' g' o c ws :
  grind_step tid w g = (w', g', o) → cancelled w = true → grinder_ok c ws g →
  is_returned g = false → (remaining g' < remaining g)%nat.
Proof.
  intros H Hc [_ Hp] Hr. unfold phase_ok, is_returned in *.
  grind_cases H; unfold remaining, goto; cbn [at_]; rewrite ?Heqp; try congruence;
    destruct_and?; unfold batchSize in *; try lia.
Qed.

Definition total_remaining (gs : list grinder) : nat := sum_list (remaining <$> gs).

Lemma total_remaining_insert gs t g g' :
  gs !! t = Some g → (remaining g' < remaining g)%nat →
  (total_remaining (<[t:=g']> gs) < total_remaining gs)%nat.
Proof.
  unfold total_remaining. revert t.
  induction gs as [|x gs IH]; intros [|t] Ht Hlt; simplify_eq/=; [lia|].
  specialize (IH _ Ht Hlt). lia.
Qed.

Lemma steps_trans s0 t1 s1 t2 s2 : steps s0 t1 s1 → steps s1 t2 s2 → steps s0 (t1 ++ t2) s2.
Proof.
  intros H1. induction 1 as [|tr s ev s' _ IH Hs]; [by rewrite app_nil_r|].
  rewrite app_assoc. by econstructor.
Qed.

Lemma not_all_returned gs :
  forallb is_returned gs = false → ∃ t g, gs !! t = Some g ∧ is_returned g = false.
Proof.
  induction gs as [|g gs IH]; simpl; [done|]. destruct (is_returned g) eqn:E; simpl.
  - intros H. destruct (IH H) as (t & g' & ? & ?). by exists (S t), g'.
  - intros _. by exists 0%nat, g.
Qed.

(** From a cancelled state, running the goroutines one after the other drains
    the worker. *)
Lemma drain n tr s :
  inv (cfg (shared s)) tr s → cancelled (shared s) = true →
  (total_remaining (grinders s) < n)%nat → ∃ tr' s', steps s tr' s' ∧
  done (shared s') = true ∧ forallb is_returned (grinders s') = true.
Proof.
  revert tr s. induction n as [|n IH]; [lia|]. intros tr [w gs] I Hc Hn. simpl in *.
  destruct (forallb is_returned gs) eqn:E.
  - destruct (chan_closed w) eqn:Ec.
    + exists [], {| shared := w; grinders := gs |}. repeat split; [constructor| |done].
      by rewrite (inv_done _ _ _ I).
    + exists ([] ++ []), {| shared := set_chan (chan_buf w) true true w; grinders := gs |}.
      split; [|done]. eapply steps_snoc; [apply steps_refl|by apply step_close].
  - apply not_all_returned in E as (t & g & Hg & Hr).
    destruct (grind_step (wrap 32 (Z.of_nat t)) w g) as [[w' g'] o] eqn:Es.
    destruct (grind_step_frame _ _ _ _ _ _ Es) as (F1 & _ & _ & _ & _ & F6).
    assert (remaining g' < remaining g)%nat as Hlt.
    { eapply remaining_decreases; eauto.
      eapply Forall_lookup_1; [apply (inv_grinders _ _ _ I)|done]. }
    pose proof (total_remaining_insert _ _ _ _ Hg Hlt) as Ht.
    pose proof (inv_step_thread _ _ _ _ _ _ _ _ _ I Hg Es) as I'.
    destruct (IH _ {| shared := w'; grinders := <[t:=g']> gs |}
      ltac:(simpl; rewrite F1; exact I') ltac:(simpl; congruence) ltac:(simpl; lia))
      as (tr' & s' & H1 & H2).
    eexists _, s'. split; [|done].
    eapply steps_trans; [|exact H1].
    eapply (steps_snoc _ [] _ _ _ (steps_refl _)). by econstructor.
Qed.

(** C6. [Stop] returns.  Once the context is cancelled, every step of a
    goroutine that has not returned lowers a bound that no other step raises,
    so each returns after at most [3 + 5 * 1024] steps of its own; then the channel is
    closed and [done] signalled. *)
Theorem stop_terminates NumCPU c now s0 tr s :
  launched NumCPU c now s0 → steps s0 tr s → cancelled (shared s) = true →
  (∀ t g w' g' o, grinders s !! t = Some g → is_returned g = false →
     grind_step (wrap 32 (Z.of_nat t)) (shared s) g = (w', g', o) →
     (remaining g' < remaining g ≤ 3 + 5 * batchSize)%nat) ∧
  ∃ tr' s', steps s tr' s' ∧ done (shared s') = true ∧
    forallb is_returned (grinders s') = true.
Proof.
  intros Hl Hst Hc. pose proof (inv_steps _ _ _ _ _ _ Hl Hst) as I. split.
  { intros t g w' g' o Hg Hr Hs. split.
    - eapply remaining_decreases; eauto.
      eapply Forall_lookup_1; [apply (inv_grinders _ _ _ I)|done].
    - cbv [remaining batchSize]. destruct (at_ g); lia. }
  apply (drain (S (total_remaining (grinders s))) tr s); [|done|lia].
  by rewrite (inv_cfg _ _ _ I).
Qed.

(** * A concrete worker

    One CPU thread, step 1, a job every hash meets: the goroutine is run by its
    own scheduler until the first share is consumed and the worker stopped. *)

Definition demo_work : Work :=
  {| Work_JobID := 7; Work_ChannelID := 3; Work_Header := genesis; Work_NBits := 0x1d00ffff;
     Work_Target := replicate 32 255; Work_ExtraNonce := [] |}.

Inductive action := AThread (t : nat) | ASetWork (p : work_ptr) | ACancel | AReceive | AClose.

(** An executable scheduler for [step]. *)
Definition act (a : action) (s : system) : option (list event * system) :=
  let '{| shared := w; grinders := gs |} := s in
  match a with
  | AThread t =>
      g ← gs !! t;
      let '(w', g', o) := grind_step (wrap 32 (Z.of_nat t)) w g in
      Some (EHash <$> option_list o, {| shared := w'; grinders := <[t := g']> gs |})
  | ASetWork p => Some ([ESetWork p], {| shared := SetWork p w; grinders := gs |})
  | ACancel => Some ([], {| shared := set_cancelled w; grinders := gs |})
  | AReceive =>
      match chan_buf w with
      | [] => None
      | s :: buf => Some ([EReceive s],
          {| shared := set_chan buf (chan_closed w) (done w) w; grinders := gs |})
      end
  | AClose =>
      if forallb is_returned gs && negb (chan_closed w)
      then Some ([], {| shared := set_chan (chan_buf w) true true w; grinders := gs |})
      else None
  end.

Fixpoint acts (l : list action) (s : system) : option (list event * system) :=
  match l with
  | [] => Some ([], s)
  | a :: l => '(e1, s1) ← act a s; '(e2, s2) ← acts l s1; Some (e1 ++ e2, s2)
  end.

Lemma act_step a s ev s' : act a s = Some (ev, s') → step s ev s'.
Proof.
  destruct s as [w gs], a; simpl; intros H.
  - destruct (gs !! t) as [g|] eqn:Hg; simplify_eq/=.
    destruct (grind_step _ w g) as [[w' g'] o] eqn:Hs. simplify_eq/=. by econstructor.
  - simplify_eq. constructor.
  - simplify_eq. constructor.
  - destruct (chan_buf w) eqn:Hb; simplify_eq. by constructor.
  - destruct (forallb is_returned gs) eqn:Hr, (chan_closed w) eqn:Hc; simplify_eq/=.
    by constructor.
Qed.

Lemma acts_steps l s tr s' : acts l s = Some (tr, s') → steps s tr s'.
Proof.
  revert s tr. induction l as [|a l IH]; intros s tr H; simplify_eq/=; [constructor|].
  destruct (act a s) as [[e1 s1]|] eqn:Ha; simplify_eq/=.
  destruct (acts l s1) as [[e2 s2]|] eqn:Hl; simplify_eq/=.
  eapply steps_trans; [|by apply IH].
  apply (steps_snoc _ [] _ _ _ (steps_refl _)). by eapply act_step.
Qed.

Definition demo_cfg : WorkerConfig :=
  {| Threads := 1; NonceStep := 0; NonceOffset := 0; cfg_DeviceID := "cpu-0" |}.
Definition demo_launched : system :=
  match Start 1 (NewWorker 1 demo_cfg) with
  | Ok s => s
  | Err _ => {| shared := NewWorker 1 demo_cfg; grinders := [] |}
  end.
Definition demo_schedule : list action :=
  [ASetWork (Some (1%nat, demo_work))] ++ replicate 8 (AThread 0) ++ [AReceive; ACancel].
Definition demo_trace : list event * system :=
  default ([], demo_launched) (acts demo_schedule demo_launched).

Lemma demo_is_launched : launched 1 demo_cfg 1 demo_launched.
Proof. reflexivity. Qed.
Lemma demo_steps : steps demo_launched demo_trace.1 demo_trace.2.
Proof. apply (acts_steps demo_schedule). vm_compute. reflexivity. Qed.

Lemma no_header_hashed_twice_witness :
  ∃ h1 h2, hashes demo_trace.1 !! 0%nat = Some h1 ∧ hashes demo_trace.1 !! 1%nat = Some h2 ∧
  by_version h1 = by_version h2 ∧ hashed_header h1 ≠ hashed_header h2.
Proof.
  eexists. eexists. split; [vm_compute; reflexivity|]. split; [vm_compute; reflexivity|].
  split; [reflexivity|]. intros Hh.
  assert (0%nat = 1%nat); [|done].
  refine (no_header_hashed_twice 1 demo_cfg 1 demo_launched demo_trace.1 demo_trace.2 0 1 _ _
    demo_is_launched demo_steps _ _ _ _ _ _ Hh);
    [unfold partitioned; decide_vm|decide_vm..|vm_compute; reflexivity|vm_compute; reflexivity|
     reflexivity].
Defined.

Lemma shares_are_valid_witness :
  ∃ sh a lw, sh ∈ received demo_trace.1 ++ chan_buf (shared demo_trace.2) ∧
    ESetWork (Some (a, lw)) ∈ demo_trace.1 ∧ Share_Target sh = Work_Target lw.
Proof.
  assert (∃ sh, sh ∈ received demo_trace.1 ++ chan_buf (shared demo_trace.2)) as [sh Hsh].
  { vm_compute. eexists. left. }
  destruct (shares_are_valid 1 demo_cfg 1 demo_launched _ _ sh
    demo_is_launched demo_steps Hsh) as (a & lw & h & H1 & _ & H2 & _).
  exists sh, a, lw. exact (conj Hsh (conj H1 H2)).
Defined.

Lemma counters_account_witness : hashCount (shared demo_trace.2) = 2.
Proof.
  destruct (counters_account 1 demo_cfg 1 demo_launched _ _ demo_is_launched demo_steps)
    as [-> _]. vm_compute. reflexivity.
Defined.

Lemma worker_never_panics_witness :
  ∃ g, g ∈ grinders demo_trace.2 ∧ at_ g ≠ PPanicked.
Proof.
  assert (∃ g, g ∈ grinders demo_trace.2) as [g Hg] by (vm_compute; eexists; left).
  exists g. split; [exact Hg|].
  apply (worker_never_panics 1 demo_cfg 1 demo_launched _ _ g demo_is_launched demo_steps Hg).
Defined.

Lemma stop_terminates_witness :
  ∃ tr' s', steps demo_trace.2 tr' s' ∧ done (shared s') = true ∧
    forallb is_returned (grinders s') = true.
Proof.
  apply (stop_terminates 1 demo_cfg 1 demo_launched _ _ demo_is_launched demo_steps).
  vm_compute. reflexivity.
Defined.
