(* ===== verification/Arbitration.v ===== *)
(** * internal/arbitration/engine.go

    The decision engine: a pure function from devices, revenue streams, the
    previous allocation and a policy to an allocation.  Yields are Go float64
    values ([Float64]); the human-readable [Reason] strings are kept as the
    format they are printed with and its arguments. *)
From Stdlib Require Import SpecFloat.
From S2P Require Import Prelude.
From S2P Require Import Float64.

Open Scope Z_scope.

(** ** Types of internal/hal that the engine reads *)

Definition Family : Type := string.
Record Identity := { ID : string; id_Family : Family; Vendor : string; Model : string }.
Record Capabilities := { cap_SHA256d : bool; GeneralCompute : bool }.

(** ** Streams and yields *)

Definition StreamID : Type := string.

Record Yield := { SatsPerSecond : float64; Confidence : float64 }.

Definition Effective (y : Yield) : float64 :=
  if negb (flt fzero (SatsPerSecond y)) || negb (flt fzero (Confidence y)) then fzero
  else
    let v := fmul (SatsPerSecond y) (fmin (Confidence y) fone) in
    if IsInf v || IsInf (Confidence y) then fzero else v.

Record Stream := {
  Stream_ID : StreamID;
  AcceptsFamilies : list Family;
  YieldPerDevice : gmap string Yield;
  DefaultYield : Yield;
  PrivacyRating : Z;
  EnvironmentalRating : Z;
  IsBitcoinMining : bool;
}.

(** [slices.Contains]. *)
Definition Accepts (s : Stream) (f : Family) : bool :=
  existsb (String.eqb f) (AcceptsFamilies s).

Definition YieldFor (s : Stream) (id : string) : Yield :=
  match YieldPerDevice s !! id with Some y => y | None => DefaultYield s end.

(** ** Policies: Go [int] values *)

Definition Policy : Type := Z.
Definition PolicyMaximizeEarnings : Policy := 0.
Definition PolicyStackBTC : Policy := 1.
Definition PolicyMaximizePrivacy : Policy := 2.
Definition PolicyEnvironmentFriendly : Policy := 3.

Definition Policy_Valid (p : Policy) : bool :=
  (p =? PolicyMaximizeEarnings) || (p =? PolicyStackBTC) ||
  (p =? PolicyMaximizePrivacy) || (p =? PolicyEnvironmentFriendly).

Inductive reason :=
  | NoReason
  | NoCompatibleStream
  | BelowFloor (minYield : float64)
  | BestUnderPolicy (p : Policy)
  | HeldBelowHysteresis (gainPercent hysteresisPercent : float64)
  | IncumbentIsBest.

Record Assignment := {
  a_DeviceID : string;
  a_Stream : StreamID;
  ExpectedYield : float64;
  SwitchedFromID : StreamID;
  Reason : reason;
  Held : bool;
  HeldIdle : bool;
  ForegoneSatsPerSec : float64;
}.

Definition zeroAssignment : Assignment :=
  {| a_DeviceID := ""; a_Stream := ""; ExpectedYield := fzero; SwitchedFromID := "";
     Reason := NoReason; Held := false; HeldIdle := false; ForegoneSatsPerSec := fzero |}.

Definition Idle (a : Assignment) : bool := String.eqb (a_Stream a) "".

Record Allocation := {
  Assignments : list Assignment;
  TotalYield : float64;
  al_Policy : Policy;
  SkippedDevice : Z;
}.

Record DeviceRef := { dev_Identity : Identity; dev_Capabilities : Capabilities }.

Record Input := {
  Devices : list DeviceRef;
  Streams : list Stream;
  Previous : option Allocation;
  in_Policy : Policy;
  HysteresisMargin : float64;
  MinYieldSatsPerSec : float64;
}.

(** ** Scoring *)

Definition btcStackBonus : float64 := f64_const 105 100.
Definition ratingBonusPerPoint : float64 := f64_const 1 100.

Definition ratingFactor (rating : Z) : float64 :=
  fadd fone (fmul (f64_of_Z rating) ratingBonusPerPoint).

Definition policyScore (s : Stream) (yield : float64) (p : Policy) : float64 :=
  if p =? PolicyStackBTC then
    if IsBitcoinMining s then fmul yield btcStackBonus else yield
  else if p =? PolicyMaximizePrivacy then fmul yield (ratingFactor (PrivacyRating s))
  else if p =? PolicyEnvironmentFriendly then fmul yield (ratingFactor (EnvironmentalRating s))
  else yield.

(** ** Candidates *)

Record streamCandidate := { stream : Stream; yield : float64 }.

Fixpoint candidateStreams (dev : DeviceRef) (streams : list Stream) (minYield : float64)
    : list streamCandidate * bool :=
  match streams with
  | [] => ([], false)
  | s :: rest =>
      let '(cands, belowFloor) := candidateStreams dev rest minYield in
      if negb (Accepts s (id_Family (dev_Identity dev))) then (cands, belowFloor)
      else
        let y := Effective (YieldFor s (ID (dev_Identity dev))) in
        if fle y fzero then (cands, belowFloor)
        else if flt y minYield then (cands, true)
        else ({| stream := s; yield := y |} :: cands, belowFloor)
  end.

Definition candScore (p : Policy) (c : streamCandidate) : float64 :=
  policyScore (stream c) (yield c) p.

(** The comparison of the policy sort: descending score, then stream ID. *)
Definition candCmp (p : Policy) (a b : streamCandidate) : comparison :=
  let sa := candScore p a in
  let sb := candScore p b in
  if negb (feq sa sb) then fcompare sb sa
  else String.compare (Stream_ID (stream a)) (Stream_ID (stream b)).

(** ** Hysteresis *)

Fixpoint incumbentHold (dev : DeviceRef) (candidates : list streamCandidate)
    (best : streamCandidate) (bestScore : float64) (previous : Assignment)
    (policy : Policy) (hysteresis maxRaw : float64) : option Assignment :=
  match candidates with
  | [] => None
  | c :: rest =>
      if negb (String.eqb (Stream_ID (stream c)) (a_Stream previous))
      then incumbentHold dev rest best bestScore previous policy hysteresis maxRaw
      else
        let incScore := candScore policy c in
        let threshold := fmul incScore (fadd fone hysteresis) in
        if flt threshold bestScore then None
        else
          let held := negb (String.eqb (Stream_ID (stream best)) (Stream_ID (stream c))) in
          let hundred := f64_of_Z 100 in
          Some {| a_DeviceID := ID (dev_Identity dev);
                  a_Stream := Stream_ID (stream c);
                  ExpectedYield := yield c;
                  SwitchedFromID := "";
                  Reason :=
                    if held then HeldBelowHysteresis
                      (fmul (fdiv (fsub bestScore incScore)
                                  (fmax incScore (f64_const 1 1000000000))) hundred)
                      (fmul hysteresis hundred)
                    else IncumbentIsBest;
                  Held := held; HeldIdle := false;
                  ForegoneSatsPerSec := fsub maxRaw (yield c) |}
  end.

Definition maxYield (c : streamCandidate) (cs : list streamCandidate) : float64 :=
  foldl (λ m c, fmax m (yield c)) (yield c) cs.

Definition chooseForDevice (dev : DeviceRef) (streams : list Stream) (previous : Assignment)
    (policy : Policy) (hysteresis minYield : float64) : Assignment :=
  let '(candidates, belowFloor) := candidateStreams dev streams minYield in
  match candidates with
  | [] =>
      {| a_DeviceID := ID (dev_Identity dev); a_Stream := ""; ExpectedYield := fzero;
         SwitchedFromID := "";
         Reason := if belowFloor then BelowFloor minYield else NoCompatibleStream;
         Held := false; HeldIdle := false; ForegoneSatsPerSec := fzero |}
  | c0 :: cs =>
      let maxRaw := maxYield c0 cs in
      let sorted := SortStableFunc (candCmp policy) candidates in
      let best := nth 0 sorted c0 in
      let bestScore := candScore policy best in
      let fresh :=
        {| a_DeviceID := ID (dev_Identity dev);
           a_Stream := Stream_ID (stream best);
           ExpectedYield := yield best;
           SwitchedFromID :=
             if negb (String.eqb (a_Stream previous) "") &&
                negb (String.eqb (a_Stream previous) (Stream_ID (stream best)))
             then a_Stream previous else "";
           Reason := BestUnderPolicy policy;
           Held := false; HeldIdle := false;
           ForegoneSatsPerSec := fsub maxRaw (yield best) |} in
      if negb (String.eqb (a_Stream previous) "") then
        match incumbentHold dev sorted best bestScore previous policy hysteresis maxRaw with
        | Some held => held
        | None => fresh
        end
      else fresh
  end.

(** ** Decide *)

Fixpoint duplicateID (seen : gset string) (ds : list DeviceRef) : option string :=
  match ds with
  | [] => None
  | d :: ds =>
      let id := ID (dev_Identity d) in
      if decide (id ∈ seen) then Some id else duplicateID ({[id]} ∪ seen) ds
  end.

(** Later assignments of the same device overwrite earlier ones. *)
Definition previousMap (p : option Allocation) : gmap string Assignment :=
  match p with
  | None => ∅
  | Some al => foldl (λ m a, <[a_DeviceID a := a]> m) ∅ (Assignments al)
  end.

Definition devCmp (a b : DeviceRef) : comparison :=
  String.compare (ID (dev_Identity a)) (ID (dev_Identity b)).

Definition markHeldIdle (a : Assignment) : Assignment :=
  {| a_DeviceID := a_DeviceID a; a_Stream := a_Stream a; ExpectedYield := ExpectedYield a;
     SwitchedFromID := SwitchedFromID a; Reason := Reason a; Held := Held a;
     HeldIdle := true; ForegoneSatsPerSec := ForegoneSatsPerSec a |}.

(** The body of the loop over the sorted devices. *)
Definition assign (inp : Input) (prev : gmap string Assignment) (dev : DeviceRef) : Assignment :=
  let p := default zeroAssignment (prev !! ID (dev_Identity dev)) in
  let a := chooseForDevice dev (Streams inp) p (in_Policy inp) (HysteresisMargin inp)
             (MinYieldSatsPerSec inp) in
  if Idle a && bool_decide (is_Some (prev !! ID (dev_Identity dev))) &&
     String.eqb (a_Stream p) ""
  then markHeldIdle a else a.

Definition decideLoop (inp : Input) (prev : gmap string Assignment) (devs : list DeviceRef)
    : Allocation :=
  foldl (λ al dev,
    let a := assign inp prev dev in
    {| Assignments := Assignments al ++ [a];
       TotalYield := fadd (TotalYield al) (ExpectedYield a);
       al_Policy := al_Policy al;
       SkippedDevice := if Idle a then SkippedDevice al + 1 else SkippedDevice al |})
    {| Assignments := []; TotalYield := fzero; al_Policy := in_Policy inp; SkippedDevice := 0 |}
    devs.

Definition negative_or_not_finite (f : float64) : bool :=
  flt f fzero || IsNaN f || IsInf f.

Definition Decide (i : option Input) : result Allocation :=
  match i with
  | None => Err (Errorf "arbitration: nil Input" [])
  | Some inp =>
      if negb (Policy_Valid (in_Policy inp))
      then Err (Errorf "arbitration: invalid Policy %v" [in_Policy inp])
      else if negative_or_not_finite (HysteresisMargin inp)
      then Err (Errorf "arbitration: HysteresisMargin must be non-negative and finite" [])
      else if negative_or_not_finite (MinYieldSatsPerSec inp)
      then Err (Errorf "arbitration: MinYieldSatsPerSec must be non-negative and finite" [])
      else match duplicateID ∅ (Devices inp) with
      | Some id => Err (Errorf "arbitration: duplicate device ID %q" (bytes_of_string id))
      | None =>
          Ok (decideLoop inp (previousMap (Previous inp)) (SortStableFunc devCmp (Devices inp)))
      end
  end.

(** * Yields and scores are numbers *)

(** Go float64 values are canonical; [yield_ok] says so of a quote. *)
Definition yield_ok (y : Yield) : Prop := fvalid (SatsPerSecond y) ∧ fvalid (Confidence y).
Definition stream_ok (s : Stream) : Prop :=
  yield_ok (DefaultYield s) ∧ ∀ id y, YieldPerDevice s !! id = Some y → yield_ok y.

(** A positive, finite, canonical number. *)
Definition amount (f : float64) : Prop := fvalid f ∧ fpos f.

Lemma amount_num f : amount f → fnum f.
Proof. intros [? ?]. split; [done|by apply fpos_not_nan]. Qed.

Lemma amount_fone : amount fone.
Proof. split; [done|]. by eexists _, _. Qed.
Lemma amount_btcStackBonus : amount btcStackBonus.
Proof. split; [vm_compute; done|]. vm_compute. by eexists _, _. Qed.
Lemma amount_ratingBonus : amount ratingBonusPerPoint.
Proof. split; [vm_compute; done|]. vm_compute. by eexists _, _. Qed.

Lemma fmin_one_amount c : fvalid c → flt fzero c = true → amount (fmin c fone).
Proof.
  intros Hv Hc. pose proof (flt_not_nan _ _ Hc) as [_ Hn]. unfold fmin. rewrite Hn. simpl.
  destruct (flt c fone) eqn:E.
  - split; [done|]. apply flt_zero_fpos; [done|]. by destruct c as [|[]| |].
  - destruct (flt fone c); [apply amount_fone|].
    destruct (signbit c) eqn:Es; [|apply amount_fone].
    by destruct c as [[]|[]| |[]].
Qed.

Lemma Effective_spec y :
  yield_ok y → let e := Effective y in fvalid e ∧ fnonneg e ∧ IsInf e = false.
Proof.
  intros [Hs Hc]. unfold Effective.
  destruct (flt fzero (SatsPerSecond y)) eqn:E1; [|done].
  destruct (flt fzero (Confidence y)) eqn:E2; [|done]. simpl.
  destruct (IsInf (fmul _ _)) eqn:E3; [done|]. destruct (IsInf (Confidence y)); [done|].
  simpl. destruct (fmin_one_amount _ Hc E2) as [Vm Pm].
  destruct (SatsPerSecond y) as [[]|[]| |[] m e] eqn:Es; try done.
  - exfalso. destruct Pm as (? & ? & Hm). by rewrite Hm in E3.
  - destruct (fmul_fpos (S754_finite false m e) (fmin (Confidence y) fone)); auto.
    by eexists _, _.
Qed.

Lemma Effective_positive y :
  yield_ok y → fle (Effective y) fzero = false → amount (Effective y).
Proof.
  intros Hy H. destruct (Effective_spec y Hy) as (Hv & [Hn Hs] & Hi). split; [done|].
  destruct (Effective y) as [[]|[]| |[] m e]; try done. by eexists _, _.
Qed.

Lemma YieldFor_ok s id : stream_ok s → yield_ok (YieldFor s id).
Proof. intros [H1 H2]. unfold YieldFor. destruct (_ !! id) eqn:E; eauto. Qed.

Lemma ratingFactor_num r : fnum (ratingFactor r).
Proof.
  destruct amount_ratingBonus, amount_fone. unfold ratingFactor.
  apply fadd_num; [done..|]. by apply (fmul_num (f64_of_Z r) ratingBonusPerPoint (f64_of_Z_num r)).
Qed.

Lemma policyScore_num s y p : amount y → fnum (policyScore s y p).
Proof.
  intros Hy. pose proof (amount_num y Hy) as Hn. destruct Hy as [Hv Hp].
  destruct amount_btcStackBonus. pose proof ratingFactor_num.
  unfold policyScore.
  destruct (p =? PolicyStackBTC); [destruct (IsBitcoinMining s)|
    destruct (p =? PolicyMaximizePrivacy); [|destruct (p =? PolicyEnvironmentFriendly)]];
    [apply (fmul_num y btcStackBonus)|exact Hn|apply (fmul_num (ratingFactor _) y)..|exact Hn]; auto.
Qed.

(** * Candidates *)

(** A stream is a candidate for a device when it accepts its family and its
    effective yield is positive and not below the floor. *)
Definition viable (dev : DeviceRef) (minYield : float64) (s : Stream) : bool :=
  let y := Effective (YieldFor s (ID (dev_Identity dev))) in
  Accepts s (id_Family (dev_Identity dev)) && negb (fle y fzero) && negb (flt y minYield).

Lemma candidateStreams_filter dev ss m :
  (candidateStreams dev ss m).1 =
  map (λ s, {| stream := s; yield := Effective (YieldFor s (ID (dev_Identity dev))) |})
      (List.filter (viable dev m) ss).
Proof.
  induction ss as [|s ss IH]; [done|]. simpl. unfold viable at 1.
  destruct (candidateStreams dev ss m) as [cs b]. simpl in IH. subst cs.
  destruct (Accepts s _); [|done]. simpl.
  destruct (fle _ fzero); [done|]. simpl. by destruct (flt _ m).
Qed.

Definition cand_of (dev : DeviceRef) (m : float64) (ss : list Stream) (c : streamCandidate) : Prop :=
  stream c ∈ ss ∧ viable dev m (stream c) = true ∧
  yield c = Effective (YieldFor (stream c) (ID (dev_Identity dev))).

Lemma elem_of_candidates dev ss m c :
  c ∈ (candidateStreams dev ss m).1 ↔ cand_of dev m ss c.
Proof.
  rewrite candidateStreams_filter, list_elem_of_In, in_map_iff. unfold cand_of. split.
  - intros (s & <- & Hs%filter_In). rewrite list_elem_of_In. simpl. tauto.
  - intros (Hin & Hv & Hy). exists (stream c). split; [by rewrite <- Hy; destruct c|].
    apply filter_In. by rewrite <- list_elem_of_In.
Qed.

Lemma cand_amount dev ss m c : Forall stream_ok ss → cand_of dev m ss c → amount (yield c).
Proof.
  intros Hok (Hin & Hv & ->). rewrite Forall_forall in Hok.
  apply Effective_positive; [by apply YieldFor_ok, Hok|].
  unfold viable in Hv. destruct (fle _ fzero); [|done]. by rewrite andb_false_r in Hv.
Qed.

(** * The policy sort *)

Definition num_score (p : Policy) (c : streamCandidate) : Prop := IsNaN (candScore p c) = false.

Lemma candCmp_le p a b :
  num_score p a → num_score p b →
  cmp_le (candCmp p) a b ↔
  flt (candScore p b) (candScore p a) = true ∨
  (feq (candScore p a) (candScore p b) = true ∧
   String.le (Stream_ID (stream a)) (Stream_ID (stream b))).
Proof.
  unfold num_score, cmp_le, candCmp. intros Ha Hb. rewrite <- string_compare_le.
  destruct (feq (candScore p a) (candScore p b)) eqn:E; simpl.
  - split; [by right|]. intros [H|[_ H]]; [|done]. exfalso. fkeys.
  - unfold fcompare. rewrite Ha, Hb.
    destruct (flt (candScore p b) (candScore p a)) eqn:E1; [by split; [left|]|].
    destruct (flt (candScore p a) (candScore p b)) eqn:E2; [naive_solver|].
    exfalso. assert (feq (candScore p a) (candScore p b) = true); [|congruence].
    clear E. fkeys.
Qed.

Lemma candCmp_total p a b :
  num_score p a → num_score p b → candCmp p a b = Gt → cmp_le (candCmp p) b a.
Proof.
  intros Ha Hb H. apply candCmp_le; [done..|].
  destruct (flt (candScore p a) (candScore p b)) eqn:E; [by left|right].
  assert (¬ cmp_le (candCmp p) a b) as Hn by (unfold cmp_le; congruence).
  rewrite candCmp_le in Hn by done.
  destruct (flt (candScore p b) (candScore p a)) eqn:E2; [naive_solver|].
  unfold num_score in *.
  assert (feq (candScore p a) (candScore p b) = true) as He by (clear Hn; fkeys).
  split; [clear Hn; fkeys|].
  destruct (total String.le (Stream_ID (stream a)) (Stream_ID (stream b))); naive_solver.
Qed.

Lemma candCmp_trans p a b c :
  num_score p a → num_score p b → num_score p c →
  cmp_le (candCmp p) a b → cmp_le (candCmp p) b c → cmp_le (candCmp p) a c.
Proof.
  intros Ha Hb Hc. rewrite !candCmp_le by done. unfold num_score in *.
  intros [H1|[H1 S1]] [H2|[H2 S2]].
  - left. fkeys.
  - left. fkeys.
  - left. fkeys.
  - right. split; [fkeys|]. by transitivity (Stream_ID (stream b)).
Qed.

Lemma candCmp_refl p a : num_score p a → cmp_le (candCmp p) a a.
Proof.
  intros Ha. apply candCmp_le; [done..|]. right. unfold num_score in Ha. split; [fkeys|done].
Qed.

(** * The choice for one device *)

Lemma fmax_amount x y : amount x → amount y →
  (fmax x y = x ∨ fmax x y = y) ∧ fle x (fmax x y) = true ∧ fle y (fmax x y) = true.
Proof.
  intros [Vx Px] [Vy Py]. pose proof (fpos_not_nan _ Px) as Nx. pose proof (fpos_not_nan _ Py) as Ny.
  unfold fmax. rewrite Nx, Ny. simpl.
  destruct (flt x y) eqn:E1; [split; [by right|]; split; [by apply flt_le|by apply fle_refl]|].
  destruct (flt y x) eqn:E2; [split; [by left|]; split; [by apply fle_refl|by apply flt_le]|].
  destruct Px as (m & e & ->). simpl. split; [by left|].
  split; [by apply fle_refl|by apply flt_fle_neg].
Qed.

(** [maxYield] is one of the yields and none exceeds it. *)
Lemma maxYield_spec c cs :
  Forall (amount ∘ yield) (c :: cs) →
  amount (maxYield c cs) ∧ ∀ d, d ∈ c :: cs → fle (yield d) (maxYield c cs) = true.
Proof.
  unfold maxYield. intros [Hc Hcs]%Forall_cons.
  assert (∀ m, amount m → amount (foldl (λ m c, fmax m (yield c)) m cs) ∧
    fle m (foldl (λ m c, fmax m (yield c)) m cs) = true ∧
    ∀ d, d ∈ cs → fle (yield d) (foldl (λ m c, fmax m (yield c)) m cs) = true) as H.
  { induction Hcs as [|d cs Hd Hcs IH]; intros m Hm; simpl.
    - split; [done|]. split; [by apply fle_refl, fpos_not_nan, Hm|]. by intros d ?%not_elem_of_nil.
    - destruct (fmax_amount m (yield d) Hm Hd) as (Hor & H1 & H2).
      assert (amount (fmax m (yield d))) as Hm' by (by destruct Hor as [-> | ->]).
      destruct (IH _ Hm') as (I1 & I2 & I3).
      pose proof (proj2 (amount_num _ Hm)). pose proof (proj2 (amount_num _ Hd)).
      pose proof (proj2 (amount_num _ Hm')). pose proof (proj2 (amount_num _ I1)).
      split; [done|]. split; [by eapply fle_trans; [| | |exact H1|exact I2]|].
      intros d' [->|Hd']%elem_of_cons; [by eapply fle_trans; [| | |exact H2|exact I2]|auto]. }
  destruct (H (yield c) Hc) as (H1 & H2 & H3). split; [done|].
  intros d [->|Hd]%elem_of_cons; auto.
Qed.

(** The fields of an assignment that runs candidate [c]. *)
Definition runs (dev : DeviceRef) (maxRaw : float64) (c : streamCandidate) (a : Assignment) : Prop :=
  a_DeviceID a = ID (dev_Identity dev) ∧ a_Stream a = Stream_ID (stream c) ∧
  ExpectedYield a = yield c ∧ ForegoneSatsPerSec a = fsub maxRaw (yield c).

Lemma incumbentHold_Some dev cs best bs prev p h m a :
  incumbentHold dev cs best bs prev p h m = Some a →
  ∃ c, c ∈ cs ∧ Stream_ID (stream c) = a_Stream prev ∧
    flt (fmul (candScore p c) (fadd fone h)) bs = false ∧
    runs dev m c a ∧ HeldIdle a = false ∧ SwitchedFromID a = "" ∧
    Held a = negb (String.eqb (Stream_ID (stream best)) (Stream_ID (stream c))) ∧
    (∀ b bs, cs = b :: bs → Stream_ID (stream b) = a_Stream prev → c = b).
Proof.
  induction cs as [|c cs IH]; [done|]. cbn [incumbentHold].
  destruct (String.eqb_spec (Stream_ID (stream c)) (a_Stream prev)) as [E|E]; simpl.
  - destruct (flt _ bs) eqn:F; [done|]. intros [= <-].
    exists c. split; [left|]. repeat split; try done. by intros ? ? [= -> ->].
  - intros H. destruct (IH H) as (c' & ? & ? & ? & ? & ? & ? & ? & _).
    exists c'. split; [by right|]. repeat (split; [done|]). by intros ? ? [= -> ->].
Qed.

Lemma incumbentHold_None dev cs best bs prev p h m :
  incumbentHold dev cs best bs prev p h m = None →
  (∀ c, c ∈ cs → Stream_ID (stream c) ≠ a_Stream prev) ∨
  ∃ c, c ∈ cs ∧ Stream_ID (stream c) = a_Stream prev ∧
    flt (fmul (candScore p c) (fadd fone h)) bs = true.
Proof.
  induction cs as [|c cs IH]; [left; by intros ? ?%not_elem_of_nil|]. cbn [incumbentHold].
  destruct (String.eqb_spec (Stream_ID (stream c)) (a_Stream prev)) as [E|E]; simpl.
  - destruct (flt _ bs) eqn:F; [|done]. intros _. right. exists c. split; [left|done].
  - intros H. destruct (IH H) as [Hn|(c' & ? & ?)].
    + left. intros c' [->|Hc']%elem_of_cons; auto.
    + right. exists c'. split; [by right|done].
Qed.

(** What [chooseForDevice] returns. *)
Inductive chosen (dev : DeviceRef) (ss : list Stream) (prev : Assignment) (p : Policy)
    (h m : float64) (a : Assignment) : Prop :=
  | chosen_none :
      (∀ s, s ∈ ss → viable dev m s = false) →
      a_DeviceID a = ID (dev_Identity dev) → a_Stream a = "" → ExpectedYield a = fzero →
      ForegoneSatsPerSec a = fzero → Held a = false →
      chosen dev ss prev p h m a
  | chosen_some best c maxRaw :
      cand_of dev m ss best → cand_of dev m ss c →
      (∀ d, cand_of dev m ss d → fle (candScore p d) (candScore p best) = true) →
      amount maxRaw → (∀ d, cand_of dev m ss d → fle (yield d) maxRaw = true) →
      (∃ d, cand_of dev m ss d ∧ yield d = maxRaw) →
      runs dev maxRaw c a →
      (* the best candidate, after the incumbent was gone or clearly beaten *)
      (c = best ∧ Held a = false ∧
         (a_Stream prev ≠ "" →
            (∀ d, cand_of dev m ss d → Stream_ID (stream d) ≠ a_Stream prev) ∨
            ∃ d, cand_of dev m ss d ∧ Stream_ID (stream d) = a_Stream prev ∧
              flt (fmul (candScore p d) (fadd fone h)) (candScore p best) = true) ∨
       (* the incumbent, not beaten by the margin *)
       Stream_ID (stream c) = a_Stream prev ∧ a_Stream prev ≠ "" ∧
         Held a = negb (String.eqb (Stream_ID (stream best)) (Stream_ID (stream c))) ∧
         (Held a = false → c = best) ∧
         flt (fmul (candScore p c) (fadd fone h)) (candScore p best) = false) →
      chosen dev ss prev p h m a.

Lemma maxYield_attained c cs : Forall (amount ∘ yield) (c :: cs) →
  ∃ d, d ∈ c :: cs ∧ yield d = maxYield c cs.
Proof.
  unfold maxYield. intros [Hc Hcs]%Forall_cons. revert c Hc.
  induction cs as [|d cs IH] using rev_ind; intros c Hc; [exists c; split; [left|done]|].
  apply Forall_app in Hcs as [Hcs [Hd _]%Forall_cons]. rewrite foldl_app. simpl.
  destruct (IH Hcs c Hc) as (e & He & Hey).
  assert (amount (foldl (λ m c, fmax m (yield c)) (yield c) cs)) as Ha.
  { rewrite <- Hey. apply elem_of_cons in He as [->|He]; [done|].
    rewrite Forall_forall in Hcs. by apply Hcs. }
  destruct (fmax_amount _ _ Ha Hd) as [[-> | ->] _].
  - exists e. split; [|done]. set_solver.
  - exists d. split; [|done]. set_solver.
Qed.

Lemma chooseForDevice_chosen dev ss prev p h m :
  Forall stream_ok ss → chosen dev ss prev p h m (chooseForDevice dev ss prev p h m).
Proof.
  intros Hok. unfold chooseForDevice.
  pose proof (elem_of_candidates dev ss m) as Hel.
  destruct (candidateStreams dev ss m) as [cands below]. simpl in Hel.
  destruct cands as [|c0 cs].
  { apply chosen_none; try done. intros s Hs. apply not_true_is_false. intros Hv.
    apply (not_elem_of_nil (Build_streamCandidate s
      (Effective (YieldFor s (ID (dev_Identity dev)))))). by apply Hel. }
  remember (c0 :: cs) as cands eqn:Ecs.
  assert (Forall (amount ∘ yield) cands) as Ham.
  { rewrite Forall_forall. intros c Hc%Hel. by eapply cand_amount. }
  assert (Forall (num_score p) cands) as Hnum.
  { eapply Forall_impl; [exact Ham|]. intros c Hc. by apply policyScore_num. }
  assert (c0 ∈ cands) as Hc0 by (rewrite Ecs; left).
  destruct (maxYield_spec c0 cs) as [Hma Hmax]; [by rewrite <- Ecs|].
  destruct (maxYield_attained c0 cs) as (dm & Hdm & Hdmy); [by rewrite <- Ecs|].
  rewrite <- Ecs in Hmax, Hdm. pose proof (elem_of_SortStableFunc (candCmp p)) as Hsort.
  destruct (SortStableFunc (candCmp p) cands) as [|best rest] eqn:Es.
  { exfalso. apply (not_elem_of_nil c0). by rewrite <- Es, Hsort. }
  assert (∀ c, c ∈ best :: rest ↔ cand_of dev m ss c) as Hbr
    by (intros c; rewrite <- Es, Hsort; apply Hel).
  assert (∀ d, cand_of dev m ss d → fle (candScore p d) (candScore p best) = true) as Hbest.
  { intros d Hd. assert (num_score p best ∧ num_score p d) as [Nb Nd].
    { rewrite Forall_forall in Hnum. split; apply Hnum, Hel; [apply Hbr; left|done]. }
    pose proof (SortStableFunc_head (candCmp p) (num_score p) (candCmp_total p) (candCmp_trans p)
      cands best rest Hnum (candCmp_refl p) Es d (proj2 (Hel d) Hd)) as Hle.
    apply candCmp_le in Hle; [|done..]. unfold num_score in *.
    destruct Hle as [Hle|[Hle _]]; [by apply flt_le|fkeys]. }
  cbn [nth]. destruct (String.eqb_spec (a_Stream prev) "") as [Ep|Ep]; cbn [negb andb].
  { apply (chosen_some _ _ _ _ _ _ _ best best (maxYield c0 cs));
      try done; try (apply Hbr; left).
    - intros d Hd. by apply Hmax, Hel.
    - exists dm. split; [by apply Hel|done].
    - left. split; [done|]. split; [done|]. by intros []. }
  destruct (incumbentHold _ _ _ _ _ _ _ _) as [a|] eqn:Eh.
  - apply incumbentHold_Some in Eh as (c & Hc & Hid & Hthr & Hr & Hh & _ & Hheld & Hfirst).
    apply (chosen_some _ _ _ _ _ _ _ best c (maxYield c0 cs)); try done; try (apply Hbr; left).
    + by apply Hbr.
    + intros d Hd. by apply Hmax, Hel.
    + exists dm. split; [by apply Hel|done].
    + right. split; [done|]. split; [done|]. split; [done|]. split; [|done].
      rewrite Hheld. intros He%negb_false_iff%String.eqb_eq. eapply Hfirst; [done|congruence].
  - apply (chosen_some _ _ _ _ _ _ _ best best (maxYield c0 cs)); try done; try (apply Hbr; left).
    + intros d Hd. by apply Hmax, Hel.
    + exists dm. split; [by apply Hel|done].
    + left. split; [done|]. split; [done|]. intros _.
      apply incumbentHold_None in Eh as [Hn|(c & Hc & Hid & Ht)].
      * left. intros d Hd. by apply Hn, Hbr.
      * right. exists c. split; [by apply Hbr|done].
Qed.

(** * Decide *)

Definition dev_id (d : DeviceRef) : string := ID (dev_Identity d).

Lemma duplicateID_None seen ds :
  duplicateID seen ds = None ↔ NoDup (dev_id <$> ds) ∧ ∀ d, d ∈ ds → dev_id d ∉ seen.
Proof.
  revert seen. induction ds as [|d ds IH]; intros seen; simpl.
  { split; [|done]. intros _. split; [apply NoDup_nil_2|set_solver]. }
  rewrite NoDup_cons. fold (dev_id d). destruct (decide (dev_id d ∈ seen)) as [Hin|Hin].
  { split; [done|]. intros [_ H]. exfalso. apply (H d); [left|done]. }
  rewrite IH. clear IH. rewrite list_elem_of_fmap. split.
  - intros [Hnd Hs]. split; [split; [|done]|].
    + intros (d' & He & Hd'). apply (Hs d' Hd'). set_solver.
    + intros d' [->|Hd']%elem_of_cons; [done|]. specialize (Hs d' Hd'). set_solver.
  - intros [[Hni Hnd] Hs]. split; [done|]. intros d' Hd' [He%elem_of_singleton|He]%elem_of_union.
    + apply Hni. by exists d'.
    + apply (Hs d'); [by right|done].
Qed.

Definition idle_count (l : list Assignment) : Z := Z.of_nat (length (List.filter Idle l)).

Lemma decideLoop_spec inp prev devs :
  let al := decideLoop inp prev devs in
  Assignments al = map (assign inp prev) devs ∧
  TotalYield al = foldl fadd fzero (map ExpectedYield (Assignments al)) ∧
  SkippedDevice al = idle_count (Assignments al) ∧ al_Policy al = in_Policy inp.
Proof.
  unfold decideLoop. induction devs as [|d devs IH] using rev_ind; [done|].
  rewrite foldl_app. simpl. destruct IH as (-> & -> & -> & ->).
  rewrite !map_app, foldl_app. simpl. split; [done|]. split; [done|]. split; [|done].
  unfold idle_count. rewrite List.filter_app, length_app. simpl.
  destruct (Idle (assign inp prev d)); simpl; lia.
Qed.

(** The input conditions under which [Decide] allocates. *)
Definition input_accepted (inp : Input) : Prop :=
  Policy_Valid (in_Policy inp) = true ∧
  negative_or_not_finite (HysteresisMargin inp) = false ∧
  negative_or_not_finite (MinYieldSatsPerSec inp) = false ∧
  NoDup (dev_id <$> Devices inp).

Definition prevOf (inp : Input) (id : string) : Assignment :=
  default zeroAssignment (previousMap (Previous inp) !! id).

Lemma Decide_cases inp :
  (input_accepted inp ∧ Decide (Some inp) =
     Ok (decideLoop inp (previousMap (Previous inp)) (SortStableFunc devCmp (Devices inp)))) ∨
  (¬ input_accepted inp ∧ ∃ e, Decide (Some inp) = Err e).
Proof.
  unfold Decide, input_accepted. pose proof (duplicateID_None ∅ (Devices inp)) as Hd.
  destruct (Policy_Valid _); simpl; [|right; naive_solver].
  destruct (negative_or_not_finite (HysteresisMargin inp)); [right; naive_solver|].
  destruct (negative_or_not_finite (MinYieldSatsPerSec inp)); [right; naive_solver|].
  destruct (duplicateID ∅ (Devices inp)) as [id|].
  - right. split; [|eauto]. intros (_ & _ & _ & Hn).
    assert (Some id = None); [|done]. apply Hd. split; [done|]. set_solver.
  - left. split; [|done]. repeat split. by apply Hd.
Qed.

Lemma assign_chosen inp dev :
  Forall stream_ok (Streams inp) →
  chosen dev (Streams inp) (prevOf inp (dev_id dev)) (in_Policy inp) (HysteresisMargin inp)
    (MinYieldSatsPerSec inp) (assign inp (previousMap (Previous inp)) dev).
Proof.
  intros Hok. unfold assign. fold (dev_id dev). fold (prevOf inp (dev_id dev)).
  pose proof (chooseForDevice_chosen dev (Streams inp) (prevOf inp (dev_id dev))
    (in_Policy inp) (HysteresisMargin inp) (MinYieldSatsPerSec inp) Hok) as H.
  case_if; [|done].
  destruct H as [|best c mr]; [by apply chosen_none|by apply (chosen_some _ _ _ _ _ _ _ best c mr)].
Qed.

Lemma chooseForDevice_device dev ss prev p h m :
  a_DeviceID (chooseForDevice dev ss prev p h m) = dev_id dev.
Proof.
  unfold chooseForDevice. destruct (candidateStreams dev ss m) as [[|c cs] b]; [done|].
  destruct (negb _); [|done]. destruct (incumbentHold _ _ _ _ _ _ _ _) as [a|] eqn:E; [|done].
  apply incumbentHold_Some in E as (? & _ & _ & _ & [-> _] & _). done.
Qed.

Lemma assign_device inp prev dev : a_DeviceID (assign inp prev dev) = dev_id dev.
Proof. unfold assign. case_if; simpl; apply chooseForDevice_device. Qed.

Lemma Decide_assignment inp al a :
  Forall stream_ok (Streams inp) → Decide (Some inp) = Ok al → a ∈ Assignments al →
  ∃ dev, dev ∈ Devices inp ∧
    chosen dev (Streams inp) (prevOf inp (dev_id dev)) (in_Policy inp) (HysteresisMargin inp)
      (MinYieldSatsPerSec inp) a.
Proof.
  intros Hok H Ha. destruct (Decide_cases inp) as [[_ He]|[_ [e He]]]; [|congruence].
  rewrite He in H. apply Ok_inj in H as <-.
  destruct (decideLoop_spec inp (previousMap (Previous inp)) (SortStableFunc devCmp (Devices inp)))
    as (Hal & _). rewrite Hal in Ha. apply list_elem_of_In, in_map_iff in Ha as (dev & <- & Hdev).
  exists dev. split; [|by apply assign_chosen].
  by apply list_elem_of_In, elem_of_SortStableFunc in Hdev.
Qed.

Lemma chosen_device dev ss prev p h m a :
  chosen dev ss prev p h m a → a_DeviceID a = ID (dev_Identity dev).
Proof. intros [| ? ? ? ? ? ? ? ? ? []]; done. Qed.

(** Viability as the streams see it. *)
Definition viable_for (inp : Input) (dev : DeviceRef) (s : Stream) : Prop :=
  s ∈ Streams inp ∧ viable dev (MinYieldSatsPerSec inp) s = true.
Definition yieldOf (dev : DeviceRef) (s : Stream) : float64 := Effective (YieldFor s (dev_id dev)).

Lemma cand_of_viable inp dev s :
  viable_for inp dev s →
  cand_of dev (MinYieldSatsPerSec inp) (Streams inp) {| stream := s; yield := yieldOf dev s |}.
Proof. by intros [? ?]. Qed.

Lemma fle_antisym_pos a b : fpos a → fpos b → fle a b = true → fle b a = true → a = b.
Proof.
  intros (ma & ea & ->) (mb & eb & ->) H1 H2. apply fle_key in H1, H2; [|done..].
  unfold klt in *. simpl in *. assert (ea = eb) by lia. assert (Zpos ma = Zpos mb) by lia.
  congruence.
Qed.

(** C20. No device runs an unsuitable stream and none idles needlessly.  Every
    assignment of an allocation is for a device of the input; it either leaves
    the device idle with no yield, and then no stream of the input is viable
    for it (accepts its family with a positive yield at or above the floor), or
    names a viable stream with that stream's effective yield. *)
Theorem Decide_sound inp al a :
  Forall stream_ok (Streams inp) → Decide (Some inp) = Ok al → a ∈ Assignments al →
  ∃ dev, dev ∈ Devices inp ∧ a_DeviceID a = dev_id dev ∧
    ((a_Stream a = "" ∧ ExpectedYield a = fzero ∧ ∀ s, ¬ viable_for inp dev s) ∨
     ∃ s, viable_for inp dev s ∧ a_Stream a = Stream_ID s ∧ ExpectedYield a = yieldOf dev s).
Proof.
  intros Hok H Ha. destruct (Decide_assignment _ _ _ Hok H Ha) as (dev & Hd & Hc).
  exists dev. split; [done|]. split; [by eapply chosen_device|].
  destruct Hc as [Hn _ ? ? _ _|best c mr Hb (Hin & Hv & Hy) _ _ _ _ (_ & R1 & R2 & _) _].
  - left. split; [done|]. split; [done|]. intros s [Hs Hv]. by rewrite Hn in Hv.
  - right. exists (stream c). split; [done|]. split; [done|]. by rewrite R2.
Qed.

(** The forgone revenue of an assignment is never negative, and is the
    difference between the best effective yield any viable stream offers the
    device and the yield it was assigned; under [PolicyMaximizeEarnings] an
    assignment that is not held back by hysteresis forgoes exactly nothing. *)
Theorem Decide_foregone inp al a :
  Forall stream_ok (Streams inp) → Decide (Some inp) = Ok al → a ∈ Assignments al →
  fnonneg (ForegoneSatsPerSec a) ∧
  (a_Stream a ≠ "" → ∃ dev s, dev ∈ Devices inp ∧ a_DeviceID a = dev_id dev ∧
     viable_for inp dev s ∧ ForegoneSatsPerSec a = fsub (yieldOf dev s) (ExpectedYield a) ∧
     (∀ s', viable_for inp dev s' → fle (yieldOf dev s') (yieldOf dev s) = true) ∧
     (in_Policy inp = PolicyMaximizeEarnings → Held a = false →
        ForegoneSatsPerSec a = fzero)).
Proof.
  intros Hok H Ha. destruct (Decide_assignment _ _ _ Hok H Ha) as (dev & Hd & Hc).
  pose proof (chosen_device _ _ _ _ _ _ _ Hc) as Hid.
  destruct Hc as [_ _ ? ? Hf _|best c mr Hb Hcc Hbest [Vm Pm] Hmax (d & Hdc & Hdy)
    (_ & R1 & R2 & R3) Hor].
  { rewrite Hf. split; [done|]. congruence. }
  destruct (cand_amount _ _ _ _ Hok Hcc) as [Vc Pc]. rewrite R3, R2. split.
  { apply fsub_nonneg; auto. }
  intros _. exists dev, (stream d). split; [done|]. split; [done|].
  pose proof Hdc as (D1 & D2 & D3). unfold yieldOf, dev_id. rewrite <- D3, Hdy.
  split; [done|]. split; [done|]. split.
  { intros s' Hs'. apply (Hmax _ (cand_of_viable _ _ _ Hs')). }
  intros Hp Hne. assert (c = best) as -> by (destruct Hor as [[? _]|(_ & _ & _ & Hf & _)]; auto).
  pose proof (Hbest _ Hdc) as Hle. unfold candScore in Hle. rewrite Hp in Hle.
  cbn in Hle. rewrite Hdy in Hle. pose proof (Hmax _ Hb) as Hge.
  rewrite (fle_antisym_pos _ _ Pm Pc Hle Hge). by apply fsub_self.
Qed.

(** Hysteresis.  When the stream a device ran before is still viable, the
    device leaves it only for a stream whose policy score exceeds the
    incumbent's by more than the margin; and whatever is chosen, no viable
    stream outscores it unless the incumbent was kept within the margin. *)
Theorem Decide_hysteresis inp al a :
  Forall stream_ok (Streams inp) → Decide (Some inp) = Ok al → a ∈ Assignments al →
  a_Stream a ≠ "" →
  ∃ dev s, dev ∈ Devices inp ∧ a_DeviceID a = dev_id dev ∧ viable_for inp dev s ∧
    a_Stream a = Stream_ID s ∧
    let score s := policyScore s (yieldOf dev s) (in_Policy inp) in
    let q := a_Stream (prevOf inp (dev_id dev)) in
    (a_Stream a ≠ q → (∃ s', viable_for inp dev s' ∧ Stream_ID s' = q) → q ≠ "" →
       ∃ s', viable_for inp dev s' ∧ Stream_ID s' = q ∧
         flt (fmul (score s') (fadd fone (HysteresisMargin inp))) (score s) = true) ∧
    (∀ s', viable_for inp dev s' → fle (score s') (score s) = true ∨
       (a_Stream a = q ∧ Held a = true ∧ ∃ b, viable_for inp dev b ∧
          fle (score s') (score b) = true ∧
          flt (fmul (score s) (fadd fone (HysteresisMargin inp))) (score b) = false)).
Proof.
  intros Hok H Ha Hne. destruct (Decide_assignment _ _ _ Hok H Ha) as (dev & Hd & Hc).
  pose proof (chosen_device _ _ _ _ _ _ _ Hc) as Hid. exists dev.
  destruct Hc as [|best c mr Hb Hcc Hbest _ _ _ (_ & R1 & _ & _) Hor]; [done|].
  assert (∀ d, cand_of dev (MinYieldSatsPerSec inp) (Streams inp) d →
    viable_for inp dev (stream d) ∧
    candScore (in_Policy inp) d = policyScore (stream d) (yieldOf dev (stream d)) (in_Policy inp))
    as Hcand by (intros d (? & ? & Hy); split; [done|]; unfold candScore; by rewrite Hy).
  destruct (Hcand _ Hb) as [Vb Sb], (Hcand _ Hcc) as [Vc Sc].
  exists (stream c). split; [done|]. split; [done|]. split; [done|]. split; [done|].
  cbv beta zeta. rewrite <- Sc. split.
  - intros Hsw (s' & Hs' & Hq) Hqe. destruct Hor as [(-> & _ & Hinc)|(Heq & _)]; [|congruence].
    destruct (Hinc Hqe) as [Hgone|(d & Hdc & Hdq & Hlt)].
    + by destruct (Hgone _ (cand_of_viable _ _ _ Hs')).
    + destruct (Hcand _ Hdc) as [Vd Sd]. exists (stream d). by rewrite <- Sd.
  - intros s' Hs'. pose proof (Hbest _ (cand_of_viable _ _ _ Hs')) as Hle.
    destruct Hor as [(-> & _)|(Heq & _ & _ & Hf & Hthr)]; [by left|].
    destruct (Held a) eqn:Eh; [|by rewrite (Hf eq_refl); left].
    right. split; [congruence|]. split; [done|]. exists (stream best). by rewrite <- Sb.
Qed.

(** The shape of an allocation: exactly one assignment per device, in
    increasing order of device ID; the total is the left-to-right float sum of
    the expected yields; the idle devices are counted. *)
Theorem Decide_output inp al :
  Decide (Some inp) = Ok al →
  (a_DeviceID <$> Assignments al) ≡ₚ (dev_id <$> Devices inp) ∧
  NoDup (a_DeviceID <$> Assignments al) ∧
  StronglySorted String.le (a_DeviceID <$> Assignments al) ∧
  TotalYield al = foldl fadd fzero (map ExpectedYield (Assignments al)) ∧
  SkippedDevice al = idle_count (Assignments al) ∧ al_Policy al = in_Policy inp.
Proof.
  intros H. destruct (Decide_cases inp) as [[Hacc He]|[_ [e He]]]; [|congruence].
  rewrite He in H. apply Ok_inj in H as <-.
  set (devs := SortStableFunc devCmp (Devices inp)).
  destruct (decideLoop_spec inp (previousMap (Previous inp)) devs) as (Hal & Ht & Hs & Hp).
  assert (a_DeviceID <$> Assignments (decideLoop inp (previousMap (Previous inp)) devs) =
          dev_id <$> devs) as Hids.
  { rewrite Hal. rewrite <- (list_fmap_compose (assign inp _) a_DeviceID).
    apply list_fmap_ext. intros i d _. simpl. apply assign_device. }
  rewrite Hids. assert (dev_id <$> devs ≡ₚ dev_id <$> Devices inp) as Hperm.
  { apply fmap_Permutation, SortStableFunc_Permutation. }
  split; [done|]. split; [rewrite Hperm; apply Hacc|]. split; [|done].
  pose proof (SortStableFunc_sorted devCmp (λ _, True)) as Hsort.
  assert (StronglySorted (cmp_le devCmp) devs) as Hss.
  { apply Hsort.
    - intros x y _ _ Hg. apply string_compare_le.
      destruct (total String.le (dev_id y) (dev_id x)) as [?|Hle]; [done|].
      by apply string_compare_le in Hle.
    - intros x y z _ _ _. unfold cmp_le, devCmp. rewrite !string_compare_le. apply transitivity.
    - by apply Forall_true. }
  clear -Hss. induction Hss as [|d ds _ IH Hf]; simpl; constructor; [done|].
  apply Forall_fmap. eapply Forall_impl; [exact Hf|]. intros d' Hd'. by apply string_compare_le.
Qed.

(** [Decide] fails exactly on malformed input: no input, an unknown
    policy, a margin or floor that is negative, NaN or infinite, or two
    devices with the same ID; a lack of streams is never an error. *)
Theorem Decide_fails_iff i :
  (∃ e, Decide i = Err e) ↔ match i with None => True | Some inp => ¬ input_accepted inp end.
Proof.
  destruct i as [inp|]; [|by split; [|eexists]].
  destruct (Decide_cases inp) as [[Hacc He]|[Hacc [e He]]]; rewrite He.
  - split; [by intros [e ?]|done].
  - split; [done|by eauto].
Qed.

(** * A concrete decision *)

Definition demo_stream (id : string) (fams : list Family) (sats : Z) (btc : bool) : Stream :=
  {| Stream_ID := id; AcceptsFamilies := fams; YieldPerDevice := ∅;
     DefaultYield := {| SatsPerSecond := f64_of_Z sats; Confidence := fone |};
     PrivacyRating := 5; EnvironmentalRating := 5; IsBitcoinMining := btc |}.
Definition demo_dev (id : string) (f : Family) : DeviceRef :=
  {| dev_Identity := {| ID := id; id_Family := f; Vendor := ""; Model := "" |};
     dev_Capabilities := {| cap_SHA256d := true; GeneralCompute := false |} |}.
Definition demo_prev : Assignment :=
  {| a_DeviceID := "gpu-0"; a_Stream := "ai.x"; ExpectedYield := f64_of_Z 20;
     SwitchedFromID := ""; Reason := NoReason; Held := false; HeldIdle := false;
     ForegoneSatsPerSec := fzero |}.
Definition demo_input (policy : Policy) : Input :=
  {| Devices := [demo_dev "gpu-0" "gpu"; demo_dev "asic-0" "asic"; demo_dev "fpga-0" "fpga"];
     Streams := [demo_stream "mining.b" ["asic"; "gpu"] 21 false; demo_stream "ai.x" ["gpu"] 20 true];
     Previous := Some {| Assignments := [demo_prev]; TotalYield := f64_of_Z 20;
                         al_Policy := policy; SkippedDevice := 0 |};
     in_Policy := policy; HysteresisMargin := f64_const 1 1000; MinYieldSatsPerSec := fone |}.
Definition demo_alloc (policy : Policy) : Allocation :=
  match Decide (Some (demo_input policy)) with
  | Ok al => al
  | Err _ => {| Assignments := []; TotalYield := fzero; al_Policy := 0; SkippedDevice := 0 |}
  end.
Definition demo_asg (policy : Policy) (i : nat) : Assignment :=
  nth i (Assignments (demo_alloc policy)) zeroAssignment.

Lemma demo_streams_ok policy : Forall stream_ok (Streams (demo_input policy)).
Proof.
  repeat constructor; simpl; try done; try (vm_compute; reflexivity);
    intros id y Hy; by rewrite lookup_empty in Hy.
Qed.
Lemma demo_decides policy : Policy_Valid policy = true →
  Decide (Some (demo_input policy)) = Ok (demo_alloc policy).
Proof.
  intros H. unfold demo_alloc. destruct (Decide_cases (demo_input policy)) as [[_ ->]|[Hn _]]; [done|].
  exfalso. apply Hn. split; [done|]. split; [done|]. split; [done|]. decide_vm.
Qed.

Example demo_assignments :
  map (λ a, (a_DeviceID a, a_Stream a)) (Assignments (demo_alloc PolicyMaximizeEarnings)) =
  [("asic-0", "mining.b"); ("fpga-0", ""); ("gpu-0", "mining.b")].
Proof. vm_compute. reflexivity. Qed.

(** On equal scores the stream ID decides, not the yield: under
    [PolicyStackBTC] the BTC stream of yield 20 and the other of yield 21 both
    score 21, and the device goes to the one of yield 20 because its ID is
    smaller. *)
Lemma tie_breaks_by_id_not_yield :
  let dev := demo_dev "gpu-1" "gpu" in
  let ss := Streams (demo_input PolicyStackBTC) in
  feq (policyScore (demo_stream "mining.b" [] 21 false) (f64_of_Z 21) PolicyStackBTC)
      (policyScore (demo_stream "ai.x" [] 20 true) (f64_of_Z 20) PolicyStackBTC) = true ∧
  a_Stream (chooseForDevice dev ss zeroAssignment PolicyStackBTC fzero fzero) = "ai.x" ∧
  ExpectedYield (chooseForDevice dev ss zeroAssignment PolicyStackBTC fzero fzero) = f64_of_Z 20.
Proof. vm_compute. repeat split. Qed.

Lemma demo_in policy i :
  (i < length (Assignments (demo_alloc policy)))%nat →
  demo_asg policy i ∈ Assignments (demo_alloc policy).
Proof. intros H. apply list_elem_of_In, nth_In. exact H. Qed.

Lemma Decide_sound_witness :
  ∃ dev, dev ∈ Devices (demo_input 0) ∧ a_DeviceID (demo_asg 0 1) = dev_id dev.
Proof.
  destruct (Decide_sound (demo_input 0) (demo_alloc 0) (demo_asg 0 1)
    (demo_streams_ok 0) (demo_decides 0 eq_refl)) as (dev & H1 & H2 & _).
  - apply demo_in. vm_compute. lia.
  - exists dev. exact (conj H1 H2).
Defined.

Lemma Decide_foregone_witness : fnonneg (ForegoneSatsPerSec (demo_asg 0 2)).
Proof.
  apply (Decide_foregone (demo_input 0) (demo_alloc 0) (demo_asg 0 2)
    (demo_streams_ok 0) (demo_decides 0 eq_refl)).
  apply demo_in. vm_compute. lia.
Defined.

Lemma Decide_hysteresis_witness :
  ∃ s, viable_for (demo_input 0) (demo_dev "gpu-0" "gpu") s ∧ a_Stream (demo_asg 0 2) = Stream_ID s.
Proof.
  destruct (Decide_hysteresis (demo_input 0) (demo_alloc 0) (demo_asg 0 2)
    (demo_streams_ok 0) (demo_decides 0 eq_refl)) as (dev & s & H1 & H2 & H3 & H4 & _).
  - apply demo_in. vm_compute. lia.
  - vm_compute. discriminate.
  - assert (dev = demo_dev "gpu-0" "gpu") as <-; [|exists s; exact (conj H3 H4)].
    apply list_elem_of_In in H1. destruct H1 as [<-|[<-|[<-|[]]]]; [reflexivity|..];
      vm_compute in H2; discriminate H2.
Defined.

Lemma Decide_output_witness : SkippedDevice (demo_alloc 0) = idle_count (Assignments (demo_alloc 0)).
Proof.
  destruct (Decide_output (demo_input 0) (demo_alloc 0) (demo_decides 0 eq_refl))
    as (_ & _ & _ & _ & H & _). exact H.
Defined.
