(* ===== verification/Bech32.v ===== *)
(** * internal/btccrypto/bech32.go

    Checksum and structure of SegWit addresses (BIP-173 bech32, BIP-350
    bech32m).  Go strings are lists of bytes.  [strings.ToLower] and
    [strings.ToUpper] are modelled on ASCII strings; on other strings they
    consult the Unicode tables, which are parameters here.

    The reference encoder [bech32_encode] is BIP-173's: the theorems show that
    the validator accepts exactly the encodings of a version-0 program of 20 or
    32 bytes or a version-1 program of 32 bytes, and that a mistyped address is
    rejected whenever the mistakes fall within six consecutive characters. *)
From S2P Require Import Prelude.

Open Scope Z_scope.

(** ** Addresses *)

Inductive AddressType :=
  | AddressUnknown | AddressP2PKH | AddressP2SH | AddressP2WPKH | AddressP2WSH
  | AddressP2TR | AddressP2MR.

#[export] Instance AddressType_eq_dec : EqDecision AddressType.
Proof. solve_decision. Defined.

Definition ErrNotBech32 : error := Sentinel "btccrypto: not a bech32 address".

Definition bech32Charset : list Z := bytes_of_string "qpzry9x8gf2tvdw0s3jn54khce6mua7l".

Definition bech32Const : Z := 1.
Definition bech32mConst : Z := 0x2bc830a3.

Definition gen : list Z := [0x3b6a57b2; 0x26508e6d; 0x1ea119fa; 0x3d4233dd; 0x2a1462b3].

(** The body of the checksum loop. *)
Definition polymod_step (chk v : Z) : Z :=
  let top := Z.shiftr chk 25 in
  let chk := Z.lxor (Z.shiftl (Z.land chk 0x1ffffff) 5) v in
  foldl (λ chk i, if Z.land (Z.shiftr top (Z.of_nat i)) 1 =? 1
                  then Z.lxor chk (nth i gen 0) else chk) chk (seq 0 5).
Definition bech32Polymod (values : list Z) : Z := foldl polymod_step 1 values.

Definition bech32HrpExpand (hrp : list Z) : list Z :=
  map (λ c, Z.shiftr c 5) hrp ++ [0] ++ map (λ c, Z.land c 31) hrp.

(** Go's [int]: 64-bit two's complement. *)
Definition int64 (v : Z) : Z := wrap 64 (v + 2 ^ 63) - 2 ^ 63.

(** [for bits >= to { bits -= to; out = append(out, (acc>>bits)&maxv) }]. *)
Fixpoint emit_groups (fuel : nat) (acc bits to : Z) (out : list Z) : result (list Z * Z) :=
  if bits <? to then Ok (out, bits)
  else match fuel with
  | O => Err Diverges
  | S fuel =>
      let bits := bits - to in
      emit_groups fuel acc bits to (out ++ [Z.land (Z.shiftr acc bits) (2 ^ to - 1)])
  end.

Fixpoint convert_loop (data : list Z) (from to acc bits : Z) (out : list Z)
    : result (list Z * Z * Z) :=
  match data with
  | [] => Ok (out, acc, bits)
  | v :: data =>
      if (v <? 0) || negb (Z.shiftr v from =? 0)
      then Err (Errorf "btccrypto: convertBits: value %d out of range" [v])
      else
        let acc := int64 (Z.lor (Z.shiftl acc from) v) in
        '(out, bits) ← emit_groups (Z.to_nat (bits + from)) acc (bits + from) to out;
        convert_loop data from to acc bits out
  end.

Definition convertBits (data : list Z) (from to : Z) (pad : bool) : result (list Z) :=
  '(out, acc, bits) ← convert_loop data from to 0 0 [];
  let last := Z.land (int64 (Z.shiftl acc (to - bits))) (2 ^ to - 1) in
  if pad then
    if 0 <? bits then Ok (out ++ [last]) else Ok out
  else if (from <=? bits) || negb (last =? 0)
  then Err (Errorf "btccrypto: convertBits: invalid padding" [])
  else Ok out.

(** ** The strings package *)

Definition is_ascii (s : list Z) : bool := forallb (λ b, b <? 128) s.
Definition lower_byte (b : Z) : Z := if (65 <=? b) && (b <=? 90) then b + 32 else b.
Definition upper_byte (b : Z) : Z := if (97 <=? b) && (b <=? 122) then b - 32 else b.
Definition HasPrefix (s p : list Z) : bool := bool_decide (take (length p) s = p).

(** [strings.IndexByte]/[IndexRune] of an ASCII character; none is -1. *)
Fixpoint IndexByte (s : list Z) (c : Z) : option nat :=
  match s with
  | [] => None
  | b :: s => if b =? c then Some O else S <$> IndexByte s c
  end.
Fixpoint LastIndexByte (s : list Z) (c : Z) : option nat :=
  match s with
  | [] => None
  | b :: s =>
      match LastIndexByte s c with
      | Some i => Some (S i)
      | None => if b =? c then Some O else None
      end
  end.

Definition classifyWitnessProgram (version : Z) (program : list Z) : result AddressType :=
  if version =? 0 then
    if (length program =? 20)%nat then Ok AddressP2WPKH
    else if (length program =? 32)%nat then Ok AddressP2WSH
    else Err (Errorf "btccrypto: v0 witness program must be 20 or 32 bytes, got %d"
                [Z.of_nat (length program)])
  else if version =? 1 then
    if negb (length program =? 32)%nat
    then Err (Errorf "btccrypto: v1 (Taproot) program must be 32 bytes, got %d"
                [Z.of_nat (length program)])
    else Ok AddressP2TR
  else Err (Errorf "btccrypto: unsupported witness version %d" [version]).

(** The charset loop: a character's value is its index.  A byte outside ASCII
    starts (or is) a rune that is not in the charset. *)
Fixpoint charset_values (dataPart : list Z) : result (list Z) :=
  match dataPart with
  | [] => Ok []
  | c :: rest =>
      match IndexByte bech32Charset c with
      | None => Err (Errorf "btccrypto: invalid bech32 character %q" [c])
      | Some idx => data ← charset_values rest; Ok (Z.of_nat idx :: data)
      end
  end.

Section Bech32.
(** [strings.ToLower] and [strings.ToUpper] on strings with non-ASCII bytes. *)
Context (unicodeToLower unicodeToUpper : list Z → list Z).

Definition ToLower (s : list Z) : list Z :=
  if is_ascii s then map lower_byte s else unicodeToLower s.
Definition ToUpper (s : list Z) : list Z :=
  if is_ascii s then map upper_byte s else unicodeToUpper s.

Definition decodeBech32String (addr : list Z) : result (list Z) :=
  if negb (HasPrefix addr (bytes_of_string "bc1")) && negb (HasPrefix addr (bytes_of_string "BC1"))
  then Err ErrNotBech32
  else if negb (bool_decide (addr = ToLower addr)) && negb (bool_decide (addr = ToUpper addr))
  then Err (Errorf "btccrypto: bech32 address has mixed case" [])
  else
    let s := ToLower addr in
    if (90 <? length s)%nat
    then Err (Errorf "btccrypto: bech32 address too long (%d > 90)" [Z.of_nat (length s)])
    else match LastIndexByte s 49 with
    | None | Some O => Err (Errorf "btccrypto: bech32 address has no separator" [])
    | Some pos =>
        let hrp := take pos s in
        if negb (bool_decide (hrp = bytes_of_string "bc"))
        then Err (Errorf "btccrypto: unsupported human-readable part %q (mainnet 'bc' only)" hrp)
        else
          let dataPart := drop (S pos) s in
          if (length dataPart <? 8)%nat
          then Err (Errorf "btccrypto: bech32 data part too short" [])
          else charset_values dataPart
    end.

Definition ValidateBech32Address (addr : list Z) : result AddressType :=
  data ← decodeBech32String addr;
  let version := nth 0 data 0 in
  if 16 <? version
  then Err (Errorf "btccrypto: invalid witness version %d" [version])
  else
    let wantConst := if version =? 0 then bech32Const else bech32mConst in
    if negb (bech32Polymod (bech32HrpExpand (bytes_of_string "bc") ++ data) =? wantConst)
    then Err (Errorf "btccrypto: bech32 checksum failed (likely a typo in the address)" [])
    else
      program ← wrapping "btccrypto: bech32 program decode: %w"
                  (convertBits (slice 1 (length data - 6) data) 5 8 false);
      if (length program <? 2)%nat || (40 <? length program)%nat
      then Err (Errorf "btccrypto: witness program length %d out of range"
                  [Z.of_nat (length program)])
      else classifyWitnessProgram version program.
End Bech32.

Example bip173_vector :
  ValidateBech32Address id id
    (bytes_of_string "BC1QW508D6QEJXTDG4Y5R3ZARVARY0C5XW7KV8F3T4") = Ok AddressP2WPKH.
Proof. vm_compute. reflexivity. Qed.
Example bip350_vector :
  ValidateBech32Address id id
    (bytes_of_string "bc1p0xlxvlhemja6c4dqv22uapctqupfhlxm9h8z3k2e72q4k9hcz7vqzk5jj0") = Ok AddressP2TR.
Proof. vm_compute. reflexivity. Qed.

(** * The checksum is linear *)

Definition gsel (top : Z) : Z :=
  foldl (λ chk i, if Z.land (Z.shiftr top (Z.of_nat i)) 1 =? 1
                  then Z.lxor chk (nth i gen 0) else chk) 0 (seq 0 5).
(** Multiplication of the residue by x. *)
Definition pm (s : Z) : Z := Z.lxor (Z.shiftl (Z.land s 0x1ffffff) 5) (gsel (Z.shiftr s 25)).

Lemma foldl_lxor_init (t : nat → bool) (g : nat → Z) l c :
  foldl (λ chk i, if t i then Z.lxor chk (g i) else chk) c l =
  Z.lxor c (foldl (λ chk i, if t i then Z.lxor chk (g i) else chk) 0 l).
Proof.
  revert c. induction l as [|i l IH]; intros c; simpl; [by rewrite Z.lxor_0_r|].
  rewrite IH, (IH (if t i then _ else _)). destruct (t i).
  - by rewrite Z.lxor_0_l, Z.lxor_assoc.
  - by rewrite Z.lxor_0_l.
Qed.

Lemma polymod_step_pm s v : polymod_step s v = Z.lxor (pm s) v.
Proof.
  unfold polymod_step, pm. cbv zeta.
  rewrite (foldl_lxor_init (λ i, Z.land (Z.shiftr (Z.shiftr s 25) (Z.of_nat i)) 1 =? 1)
    (λ i, nth i gen 0)). fold (gsel (Z.shiftr s 25)).
  by rewrite !Z.lxor_assoc, (Z.lxor_comm v).
Qed.

Lemma gsel_range a : a ∈u 5 → gsel a ∈u 30.
Proof.
  intros Ha. pose proof (forallb_words 32 (λ a, (0 <=? gsel a) && (gsel a <? 2 ^ 30))
    ltac:(vm_compute; done) a Ha) as H. cbv beta in H. lia.
Qed.

Lemma gsel_lxor a b : a ∈u 5 → b ∈u 5 → gsel (Z.lxor a b) = Z.lxor (gsel a) (gsel b).
Proof.
  intros Ha Hb. apply Z.eqb_eq.
  apply (forallb_words 32 (λ b, gsel (Z.lxor a b) =? Z.lxor (gsel a) (gsel b))); [|done].
  apply (forallb_words 32 (λ a, forallb (λ b, gsel (Z.lxor a b) =? Z.lxor (gsel a) (gsel b))
    (map Z.of_nat (seq 0 32)))); [vm_compute; done|done].
Qed.

(** The low five bits of the generator combination determine it. *)
Lemma gsel_low a : a ∈u 5 → Z.land (gsel a) 31 = 0 → a = 0.
Proof.
  intros Ha Hl. apply Z.eqb_eq.
  pose proof (forallb_words 32 (λ a, negb (Z.land (gsel a) 31 =? 0) || (a =? 0))
    ltac:(vm_compute; done) a Ha) as H. simpl in H. rewrite Hl in H. done.
Qed.

Lemma top_range s : s ∈u 30 → Z.shiftr s 25 ∈u 5.
Proof.
  intros Hs. rewrite Z.shiftr_div_pow2 by lia. split; [apply Z.div_pos; lia|].
  apply Z.div_lt_upper_bound; [lia|]. change (2 ^ 25 * 2 ^ 5) with (2 ^ 30). lia.
Qed.

Lemma low25 s : Z.land s 0x1ffffff = s mod 2 ^ 25.
Proof. change 0x1ffffff with (Z.ones 25). by apply Z.land_ones. Qed.

Lemma pm_range s : s ∈u 30 → pm s ∈u 30.
Proof.
  intros Hs. apply lxor_range; [lia| |by apply gsel_range, top_range].
  rewrite low25, Z.shiftl_mul_pow2 by lia. pose proof (Z.mod_pos_bound s (2 ^ 25)).
  change (2 ^ 30) with (2 ^ 25 * 2 ^ 5). nia.
Qed.

Lemma land_lxor a b m : Z.land (Z.lxor a b) m = Z.lxor (Z.land a m) (Z.land b m).
Proof.
  apply Z.bits_inj'. intros i Hi. rewrite Z.land_spec, !Z.lxor_spec, !Z.land_spec.
  by destruct (Z.testbit a i), (Z.testbit b i), (Z.testbit m i).
Qed.

Lemma pm_lxor a b : a ∈u 30 → b ∈u 30 → pm (Z.lxor a b) = Z.lxor (pm a) (pm b).
Proof.
  intros Ha Hb. unfold pm.
  rewrite land_lxor, Z.shiftl_lxor, Z.shiftr_lxor, gsel_lxor by (by apply top_range).
  rewrite !Z.lxor_assoc. f_equal. by rewrite <- !Z.lxor_assoc, (Z.lxor_comm (Z.shiftl _ _)).
Qed.

(** Without carry out of bit 25, the step is a shift. *)
Lemma pm_small s : s ∈u 25 → pm s = s * 32.
Proof.
  intros Hs. unfold pm. rewrite low25, Z.mod_small, Z.shiftl_mul_pow2 by lia.
  rewrite Z.shiftr_div_pow2, Z.div_small by lia. change (gsel 0) with 0. apply Z.lxor_0_r.
Qed.

Lemma pm_zero s : s ∈u 30 → pm s = 0 → s = 0.
Proof.
  intros Hs H. unfold pm in H. apply Z.lxor_eq in H as H'.
  pose proof (top_range s Hs) as Ht.
  assert (Z.shiftr s 25 = 0) as E.
  { apply gsel_low; [done|]. rewrite <- H'. change 31 with (Z.ones 5).
    rewrite Z.land_ones, Z.shiftl_mul_pow2 by lia. by apply Z.mod_mul. }
  rewrite E in H'. change (gsel 0) with 0 in H'.
  rewrite low25, Z.shiftl_mul_pow2 in H' by lia.
  rewrite Z.shiftr_div_pow2 in E by lia.
  pose proof (Z.div_mod s (2 ^ 25)). lia.
Qed.

(** ** Runs of the checksum *)

Definition sym_ok (v : Z) : Prop := 0 ≤ v < 32.
Definition prun (s : Z) (vs : list Z) : Z := foldl polymod_step s vs.

Lemma prun_range s vs : s ∈u 30 → Forall sym_ok vs → prun s vs ∈u 30.
Proof.
  intros Hs H. revert s Hs. induction H as [|v vs Hv _ IH]; intros s Hs; simpl; [done|].
  apply IH. rewrite polymod_step_pm. apply lxor_range; [lia|by apply pm_range|].
  unfold sym_ok in Hv. lia.
Qed.

Lemma lxor_sym v w : sym_ok v → sym_ok w → sym_ok (Z.lxor v w).
Proof. intros. by apply (lxor_range 5). Qed.

Lemma zip_lxor_ok vs ws :
  Forall sym_ok vs → Forall sym_ok ws → Forall sym_ok (zip_with Z.lxor vs ws).
Proof.
  intros H. revert ws. induction H as [|v vs Hv _ IH]; intros [|w ws] Hw; simpl; auto.
  apply Forall_cons in Hw as [? ?]. constructor; [by apply lxor_sym|auto].
Qed.

(** The difference of two runs is the run of the differences. *)
Lemma prun_lxor vs ws s t :
  s ∈u 30 → t ∈u 30 → Forall sym_ok vs → Forall sym_ok ws → length vs = length ws →
  prun (Z.lxor s t) (zip_with Z.lxor vs ws) = Z.lxor (prun s vs) (prun t ws).
Proof.
  intros Hs Ht Hvs. revert ws s t Hs Ht.
  induction Hvs as [|v vs Hv Hvs IH]; intros [|w ws] s t Hs Ht Hw Hl; try done.
  apply Forall_cons in Hw as [Hw Hws]. unfold sym_ok in Hv, Hw. simpl.
  assert (∀ s v, s ∈u 30 → sym_ok v → polymod_step s v ∈u 30) as Hr.
  { intros s' v' ? Hv'. rewrite polymod_step_pm. unfold sym_ok in Hv'.
    apply lxor_range; [lia|by apply pm_range|lia]. }
  rewrite <- IH; auto. f_equal. rewrite !polymod_step_pm, pm_lxor by done.
  rewrite !Z.lxor_assoc. f_equal. by rewrite <- !Z.lxor_assoc, (Z.lxor_comm (pm t)).
Qed.

Lemma prun_zeros_nonzero k s : s ∈u 30 → s ≠ 0 → prun s (replicate k 0) ≠ 0.
Proof.
  revert s. induction k as [|k IH]; intros s Hs Hn; simpl; [done|].
  assert (polymod_step s 0 = pm s) as -> by (by rewrite polymod_step_pm, Z.lxor_0_r).
  apply IH; [by apply pm_range|]. intros H. by apply Hn, pm_zero.
Qed.

Lemma prun_zero_zeros k : prun 0 (replicate k 0) = 0.
Proof. induction k; simpl; done. Qed.

(** Up to six symbols are read as a number in base 32. *)
Lemma prun_short vs :
  Forall sym_ok vs → (length vs ≤ 6)%nat → prun 0 vs = of_digits 32 vs.
Proof.
  induction vs as [|v vs IH] using rev_ind; intros H Hl; [done|].
  apply Forall_app in H as [Hvs [Hv _]%Forall_cons]. rewrite length_app in Hl. simpl in Hl.
  unfold prun. rewrite foldl_app. fold (prun 0 vs). rewrite IH by (auto || lia).
  cbn [foldl]. rewrite of_digits_snoc, polymod_step_pm.
  pose proof (of_digits_range 32 vs ltac:(lia) Hvs) as Hr.
  assert (32 ^ Z.of_nat (length vs) ≤ 2 ^ 25) as Hp.
  { change (2 ^ 25) with (32 ^ 5). apply Z.pow_le_mono_r; lia. }
  rewrite pm_small by lia. unfold sym_ok in Hv.
  replace (of_digits 32 vs * 32) with (Z.shiftl (of_digits 32 vs) 5)
    by (rewrite Z.shiftl_mul_pow2; lia).
  rewrite lxor_shiftl_add by lia. rewrite Z.shiftl_mul_pow2 by lia. done.
Qed.

Lemma zip_lxor_zeros cs : zip_with Z.lxor (replicate (length cs) 0) cs = cs.
Proof. induction cs as [|c cs IH]; [done|]. cbn. by rewrite IH. Qed.

(** Appending six symbols adds their number to the shifted residue. *)
Lemma prun_checksum s cs :
  s ∈u 30 → Forall sym_ok cs → length cs = 6%nat →
  prun s cs = Z.lxor (prun s (replicate 6 0)) (of_digits 32 cs).
Proof.
  intros Hs Hcs Hl. rewrite <- prun_short by (auto || lia).
  rewrite <- prun_lxor; try done; [|by repeat constructor].
  by rewrite Z.lxor_0_r, <- Hl, zip_lxor_zeros.
Qed.

(** * Regrouping bits *)

Lemma int64_mod v : int64 v mod 2 ^ 64 = v mod 2 ^ 64.
Proof.
  unfold int64, wrap. rewrite Zminus_mod_idemp_l. f_equal. lia.
Qed.

(** Reading a bit field below bit 64 of a wrapped accumulator. *)
Lemma field_mod64 acc V b t :
  0 ≤ b → 0 ≤ t → b + t ≤ 64 → acc mod 2 ^ 64 = V mod 2 ^ 64 →
  Z.land (Z.shiftr acc b) (2 ^ t - 1) = (V / 2 ^ b) mod 2 ^ t.
Proof.
  intros Hb Ht Hbt He. replace (2 ^ t - 1) with (Z.ones t) by (rewrite Z.ones_equiv; lia).
  rewrite <- Z.shiftr_div_pow2, <- Z.land_ones by lia.
  apply Z.bits_inj'. intros i Hi. rewrite !Z.land_spec.
  destruct (Z.ltb_spec i t); [|rewrite Z.ones_spec_high by lia; by rewrite !andb_false_r].
  rewrite Z.ones_spec_low by lia. rewrite !andb_true_r, !Z.shiftr_spec by lia.
  rewrite <- (Z.mod_pow2_bits_low acc 64), <- (Z.mod_pow2_bits_low V 64) by lia. by rewrite He.
Qed.

Lemma emit_groups_spec fuel acc bits to out V :
  0 < to → 0 ≤ bits ≤ 64 → bits ≤ Z.of_nat fuel → 0 ≤ V → acc mod 2 ^ 64 = V mod 2 ^ 64 →
  of_digits (2 ^ to) out = V / 2 ^ bits → digits_ok (2 ^ to) out →
  ∃ out' bits', emit_groups fuel acc bits to out = Ok (out', bits') ∧
    0 ≤ bits' < to ∧ bits' ≤ bits ∧
    bits' + to * Z.of_nat (length out') = bits + to * Z.of_nat (length out) ∧
    of_digits (2 ^ to) out' = V / 2 ^ bits' ∧ digits_ok (2 ^ to) out'.
Proof.
  intros Hto Hb Hf HV Hacc. revert bits out Hb Hf.
  induction fuel as [|fuel IH]; intros bits out Hb Hf Ho Hd; cbn [emit_groups].
  - if_lia. exists out, bits. repeat split; auto; lia.
  - destruct (Z.ltb_spec bits to) as [Hlt|Hge]; [exists out, bits; repeat split; auto; lia|].
    rewrite (field_mod64 acc V) by (auto; lia).
    assert (0 < 2 ^ to) as Hp by (apply Z.pow_pos_nonneg; lia).
    assert (0 < 2 ^ (bits - to)) as Hp' by (apply Z.pow_pos_nonneg; lia).
    destruct (IH (bits - to) (out ++ [(V / 2 ^ (bits - to)) mod 2 ^ to]))
      as (out' & bits' & H1 & H2 & H3 & H4 & H5 & H6); try lia.
    + rewrite of_digits_snoc, Ho.
      assert (2 ^ bits = 2 ^ (bits - to) * 2 ^ to) as ->
        by (rewrite <- Z.pow_add_r by lia; f_equal; lia).
      rewrite <- Z.div_div by lia. pose proof (Z.div_mod (V / 2 ^ (bits - to)) (2 ^ to)). lia.
    + apply Forall_app. split; [done|]. apply Forall_singleton. by apply Z.mod_pos_bound.
    + exists out', bits'. rewrite length_app in H4. simpl in H4. repeat split; auto; lia.
Qed.

Lemma convert_loop_spec data from to acc bits out V n :
  0 < from → 0 < to → from + to ≤ 63 → digits_ok (2 ^ from) data →
  0 ≤ V → acc mod 2 ^ 64 = V mod 2 ^ 64 → 0 ≤ bits < to →
  bits + to * Z.of_nat (length out) = from * n →
  of_digits (2 ^ to) out = V / 2 ^ bits → digits_ok (2 ^ to) out →
  ∃ out' acc' bits', convert_loop data from to acc bits out = Ok (out', acc', bits') ∧
    let V' := V * (2 ^ from) ^ Z.of_nat (length data) + of_digits (2 ^ from) data in
    acc' mod 2 ^ 64 = V' mod 2 ^ 64 ∧ 0 ≤ bits' < to ∧
    bits' + to * Z.of_nat (length out') = from * (n + Z.of_nat (length data)) ∧
    of_digits (2 ^ to) out' = V' / 2 ^ bits' ∧ digits_ok (2 ^ to) out'.
Proof.
  intros Hf Ht Hft Hd. revert acc bits out V n.
  induction Hd as [|v data Hv Hd IH]; intros acc bits out V n HV Hacc Hb Hlen Ho Hdo.
  { exists out, acc, bits. cbn [length]. rewrite Z.pow_0_r, Z.mul_1_r, Z.add_0_r.
    rewrite Z.add_0_r. auto 10. }
  cbn [convert_loop]. assert (0 < 2 ^ from) as Hp by (apply Z.pow_pos_nonneg; lia).
  rewrite Z.shiftr_div_pow2, Z.div_small by lia. rewrite (proj2 (Z.ltb_ge v 0)) by lia.
  cbn [Z.eqb negb orb]. set (acc1 := int64 _). set (V1 := V * 2 ^ from + v).
  assert (acc1 mod 2 ^ 64 = V1 mod 2 ^ 64) as Hacc1.
  { unfold acc1, V1. rewrite int64_mod, Z.lor_comm, lor_shiftl_add by lia.
    rewrite Z.add_comm, (Z.mul_comm (2 ^ from)).
    rewrite <- Zplus_mod_idemp_l, <- Zmult_mod_idemp_l, Hacc, Zmult_mod_idemp_l.
    apply Zplus_mod_idemp_l. }
  destruct (emit_groups_spec (Z.to_nat (bits + from)) acc1 (bits + from) to out V1)
    as (out' & bits' & -> & B1 & B2 & B3 & B4 & B5); try lia; auto.
  { rewrite Ho. unfold V1. assert (2 ^ (bits + from) = 2 ^ from * 2 ^ bits) as ->
      by (rewrite Z.add_comm, Z.pow_add_r by lia; done).
    rewrite <- Z.div_div by (try apply Z.pow_pos_nonneg; lia).
    by rewrite Z.add_comm, Z.div_add, (Z.div_small v), Z.add_0_l by lia. }
  cbn [mbind result_bind]. destruct (IH acc1 bits' out' V1 (n + 1))
    as (o & a & b & E & H1 & H2 & H3 & H4 & H5); try lia; auto.
  exists o, a, b. split; [done|]. cbv zeta.
  assert (V * (2 ^ from) ^ Z.of_nat (length (v :: data)) + of_digits (2 ^ from) (v :: data) =
    V1 * (2 ^ from) ^ Z.of_nat (length data) + of_digits (2 ^ from) data) as ->.
  { change (v :: data) with ([v] ++ data). rewrite of_digits_app, length_app.
    cbn [length]. rewrite Nat2Z.inj_add, Z.pow_add_r by lia. unfold V1, of_digits at 1.
    cbn [foldl]. change (Z.of_nat 1) with 1. rewrite Z.pow_1_r. ring. }
  cbn [length]. repeat split; auto; lia.
Qed.

(** ** Between bytes and 5-bit symbols *)

Lemma convertBits_encode prog :
  bytes_ok prog →
  ∃ d5, convertBits prog 8 5 true = Ok d5 ∧ Forall sym_ok d5 ∧
    ∃ k, 0 ≤ k < 5 ∧ 5 * Z.of_nat (length d5) = 8 * Z.of_nat (length prog) + k ∧
      of_digits 32 d5 = of_digits 256 prog * 2 ^ k.
Proof.
  intros Hp. unfold convertBits.
  destruct (convert_loop_spec prog 8 5 0 0 [] 0 0) as (out & acc & bits & -> & H1 & H2 & H3 & H4 & H5);
    try done.
  cbv zeta in H1, H4. rewrite Z.mul_0_l, Z.add_0_l in H1, H4.
  change (2 ^ 8) with 256 in *. change (2 ^ 5) with 32 in H4, H5.
  set (V := of_digits 256 prog) in *. cbn [mbind result_bind].
  assert (0 < 2 ^ bits) as Hpb by (apply Z.pow_pos_nonneg; lia).
  pose proof (Z.div_mod V (2 ^ bits) ltac:(lia)) as Hdm.
  pose proof (Z.mod_pos_bound V (2 ^ bits) Hpb) as Hmb.
  destruct (Z.ltb_spec 0 bits) as [Hlt|Hge].
  - set (last := Z.land _ _).
    assert (last = (V mod 2 ^ bits) * 2 ^ (5 - bits)) as Hlast.
    { unfold last. rewrite <- (Z.shiftr_0_r (int64 _)).
      rewrite (field_mod64 _ (V * 2 ^ (5 - bits))) by
        (try lia; rewrite int64_mod, Z.shiftl_mul_pow2 by lia;
         by rewrite <- Zmult_mod_idemp_l, H1, Zmult_mod_idemp_l).
      rewrite Z.pow_0_r, Z.div_1_r. replace (2 ^ 5) with (2 ^ bits * 2 ^ (5 - bits))
        by (rewrite <- Z.pow_add_r by lia; f_equal; lia).
      rewrite Z.mul_mod_distr_r; [done|lia|]. apply Z.pow_nonzero; lia. }
    assert (2 ^ bits * 2 ^ (5 - bits) = 32) as H32
      by (rewrite <- Z.pow_add_r by lia; by replace (bits + (5 - bits)) with 5 by lia).
    assert (0 < 2 ^ (5 - bits)) by (apply Z.pow_pos_nonneg; lia).
    exists (out ++ [last]). split; [done|]. split.
    + apply Forall_app. split; [done|]. apply Forall_singleton. unfold sym_ok. nia.
    + exists (5 - bits). split; [lia|]. rewrite length_app. cbn [length]. split; [lia|].
      rewrite of_digits_snoc, H4, Hlast, <- H32.
      transitivity ((2 ^ bits * (V / 2 ^ bits) + V mod 2 ^ bits) * 2 ^ (5 - bits)); [ring|].
      by rewrite <- Hdm.
  - assert (bits = 0) as -> by lia. exists out. split; [done|]. split; [done|].
    exists 0. split; [lia|]. split; [lia|]. rewrite H4, Z.pow_0_r, Z.div_1_r. lia.
Qed.

Lemma convertBits_decode d5 prog :
  Forall sym_ok d5 →
  convertBits d5 5 8 false = Ok prog ↔
  bytes_ok prog ∧ ∃ k, 0 ≤ k < 5 ∧ 5 * Z.of_nat (length d5) = 8 * Z.of_nat (length prog) + k ∧
    of_digits 32 d5 = of_digits 256 prog * 2 ^ k.
Proof.
  intros Hd. unfold convertBits.
  destruct (convert_loop_spec d5 5 8 0 0 [] 0 0) as (out & acc & bits & -> & H1 & H2 & H3 & H4 & H5);
    try done.
  cbv zeta in H1, H4. rewrite Z.mul_0_l, Z.add_0_l in H1, H4.
  change (2 ^ 8) with 256 in *. change (2 ^ 5) with 32 in *.
  set (V := of_digits 32 d5) in *. cbn [mbind result_bind].
  assert (0 < 2 ^ bits) as Hpb by (apply Z.pow_pos_nonneg; lia).
  pose proof (Z.div_mod V (2 ^ bits) ltac:(lia)) as Hdm.
  pose proof (Z.mod_pos_bound V (2 ^ bits) Hpb) as Hmb.
  assert (0 < 2 ^ (8 - bits)) as Hp8 by (apply Z.pow_pos_nonneg; lia).
  set (last := Z.land _ _).
  assert (last = (V mod 2 ^ bits) * 2 ^ (8 - bits)) as Hlast.
  { unfold last. change 256 with (2 ^ 8). rewrite <- (Z.shiftr_0_r (int64 _)).
    rewrite (field_mod64 _ (V * 2 ^ (8 - bits))) by
      (try lia; rewrite int64_mod, Z.shiftl_mul_pow2 by lia;
       by rewrite <- Zmult_mod_idemp_l, H1, Zmult_mod_idemp_l).
    rewrite Z.pow_0_r, Z.div_1_r. replace (2 ^ 8) with (2 ^ bits * 2 ^ (8 - bits))
      by (rewrite <- Z.pow_add_r by lia; f_equal; lia).
    rewrite Z.mul_mod_distr_r; [done|lia|lia]. }
  split.
  - destruct (Z.leb_spec 5 bits); [done|]. simpl.
    destruct (Z.eqb_spec last 0) as [Hl0|]; [|done]. simpl. intros <-%Ok_inj.
    split; [done|]. exists bits. split; [lia|]. split; [lia|].
    rewrite H4. nia.
  - intros (Hpo & k & Hk & Hlen & Hv).
    pose proof (of_digits_range 256 prog ltac:(lia) Hpo) as Hpr.
    assert (bits = k ∧ length out = length prog) as [-> Hlo] by lia.
    assert (V mod 2 ^ k = 0) as Hm by (rewrite Hv; by apply Z.mod_mul; lia).
    rewrite Hlast, Hm, Z.mul_0_l. if_lia. f_equal.
    apply (of_digits_inj 256); auto; [lia|]. rewrite H4, Hv, Z.div_mul; lia.
Qed.

(** * The reference encoder *)

Definition hrp_bc : list Z := bech32HrpExpand (bytes_of_string "bc").
Definition witness_const (version : Z) : Z :=
  if version =? 0 then bech32Const else bech32mConst.
Definition bech32_checksum (version : Z) (body : list Z) : list Z :=
  to_digits 32 6 (Z.lxor (prun 1 (hrp_bc ++ body ++ replicate 6 0)) (witness_const version)).
Definition symbol (v : Z) : Z := nth (Z.to_nat v) bech32Charset 0.
Definition bech32_encode (version : Z) (program : list Z) : list Z :=
  let body := version :: match convertBits program 8 5 true with Ok d => d | Err _ => [] end in
  bytes_of_string "bc1" ++ map symbol (body ++ bech32_checksum version body).

(** The standard output type of a witness version and program length. *)
Definition witness_type (version : Z) (n : nat) : option AddressType :=
  if version =? 0 then
    if (n =? 20)%nat then Some AddressP2WPKH
    else if (n =? 32)%nat then Some AddressP2WSH else None
  else if (version =? 1) && (n =? 32)%nat then Some AddressP2TR else None.

Lemma hrp_bc_ok : Forall sym_ok hrp_bc.
Proof. repeat constructor; vm_compute; done. Qed.

Lemma witness_const_range v : witness_const v ∈u 30.
Proof. unfold witness_const. by destruct (v =? 0). Qed.

Lemma prun_app s l1 l2 : prun s (l1 ++ l2) = prun (prun s l1) l2.
Proof. apply foldl_app. Qed.

Lemma bech32_checksum_spec version body cs :
  Forall sym_ok body → Forall sym_ok cs → length cs = 6%nat →
  prun 1 (hrp_bc ++ body ++ cs) = witness_const version ↔ cs = bech32_checksum version body.
Proof.
  intros Hb Hcs Hl. pose proof (witness_const_range version) as Hw.
  unfold bech32_checksum. rewrite !app_assoc, !(prun_app _ (hrp_bc ++ body)).
  set (s := prun 1 (hrp_bc ++ body)).
  assert (s ∈u 30) as Hs
    by (apply prun_range; [done|]; apply Forall_app; split; [apply hrp_bc_ok|done]).
  assert (prun s (replicate 6 0) ∈u 30) as Hz
    by (apply prun_range; [done|]; by repeat constructor).
  rewrite (prun_checksum s cs) by done. set (z := prun s (replicate 6 0)) in *.
  set (w := witness_const version) in *. split.
  - intros <-. rewrite <- Z.lxor_assoc, Z.lxor_nilpotent, Z.lxor_0_l.
    by rewrite to_of_digits.
  - intros ->. rewrite of_to_digits; [|lia|].
    + by rewrite <- Z.lxor_assoc, Z.lxor_nilpotent, Z.lxor_0_l.
    + change (32 ^ Z.of_nat 6) with (2 ^ 30). by apply lxor_range.
Qed.

Lemma bech32_checksum_ok version body :
  Forall sym_ok (bech32_checksum version body) ∧ length (bech32_checksum version body) = 6%nat.
Proof. split; [by apply to_digits_ok|apply length_to_digits]. Qed.

(** ** Characters *)

Lemma IndexByte_Some s c i : IndexByte s c = Some i → s !! i = Some c.
Proof.
  revert i. induction s as [|b s IH]; intros i; simpl; [done|].
  destruct (Z.eqb_spec b c) as [->|]; [by intros [= <-]|].
  destruct (IndexByte s c) as [j|]; [|done]. intros [= <-]. by apply IH.
Qed.

Lemma IndexByte_symbol v : sym_ok v → IndexByte bech32Charset (symbol v) = Some (Z.to_nat v).
Proof.
  intros Hv. pose proof (forallb_words 32
    (λ v, bool_decide (IndexByte bech32Charset (symbol v) = Some (Z.to_nat v)))
    ltac:(vm_compute; done) v Hv) as H. cbv beta in H. by apply bool_decide_eq_true in H.
Qed.

Lemma symbol_not_one v : sym_ok v → symbol v ≠ 49.
Proof.
  intros Hv. pose proof (forallb_words 32 (λ v, negb (symbol v =? 49))
    ltac:(vm_compute; done) v Hv) as H. cbv beta in H. lia.
Qed.

Lemma charset_values_spec cs data :
  charset_values cs = Ok data ↔ Forall sym_ok data ∧ cs = map symbol data.
Proof.
  revert data. induction cs as [|c cs IH]; intros data; cbn [charset_values].
  - split; [intros <-%Ok_inj; done|]. intros [_ H]. by destruct data.
  - destruct (IndexByte bech32Charset c) as [i|] eqn:E.
    + apply IndexByte_Some in E as Hi. assert (i < 32)%nat as Hlt
        by (by apply lookup_lt_Some in Hi).
      assert (symbol (Z.of_nat i) = c) as Hc
        by (unfold symbol; rewrite Nat2Z.id; by apply nth_lookup_Some).
      destruct (charset_values cs) as [d|e]; cbn [mbind result_bind]; split.
      * intros <-%Ok_inj. destruct (proj1 (IH d) eq_refl) as [Hd ->].
        split; [constructor; [unfold sym_ok; lia|done]|]. cbn [map]. by rewrite Hc.
      * intros [Hd H]. destruct data as [|v data]; [done|]. cbn [map] in H.
        injection H as Hv Hcs. apply Forall_cons in Hd as [Hv1 Hd].
        rewrite Hv in E. rewrite IndexByte_symbol in E by done.
        injection E as <-. assert (Ok d = Ok data) as [= ->] by (apply IH; auto).
        f_equal. f_equal. unfold sym_ok in Hv1. lia.
      * done.
      * intros [Hd H]. destruct data as [|v data]; [done|]. cbn [map] in H.
        injection H as _ Hcs. apply Forall_cons in Hd as [_ Hd].
        assert (Err e = Ok data) by (apply IH; auto). done.
    + split; [done|]. intros [Hd H]. destruct data as [|v data]; [done|].
      cbn [map] in H. injection H as -> _. apply Forall_cons in Hd as [Hv _].
      by rewrite IndexByte_symbol in E.
Qed.

Lemma LastIndexByte_Some s c i : LastIndexByte s c = Some i → s !! i = Some c.
Proof.
  revert i. induction s as [|b s IH]; intros i; simpl; [done|].
  destruct (LastIndexByte s c) as [j|].
  - intros [= <-]. by apply IH.
  - destruct (Z.eqb_spec b c) as [->|]; [by intros [= <-]|done].
Qed.

Lemma LastIndexByte_None s c : c ∉ s → LastIndexByte s c = None.
Proof.
  induction s as [|b s IH]; intros H; simpl; [done|].
  rewrite IH by set_solver. destruct (Z.eqb_spec b c) as [->|]; [set_solver|done].
Qed.

Lemma symbols_no_one d : Forall sym_ok d → 49 ∉ map symbol d.
Proof.
  intros Hd H. apply list_elem_of_In, in_map_iff in H as (v & Hv & Hin).
  rewrite Forall_forall in Hd. apply list_elem_of_In in Hin.
  by apply (symbol_not_one v (Hd _ Hin)).
Qed.

(** * What the validator accepts *)

Section Acceptance.
Context (unicodeToLower unicodeToUpper : list Z → list Z).
Notation Lower := (ToLower unicodeToLower).
Notation Decode := (decodeBech32String unicodeToLower unicodeToUpper).
Notation Validate := (ValidateBech32Address unicodeToLower unicodeToUpper).

(** The prefix and single-case rules of BIP-173 on the raw string. *)
Definition surface_ok (addr : list Z) : Prop :=
  (HasPrefix addr (bytes_of_string "bc1") = true ∨ HasPrefix addr (bytes_of_string "BC1") = true) ∧
  (addr = Lower addr ∨ addr = ToUpper unicodeToUpper addr).

(** The part of [decodeBech32String] after the surface checks. *)
Definition decode_separated (s : list Z) : result (list Z) :=
  if (90 <? length s)%nat
  then Err (Errorf "btccrypto: bech32 address too long (%d > 90)" [Z.of_nat (length s)])
  else match LastIndexByte s 49 with
  | None | Some O => Err (Errorf "btccrypto: bech32 address has no separator" [])
  | Some pos =>
      let hrp := take pos s in
      if negb (bool_decide (hrp = bytes_of_string "bc"))
      then Err (Errorf "btccrypto: unsupported human-readable part %q (mainnet 'bc' only)" hrp)
      else
        let dataPart := drop (S pos) s in
        if (length dataPart <? 8)%nat
        then Err (Errorf "btccrypto: bech32 data part too short" [])
        else charset_values dataPart
  end.

Lemma decode_separated_spec s data :
  decode_separated s = Ok data ↔
  (length s ≤ 90)%nat ∧ (8 ≤ length data)%nat ∧ Forall sym_ok data ∧
  s = bytes_of_string "bc1" ++ map symbol data.
Proof.
  unfold decode_separated. destruct (90 <? length s)%nat eqn:E90; zbool.
  { split; [done|intros [? _]; lia]. }
  split.
  - destruct (LastIndexByte s 49) as [[|pos]|] eqn:El; [done| |done]. cbv zeta.
    case_bool_decide as Hh; [|done]. cbn [negb].
    destruct (length (drop (S (S pos)) s) <? 8)%nat eqn:E8; zbool; [done|]. intros H.
    apply charset_values_spec in H as [Hok Hd]. rewrite Hd, length_map in E8.
    apply LastIndexByte_Some in El.
    assert (pos = 1%nat) as ->.
    { apply (f_equal length) in Hh. rewrite length_take in Hh.
      change (length (bytes_of_string "bc")) with 2%nat in Hh.
      apply lookup_lt_Some in El. lia. }
    split; [done|]. split; [done|]. split; [done|].
    rewrite <- (take_drop 2 s), Hh, (drop_S _ _ _ El), Hd. done.
  - intros (_ & H4 & H5 & H6).
    assert (LastIndexByte s 49 = Some 2%nat) as ->.
    { rewrite H6. cbn -[symbol]. by rewrite LastIndexByte_None by (by apply symbols_no_one). }
    cbv zeta. assert (take 2 s = bytes_of_string "bc") as -> by (by rewrite H6).
    assert (drop 3 s = map symbol data) as -> by (by rewrite H6).
    rewrite bool_decide_true by done. cbn [negb].
    rewrite length_map, (proj2 (Nat.ltb_ge _ _) H4). by apply charset_values_spec.
Qed.

Lemma decodeBech32String_spec addr data :
  Decode addr = Ok data ↔
  surface_ok addr ∧ (length (Lower addr) ≤ 90)%nat ∧ (8 ≤ length data)%nat ∧
  Forall sym_ok data ∧ Lower addr = bytes_of_string "bc1" ++ map symbol data.
Proof.
  rewrite <- decode_separated_spec. unfold decodeBech32String, surface_ok.
  destruct (HasPrefix addr (bytes_of_string "bc1")), (HasPrefix addr (bytes_of_string "BC1"));
    cbn [negb andb]; try (split; [done|naive_solver]);
    case_bool_decide; case_bool_decide; cbn [negb andb]; fold (decode_separated (Lower addr));
    split; try done; naive_solver.
Qed.

Lemma classifyWitnessProgram_spec version program t :
  classifyWitnessProgram version program = Ok t ↔
  witness_type version (length program) = Some t.
Proof.
  unfold classifyWitnessProgram, witness_type.
  destruct (version =? 0); [|destruct (version =? 1)]; simpl;
    repeat case_match; simplify_eq; naive_solver.
Qed.

Lemma witness_type_bounds version n t :
  witness_type version n = Some t →
  (version = 0 ∨ version = 1) ∧ (n = 20%nat ∨ n = 32%nat).
Proof.
  unfold witness_type. destruct (Z.eqb_spec version 0), (Z.eqb_spec version 1),
    (Nat.eqb_spec n 20), (Nat.eqb_spec n 32); simpl; naive_solver.
Qed.

(** Encoding a program and decoding its symbols are inverse. *)
Lemma convertBits_inverse d5 prog :
  Forall sym_ok d5 →
  convertBits d5 5 8 false = Ok prog ↔ bytes_ok prog ∧ convertBits prog 8 5 true = Ok d5.
Proof.
  intros Hd. rewrite convertBits_decode by done. split.
  - intros (Hp & k & Hk & Hl & Hv). split; [done|].
    destruct (convertBits_encode prog Hp) as (d & -> & Hd' & k' & Hk' & Hl' & Hv').
    assert (k' = k) as -> by lia. f_equal. apply (of_digits_inj 32); auto; [lia|lia|congruence].
  - intros [Hp He]. split; [done|].
    destruct (convertBits_encode prog Hp) as (d & E & _ & k & H). rewrite E in He.
    apply Ok_inj in He as ->. by exists k.
Qed.

(** A valid data part: version, program symbols, checksum. *)
Lemma data_split data :
  (8 ≤ length data)%nat →
  ∃ v d5 cs, data = (v :: d5) ++ cs ∧ length cs = 6%nat ∧
    slice 1 (length data - 6) data = d5 ∧ nth 0 data 0 = v.
Proof.
  intros Hl. destruct data as [|v rest]; [simpl in Hl; lia|]. cbn [length] in *.
  exists v, (take (length rest - 6) rest), (drop (length rest - 6) rest).
  split; [by rewrite <- app_comm_cons, take_drop|]. split; [rewrite length_drop; lia|].
  split; [|done]. unfold slice. cbn [drop]. f_equal. lia.
Qed.

Lemma program_symbols prog :
  bytes_ok prog → (length prog = 20 ∨ length prog = 32)%nat →
  ∃ d5, convertBits prog 8 5 true = Ok d5 ∧ Forall sym_ok d5 ∧
    (length d5 = 32 ∨ length d5 = 52)%nat.
Proof.
  intros Hp Hn. destruct (convertBits_encode prog Hp) as (d5 & E & Hd & k & Hk & Hl & _).
  exists d5. split; [done|]. split; [done|]. lia.
Qed.

Lemma Validate_spec addr t :
  Validate addr = Ok t ↔
  surface_ok addr ∧ ∃ version program, bytes_ok program ∧
    witness_type version (length program) = Some t ∧
    Lower addr = bech32_encode version program.
Proof.
  unfold ValidateBech32Address. split.
  - destruct (Decode addr) as [data|] eqn:Ed; [|done]. cbn [mbind result_bind].
    apply decodeBech32String_spec in Ed as (Hs & H90 & H8 & Hok & Ha).
    destruct (data_split data H8) as (v & d5 & cs & -> & Hcs & Hsl & Hv).
    rewrite Hsl, Hv. cbv zeta. fold hrp_bc. apply Forall_app in Hok as [Hb Hcok].
    apply Forall_cons in Hb as Hb'. destruct Hb' as [_ Hd5].
    destruct (16 <? v); [done|]. change (if v =? 0 then _ else _) with (witness_const v).
    destruct (Z.eqb_spec (bech32Polymod (hrp_bc ++ (v :: d5) ++ cs)) (witness_const v))
      as [Hpoly|]; [|done]. cbn [negb].
    destruct (convertBits d5 5 8 false) as [prog|] eqn:Ec; [|done].
    cbn [wrapping mbind result_bind]. destruct (_ || _); [done|]. intros Ht.
    split; [done|]. exists v, prog. apply convertBits_inverse in Ec as [Hp Hc]; [|done].
    split; [done|]. split; [by apply classifyWitnessProgram_spec|].
    unfold bech32_encode. rewrite Hc, Ha. f_equal. f_equal. f_equal.
    by apply bech32_checksum_spec.
  - intros (Hs & v & prog & Hp & Ht & Ha).
    destruct (witness_type_bounds _ _ _ Ht) as [Hvb Hnb].
    destruct (program_symbols prog Hp Hnb) as (d5 & Hc & Hd5 & Hl5).
    unfold bech32_encode in Ha. rewrite Hc in Ha. cbv zeta in Ha.
    destruct (bech32_checksum_ok v (v :: d5)) as [Hcok Hcl].
    set (cs := bech32_checksum v (v :: d5)) in *.
    assert (Forall sym_ok (v :: d5)) as Hb by (constructor; [unfold sym_ok; lia|done]).
    set (data := (v :: d5) ++ cs) in *.
    assert (length data = S (length d5) + 6)%nat as Hlen
      by (unfold data; rewrite length_app, Hcl; done).
    assert (Decode addr = Ok data) as ->.
    { apply decodeBech32String_spec. split; [done|].
      split; [rewrite Ha, length_app, length_map; change (length (bytes_of_string "bc1")) with 3%nat; lia|].
      split; [lia|]. split; [by apply Forall_app|done]. }
    cbn [mbind result_bind]. destruct (data_split data) as (v' & d5' & cs' & He & Hc6 & Hsl & Hv);
      [lia|]. rewrite Hsl, Hv. unfold data in He.
    apply app_inj_2 in He as [He _]; [|congruence]. injection He as <- <-.
    rewrite (proj2 (Z.ltb_ge 16 v)) by lia. change (if v =? 0 then _ else _) with (witness_const v).
    assert (bech32Polymod (hrp_bc ++ data) = witness_const v) as Hpoly
      by (by apply bech32_checksum_spec).
    fold hrp_bc. rewrite Hpoly, Z.eqb_refl. cbn [negb].
    rewrite (proj2 (convertBits_inverse d5 prog Hd5)) by done. cbn [wrapping mbind result_bind].
    destruct (_ || _) eqn:Eb; [lia|]. by apply classifyWitnessProgram_spec.
Qed.
End Acceptance.

(** ** Distinct programs have distinct addresses *)

Lemma symbol_inj v w : sym_ok v → sym_ok w → symbol v = symbol w → v = w.
Proof.
  intros Hv Hw H. pose proof (IndexByte_symbol v Hv) as E. rewrite H, IndexByte_symbol in E by done.
  unfold sym_ok in *. injection E. lia.
Qed.

Lemma map_symbol_inj d1 d2 :
  Forall sym_ok d1 → Forall sym_ok d2 → map symbol d1 = map symbol d2 → d1 = d2.
Proof.
  intros H1. revert d2. induction H1 as [|v d1 Hv _ IH]; intros [|w d2] H2 H; try done.
  apply Forall_cons in H2 as [Hw H2]. cbn [map] in H. injection H as Hs H.
  f_equal; [by apply symbol_inj|by apply IH].
Qed.

(** The symbols of an encoded address. *)
Definition encoded (version : Z) (program d5 : list Z) : Prop :=
  convertBits program 8 5 true = Ok d5 ∧ Forall sym_ok d5 ∧ sym_ok version ∧
  bech32_encode version program =
    bytes_of_string "bc1" ++ map symbol ((version :: d5) ++ bech32_checksum version (version :: d5)).

Lemma encode_symbols version program t :
  bytes_ok program → witness_type version (length program) = Some t →
  ∃ d5, encoded version program d5.
Proof.
  intros Hp Ht. destruct (witness_type_bounds _ _ _ Ht) as [Hv _].
  destruct (convertBits_encode program Hp) as (d5 & E & Hd & _). exists d5.
  split; [done|]. split; [done|]. split; [unfold sym_ok; lia|].
  unfold bech32_encode. by rewrite E.
Qed.

Lemma encode_data_ok v d5 :
  sym_ok v → Forall sym_ok d5 → Forall sym_ok ((v :: d5) ++ bech32_checksum v (v :: d5)).
Proof. intros. apply Forall_app. split; [by constructor|apply bech32_checksum_ok]. Qed.

Lemma bech32_encode_inj v1 p1 t1 v2 p2 t2 :
  bytes_ok p1 → bytes_ok p2 →
  witness_type v1 (length p1) = Some t1 → witness_type v2 (length p2) = Some t2 →
  bech32_encode v1 p1 = bech32_encode v2 p2 → v1 = v2 ∧ p1 = p2.
Proof.
  intros Hp1 Hp2 Ht1 Ht2 H.
  destruct (encode_symbols _ _ _ Hp1 Ht1) as (d1 & E1 & D1 & S1 & A1).
  destruct (encode_symbols _ _ _ Hp2 Ht2) as (d2 & E2 & D2 & S2 & A2).
  rewrite A1, A2 in H. apply app_inv_head in H.
  apply map_symbol_inj in H; [|by apply encode_data_ok..].
  apply app_inj_2 in H as [[= -> ->] _]; [|transitivity 6%nat; [|symmetry]; apply bech32_checksum_ok].
  split; [done|].
  pose proof (proj2 (convertBits_inverse d2 p1 D1) (conj Hp1 E1)) as F1.
  pose proof (proj2 (convertBits_inverse d2 p2 D1) (conj Hp2 E2)) as F2. congruence.
Qed.

(** ** Mistakes within six characters are detected *)

(** A difference that is zero outside a window of six symbols vanishes if the
    checksum cannot see it. *)
Lemma window_detected e q :
  Forall sym_ok e → (∀ j v, e !! j = Some v → (j < q ∨ q + 6 ≤ j)%nat → v = 0) →
  prun 0 e = 0 → Forall (eq 0) e.
Proof.
  intros Hok Hz H0. set (a := take q e). set (w := take 6 (drop q e)). set (b := drop 6 (drop q e)).
  assert (e = a ++ w ++ b) as He by (unfold a, w, b; by rewrite !take_drop).
  assert (Forall (eq 0) a) as Ha.
  { apply Forall_lookup. intros j v Hj. apply lookup_take_Some in Hj as [Hj Hlt].
    symmetry. eauto. }
  assert (Forall (eq 0) b) as Hb.
  { apply Forall_lookup. intros j v Hj. unfold b in Hj. rewrite drop_drop, lookup_drop in Hj.
    symmetry. eapply Hz; [done|]. lia. }
  assert (∀ l, Forall (eq 0) l → l = replicate (length l) 0) as Hrep.
  { clear. induction 1 as [|? l <- _ IH]; [done|]. simpl. by rewrite <- IH. }
  assert (Forall sym_ok w) as Hw by (by apply Forall_take, Forall_drop).
  assert (length w ≤ 6)%nat as Hlw by (unfold w; rewrite length_take; lia).
  rewrite He, !prun_app, (Hrep a Ha), prun_zero_zeros, (prun_short w Hw Hlw) in H0.
  destruct (decide (of_digits 32 w = 0)) as [E|E].
  - assert (w = replicate (length w) 0) as Hwz.
    { apply (of_digits_inj 32); auto; [lia|apply Forall_replicate; lia|by rewrite length_replicate|].
      rewrite E, <- (app_nil_r (replicate _ 0)), of_digits_zeros. done. }
    rewrite He, Hwz. rewrite !Forall_app. split; [done|]. split; [by apply Forall_replicate|done].
  - exfalso. rewrite (Hrep b Hb) in H0. apply (prun_zeros_nonzero (length b) (of_digits 32 w)); auto.
    pose proof (of_digits_range 32 w ltac:(lia) Hw). 
    assert (32 ^ Z.of_nat (length w) ≤ 2 ^ 30)
      by (change (2 ^ 30) with (32 ^ 6); apply Z.pow_le_mono_r; lia). lia.
Qed.

Lemma zip_lxor_zero d1 d2 :
  length d1 = length d2 → Forall (eq 0) (zip_with Z.lxor d1 d2) → d1 = d2.
Proof.
  revert d2. induction d1 as [|x d1 IH]; intros [|y d2] Hl H; try done.
  simpl in H. apply Forall_cons in H as [Hx H]. f_equal; [by apply Z.lxor_eq|].
  apply IH; [by injection Hl|done].
Qed.

Lemma lookup_zip_lxor d1 d2 j v :
  zip_with Z.lxor d1 d2 !! j = Some v →
  ∃ x y, d1 !! j = Some x ∧ d2 !! j = Some y ∧ v = Z.lxor x y.
Proof. intros H. apply lookup_zip_with_Some in H as (x & y & -> & ? & ?). eauto. Qed.

(** Two symbol strings of the same residue that agree outside six consecutive
    characters are equal. *)
Lemma same_residue_window d1 d2 q :
  Forall sym_ok d1 → Forall sym_ok d2 → length d1 = length d2 →
  (∀ j, (j < q ∨ q + 6 ≤ j)%nat → map symbol d1 !! j = map symbol d2 !! j) →
  prun 1 (hrp_bc ++ d1) = prun 1 (hrp_bc ++ d2) → d1 = d2.
Proof.
  intros H1 H2 Hl Hw Hp. apply zip_lxor_zero; [done|].
  apply (window_detected _ q).
  - by apply zip_lxor_ok.
  - intros j v Hj Hout. destruct (lookup_zip_lxor _ _ _ _ Hj) as (x & y & Hx & Hy & ->).
    specialize (Hw j Hout). rewrite !list_lookup_fmap, Hx, Hy in Hw. injection Hw as Hw.
    rewrite Forall_lookup in H1, H2. apply symbol_inj in Hw as ->; eauto. apply Z.lxor_nilpotent.
  - rewrite !prun_app in Hp. set (s := prun 1 hrp_bc) in *.
    assert (s ∈u 30) by (apply prun_range; [done|apply hrp_bc_ok]).
    replace 0 with (Z.lxor s s) by apply Z.lxor_nilpotent.
    rewrite prun_lxor, Hp by done. apply Z.lxor_nilpotent.
Qed.

Lemma witness_type_version v1 n1 v2 n2 t :
  witness_type v1 n1 = Some t → witness_type v2 n2 = Some t → v1 = v2 ∧ n1 = n2.
Proof.
  unfold witness_type. destruct (Z.eqb_spec v1 0), (Z.eqb_spec v2 0), (Z.eqb_spec v1 1),
    (Z.eqb_spec v2 1), (Nat.eqb_spec n1 20), (Nat.eqb_spec n1 32), (Nat.eqb_spec n2 20),
    (Nat.eqb_spec n2 32); simpl; intros; simplify_eq; done.
Qed.


(** C26. Typing mistakes are detected.  Two valid addresses of the same type
    that differ only within six consecutive characters (one wrong character,
    two swapped neighbours, a garbled run of up to six) are the same address:
    a valid address damaged that way never validates as its own type. *)
Theorem bech32_detects_typos unicodeToLower unicodeToUpper a1 a2 t p :
  ValidateBech32Address unicodeToLower unicodeToUpper a1 = Ok t →
  ValidateBech32Address unicodeToLower unicodeToUpper a2 = Ok t →
  (∀ i, (i < p ∨ p + 6 ≤ i)%nat →
     ToLower unicodeToLower a1 !! i = ToLower unicodeToLower a2 !! i) →
  ToLower unicodeToLower a1 = ToLower unicodeToLower a2.
Proof.
  rewrite !Validate_spec. intros (_ & v1 & p1 & Hp1 & Ht1 & A1) (_ & v2 & p2 & Hp2 & Ht2 & A2) Hw.
  destruct (witness_type_version _ _ _ _ _ Ht1 Ht2) as [<- Hn].
  destruct (encode_symbols _ _ _ Hp1 Ht1) as (d1 & E1 & D1 & S1 & B1).
  destruct (encode_symbols _ _ _ Hp2 Ht2) as (d2 & E2 & D2 & _ & B2).
  destruct (convertBits_encode p1 Hp1) as (d1' & E1' & _ & k1 & K1 & L1 & _).
  destruct (convertBits_encode p2 Hp2) as (d2' & E2' & _ & k2 & K2 & L2 & _).
  rewrite E1 in E1'. rewrite E2 in E2'. apply Ok_inj in E1' as <-. apply Ok_inj in E2' as <-.
  rewrite A1, A2, B1, B2 in Hw |- *. f_equal. f_equal.
  destruct (bech32_checksum_ok v1 (v1 :: d1)) as [C1 M1].
  destruct (bech32_checksum_ok v1 (v1 :: d2)) as [C2 M2].
  apply (same_residue_window _ _ (p - 3)); [by apply encode_data_ok..| | |].
  - rewrite !length_app, M1, M2. cbn [length]. lia.
  - intros j Hj. specialize (Hw (3 + j)%nat). 
    rewrite !(lookup_app_r (bytes_of_string "bc1")) in Hw by (cbn [length bytes_of_string]; lia).
    change (3 + j - length (bytes_of_string "bc1"))%nat with (3 + j - 3)%nat in Hw.
    replace (3 + j - 3)%nat with j in Hw by lia. apply Hw. lia.
  - transitivity (witness_const v1); [|symmetry]; apply bech32_checksum_spec; auto;
      by constructor.
Qed.

(** * Examples *)

Definition vec_upper : list Z := bytes_of_string "BC1QW508D6QEJXTDG4Y5R3ZARVARY0C5XW7KV8F3T4".
Definition vec_lower : list Z := map lower_byte vec_upper.

Lemma bech32_detects_typos_witness : ToLower id vec_upper = ToLower id vec_lower.
Proof.
  apply (bech32_detects_typos id id vec_upper vec_lower AddressP2WPKH 0);
    [vm_compute; reflexivity..|]. intros i _. vm_compute. reflexivity.
Defined.

(** The same address with KELVIN SIGN (U+212A, UTF-8 E2 84 AA) for its [K]. *)
Definition vec_kelvin : list Z :=
  take 35 vec_upper ++ [0xE2; 0x84; 0xAA] ++ drop 36 vec_upper.

(** The case folding happens before the character check, and Unicode lower-cases
    KELVIN SIGN to [k] while upper-casing leaves it alone: an upper-case address
    with that non-ASCII character validates. *)
Lemma kelvin_sign_accepted unicodeToLower unicodeToUpper :
  unicodeToLower vec_kelvin = vec_lower → unicodeToUpper vec_kelvin = vec_kelvin →
  vec_upper !! 35%nat = Some 75 ∧ is_ascii vec_kelvin = false ∧
  ValidateBech32Address unicodeToLower unicodeToUpper vec_kelvin = Ok AddressP2WPKH.
Proof.
  intros Hl Hu. split; [done|]. split; [done|]. rewrite Validate_spec.
  assert (ToLower unicodeToLower vec_kelvin = vec_lower) as Hlow by exact Hl.
  assert (ToLower id vec_lower = vec_lower) as Hid by (vm_compute; reflexivity).
  assert (ValidateBech32Address id id vec_lower = Ok AddressP2WPKH) as Hv
    by (vm_compute; reflexivity).
  apply Validate_spec in Hv as [_ Hv]. rewrite Hid in Hv. rewrite Hlow.
  split; [|exact Hv]. split; [by right|]. right. symmetry. exact Hu.
Qed.
