(* ===== verification/Base58.v ===== *)
(** * internal/btccrypto/base58.go and the address dispatch of btccrypto.go

    Base58Check decoding and validation of legacy addresses, the unified
    [ValidateAddress], the prefix classifier and the signature-scheme registry. *)
From S2P Require Import Prelude.
From S2P Require Import Sha256.
From S2P Require Import Bech32.

Open Scope Z_scope.

Definition ErrNotBase58 : error := Sentinel "btccrypto: not a base58 address".
Definition ErrUnrecognisedAddress : error :=
  Sentinel "btccrypto: unrecognized address format (not bech32 or base58 mainnet)".

Definition base58Alphabet : list Z :=
  bytes_of_string "123456789ABCDEFGHJKLMNPQRSTUVWXYZabcdefghijkmnopqrstuvwxyz".

(** The accumulation loop; bytes outside ASCII belong to runes outside the alphabet. *)
Fixpoint base58_value (s : list Z) (n : Z) : result Z :=
  match s with
  | [] => Ok n
  | r :: s =>
      match IndexByte base58Alphabet r with
      | None => Err (Errorf "invalid base58 character %q" [r])
      | Some idx => base58_value s (n * 58 + Z.of_nat idx)
      end
  end.

(** [for i := 0; i < len(s) && s[i] == '1'; i++ { leading++ }]. *)
Fixpoint leading_of (c : Z) (s : list Z) : nat :=
  match s with
  | [] => 0
  | b :: s => if b =? c then S (leading_of c s) else 0
  end.

Definition base58Decode (s : list Z) : result (list Z) :=
  n ← base58_value s 0;
  Ok (replicate (leading_of 49 s) 0 ++ big_Bytes n).

Definition Hash256 (b : list Z) : list Z := Sum256 (Sum256 b).

Definition TaggedHash (tag : list Z) (msg : list Z) : list Z :=
  Sum256 (Sum256 tag ++ Sum256 tag ++ msg).

Definition ValidateBase58Address (addr : list Z) : result AddressType :=
  if bool_decide (addr = []) || HasPrefix addr (bytes_of_string "bc1") ||
     HasPrefix addr (bytes_of_string "BC1") ||
     (negb (HasPrefix addr (bytes_of_string "1")) && negb (HasPrefix addr (bytes_of_string "3")))
  then Err ErrNotBase58
  else
    raw ← wrapping "btccrypto: %w" (base58Decode addr);
    if negb (length raw =? 25)%nat
    then Err (Errorf "btccrypto: base58 address decodes to %d bytes, want 25" [Z.of_nat (length raw)])
    else
      let payload := take 21 raw in
      let checksum := drop 21 raw in
      let sum := Hash256 payload in
      if negb (bool_decide (take 4 sum = checksum))
      then Err (Errorf "btccrypto: base58 checksum failed (likely a typo in the address)" [])
      else if nth 0 payload 0 =? 0 then Ok AddressP2PKH
      else if nth 0 payload 0 =? 5 then Ok AddressP2SH
      else Err (Errorf "btccrypto: unsupported base58 version byte 0x%02x (mainnet P2PKH/P2SH only)"
                  [nth 0 payload 0]).

(** ** btccrypto.go *)

Definition AddressType_String (t : AddressType) : string :=
  match t with
  | AddressP2PKH => "P2PKH"
  | AddressP2SH => "P2SH"
  | AddressP2WPKH => "P2WPKH"
  | AddressP2WSH => "P2WSH"
  | AddressP2TR => "P2TR"
  | AddressP2MR => "P2MR"
  | AddressUnknown => "unknown"
  end.

Definition ClassifyAddress (addr : list Z) : AddressType :=
  if HasPrefix addr (bytes_of_string "bc1p") then AddressP2TR
  else if HasPrefix addr (bytes_of_string "bc1q") then
    if (60 <=? length addr)%nat then AddressP2WSH else AddressP2WPKH
  else if HasPrefix addr (bytes_of_string "1") then AddressP2PKH
  else if HasPrefix addr (bytes_of_string "3") then AddressP2SH
  else AddressUnknown.

(** A registered scheme is known by its name; the two registered ones are the
    secp256k1 stubs of secp256k1.go. *)
Definition ErrUnknownScheme : error := Sentinel "btccrypto: unknown signature scheme".
Definition ErrSchemeNotImplemented : error :=
  Sentinel "btccrypto: scheme registered but implementation pending".

Record Scheme := { Scheme_Name : string }.
Notation registry := (gmap string Scheme).

(** Registering a name twice panics. *)
Definition Register (s : Scheme) (r : registry) : result registry :=
  match r !! Scheme_Name s with
  | Some _ => Err (Sentinel "panic: btccrypto: scheme %q registered twice")
  | None => Ok (<[Scheme_Name s := s]> r)
  end.
Definition Lookup (r : registry) (name : string) : result Scheme :=
  match r !! name with
  | Some s => Ok s
  | None => Err (Wrapf "%w: %q" ErrUnknownScheme)
  end.
Definition Schemes (r : registry) : list string :=
  SortStableFunc String.compare (map fst (map_to_list r)).
(** The package's [init]. *)
Definition init : result registry :=
  r ← Register {| Scheme_Name := "ecdsa-secp256k1" |} ∅;
  Register {| Scheme_Name := "schnorr-secp256k1" |} r.

Definition SchemeForAddressType (r : registry) (t : AddressType) : result Scheme :=
  match t with
  | AddressP2PKH | AddressP2SH | AddressP2WPKH | AddressP2WSH => Lookup r "ecdsa-secp256k1"
  | AddressP2TR => Lookup r "schnorr-secp256k1"
  | AddressP2MR => Err (Wrapf "%w: P2MR (BIP-360) not yet implemented" ErrSchemeNotImplemented)
  | AddressUnknown => Err (Wrapf "%w: unknown address type %v" ErrUnknownScheme)
  end.

Section ValidateAddress.
Context (unicodeToLower unicodeToUpper : list Z → list Z).

Definition ValidateAddress (addr : list Z) : result AddressType :=
  match ValidateBech32Address unicodeToLower unicodeToUpper addr with
  | Ok t => Ok t
  | Err e =>
      if negb (errors_Is e ErrNotBech32) then Err e
      else match ValidateBase58Address addr with
      | Ok t => Ok t
      | Err e => if negb (errors_Is e ErrNotBase58) then Err e else Err ErrUnrecognisedAddress
      end
  end.
End ValidateAddress.

Example genesis_address :
  ValidateAddress id id (bytes_of_string "1A1zP1eP5QGefi2DMPTfTL5SLmv7DivfNa") = Ok AddressP2PKH.
Proof. vm_compute. reflexivity. Qed.

Lemma Hash256_spec b : length (Hash256 b) = 32%nat ∧ bytes_ok (Hash256 b).
Proof. split; [apply length_Sum256|apply Sum256_bytes_ok]. Qed.

#[local] Opaque Hash256.

(** * Canonical digit strings *)

Fixpoint strip0 (l : list Z) : list Z :=
  match l with
  | [] => []
  | d :: l' => if d =? 0 then strip0 l' else l
  end.
(** No leading zero. *)
Definition canon (l : list Z) : Prop := match l with 0 :: _ => False | _ => True end.

Lemma strip0_canon l : canon (strip0 l).
Proof.
  induction l as [|d l IH]; simpl; [done|]. destruct (Z.eqb_spec d 0); [done|].
  by destruct d.
Qed.

Lemma leading_strip0 l : l = replicate (leading_of 0 l) 0 ++ strip0 l.
Proof.
  induction l as [|d l IH]; simpl; [done|].
  destruct (Z.eqb_spec d 0) as [->|]; simpl; [by rewrite <- IH|done].
Qed.

Lemma leading_zeros k l : canon l → leading_of 0 (replicate k 0 ++ l) = k.
Proof.
  intros Hc. induction k as [|k IH]; simpl; [|by rewrite IH].
  destruct l as [|d l]; [done|]. simpl. destruct (Z.eqb_spec d 0) as [->|]; done.
Qed.

Lemma strip0_ok B l : digits_ok B l → digits_ok B (strip0 l).
Proof. intros H. rewrite (leading_strip0 l) in H. by apply Forall_app in H as [_ ?]. Qed.

Lemma of_digits_strip0 B l : of_digits B (strip0 l) = of_digits B l.
Proof. by rewrite (leading_strip0 l) at 2; rewrite of_digits_zeros. Qed.

(** A canonical string of [n] digits denotes at least [B ^ (n - 1)]. *)
Lemma canon_lower B d l :
  1 < B → canon (d :: l) → digits_ok B (d :: l) →
  B ^ Z.of_nat (length l) ≤ of_digits B (d :: l).
Proof.
  intros HB Hc [Hd Hl]%Forall_cons. change (d :: l) with ([d] ++ l).
  rewrite of_digits_app. unfold of_digits at 1. cbn [foldl].
  pose proof (of_digits_range B l ltac:(lia) Hl).
  assert (d ≠ 0) by (intros ->; done).
  assert (0 < B ^ Z.of_nat (length l)) by (apply Z.pow_pos_nonneg; lia). nia.
Qed.

Lemma canon_length_le B l1 l2 :
  1 < B → canon l1 → digits_ok B l1 → digits_ok B l2 →
  of_digits B l1 = of_digits B l2 → (length l1 ≤ length l2)%nat.
Proof.
  intros HB Hc H1 H2 He. destruct l1 as [|d l1]; [simpl; lia|].
  pose proof (canon_lower B d l1 HB Hc H1) as Hlo.
  pose proof (of_digits_range B l2 ltac:(lia) H2) as Hr. cbn [length].
  destruct (decide (S (length l1) ≤ length l2)%nat) as [|Hn]; [done|].
  assert (B ^ Z.of_nat (length l2) ≤ B ^ Z.of_nat (length l1)) by (apply Z.pow_le_mono_r; lia).
  lia.
Qed.

Lemma canon_inj B l1 l2 :
  1 < B → canon l1 → canon l2 → digits_ok B l1 → digits_ok B l2 →
  of_digits B l1 = of_digits B l2 → l1 = l2.
Proof.
  intros HB C1 C2 H1 H2 He. apply (of_digits_inj B); auto.
  pose proof (canon_length_le B l1 l2 HB C1 H1 H2 He).
  pose proof (canon_length_le B l2 l1 HB C2 H2 H1 (eq_sym He)). lia.
Qed.

Lemma be_Z_of_digits b : be_Z b = of_digits 256 b.
Proof.
  unfold be_Z, of_digits. generalize 0. induction b as [|x b IH]; intros a; simpl; [done|].
  rewrite IH. f_equal. lia.
Qed.

Lemma big_Bytes_canon v : 0 ≤ v → canon (big_Bytes v) ∧ of_digits 256 (big_Bytes v) = v.
Proof.
  intros Hv. assert (of_digits 256 (big_Bytes v) = v) as Hval
    by (rewrite <- be_Z_of_digits; by apply le_Z_big_Bytes).
  split; [|done]. destruct (decide (v = 0)) as [->|]; [done|].
  destruct (big_len_spec v) as (H1 & H2 & _); [lia|].
  pose proof (length_big_Bytes v) as Hl. pose proof (big_Bytes_ok v) as Hok.
  destruct (big_Bytes v) as [|d l]; [done|]. destruct d; try done. exfalso.
  apply Forall_cons in Hok as [_ Hok]. rewrite <- Hl in H2. cbn [length] in H2.
  replace (Z.of_nat (S (length l)) - 1) with (Z.of_nat (length l)) in H2 by lia.
  pose proof (of_digits_zeros 256 1 l) as Hz. cbn [replicate app] in Hz.
  rewrite Hval in Hz. pose proof (of_digits_range 256 l ltac:(lia) Hok). lia.
Qed.

(** * The reference Base58 encoder *)

Definition b58char (v : Z) : Z := nth (Z.to_nat v) base58Alphabet 0.
(** Two base-58 digits per byte are enough. *)
Definition b58_digits (raw : list Z) : list Z :=
  replicate (leading_of 0 raw) 0 ++
  strip0 (to_digits 58 (2 * length raw) (of_digits 256 raw)).
Definition b58_encode (raw : list Z) : list Z := map b58char (b58_digits raw).

(** Base58Check: version byte, hash160, four bytes of the double hash. *)
Definition b58check (version : Z) (h160 : list Z) : list Z :=
  let payload := version :: h160 in b58_encode (payload ++ take 4 (Hash256 payload)).

Lemma IndexByte_b58char v : 0 ≤ v < 58 → IndexByte base58Alphabet (b58char v) = Some (Z.to_nat v).
Proof.
  intros Hv. pose proof (forallb_words 58
    (λ v, bool_decide (IndexByte base58Alphabet (b58char v) = Some (Z.to_nat v)))
    ltac:(vm_compute; done) v Hv) as H. cbv beta in H. by apply bool_decide_eq_true in H.
Qed.

Lemma b58char_one v : 0 ≤ v < 58 → (b58char v =? 49) = (v =? 0).
Proof.
  intros Hv. pose proof (forallb_words 58 (λ v, Bool.eqb (b58char v =? 49) (v =? 0))
    ltac:(vm_compute; done) v Hv) as H. cbv beta in H. by apply eqb_prop in H.
Qed.

Lemma b58char_inj v w : 0 ≤ v < 58 → 0 ≤ w < 58 → b58char v = b58char w → v = w.
Proof.
  intros Hv Hw H. pose proof (IndexByte_b58char v Hv) as E.
  rewrite H, IndexByte_b58char in E by done. injection E. lia.
Qed.

Lemma map_b58char_inj d1 d2 :
  digits_ok 58 d1 → digits_ok 58 d2 → map b58char d1 = map b58char d2 → d1 = d2.
Proof.
  intros H1. revert d2. induction H1 as [|v d1 Hv _ IH]; intros [|w d2] H2 H; try done.
  apply Forall_cons in H2 as [Hw H2]. cbn [map] in H. injection H as Hs H.
  f_equal; [by apply b58char_inj|by apply IH].
Qed.

Lemma base58_value_spec s n v :
  base58_value s n = Ok v ↔
  ∃ ds, digits_ok 58 ds ∧ s = map b58char ds ∧
    v = n * 58 ^ Z.of_nat (length ds) + of_digits 58 ds.
Proof.
  revert n. induction s as [|r s IH]; intros n; cbn [base58_value].
  - split.
    + intros <-%Ok_inj. exists []. split; [done|]. split; [done|]. cbn. lia.
    + intros (ds & _ & Hs & ->). destruct ds; [|done]. f_equal. cbn. lia.
  - assert (∀ d ds, n * 58 ^ Z.of_nat (length (d :: ds)) + of_digits 58 (d :: ds) =
      (n * 58 + d) * 58 ^ Z.of_nat (length ds) + of_digits 58 ds) as Hc.
    { intros d ds. change (d :: ds) with ([d] ++ ds). rewrite of_digits_app, length_app.
      unfold of_digits at 1. cbn [length foldl].
      rewrite Nat2Z.inj_add, Z.pow_add_r by lia. change (58 ^ Z.of_nat 1) with 58. ring. }
    destruct (IndexByte base58Alphabet r) as [i|] eqn:E.
    + pose proof (IndexByte_Some _ _ _ E) as Hi.
      assert (i < 58)%nat as Hlt by (by apply lookup_lt_Some in Hi).
      assert (b58char (Z.of_nat i) = r) as Hr
        by (unfold b58char; rewrite Nat2Z.id; by apply nth_lookup_Some).
      rewrite IH. split.
      * intros (ds & Hd & -> & ->). exists (Z.of_nat i :: ds).
        split; [constructor; [lia|done]|]. rewrite Hc. cbn [map]. by rewrite Hr.
      * intros (ds & Hd & Hs & ->). destruct ds as [|d ds]; [done|]. cbn [map] in Hs.
        injection Hs as Hs1 Hs2. apply Forall_cons in Hd as [Hd1 Hd].
        exists ds. split; [done|]. split; [done|]. rewrite Hc.
        rewrite Hs1, IndexByte_b58char in E by done. injection E as <-.
        by rewrite Z2Nat.id by lia.
    + split; [done|]. intros (ds & Hd & Hs & _). destruct ds as [|d ds]; [done|].
      cbn [map] in Hs. injection Hs as -> _. apply Forall_cons in Hd as [Hd _].
      by rewrite IndexByte_b58char in E.
Qed.

Lemma leading_b58char ds : digits_ok 58 ds → leading_of 49 (map b58char ds) = leading_of 0 ds.
Proof.
  induction 1 as [|d ds Hd _ IH]; [done|]. cbn [map leading_of].
  rewrite b58char_one by done. by rewrite IH.
Qed.

(** The stripped digits of a number, whatever width they are computed at. *)
Lemma strip0_to_digits raw :
  bytes_ok raw →
  let l := strip0 (to_digits 58 (2 * length raw) (of_digits 256 raw)) in
  canon l ∧ digits_ok 58 l ∧ of_digits 58 l = of_digits 256 raw.
Proof.
  intros Hr l. split; [apply strip0_canon|]. split; [by apply strip0_ok, to_digits_ok|].
  unfold l. rewrite of_digits_strip0. apply of_to_digits; [lia|].
  pose proof (of_digits_range 256 raw ltac:(lia) Hr) as Hv. split; [lia|].
  eapply Z.lt_le_trans; [apply Hv|]. rewrite Nat2Z.inj_mul, Z.pow_mul_r by lia.
  apply Z.pow_le_mono_l. cbn. lia.
Qed.

(** Decoding is exactly the inverse of encoding. *)
Lemma base58Decode_spec s raw :
  base58Decode s = Ok raw ↔ bytes_ok raw ∧ s = b58_encode raw.
Proof.
  unfold base58Decode, b58_encode, b58_digits. split.
  - destruct (base58_value s 0) as [v|] eqn:E; [|done]. intros <-%Ok_inj.
    apply base58_value_spec in E as (ds & Hd & -> & ->).
    rewrite Z.mul_0_l, Z.add_0_l, leading_b58char by done.
    pose proof (of_digits_range 58 ds ltac:(lia) Hd) as Hr.
    destruct (big_Bytes_canon (of_digits 58 ds)) as [Cb Vb]; [lia|].
    set (k := leading_of 0 ds). set (raw := replicate k 0 ++ big_Bytes (of_digits 58 ds)).
    assert (bytes_ok raw) as Hraw.
    { apply Forall_app. split; [apply Forall_replicate; by unfold byte_ok|apply big_Bytes_ok]. }
    split; [done|]. f_equal. unfold raw at 1. rewrite leading_zeros by done.
    rewrite (leading_strip0 ds) at 1. f_equal.
    destruct (strip0_to_digits raw Hraw) as (C & D & V).
    apply (canon_inj 58); auto using strip0_canon, strip0_ok; [lia|].
    rewrite V, of_digits_strip0. unfold raw. by rewrite of_digits_zeros.
  - intros [Hraw ->]. destruct (strip0_to_digits raw Hraw) as (C & D & V).
    set (l := strip0 (to_digits _ _ _)) in *. set (k := leading_of 0 raw).
    assert (digits_ok 58 (replicate k 0 ++ l)) as Hds
      by (apply Forall_app; split; [apply Forall_replicate; lia|done]).
    assert (base58_value (map b58char (replicate k 0 ++ l)) 0 = Ok (of_digits 256 raw)) as ->.
    { apply base58_value_spec. exists (replicate k 0 ++ l). split; [done|]. split; [done|].
      rewrite of_digits_zeros. lia. }
    cbn [mbind result_bind]. f_equal. rewrite leading_b58char, leading_zeros by done.
    transitivity (replicate k 0 ++ strip0 raw); [f_equal|symmetry; apply leading_strip0].
    pose proof (of_digits_range 256 raw ltac:(lia) Hraw) as Hr.
    destruct (big_Bytes_canon (of_digits 256 raw)) as [Cb Vb]; [lia|].
    apply (canon_inj 256); auto using strip0_canon, big_Bytes_ok; [lia| |].
    + apply (strip0_ok 256). done.
    + by rewrite of_digits_strip0.
Qed.

(** * What the validators accept *)

Definition b58_raw (version : Z) (h160 : list Z) : list Z :=
  (version :: h160) ++ take 4 (Hash256 (version :: h160)).

Lemma b58_raw_spec version h160 :
  byte_ok version → bytes_ok h160 → length h160 = 20%nat →
  bytes_ok (b58_raw version h160) ∧ length (b58_raw version h160) = 25%nat.
Proof.
  intros Hv Hh Hl. destruct (Hash256_spec (version :: h160)) as [L O]. unfold b58_raw. split.
  - apply Forall_app. split; [by constructor|]. by apply Forall_take.
  - rewrite length_app, length_take. rewrite L. cbn [length]. rewrite Hl. done.
Qed.

(** The leading character: ['1'] for version 0, ['3'] for version 5. *)
Lemma b58check_head version h160 :
  version = 0 ∨ version = 5 → bytes_ok h160 → length h160 = 20%nat →
  ∃ rest, b58check version h160 = (if version =? 0 then 49 else 51) :: rest.
Proof.
  intros Hv Hh Hl. unfold b58check. fold (b58_raw version h160).
  destruct (b58_raw_spec version h160) as [Hok Hlen]; [by destruct Hv as [-> | ->]|done..|].
  unfold b58_encode, b58_digits. set (raw := b58_raw version h160) in *.
  destruct Hv as [-> | ->].
  { unfold raw, b58_raw. cbn [leading_of app Z.eqb]. eexists. reflexivity. }
  assert (leading_of 0 raw = 0%nat) as -> by reflexivity. cbn [replicate app].
  destruct (strip0_to_digits raw Hok) as (C & D & V). set (l := strip0 _) in *.
  assert (5 * 256 ^ 24 ≤ of_digits 256 raw < 6 * 256 ^ 24) as Hr.
  { unfold raw, b58_raw. cbn [app]. set (tl := h160 ++ _).
    assert (length tl = 24%nat) as Htl by (by injection Hlen).
    assert (bytes_ok tl) as Hto by (change raw with (5 :: tl) in Hok; by apply Forall_cons in Hok as [_ ?]).
    change (5 :: tl) with ([5] ++ tl). rewrite of_digits_app, Htl.
    pose proof (of_digits_range 256 tl ltac:(lia) Hto) as Ht. rewrite Htl in Ht.
    change (Z.of_nat 24) with 24 in *. unfold of_digits at 1 3. cbn [foldl]. lia. }
  rewrite <- V in Hr.
  assert (length l = 34%nat) as Hl34.
  { destruct l as [|d l0] eqn:El; [cbn in Hr; lia|].
    pose proof (canon_lower 58 d l0 ltac:(lia) C D) as Hlo.
    pose proof (of_digits_range 58 (d :: l0) ltac:(lia) D) as Hup. cbn [length] in *.
    destruct (Nat.lt_total (length l0) 33) as [H|[H|H]]; [|lia|].
    - assert (58 ^ Z.of_nat (S (length l0)) ≤ 58 ^ 33) by (apply Z.pow_le_mono_r; lia).
      assert (58 ^ 33 < 5 * 256 ^ 24) by (vm_compute; reflexivity). lia.
    - assert (58 ^ 34 ≤ 58 ^ Z.of_nat (length l0)) by (apply Z.pow_le_mono_r; lia).
      assert (6 * 256 ^ 24 < 58 ^ 34) by (vm_compute; reflexivity). lia. }
  destruct l as [|d l0] eqn:El; [done|]. cbn [length] in Hl34.
  assert (d = 2) as ->; [|eexists; reflexivity].
  apply Forall_cons in D as [Dd D0]. change (d :: l0) with ([d] ++ l0) in Hr.
  rewrite of_digits_app in Hr. unfold of_digits at 1 3 in Hr. cbn [foldl] in Hr.
  pose proof (of_digits_range 58 l0 ltac:(lia) D0) as Hr0.
  assert (length l0 = 33%nat) as H33 by lia. rewrite H33 in *.
  change (Z.of_nat 33) with 33 in *.
  assert (2 * 58 ^ 33 ≤ 5 * 256 ^ 24 ∧ 6 * 256 ^ 24 ≤ 3 * 58 ^ 33) as [Hb1 Hb2]
    by (split; apply Z.leb_le; vm_compute; reflexivity).
  set (P := 58 ^ 33) in *. set (Q := 256 ^ 24) in *.
  assert (0 < P) by (unfold P; lia). nia.
Qed.

Definition b58_type (version : Z) : option AddressType :=
  if version =? 0 then Some AddressP2PKH
  else if version =? 5 then Some AddressP2SH else None.

Lemma ValidateBase58Address_spec addr t :
  ValidateBase58Address addr = Ok t ↔
  ∃ version h160, b58_type version = Some t ∧ bytes_ok h160 ∧ length h160 = 20%nat ∧
    addr = b58check version h160.
Proof.
  unfold ValidateBase58Address. split.
  - destruct (_ || _); [done|].
    destruct (base58Decode addr) as [raw|] eqn:E; [|done]. cbn [wrapping mbind result_bind].
    apply base58Decode_spec in E as [Hok ->].
    destruct (Nat.eqb_spec (length raw) 25) as [Hl|]; [|done]. cbn [negb]. cbv zeta.
    case_bool_decide as Hs; [|done]. cbn [negb]. intros Ht.
    destruct raw as [|v raw]; [discriminate Hl|]. cbn [take drop nth] in *.
    set (h := take 20 raw) in *. exists v, h. apply Forall_cons in Hok as [Hv Hraw].
    assert (length h = 20%nat) as Hh
      by (unfold h; rewrite length_take; cbn [length] in Hl; lia).
    split; [unfold b58_type; by repeat case_match; simplify_eq|].
    split; [by apply Forall_take|]. split; [done|].
    unfold b58check. cbv zeta. rewrite Hs. cbn [app]. unfold h. by rewrite take_drop.
  - intros (v & h & Ht & Hh & Hl & ->).
    assert (v = 0 ∨ v = 5) as Hv by (unfold b58_type in Ht; repeat case_match; simplify_eq; lia).
    destruct (b58check_head v h Hv Hh Hl) as (rest & Hhead).
    assert (HasPrefix (b58check v h) (bytes_of_string "bc1") = false ∧
            HasPrefix (b58check v h) (bytes_of_string "BC1") = false ∧
            bool_decide (b58check v h = []) = false ∧
            HasPrefix (b58check v h) (bytes_of_string "1") = (v =? 0) ∧
            HasPrefix (b58check v h) (bytes_of_string "3") = negb (v =? 0))
      as (-> & -> & -> & -> & ->).
    { rewrite Hhead. by destruct Hv as [-> | ->]; simpl. }
    rewrite negb_involutive. assert (negb (v =? 0) && (v =? 0) = false) as -> by lia.
    cbn [orb]. destruct (b58_raw_spec v h) as [Hok Hlen]; [by destruct Hv as [-> | ->]|done..|].
    assert (base58Decode (b58check v h) = Ok (b58_raw v h)) as ->
      by (by apply base58Decode_spec).
    cbn [wrapping mbind result_bind]. rewrite Hlen. cbn [Nat.eqb negb]. cbv zeta.
    assert (take 21 (b58_raw v h) = v :: h) as ->
      by (unfold b58_raw; apply take_app_exact; cbn; by rewrite Hl).
    assert (drop 21 (b58_raw v h) = take 4 (Hash256 (v :: h))) as ->
      by (unfold b58_raw; apply drop_app_exact; cbn; by rewrite Hl).
    rewrite bool_decide_true by done. cbn [negb nth]. unfold b58_type in Ht.
    destruct (v =? 0); [congruence|]. destruct (v =? 5); congruence.
Qed.

Lemma ValidateBase58Address_prefix addr t :
  ValidateBase58Address addr = Ok t → ∃ c rest, addr = c :: rest ∧ (c = 49 ∨ c = 51).
Proof.
  intros H. apply ValidateBase58Address_spec in H as (v & h & Ht & Hh & Hl & ->).
  assert (v = 0 ∨ v = 5) as Hv by (unfold b58_type in Ht; repeat case_match; simplify_eq; lia).
  destruct (b58check_head v h Hv Hh Hl) as (rest & ->). eexists _, _. split; [done|].
  destruct (v =? 0); auto.
Qed.

Lemma ValidateAddress_spec lo up addr t :
  ValidateAddress lo up addr = Ok t ↔
  ValidateBech32Address lo up addr = Ok t ∨ ValidateBase58Address addr = Ok t.
Proof.
  unfold ValidateAddress. split.
  - destruct (ValidateBech32Address lo up addr) as [t'|e]; [by left|].
    destruct (errors_Is e ErrNotBech32); [|done]. cbn [negb].
    destruct (ValidateBase58Address addr) as [t'|e']; [by right|].
    destruct (errors_Is e' ErrNotBase58); done.
  - intros [-> | H]; [done|].
    destruct (ValidateBase58Address_prefix _ _ H) as (c & rest & -> & Hc).
    assert (ValidateBech32Address lo up (c :: rest) = Err ErrNotBech32) as ->
      by (by destruct Hc as [-> | ->]).
    cbn. by rewrite H.
Qed.

(** Legacy addresses: an address validates as P2PKH (P2SH) if and only if
    it is the Base58Check encoding of version byte 0 (5) and a 20-byte hash,
    and no two (version, hash) pairs share an address. *)
Theorem ValidateBase58Address_exact addr t :
  ValidateBase58Address addr = Ok t ↔
  ∃ version h160, b58_type version = Some t ∧ bytes_ok h160 ∧ length h160 = 20%nat ∧
    addr = b58check version h160 ∧
    ∀ v' h', byte_ok v' → bytes_ok h' → length h' = 20%nat → addr = b58check v' h' →
      v' = version ∧ h' = h160.
Proof.
  rewrite ValidateBase58Address_spec. split; [|naive_solver].
  intros (v & h & Ht & Hh & Hl & Ha). exists v, h. repeat (split; [done|]).
  intros v' h' Hv' Hh' Hl' Ha'.
  assert (byte_ok v) as Hv by (unfold b58_type in Ht; repeat case_match; simplify_eq; unfold byte_ok; lia).
  destruct (b58_raw_spec v h Hv Hh Hl) as [O1 _], (b58_raw_spec v' h' Hv' Hh' Hl') as [O2 _].
  assert (Ok (b58_raw v h) = Ok (b58_raw v' h')) as E%Ok_inj.
  { transitivity (base58Decode addr); [symmetry|]; by apply base58Decode_spec. }
  unfold b58_raw in E. apply app_inj_1 in E as [[= -> ->] _]; [done|]. cbn. lia.
Qed.

Lemma init_lookup r :
  init = Ok r →
  r !! "ecdsa-secp256k1" = Some {| Scheme_Name := "ecdsa-secp256k1" |} ∧
  r !! "schnorr-secp256k1" = Some {| Scheme_Name := "schnorr-secp256k1" |}.
Proof.
  pose (s1 := {| Scheme_Name := "ecdsa-secp256k1" |}).
  pose (s2 := {| Scheme_Name := "schnorr-secp256k1" |}).
  assert (∀ s (m : registry), m !! Scheme_Name s = None →
    Register s m = Ok (<[Scheme_Name s := s]> m)) as Hreg
    by (intros s m E; unfold Register; by rewrite E).
  unfold init. rewrite (Hreg s1) by apply lookup_empty. cbn [mbind result_bind].
  rewrite (Hreg s2).
  - intros <-%Ok_inj. split; [|apply lookup_insert_eq].
    rewrite lookup_insert_ne by done. apply lookup_insert_eq.
  - by rewrite lookup_insert_ne.
Qed.

(** The prefix classifier agrees with the validator: a lower-case address
    that validates is classified as the type it validates as, and a registered
    signature scheme exists for that type. *)
Theorem ClassifyAddress_agrees lo up addr t r :
  ValidateAddress lo up addr = Ok t → addr = ToLower lo addr ∨ ValidateBase58Address addr = Ok t →
  init = Ok r →
  ClassifyAddress addr = t ∧ is_ok (SchemeForAddressType r t) = true.
Proof.
  intros H Hcase Hr. assert (∀ t, t ≠ AddressUnknown → t ≠ AddressP2MR →
    is_ok (SchemeForAddressType r t) = true) as Hs.
  { destruct (init_lookup r Hr) as [He Hsc]. intros []; try done; intros _ _;
      unfold SchemeForAddressType, Lookup; by rewrite ?He, ?Hsc. }
  apply ValidateAddress_spec in H as [H|H].
  - destruct Hcase as [Hlow|Hb].
    2: { destruct (ValidateBase58Address_prefix _ _ Hb) as (c & rest & -> & Hc).
      by destruct Hc as [-> | ->]. }
    apply Validate_spec in H as (_ & v & p & Hp & Ht & Ha). rewrite <- Hlow in Ha.
    destruct (witness_type_bounds _ _ _ Ht) as [_ Hn].
    destruct (program_symbols p Hp Hn) as (d5 & E & Hd5 & Hl5).
    destruct (convertBits_encode p Hp) as (d & E' & _ & k & Hk & Hkl & _).
    rewrite E in E'. apply Ok_inj in E' as <-.
    unfold bech32_encode in Ha. rewrite E in Ha. cbv zeta in Ha.
    assert (length addr = length d5 + 10)%nat as Hlen.
    { rewrite Ha, length_app, length_map, length_app, (proj2 (bech32_checksum_ok v _)).
      cbn [length bytes_of_string]. lia. }
    assert (ClassifyAddress addr =
      if v =? 1 then AddressP2TR else if (60 <=? length addr)%nat then AddressP2WSH else AddressP2WPKH)
      as ->.
    { unfold ClassifyAddress. destruct (witness_type_bounds _ _ _ Ht) as [[-> | ->] _];
        rewrite Ha; unfold HasPrefix; cbn -[bech32_checksum symbol]; done. }
    assert ((length p = 20 ∧ length d5 = 32) ∨ (length p = 32 ∧ length d5 = 52))%nat as Hd by lia.
    destruct (witness_type_bounds _ _ _ Ht) as [Hv _]. rewrite Hlen.
    destruct Hd as [[Hn' ->]|[Hn' ->]], Hv as [-> | ->]; rewrite Hn' in Ht; cbn in Ht;
      simplify_eq; (split; [done|by apply Hs]).
  - destruct (ValidateBase58Address_prefix _ _ H) as (c & rest & Ha & Hc).
    apply ValidateBase58Address_spec in H as (v & h & Ht & Hh & Hl & Hv).
    assert (v = 0 ∨ v = 5) as Hvv by (unfold b58_type in Ht; repeat case_match; simplify_eq; lia).
    destruct (b58check_head v h Hvv Hh Hl) as (rest' & Hhead). rewrite <- Hv, Ha in Hhead.
    injection Hhead as Hc' _. rewrite Ha.
    destruct Hvv as [-> | ->]; cbn in Ht, Hc'; injection Ht as <-; rewrite Hc'; split; try done; by apply Hs.
Qed.

Lemma ClassifyAddress_agrees_witness :
  ClassifyAddress vec_lower = AddressP2WPKH ∧
  ClassifyAddress (bytes_of_string "1A1zP1eP5QGefi2DMPTfTL5SLmv7DivfNa") = AddressP2PKH.
Proof.
  destruct init as [r|] eqn:Hr; [|discriminate Hr].
  destruct (ClassifyAddress_agrees id id vec_lower AddressP2WPKH r) as [H1 _];
    [vm_compute; reflexivity|left; vm_compute; reflexivity|exact Hr|].
  destruct (ClassifyAddress_agrees id id (bytes_of_string "1A1zP1eP5QGefi2DMPTfTL5SLmv7DivfNa")
    AddressP2PKH r) as [H2 _];
    [vm_compute; reflexivity|right; vm_compute; reflexivity|exact Hr|].
  exact (conj H1 H2).
Defined.
