(* ===== verification/Script.v ===== *)
(** * internal/btccrypto/script.go

    The locking script of an address, and the check that a coinbase
    transaction pays it.  Offsets are Go [int]s; the lengths read from the
    transaction are compared with what is left before they are used. *)
From S2P Require Import Prelude.
From S2P Require Import Bech32.
From S2P Require Import Base58.

Open Scope Z_scope.

Section ScriptForAddress.
Context (unicodeToLower unicodeToUpper : list Z → list Z).

Definition ScriptForAddress (addr : list Z) : result (list Z) :=
  typ ← ValidateAddress unicodeToLower unicodeToUpper addr;
  match decodeBech32String unicodeToLower unicodeToUpper addr with
  | Ok data =>
      let version := nth 0 data 0 in
      program ← convertBits (slice 1 (length data - 6) data) 5 8 false;
      let op := if 0 <? version then wrap 8 (0x50 + wrap 8 version) else 0x00 in
      Ok ([op; wrap 8 (Z.of_nat (length program))] ++ map (wrap 8) program)
  | Err _ =>
      raw ← base58Decode addr;
      let h := slice 1 21 raw in
      match typ with
      | AddressP2PKH => Ok ([0x76; 0xa9; 0x14] ++ h ++ [0x88; 0xac])
      | AddressP2SH => Ok ([0xa9; 0x14] ++ h ++ [0x87])
      | _ => Err (Errorf "btccrypto: no standard locking script for address type %s"
                    (bytes_of_string (AddressType_String typ)))
      end
  end.
End ScriptForAddress.

(** [readCompactSize(b, &off)]: the value and the advanced offset. *)
Definition readCompactSize (b : list Z) (off : nat) : result (Z * nat) :=
  let out_of_range := Err (Errorf "btccrypto: varint out of range" []) in
  if (length b <=? off)%nat then out_of_range
  else
    let b0 := nth off b 0 in
    if b0 =? 0xfd then
      if (length b <? off + 3)%nat then out_of_range
      else Ok (Z.lor (nth (off + 1) b 0) (Z.shiftl (nth (off + 2) b 0) 8), (off + 3)%nat)
    else if b0 =? 0xfe then
      if (length b <? off + 5)%nat then out_of_range
      else Ok (Z.lor (Z.lor (Z.lor (nth (off + 1) b 0) (Z.shiftl (nth (off + 2) b 0) 8))
                            (Z.shiftl (nth (off + 3) b 0) 16))
                     (Z.shiftl (nth (off + 4) b 0) 24), (off + 5)%nat)
    else if b0 =? 0xff then
      if (length b <? off + 9)%nat then out_of_range
      else Ok (foldl (λ v i, Z.lor v (Z.shiftl (nth (off + 1 + i) b 0) (8 * Z.of_nat i)))
                 0 (seq 0 8), (off + 9)%nat)
    else Ok (b0, (off + 1)%nat).

(** The loop over the inputs: skip outpoint, scriptSig and sequence. *)
Fixpoint skipInputs (fuel : nat) (tx : list Z) (vin : Z) (off : nat) : result nat :=
  if vin <=? 0 then Ok off
  else match fuel with
  | O => Err Diverges
  | S fuel =>
      let bad := Err (Errorf "btccrypto: bad scriptSig length" []) in
      match readCompactSize tx (off + 36) with
      | Err _ => bad
      | Ok (sl, off) =>
          if Z.of_nat (length tx) - Z.of_nat off <? sl then bad
          else skipInputs fuel tx (vin - 1) (off + Z.to_nat sl + 4)
      end
  end.

(** The loop over the outputs. *)
Fixpoint scanOutputs (fuel : nat) (tx script : list Z) (vout : Z) (off : nat) : result bool :=
  if vout <=? 0 then Ok false
  else match fuel with
  | O => Err Diverges
  | S fuel =>
      let bad := Err (Errorf "btccrypto: bad output script length" []) in
      match readCompactSize tx (off + 8) with
      | Err _ => bad
      | Ok (pkLen, off) =>
          if Z.of_nat (length tx) - Z.of_nat off <? pkLen then bad
          else if bool_decide (slice off (off + Z.to_nat pkLen) tx = script) then Ok true
          else scanOutputs fuel tx script (vout - 1) (off + Z.to_nat pkLen)
      end
  end.

Definition CoinbasePaysScript (tx script : list Z) : result bool :=
  if (length tx <? 10)%nat
  then Err (Errorf "btccrypto: coinbase too short (%d bytes)" [Z.of_nat (length tx)])
  else
    let off := if (nth 4 tx 0 =? 0) && (nth 5 tx 0 =? 1) then 6%nat else 4%nat in
    match readCompactSize tx off with
    | Err _ => Err (Errorf "btccrypto: bad coinbase input count" [])
    | Ok (vin, off) =>
        if vin =? 0 then Err (Errorf "btccrypto: bad coinbase input count" [])
        else
          off ← skipInputs (S (length tx)) tx vin off;
          if (length tx <=? off)%nat
          then Err (Errorf "btccrypto: truncated coinbase inputs" [])
          else match readCompactSize tx off with
          | Err _ => Err (Errorf "btccrypto: bad coinbase output count" [])
          | Ok (vout, off) => scanOutputs (S (length tx)) tx script vout off
          end
    end.

(** * Locking scripts *)

(** Who an address pays. *)
Inductive payee :=
  | PayWitness (version : Z) (program : list Z)
  | PayPubKeyHash (h160 : list Z)
  | PayScriptHash (h160 : list Z).

Definition payee_ok (p : payee) : Prop :=
  match p with
  | PayWitness v prog => bytes_ok prog ∧ is_Some (witness_type v (length prog))
  | PayPubKeyHash h | PayScriptHash h => bytes_ok h ∧ length h = 20%nat
  end.

(** The standard locking scripts, BIP-141/341 and the legacy forms. *)
Definition payee_script (p : payee) : list Z :=
  match p with
  | PayWitness v prog => (if v =? 0 then 0x00 else 0x50 + v) :: Z.of_nat (length prog) :: prog
  | PayPubKeyHash h => [0x76; 0xa9; 0x14] ++ h ++ [0x88; 0xac]
  | PayScriptHash h => [0xa9; 0x14] ++ h ++ [0x87]
  end.

Definition address_of (lo up : list Z → list Z) (addr : list Z) (p : payee) : Prop :=
  match p with
  | PayWitness v prog => surface_ok lo up addr ∧ ToLower lo addr = bech32_encode v prog
  | PayPubKeyHash h => addr = b58check 0 h
  | PayScriptHash h => addr = b58check 5 h
  end.

Lemma map_wrap8 l : bytes_ok l → map (wrap 8) l = l.
Proof. induction 1 as [|b l Hb _ IH]; [done|]. cbn [map]. by rewrite IH, wrap_small. Qed.

Lemma ScriptForAddress_witness lo up addr v prog :
  payee_ok (PayWitness v prog) → address_of lo up addr (PayWitness v prog) →
  ScriptForAddress lo up addr = Ok (payee_script (PayWitness v prog)).
Proof.
  intros [Hp [t Ht]] [Hs Ha]. destruct (witness_type_bounds _ _ _ Ht) as [Hv Hn].
  assert (ValidateAddress lo up addr = Ok t) as Hval.
  { apply ValidateAddress_spec. left. apply Validate_spec. eauto 10. }
  destruct (encode_symbols _ _ _ Hp Ht) as (d5 & E & D & Sv & B).
  destruct (program_symbols prog Hp Hn) as (d5' & E' & _ & Hl5).
  rewrite E in E'. apply Ok_inj in E' as <-.
  destruct (bech32_checksum_ok v (v :: d5)) as [Cok Cl].
  set (cs := bech32_checksum v (v :: d5)) in *.
  assert (length ((v :: d5) ++ cs) = S (length d5) + 6)%nat as Hlen
    by (rewrite length_app, Cl; done).
  assert (decodeBech32String lo up addr = Ok ((v :: d5) ++ cs)) as Hdec.
  { apply decodeBech32String_spec. split; [done|]. rewrite Ha, B, length_app, length_map, Hlen.
    change (length (bytes_of_string "bc1")) with 3%nat. split; [lia|]. split; [lia|].
    split; [|done]. apply Forall_app. split; [by constructor|done]. }
  unfold ScriptForAddress. rewrite Hval, Hdec. cbn [mbind result_bind].
  replace (slice 1 (length ((v :: d5) ++ cs) - 6) ((v :: d5) ++ cs)) with d5.
  2: { rewrite Hlen. unfold slice. cbn [app drop].
    symmetry. apply take_app_exact. lia. }
  rewrite (proj2 (convertBits_inverse d5 prog D)) by done. cbn [mbind result_bind app nth].
  rewrite map_wrap8, (wrap_small 8 (Z.of_nat _)) by (done || word_lia).
  f_equal. unfold payee_script. f_equal.
  destruct Hv as [-> | ->]; reflexivity.
Qed.

Lemma ScriptForAddress_legacy lo up addr p :
  payee_ok p → address_of lo up addr p → (∀ v prog, p ≠ PayWitness v prog) →
  ScriptForAddress lo up addr = Ok (payee_script p).
Proof.
  intros Hp Ha Hw.
  assert (∃ ver h t, b58_type ver = Some t ∧ bytes_ok h ∧ length h = 20%nat ∧ byte_ok ver ∧
    addr = b58check ver h ∧
    payee_script p = match t with
      | AddressP2PKH => [0x76; 0xa9; 0x14] ++ h ++ [0x88; 0xac]
      | _ => [0xa9; 0x14] ++ h ++ [0x87] end ∧ (t = AddressP2PKH ∨ t = AddressP2SH))
    as (ver & h & t & Ht & Hh & Hl & Hv & Haddr & Hscr & Htt).
  { destruct p as [v prog|h|h]; [by destruct (Hw v prog)|..]; destruct Hp as [Hh Hl].
    - exists 0, h, AddressP2PKH. unfold byte_ok. auto 10 with lia.
    - exists 5, h, AddressP2SH. unfold byte_ok. auto 10 with lia. }
  assert (ValidateBase58Address addr = Ok t) as Hb
    by (apply ValidateBase58Address_spec; eauto 10).
  assert (ValidateAddress lo up addr = Ok t) as Hval by (apply ValidateAddress_spec; auto).
  destruct (ValidateBase58Address_prefix _ _ Hb) as (c & rest & Hc & Hcc).
  assert (decodeBech32String lo up addr = Err ErrNotBech32) as Hdec
    by (rewrite Hc; by destruct Hcc as [-> | ->]).
  destruct (b58_raw_spec ver h Hv Hh Hl) as [Hok Hlen].
  assert (base58Decode addr = Ok (b58_raw ver h)) as Hraw by (by apply base58Decode_spec).
  unfold ScriptForAddress. rewrite Hval, Hdec, Hraw. cbn [mbind result_bind].
  assert (slice 1 21 (b58_raw ver h) = h) as ->.
  { unfold slice, b58_raw. cbn [app drop Nat.sub]. by apply take_app_exact. }
  rewrite Hscr. by destruct Htt as [-> | ->].
Qed.

(** The locking script.  An address has a script if and only if it is the
    address of a payee (a witness program of a supported type, a key hash or a
    script hash), and the script is that payee's standard output script; two
    payees never share a script, so paying the script is paying the address. *)
Theorem ScriptForAddress_exact lo up addr script :
  (ScriptForAddress lo up addr = Ok script ↔
   ∃ p, payee_ok p ∧ address_of lo up addr p ∧ script = payee_script p) ∧
  (∀ p q, payee_ok p → payee_ok q → payee_script p = payee_script q → p = q).
Proof.
  assert (∀ p, payee_ok p → address_of lo up addr p →
    ScriptForAddress lo up addr = Ok (payee_script p)) as Hfwd.
  { intros p Hp Ha. destruct p as [v prog|h|h]; [by apply ScriptForAddress_witness|..];
      by apply ScriptForAddress_legacy. }
  split; [split|].
  - intros H. destruct (ValidateAddress lo up addr) as [t|e] eqn:Hv;
      [|unfold ScriptForAddress in H; by rewrite Hv in H].
    assert (∃ p, payee_ok p ∧ address_of lo up addr p) as (p & Hp & Ha).
    { apply ValidateAddress_spec in Hv as [Hv|Hv].
      - apply Validate_spec in Hv as (Hs & v & prog & Hp & Ht & Ha).
        exists (PayWitness v prog). split; [split; [done|eauto]|done].
      - apply ValidateBase58Address_spec in Hv as (v & h & Ht & Hh & Hl & Ha).
        unfold b58_type in Ht. destruct (Z.eqb_spec v 0) as [->|]; [by exists (PayPubKeyHash h)|].
        destruct (Z.eqb_spec v 5) as [->|]; [by exists (PayScriptHash h)|done]. }
    exists p. rewrite (Hfwd p Hp Ha) in H. by apply Ok_inj in H as <-.
  - intros (p & Hp & Ha & ->). auto.
  - intros p q Hp Hq H.
    assert (∀ v n t, witness_type v n = Some t → v = 0 ∨ v = 1) as Hw
      by (intros v n t Ht; by apply witness_type_bounds in Ht as [? _]).
    destruct p as [v1 p1|h1|h1], q as [v2 p2|h2|h2]; cbn -[Z.of_nat] in Hp, Hq, H;
      destruct Hp as [Ho1 Hp], Hq as [Ho2 Hq]; try destruct Hp as [t1 Hp]; try destruct Hq as [t2 Hq];
      try (pose proof (Hw _ _ _ Hp) as [-> | ->]); try (pose proof (Hw _ _ _ Hq) as [-> | ->]);
      simplify_eq/=; try done.
    + by apply app_inv_tail in H as ->.
    + by apply app_inv_tail in H as ->.
Qed.

(** * Coinbase transactions *)

(** [bs] is a CompactSize encoding of [n], minimal or not. *)
Definition varint (bs : list Z) (n : Z) : Prop := readCompactSize bs 0 = Ok (n, length bs).

Record txin := { in_prev : list Z; in_len : list Z; in_script : list Z; in_seq : list Z }.
Record txout := { out_value : list Z; out_len : list Z; out_script : list Z }.
Record transaction := {
  tx_version : list Z;
  tx_segwit : bool;
  tx_nin : list Z; tx_ins : list txin;
  tx_nout : list Z; tx_outs : list txout;
  tx_rest : list Z;   (* witnesses and lock time *)
}.

Definition txin_ok (i : txin) : Prop :=
  length (in_prev i) = 36%nat ∧ varint (in_len i) (Z.of_nat (length (in_script i))) ∧
  length (in_seq i) = 4%nat.
Definition txout_ok (o : txout) : Prop :=
  length (out_value o) = 8%nat ∧ varint (out_len o) (Z.of_nat (length (out_script o))).
Definition transaction_ok (t : transaction) : Prop :=
  length (tx_version t) = 4%nat ∧ varint (tx_nin t) (Z.of_nat (length (tx_ins t))) ∧
  varint (tx_nout t) (Z.of_nat (length (tx_outs t))) ∧ tx_ins t ≠ [] ∧
  Forall txin_ok (tx_ins t) ∧ Forall txout_ok (tx_outs t).

Definition txin_bytes (i : txin) : list Z := in_prev i ++ in_len i ++ in_script i ++ in_seq i.
Definition txout_bytes (o : txout) : list Z := out_value o ++ out_len o ++ out_script o.
Definition serialize (t : transaction) : list Z :=
  tx_version t ++ (if tx_segwit t then [0; 1] else []) ++ tx_nin t ++
  concat (map txin_bytes (tx_ins t)) ++ tx_nout t ++
  concat (map txout_bytes (tx_outs t)) ++ tx_rest t.

(** ** Reading a CompactSize in place *)

Lemma readCompactSize_shift pre b off :
  readCompactSize (pre ++ b) (length pre + off) =
  (λ p, (p.1, (length pre + p.2)%nat)) <$> readCompactSize b off.
Proof.
  assert (∀ k, nth (length pre + off + k) (pre ++ b) 0 = nth (off + k) b 0) as Hn
    by (intros k; rewrite <- Nat.add_assoc; apply app_nth2_plus).
  assert (nth (length pre + off) (pre ++ b) 0 = nth off b 0) as Hn0 by apply app_nth2_plus.
  unfold readCompactSize. rewrite length_app, Hn0.
  assert (∀ k, (length pre + length b <? length pre + off + k)%nat = (length b <? off + k)%nat) as Hl.
  { intros k. destruct (Nat.ltb_spec (length b) (off + k)); [apply Nat.ltb_lt|apply Nat.ltb_ge]; lia. }
  rewrite !Hl, !Hn.
  replace (length pre + length b <=? length pre + off)%nat with (length b <=? off)%nat
    by (destruct (Nat.leb_spec (length b) off); symmetry; [apply Nat.leb_le|apply Nat.leb_gt]; lia).
  assert (∀ i, nth (length pre + off + 1 + i) (pre ++ b) 0 = nth (off + 1 + i) b 0) as Hn1
    by (intros i; rewrite <- (Nat.add_assoc _ 1), <- (Nat.add_assoc off 1); apply Hn).
  cbn [seq foldl]. rewrite !Hn1. rewrite <- !Nat.add_assoc. by repeat case_if.
Qed.

Lemma readCompactSize_extend bs n post :
  varint bs n → readCompactSize (bs ++ post) 0 = Ok (n, length bs).
Proof.
  unfold varint. intros H. rewrite <- H.
  destruct bs as [|b0 bs]; [done|].
  unfold readCompactSize in *. cbn [length app nth Nat.add] in *.
  cbn [Nat.leb] in *. destruct (b0 =? 253) eqn:E1.
  { destruct (_ <? 3)%nat eqn:E; [done|]. injection H as _ Hl. zbool.
    do 2 (destruct bs as [|? bs]; [cbn in Hl; lia|]). destruct bs; [|cbn in Hl; lia]. reflexivity. }
  destruct (b0 =? 254) eqn:E2.
  { destruct (_ <? 5)%nat eqn:E; [done|]. injection H as _ Hl. zbool.
    do 4 (destruct bs as [|? bs]; [cbn in Hl; lia|]). destruct bs; [|cbn in Hl; lia]. reflexivity. }
  destruct (b0 =? 255) eqn:E3; [|done].
  destruct (_ <? 9)%nat eqn:E; [done|]. injection H as _ Hl. zbool.
  do 8 (destruct bs as [|? bs]; [cbn in Hl; lia|]). destruct bs; [|cbn in Hl; lia]. reflexivity.
Qed.

Lemma readCompactSize_at pre bs n post :
  varint bs n → readCompactSize (pre ++ bs ++ post) (length pre) = Ok (n, (length pre + length bs)%nat).
Proof.
  intros H. rewrite <- (Nat.add_0_r (length pre)) at 1.
  rewrite readCompactSize_shift, (readCompactSize_extend _ _ _ H). done.
Qed.

Lemma varint_length bs n : varint bs n → (1 ≤ length bs)%nat.
Proof. unfold varint. destruct bs; [done|]. simpl. lia. Qed.

Lemma varint_head_zero bs n : varint (0 :: bs) n → n = 0.
Proof. unfold varint, readCompactSize. cbn. by intros [= <- _]. Qed.

(** ** The loops on a well-formed transaction *)

Lemma skipInputs_spec ins fuel pre post :
  Forall txin_ok ins → (length ins ≤ fuel)%nat →
  skipInputs fuel (pre ++ concat (map txin_bytes ins) ++ post) (Z.of_nat (length ins)) (length pre) =
  Ok (length pre + length (concat (map txin_bytes ins)))%nat.
Proof.
  intros H. revert fuel pre. induction H as [|i ins Hi _ IH]; intros fuel pre Hf.
  { destruct fuel; cbn; f_equal; lia. }
  destruct fuel as [|fuel]; [cbn in Hf; lia|].
  destruct Hi as (Hp & Hv & Hs).
  cbn [skipInputs length map concat]. if_lia.
  set (tail := concat (map txin_bytes ins) ++ post).
  replace (pre ++ (txin_bytes i ++ concat (map txin_bytes ins)) ++ post)
    with ((pre ++ in_prev i) ++ in_len i ++ (in_script i ++ in_seq i ++ tail))
    by (unfold txin_bytes, tail; by rewrite <- !app_assoc).
  replace (length pre + 36)%nat with (length (pre ++ in_prev i)) by (rewrite length_app; lia).
  rewrite (readCompactSize_at _ _ _ _ Hv). rewrite !length_app. if_lia.
  replace (Z.of_nat (S (length ins)) - 1) with (Z.of_nat (length ins)) by lia.
  specialize (IH fuel (pre ++ txin_bytes i)). cbn in Hf. rewrite length_app in IH.
  replace ((pre ++ in_prev i) ++ in_len i ++ in_script i ++ in_seq i ++ tail)
    with ((pre ++ txin_bytes i) ++ concat (map txin_bytes ins) ++ post)
    by (unfold txin_bytes, tail; by rewrite <- !app_assoc).
  assert (length (txin_bytes i) =
    36 + length (in_len i) + length (in_script i) + 4)%nat as Hlen
    by (unfold txin_bytes; rewrite !length_app; lia).
  rewrite Hlen in IH. rewrite Nat2Z.id, Hp, Hlen.
  replace (length pre + 36 + length (in_len i) + length (in_script i) + 4)%nat
    with (length pre + (36 + length (in_len i) + length (in_script i) + 4))%nat by lia.
  rewrite IH by lia. f_equal. lia.
Qed.

Definition pays (script : list Z) (o : txout) : bool := bool_decide (out_script o = script).

Lemma scanOutputs_spec outs fuel pre post script :
  Forall txout_ok outs → (length outs ≤ fuel)%nat →
  scanOutputs fuel (pre ++ concat (map txout_bytes outs) ++ post) script
    (Z.of_nat (length outs)) (length pre) = Ok (existsb (pays script) outs).
Proof.
  intros H. revert fuel pre. induction H as [|o outs Ho _ IH]; intros fuel pre Hf.
  { by destruct fuel. }
  destruct fuel as [|fuel]; [cbn in Hf; lia|]. destruct Ho as (Hp & Hv).
  cbn [scanOutputs length map concat existsb]. if_lia.
  set (tail := concat (map txout_bytes outs) ++ post).
  replace (pre ++ (txout_bytes o ++ concat (map txout_bytes outs)) ++ post)
    with ((pre ++ out_value o) ++ out_len o ++ (out_script o ++ tail))
    by (unfold txout_bytes, tail; by rewrite <- !app_assoc).
  replace (length pre + 8)%nat with (length (pre ++ out_value o)) by (rewrite length_app; lia).
  rewrite (readCompactSize_at _ _ _ _ Hv). rewrite Nat2Z.id.
  set (off := (length (pre ++ out_value o) + length (out_len o))%nat).
  assert (slice off (off + length (out_script o))
    ((pre ++ out_value o) ++ out_len o ++ out_script o ++ tail) = out_script o) as ->.
  { rewrite (app_assoc (pre ++ out_value o)). apply slice_app_mid; [|lia].
    unfold off. rewrite !length_app. lia. }
  assert (Z.of_nat (length ((pre ++ out_value o) ++ out_len o ++ out_script o ++ tail)) -
    Z.of_nat off <? Z.of_nat (length (out_script o)) = false) as ->
    by (unfold off; rewrite !length_app; lia).
  unfold pays at 1. case_bool_decide; [done|]. cbn [orb].
  replace (Z.of_nat (S (length outs)) - 1) with (Z.of_nat (length outs)) by lia.
  specialize (IH fuel (pre ++ txout_bytes o)). cbn in Hf.
  replace ((pre ++ out_value o) ++ out_len o ++ out_script o ++ tail)
    with ((pre ++ txout_bytes o) ++ concat (map txout_bytes outs) ++ post)
    by (unfold txout_bytes, tail; by rewrite <- !app_assoc).
  rewrite <- IH by lia. f_equal. unfold off, txout_bytes. rewrite !length_app. lia.
Qed.

(** ** The loops terminate on any bytes *)

Lemma readCompactSize_bound b off v off' :
  readCompactSize b off = Ok (v, off') → (off < off' ≤ length b)%nat.
Proof.
  unfold readCompactSize. destruct (length b <=? off)%nat eqn:E; [done|]. zbool.
  repeat match goal with
  | |- context [if ?c then _ else _] => destruct c eqn:?
  end; try done; zbool; intros [= _ <-]; lia.
Qed.

Lemma skipInputs_terminates fuel tx vin off :
  (length tx < fuel + off)%nat → (0 < fuel)%nat → skipInputs fuel tx vin off ≠ Err Diverges.
Proof.
  revert vin off. induction fuel as [|fuel IH]; intros vin off Hf Hp; cbn [skipInputs]; [lia|].
  destruct (vin <=? 0); [done|].
  destruct (readCompactSize tx (off + 36)) as [[sl off']|] eqn:E; [|done].
  apply readCompactSize_bound in E. case_if; [done|]. apply IH; lia.
Qed.

Lemma scanOutputs_terminates fuel tx script vout off :
  (length tx < fuel + off)%nat → (0 < fuel)%nat → scanOutputs fuel tx script vout off ≠ Err Diverges.
Proof.
  revert vout off. induction fuel as [|fuel IH]; intros vout off Hf Hp; cbn [scanOutputs]; [lia|].
  destruct (vout <=? 0); [done|].
  destruct (readCompactSize tx (off + 8)) as [[sl off']|] eqn:E; [|done].
  apply readCompactSize_bound in E. case_if; [done|]. case_bool_decide; [done|]. apply IH; lia.
Qed.

Lemma length_concat_txin ins : Forall txin_ok ins →
  (length ins ≤ length (concat (map txin_bytes ins)))%nat.
Proof.
  induction 1 as [|i ins (Hp & _) _ IH]; [done|]. cbn. rewrite length_app. unfold txin_bytes at 1.
  rewrite length_app. lia.
Qed.
Lemma length_concat_txout outs : Forall txout_ok outs →
  (length outs ≤ length (concat (map txout_bytes outs)))%nat.
Proof.
  induction 1 as [|o outs (Hp & _) _ IH]; [done|]. cbn. rewrite length_app. unfold txout_bytes at 1.
  rewrite length_app. lia.
Qed.

Lemma CoinbasePaysScript_serialized t script :
  transaction_ok t →
  CoinbasePaysScript (serialize t) script = Ok (existsb (pays script) (tx_outs t)).
Proof.
  intros (Hver & Hnin & Hnout & Hne & Hins & Houts).
  pose proof (varint_length _ _ Hnin) as Ln. pose proof (length_concat_txin _ Hins) as Li.
  pose proof (length_concat_txout _ Houts) as Lo. pose proof (varint_length _ _ Hnout) as Lno.
  assert (36 ≤ length (concat (map txin_bytes (tx_ins t))))%nat as L36.
  { destruct (tx_ins t) as [|i ins]; [done|]. apply Forall_cons in Hins as [(Hp & _) _].
    cbn. rewrite length_app. unfold txin_bytes at 1. rewrite length_app. lia. }
  assert (0 < length (tx_ins t))%nat as Hn0 by (destruct (tx_ins t); [done|]; cbn; lia).
  set (mark := if tx_segwit t then [0; 1] else []).
  set (ins := concat (map txin_bytes (tx_ins t))) in *.
  set (outs := concat (map txout_bytes (tx_outs t))) in *.
  unfold CoinbasePaysScript, serialize. fold mark ins outs.
  set (tx := tx_version t ++ mark ++ tx_nin t ++ ins ++ tx_nout t ++ outs ++ tx_rest t).
  assert (length tx = 4 + length mark + length (tx_nin t) + length ins + length (tx_nout t) +
    length outs + length (tx_rest t))%nat as Hlen by (unfold tx; rewrite !length_app; lia).
  set (n1 := length (tx_version t ++ mark)).
  assert ((if (nth 4 tx 0 =? 0) && (nth 5 tx 0 =? 1) then 6%nat else 4%nat) = n1) as Hoff.
  { unfold n1. rewrite length_app, Hver. unfold tx.
    rewrite (app_nth2 (tx_version t) _ 0 (n := 4)), (app_nth2 (tx_version t) _ 0 (n := 5)) by lia.
    rewrite Hver. unfold mark. cbn [Nat.sub]. destruct (tx_segwit t); [done|]. cbn [app length].
    destruct (tx_nin t) as [|b nin]; [cbn in Ln; lia|]. cbn [app nth].
    destruct (Z.eqb_spec b 0) as [->|]; [|done].
    apply varint_head_zero in Hnin. lia. }
  set (pre1 := (tx_version t ++ mark) ++ tx_nin t). set (pre2 := pre1 ++ ins).
  assert (readCompactSize tx n1 = Ok (Z.of_nat (length (tx_ins t)), length pre1)) as R1.
  { unfold pre1. rewrite length_app. unfold tx. rewrite app_assoc. by apply readCompactSize_at. }
  assert (∀ fuel, (length (tx_ins t) ≤ fuel)%nat →
    skipInputs fuel tx (Z.of_nat (length (tx_ins t))) (length pre1) = Ok (length pre2)) as R2.
  { intros fuel Hf. unfold pre2. rewrite length_app.
    etransitivity; [|exact (skipInputs_spec (tx_ins t) fuel pre1
      (tx_nout t ++ outs ++ tx_rest t) Hins Hf)].
    f_equal. unfold tx, pre1. by rewrite <- !app_assoc. }
  assert (readCompactSize tx (length pre2) =
    Ok (Z.of_nat (length (tx_outs t)), length (pre2 ++ tx_nout t))) as R3.
  { rewrite length_app. etransitivity; [|exact (readCompactSize_at pre2 _ _ (outs ++ tx_rest t) Hnout)].
    f_equal. unfold tx, pre2, pre1. by rewrite <- !app_assoc. }
  assert (∀ fuel, (length (tx_outs t) ≤ fuel)%nat →
    scanOutputs fuel tx script (Z.of_nat (length (tx_outs t))) (length (pre2 ++ tx_nout t)) =
    Ok (existsb (pays script) (tx_outs t))) as R4.
  { intros fuel Hf.
    etransitivity; [|exact (scanOutputs_spec (tx_outs t) fuel (pre2 ++ tx_nout t)
      (tx_rest t) script Houts Hf)].
    f_equal. unfold tx, pre2, pre1. by rewrite <- !app_assoc. }
  assert (length pre2 < length tx)%nat as Hlt
    by (rewrite Hlen; unfold pre2, pre1; rewrite !length_app; lia).
  rewrite (proj2 (Nat.ltb_ge _ _)) by lia. cbv zeta. rewrite Hoff, R1. if_lia.
  rewrite R2 by lia. cbn [mbind result_bind]. rewrite (proj2 (Nat.leb_gt _ _) Hlt), R3.
  apply R4. lia.
Qed.


Definition demo_tx (script : list Z) : transaction :=
  {| tx_version := [1; 0; 0; 0]; tx_segwit := true;
     tx_nin := [1];
     tx_ins := [{| in_prev := replicate 36 0; in_len := [3]; in_script := [1; 2; 3]; in_seq := replicate 4 255 |}];
     tx_nout := [2];
     tx_outs := [{| out_value := replicate 8 0; out_len := [0xfd; 2; 0]; out_script := [0x6a; 0x00] |};
                 {| out_value := replicate 8 1; out_len := [Z.of_nat (length script)]; out_script := script |}];
     tx_rest := replicate 4 0 |}.

