(* ===== verification/Utf8.v ===== *)
(** * Go strings as UTF-8

    What the sources use of unicode/utf8 and of the language's string
    iteration: decoding one rune (invalid bytes give U+FFFD of width 1),
    ranging over a string, encoding, and [strings.Map]. *)
From S2P Require Import Prelude.

Open Scope Z_scope.

#[local] Ltac Zify.zify_post_hook ::= Z.to_euclidean_division_equations.

Definition RuneError : Z := 0xFFFD.

(** Unicode scalar values. *)
Definition rune_ok (r : Z) : bool :=
  ((0 <=? r) && (r <? 0xD800)) || ((0xDFFF <? r) && (r <=? 0x10FFFF)).

Definition cont (b : Z) : bool := (0x80 <=? b) && (b <=? 0xBF).

(** [utf8.DecodeRune]: the rune and its width. *)
Definition decode_rune (s : list Z) : Z * nat :=
  match s with
  | [] => (RuneError, 0%nat)
  | b0 :: s1 =>
      if b0 <? 0x80 then (b0, 1%nat)
      else if (b0 <? 0xC2) || (0xF4 <? b0) then (RuneError, 1%nat)
      else match s1 with
      | [] => (RuneError, 1%nat)
      | b1 :: s2 =>
          let lo := if b0 =? 0xE0 then 0xA0 else if b0 =? 0xF0 then 0x90 else 0x80 in
          let hi := if b0 =? 0xED then 0x9F else if b0 =? 0xF4 then 0x8F else 0xBF in
          if negb ((lo <=? b1) && (b1 <=? hi)) then (RuneError, 1%nat)
          else if b0 <? 0xE0 then ((b0 - 0xC0) * 64 + (b1 - 0x80), 2%nat)
          else match s2 with
          | [] => (RuneError, 1%nat)
          | b2 :: s3 =>
              if negb (cont b2) then (RuneError, 1%nat)
              else if b0 <? 0xF0
              then ((b0 - 0xE0) * 4096 + (b1 - 0x80) * 64 + (b2 - 0x80), 3%nat)
              else match s3 with
              | [] => (RuneError, 1%nat)
              | b3 :: _ =>
                  if negb (cont b3) then (RuneError, 1%nat)
                  else ((b0 - 0xF0) * 262144 + (b1 - 0x80) * 4096 +
                        (b2 - 0x80) * 64 + (b3 - 0x80), 4%nat)
              end
          end
      end
  end.

(** [utf8.AppendRune]; runes that are not scalar values encode as U+FFFD. *)
Definition encode_valid (r : Z) : list Z :=
  if r <? 0x80 then [r]
  else if r <? 0x800 then [0xC0 + r / 64; 0x80 + r mod 64]
  else if r <? 0x10000 then [0xE0 + r / 4096; 0x80 + r / 64 mod 64; 0x80 + r mod 64]
  else [0xF0 + r / 262144; 0x80 + r / 4096 mod 64; 0x80 + r / 64 mod 64; 0x80 + r mod 64].
Definition encode_rune (r : Z) : list Z :=
  encode_valid (if rune_ok r then r else RuneError).

(** [for _, r := range s], also [[]rune(s)]. *)
Fixpoint runes_fuel (n : nat) (s : list Z) : list Z :=
  match n with
  | O => []
  | S n =>
      match s with
      | [] => []
      | _ => let '(r, w) := decode_rune s in r :: runes_fuel n (drop w s)
      end
  end.
Definition runes (s : list Z) : list Z := runes_fuel (length s) s.

(** [string(rs)]. *)
Definition string_of_runes (rs : list Z) : list Z := concat (map encode_rune rs).

(** [strings.Map]: runes mapped to a negative value are dropped, invalid bytes
    come out as U+FFFD. *)
Definition strings_Map (f : Z → Z) (s : list Z) : list Z :=
  string_of_runes (List.filter (λ r, 0 <=? r) (map f (runes s))).

(** [unicode.IsSpace]. *)
Definition IsSpace (r : Z) : bool :=
  bool_decide (r ∈ [0x09; 0x0a; 0x0b; 0x0c; 0x0d; 0x20; 0x85; 0xa0; 0x1680; 0x2028; 0x2029; 0x202f;
                    0x205f; 0x3000]) || ((0x2000 <=? r) && (r <=? 0x200a)).

(** [unicode.IsControl]: the control characters are all in Latin-1. *)
Definition IsControl (r : Z) : bool :=
  ((0 <=? r) && (r <? 0x20)) || ((0x7f <=? r) && (r <=? 0x9f)).

(** ** Decoding inverts encoding *)

Lemma decode_encode_valid r rest :
  rune_ok r = true → decode_rune (encode_valid r ++ rest) = (r, length (encode_valid r)).
Proof.
  unfold rune_ok. intros Hr. unfold encode_valid.
  destruct (Z.ltb_spec r 0x80); [unfold decode_rune; cbn [app length]; by if_lia|].
  destruct (Z.ltb_spec r 0x800).
  { cbn [app length]. unfold decode_rune. do 2 if_lia.
    rewrite (proj2 (Z.eqb_neq _ _)), (proj2 (Z.eqb_neq _ _)), (proj2 (Z.eqb_neq _ _)),
      (proj2 (Z.eqb_neq _ _)) by lia. do 2 if_lia. f_equal. lia. }
  destruct (Z.ltb_spec r 0x10000).
  { cbn [app length]. unfold decode_rune, cont.
    set (b0 := 0xE0 + r / 4096). set (b1 := 0x80 + r / 64 mod 64).
    set (b2 := 0x80 + r mod 64).
    assert (b0 = 0xE0 + r / 4096 ∧ b1 = 0x80 + r / 64 mod 64 ∧ b2 = 0x80 + r mod 64) as (E0 & E1 & E2)
      by done. clearbody b0 b1 b2.
    do 2 if_lia. destruct (Z.eqb_spec b0 0xE0), (Z.eqb_spec b0 0xF0), (Z.eqb_spec b0 0xED),
      (Z.eqb_spec b0 0xF4); try lia; do 4 if_lia; f_equal; lia. }
  cbn [app length]. unfold decode_rune, cont.
  set (b0 := 0xF0 + r / 262144). set (b1 := 0x80 + r / 4096 mod 64).
  set (b2 := 0x80 + r / 64 mod 64). set (b3 := 0x80 + r mod 64).
  assert (b0 = 0xF0 + r / 262144 ∧ b1 = 0x80 + r / 4096 mod 64 ∧ b2 = 0x80 + r / 64 mod 64 ∧
    b3 = 0x80 + r mod 64) as (E0 & E1 & E2 & E3) by done. clearbody b0 b1 b2 b3.
  do 2 if_lia. destruct (Z.eqb_spec b0 0xE0), (Z.eqb_spec b0 0xF0), (Z.eqb_spec b0 0xED),
    (Z.eqb_spec b0 0xF4); try lia; do 5 if_lia; f_equal; lia.
Qed.

Lemma decode_encode r rest :
  rune_ok r = true → decode_rune (encode_rune r ++ rest) = (r, length (encode_rune r)).
Proof. intros Hr. unfold encode_rune. rewrite Hr. by apply decode_encode_valid. Qed.

Lemma length_encode_rune r : (1 ≤ length (encode_rune r))%nat.
Proof. unfold encode_rune, encode_valid. repeat case_if; simpl; lia. Qed.

Lemma runes_fuel_app n r rest :
  rune_ok r = true → runes_fuel (S n) (encode_rune r ++ rest) = r :: runes_fuel n rest.
Proof.
  intros Hr. pose proof (length_encode_rune r) as Hl.
  pose proof (decode_encode r rest Hr) as E.
  cbn [runes_fuel]. destruct (encode_rune r ++ rest) as [|b s] eqn:Es.
  { apply (f_equal length) in Es. rewrite length_app in Es. cbn in Es. lia. }
  rewrite E, <- Es. by rewrite drop_app_length.
Qed.

Lemma runes_fuel_string rs n :
  Forall (λ r, rune_ok r = true) rs → (length (string_of_runes rs) ≤ n)%nat →
  runes_fuel n (string_of_runes rs) = rs.
Proof.
  intros H. revert n. induction H as [|r rs Hr _ IH]; intros n Hn; [by destruct n|].
  unfold string_of_runes in *. cbn [map concat] in *. rewrite length_app in Hn.
  pose proof (length_encode_rune r). destruct n as [|n]; [lia|].
  rewrite runes_fuel_app by done. f_equal. apply IH. lia.
Qed.

Lemma runes_string_of_runes rs :
  Forall (λ r, rune_ok r = true) rs → runes (string_of_runes rs) = rs.
Proof. intros H. by apply runes_fuel_string. Qed.

(** Every decoded rune of a byte string is a scalar value. *)
Lemma decode_rune_ok s : bytes_ok s → rune_ok (decode_rune s).1 = true.
Proof.
  intros Hs. destruct s as [|b0 s]; [done|].
  apply Forall_cons in Hs as [H0 Hs]. unfold byte_ok in H0. change (2 ^ 8) with 256 in H0.
  unfold decode_rune, cont. destruct (Z.ltb_spec b0 0x80); [unfold rune_ok; cbn [fst]; lia|].
  destruct ((b0 <? 0xC2) || (0xF4 <? b0)) eqn:E; [done|].
  destruct s as [|b1 s]; [done|]. cbv zeta.
  destruct (Z.eqb_spec b0 0xE0), (Z.eqb_spec b0 0xF0), (Z.eqb_spec b0 0xED), (Z.eqb_spec b0 0xF4);
    try lia.
  all: case_if; [done|]; case_if; [unfold rune_ok; cbn [fst]; lia|].
  all: destruct s as [|b2 s]; [done|]; case_if; [done|]; case_if; [unfold rune_ok; cbn [fst]; lia|].
  all: destruct s as [|b3 s]; [done|]; case_if; [done|]; unfold rune_ok; cbn [fst]; lia.
Qed.

Lemma runes_fuel_ok n s : bytes_ok s → Forall (λ r, rune_ok r = true) (runes_fuel n s).
Proof.
  revert s. induction n as [|n IH]; intros s Hs; [constructor|]. cbn [runes_fuel].
  destruct s as [|b s]; [constructor|]. pose proof (decode_rune_ok (b :: s) Hs) as Hr.
  destruct (decode_rune (b :: s)) as [r w]. constructor; [done|]. apply IH. by apply Forall_drop.
Qed.

Lemma runes_ok s : bytes_ok s → Forall (λ r, rune_ok r = true) (runes s).
Proof. apply runes_fuel_ok. Qed.

Lemma encode_rune_bytes r : bytes_ok (encode_rune r).
Proof.
  unfold encode_rune. assert (rune_ok (if rune_ok r then r else RuneError) = true) as H
    by (by destruct (rune_ok r) eqn:E).
  revert H. generalize (if rune_ok r then r else RuneError). clear r. intros r H.
  unfold rune_ok in H. unfold encode_valid.
  repeat case_if; repeat apply Forall_cons_2; try apply Forall_nil_2; unfold byte_ok;
    change (2 ^ 8) with 256; lia.
Qed.

Lemma string_of_runes_bytes rs : bytes_ok (string_of_runes rs).
Proof.
  unfold string_of_runes. induction rs as [|r rs IH]; [done|]. cbn [map concat].
  apply Forall_app. split; [apply encode_rune_bytes|done].
Qed.

(** ASCII runes are the bytes themselves. *)
Lemma decode_rune_ascii b s : (decode_rune (b :: s)).1 < 128 → decode_rune (b :: s) = (b, 1%nat).
Proof.
  unfold decode_rune, RuneError, cont. case_if; [done|]. case_if; [cbn; lia|].
  destruct s as [|b1 s]; [cbn; lia|]. cbv zeta.
  destruct (negb _) eqn:E1; [cbn; lia|].
  assert (0x80 ≤ b1 ∧ (b = 0xE0 → 0xA0 ≤ b1) ∧ (b = 0xF0 → 0x90 ≤ b1)) as (? & ? & ?).
  { destruct (b =? 0xE0) eqn:?, (b =? 0xF0) eqn:?; lia. }
  clear E1. destruct (b <? 0xE0) eqn:?; [cbn [fst]; lia|].
  destruct s as [|b2 s]; [cbn; lia|]. destruct (negb _) eqn:?; [cbn; lia|].
  destruct (b <? 0xF0) eqn:?; [cbn [fst]; lia|].
  destruct s as [|b3 s]; [cbn; lia|]. case_if; cbn [fst]; [lia|].
  destruct (b =? 0xF0) eqn:?; lia.
Qed.

Lemma runes_ascii s : Forall (λ r, r < 128) (runes s) → runes s = s.
Proof.
  unfold runes. induction s as [|b s IH]; [done|]. cbn [length runes_fuel].
  destruct (decode_rune (b :: s)) as [r w] eqn:E. intros [Hr Hs]%Forall_cons.
  pose proof (decode_rune_ascii b s) as H. rewrite E in H. specialize (H Hr) as [= -> ->].
  f_equal. by apply IH.
Qed.

(** A decoding that is not the error of one byte took the encoding of its rune. *)
Lemma decode_take_encode s r w :
  bytes_ok s → s ≠ [] → decode_rune s = (r, w) → ¬ (w = 1%nat ∧ r = RuneError) →
  take w s = encode_rune r ∧ rune_ok r = true ∧ (1 ≤ w ≤ length s)%nat.
Proof.
  intros Hs Hne E Hno. pose proof (decode_rune_ok s Hs) as Hr. rewrite E in Hr. cbn [fst] in Hr.
  unfold encode_rune. rewrite Hr. cut (take w s = encode_valid r ∧ (1 ≤ w ≤ length s)%nat); [tauto|].
  clear Hr. destruct s as [|b0 s]; [done|]. apply Forall_cons in Hs as [H0 Hs].
  unfold byte_ok in H0. change (2 ^ 8) with 256 in H0. revert E. unfold decode_rune, cont.
  destruct (Z.ltb_spec b0 0x80).
  { intros [= <- <-]. unfold encode_valid. if_lia. cbn. split; [done|lia]. }
  destruct ((b0 <? 0xC2) || (0xF4 <? b0)) eqn:E0; [intros [= <- <-]; by destruct Hno|].
  destruct s as [|b1 s]; [intros [= <- <-]; by destruct Hno|]. cbv zeta.
  destruct (negb _) eqn:E1; [intros [= <- <-]; by destruct Hno|].
  assert (0x80 ≤ b1 ≤ 0xBF ∧ (b0 = 0xE0 → 0xA0 ≤ b1) ∧ (b0 = 0xF0 → 0x90 ≤ b1) ∧ (b0 = 0xED → b1 ≤ 0x9F)
    ∧ (b0 = 0xF4 → b1 ≤ 0x8F)) as (? & ? & ? & ? & ?).
  { destruct (b0 =? 0xE0) eqn:?, (b0 =? 0xF0) eqn:?, (b0 =? 0xED) eqn:?, (b0 =? 0xF4) eqn:?; lia. }
  clear E1. destruct (Z.ltb_spec b0 0xE0).
  { intros [= <- <-]. unfold encode_valid. do 2 if_lia. cbn [take length]. split; [repeat f_equal; lia|lia]. }
  destruct s as [|b2 s]; [intros [= <- <-]; by destruct Hno|].
  destruct (negb _) eqn:E2; [intros [= <- <-]; by destruct Hno|].
  destruct (Z.ltb_spec b0 0xF0).
  { intros [= <- <-]. unfold encode_valid. do 3 if_lia. cbn [take length]. split; [repeat f_equal; lia|lia]. }
  destruct s as [|b3 s]; [intros [= <- <-]; by destruct Hno|].
  destruct (negb ((0x80 <=? b3) && (b3 <=? 0xBF))) eqn:E3; intros [= <- <-]; [by destruct Hno|].
  unfold encode_valid. do 3 if_lia. cbn [take length]. split; [repeat f_equal; lia|lia].
Qed.
