(* ===== verification/Json.v ===== *)
(** * encoding/json, encoding/hex and strconv

    What the sources use of the standard library to read pool input: the JSON
    grammar of encoding/json (whitespace, literals, numbers, strings with
    escapes and surrogate pairs, nesting limit), decoding a value into Go
    targets, hexadecimal coding, [ParseUint], [Atoi] and [ParseFloat].
    Texts are byte lists. *)
From Stdlib Require Import SpecFloat.
From S2P Require Import Prelude.
From S2P Require Import Float64.
From S2P Require Import Utf8.

Open Scope Z_scope.

(** ** Digits *)

Definition digit_val (c : Z) : option Z :=
  if (48 <=? c) && (c <=? 57) then Some (c - 48) else None.
Definition hex_val (c : Z) : option Z :=
  if (48 <=? c) && (c <=? 57) then Some (c - 48)
  else if (97 <=? c) && (c <=? 102) then Some (c - 87)
  else if (65 <=? c) && (c <=? 70) then Some (c - 55)
  else None.
Definition hex_digit (v : Z) : Z := if v <? 10 then v + 48 else v + 87.

(** ** strconv *)

(** [ParseUint(s, base, bits)] for base 10 and 16: the value returned, which is
    0 on a syntax error and the maximum on a range error, and whether it is
    accepted.  The text is scanned left to right, so that a number already out
    of range is a range error whatever follows it. *)
Fixpoint parseUint_loop (val : Z → option Z) (base max n : Z) (s : list Z) : Z * bool :=
  match s with
  | [] => (n, true)
  | c :: s =>
      match val c with
      | None => (0, false)
      | Some d =>
          if max <? n * base + d then (max, false)
          else parseUint_loop val base max (n * base + d) s
      end
  end.
Definition ParseUint (base bits : Z) (s : list Z) : Z * bool :=
  match s with
  | [] => (0, false)
  | _ => parseUint_loop (if base =? 16 then hex_val else digit_val) base (2 ^ bits - 1) 0 s
  end.

(** [Atoi] on a 64-bit platform, the value it returns with or without error. *)
Definition Atoi (s : list Z) : Z :=
  let '(neg, ds) :=
    match s with 45 :: t => (true, t) | 43 :: t => (false, t) | _ => (false, s) end in
  let v := (ParseUint 10 64 ds).1 in
  if neg then Z.max (- v) (- 2 ^ 63) else Z.min v (2 ^ 63 - 1).

(** ** encoding/hex *)

Fixpoint hex_DecodeString (s : list Z) : option (list Z) :=
  match s with
  | [] => Some []
  | a :: b :: s =>
      x ← hex_val a; y ← hex_val b; rest ← hex_DecodeString s; Some (x * 16 + y :: rest)
  | [_] => None
  end.
Definition hex_EncodeToString (bs : list Z) : list Z :=
  concat (map (λ b, [hex_digit (b / 16); hex_digit (b mod 16)]) bs).

(** [%08x] of a uint32. *)
Definition hex8 (v : Z) : list Z := map hex_digit (to_digits 16 8 v).

(** ** Values *)

(** A number literal: sign, integer digits, fraction digits, exponent. *)
Record jnum := { num_neg : bool; num_int : list Z; num_frac : option (list Z); num_exp : option Z }.

Inductive json :=
  | JNull
  | JBool (b : bool)
  | JNum (n : jnum)
  | JStr (s : list Z)
  | JArr (l : list json)
  | JObj (l : list (list Z * json)).

(** [strconv.ParseFloat(lit, 64)]; [None] is the range error. *)
Definition num_float (n : jnum) : option float64 :=
  let frac := default [] (num_frac n) in
  let m := of_digits 10 (num_int n ++ frac) in
  let e := default 0 (num_exp n) - Z.of_nat (length frac) in
  let f := if m =? 0 then fzero
           else if 0 <=? e then f64_of_Z (m * 10 ^ e)
           else fdiv (big_SetInt m) (big_SetInt (10 ^ (- e))) in
  if IsInf f then None else Some (if num_neg n then SFopp f else f).

(** [strconv.ParseInt(lit, 10, 64)]. *)
Definition num_int64 (n : jnum) : option Z :=
  match num_frac n, num_exp n with
  | None, None =>
      let v := of_digits 10 (num_int n) in
      let v := if num_neg n then - v else v in
      if (- 2 ^ 63 <=? v) && (v <? 2 ^ 63) then Some v else None
  | _, _ => None
  end.

(** ** The grammar *)

Definition is_ws (c : Z) : bool := (c =? 32) || (c =? 9) || (c =? 13) || (c =? 10).
Fixpoint skip_ws (s : list Z) : list Z :=
  match s with
  | c :: s' => if is_ws c then skip_ws s' else s
  | [] => []
  end.

(** The longest run of digits. *)
Fixpoint span_digits (s : list Z) : list Z * list Z :=
  match s with
  | c :: s' =>
      match digit_val c with
      | Some d => let '(ds, r) := span_digits s' in (d :: ds, r)
      | None => ([], s)
      end
  | [] => ([], [])
  end.

(** [readFloat]'s exponent accumulator stops growing at 10000. *)
Definition exp_value (ds : list Z) : Z :=
  foldl (λ e d, if e <? 10000 then e * 10 + d else e) 0 ds.

Definition parse_frac (s : list Z) : option (option (list Z) * list Z) :=
  match s with
  | 46 :: s =>
      match span_digits s with
      | ([], _) => None
      | (ds, r) => Some (Some ds, r)
      end
  | _ => Some (None, s)
  end.
Definition parse_exp (s : list Z) : option (option Z * list Z) :=
  match s with
  | c :: s' =>
      if (c =? 101) || (c =? 69) then
        let '(neg, s') :=
          match s' with 45 :: t => (true, t) | 43 :: t => (false, t) | _ => (false, s') end in
        match span_digits s' with
        | ([], _) => None
        | (ds, r) => Some (Some (if neg : bool then - exp_value ds else exp_value ds), r)
        end
      else Some (None, s)
  | [] => Some (None, s)
  end.
Definition parse_number (s : list Z) : option (jnum * list Z) :=
  let '(neg, s) := match s with 45 :: t => (true, t) | _ => (false, s) end in
  match span_digits s with
  | ([], _) => None
  | (ds, r) =>
      (* a leading zero is the whole integer part *)
      let '(ds, r) :=
        match ds with
        | 0 :: _ :: _ => ([0], tail s)
        | _ => (ds, r)
        end in
      '(frac, r) ← parse_frac r;
      '(ex, r) ← parse_exp r;
      Some ({| num_neg := neg; num_int := ds; num_frac := frac; num_exp := ex |}, r)
  end.

Definition hex4 (s : list Z) : option (Z * list Z) :=
  match s with
  | a :: b :: c :: d :: r =>
      ds ← mapM hex_val [a; b; c; d]; Some (of_digits 16 ds, r)
  | _ => None
  end.

(** The escape after a backslash, as the UTF-8 bytes it stands for. *)
Definition is_surrogate (r : Z) : bool := (0xD800 <=? r) && (r <? 0xE000).
Definition parse_escape (s : list Z) : option (list Z * list Z) :=
  match s with
  | 34 :: r => Some ([34], r)
  | 92 :: r => Some ([92], r)
  | 47 :: r => Some ([47], r)
  | 98 :: r => Some ([8], r)
  | 102 :: r => Some ([12], r)
  | 110 :: r => Some ([10], r)
  | 114 :: r => Some ([13], r)
  | 116 :: r => Some ([9], r)
  | 117 :: r =>
      '(u, r) ← hex4 r;
      if is_surrogate u then
        match r with
        | 92 :: 117 :: r' =>
            '(u1, r') ← hex4 r';
            if (u <? 0xDC00) && (0xDC00 <=? u1) && (u1 <? 0xE000)
            then Some (encode_rune ((u - 0xD800) * 1024 + (u1 - 0xDC00) + 0x10000), r')
            else Some (encode_rune RuneError, r)
        | _ => Some (encode_rune RuneError, r)
        end
      else Some (encode_rune u, r)
  | _ => None
  end.

(** The string after its opening quote; invalid UTF-8 becomes U+FFFD. *)
Fixpoint parse_string (fuel : nat) (s : list Z) : option (list Z * list Z) :=
  match fuel with
  | O => None
  | S fuel =>
      match s with
      | [] => None
      | c :: r =>
          if c =? 34 then Some ([], r)
          else if c =? 92 then
            '(b, r) ← parse_escape r; '(t, r) ← parse_string fuel r; Some (b ++ t, r)
          else if c <? 32 then None
          else
            let '(u, w) := decode_rune s in
            '(t, r) ← parse_string fuel (drop w s); Some (encode_rune u ++ t, r)
      end
  end.

Definition expect (lit : list Z) (v : json) (s : list Z) : option (json * list Z) :=
  if bool_decide (take (length lit) s = lit) then Some (v, drop (length lit) s) else None.

Definition maxNestingDepth : Z := 10000.

(** One value; [depth] is the number of enclosing arrays and objects.  Each
    call either consumes a byte or follows one that did, so twice the length
    of the text is enough fuel. *)
Fixpoint parse_value (fuel : nat) (depth : Z) (s : list Z) : option (json * list Z) :=
  match fuel with
  | O => None
  | S fuel =>
      let t := skip_ws s in
      match t with
      | 34 :: r => '(b, r) ← parse_string (length r) r; Some (JStr b, r)
      | 91 :: r =>
          if maxNestingDepth <=? depth then None
          else match skip_ws r with
          | 93 :: r => Some (JArr [], r)
          | _ => '(l, r) ← parse_elements fuel (depth + 1) r; Some (JArr l, r)
          end
      | 123 :: r =>
          if maxNestingDepth <=? depth then None
          else match skip_ws r with
          | 125 :: r => Some (JObj [], r)
          | _ => '(l, r) ← parse_members fuel (depth + 1) r; Some (JObj l, r)
          end
      | 116 :: _ => expect (bytes_of_string "true") (JBool true) t
      | 102 :: _ => expect (bytes_of_string "false") (JBool false) t
      | 110 :: _ => expect (bytes_of_string "null") JNull t
      | _ => '(n, r) ← parse_number t; Some (JNum n, r)
      end
  end
with parse_elements (fuel : nat) (depth : Z) (s : list Z) : option (list json * list Z) :=
  match fuel with
  | O => None
  | S fuel =>
      '(v, r) ← parse_value fuel depth s;
      match skip_ws r with
      | 44 :: r => '(l, r) ← parse_elements fuel depth r; Some (v :: l, r)
      | 93 :: r => Some ([v], r)
      | _ => None
      end
  end
with parse_members (fuel : nat) (depth : Z) (s : list Z) : option (list (list Z * json) * list Z) :=
  match fuel with
  | O => None
  | S fuel =>
      match skip_ws s with
      | 34 :: r =>
          '(k, r) ← parse_string (length r) r;
          match skip_ws r with
          | 58 :: r =>
              '(v, r) ← parse_value fuel depth r;
              match skip_ws r with
              | 44 :: r => '(l, r) ← parse_members fuel depth r; Some ((k, v) :: l, r)
              | 125 :: r => Some ([(k, v)], r)
              | _ => None
              end
          | _ => None
          end
      | _ => None
      end
  end.

(** A whole document. *)
Definition json_parse (s : list Z) : option json :=
  '(v, r) ← parse_value (2 * length s + 2) 0 s;
  match skip_ws r with [] => Some v | _ => None end.

(** ** Decoding into Go targets *)

(** [json.Unmarshal(raw, &x)] for [x] of the given type holding its zero value;
    [None] is an error.  A JSON null leaves the target unchanged. *)
Definition as_string (j : json) : option (list Z) :=
  match j with JStr s => Some s | JNull => Some [] | _ => None end.
Definition as_bool (j : json) : option bool :=
  match j with JBool b => Some b | JNull => Some false | _ => None end.
Definition as_int (j : json) : option Z :=
  match j with JNum n => num_int64 n | JNull => Some 0 | _ => None end.
Definition as_float (j : json) : option float64 :=
  match j with JNum n => num_float n | JNull => Some fzero | _ => None end.
Definition as_raws (j : json) : option (list json) :=
  match j with JArr l => Some l | JNull => Some [] | _ => None end.
Definition as_slice {A} (f : json → option A) (j : json) : option (list A) :=
  l ← as_raws j; mapM f l.

(** Decoding into [any] fails exactly when some number overflows float64. *)
Fixpoint any_ok (j : json) : bool :=
  match j with
  | JNum n => bool_decide (is_Some (num_float n))
  | JArr l => forallb any_ok l
  | JObj l => forallb (λ kv, any_ok kv.2) l
  | _ => true
  end.

(** Struct fields match object keys up to simple case folding: among the runes
    that fold to an ASCII letter are U+017F and U+212A. *)
Definition fold_rune (r : Z) : Z :=
  if (97 <=? r) && (r <=? 122) then r - 32
  else if r =? 0x17F then 83 else if r =? 0x212A then 75 else r.
Definition key_matches (name : string) (key : list Z) : bool :=
  bool_decide (map fold_rune (runes key) = map fold_rune (bytes_of_string name)).

(** Texts with single quotes standing for double quotes. *)
Definition dq (s : string) : list Z :=
  map (λ c, if c =? 39 then 34 else c) (bytes_of_string s).

Example json_parse_example :
  json_parse (dq " { 'id' : null, 'p':[ 'a\u00e9\ud83d\ude00\n', -1.50e1, 0, [true ,false],{}] } ") =
  Some (JObj [(dq "id", JNull);
    (dq "p", JArr [JStr [97; 0xC3; 0xA9; 0xF0; 0x9F; 0x98; 0x80; 10];
       JNum {| num_neg := true; num_int := [1]; num_frac := Some [5; 0]; num_exp := Some 1 |};
       JNum {| num_neg := false; num_int := [0]; num_frac := None; num_exp := None |};
       JArr [JBool true; JBool false]; JObj []])]).
Proof. vm_compute. reflexivity. Qed.

Example json_parse_rejects :
  map json_parse [dq "01"; dq "1."; dq "[1,]"; dq "'a"; dq "{'a' 1}"; dq "[] x"; dq "tru"] =
  replicate 7 None.
Proof. vm_compute. reflexivity. Qed.

Example num_float_examples :
  (as_float <$> json_parse (dq "-1.50e1")) = Some (Some (SFopp (f64_of_Z 15))) ∧
  (as_float <$> json_parse (dq "0.1")) = Some (Some (f64_const 1 10)) ∧
  (as_float <$> json_parse (dq "1e400")) = Some None.
Proof. vm_compute. done. Qed.

(** * Lemmas on hexadecimal *)

Lemma hex_val_range c v : hex_val c = Some v → 0 ≤ v < 16.
Proof. unfold hex_val. repeat case_if; intros [= <-]; lia. Qed.

Lemma hex_val_digit v : 0 ≤ v < 16 → hex_val (hex_digit v) = Some v.
Proof.
  intros Hv. unfold hex_digit. case_if; unfold hex_val.
  - if_lia. f_equal. lia.
  - do 2 if_lia. f_equal. lia.
Qed.

Lemma hex_Encode_cons b bs :
  hex_EncodeToString (b :: bs) =
    hex_digit (b / 16) :: hex_digit (b mod 16) :: hex_EncodeToString bs.
Proof. done. Qed.

Lemma hex_roundtrip bs : bytes_ok bs → hex_DecodeString (hex_EncodeToString bs) = Some bs.
Proof.
  induction 1 as [|b bs Hb _ IH]; [done|]. rewrite hex_Encode_cons. cbn [hex_DecodeString].
  unfold byte_ok in Hb. change (2 ^ 8) with 256 in Hb.
  rewrite !hex_val_digit, IH by (Z.to_euclidean_division_equations; lia).
  cbn [mbind option_bind]. do 2 f_equal. pose proof (Z.div_mod b 16). lia.
Qed.

Lemma hex_DecodeString_spec s bs :
  hex_DecodeString s = Some bs → bytes_ok bs ∧ length s = (2 * length bs)%nat.
Proof.
  revert bs. induction s as [s IH] using (induction_ltof1 _ (@length Z)). unfold ltof in IH.
  destruct s as [|a [|b s]]; intros bs H; cbn [hex_DecodeString] in H.
  - injection H as <-. done.
  - done.
  - destruct (hex_val a) as [x|] eqn:Ea; [|done]. destruct (hex_val b) as [y|] eqn:Eb; [|done].
    cbn [mbind option_bind] in H. destruct (hex_DecodeString s) as [r|] eqn:Er; [|done].
    injection H as <-. apply hex_val_range in Ea, Eb.
    apply IH in Er as [Hr Hl]; [|cbn [length]; lia]. split.
    + constructor; [unfold byte_ok; word_lia|done].
    + cbn [length]. lia.
Qed.

Lemma length_hex_Encode bs : length (hex_EncodeToString bs) = (2 * length bs)%nat.
Proof. induction bs as [|b bs IH]; [done|]. rewrite hex_Encode_cons. cbn [length]. lia. Qed.

Lemma mapM_hex_digits ds : digits_ok 16 ds → mapM hex_val (map hex_digit ds) = Some ds.
Proof.
  induction 1 as [|d ds Hd _ IH]; [done|]. cbn [map mapM].
  rewrite hex_val_digit by done. cbn [mbind option_bind]. by rewrite IH.
Qed.

Lemma parseUint_loop_digits val base max s ds n :
  0 < base → mapM val s = Some ds → Forall (λ d, 0 ≤ d) ds → 0 ≤ n →
  foldl (λ a d, a * base + d) n ds ≤ max →
  parseUint_loop val base max n s = (foldl (λ a d, a * base + d) n ds, true).
Proof.
  intros Hb Hm Hds. revert ds Hm Hds n. induction s as [|c s IH]; intros ds Hm Hds n Hn Hle.
  { by injection Hm as <-. }
  cbn [mapM] in Hm. destruct (val c) as [d|] eqn:Ec; [|done]. cbn [mbind option_bind] in Hm.
  destruct (mapM val s) as [ds'|] eqn:Es; [|done]. injection Hm as <-.
  apply Forall_cons in Hds as [Hd Hds]. cbn [parseUint_loop foldl] in Hle |- *. rewrite Ec.
  assert (n * base + d ≤ foldl (λ a d, a * base + d) (n * base + d) ds') as Hmono.
  { clear -Hds Hb Hn Hd. assert (0 ≤ n * base + d) as H0 by nia. revert H0.
    generalize (n * base + d). induction Hds as [|e l He _ IH]; intros k Hk; cbn [foldl]; [lia|].
    specialize (IH (k * base + e) ltac:(nia)). nia. }
  if_lia. apply IH; auto. nia.
Qed.

Lemma ParseUint_digits base bits s ds :
  base = 10 ∨ base = 16 → s ≠ [] →
  mapM (if base =? 16 then hex_val else digit_val) s = Some ds → Forall (λ d, 0 ≤ d) ds →
  of_digits base ds < 2 ^ bits → ParseUint base bits s = (of_digits base ds, true).
Proof.
  intros Hb Hs Hm Hds Hlt. unfold ParseUint. destruct s as [|c s]; [done|].
  apply parseUint_loop_digits; auto; [lia|lia|]. unfold of_digits in Hlt. lia.
Qed.

Lemma ParseUint_hex8 v : v ∈u 32 → ParseUint 16 32 (hex8 v) = (v, true).
Proof.
  intros Hv. unfold hex8.
  assert (of_digits 16 (to_digits 16 8 v) = v) as Ho
    by (apply of_to_digits; [lia|change (16 ^ Z.of_nat 8) with (2 ^ 32); lia]).
  rewrite <- Ho at 2. apply ParseUint_digits.
  - by right.
  - intros E. apply (f_equal length) in E. by rewrite length_map, length_to_digits in E.
  - apply mapM_hex_digits, to_digits_ok. lia.
  - eapply Forall_impl; [apply (to_digits_ok 16 8 v); lia|]. cbv beta. lia.
  - rewrite Ho. lia.
Qed.

Lemma parseUint_loop_range val base max n s v :
  0 < base → (∀ c d, val c = Some d → 0 ≤ d) → 0 ≤ n ≤ max →
  parseUint_loop val base max n s = (v, true) → 0 ≤ v ≤ max.
Proof.
  intros Hb Hval. revert n. induction s as [|c s IH]; intros n Hn H; cbn [parseUint_loop] in H.
  { by injection H as <-. }
  destruct (val c) as [d|] eqn:Ec; [|done]. apply Hval in Ec. case_if; [done|].
  apply (IH _) in H; [done|nia].
Qed.

Lemma ParseUint_range base bits s v :
  (base = 10 ∨ base = 16) → 0 ≤ bits → ParseUint base bits s = (v, true) → v ∈u bits.
Proof.
  intros Hb Hbits. unfold ParseUint. destruct s as [|c s]; [done|]. intros H.
  assert (0 < 2 ^ bits) by (apply Z.pow_pos_nonneg; lia).
  apply parseUint_loop_range in H; [lia|lia| |lia]. intros x d Hd. destruct (base =? 16).
  - apply hex_val_range in Hd. lia.
  - unfold digit_val in Hd. case_if; [|done]. injection Hd as <-. lia.
Qed.
