(* ===== verification/Text.v ===== *)
(** * Text output: strconv, strings and fmt

    Decimal integers, the shortest decimal of a binary64 number as [%g] prints
    it, byte-wise replacers, joining, and the lines of a text.  Go strings are
    lists of bytes. *)
From S2P Require Import Prelude.
From S2P Require Import Float64.
From S2P Require Import Json.
From Stdlib Require Import SpecFloat.

Open Scope Z_scope.

(** The bytes of a literal. *)
Notation "% s" := (bytes_of_string s%string) (at level 8, s at level 0, format "% s").

(** [cmp.Compare] on strings. *)
Fixpoint bytes_compare (a b : list Z) : comparison :=
  match a, b with
  | [], [] => Eq
  | [], _ :: _ => Lt
  | _ :: _, [] => Gt
  | x :: a, y :: b => match x ?= y with Eq => bytes_compare a b | c => c end
  end.

(** [strings.NewReplacer] for one-byte old strings. *)
Definition replaceBytes (r : Z → option (list Z)) (s : list Z) : list Z :=
  concat (map (λ c, default [c] (r c)) s).

(** [strings.Join]. *)
Fixpoint strings_Join (sep : list Z) (l : list (list Z)) : list Z :=
  match l with
  | [] => []
  | [x] => x
  | x :: l => x ++ sep ++ strings_Join sep l
  end.

(** The lines of a text that ends with a newline. *)
Definition unlines (ls : list (list Z)) : list Z := concat (map (λ l, l ++ [10]) ls).
Fixpoint lines_acc (cur s : list Z) : list (list Z) :=
  match s with
  | [] => match cur with [] => [] | _ => [cur] end
  | c :: s => if c =? 10 then cur :: lines_acc [] s else lines_acc (cur ++ [c]) s
  end.
Definition lines (s : list Z) : list (list Z) := lines_acc [] s.

(** ** strconv *)

(** [strconv.FormatUint(v, 10)]: at most 20 digits for 64 bits. *)
Fixpoint formatDigits (fuel : nat) (v : Z) : list Z :=
  match fuel with
  | O => []
  | S fuel => if v <? 10 then [v + 48] else formatDigits fuel (v / 10) ++ [v mod 10 + 48]
  end.
Definition FormatUint (v : Z) : list Z := formatDigits 20 v.

(** The shortest decimal: [v = m * 2^e] is given with the bounds of the interval
    of numbers that round to it, scaled to integers [M], [Lo], [Up] over [D].
    The largest power of ten [10^k] is sought of which a multiple next to [v]
    lies in the interval; of two such the nearer one, the even one in a tie. *)
Record interval := { iv_M : Z; iv_Lo : Z; iv_Up : Z; iv_D : Z; iv_closed : bool }.
Definition interval_of (m e : Z) : interval :=
  let s := Z.max 0 (2 - e) in
  let wide := 2 ^ (e + s) in
  let asym := (m =? 2 ^ 52) && negb (e =? -1074) in
  {| iv_M := m * wide; iv_Up := m * wide + wide / 2;
     iv_Lo := m * wide - (if asym then wide / 4 else wide / 2);
     iv_D := 2 ^ s; iv_closed := Z.even m |}.
Definition within (iv : interval) (num den q : Z) : bool :=
  let x := q * iv_D iv * den in
  if iv_closed iv then (iv_Lo iv * num <=? x) && (x <=? iv_Up iv * num)
  else (iv_Lo iv * num <? x) && (x <? iv_Up iv * num).
Fixpoint shortest (fuel : nat) (k : Z) (iv : interval) : Z * Z :=
  match fuel with
  | O => (0, k)
  | S fuel =>
      let num := if 0 <=? k then 1 else 10 ^ (- k) in
      let den := if 0 <=? k then 10 ^ k else 1 in
      let q := iv_M iv * num / (iv_D iv * den) in
      let rest := iv_M iv * num - q * iv_D iv * den in
      match within iv num den q, within iv num den (q + 1) with
      | true, true =>
          (match 2 * rest ?= iv_D iv * den with
           | Lt => q
           | Gt => q + 1
           | Eq => if Z.even q then q else q + 1
           end, k)
      | true, false => (q, k)
      | false, true => (q + 1, k)
      | false, false => shortest fuel (k - 1) iv
      end
  end.
(** The search starts above the leading digit; 17 digits identify a float64. *)
Definition decimal_of (m e : Z) : Z * Z :=
  shortest 24 ((Z.log2 m + e + 2) * 30103 / 100000 + 1) (interval_of m e).

(** [%e] and [%f] of the digits [ds], the decimal point after [dp] of them. *)
Definition fmtE (ds : list Z) (dp : Z) : list Z :=
  let exp := dp - 1 in
  let mant := match ds with [] => [48] | [d] => [d] | d :: t => d :: 46 :: t end in
  let digits := FormatUint (Z.abs exp) in
  mant ++ [101; if exp <? 0 then 45 else 43] ++ (if Z.abs exp <? 10 then 48 :: digits else digits).
Definition fmtF (ds : list Z) (dp : Z) : list Z :=
  let nd := Z.of_nat (length ds) in
  let int := if 0 <? dp then take (Z.to_nat dp) ds ++ replicate (Z.to_nat (dp - nd)) 48 else [48] in
  let frac := if dp <? nd
              then 46 :: replicate (Z.to_nat (- dp)) 48 ++ drop (Z.to_nat dp) ds else [] in
  int ++ frac.

(** [fmt.Sprintf("%g", v)]. *)
Definition Sprintf_g (v : float64) : list Z :=
  match v with
  | S754_nan => %"NaN"
  | S754_infinity false => %"+Inf"
  | S754_infinity true => %"-Inf"
  | S754_zero neg => (if neg then [45] else []) ++ [48]
  | S754_finite neg m e =>
      let '(q, k) := decimal_of (Zpos m) e in
      let ds := FormatUint q in
      let dp := Z.of_nat (length ds) + k in
      (if neg then [45] else []) ++
      (if (dp - 1 <? -4) || (6 <=? dp - 1) then fmtE ds dp else fmtF ds dp)
  end.

Example Sprintf_g_examples :
  map Sprintf_g [f64_of_Z 10500000; f64_const 1 10; f64_const 1 3; f64_of_Z 100000; f64_const 5 1000000;
                 f64_of_Z (2 ^ 63); f64_const (-25) 2; S754_finite false 1 (-1074); fzero;
                 f64_of_Z 9007199254740993; f64_const 123456 1000] =
  [%"1.05e+07"; %"0.1"; %"0.3333333333333333"; %"100000"; %"5e-06"; %"9.223372036854776e+18"; %"-12.5";
   %"5e-324"; %"0"; %"9.007199254740992e+15"; %"123.456"].
Proof. vm_compute. reflexivity. Qed.

(** * Lemmas *)

Lemma formatDigits_ok fuel v :
  0 ≤ v < 10 ^ Z.of_nat fuel →
  ∃ ds, mapM digit_val (formatDigits fuel v) = Some ds ∧ of_digits 10 ds = v ∧
    Forall (λ d, 0 ≤ d) ds.
Proof.
  revert v. induction fuel as [|fuel IH]; intros v Hv; cbn [formatDigits].
  { change (10 ^ Z.of_nat 0) with 1 in Hv. exists []. split_and!; [done|cbn; lia|done]. }
  assert (∀ d, 0 ≤ d < 10 → digit_val (d + 48) = Some d) as Hdig.
  { intros d Hd. unfold digit_val. if_lia. f_equal. lia. }
  rewrite Nat2Z.inj_succ, Z.pow_succ_r in Hv by lia. case_if.
  - exists [v]. cbn [mapM]. rewrite Hdig by lia. split_and!; [done|cbn; lia|].
    constructor; [lia|done].
  - destruct (IH (v / 10)) as (ds & Hm & Ho & Hp); [Z.to_euclidean_division_equations; lia|].
    assert (0 ≤ v mod 10 < 10) as Hr by (apply Z.mod_pos_bound; lia).
    exists (ds ++ [v mod 10]). split_and!.
    + apply mapM_Some. apply Forall2_app; [by apply mapM_Some|].
      constructor; [by apply Hdig|done].
    + rewrite of_digits_snoc, Ho. pose proof (Z.div_mod v 10). lia.
    + apply Forall_app. split; [done|]. constructor; [lia|done].
Qed.

(** ** Lines *)

Lemma lines_acc_line cur l s : 10 ∉ l → lines_acc cur (l ++ 10 :: s) = (cur ++ l) :: lines_acc [] s.
Proof.
  revert cur. induction l as [|c l IH]; intros cur Hl; cbn [app lines_acc].
  - by rewrite app_nil_r.
  - apply not_elem_of_cons in Hl as [Hc Hl]. rewrite (proj2 (Z.eqb_neq c 10)) by congruence.
    by rewrite IH, <-app_assoc.
Qed.

Lemma unlines_cons l ls : unlines (l :: ls) = l ++ 10 :: unlines ls.
Proof. unfold unlines. cbn [map concat]. by rewrite <-app_assoc. Qed.

Lemma unlines_app ls1 ls2 : unlines (ls1 ++ ls2) = unlines ls1 ++ unlines ls2.
Proof. unfold unlines. by rewrite map_app, concat_app. Qed.

Lemma lines_unlines ls : Forall (λ l, 10 ∉ l) ls → lines (unlines ls) = ls.
Proof.
  unfold lines. induction 1 as [|l ls Hl _ IH]; [done|].
  by rewrite unlines_cons, lines_acc_line, IH.
Qed.

(** ** Order *)

Lemma bytes_compare_eq a b : bytes_compare a b = Eq ↔ a = b.
Proof.
  revert b. induction a as [|x a IH]; intros [|y b]; cbn; try done.
  destruct (Z.compare_spec x y) as [->|?|?]; [|split; [done|]; intros [=]; lia..].
  rewrite IH. naive_solver.
Qed.

Lemma bytes_compare_antisym a b : bytes_compare b a = CompOpp (bytes_compare a b).
Proof.
  revert b. induction a as [|x a IH]; intros [|y b]; cbn; try done.
  rewrite (Z.compare_antisym x y), IH. by destruct (x ?= y).
Qed.

Lemma bytes_compare_trans a b c :
  bytes_compare a b ≠ Gt → bytes_compare b c ≠ Gt → bytes_compare a c ≠ Gt.
Proof.
  revert b c. induction a as [|x a IH]; intros [|y b] [|z c]; cbn; try done.
  destruct (Z.compare_spec x y) as [->|?|?], (Z.compare_spec y z) as [->|?|?]; try done;
    try rewrite Z.compare_refl; eauto.
  all: rewrite (proj2 (Z.compare_lt_iff _ _)) by lia; done.
Qed.

(** ** Printable output *)

Definition graphic (c : Z) : Prop := 32 < c < 127.

Lemma graphic_not c s : Forall graphic s → ¬ graphic c → c ∉ s.
Proof. intros H Hc Hin. rewrite Forall_forall in H. by apply Hc, H. Qed.

Lemma formatDigits_graphic fuel v : 0 ≤ v → Forall graphic (formatDigits fuel v).
Proof.
  unfold graphic. revert v. induction fuel as [|fuel IH]; intros v Hv; cbn [formatDigits]; [done|].
  case_if; [constructor; [lia|done]|]. apply Forall_app. split; [apply IH; by apply Z.div_pos|].
  constructor; [|done]. pose proof (Z.mod_pos_bound v 10). lia.
Qed.

Lemma formatDigits_nonempty fuel v : formatDigits (S fuel) v ≠ [].
Proof. cbn. case_if; [done|]. intros E. by apply app_nil in E as [_ ?]. Qed.

Lemma shortest_nonneg fuel k iv : 0 ≤ iv_M iv → 0 < iv_D iv → 0 ≤ (shortest fuel k iv).1.
Proof.
  intros HM HD. revert k. induction fuel as [|fuel IH]; intros k; cbn [shortest]; [done|].
  assert (0 ≤ iv_M iv * (if 0 <=? k then 1 else 10 ^ (- k)) /
              (iv_D iv * (if 0 <=? k then 10 ^ k else 1))) as Hq.
  { apply Z.div_pos; [case_if; [lia|]|case_if; [|lia]].
    - assert (0 < 10 ^ (- k)) by (apply Z.pow_pos_nonneg; lia). nia.
    - assert (0 < 10 ^ k) by (apply Z.pow_pos_nonneg; lia). nia. }
  repeat case_match; cbn [fst]; try done; lia.
Qed.

Lemma Forall_take_drop {A} (P : A → Prop) n l : Forall P l → Forall P (take n l) ∧ Forall P (drop n l).
Proof. intros H. rewrite <-(take_drop n l) in H. by apply Forall_app in H. Qed.

Lemma Sprintf_g_graphic v : Forall graphic (Sprintf_g v).
Proof.
  destruct v as [s|s| |s m e].
  - destruct s; vm_compute; repeat constructor.
  - destruct s; vm_compute; repeat constructor.
  - vm_compute; repeat constructor.
  - unfold Sprintf_g. destruct (decimal_of (Zpos m) e) as [q k] eqn:E.
    assert (0 ≤ q) as Hq.
    { change q with (q, k).1. rewrite <-E. apply shortest_nonneg; cbn;
        [apply Z.mul_nonneg_nonneg|]; try apply Z.pow_nonneg; try lia. }
    pose proof (formatDigits_graphic 20 q Hq) as HD. fold (FormatUint q) in HD.
    assert (∀ n, Forall graphic (replicate n 48)) as Hz by (intros; apply Forall_replicate; unfold graphic; lia).
    apply Forall_app. split; [destruct s; repeat constructor|].
    case_if.
    + unfold fmtE. rewrite !Forall_app. split_and!.
      * destruct (FormatUint q) as [|d [|d' t]]; [by repeat constructor|done|].
        apply Forall_cons in HD as [? ?]. constructor; [done|]. constructor; [unfold graphic; lia|done].
      * constructor; [unfold graphic; lia|]. constructor; [case_if; unfold graphic; lia|done].
      * pose proof (formatDigits_graphic 20 (Z.abs (Z.of_nat (length (FormatUint q)) + k - 1)) ltac:(lia)).
        case_if; [constructor; [unfold graphic; lia|]|]; done.
    + unfold fmtF. set (dp := Z.of_nat _ + k).
      pose proof (Forall_take_drop graphic (Z.to_nat dp) _ HD) as [? ?].
      apply Forall_app. split; case_if; try (apply Forall_app; by split); repeat constructor; auto.
      apply Forall_app. by split.
Qed.
