(* ===== verification/Metrics.v ===== *)
(** * internal/metrics: the registry and the text exposition

    Counters and gauges, their registration, and the text that a scrape reads.  A
    metric is never removed, so a pointer to it is modelled by the key the
    registry keeps it under.  A panic is [None].  An [io.Writer] accepts a number
    of writes and then fails, possibly after part of a write. *)
From S2P Require Import Prelude.
From S2P Require Import Float64.
From S2P Require Import Utf8.
From S2P Require Import Json.
From S2P Require Import Text.

Open Scope Z_scope.

(** ** Data *)

Notation labelmap := (gmap (list Z) (list Z)).

Record Counter := { c_name : list Z; c_help : list Z; c_labels : labelmap; c_value : Z }.
Record Gauge := { g_name : list Z; g_help : list Z; g_labels : labelmap; g_value : float64 }.

Record writer := { written : list Z; fails : option (nat * nat) }.
Definition Fprint (s : list Z) (w : writer) : writer * option error :=
  match fails w with
  | None => ({| written := written w ++ s; fails := None |}, None)
  | Some (S n, k) => ({| written := written w ++ s; fails := Some (n, k) |}, None)
  | Some (O, k) => ({| written := written w ++ take k s; fails := Some (O, O) |},
                    Some (Sentinel "short write"))
  end.

Definition CollectFunc : Type := writer → writer * option error.

Record Registry := {
  counters : gmap (list Z) Counter;
  gauges : gmap (list Z) Gauge;
  collectors : list CollectFunc;
}.
Definition NewRegistry : Registry := {| counters := ∅; gauges := ∅; collectors := [] |}.
Definition RegisterCollector (fn : CollectFunc) (r : Registry) : Registry :=
  {| counters := counters r; gauges := gauges r; collectors := collectors r ++ [fn] |}.

(** ** Names *)

Definition letter (r : Z) : bool := ((97 <=? r) && (r <=? 122)) || ((65 <=? r) && (r <=? 90)).
Definition digit (r : Z) : bool := (48 <=? r) && (r <=? 57).

(** The loop of both validators; [extra] are the punctuation runes allowed. *)
Definition validRunes (extra : Z → bool) (rs : list Z) : bool :=
  match rs with
  | [] => false
  | r :: rs => (letter r || extra r) && forallb (λ r, letter r || extra r || digit r) rs
  end.
Definition isValidMetricName (name : list Z) : bool :=
  validRunes (λ r, (r =? 95) || (r =? 58)) (runes name).
Definition isValidLabelName (name : list Z) : bool := validRunes (λ r, r =? 95) (runes name).
Definition validateLabelNames (labels : labelmap) : bool :=
  forallb isValidLabelName (map_to_list labels).*1.

(** ** Keys *)

Definition sortedKeys (labels : labelmap) : list (list Z) :=
  SortStableFunc bytes_compare (map_to_list labels).*1.

Definition metricKey (name : list Z) (labels : labelmap) : list Z :=
  name ++ concat (map (λ k, [44] ++ k ++ [61] ++ default [] (labels !! k)) (sortedKeys labels)).

(** ** Counters and gauges *)

Definition gaugeNameExists (m : gmap (list Z) Gauge) (name : list Z) : bool :=
  existsb (λ g, bool_decide (g_name g = name)) (map_to_list m).*2.
Definition counterNameExists (m : gmap (list Z) Counter) (name : list Z) : bool :=
  existsb (λ c, bool_decide (c_name c = name)) (map_to_list m).*2.

Definition NewCounter (name help : list Z) (labels : labelmap) (r : Registry)
    : option (Registry * list Z) :=
  if negb (isValidMetricName name) then None
  else if negb (validateLabelNames labels) then None
  else
    let key := metricKey name labels in
    match counters r !! key with
    | Some _ => Some (r, key)
    | None =>
        if gaugeNameExists (gauges r) name then None
        else Some ({| counters := <[key := {| c_name := name; c_help := help; c_labels := labels;
                                             c_value := 0 |}]> (counters r);
                      gauges := gauges r; collectors := collectors r |}, key)
    end.

Definition NewGauge (name help : list Z) (labels : labelmap) (r : Registry)
    : option (Registry * list Z) :=
  if negb (isValidMetricName name) then None
  else if negb (validateLabelNames labels) then None
  else
    let key := metricKey name labels in
    match gauges r !! key with
    | Some _ => Some (r, key)
    | None =>
        if counterNameExists (counters r) name then None
        else Some ({| counters := counters r;
                      gauges := <[key := {| g_name := name; g_help := help; g_labels := labels;
                                           g_value := fzero |}]> (gauges r);
                      collectors := collectors r |}, key)
    end.

Definition add_value (delta : Z) (c : Counter) : Counter :=
  {| c_name := c_name c; c_help := c_help c; c_labels := c_labels c;
     c_value := wrap 64 (c_value c + delta) |}.
Definition set_value (v : float64) (g : Gauge) : Gauge :=
  {| g_name := g_name g; g_help := g_help g; g_labels := g_labels g; g_value := v |}.

Definition counter_Add (key : list Z) (delta : Z) (r : Registry) : Registry :=
  {| counters := alter (add_value delta) key (counters r); gauges := gauges r;
     collectors := collectors r |}.
Definition counter_Inc (key : list Z) (r : Registry) : Registry := counter_Add key 1 r.
Definition counter_Value (key : list Z) (r : Registry) : Z :=
  from_option c_value 0 (counters r !! key).
Definition gauge_Set (key : list Z) (v : float64) (r : Registry) : Registry :=
  {| counters := counters r; gauges := alter (set_value v) key (gauges r);
     collectors := collectors r |}.
Definition gauge_Value (key : list Z) (r : Registry) : float64 :=
  from_option g_value fzero (gauges r !! key).

(** ** Exposition *)

Definition escapeLabel (v : list Z) : list Z :=
  replaceBytes (λ c, if c =? 92 then Some [92; 92] else if c =? 34 then Some [92; 34]
                     else if c =? 10 then Some [92; 110] else None) v.
Definition escapeHelp (v : list Z) : list Z :=
  replaceBytes (λ c, if c =? 92 then Some [92; 92] else if c =? 10 then Some [92; 110] else None) v.

Definition formatFloat (v : float64) : list Z :=
  if IsNaN v then %"NaN"
  else if IsInf v then (if signbit v then %"-Inf" else %"+Inf")
  else Sprintf_g v.

Definition renderLabels (labels : labelmap) : list Z :=
  match map_to_list labels with
  | [] => []
  | _ => [123] ++ strings_Join [44]
           (map (λ k, k ++ %"=" ++ [34] ++ escapeLabel (default [] (labels !! k)) ++ [34])
              (sortedKeys labels)) ++ [125]
  end.

Inductive kind := metricKindCounter | metricKindGauge.
#[global] Instance kind_eq_dec : EqDecision kind.
Proof. solve_decision. Defined.
Definition kindText (k : kind) : list Z :=
  match k with metricKindCounter => %"counter" | metricKindGauge => %"gauge" end.

Record entry := {
  e_name : list Z; e_help : list Z; e_kind : kind; e_labels : labelmap; e_text : list Z; e_key : list Z }.

Definition counterEntry (c : Counter) : entry :=
  {| e_name := c_name c; e_help := c_help c; e_kind := metricKindCounter; e_labels := c_labels c;
     e_text := FormatUint (c_value c); e_key := metricKey (c_name c) (c_labels c) |}.
Definition gaugeEntry (g : Gauge) : entry :=
  {| e_name := g_name g; e_help := g_help g; e_kind := metricKindGauge; e_labels := g_labels g;
     e_text := formatFloat (g_value g); e_key := metricKey (g_name g) (g_labels g) |}.

Definition compareEntries (a b : entry) : comparison :=
  match bytes_compare (e_name a) (e_name b) with
  | Eq => bytes_compare (e_key a) (e_key b)
  | c => c
  end.

Definition entries (r : Registry) : list entry :=
  SortStableFunc compareEntries
    ((counterEntry <$> (map_to_list (counters r)).*2) ++ (gaugeEntry <$> (map_to_list (gauges r)).*2)).

(** Running writes one after the other, stopping at the first error. *)
Definition andThen (m k : writer → writer * option error) (w : writer) : writer * option error :=
  match m w with
  | (w, None) => k w
  | (w, Some e) => (w, Some e)
  end.
Definition noop (w : writer) : writer * option error := (w, None).

Fixpoint emit (seen : gset (list Z)) (es : list entry) : writer → writer * option error :=
  match es with
  | [] => noop
  | e :: es =>
      andThen
        (if bool_decide (e_name e ∈ seen) then noop
         else andThen (Fprint (%"# HELP " ++ e_name e ++ [32] ++ escapeHelp (e_help e) ++ [10]))
                      (Fprint (%"# TYPE " ++ e_name e ++ [32] ++ kindText (e_kind e) ++ [10])))
        (andThen (Fprint (e_name e ++ renderLabels (e_labels e) ++ [32] ++ e_text e ++ [10]))
           (emit ({[e_name e]} ∪ seen) es))
  end.

Definition WriteText (r : Registry) : writer → writer * option error :=
  andThen (emit ∅ (entries r)) (foldr andThen noop (collectors r)).

(** * The exposition format

    A reader of the Prometheus text format, independent of the writer: comment
    lines announce a metric, sample lines carry a label set and a value. *)
Inductive expoLine :=
  | HelpLine (name help : list Z)
  | TypeLine (name kind : list Z)
  | Sample (name : list Z) (labels : list (list Z * list Z)) (value : list Z).

Fixpoint strip (p s : list Z) : option (list Z) :=
  match p, s with
  | [], _ => Some s
  | x :: p, y :: s => if x =? y then strip p s else None
  | _ :: _, [] => None
  end.
Fixpoint span (f : Z → bool) (s : list Z) : list Z * list Z :=
  match s with
  | [] => ([], [])
  | c :: t => if f c then let '(a, b) := span f t in (c :: a, b) else ([], s)
  end.

Fixpoint unescapeHelp (s : list Z) : option (list Z) :=
  match s with
  | [] => Some []
  | c :: s =>
      if c =? 92 then
        match s with
        | d :: s => if d =? 92 then cons 92 <$> unescapeHelp s
                    else if d =? 110 then cons 10 <$> unescapeHelp s else None
        | [] => None
        end
      else cons c <$> unescapeHelp s
  end.
Fixpoint readQuoted (s : list Z) : option (list Z * list Z) :=
  match s with
  | [] => None
  | c :: s =>
      if c =? 34 then Some ([], s)
      else if c =? 92 then
        match s with
        | d :: s => if (d =? 92) || (d =? 34) then prod_map (cons d) id <$> readQuoted s
                    else if d =? 110 then prod_map (cons 10) id <$> readQuoted s else None
        | [] => None
        end
      else prod_map (cons c) id <$> readQuoted s
  end.
Fixpoint readLabels (fuel : nat) (s : list Z) : option (list (list Z * list Z) * list Z) :=
  match fuel with
  | O => None
  | S fuel =>
      let '(k, s) := span (λ c, negb (c =? 61)) s in
      match s with
      | 61 :: 34 :: s =>
          if negb (isValidLabelName k) then None
          else '(v, s) ← readQuoted s;
          match s with
          | 44 :: s => '(ls, t) ← readLabels fuel s; Some ((k, v) :: ls, t)
          | 125 :: s => Some ([(k, v)], s)
          | _ => None
          end
      | _ => None
      end
  end.

Definition parseLine (s : list Z) : option expoLine :=
  let named f s :=
    let '(n, s) := span (λ c, negb (c =? 32)) s in
    match s with 32 :: s => if isValidMetricName n then f n s else None | _ => None end in
  match strip (%"# HELP ") s, strip (%"# TYPE ") s with
  | Some s, _ => named (λ n s, HelpLine n <$> unescapeHelp s) s
  | None, Some s => named (λ n s, Some (TypeLine n s)) s
  | None, None =>
      let '(n, s) := span (λ c, negb ((c =? 32) || (c =? 123))) s in
      if negb (isValidMetricName n) then None
      else match s with
      | 32 :: v => Some (Sample n [] v)
      | 123 :: s => '(ls, s) ← readLabels (length s) s;
                    match s with 32 :: v => Some (Sample n ls v) | _ => None end
      | _ => None
      end
  end.
Definition parseText (s : list Z) : option (list expoLine) := mapM parseLine (lines s).

(** One metric family: its comments and then its samples. *)
Record family := { f_name : list Z; f_help : list Z; f_kind : kind;
                   f_samples : list (list (list Z * list Z) * list Z) }.
Definition familyLines (f : family) : list expoLine :=
  HelpLine (f_name f) (f_help f) :: TypeLine (f_name f) (kindText (f_kind f)) ::
  map (λ s, Sample (f_name f) s.1 s.2) (f_samples f).

Definition labelList (labels : labelmap) : list (list Z * list Z) :=
  map (λ k, (k, default [] (labels !! k))) (sortedKeys labels).

(** ** What the escaping functions promise the reader *)

Definition wordByte (c : Z) : bool := letter c || digit c || (c =? 95) || (c =? 58).

Lemma wordByte_not c : wordByte c = true → c ∉ [10; 32; 34; 35; 44; 61; 92; 123; 125].
Proof.
  unfold wordByte, letter, digit. intros H Hin. repeat (apply elem_of_cons in Hin as [->|Hin]; [done|]).
  by apply elem_of_nil in Hin.
Qed.

Lemma validRunes_word extra s :
  (∀ r, extra r = true → r = 95 ∨ r = 58) → validRunes extra (runes s) = true →
  s ≠ [] ∧ Forall (λ c, wordByte c = true) s.
Proof.
  intros He H.
  assert (Forall (λ c, wordByte c = true) (runes s)) as HW.
  { destruct (runes s) as [|r rs]; [done|]. cbn in H. apply andb_true_iff in H as [H1 H2].
    constructor.
    - unfold wordByte. destruct (extra r) eqn:E; [apply He in E; lia|]. unfold letter, digit in *. lia.
    - rewrite forallb_forall in H2. apply Forall_forall. intros c Hc%list_elem_of_In. specialize (H2 c Hc).
      unfold wordByte. destruct (extra c) eqn:E; [apply He in E; lia|]. unfold letter, digit in *. lia. }
  assert (runes s = s) as Hr.
  { apply runes_ascii. eapply Forall_impl; [exact HW|]. cbn. unfold wordByte, letter, digit. lia. }
  rewrite Hr in *. split; [|done]. by intros ->.
Qed.

Lemma metricName_word n : isValidMetricName n = true → n ≠ [] ∧ Forall (λ c, wordByte c = true) n.
Proof. apply validRunes_word. lia. Qed.
Lemma labelName_word n : isValidLabelName n = true → n ≠ [] ∧ Forall (λ c, wordByte c = true) n.
Proof. apply validRunes_word. lia. Qed.

Lemma word_not n c : Forall (λ c, wordByte c = true) n → wordByte c = false → c ∉ n.
Proof. intros H Hc Hin. rewrite Forall_forall in H. specialize (H c Hin). congruence. Qed.

Lemma span_stop f a c s : Forall (λ x, f x = true) a → f c = false → span f (a ++ c :: s) = (a, c :: s).
Proof.
  intros Ha Hc. induction Ha as [|x a Hx _ IH]; cbn [app span]; [by rewrite Hc|]. by rewrite Hx, IH.
Qed.

Lemma span_word f a c s :
  Forall (λ x, wordByte x = true) a → (∀ x, wordByte x = true → f x = true) → f c = false →
  span f (a ++ c :: s) = (a, c :: s).
Proof. intros Ha Hf Hc. apply span_stop; [|done]. eapply Forall_impl; eauto. Qed.

Lemma unescape_escapeHelp h : unescapeHelp (escapeHelp h) = Some h.
Proof.
  unfold escapeHelp, replaceBytes. induction h as [|c h IH]; [done|]. cbn [map concat].
  repeat case_if; subst; cbn [default from_option id app unescapeHelp];
    [by rewrite Z.eqb_refl, IH..|].
  destruct (Z.eqb_spec c 92); [done|]. by rewrite IH.
Qed.

Lemma readQuoted_escapeLabel v s : readQuoted (escapeLabel v ++ 34 :: s) = Some (v, s).
Proof.
  unfold escapeLabel, replaceBytes. induction v as [|c v IH]; [done|]. cbn [map concat].
  repeat case_if; subst; cbn; try (by rewrite IH).
  destruct (Z.eqb_spec c 34), (Z.eqb_spec c 92); try done. by rewrite IH.
Qed.

Lemma replaceBytes_no r s c :
  (∀ x, c ∉ default [x] (r x)) → c ∉ replaceBytes r s.
Proof.
  intros H. unfold replaceBytes. rewrite list_elem_of_In, in_concat.
  intros (l & (x & <- & _)%in_map_iff & Hin%list_elem_of_In). by apply (H x).
Qed.

Lemma escapeHelp_line h : 10 ∉ escapeHelp h.
Proof. apply replaceBytes_no. intros x. repeat case_if; cbn; set_solver by lia. Qed.
Lemma escapeLabel_line v : 10 ∉ escapeLabel v.
Proof. apply replaceBytes_no. intros x. repeat case_if; cbn; set_solver by lia. Qed.

(** ** Label sets *)

Lemma labelList_Permutation ls : labelList ls ≡ₚ map_to_list ls.
Proof.
  unfold labelList, sortedKeys. rewrite SortStableFunc_Permutation, map_map.
  assert (∀ l : list (list Z * list Z), (∀ kv, kv ∈ l → ls !! kv.1 = Some kv.2) →
    map (λ x, (x.1, default [] (ls !! x.1))) l = l) as H.
  { induction l as [|[k v] l IH]; intros Hl; [done|]. cbn [map fst].
    pose proof (Hl (k, v) ltac:(set_solver)) as E. cbn [fst snd] in E. rewrite E. cbn. f_equal.
    apply IH. set_solver. }
  rewrite H; [done|]. intros [k v] Hkv. by apply elem_of_map_to_list.
Qed.

Lemma labelList_inj l1 l2 : labelList l1 = labelList l2 → l1 = l2.
Proof.
  intros E. apply map_to_list_inj. by rewrite <-!labelList_Permutation, E.
Qed.

Lemma labelList_valid ls :
  validateLabelNames ls = true → Forall (λ kv, isValidLabelName kv.1 = true) (labelList ls).
Proof.
  unfold validateLabelNames. rewrite forallb_forall. intros H. rewrite labelList_Permutation.
  apply Forall_forall. intros kv Hkv. apply H, list_elem_of_In. apply list_elem_of_fmap. eauto.
Qed.

Definition renderPair (kv : list Z * list Z) : list Z :=
  kv.1 ++ %"=" ++ [34] ++ escapeLabel kv.2 ++ [34].

Lemma renderLabels_eq ls :
  renderLabels ls = match labelList ls with
                    | [] => []
                    | kvs => [123] ++ strings_Join [44] (map renderPair kvs) ++ [125]
                    end.
Proof.
  unfold renderLabels. pose proof (labelList_Permutation ls) as HP.
  assert (map (λ k, k ++ %"=" ++ [34] ++ escapeLabel (default [] (ls !! k)) ++ [34]) (sortedKeys ls) =
          map renderPair (labelList ls)) as -> by (unfold labelList; by rewrite map_map).
  destruct (map_to_list ls); [by apply Permutation_nil_r in HP as ->|].
  destruct (labelList ls); [by apply Permutation_nil_cons in HP|done].
Qed.

Lemma strings_Join_cons sep x l : l ≠ [] → strings_Join sep (x :: l) = x ++ sep ++ strings_Join sep l.
Proof. by destruct l. Qed.

Lemma readLabels_join kvs : ∀ fuel s,
  kvs ≠ [] → (length kvs ≤ fuel)%nat → Forall (λ kv, isValidLabelName kv.1 = true) kvs →
  readLabels fuel (strings_Join [44] (map renderPair kvs) ++ 125 :: s) = Some (kvs, s).
Proof.
  induction kvs as [|[k v] kvs IH]; intros fuel s Hne Hf HV; [done|].
  apply Forall_cons in HV as [Hk HV]. cbn [fst] in Hk. destruct fuel as [|fuel]; cbn [length] in Hf; [lia|].
  assert (∀ t, span (λ c, negb (c =? 61)) (renderPair (k, v) ++ t) =
               (k, 61 :: 34 :: escapeLabel v ++ 34 :: t)) as Hs.
  { intros t. unfold renderPair. cbn [fst snd]. rewrite <-!app_assoc. change (%"=") with [61].
    cbn [app]. apply span_word; [by apply labelName_word| |done].
    intros x Hx. apply wordByte_not in Hx. rewrite !not_elem_of_cons in Hx. lia. }
  destruct kvs as [|kv kvs].
  - cbn [map strings_Join readLabels]. rewrite Hs, Hk. cbn [negb].
    rewrite readQuoted_escapeLabel. done.
  - specialize (IH fuel s ltac:(done) ltac:(cbn [length] in *; lia) HV).
    change (map renderPair ((k, v) :: kv :: kvs)) with (renderPair (k, v) :: map renderPair (kv :: kvs)).
    rewrite strings_Join_cons by done. revert IH. generalize (strings_Join [44] (map renderPair (kv :: kvs))).
    intros J IH. cbn [readLabels]. rewrite <-!app_assoc, Hs, Hk. cbn [negb].
    rewrite readQuoted_escapeLabel. cbn [mbind option_bind app]. by rewrite IH.
Qed.

Lemma length_strings_Join sep l :
  Forall (λ x, x ≠ []) l → (length l ≤ length (strings_Join sep l))%nat.
Proof.
  induction 1 as [|x l Hx _ IH]; [done|]. destruct x; [done|].
  destruct l as [|y l]; cbn [strings_Join length] in *; [lia|]. rewrite !length_app. cbn [length app] in *. lia.
Qed.

(** ** Lines *)

Definition renderLine (l : expoLine) : list Z :=
  match l with
  | HelpLine n h => %"# HELP " ++ n ++ [32] ++ escapeHelp h
  | TypeLine n k => %"# TYPE " ++ n ++ [32] ++ k
  | Sample n [] v => n ++ [32] ++ v
  | Sample n kvs v => n ++ [123] ++ strings_Join [44] (map renderPair kvs) ++ [125] ++ [32] ++ v
  end.
Definition lineName (l : expoLine) : list Z :=
  match l with HelpLine n _ | TypeLine n _ | Sample n _ _ => n end.
Definition lineOk (l : expoLine) : Prop :=
  isValidMetricName (lineName l) = true ∧
  match l with
  | HelpLine _ _ => True
  | TypeLine _ k => 10 ∉ k
  | Sample _ kvs v => Forall (λ kv, isValidLabelName kv.1 = true) kvs ∧ 10 ∉ v
  end.

Lemma strip_app p s : strip p (p ++ s) = Some s.
Proof. induction p as [|x p IH]; [done|]. cbn. by rewrite Z.eqb_refl. Qed.

Lemma strip_name n p s : n ≠ [] → Forall (λ c, wordByte c = true) n → strip (35 :: p) (n ++ s) = None.
Proof.
  intros Hn HW. destruct n as [|c n]; [done|]. apply Forall_cons in HW as [Hc _]. cbn [app strip].
  apply wordByte_not in Hc. rewrite !not_elem_of_cons in Hc. by rewrite (proj2 (Z.eqb_neq 35 c)) by lia.
Qed.

Lemma parse_render l : lineOk l → parseLine (renderLine l) = Some l.
Proof.
  intros [HN HO]. pose proof (metricName_word _ HN) as [Hne HW].
  assert (∀ x, wordByte x = true → negb (x =? 32) = true ∧ negb ((x =? 32) || (x =? 123)) = true) as Hx.
  { intros x H%wordByte_not. rewrite !not_elem_of_cons in H. lia. }
  destruct l as [n h|n k|n kvs v]; cbn [lineName] in *; unfold parseLine.
  - unfold renderLine. rewrite strip_app. cbn [app]. rewrite (span_word _ n 32); [|done|naive_solver|done].
    rewrite HN, unescape_escapeHelp. done.
  - unfold renderLine. rewrite strip_app.
    change (strip (%"# HELP ") (%"# TYPE " ++ n ++ [32] ++ k)) with (@None (list Z)).
    cbn [app]. rewrite (span_word _ n 32); [|done|naive_solver|done]. by rewrite HN.
  - destruct HO as [HL _].
    assert (∀ p t, strip (35 :: p) (n ++ t) = None) as Hp by (intros; by apply strip_name).
    destruct kvs as [|kv kvs]; cbn [renderLine].
    + change (%"# HELP ") with (35 :: %" HELP "). change (%"# TYPE ") with (35 :: %" TYPE ").
      rewrite !Hp. cbn [app]. rewrite (span_word _ n 32); [|done|naive_solver|done]. by rewrite HN.
    + change (%"# HELP ") with (35 :: %" HELP "). change (%"# TYPE ") with (35 :: %" TYPE ").
      rewrite !Hp. set (J := strings_Join _ _). cbn [app]. rewrite (span_word _ n 123); [|done|naive_solver|done].
      rewrite HN. cbn [negb app]. unfold J.
      rewrite readLabels_join; [done|done| |done].
      pose proof (length_strings_Join [44] (map renderPair (kv :: kvs))) as HJ.
      rewrite length_map in HJ. rewrite length_app. etrans; [apply HJ|lia].
      apply Forall_forall. intros x (y & <- & _)%list_elem_of_In%in_map_iff.
      unfold renderPair. intros E. by apply app_nil in E as [_ ?].
Qed.

Lemma join_line sep l c : c ∉ sep → Forall (λ x, c ∉ x) l → c ∉ strings_Join sep l.
Proof.
  intros Hs. induction 1 as [|x l Hx _ IH]; [apply not_elem_of_nil|].
  destruct l as [|y l]; [done|]. cbn [strings_Join] in *. rewrite !not_elem_of_app. done.
Qed.

Lemma render_line l : lineOk l → 10 ∉ renderLine l.
Proof.
  intros [HN HO]. apply metricName_word in HN as [_ HW].
  assert (10 ∉ lineName l) by (by eapply word_not).
  destruct l as [n h|n k|n kvs v]; cbn [lineName] in *.
  - unfold renderLine. rewrite !not_elem_of_app. split_and!; [decide_vm|done|set_solver|apply escapeHelp_line].
  - unfold renderLine. rewrite !not_elem_of_app. split_and!; [decide_vm|done|set_solver|done].
  - destruct HO as [HL Hv]. assert (10 ∉ strings_Join [44] (map renderPair kvs)) as HJ.
    { apply join_line; [set_solver|]. apply Forall_forall.
      intros x ([k w] & <- & Hin)%list_elem_of_In%in_map_iff. rewrite Forall_forall in HL.
      apply list_elem_of_In in Hin. specialize (HL _ Hin) as [_ Hk]%labelName_word. unfold renderPair. cbn [fst snd].
      rewrite !not_elem_of_app. split_and!; [by eapply word_not|decide_vm|set_solver|apply escapeLabel_line|set_solver]. }
    destruct kvs; unfold renderLine; rewrite !not_elem_of_app; split_and!; set_solver.
Qed.

Lemma parse_renderText ls :
  Forall lineOk ls → parseText (unlines (map renderLine ls)) = Some ls.
Proof.
  intros H. unfold parseText. rewrite lines_unlines.
  - apply mapM_Some. induction H; constructor; [by apply parse_render|done].
  - apply Forall_forall. intros x (l & <- & Hl)%list_elem_of_In%in_map_iff.
    apply render_line. rewrite Forall_forall in H. by apply H, list_elem_of_In.
Qed.

(** ** Writing *)

Definition puts (chunks : list (list Z)) : writer → writer * option error :=
  foldr (λ s k, andThen (Fprint s) k) noop chunks.

Lemma andThen_assoc a b c w : andThen (andThen a b) c w = andThen a (andThen b c) w.
Proof. unfold andThen. by destruct (a w) as [w' [e|]]. Qed.

Lemma andThen_ext a b b' w : (∀ w, b w = b' w) → andThen a b w = andThen a b' w.
Proof. intros H. unfold andThen. by destruct (a w) as [w' [e|]]. Qed.

Lemma puts_spec chunks w :
  let '(w', err) := puts chunks w in
  ∃ p, written w' = written w ++ p ∧ p `prefix_of` concat chunks ∧
    (err = None → p = concat chunks) ∧ (fails w = None → err = None ∧ fails w' = None).
Proof.
  revert w. induction chunks as [|s chunks IH]; intros w; cbn [puts foldr concat].
  { exists []. split_and!; [by rewrite app_nil_r|done|done|done]. }
  fold (puts chunks). unfold andThen, Fprint. destruct (fails w) as [[[|n] k]|] eqn:E.
  - exists (take k s). cbn. split_and!; [done| |done|done].
    by apply prefix_app_r, prefix_take.
  - specialize (IH {| written := written w ++ s; fails := Some (n, k) |}).
    destruct (puts chunks _) as [w' err]. destruct IH as (p & H1 & H2 & H3 & _). cbn in H1.
    exists (s ++ p). split_and!; [by rewrite H1, app_assoc|by apply prefix_app|by intros ->%H3|done].
  - specialize (IH {| written := written w ++ s; fails := None |}).
    destruct (puts chunks _) as [w' err]. destruct IH as (p & H1 & H2 & H3 & H4). cbn in H1.
    exists (s ++ p). split_and!; [by rewrite H1, app_assoc|by apply prefix_app|by intros ->%H3|].
    intros _. by apply H4.
Qed.

Definition sampleOf (e : entry) : list (list Z * list Z) * list Z := (labelList (e_labels e), e_text e).
Fixpoint emitLines (seen : gset (list Z)) (es : list entry) : list expoLine :=
  match es with
  | [] => []
  | e :: es =>
      (if bool_decide (e_name e ∈ seen) then []
       else [HelpLine (e_name e) (e_help e); TypeLine (e_name e) (kindText (e_kind e))]) ++
      Sample (e_name e) (sampleOf e).1 (sampleOf e).2 :: emitLines ({[e_name e]} ∪ seen) es
  end.

Lemma renderSample e :
  renderLine (Sample (e_name e) (sampleOf e).1 (sampleOf e).2) ++ [10] =
  e_name e ++ renderLabels (e_labels e) ++ [32] ++ e_text e ++ [10].
Proof.
  rewrite renderLabels_eq. cbn [sampleOf fst snd]. destruct (labelList _) as [|kv kvs]; cbn [renderLine].
  - by rewrite <-!app_assoc.
  - rewrite <-!app_assoc. done.
Qed.

Lemma emit_puts es : ∀ seen w,
  emit seen es w = puts (map (λ l, renderLine l ++ [10]) (emitLines seen es)) w.
Proof.
  induction es as [|e es IH]; intros seen w; [done|]. cbn [emit emitLines].
  case_bool_decide; cbn [app map puts foldr]; fold (puts (map (λ l, renderLine l ++ [10])
     (emitLines ({[e_name e]} ∪ seen) es))); rewrite renderSample.
  - unfold andThen at 1. cbn [noop]. apply andThen_ext. intros. apply IH.
  - rewrite andThen_assoc. cbn [renderLine]. rewrite <-!app_assoc.
    do 3 (apply andThen_ext; intros). apply IH.
Qed.

(** ** Families *)

Definition singleFamily (e : entry) : family :=
  {| f_name := e_name e; f_help := e_help e; f_kind := e_kind e; f_samples := [sampleOf e] |}.
Fixpoint group (es : list entry) : list family :=
  match es with
  | [] => []
  | e :: es =>
      match group es with
      | f :: fs =>
          if bool_decide (f_name f = e_name e)
          then {| f_name := e_name e; f_help := e_help e; f_kind := e_kind e;
                  f_samples := sampleOf e :: f_samples f |} :: fs
          else singleFamily e :: f :: fs
      | [] => [singleFamily e]
      end
  end.

Definition nameLe (a b : entry) : Prop := bytes_compare (e_name a) (e_name b) ≠ Gt.

Lemma nameLe_antisym a b : nameLe a b → nameLe b a → e_name a = e_name b.
Proof.
  unfold nameLe. rewrite (bytes_compare_antisym (e_name a)). intros H1 H2. apply bytes_compare_eq.
  by destruct (bytes_compare _ _).
Qed.

Lemma group_head e es : ∃ f fs, group (e :: es) = f :: fs ∧ f_name f = e_name e.
Proof. cbn [group]. destruct (group es); [eauto|]. case_bool_decide; eauto. Qed.

(** Names between equal names in a sorted list are equal to them. *)
Lemma sorted_head_name e h es e' :
  StronglySorted nameLe (e :: h :: es) → e' ∈ h :: es → e_name e' = e_name e → e_name h = e_name e.
Proof.
  intros Hs Hin E. apply StronglySorted_inv in Hs as [Hs He].
  apply Forall_cons in He as [He _]. apply elem_of_cons in Hin as [->|Hin]; [done|].
  apply StronglySorted_inv in Hs as [_ Hh]. rewrite Forall_forall in Hh. specialize (Hh e' Hin).
  symmetry. apply nameLe_antisym; [done|]. unfold nameLe in *. by rewrite E in Hh.
Qed.

Lemma emit_group es : ∀ seen,
  StronglySorted nameLe es →
  (∀ e h t, es = h :: t → e ∈ es → e_name e ∈ seen → e_name e = e_name h) →
  emitLines seen es =
  match group es with
  | [] => []
  | f :: fs => (if bool_decide (f_name f ∈ seen) then map (λ s, Sample (f_name f) s.1 s.2) (f_samples f)
                else familyLines f) ++ concat (map familyLines fs)
  end.
Proof.
  induction es as [|e es IH]; intros seen Hs Hseen; [done|]. cbn [emitLines].
  pose proof (proj1 (StronglySorted_inv Hs)) as Hs'.
  rewrite IH; [|done|].
  - destruct es as [|h es]; [cbn; by case_bool_decide|].
    destruct (group_head h es) as (f & fs & Eg & Ef).
    cbn [group] in *. rewrite Eg, Ef. destruct (decide (e_name h = e_name e)) as [E|E].
    + rewrite (bool_decide_eq_true_2 (e_name h ∈ _)) by set_solver.
      rewrite (bool_decide_eq_true_2 (e_name h = _)) by done. cbn [f_name f_samples].
      rewrite ?E. by case_bool_decide; cbn; rewrite ?Ef, ?E.
    + rewrite (bool_decide_eq_false_2 (e_name h ∈ _)).
      2: { intros [?%elem_of_singleton|Hin]%elem_of_union; [done|]. apply E.
           apply (Hseen h e (h :: es)); [done|set_solver|done]. }
      rewrite (bool_decide_eq_false_2 (e_name h = _)) by done. cbn [singleFamily f_name f_samples map concat].
      by case_bool_decide.
  - intros e' h t -> Hin [He'%elem_of_singleton|He']%elem_of_union.
    + rewrite He'. symmetry. by eapply sorted_head_name.
    + assert (e_name e' = e_name e) as E by (apply (Hseen e' e (h :: t)); [done|set_solver|done]).
      rewrite E. symmetry. by eapply sorted_head_name.
Qed.

Lemma group_samples es :
  concat (map (λ f, map (λ s, (f_name f, s)) (f_samples f)) (group es)) = map (λ e, (e_name e, sampleOf e)) es.
Proof.
  induction es as [|e es IH]; [done|]. cbn [group map]. rewrite <-IH.
  destruct (group es) as [|f fs]; [done|]. case_bool_decide as E; [|done].
  cbn [map concat f_name f_samples app]. by rewrite E.
Qed.

Lemma group_from es f :
  f ∈ group es → ∃ e, e ∈ es ∧ f_name f = e_name e ∧ f_kind f = e_kind e ∧ f_help f = e_help e.
Proof.
  revert f. induction es as [|e es IH]; intros f; [set_solver|]. cbn [group].
  destruct (group es) as [|g gs]; [|case_bool_decide as E].
  - intros ->%list_elem_of_singleton. exists e. split; [set_solver|done].
  - intros [->|Hf]%elem_of_cons; [exists e; split; [set_solver|done]|].
    destruct (IH f) as (e' & ? & ?); [set_solver|]. exists e'. split; [set_solver|done].
  - intros [->|Hf]%elem_of_cons; [exists e; split; [set_solver|done]|].
    destruct (IH f) as (e' & ? & ?); [done|]. exists e'. split; [set_solver|done].
Qed.

Lemma group_NoDup es : StronglySorted nameLe es → NoDup (f_name <$> group es).
Proof.
  induction es as [|e es IH]; intros Hs; [constructor|].
  pose proof (proj1 (StronglySorted_inv Hs)) as Hs'. specialize (IH Hs').
  destruct es as [|h es]; [cbn; apply NoDup_singleton|].
  destruct (group_head h es) as (f & fs & Eg & Ef). cbn [group] in *. rewrite Eg in *.
  cbn [fmap list_fmap] in IH. case_bool_decide as E.
  - cbn [fmap list_fmap f_name]. by rewrite <-E.
  - cbn [fmap list_fmap f_name singleFamily]. constructor; [|done]. intros Hin.
    assert (∃ g, g ∈ f :: fs ∧ f_name g = e_name e) as (g & Hg & En).
    { apply (list_elem_of_fmap f_name (f :: fs)) in Hin as (g & ? & ?). eauto. }
    rewrite <-Eg in Hg. change (g ∈ group (h :: es)) in Hg. apply group_from in Hg as (e' & He' & En' & _).
    apply E. rewrite Ef. eapply sorted_head_name; [done|exact He'|congruence].
Qed.

(** * The registry *)

Inductive op :=
  | ONewCounter (name help : list Z) (labels : labelmap)
  | ONewGauge (name help : list Z) (labels : labelmap)
  | OAdd (key : list Z) (delta : Z)
  | OSet (key : list Z) (v : float64).
Definition execOp (o : op) (r : Registry) : option Registry :=
  match o with
  | ONewCounter n h ls => fst <$> NewCounter n h ls r
  | ONewGauge n h ls => fst <$> NewGauge n h ls r
  | OAdd k d => Some (counter_Add k d r)
  | OSet k v => Some (gauge_Set k v r)
  end.
Fixpoint execOps (os : list op) (r : Registry) : option Registry :=
  match os with [] => Some r | o :: os => execOp o r ≫= execOps os end.

Record regOk (r : Registry) : Prop := {
  ok_counter k c : counters r !! k = Some c →
    k = metricKey (c_name c) (c_labels c) ∧ isValidMetricName (c_name c) = true ∧
    validateLabelNames (c_labels c) = true ∧ 0 ≤ c_value c;
  ok_gauge k g : gauges r !! k = Some g →
    k = metricKey (g_name g) (g_labels g) ∧ isValidMetricName (g_name g) = true ∧
    validateLabelNames (g_labels g) = true;
  ok_kinds k c k' g : counters r !! k = Some c → gauges r !! k' = Some g → c_name c ≠ g_name g;
}.

Lemma gaugeNameExists_false m name :
  gaugeNameExists m name = false → ∀ k g, m !! k = Some g → g_name g ≠ name.
Proof.
  unfold gaugeNameExists. intros H k g Hg E. apply not_true_iff_false in H. apply H, existsb_exists.
  exists g. split; [|by apply bool_decide_eq_true_2]. apply list_elem_of_In, list_elem_of_fmap.
  exists (k, g). split; [done|]. by apply elem_of_map_to_list.
Qed.
Lemma counterNameExists_false m name :
  counterNameExists m name = false → ∀ k c, m !! k = Some c → c_name c ≠ name.
Proof.
  unfold counterNameExists. intros H k c Hc E. apply not_true_iff_false in H. apply H, existsb_exists.
  exists c. split; [|by apply bool_decide_eq_true_2]. apply list_elem_of_In, list_elem_of_fmap.
  exists (k, c). split; [done|]. by apply elem_of_map_to_list.
Qed.

Lemma NewCounter_ok n h ls r r' key :
  regOk r → NewCounter n h ls r = Some (r', key) →
  regOk r' ∧ collectors r' = collectors r ∧ is_Some (counters r' !! key).
Proof.
  intros [H1 H2 H3] HN. unfold NewCounter in HN.
  destruct (isValidMetricName n) eqn:En; [|done]. destruct (validateLabelNames ls) eqn:El; [|done].
  cbn [negb] in HN. destruct (counters r !! metricKey n ls) eqn:Ek.
  { injection HN as <- <-. by split_and!; [constructor|..]. }
  destruct (gaugeNameExists (gauges r) n) eqn:Eg; [done|]. injection HN as <- <-.
  split_and!; [|done|cbn; by rewrite lookup_insert_eq]. constructor; cbn; [|done|].
  - intros k c [[<- <-]|[_ Hc]]%lookup_insert_Some; [done|by apply H1].
  - intros k c k' g [[<- <-]|[_ Hc]]%lookup_insert_Some Hg; [|by eapply H3]. cbn.
    intros E. by eapply gaugeNameExists_false.
Qed.
Lemma NewGauge_ok n h ls r r' key :
  regOk r → NewGauge n h ls r = Some (r', key) →
  regOk r' ∧ collectors r' = collectors r ∧ is_Some (gauges r' !! key).
Proof.
  intros [H1 H2 H3] HN. unfold NewGauge in HN.
  destruct (isValidMetricName n) eqn:En; [|done]. destruct (validateLabelNames ls) eqn:El; [|done].
  cbn [negb] in HN. destruct (gauges r !! metricKey n ls) eqn:Ek.
  { injection HN as <- <-. by split_and!; [constructor|..]. }
  destruct (counterNameExists (counters r) n) eqn:Eg; [done|]. injection HN as <- <-.
  split_and!; [|done|cbn; by rewrite lookup_insert_eq]. constructor; cbn; [done| |].
  - intros k c [[<- <-]|[_ Hc]]%lookup_insert_Some; [done|by apply H2].
  - intros k c k' g Hc [[<- <-]|[_ Hg]]%lookup_insert_Some; [|by eapply H3]. cbn.
    by eapply counterNameExists_false.
Qed.

Lemma counter_Add_ok k d r : regOk r → regOk (counter_Add k d r).
Proof.
  intros [H1 H2 H3]. constructor; cbn; [|done|].
  - intros k' c Hc. apply lookup_alter_Some in Hc as [(<- & c0 & Hc & ->)|[_ Hc]]; [|by apply H1].
    cbn. destruct (H1 k c0 Hc) as (? & ? & ? & ?). split_and!; [done..|].
    apply Z.mod_pos_bound. lia.
  - intros k' c k'' g Hc Hg. apply lookup_alter_Some in Hc as [(<- & c0 & Hc & ->)|[_ Hc]];
      exact (H3 _ _ _ _ Hc Hg).
Qed.
Lemma gauge_Set_ok k v r : regOk r → regOk (gauge_Set k v r).
Proof.
  intros [H1 H2 H3]. constructor; cbn; [done| |].
  - intros k' g Hg. apply lookup_alter_Some in Hg as [(<- & g0 & Hg & ->)|[_ Hg]]; [|by apply H2].
    by apply (H2 k g0).
  - intros k' c k'' g Hc Hg. apply lookup_alter_Some in Hg as [(<- & g0 & Hg & ->)|[_ Hg]];
      exact (H3 _ _ _ _ Hc Hg).
Qed.

Lemma execOps_ok os r r' : regOk r → execOps os r = Some r' → regOk r' ∧ collectors r' = collectors r.
Proof.
  revert r. induction os as [|o os IH]; intros r Hr; cbn [execOps]; [by intros [= <-]|].
  destruct (execOp o r) as [r1|] eqn:E; [|done]. cbn [mbind option_bind]. intros HE.
  assert (regOk r1 ∧ collectors r1 = collectors r) as [Hok Hc].
  { destruct o; cbn [execOp] in E.
    - destruct (NewCounter _ _ _ r) as [[r2 k]|] eqn:EN; [|done]. injection E as <-.
      by destruct (NewCounter_ok _ _ _ _ _ _ Hr EN) as (? & ? & _).
    - destruct (NewGauge _ _ _ r) as [[r2 k]|] eqn:EN; [|done]. injection E as <-.
      by destruct (NewGauge_ok _ _ _ _ _ _ Hr EN) as (? & ? & _).
    - injection E as <-. split; [by apply counter_Add_ok|done].
    - injection E as <-. split; [by apply gauge_Set_ok|done]. }
  destruct (IH r1 Hok HE) as [? ?]. split; [done|congruence].
Qed.

Lemma NewRegistry_ok : regOk NewRegistry.
Proof. constructor; intros *; cbn; rewrite ?lookup_empty; try done. Qed.

(** ** The entries of a registry *)

Definition registered (r : Registry) (n : list Z) (kd : kind) (ls : labelmap) (v : list Z) : Prop :=
  match kd with
  | metricKindCounter => ∃ k c, counters r !! k = Some c ∧ c_name c = n ∧ c_labels c = ls ∧
                                v = FormatUint (c_value c)
  | metricKindGauge => ∃ k g, gauges r !! k = Some g ∧ g_name g = n ∧ g_labels g = ls ∧
                              v = formatFloat (g_value g)
  end.

Lemma elem_of_entries r e :
  e ∈ entries r ↔ (∃ k c, counters r !! k = Some c ∧ e = counterEntry c) ∨
                  (∃ k g, gauges r !! k = Some g ∧ e = gaugeEntry g).
Proof.
  unfold entries. rewrite elem_of_SortStableFunc, elem_of_app, !list_elem_of_fmap.
  setoid_rewrite list_elem_of_fmap. split; (intros [H|H]; [left|right]).
  - destruct H as (c & -> & [k c'] & -> & Hc%elem_of_map_to_list). eauto.
  - destruct H as (g & -> & [k g'] & -> & Hg%elem_of_map_to_list). eauto.
  - destruct H as (k & c & Hc & ->). exists c. split; [done|]. exists (k, c). split; [done|].
    by apply elem_of_map_to_list.
  - destruct H as (k & g & Hg & ->). exists g. split; [done|]. exists (k, g). split; [done|].
    by apply elem_of_map_to_list.
Qed.

Lemma registered_entry r n kd ls v :
  registered r n kd ls v ↔
  ∃ e, e ∈ entries r ∧ e_name e = n ∧ e_kind e = kd ∧ e_labels e = ls ∧ e_text e = v.
Proof.
  split.
  - destruct kd; cbn.
    + intros (k & c & Hc & <- & <- & ->). exists (counterEntry c).
      split_and!; [apply elem_of_entries; eauto|done..].
    + intros (k & c & Hc & <- & <- & ->). exists (gaugeEntry c).
      split_and!; [apply elem_of_entries; eauto|done..].
  - intros (e & [(k & c & Hc & ->)|(k & g & Hg & ->)]%elem_of_entries & <- & <- & <- & <-);
      cbn; eauto 10.
Qed.

Lemma compareEntries_sorted r : StronglySorted nameLe (entries r).
Proof.
  assert (StronglySorted (cmp_le compareEntries) (entries r)) as H.
  { apply (SortStableFunc_sorted compareEntries (λ _, True)); [| |by apply Forall_true].
    - intros x y _ _ E. unfold cmp_le, compareEntries in *.
      rewrite (bytes_compare_antisym (e_name x)), (bytes_compare_antisym (e_key x)).
      by destruct (bytes_compare (e_name x) _), (bytes_compare (e_key x) _).
    - intros x y z _ _ _. unfold cmp_le, compareEntries.
      pose proof (bytes_compare_trans (e_name x) (e_name y) (e_name z)) as TN.
      pose proof (bytes_compare_trans (e_key x) (e_key y) (e_key z)) as TK.
      destruct (bytes_compare (e_name x) (e_name y)) eqn:E1; [apply bytes_compare_eq in E1; rewrite E1| |done].
      { by destruct (bytes_compare (e_name y) (e_name z)); [apply TK|..]. }
      intros _. destruct (bytes_compare (e_name y) (e_name z)) eqn:E2; [|intros _|done].
      { apply bytes_compare_eq in E2. rewrite <-E2, E1. done. }
      destruct (bytes_compare (e_name x) (e_name z)) eqn:E3; [|done|by exfalso; apply TN].
      apply bytes_compare_eq in E3. rewrite E3, bytes_compare_antisym, E2 in E1. done. }
  induction H as [|x l H IH Hx]; constructor; [done|]. eapply Forall_impl; [exact Hx|].
  intros y. unfold cmp_le, compareEntries, nameLe. by destruct (bytes_compare (e_name x) _).
Qed.

Lemma NoDup_via {A B C} (f : A → B) (g : A → C) l :
  NoDup (f <$> l) → (∀ x y, x ∈ l → y ∈ l → g x = g y → f x = f y) → NoDup (g <$> l).
Proof.
  intros Hn Hi. induction l as [|x l IH]; [constructor|]. cbn in *. apply NoDup_cons in Hn as [Hx Hn].
  apply NoDup_cons. split.
  - intros (y & E & Hy)%list_elem_of_fmap. apply Hx, list_elem_of_fmap. exists y. split; [|done].
    apply Hi; set_solver.
  - apply IH; [done|]. intros. apply Hi; set_solver.
Qed.

Lemma entries_NoDup r :
  regOk r → NoDup ((λ e, (e_name e, labelList (e_labels e))) <$> entries r).
Proof.
  intros [H1 H2 H3]. apply (NoDup_via (λ e, (e_kind e, e_key e))).
  - unfold entries. rewrite SortStableFunc_Permutation.
    rewrite fmap_app, <-!list_fmap_compose. apply NoDup_app. split_and!.
    + apply (NoDup_via fst); [apply NoDup_fst_map_to_list|].
      intros [k c] [k' c'] Hc%elem_of_map_to_list Hc'%elem_of_map_to_list [=E]. cbn.
      rewrite (proj1 (H1 _ _ Hc)), (proj1 (H1 _ _ Hc')). done.
    + intros x (c & -> & _)%list_elem_of_fmap (g & E & _)%list_elem_of_fmap. done.
    + apply (NoDup_via fst); [apply NoDup_fst_map_to_list|].
      intros [k c] [k' c'] Hc%elem_of_map_to_list Hc'%elem_of_map_to_list [=E]. cbn.
      rewrite (proj1 (H2 _ _ Hc)), (proj1 (H2 _ _ Hc')). done.
  - intros x y [(k & c & Hc & ->)|(k & c & Hc & ->)]%elem_of_entries
      [(k' & c' & Hc' & ->)|(k' & c' & Hc' & ->)]%elem_of_entries; cbn; intros [= En El%labelList_inj].
    + congruence.
    + by destruct (H3 _ _ _ _ Hc Hc').
    + by destruct (H3 _ _ _ _ Hc' Hc).
    + congruence.
Qed.

Lemma emitLines_ok es : ∀ seen,
  Forall (λ e, isValidMetricName (e_name e) = true ∧ validateLabelNames (e_labels e) = true ∧ 10 ∉ e_text e) es →
  Forall lineOk (emitLines seen es).
Proof.
  induction es as [|e es IH]; intros seen H; [done|].
  apply Forall_cons in H as [(Hn & Hl & Ht) H]. cbn [emitLines]. apply Forall_app. split.
  - case_bool_decide; [done|]. repeat constructor; try done. cbn. destruct (e_kind e); decide_vm.
  - constructor; [|by apply IH]. split; [done|]. split; [by apply labelList_valid|done].
Qed.

Lemma entries_ok r : regOk r →
  Forall (λ e, isValidMetricName (e_name e) = true ∧ validateLabelNames (e_labels e) = true ∧ 10 ∉ e_text e)
    (entries r).
Proof.
  intros [H1 H2 _]. apply Forall_forall. intros e [(k & c & Hc & ->)|(k & g & Hg & ->)]%elem_of_entries;
    cbn [counterEntry gaugeEntry e_name e_labels e_text].
  - destruct (H1 _ _ Hc) as (_ & ? & ? & ?). split_and!; [done..|].
    eapply graphic_not; [by apply (formatDigits_graphic 20)|]. unfold graphic. lia.
  - destruct (H2 _ _ Hg) as (_ & ? & ?). split_and!; [done..|].
    eapply graphic_not; [|unfold graphic; lia]. unfold formatFloat.
    repeat case_if; [vm_compute; repeat constructor..|apply Sprintf_g_graphic].
Qed.

(** In a list whose names determine the kind, grouping keeps exactly the samples. *)
Lemma group_elem es n kd s :
  (∀ e e', e ∈ es → e' ∈ es → e_name e = e_name e' → e_kind e = e_kind e') →
  (∃ f, f ∈ group es ∧ f_name f = n ∧ f_kind f = kd ∧ s ∈ f_samples f) ↔
  (∃ e, e ∈ es ∧ e_name e = n ∧ e_kind e = kd ∧ sampleOf e = s).
Proof.
  intros HK.
  assert ((∃ f, f ∈ group es ∧ f_name f = n ∧ s ∈ f_samples f) ↔
          (∃ e, e ∈ es ∧ e_name e = n ∧ sampleOf e = s)) as HG.
  { transitivity ((n, s) ∈ map (λ e, (e_name e, sampleOf e)) es).
    - rewrite <-group_samples, list_elem_of_In, in_concat. setoid_rewrite in_map_iff. split.
      + intros (f & Hf & <- & Hs). eexists. split; [exists f; split; [done|by apply list_elem_of_In]|].
        apply in_map_iff. exists s. split; [done|by apply list_elem_of_In].
      + intros (l & (f & <- & Hf%list_elem_of_In) & (s' & [= <- <-] & Hs%list_elem_of_In)%in_map_iff). eauto.
    - rewrite list_elem_of_In, in_map_iff. setoid_rewrite <-list_elem_of_In. naive_solver. }
  split.
  - intros (f & Hf & <- & <- & Hs). destruct (proj1 HG) as (e & He & En & Es); [eauto|].
    destruct (group_from _ _ Hf) as (e' & He' & En' & Ek & _).
    exists e. split_and!; try done. rewrite Ek. apply HK; [done..|congruence].
  - intros (e & He & <- & <- & <-). destruct (proj2 HG) as (f & Hf & En & Hs); [eauto|].
    destruct (group_from _ _ Hf) as (e' & He' & En' & Ek & _).
    exists f. split_and!; try done. rewrite Ek. apply HK; [done..|congruence].
Qed.

Lemma entries_kinds r e e' :
  regOk r → e ∈ entries r → e' ∈ entries r → e_name e = e_name e' → e_kind e = e_kind e'.
Proof.
  intros HR [(k & c & Hc & ->)|(k & c & Hc & ->)]%elem_of_entries
    [(k' & c' & Hc' & ->)|(k' & c' & Hc' & ->)]%elem_of_entries; cbn; intros En; try done.
  - by destruct (ok_kinds r HR _ _ _ _ Hc Hc').
  - by destruct (ok_kinds r HR _ _ _ _ Hc' Hc).
Qed.

Lemma group_series es :
  concat (map (λ f, map (λ s, (f_name f, s.1)) (f_samples f)) (group es)) =
  (λ e, (e_name e, labelList (e_labels e))) <$> es.
Proof.
  pose proof (f_equal (map (λ x, (x.1, x.2.1))) (group_samples es)) as HG.
  rewrite concat_map, !map_map in HG. etrans; [|exact HG].
  f_equal. apply map_ext. intros f. by rewrite map_map.
Qed.


(** ** Witness *)

Definition demo_ops : list op :=
  [ONewCounter (%"shares_total") (%"Total shares.") {[%"status" := %"rejected"]};
   ONewCounter (%"shares_total") (%"Total shares.") {[%"status" := [97; 34; 10; 92; 98]]};
   ONewGauge (%"hashrate") [82; 92; 10; 115] ∅;
   OAdd (metricKey (%"shares_total") {[%"status" := %"rejected"]}) 12;
   OSet (%"hashrate") (f64_of_Z 10500000)].

Definition demo_registry : Registry := default NewRegistry (execOps demo_ops NewRegistry).


(** Keys are not escaped: two label sets of one name can share a key, and the
    second registration then returns the counter of the first. *)
Lemma metricKey_collision :
  metricKey (%"m") {[%"a" := %"x,b=y"]} = metricKey (%"m") {[%"a" := %"x"; %"b" := %"y"]}.
Proof. vm_compute. reflexivity. Qed.

(** One label of a fixed name, as all lazily created metrics have, identifies
    the metric. *)
Lemma metricKey_single_inj n k v1 v2 : metricKey n {[k := v1]} = metricKey n {[k := v2]} → v1 = v2.
Proof.
  assert (∀ v, metricKey n {[k := v]} = n ++ 44 :: k ++ 61 :: v) as E.
  { intros v. unfold metricKey, sortedKeys. rewrite map_to_list_singleton. cbn [fmap list_fmap fst].
    cbn. rewrite lookup_singleton_eq. cbn. by rewrite app_nil_r. }
  rewrite !E. intros H. apply app_inv_head in H. injection H as H. apply app_inv_head in H.
  by injection H.
Qed.

(** * runtime.go: the Go runtime's own metrics

    What [runtime.Version], [NumGoroutine] and [ReadMemStats] returned are
    arguments. *)
Record MemStats := {
  Alloc : Z; Sys : Z; HeapAlloc : Z; HeapSys : Z; HeapInuse : Z; HeapIdle : Z; StackInuse : Z;
  GCCPUFraction : float64; PauseTotalNs : Z; NumGC : Z }.

Record mentry := { me_name : list Z; me_help : list Z; me_kind : kind; me_labels : list Z; me_value : list Z }.
Definition bare (n h : string) (k : kind) (v : list Z) : mentry :=
  {| me_name := %n; me_help := %h; me_kind := k; me_labels := []; me_value := v |}.

Definition runtimeEntries (goVer : list Z) (goroutines : Z) (ms : MemStats) : list mentry :=
  [bare "go_goroutines" "Number of goroutines that currently exist." metricKindGauge (FormatUint goroutines);
   {| me_name := %"go_info"; me_help := %"Information about the Go environment.";
      me_kind := metricKindGauge;
      me_labels := %"{version=" ++ [34] ++ escapeLabel goVer ++ [34] ++ %"}"; me_value := %"1" |};
   bare "go_memstats_alloc_bytes" "Number of bytes allocated and still in use." metricKindGauge
     (FormatUint (Alloc ms));
   bare "go_memstats_sys_bytes" "Number of bytes obtained from the OS." metricKindGauge
     (FormatUint (Sys ms));
   bare "go_memstats_heap_alloc_bytes" "Number of heap bytes allocated and still in use." metricKindGauge
     (FormatUint (HeapAlloc ms));
   bare "go_memstats_heap_sys_bytes" "Number of heap bytes obtained from the OS." metricKindGauge
     (FormatUint (HeapSys ms));
   bare "go_memstats_heap_inuse_bytes" "Number of heap bytes in use by live objects." metricKindGauge
     (FormatUint (HeapInuse ms));
   bare "go_memstats_heap_idle_bytes" "Number of heap bytes waiting to be used." metricKindGauge
     (FormatUint (HeapIdle ms));
   bare "go_memstats_stack_inuse_bytes" "Number of bytes in use by the stack allocator." metricKindGauge
     (FormatUint (StackInuse ms));
   bare "go_memstats_gc_cpu_fraction"
     "The fraction of this program's available CPU time used by GC since the program started."
     metricKindGauge (Sprintf_g (GCCPUFraction ms));
   bare "go_gc_duration_seconds_total" "Total time spent in GC stop-the-world pauses, in seconds."
     metricKindCounter (Sprintf_g (fdiv (f64_of_Z (PauseTotalNs ms)) (f64_of_Z 1000000000)));
   bare "go_gc_cycles_total" "Total number of completed GC cycles." metricKindCounter
     (FormatUint (NumGC ms))].

Definition RuntimeCollector (goVer : list Z) (goroutines : Z) (ms : MemStats) : CollectFunc :=
  foldr andThen noop
    (map (λ e, Fprint (%"# HELP " ++ me_name e ++ [32] ++ me_help e ++ [10] ++
                       %"# TYPE " ++ me_name e ++ [32] ++ kindText (me_kind e) ++ [10] ++
                       me_name e ++ me_labels e ++ [32] ++ me_value e ++ [10]))
         (runtimeEntries goVer goroutines ms)).

(** What the collector reports: one family per metric. *)
Definition runtimeFamily (kvs : list (list Z * list Z)) (e : mentry) : family :=
  {| f_name := me_name e; f_help := me_help e; f_kind := me_kind e; f_samples := [(kvs, me_value e)] |}.
Definition runtimeFamilies (goVer : list Z) (goroutines : Z) (ms : MemStats) : list family :=
  map (λ e, runtimeFamily (match me_labels e with [] => [] | _ => [(%"version", goVer)] end) e)
    (runtimeEntries goVer goroutines ms).

Definition memOk (ms : MemStats) : Prop :=
  Forall (λ v, 0 ≤ v) [Alloc ms; Sys ms; HeapAlloc ms; HeapSys ms; HeapInuse ms; HeapIdle ms;
                       StackInuse ms; NumGC ms].

Definition runtimeOk (goVer : list Z) (e : mentry) : Prop :=
  isValidMetricName (me_name e) = true ∧ escapeHelp (me_help e) = me_help e ∧
  Forall graphic (me_value e) ∧
  (me_labels e = [] ∨ me_labels e = [123] ++ renderPair (%"version", goVer) ++ [125]).

Lemma runtimeEntries_ok goVer n ms :
  0 ≤ n → memOk ms → Forall (runtimeOk goVer) (runtimeEntries goVer n ms).
Proof.
  intros Hn Hm. unfold memOk in Hm. rewrite !Forall_cons in Hm. destruct Hm as (?&?&?&?&?&?&?&?&_).
  assert (∀ name help k v, isValidMetricName (%name) = true → escapeHelp (%help) = %help →
    Forall graphic v → runtimeOk goVer (bare name help k v)) as HB.
  { intros. split_and!; [done..|by left]. }
  unfold runtimeEntries.
  repeat (apply Forall_cons; split); [..|done].
  2: { split_and!; [vm_compute; reflexivity..| |right; cbn; by rewrite <-app_assoc].
       vm_compute; repeat constructor. }
  all: apply HB; [vm_compute; reflexivity|vm_compute; reflexivity|].
  all: first [by apply (formatDigits_graphic 20)|apply Sprintf_g_graphic].
Qed.

(** The collector's text, on a writer that accepts it, is the exposition of its
    families. *)
Lemma RuntimeCollector_parses goVer n ms :
  0 ≤ n → memOk ms →
  ∃ text, parseText text = Some (concat (map familyLines (runtimeFamilies goVer n ms))) ∧
    ∀ w, fails w = None →
      RuntimeCollector goVer n ms w = ({| written := written w ++ text; fails := None |}, None).
Proof.
  intros Hn Hm. pose proof (runtimeEntries_ok goVer n ms Hn Hm) as HO.
  unfold RuntimeCollector, runtimeFamilies. revert HO. generalize (runtimeEntries goVer n ms). intros es HO.
  exists (unlines (map renderLine (concat (map familyLines
    (map (λ e, runtimeFamily (match me_labels e with [] => [] | _ => [(%"version", goVer)] end) e) es))))).
  split.
  - apply parse_renderText. induction HO as [|e es (H1 & H2 & H3 & H4) _ IH]; [done|].
    cbn [map concat]. apply Forall_app. split; [|exact IH].
    assert (10 ∉ me_value e) by (eapply graphic_not; [done|unfold graphic; lia]).
    repeat constructor; try done; [cbn; destruct (me_kind e); decide_vm|].
    cbn. destruct H4 as [-> | ->]; repeat constructor.
  - induction HO as [|e es (H1 & H2 & H3 & H4) _ IH]; intros w Hw; cbn [map foldr concat].
    { cbn. rewrite app_nil_r. destruct w; cbn in *. by rewrite Hw. }
    unfold andThen, Fprint. rewrite Hw. rewrite IH by done. cbn [written]. f_equal. f_equal.
    rewrite <-app_assoc. f_equal. rewrite map_app, unlines_app. f_equal.
    cbn [familyLines runtimeFamily f_name f_help f_kind f_samples map fst snd]. rewrite !unlines_cons.
    change (unlines []) with (@nil Z). cbn [renderLine]. rewrite H2, <-!app_assoc.
    destruct H4 as [E|E]; rewrite E; cbn [app renderLine map strings_Join];
      repeat (progress (rewrite <-?app_assoc; cbn [app])); done.
Qed.

(** * Keys and names *)

Lemma metricKey_shape n ls : ∃ t, metricKey n ls = n ++ t ∧ (t = [] ∨ ∃ t', t = 44 :: t').
Proof.
  unfold metricKey. eexists. split; [done|]. destruct (sortedKeys ls); [by left|right]. cbn. eauto.
Qed.

(** A key starts with the name of its metric. *)
Lemma metricKey_name n1 n2 l1 l2 :
  isValidMetricName n1 = true → isValidMetricName n2 = true →
  metricKey n1 l1 = metricKey n2 l2 → n1 = n2.
Proof.
  intros [_ H1]%metricName_word [_ H2]%metricName_word E.
  destruct (metricKey_shape n1 l1) as (t1 & E1 & T1), (metricKey_shape n2 l2) as (t2 & E2 & T2).
  assert (∀ n t, Forall (λ c, wordByte c = true) n → (t = [] ∨ ∃ t', t = 44 :: t') →
    (span (λ c, negb (c =? 44)) (n ++ t)).1 = n) as Hspan.
  { intros n t Hn Ht. assert (∀ x, wordByte x = true → negb (x =? 44) = true) as Hx.
    { intros x Hw%wordByte_not. rewrite !not_elem_of_cons in Hw. lia. }
    destruct Ht as [-> |[t' ->]]; [|by rewrite span_word]. rewrite app_nil_r.
    induction Hn as [|c n Hc _ IH]; [done|]. cbn [span]. rewrite Hx by done. destruct (span _ n). cbn in *. congruence. }
  rewrite <-(Hspan n1 t1), <-(Hspan n2 t2) by done. congruence.
Qed.

Lemma single_label_valid k v : isValidLabelName k = true → validateLabelNames {[k := v]} = true.
Proof.
  intros H. unfold validateLabelNames. rewrite map_to_list_singleton. cbn. by rewrite H.
Qed.

Lemma gaugeNameExists_none m name : (∀ k g, m !! k = Some g → g_name g ≠ name) → gaugeNameExists m name = false.
Proof.
  intros H. apply not_true_iff_false. intros (g & Hg & E%bool_decide_eq_true)%existsb_exists.
  apply list_elem_of_In, list_elem_of_fmap in Hg as ([k g'] & -> & Hg%elem_of_map_to_list). by eapply H.
Qed.
Lemma counterNameExists_none m name :
  (∀ k c, m !! k = Some c → c_name c ≠ name) → counterNameExists m name = false.
Proof.
  intros H. apply not_true_iff_false. intros (g & Hg & E%bool_decide_eq_true)%existsb_exists.
  apply list_elem_of_In, list_elem_of_fmap in Hg as ([k g'] & -> & Hg%elem_of_map_to_list). by eapply H.
Qed.

(** Registration of a name that no metric of the other kind has cannot panic, and
    touches only its own key. *)
Lemma NewCounter_total n h ls r :
  isValidMetricName n = true → validateLabelNames ls = true →
  (∀ k g, gauges r !! k = Some g → g_name g ≠ n) →
  ∃ r', NewCounter n h ls r = Some (r', metricKey n ls) ∧ gauges r' = gauges r ∧
    counters r' !! metricKey n ls =
      Some (default {| c_name := n; c_help := h; c_labels := ls; c_value := 0 |} (counters r !! metricKey n ls)) ∧
    ∀ k, k ≠ metricKey n ls → counters r' !! k = counters r !! k.
Proof.
  intros Hn Hl Hg. unfold NewCounter. rewrite Hn, Hl, gaugeNameExists_none by done. cbn [negb].
  destruct (counters r !! metricKey n ls) as [c|] eqn:E; eexists; (split; [done|]); cbn.
  - by rewrite E.
  - split_and!; [done|by rewrite lookup_insert_eq|]. intros k Hk. by rewrite lookup_insert_ne.
Qed.
Lemma NewGauge_total n h ls r :
  isValidMetricName n = true → validateLabelNames ls = true →
  (∀ k c, counters r !! k = Some c → c_name c ≠ n) →
  ∃ r', NewGauge n h ls r = Some (r', metricKey n ls) ∧ counters r' = counters r ∧
    gauges r' !! metricKey n ls =
      Some (default {| g_name := n; g_help := h; g_labels := ls; g_value := fzero |} (gauges r !! metricKey n ls)) ∧
    ∀ k, k ≠ metricKey n ls → gauges r' !! k = gauges r !! k.
Proof.
  intros Hn Hl Hg. unfold NewGauge. rewrite Hn, Hl, counterNameExists_none by done. cbn [negb].
  destruct (gauges r !! metricKey n ls) as [c|] eqn:E; eexists; (split; [done|]); cbn.
  - by rewrite E.
  - split_and!; [done|by rewrite lookup_insert_eq|]. intros k Hk. by rewrite lookup_insert_ne.
Qed.
