(* ===== verification/StratumV1.v ===== *)
(** * internal/poolproto/stratumv1

    The Stratum V1 client: the parsers of parse.go, the session of
    stratumv1.go and the handshake of dialer.go.

    [Parse] holds the stateless decoders.  [session] is the record of
    stratumv1.go; each handler is a function on it.  Go channels are [chan]:
    the buffer together with what the consumer has already received, and an
    operation that several channel statements make up takes a [sched] saying
    what the consumer receives in between.  [sys] adds the program counters of
    the read loop and of Negotiate, with one transition per atomic action. *)
From S2P Require Import Prelude.
From S2P Require Import Float64.
From S2P Require Import Bech32.
From S2P Require Import Base58.
From S2P Require Import Utf8.
From S2P Require Import Json.
From S2P Require Import Poolproto.

Open Scope Z_scope.

(** * parse.go *)

Record notifyStrings := {
  jobID : list Z; prevHashHex : list Z; coinb1Hex : list Z; coinb2Hex : list Z;
  merkleBranchHexs : list (list Z);
  versionHex : list Z; nbitsHex : list Z; ntimeHex : list Z;
  cleanJobs : bool
}.

Definition ErrJSON : error := Sentinel "json: cannot unmarshal".
Definition of_opt {A} (o : option A) (e : error) : result A :=
  match o with Some x => Ok x | None => Err e end.

(** [json.Unmarshal] of a raw message that may be absent. *)
Definition unmarshal {A} (f : json → option A) (raw : option json) : result A :=
  match raw with
  | Some j => of_opt (f j) ErrJSON
  | None => Err (Sentinel "unexpected end of JSON input")
  end.

Definition unmarshalNotifyParams (p : list json) : result notifyStrings :=
  let at_ i := p !! i in
  jobID ← unmarshal as_string (at_ 0%nat);
  prevHashHex ← unmarshal as_string (at_ 1%nat);
  coinb1Hex ← unmarshal as_string (at_ 2%nat);
  coinb2Hex ← unmarshal as_string (at_ 3%nat);
  merkleBranchHexs ← unmarshal (as_slice as_string) (at_ 4%nat);
  versionHex ← unmarshal as_string (at_ 5%nat);
  nbitsHex ← unmarshal as_string (at_ 6%nat);
  ntimeHex ← unmarshal as_string (at_ 7%nat);
  cleanJobs ←
    match unmarshal as_bool (at_ 8%nat) with
    | Ok b => Ok b
    | Err err =>
        match unmarshal as_int (at_ 8%nat) with
        | Ok n => Ok (negb (n =? 0))
        | Err _ => Err err
        end
    end;
  Ok {| jobID := jobID; prevHashHex := prevHashHex; coinb1Hex := coinb1Hex;
        coinb2Hex := coinb2Hex; merkleBranchHexs := merkleBranchHexs;
        versionHex := versionHex; nbitsHex := nbitsHex; ntimeHex := ntimeHex;
        cleanJobs := cleanJobs |}.

(** [hex.DecodeString] with the accompanying length check. *)
Definition hexField (ok : list Z → bool) (s : list Z) (e : error) : result (list Z) :=
  match hex_DecodeString s with
  | Some b => if ok b then Ok b else Err e
  | None => Err e
  end.

Definition nonempty (b : list Z) : bool := negb (length b =? 0)%nat.
Definition is32 (b : list Z) : bool := (length b =? 32)%nat.

Fixpoint decodeBranches (hs : list (list Z)) : result (list (list Z)) :=
  match hs with
  | [] => Ok []
  | h :: hs =>
      b ← hexField is32 h (Sentinel "notify: merkle_branch: malformed or wrong length");
      bs ← decodeBranches hs;
      Ok (b :: bs)
  end.

Definition ErrNumSyntaxOrRange : error := Sentinel "strconv.ParseUint".
Definition hexUint32 (what : string) (s : list Z) : result Z :=
  let '(v, ok) := ParseUint 16 32 s in
  if ok then Ok (wrap 32 v) else Err (Wrapf what ErrNumSyntaxOrRange).

(** The per-word byte swap of the V1 prevhash: one iteration per 4-byte word. *)
Definition unswapPrevHash (b : list Z) : list Z :=
  foldl (λ h w, (
    <[w * 4 + 0 := nth (w * 4 + 3) b 0%Z]>
    (<[w * 4 + 1 := nth (w * 4 + 2) b 0%Z]>
    (<[w * 4 + 2 := nth (w * 4 + 1) b 0%Z]>
    (<[w * 4 + 3 := nth (w * 4 + 0) b 0%Z]> h)))))%nat
    (replicate 32 0) (seq 0 8).

Definition decodeNotifyJob (now : Z) (ns : notifyStrings) : result Job :=
  c1 ← hexField nonempty (coinb1Hex ns) (Sentinel "notify: coinb1: malformed or empty");
  c2 ← hexField nonempty (coinb2Hex ns) (Sentinel "notify: coinb2: malformed or empty");
  branch ← decodeBranches (merkleBranchHexs ns);
  version ← hexUint32 "notify: version: %w" (versionHex ns);
  nbits ← hexUint32 "notify: nbits: %w" (nbitsHex ns);
  ntime ← hexUint32 "notify: ntime: %w" (ntimeHex ns);
  prev ← hexField is32 (prevHashHex ns) (Sentinel "notify: prevhash: malformed or wrong length");
  Ok {| JobID := jobID ns; Job_Version := version; Job_PrevHash := unswapPrevHash prev;
        Job_MerkleRoot := replicate 32 0; Job_NTime := ntime; Job_NBits := nbits;
        CleanJobs := cleanJobs ns; Job_ExtraNonce := []; Coinb1 := c1; Coinb2 := c2;
        MerkleBranch := branch; CoinbaseTx := []; ReceivedAt := now |}.

Definition parseNotify (now : Z) (raw : option json) : result Job :=
  p ← unmarshal as_raws raw;
  if (length p <? 9)%nat
  then Err (Errorf "notify: expected 9 params, got %d" [Z.of_nat (length p)])
  else ns ← unmarshalNotifyParams p; decodeNotifyJob now ns.

Definition parseDifficulty (raw : option json) : option float64 :=
  match unmarshal (as_slice as_float) raw with
  | Ok (d :: _) =>
      if fle d fzero || IsNaN d || IsInf d then None else Some d
  | _ => None
  end.

Definition maxExtranonce2Size : Z := 64.
Definition extranonce2SizeOK (sz : Z) : bool := (0 <? sz) && (sz <=? maxExtranonce2Size).
Definition extranonce1OK (en1 : list Z) : bool :=
  if bool_decide (en1 = []) then false
  else match hex_DecodeString en1 with
  | Some b => (0 <? length b)%nat
  | None => false
  end.

Definition parseSetExtranonce (raw : option json) : option (list Z * Z) :=
  match unmarshal as_raws raw with
  | Ok p =>
      if (length p <? 2)%nat then None
      else match unmarshal as_string (p !! 0%nat), unmarshal as_int (p !! 1%nat) with
      | Ok en1, Ok sz =>
          if negb (extranonce1OK en1) || negb (extranonce2SizeOK sz) then None
          else Some (en1, sz)
      | _, _ => None
      end
  | Err _ => None
  end.

Definition sanitizeNotice (s : list Z) : list Z := SanitizePoolText s.

Definition parseShowMessage (raw : option json) : option (list Z) :=
  match unmarshal (as_slice as_string) raw with
  | Ok (s :: _) => Some (sanitizeNotice s)
  | _ => None
  end.

Record reconnectDirective := { Host : list Z; Port : Z; Wait : Z }.

(** Every field is best effort: on an error the zero value stays. *)
Definition best_effort {A} (zero : A) (r : result A) : A :=
  match r with Ok x => x | Err _ => zero end.

Definition parseReconnect (raw : option json) : reconnectDirective :=
  match unmarshal as_raws raw with
  | Err _ => {| Host := []; Port := 0; Wait := 0 |}
  | Ok p =>
      {| Host := best_effort [] (unmarshal as_string (p !! 0%nat));
         Port :=
           match unmarshal as_int (p !! 1%nat) with
           | Ok n => n
           | Err _ =>
               match unmarshal as_string (p !! 1%nat) with Ok s => Atoi s | Err _ => 0 end
           end;
         Wait := best_effort 0 (unmarshal as_int (p !! 2%nat)) |}
  end.

(** [math.Trunc]. *)
Definition math_Trunc (f : float64) : float64 :=
  match f with
  | SpecFloat.S754_finite s m e =>
      if 0 <=? e then f
      else SpecFloat.binary_normalize f64_prec f64_emax
             (if s then - (Zpos m / 2 ^ (- e)) else Zpos m / 2 ^ (- e)) 0 s
  | _ => f
  end.

Definition parseSubscribeResult (result : json) : Prelude.result (list Z * Z) :=
  let arr := match result with JArr l => l | _ => [] end in
  if (length arr <? 3)%nat
  then Err (Errorf "stratumv1: unexpected subscribe result (type=%T, len=%d)" [Z.of_nat (length arr)])
  else match arr !! 1%nat with
  | Some (JStr en1) =>
      if negb (extranonce1OK en1) then Err (Sentinel "stratumv1: extranonce1 not hex: %q")
      else match arr !! 2%nat with
      | Some (JNum n) =>
          match num_float n with
          | Some en2SizeF =>
              if negb (feq en2SizeF (math_Trunc en2SizeF)) || fle en2SizeF fzero ||
                 flt (f64_of_Z maxExtranonce2Size) en2SizeF
              then Err (Sentinel "stratumv1: extranonce2_size %v out of range (0, %d]")
              else Ok (en1, big_Int en2SizeF)
          | None => Err (Sentinel "stratumv1: extranonce2_size not a number: %T")
          end
      | _ => Err (Sentinel "stratumv1: extranonce2_size not a number: %T")
      end
  | _ => Err (Sentinel "stratumv1: extranonce1 not a string: %T")
  end.

Definition parseAddress (url : list Z) : result (list Z) :=
  let empty := Sentinel "stratumv1: empty host in %q" in
  let cut p := drop (String.length p) url in
  let ok rest := if bool_decide (rest = []) then Err empty else Ok rest in
  if HasPrefix url (bytes_of_string "stratum+tcp://") then ok (cut "stratum+tcp://"%string)
  else if HasPrefix url (bytes_of_string "stratum+tls://") then ok (cut "stratum+tls://"%string)
  else Err (Sentinel "stratumv1: unsupported scheme in %q").

Fixpoint trimLeft (b : list Z) : list Z :=
  match b with
  | c :: b' => if (c =? 10) || (c =? 13) then trimLeft b' else b
  | [] => []
  end.
(** The trailing line terminators go, last byte first. *)
Definition trimRight (b : list Z) : list Z := reverse (trimLeft (reverse b)).

(** * Channels *)

(** A buffered channel: the values in the buffer, oldest first, and the values
    its consumer has received so far. *)
Record chan (A : Type) := { buf : list A; out : list A }.
Arguments buf {_} _.
Arguments out {_} _.
Definition mkchan {A} : chan A := {| buf := []; out := [] |}.

(** What the consumer does between the statements of one send: which of the
    purged values it gets hold of first, and how many values it receives in
    the two gaps of the drop-oldest idiom. *)
Record sched := { sch_purge : list bool; sch_gap1 : nat; sch_gap2 : nat }.
Definition quiet : sched := {| sch_purge := []; sch_gap1 := 0; sch_gap2 := 0 |}.

Section Chan.
Context {A : Type}.

Definition consume (n : nat) (c : chan A) : chan A :=
  {| buf := drop n (buf c); out := out c ++ take n (buf c) |}.
(** [select { case ch <- x: default: }]. *)
Definition try_send (cap : nat) (x : A) (c : chan A) : chan A * bool :=
  if (length (buf c) <? cap)%nat
  then ({| buf := buf c ++ [x]; out := out c |}, true) else (c, false).
(** [select { case <-ch: default: }]: the value is discarded. *)
Definition try_drop (c : chan A) : chan A := {| buf := tail (buf c); out := out c |}.

(** Send, or drop the oldest value and send. *)
Definition push (cap : nat) (sc : sched) (x : A) (c : chan A) : chan A :=
  match try_send cap x c with
  | (c, true) => c
  | (c, false) =>
      (try_send cap x (consume (sch_gap2 sc) (try_drop (consume (sch_gap1 sc) c)))).1
  end.

(** Receive and discard until the channel is empty. *)
Fixpoint purge (o : list bool) (b rcvd : list A) : chan A :=
  match b with
  | [] => {| buf := []; out := rcvd |}
  | x :: b => purge (tail o) b (if default false (head o) then rcvd ++ [x] else rcvd)
  end.
End Chan.

(** * The session *)

Record extranoncePair := { en1 : list Z; size : Z }.

Record rpcMessage := {
  ID : json; Method : list Z; Params : option json; Result : json; Error : json
}.
Record rpcResponse := { resp_result : json; resp_errResult : json }.
Record rpcRequest := { req_id : Z; req_method : string; req_params : list (list Z) }.

(** The channel of one call: empty, holding the response, or closed empty. *)
Inductive respState := RespWaiting | RespGot (r : rpcResponse) | RespClosed.

Record preAuthMsg := { method : list Z; params : option json }.

(** [pending] holds the ids of the pending map, [respCh] the channels made for
    the calls; [sent] is what has been written to the connection. *)
Record session := {
  jobsCh : chan Job;
  diffCh : chan float64;
  noticeCh : chan (list Z);
  nextID : Z;
  pending : gset Z;
  respCh : gmap Z respState;
  sent : list rpcRequest;
  difficulty : float64;
  lastReconnect : option reconnectDirective;
  extranonce : option extranoncePair;
  authorized : bool;
  preAuthQ : list preAuthMsg;
  authorizedUser : option (list Z);
  en2Counter : Z;
  closed : bool;
  versionMaskWarned : bool;
  ctxDone : bool;
  closeDone : bool;
  connClosed : bool;
}.

(** Field updates. *)
Definition set_jobsCh (x : chan Job) (s : session) : session :=
  {| jobsCh := x; diffCh := diffCh s; noticeCh := noticeCh s; nextID := nextID s; pending :=
     pending s; respCh := respCh s; sent := sent s; difficulty := difficulty s; lastReconnect :=
     lastReconnect s; extranonce := extranonce s; authorized := authorized s; preAuthQ :=
     preAuthQ s; authorizedUser := authorizedUser s; en2Counter := en2Counter s; closed :=
     closed s; versionMaskWarned := versionMaskWarned s; ctxDone := ctxDone s; closeDone :=
     closeDone s; connClosed := connClosed s |}.
Definition set_diffCh (x : chan float64) (s : session) : session :=
  {| jobsCh := jobsCh s; diffCh := x; noticeCh := noticeCh s; nextID := nextID s; pending :=
     pending s; respCh := respCh s; sent := sent s; difficulty := difficulty s; lastReconnect :=
     lastReconnect s; extranonce := extranonce s; authorized := authorized s; preAuthQ :=
     preAuthQ s; authorizedUser := authorizedUser s; en2Counter := en2Counter s; closed :=
     closed s; versionMaskWarned := versionMaskWarned s; ctxDone := ctxDone s; closeDone :=
     closeDone s; connClosed := connClosed s |}.
Definition set_noticeCh (x : chan (list Z)) (s : session) : session :=
  {| jobsCh := jobsCh s; diffCh := diffCh s; noticeCh := x; nextID := nextID s; pending :=
     pending s; respCh := respCh s; sent := sent s; difficulty := difficulty s; lastReconnect :=
     lastReconnect s; extranonce := extranonce s; authorized := authorized s; preAuthQ :=
     preAuthQ s; authorizedUser := authorizedUser s; en2Counter := en2Counter s; closed :=
     closed s; versionMaskWarned := versionMaskWarned s; ctxDone := ctxDone s; closeDone :=
     closeDone s; connClosed := connClosed s |}.
Definition set_nextID (x : Z) (s : session) : session :=
  {| jobsCh := jobsCh s; diffCh := diffCh s; noticeCh := noticeCh s; nextID := x; pending :=
     pending s; respCh := respCh s; sent := sent s; difficulty := difficulty s; lastReconnect :=
     lastReconnect s; extranonce := extranonce s; authorized := authorized s; preAuthQ :=
     preAuthQ s; authorizedUser := authorizedUser s; en2Counter := en2Counter s; closed :=
     closed s; versionMaskWarned := versionMaskWarned s; ctxDone := ctxDone s; closeDone :=
     closeDone s; connClosed := connClosed s |}.
Definition set_pending (x : gset Z) (s : session) : session :=
  {| jobsCh := jobsCh s; diffCh := diffCh s; noticeCh := noticeCh s; nextID := nextID s; pending
     := x; respCh := respCh s; sent := sent s; difficulty := difficulty s; lastReconnect :=
     lastReconnect s; extranonce := extranonce s; authorized := authorized s; preAuthQ :=
     preAuthQ s; authorizedUser := authorizedUser s; en2Counter := en2Counter s; closed :=
     closed s; versionMaskWarned := versionMaskWarned s; ctxDone := ctxDone s; closeDone :=
     closeDone s; connClosed := connClosed s |}.
Definition set_respCh (x : gmap Z respState) (s : session) : session :=
  {| jobsCh := jobsCh s; diffCh := diffCh s; noticeCh := noticeCh s; nextID := nextID s; pending
     := pending s; respCh := x; sent := sent s; difficulty := difficulty s; lastReconnect :=
     lastReconnect s; extranonce := extranonce s; authorized := authorized s; preAuthQ :=
     preAuthQ s; authorizedUser := authorizedUser s; en2Counter := en2Counter s; closed :=
     closed s; versionMaskWarned := versionMaskWarned s; ctxDone := ctxDone s; closeDone :=
     closeDone s; connClosed := connClosed s |}.
Definition set_sent (x : list rpcRequest) (s : session) : session :=
  {| jobsCh := jobsCh s; diffCh := diffCh s; noticeCh := noticeCh s; nextID := nextID s; pending
     := pending s; respCh := respCh s; sent := x; difficulty := difficulty s; lastReconnect :=
     lastReconnect s; extranonce := extranonce s; authorized := authorized s; preAuthQ :=
     preAuthQ s; authorizedUser := authorizedUser s; en2Counter := en2Counter s; closed :=
     closed s; versionMaskWarned := versionMaskWarned s; ctxDone := ctxDone s; closeDone :=
     closeDone s; connClosed := connClosed s |}.
Definition set_difficulty (x : float64) (s : session) : session :=
  {| jobsCh := jobsCh s; diffCh := diffCh s; noticeCh := noticeCh s; nextID := nextID s; pending
     := pending s; respCh := respCh s; sent := sent s; difficulty := x; lastReconnect :=
     lastReconnect s; extranonce := extranonce s; authorized := authorized s; preAuthQ :=
     preAuthQ s; authorizedUser := authorizedUser s; en2Counter := en2Counter s; closed :=
     closed s; versionMaskWarned := versionMaskWarned s; ctxDone := ctxDone s; closeDone :=
     closeDone s; connClosed := connClosed s |}.
Definition set_lastReconnect (x : option reconnectDirective) (s : session) : session :=
  {| jobsCh := jobsCh s; diffCh := diffCh s; noticeCh := noticeCh s; nextID := nextID s; pending
     := pending s; respCh := respCh s; sent := sent s; difficulty := difficulty s; lastReconnect
     := x; extranonce := extranonce s; authorized := authorized s; preAuthQ := preAuthQ s;
     authorizedUser := authorizedUser s; en2Counter := en2Counter s; closed := closed s;
     versionMaskWarned := versionMaskWarned s; ctxDone := ctxDone s; closeDone := closeDone s;
     connClosed := connClosed s |}.
Definition set_extranonce (x : option extranoncePair) (s : session) : session :=
  {| jobsCh := jobsCh s; diffCh := diffCh s; noticeCh := noticeCh s; nextID := nextID s; pending
     := pending s; respCh := respCh s; sent := sent s; difficulty := difficulty s; lastReconnect
     := lastReconnect s; extranonce := x; authorized := authorized s; preAuthQ := preAuthQ s;
     authorizedUser := authorizedUser s; en2Counter := en2Counter s; closed := closed s;
     versionMaskWarned := versionMaskWarned s; ctxDone := ctxDone s; closeDone := closeDone s;
     connClosed := connClosed s |}.
Definition set_authorized (x : bool) (s : session) : session :=
  {| jobsCh := jobsCh s; diffCh := diffCh s; noticeCh := noticeCh s; nextID := nextID s; pending
     := pending s; respCh := respCh s; sent := sent s; difficulty := difficulty s; lastReconnect
     := lastReconnect s; extranonce := extranonce s; authorized := x; preAuthQ := preAuthQ s;
     authorizedUser := authorizedUser s; en2Counter := en2Counter s; closed := closed s;
     versionMaskWarned := versionMaskWarned s; ctxDone := ctxDone s; closeDone := closeDone s;
     connClosed := connClosed s |}.
Definition set_preAuthQ (x : list preAuthMsg) (s : session) : session :=
  {| jobsCh := jobsCh s; diffCh := diffCh s; noticeCh := noticeCh s; nextID := nextID s; pending
     := pending s; respCh := respCh s; sent := sent s; difficulty := difficulty s; lastReconnect
     := lastReconnect s; extranonce := extranonce s; authorized := authorized s; preAuthQ := x;
     authorizedUser := authorizedUser s; en2Counter := en2Counter s; closed := closed s;
     versionMaskWarned := versionMaskWarned s; ctxDone := ctxDone s; closeDone := closeDone s;
     connClosed := connClosed s |}.
Definition set_authorizedUser (x : option (list Z)) (s : session) : session :=
  {| jobsCh := jobsCh s; diffCh := diffCh s; noticeCh := noticeCh s; nextID := nextID s; pending
     := pending s; respCh := respCh s; sent := sent s; difficulty := difficulty s; lastReconnect
     := lastReconnect s; extranonce := extranonce s; authorized := authorized s; preAuthQ :=
     preAuthQ s; authorizedUser := x; en2Counter := en2Counter s; closed := closed s;
     versionMaskWarned := versionMaskWarned s; ctxDone := ctxDone s; closeDone := closeDone s;
     connClosed := connClosed s |}.
Definition set_en2Counter (x : Z) (s : session) : session :=
  {| jobsCh := jobsCh s; diffCh := diffCh s; noticeCh := noticeCh s; nextID := nextID s; pending
     := pending s; respCh := respCh s; sent := sent s; difficulty := difficulty s; lastReconnect
     := lastReconnect s; extranonce := extranonce s; authorized := authorized s; preAuthQ :=
     preAuthQ s; authorizedUser := authorizedUser s; en2Counter := x; closed := closed s;
     versionMaskWarned := versionMaskWarned s; ctxDone := ctxDone s; closeDone := closeDone s;
     connClosed := connClosed s |}.
Definition set_closed (x : bool) (s : session) : session :=
  {| jobsCh := jobsCh s; diffCh := diffCh s; noticeCh := noticeCh s; nextID := nextID s; pending
     := pending s; respCh := respCh s; sent := sent s; difficulty := difficulty s; lastReconnect
     := lastReconnect s; extranonce := extranonce s; authorized := authorized s; preAuthQ :=
     preAuthQ s; authorizedUser := authorizedUser s; en2Counter := en2Counter s; closed := x;
     versionMaskWarned := versionMaskWarned s; ctxDone := ctxDone s; closeDone := closeDone s;
     connClosed := connClosed s |}.
Definition set_versionMaskWarned (x : bool) (s : session) : session :=
  {| jobsCh := jobsCh s; diffCh := diffCh s; noticeCh := noticeCh s; nextID := nextID s; pending
     := pending s; respCh := respCh s; sent := sent s; difficulty := difficulty s; lastReconnect
     := lastReconnect s; extranonce := extranonce s; authorized := authorized s; preAuthQ :=
     preAuthQ s; authorizedUser := authorizedUser s; en2Counter := en2Counter s; closed :=
     closed s; versionMaskWarned := x; ctxDone := ctxDone s; closeDone := closeDone s;
     connClosed := connClosed s |}.
Definition set_ctxDone (x : bool) (s : session) : session :=
  {| jobsCh := jobsCh s; diffCh := diffCh s; noticeCh := noticeCh s; nextID := nextID s; pending
     := pending s; respCh := respCh s; sent := sent s; difficulty := difficulty s; lastReconnect
     := lastReconnect s; extranonce := extranonce s; authorized := authorized s; preAuthQ :=
     preAuthQ s; authorizedUser := authorizedUser s; en2Counter := en2Counter s; closed :=
     closed s; versionMaskWarned := versionMaskWarned s; ctxDone := x; closeDone := closeDone s;
     connClosed := connClosed s |}.
Definition set_closeDone (x : bool) (s : session) : session :=
  {| jobsCh := jobsCh s; diffCh := diffCh s; noticeCh := noticeCh s; nextID := nextID s; pending
     := pending s; respCh := respCh s; sent := sent s; difficulty := difficulty s; lastReconnect
     := lastReconnect s; extranonce := extranonce s; authorized := authorized s; preAuthQ :=
     preAuthQ s; authorizedUser := authorizedUser s; en2Counter := en2Counter s; closed :=
     closed s; versionMaskWarned := versionMaskWarned s; ctxDone := ctxDone s; closeDone := x;
     connClosed := connClosed s |}.
Definition set_connClosed (x : bool) (s : session) : session :=
  {| jobsCh := jobsCh s; diffCh := diffCh s; noticeCh := noticeCh s; nextID := nextID s; pending
     := pending s; respCh := respCh s; sent := sent s; difficulty := difficulty s; lastReconnect
     := lastReconnect s; extranonce := extranonce s; authorized := authorized s; preAuthQ :=
     preAuthQ s; authorizedUser := authorizedUser s; en2Counter := en2Counter s; closed :=
     closed s; versionMaskWarned := versionMaskWarned s; ctxDone := ctxDone s; closeDone :=
     closeDone s; connClosed := x |}.

Definition newSession : session :=
  {| jobsCh := mkchan; diffCh := mkchan; noticeCh := mkchan; nextID := 0; pending := ∅;
     respCh := ∅; sent := []; difficulty := fzero; lastReconnect := None; extranonce := None;
     authorized := false; preAuthQ := []; authorizedUser := None; en2Counter := 0;
     closed := false; versionMaskWarned := false; ctxDone := false; closeDone := false;
     connClosed := false |}.

Definition jobsCap : nat := 8.
Definition diffCap : nat := 1.
Definition noticeCap : nat := 8.

(** ** Reading lines *)

Definition maxLineBytes : Z := 64 * 1024.

(** [ReadSlice('\n')] on a buffer of [maxLineBytes]: the line and what follows. *)
Definition readLine (stream : list Z) : result (list Z * list Z) :=
  let toolong := Err (Errorf "stratumv1: line exceeds %d bytes; terminating session (misbehaving pool)" [maxLineBytes]) in
  match IndexByte stream 10 with
  | Some i =>
      if Z.of_nat (S i) <=? maxLineBytes then Ok (take (S i) stream, drop (S i) stream)
      else toolong
  | None => if maxLineBytes <=? Z.of_nat (length stream) then toolong else Err EOF
  end.

(** ** Decoding a line *)

Definition rpc_zero : rpcMessage :=
  {| ID := JNull; Method := []; Params := None; Result := JNull; Error := JNull |}.

(** One member of the object; [None] is a type error, which drops the line. *)
Definition rpc_field (m : rpcMessage) (kv : list Z * json) : option rpcMessage :=
  let '(k, v) := kv in
  if key_matches "id" k then
    if any_ok v
    then Some {| ID := v; Method := Method m; Params := Params m; Result := Result m; Error := Error m |}
    else None
  else if key_matches "method" k then
    match v with
    | JStr t => Some {| ID := ID m; Method := t; Params := Params m; Result := Result m; Error := Error m |}
    | JNull => Some m
    | _ => None
    end
  else if key_matches "params" k then
    Some {| ID := ID m; Method := Method m; Params := Some v; Result := Result m; Error := Error m |}
  else if key_matches "result" k then
    if any_ok v
    then Some {| ID := ID m; Method := Method m; Params := Params m; Result := v; Error := Error m |}
    else None
  else if key_matches "error" k then
    if any_ok v
    then Some {| ID := ID m; Method := Method m; Params := Params m; Result := Result m; Error := v |}
    else None
  else Some m.

Definition unmarshalRpc (line : list Z) : option rpcMessage :=
  j ← json_parse line;
  match j with
  | JObj l => foldl (λ m kv, m ← m; rpc_field m kv) (Some rpc_zero) l
  | JNull => Some rpc_zero
  | _ => None
  end.

(** ** Handlers of pool messages *)

Definition sendJob (sc : sched) (job : Job) (s : session) : session :=
  if closed s then s
  else
    let c := if CleanJobs job then purge (sch_purge sc) (buf (jobsCh s)) (out (jobsCh s))
             else jobsCh s in
    set_jobsCh (push jobsCap sc job c) s.

(** The big-endian counter in the tail bytes of extranonce2. *)
Definition extranonce2 (n : Z) (sz : nat) : list Z :=
  foldl (λ e i, <[(sz - 1 - i)%nat := wrap 8 (Z.shiftr n (8 * Z.of_nat i))]> e)
    (replicate sz 0) (seq 0 (Nat.min sz 8)).

Definition foldBranch (root : list Z) (branch : list (list Z)) : list Z :=
  foldl (λ root b, Hash256 (root ++ b)) root branch.

Definition completeV1Job (j : Job) (s : session) : Job * session :=
  match extranonce s with
  | Some ep =>
      if (length (Coinb1 j) =? 0)%nat || (length (Coinb2 j) =? 0)%nat ||
         bool_decide (en1 ep = []) || (size ep <=? 0) || (64 <? size ep)
      then (j, s)
      else match hex_DecodeString (en1 ep) with
      | None => (j, s)
      | Some e1 =>
          let n := wrap 64 (en2Counter s + 1) in
          let e2 := extranonce2 n (Z.to_nat (size ep)) in
          let coinbase := Coinb1 j ++ e1 ++ e2 ++ Coinb2 j in
          let root := foldBranch (Hash256 coinbase) (MerkleBranch j) in
          ({| JobID := JobID j; Job_Version := Job_Version j; Job_PrevHash := Job_PrevHash j;
              Job_MerkleRoot := root; Job_NTime := Job_NTime j; Job_NBits := Job_NBits j;
              CleanJobs := CleanJobs j; Job_ExtraNonce := e2; Coinb1 := Coinb1 j;
              Coinb2 := Coinb2 j; MerkleBranch := MerkleBranch j; CoinbaseTx := coinbase;
              ReceivedAt := ReceivedAt j |},
           set_en2Counter n s)
      end
  | None => (j, s)
  end.

Definition handleNotify (now : Z) (sc : sched) (params : option json) (s : session) : session :=
  match parseNotify now params with
  | Err _ => s
  | Ok job => let '(job, s) := completeV1Job job s in sendJob sc job s
  end.

Definition handleSetDifficulty (sc : sched) (params : option json) (s : session) : session :=
  match parseDifficulty params with
  | None => s
  | Some d =>
      let s := set_difficulty d s in
      if closed s then s else set_diffCh (push diffCap sc d (diffCh s)) s
  end.

Definition handleSetExtranonce (params : option json) (s : session) : session :=
  match parseSetExtranonce params with
  | Some (e1, sz) => set_extranonce (Some {| en1 := e1; size := sz |}) s
  | None => s
  end.

Definition handleShowMessage (sc : sched) (params : option json) (s : session) : session :=
  match parseShowMessage params with
  | Some ((_ :: _) as notice) =>
      if closed s then s else set_noticeCh (push noticeCap sc notice (noticeCh s)) s
  | _ => s
  end.

Definition versionMaskNotice : list Z := bytes_of_string
  "pool sent mining.set_version_mask (version rolling); Otedama does not roll versions - share rejects may follow".
Definition handleVersionMask (s : session) : session :=
  if versionMaskWarned s then s
  else
    let s := set_versionMaskWarned true s in
    if closed s then s
    else set_noticeCh (try_send noticeCap versionMaskNotice (noticeCh s)).1 s.

(** The directive is recorded; the goroutine that closes the session is a
    [Close] action of its own. *)
Definition handleReconnect (params : option json) (s : session) : session :=
  set_lastReconnect (Some (parseReconnect params)) s.

Definition maxReconnectWaitSeconds : Z := 300.
Definition time_Second : Z := 10 ^ 9.
Definition ReconnectWait (s : session) : Z :=
  match lastReconnect s with
  | Some d =>
      if Wait d <=? 0 then 0
      else if maxReconnectWaitSeconds <? Wait d then maxReconnectWaitSeconds * time_Second
      else Wait d * time_Second
  | None => 0
  end.

Definition dispatchPoolMsg (now : Z) (sc : sched) (m : preAuthMsg) (s : session) : session :=
  let isM name := bool_decide (method m = bytes_of_string name) in
  if isM "mining.notify"%string then handleNotify now sc (params m) s
  else if isM "mining.set_difficulty"%string then handleSetDifficulty sc (params m) s
  else if isM "mining.set_extranonce"%string then handleSetExtranonce (params m) s
  else if isM "client.show_message"%string then handleShowMessage sc (params m) s
  else if isM "client.reconnect"%string || isM "mining.reconnect"%string
  then handleReconnect (params m) s
  else if isM "mining.set_version_mask"%string then handleVersionMask s
  else s.

(** The methods gated on authorization. *)
Definition gatedMethod (m : list Z) : bool :=
  existsb (λ name, bool_decide (m = bytes_of_string name))
    ["mining.notify"; "mining.set_difficulty"; "mining.set_extranonce"; "client.show_message";
     "client.reconnect"; "mining.reconnect"; "mining.set_version_mask"]%string.

Definition preAuthCap : nat := 16.
Definition stashPreAuth (m : preAuthMsg) (s : session) : session :=
  let q := if (preAuthCap <=? length (preAuthQ s))%nat then tail (preAuthQ s) else preAuthQ s in
  set_preAuthQ (q ++ [m]) s.

(** ** Calls *)

(** Conversion of a float64 outside the uint64 range is left to the
    implementation by the language. *)
Section UintID.
Context (u64_of_float_outside : float64 → Z).
Definition uint64_of_float (f : float64) : Z :=
  if fle fzero f && flt f (f64_of_Z (2 ^ 64)) then big_Int f else wrap 64 (u64_of_float_outside f).
Definition uintID (m : rpcMessage) : Z :=
  match ID m with
  | JNum n => match num_float n with Some f => uint64_of_float f | None => 0 end
  | JStr s => (ParseUint 10 64 s).1
  | _ => 0
  end.

Definition handleResponse (m : rpcMessage) (s : session) : session :=
  let id := uintID m in
  if bool_decide (id ∈ pending s)
  then set_respCh (<[id := RespGot {| resp_result := Result m; resp_errResult := Error m |}]> (respCh s))
         (set_pending (pending s ∖ {[id]}) s)
  else s.
End UintID.

Definition cancelPending (s : session) : session :=
  set_respCh (map_imap (λ id st, Some (if bool_decide (id ∈ pending s) then RespClosed else st)) (respCh s))
    (set_pending ∅ s).

Definition closeChannels (s : session) : session := set_closed true s.

(** [session.Close] with [connection.Close]. *)
Definition Close (s : session) : session :=
  if closeDone s then s
  else set_connClosed true (cancelPending (set_ctxDone true (set_closeDone true s))).

(** [nextID.Add(1)] and the registration of the call's channel. *)
Definition call_register (s : session) : Z * session :=
  let id := wrap 64 (nextID s + 1) in
  (id, set_respCh (<[id := RespWaiting]> (respCh s))
         (set_pending ({[id]} ∪ pending s) (set_nextID id s))).

Definition forget (id : Z) (s : session) : session := set_pending (pending s ∖ {[id]}) s.

(** The write, which fails or succeeds as the connection decides. *)
Definition call_write (req : rpcRequest) (write_ok : bool) (s : session) : result session :=
  if write_ok then Ok (set_sent (sent s ++ [req]) s)
  else Err (Wrapf "stratumv1: write: %w" (Sentinel "net")).

(** What wakes the waiting call. *)
Inductive wake := WakeResponse | WakeCtx | WakeTimer.
Definition ErrCtx : error := Sentinel "context done".
Definition call_end (w : wake) (id : Z) (s : session) : option (result rpcResponse * session) :=
  match w with
  | WakeResponse =>
      match respCh s !! id with
      | Some (RespGot r) => Some (Ok r, s)
      | Some RespClosed => Some (Err (Sentinel "stratumv1: session closed before response"), s)
      | _ => None
      end
  | WakeCtx => Some (Err ErrCtx, forget id s)
  | WakeTimer => Some (Err (Sentinel "stratumv1: %s timed out after %s"), forget id s)
  end.

(** ** Submit *)

Definition submitParams (sub : ShareSubmission) (s : session) : list (list Z) :=
  let en2 := hex_EncodeToString (Sub_ExtraNonce sub) in
  let en2 :=
    match en2 with
    | [] =>
        let sz := match extranonce s with Some ep => size ep | None => 0 end in
        replicate (2 * Z.to_nat (Z.min (Z.max sz 0) maxExtranonce2Size)) 48
    | _ => en2
    end in
  let workerName :=
    match authorizedUser s with Some ((_ :: _) as u) => u | _ => bytes_of_string "otedama" end in
  [workerName; Sub_JobID sub; en2; hex8 (Sub_NTime sub); hex8 (Sub_Nonce sub)].

Definition SuggestedDifficulty (s : session) : float64 := difficulty s.

(** The verdict; [sprintf] renders a non-nil error object. *)
Definition submitVerdict (sprintf : json → list Z) (resp : rpcResponse) (s : session) : ShareResult :=
  match resp_errResult resp with
  | JNull =>
      match resp_result resp with
      | JBool true => {| Accepted := true; Result_Reason := []; Difficulty := SuggestedDifficulty s |}
      | _ => {| Accepted := false; Result_Reason := bytes_of_string "rejected"; Difficulty := fzero |}
      end
  | e => {| Accepted := false; Result_Reason := sprintf e; Difficulty := fzero |}
  end.
