(* ===== verification/V1Jobs.v ===== *)
(** * The Stratum V1 job pipeline

    From a mining.notify to a job and back to the pool: the parser inverts the
    wire encoding, the coinbase a share claims is the one the pool rebuilds,
    extranonce2 does not repeat, and the job channel keeps the newest work. *)
From S2P Require Import Prelude.
From S2P Require Import Float64.
From S2P Require Import Base58.
From S2P Require Import Json.
From S2P Require Import Poolproto.
From S2P Require Import StratumV1.

Open Scope Z_scope.

#[local] Opaque Hash256.

(** * Notify *)

(** The four bytes of each word reversed. *)
Fixpoint swap_words (b : list Z) : list Z :=
  match b with
  | b0 :: b1 :: b2 :: b3 :: b => b3 :: b2 :: b1 :: b0 :: swap_words b
  | _ => []
  end.

Lemma unswapPrevHash_swap b :
  length b = 32%nat → unswapPrevHash b = swap_words b ∧ swap_words (swap_words b) = b ∧
  length (swap_words b) = 32%nat.
Proof.
  intros Hl. do 32 (destruct b as [|? b]; [discriminate Hl|]).
  destruct b as [|? b]; [|discriminate Hl]. done.
Qed.

Lemma swap_words_ok n b : length b = (4 * n)%nat → bytes_ok b → bytes_ok (swap_words b).
Proof.
  revert b. induction n as [|n IH]; intros b Hl Hb.
  - by destruct b.
  - destruct b as [|b0 [|b1 [|b2 [|b3 b]]]]; cbn [length] in Hl; try lia.
    cbn [swap_words].
    repeat match goal with H : Forall _ (_ :: _) |- _ => apply Forall_cons in H as [? H] end.
    repeat (apply Forall_cons; split; [done|]). apply IH; [lia|done].
Qed.

(** The params of a mining.notify, as a pool writes them. *)
Definition encodeNotify (id prev c1 c2 : list Z) (branch : list (list Z))
    (version nbits ntime : Z) (clean : bool) : json :=
  JArr [JStr id; JStr (hex_EncodeToString (swap_words prev)); JStr (hex_EncodeToString c1);
        JStr (hex_EncodeToString c2); JArr (map (λ b, JStr (hex_EncodeToString b)) branch);
        JStr (hex8 version); JStr (hex8 nbits); JStr (hex8 ntime); JBool clean].

Lemma mapM_as_string ss : mapM as_string (map JStr ss) = Some ss.
Proof. induction ss as [|s ss IH]; [done|]. cbn. by rewrite IH. Qed.


Lemma hexField_Encode ok b e :
  bytes_ok b → ok b = true → hexField ok (hex_EncodeToString b) e = Ok b.
Proof. intros Hb Hok. unfold hexField. by rewrite hex_roundtrip, Hok. Qed.

Lemma hexField_Ok ok s e b : hexField ok s e = Ok b → bytes_ok b ∧ ok b = true.
Proof.
  unfold hexField. destruct (hex_DecodeString s) eqn:E; [|done]. case_if; [|done].
  intros <-%Ok_inj. by apply hex_DecodeString_spec in E as [? _].
Qed.

Lemma decodeBranches_Encode branch :
  Forall is_hash branch → decodeBranches (map hex_EncodeToString branch) = Ok branch.
Proof.
  induction 1 as [|b bs [Hl Hb] _ IH]; [done|]. cbn [map decodeBranches].
  rewrite hexField_Encode; [|done|unfold is32; by rewrite Hl].
  cbn [mbind result_bind]. by rewrite IH.
Qed.

Lemma decodeBranches_Ok hs bs : decodeBranches hs = Ok bs → Forall is_hash bs.
Proof.
  revert bs. induction hs as [|h hs IH]; intros bs; cbn [decodeBranches].
  - intros <-%Ok_inj. constructor.
  - destruct (hexField _ _ _) as [b|] eqn:E; [|done]. cbn [mbind result_bind].
    destruct (decodeBranches hs) as [bs'|]; [|done]. intros <-%Ok_inj.
    apply hexField_Ok in E as [Hb Hl]. constructor; [|by apply IH].
    split; [by apply Nat.eqb_eq|done].
Qed.

Lemma hexUint32_hex8 what v : v ∈u 32 → hexUint32 what (hex8 v) = Ok v.
Proof. intros Hv. unfold hexUint32. by rewrite ParseUint_hex8, wrap_small. Qed.

Lemma hexUint32_range what s v : hexUint32 what s = Ok v → v ∈u 32.
Proof.
  unfold hexUint32. destruct (ParseUint 16 32 s) as [v' ok]. case_if; [|done].
  intros <-%Ok_inj. apply wrap_range. lia.
Qed.

(** What every accepted notify guarantees of its job. *)
Definition notified_ok (j : Job) : Prop :=
  is_hash (Job_PrevHash j) ∧ Coinb1 j ≠ [] ∧ bytes_ok (Coinb1 j) ∧
  Coinb2 j ≠ [] ∧ bytes_ok (Coinb2 j) ∧ Forall is_hash (MerkleBranch j) ∧
  Job_Version j ∈u 32 ∧ Job_NBits j ∈u 32 ∧ Job_NTime j ∈u 32.

Lemma nonempty_spec b : nonempty b = true ↔ b ≠ [].
Proof. destruct b; done. Qed.

Lemma decodeNotifyJob_ok now ns j : decodeNotifyJob now ns = Ok j → notified_ok j.
Proof.
  unfold decodeNotifyJob. 
  destruct (hexField nonempty (coinb1Hex ns) _) as [c1|] eqn:E1; [|done].
  destruct (hexField nonempty (coinb2Hex ns) _) as [c2|] eqn:E2; [|done].
  destruct (decodeBranches _) as [br|] eqn:Eb; [|done].
  destruct (hexUint32 _ (versionHex ns)) as [v|] eqn:Ev; [|done].
  destruct (hexUint32 _ (nbitsHex ns)) as [nb|] eqn:En; [|done].
  destruct (hexUint32 _ (ntimeHex ns)) as [nt|] eqn:Et; [|done].
  destruct (hexField is32 _ _) as [p|] eqn:Ep; [|done].
  intros <-%Ok_inj. unfold notified_ok.
  cbn [Job_PrevHash Coinb1 Coinb2 MerkleBranch Job_Version Job_NBits Job_NTime].
  apply hexField_Ok in E1 as [? ?%nonempty_spec], E2 as [? ?%nonempty_spec], Ep as [? Hp].
  apply decodeBranches_Ok in Eb. apply hexUint32_range in Ev, En, Et.
  apply Nat.eqb_eq in Hp. destruct (unswapPrevHash_swap p Hp) as (-> & _ & Hs).
  repeat split; try done; try lia. by apply (swap_words_ok 8).
Qed.

(** Parsing inverts a pool's mining.notify encoding — the prevhash comes
    back in header byte order although the wire swaps each word, and every
    other field comes back unchanged — and whatever params are accepted, the
    job has a 32-byte prevhash, non-empty coinbase halves, 32-byte branches
    and 32-bit header words. *)
Theorem parseNotify_roundtrip now :
  (∀ id prev c1 c2 branch version nbits ntime clean,
     is_hash prev → bytes_ok c1 → c1 ≠ [] → bytes_ok c2 → c2 ≠ [] → Forall is_hash branch →
     version ∈u 32 → nbits ∈u 32 → ntime ∈u 32 →
     parseNotify now (Some (encodeNotify id prev c1 c2 branch version nbits ntime clean)) =
     Ok {| JobID := id; Job_Version := version; Job_PrevHash := prev;
           Job_MerkleRoot := replicate 32 0; Job_NTime := ntime; Job_NBits := nbits;
           CleanJobs := clean; Job_ExtraNonce := []; Coinb1 := c1; Coinb2 := c2;
           MerkleBranch := branch; CoinbaseTx := []; ReceivedAt := now |}) ∧
  (∀ raw j, parseNotify now raw = Ok j → notified_ok j ∧ ReceivedAt j = now).
Proof.
  split.
  - intros id prev c1 c2 branch version nbits ntime clean [Hpl Hp] Hc1 H1 Hc2 H2 Hbr Hv Hn Ht.
    destruct (unswapPrevHash_swap prev Hpl) as (_ & Hss & Hsl).
    unfold parseNotify, encodeNotify. cbn [unmarshal as_raws of_opt mbind result_bind length Nat.ltb Nat.leb].
    unfold unmarshalNotifyParams. cbn [unmarshal as_string as_bool as_raws of_opt mbind result_bind lookup list_lookup].
    unfold as_slice. cbn [as_raws mbind option_bind].
    replace (map (λ b, JStr (hex_EncodeToString b)) branch)
      with (map JStr (map hex_EncodeToString branch)) by (by rewrite map_map).
    rewrite mapM_as_string. cbn [of_opt mbind result_bind].
    unfold decodeNotifyJob. cbn [coinb1Hex coinb2Hex merkleBranchHexs versionHex nbitsHex ntimeHex
      prevHashHex jobID cleanJobs].
    rewrite !hexField_Encode, decodeBranches_Encode, !hexUint32_hex8; try done;
      try (by apply nonempty_spec); try (by apply (swap_words_ok 8));
      [|unfold is32; by rewrite Hsl].
    cbn [mbind result_bind].
    destruct (unswapPrevHash_swap (swap_words prev) Hsl) as (-> & _ & _). by rewrite Hss.
  - intros raw j. unfold parseNotify. destruct (unmarshal as_raws raw) as [p|]; [|done].
    cbn [mbind result_bind]. case_if; [done|].
    destruct (unmarshalNotifyParams p) as [ns|]; [|done]. cbn [mbind result_bind].
    intros H. split; [by eapply decodeNotifyJob_ok|]. revert H. unfold decodeNotifyJob.
    repeat (match goal with |- context [mbind _ ?c] => destruct c; [|done] end; cbn [mbind result_bind]).
    by intros <-%Ok_inj.
Qed.

Lemma parseNotify_roundtrip_witness :
  parseNotify 7 (Some (encodeNotify (bytes_of_string "j1") (seqZ 0 32) [1; 2] [3]
    [replicate 32 9] 0x20000000 0x1d00ffff 0x495fab29 true)) =
  Ok {| JobID := bytes_of_string "j1"; Job_Version := 0x20000000; Job_PrevHash := seqZ 0 32;
        Job_MerkleRoot := replicate 32 0; Job_NTime := 0x495fab29; Job_NBits := 0x1d00ffff;
        CleanJobs := true; Job_ExtraNonce := []; Coinb1 := [1; 2]; Coinb2 := [3];
        MerkleBranch := [replicate 32 9]; CoinbaseTx := []; ReceivedAt := 7 |}.
Proof.
  apply (proj1 (parseNotify_roundtrip 7)); unfold is_hash; try decide_vm; try lia; try done.
Defined.

(** * Extranonce2 *)

Lemma le_bytes_snoc k v : le_bytes (S k) v = le_bytes k v ++ [wrap 8 (Z.shiftr v (8 * Z.of_nat k))].
Proof.
  revert v. induction k as [|k IH]; intros v.
  - cbn [le_bytes app]. rewrite Z.mul_0_r, Z.shiftr_0_r. done.
  - change (le_bytes (S (S k)) v) with (v mod 256 :: le_bytes (S k) (v / 256)).
    rewrite IH. cbn [le_bytes app]. do 4 f_equal.
    change 256 with (2 ^ 8). rewrite <-Z.shiftr_div_pow2, Z.shiftr_shiftr by lia. f_equal. lia.
Qed.

Lemma extranonce2_spec n sz :
  extranonce2 n sz = replicate (sz - 8) 0 ++ reverse (le_bytes (Nat.min sz 8) n).
Proof.
  unfold extranonce2.
  assert (∀ k, (k ≤ sz)%nat →
    foldl (λ e i, <[(sz - 1 - i)%nat := wrap 8 (Z.shiftr n (8 * Z.of_nat i))]> e)
      (replicate sz 0) (seq 0 k) = replicate (sz - k) 0 ++ reverse (le_bytes k n)) as H.
  { induction k as [|k IH]; intros Hk.
    - cbn [seq foldl le_bytes]. by rewrite reverse_nil, app_nil_r, Nat.sub_0_r.
    - rewrite seq_S, foldl_app, IH by lia. cbn [foldl Nat.add].
      replace (sz - k)%nat with (S (sz - S k))%nat by lia.
      rewrite replicate_S_end, le_bytes_snoc, reverse_snoc, <-!app_assoc.
      replace (sz - 1 - k)%nat with (length (replicate (sz - S k) 0%Z) + 0)%nat
        by (rewrite length_replicate; lia).
      etransitivity; [apply (insert_app_r (replicate (sz - S k) 0) _ 0)|]. done. }
  rewrite H by lia. do 2 f_equal. lia.
Qed.

Lemma length_extranonce2 n sz : length (extranonce2 n sz) = sz.
Proof.
  rewrite extranonce2_spec, length_app, length_replicate, length_reverse, length_le_bytes. lia.
Qed.

Lemma extranonce2_bytes n sz : bytes_ok (extranonce2 n sz).
Proof.
  rewrite extranonce2_spec. apply Forall_app. split.
  - apply Forall_replicate. unfold byte_ok. lia.
  - apply bytes_ok_reverse, le_bytes_ok.
Qed.

Lemma le_bytes_mod k v : le_bytes k (v mod 256 ^ Z.of_nat k) = le_bytes k v.
Proof.
  revert v. induction k as [|k IH]; intros v; [done|].
  cbn [le_bytes]. rewrite Nat2Z.inj_succ, Z.pow_succ_r by lia.
  pose proof (Z.pow_pos_nonneg 256 (Z.of_nat k) ltac:(lia) ltac:(lia)) as Hp.
  rewrite Z.rem_mul_r by lia. f_equal.
  - rewrite (Z.mul_comm 256), Z_mod_plus_full, Zmod_mod. done.
  - rewrite (Z.mul_comm 256), Z.div_add, Z.div_small by (try lia; apply Z.mod_pos_bound; lia).
    rewrite Z.add_0_l. apply IH.
Qed.

(** Two counters give the same extranonce2 only if they agree modulo the width
    of its rolling tail. *)
Lemma extranonce2_inj n m sz :
  extranonce2 n sz = extranonce2 m sz →
  n mod 256 ^ Z.of_nat (Nat.min sz 8) = m mod 256 ^ Z.of_nat (Nat.min sz 8).
Proof.
  rewrite !extranonce2_spec. intros H%app_inv_head. apply (f_equal reverse) in H.
  rewrite !reverse_involutive in H. set (k := Nat.min sz 8) in *.
  rewrite <-(le_bytes_mod k n), <-(le_bytes_mod k m) in H. apply (f_equal le_Z) in H.
  pose proof (Z.pow_pos_nonneg 256 (Z.of_nat k) ltac:(lia) ltac:(lia)).
  by rewrite !le_Z_le_bytes in H by (apply Z.mod_pos_bound; lia).
Qed.

(** The pairs the parsers let into a session. *)
Definition pair_ok (ep : extranoncePair) : Prop :=
  extranonce1OK (en1 ep) = true ∧ extranonce2SizeOK (size ep) = true.

Lemma pair_ok_spec ep :
  pair_ok ep → ∃ e1, hex_DecodeString (en1 ep) = Some e1 ∧ e1 ≠ [] ∧ en1 ep ≠ [] ∧
    0 < size ep ≤ 64.
Proof.
  intros [H1 H2]. unfold extranonce1OK in H1. unfold extranonce2SizeOK, maxExtranonce2Size in H2.
  destruct (bool_decide (en1 ep = [])) eqn:E; [done|]. apply bool_decide_eq_false in E.
  destruct (hex_DecodeString (en1 ep)) as [e1|]; [|done]. exists e1.
  split; [done|]. split; [by destruct e1|]. split; [done|lia].
Qed.

Lemma parseSetExtranonce_ok raw e1 sz :
  parseSetExtranonce raw = Some (e1, sz) → pair_ok {| en1 := e1; size := sz |}.
Proof.
  unfold parseSetExtranonce, pair_ok. intros H.
  repeat (case_match; try done). injection H as <- <-. cbn [en1 size].
  by destruct (extranonce1OK _), (extranonce2SizeOK _).
Qed.

(** A completed job, on the branch where the session has an extranonce. *)
Lemma completeV1Job_eq j s ep e1 :
  Coinb1 j ≠ [] → Coinb2 j ≠ [] → extranonce s = Some ep → pair_ok ep →
  hex_DecodeString (en1 ep) = Some e1 →
  let n := wrap 64 (en2Counter s + 1) in
  let e2 := extranonce2 n (Z.to_nat (size ep)) in
  let '(j', s') := completeV1Job j s in
  s' = set_en2Counter n s ∧ Job_ExtraNonce j' = e2 ∧
  CoinbaseTx j' = Coinb1 j ++ e1 ++ e2 ++ Coinb2 j ∧
  Job_MerkleRoot j' = foldBranch (Hash256 (CoinbaseTx j')) (MerkleBranch j) ∧
  JobID j' = JobID j ∧ CleanJobs j' = CleanJobs j.
Proof.
  intros H1 H2 Hs Hp He n e2. destruct (pair_ok_spec ep Hp) as (_ & _ & _ & Hne & Hsz).
  unfold completeV1Job. rewrite Hs.
  rewrite (proj2 (Nat.eqb_neq (length (Coinb1 j)) 0)) by (by destruct (Coinb1 j)).
  rewrite (proj2 (Nat.eqb_neq (length (Coinb2 j)) 0)) by (by destruct (Coinb2 j)).
  rewrite bool_decide_eq_false_2 by done. cbn [orb].
  rewrite (proj2 (Z.leb_gt _ _)), (proj2 (Z.ltb_ge _ _)) by lia. cbn [orb]. rewrite He.
  cbn [CoinbaseTx Job_MerkleRoot Job_ExtraNonce JobID CleanJobs]. done.
Qed.

(** What the pool computes from the notify it sent, the extranonce1 it
    assigned and the extranonce2 of a submitted share. *)
Definition poolRoot (c1 c2 : list Z) (branch : list (list Z)) (en1hex en2hex : list Z)
    : option (list Z) :=
  e1 ← hex_DecodeString en1hex;
  e2 ← hex_DecodeString en2hex;
  Some (foldBranch (Hash256 (c1 ++ e1 ++ e2 ++ c2)) branch).


(** ** Uniqueness *)

(** The jobs of consecutive notifies on one session. *)
Fixpoint completeAll (js : list Job) (s : session) : list Job :=
  match js with
  | [] => []
  | j :: js => let '(j', s') := completeV1Job j s in j' :: completeAll js s'
  end.

Lemma completeAll_extranonces js s ep :
  Forall (λ j, Coinb1 j ≠ [] ∧ Coinb2 j ≠ []) js → extranonce s = Some ep → pair_ok ep →
  map Job_ExtraNonce (completeAll js s) =
  map (λ i, extranonce2 (wrap 64 (en2Counter s + 1 + Z.of_nat i)) (Z.to_nat (size ep)))
    (seq 0 (length js)).
Proof.
  intros Hjs. revert s. induction Hjs as [|j js [H1 H2] _ IH]; intros s Hs Hp; [done|].
  destruct (pair_ok_spec ep Hp) as (e1 & He1 & _ & _ & _).
  pose proof (completeV1Job_eq j s ep e1 H1 H2 Hs Hp He1) as H.
  cbn [completeAll]. destruct (completeV1Job j s) as [j' s'].
  destruct H as (-> & He2 & _). cbn [map length seq]. f_equal.
  - rewrite He2. by rewrite Z.add_0_r.
  - rewrite IH by done. rewrite <-seq_shift, map_map. apply map_ext. intros i.
    cbn [en2Counter set_en2Counter]. f_equal. unfold wrap.
    rewrite <-Zplus_assoc, Zplus_mod_idemp_l. f_equal. lia.
Qed.

(** Extranonce2 never repeats within its space.  The jobs of up to
    256^min(size,8) consecutive notifies on one extranonce pair carry pairwise
    different extranonce2 values, whatever the counter's starting point and
    through its 64-bit wrap-around, so no two of them share a coinbase's
    search space. *)
Theorem extranonce2_unique js s ep :
  Forall (λ j, Coinb1 j ≠ [] ∧ Coinb2 j ≠ []) js → extranonce s = Some ep → pair_ok ep →
  Z.of_nat (length js) ≤ 256 ^ Z.min (size ep) 8 →
  NoDup (map Job_ExtraNonce (completeAll js s)).
Proof.
  intros Hjs Hs Hp Hlen. rewrite (completeAll_extranonces js s ep) by done.
  destruct (pair_ok_spec ep Hp) as (_ & _ & _ & _ & Hsz).
  set (sz := Z.to_nat (size ep)).
  assert (Z.of_nat (Nat.min sz 8) = Z.min (size ep) 8) as Hk by lia.
  apply NoDup_fmap_2_strong; [|apply NoDup_seq].
  intros a b Ha%elem_of_seq Hb%elem_of_seq He%extranonce2_inj. unfold wrap in He. rewrite Hk in He.
  set (M := 256 ^ Z.min (size ep) 8) in *.
  assert (∀ v, v mod 2 ^ 64 mod M = v mod M) as Hm.
  { intros v. symmetry. apply Znumtheory.Zmod_div_mod.
    - unfold M. apply Z.pow_pos_nonneg; lia.
    - lia.
    - exists (256 ^ (8 - Z.min (size ep) 8)). unfold M. rewrite <-Z.pow_add_r by lia.
      replace (8 - Z.min (size ep) 8 + Z.min (size ep) 8) with 8 by lia. reflexivity. }
  rewrite !Hm in He.
  assert (0 < M) as HM by (unfold M; apply Z.pow_pos_nonneg; lia).
  assert ((Z.of_nat a - Z.of_nat b) mod M = 0) as Hd.
  { replace (Z.of_nat a - Z.of_nat b) with
      ((en2Counter s + 1 + Z.of_nat a) - (en2Counter s + 1 + Z.of_nat b)) by lia.
    by rewrite Zminus_mod, He, Z.sub_diag, Zmod_0_l. }
  apply Z.mod_divide in Hd as [q Hq]; [|lia].
  assert (- M < q * M < M) as Hqm by lia. assert (q < 1) by nia. assert (-1 < q) by nia.
  assert (q = 0) as -> by lia. lia.
Qed.

(** A session with a 4-byte extranonce2 and a job with one merkle branch. *)
Definition demo_session : session :=
  set_extranonce (Some {| en1 := bytes_of_string "08000002"; size := 4 |}) newSession.
Definition demo_job : Job :=
  {| JobID := bytes_of_string "bf"; Job_Version := 0x20000000; Job_PrevHash := replicate 32 1;
     Job_MerkleRoot := replicate 32 0; Job_NTime := 5; Job_NBits := 0x1d00ffff;
     CleanJobs := false; Job_ExtraNonce := []; Coinb1 := [1; 0]; Coinb2 := [255];
     MerkleBranch := [replicate 32 7]; CoinbaseTx := []; ReceivedAt := 0 |}.


Lemma extranonce2_unique_witness :
  map Job_ExtraNonce (completeAll [demo_job; demo_job; demo_job] demo_session) =
    [[0; 0; 0; 1]; [0; 0; 0; 2]; [0; 0; 0; 3]] ∧
  NoDup (map Job_ExtraNonce (completeAll [demo_job; demo_job; demo_job] demo_session)).
Proof.
  split; [reflexivity|].
  apply (extranonce2_unique [demo_job; demo_job; demo_job] demo_session {| en1 := bytes_of_string "08000002"; size := 4 |});
    [by repeat (apply Forall_cons; split; [done|])|reflexivity|split; reflexivity|vm_compute; discriminate].
Defined.

(** * The job channel *)

Lemma try_send_room {A} cap x (c : chan A) :
  (length (buf c) < cap)%nat →
  try_send cap x c = ({| buf := buf c ++ [x]; out := out c |}, true).
Proof. intros H. unfold try_send. by rewrite (proj2 (Nat.ltb_lt _ _)). Qed.

(** Whatever the consumer does meanwhile, a push ends with the new value in the
    buffer, behind a suffix of the old buffer; of the values before it the
    consumer received all but at most one, and all while there is room. *)
Lemma push_spec {A} cap sc (x : A) c :
  (0 < cap)%nat → (length (buf c) ≤ cap)%nat →
  ∃ rcvd1 lost rcvd2 kept,
    buf c = rcvd1 ++ lost ++ rcvd2 ++ kept ∧
    push cap sc x c = {| buf := kept ++ [x]; out := out c ++ rcvd1 ++ rcvd2 |} ∧
    (length lost ≤ 1)%nat ∧ ((length (buf c) < cap)%nat → lost = []) ∧
    (length kept < cap)%nat.
Proof.
  intros Hcap Hlen. unfold push. destruct (Nat.ltb_spec (length (buf c)) cap) as [Hr|Hr].
  { rewrite try_send_room by done. exists [], [], [], (buf c).
    rewrite !app_nil_r. repeat split; cbn [length]; lia. }
  unfold try_send at 1. rewrite (proj2 (Nat.ltb_ge _ _)) by done.
  set (b1 := drop (sch_gap1 sc) (buf c)). set (b2 := drop (sch_gap2 sc) (tail b1)).
  assert (length b2 < cap)%nat as Hb2.
  { unfold b2, b1. rewrite length_drop. destruct (drop (sch_gap1 sc) (buf c)) eqn:E;
      cbn [tail length]; [lia|]. apply (f_equal length) in E. rewrite length_drop in E.
    cbn [length] in E. lia. }
  exists (take (sch_gap1 sc) (buf c)), (take 1 b1), (take (sch_gap2 sc) (tail b1)), b2.
  assert (buf c = take (sch_gap1 sc) (buf c) ++ take 1 b1 ++ take (sch_gap2 sc) (tail b1) ++ b2)
    as Hc.
  { rewrite <-(take_drop (sch_gap1 sc) (buf c)) at 1. f_equal. fold b1.
    unfold b2. rewrite take_drop. by destruct b1. }
  split; [exact Hc|]. split.
  - rewrite try_send_room by exact Hb2. cbn [fst buf out consume try_drop].
    fold b1. fold b2. by rewrite <-app_assoc.
  - split; [rewrite length_take; lia|]. split; [lia|done].
Qed.

Lemma purge_spec {A} o (b r : list A) :
  buf (purge o b r) = [] ∧ ∃ t, out (purge o b r) = r ++ t ∧ t `sublist_of` b.
Proof.
  revert o r. induction b as [|x b IH]; intros o r; cbn [purge].
  - split; [done|]. exists []. by rewrite app_nil_r.
  - destruct (IH (tail o) (if default false (head o) then r ++ [x] else r)) as (Hb & t & Ho & Ht).
    split; [done|]. destruct (default false (head o)).
    + exists (x :: t). rewrite Ho, <-app_assoc. split; [done|]. by constructor.
    + exists t. split; [done|]. by constructor.
Qed.

(** The job queue always holds the newest work.  Under every consumer
    interleaving, sending a job on an open session leaves it last in the
    channel behind a suffix of the jobs that were waiting, within the
    capacity; with clean_jobs it is the only job left.  Jobs reach the
    consumer in order and none twice; without clean_jobs at most the oldest
    one is lost, and none is while the buffer has room.  A closed session's
    channel is not touched. *)
Theorem sendJob_newest sc job s :
  (length (buf (jobsCh s)) ≤ jobsCap)%nat →
  let s' := sendJob sc job s in
  (closed s = true → s' = s) ∧
  (closed s = false →
   ∃ rcvd kept,
     buf (jobsCh s') = kept ++ [job] ∧ out (jobsCh s') = out (jobsCh s) ++ rcvd ∧
     (length (buf (jobsCh s')) ≤ jobsCap)%nat ∧
     rcvd ++ kept `sublist_of` buf (jobsCh s) ∧ kept `suffix_of` buf (jobsCh s) ∧
     (CleanJobs job = true → kept = []) ∧
     (CleanJobs job = false →
        (length (buf (jobsCh s)) ≤ length (rcvd ++ kept) + 1)%nat ∧
        ((length (buf (jobsCh s)) < jobsCap)%nat → rcvd ++ kept = buf (jobsCh s)))).
Proof.
  intros Hlen s'. unfold s', sendJob. split; [by intros ->|]. intros ->.
  cbn [jobsCh set_jobsCh]. destruct (CleanJobs job).
  - destruct (purge_spec (sch_purge sc) (buf (jobsCh s)) (out (jobsCh s))) as (Hb & t & Ho & Ht).
    unfold push. rewrite try_send_room by (rewrite Hb; cbn; unfold jobsCap; lia).
    cbn [buf out]. rewrite Hb, Ho. exists t, []. rewrite app_nil_r.
    repeat split; try done; [cbn; unfold jobsCap; lia|by apply suffix_nil].
  - destruct (push_spec jobsCap sc job (jobsCh s)) as (r1 & l & r2 & k & Hc & -> & Hl & Hroom & Hk);
      [unfold jobsCap; lia|done|]. cbn [buf out]. exists (r1 ++ r2), k.
    split; [done|]. split; [done|]. rewrite Hc in *. repeat split; try done.
    + rewrite length_app. cbn [length]. lia.
    + rewrite <-app_assoc. apply sublist_app; [done|]. by apply sublist_inserts_l.
    + exists (r1 ++ l ++ r2). by rewrite <-!app_assoc.
    + rewrite !length_app in *. lia.
    + intros Hr. rewrite (Hroom Hr). by rewrite <-app_assoc.
Qed.

(** A full channel, a consumer that takes one job in the first gap. *)
Lemma sendJob_newest_witness :
  let s := set_jobsCh {| buf := replicate 8 demo_job; out := [] |} newSession in
  let sc := {| sch_purge := []; sch_gap1 := 1; sch_gap2 := 0 |} in
  ∃ rcvd kept, buf (jobsCh (sendJob sc demo_job s)) = kept ++ [demo_job] ∧
    out (jobsCh (sendJob sc demo_job s)) = rcvd.
Proof.
  intros s sc.
  destruct (proj2 (sendJob_newest sc demo_job s ltac:(cbn; unfold jobsCap; lia)) eq_refl)
    as (r & k & H1 & H2 & _).
  exists r, k. split; [exact H1|exact H2].
Defined.
