(* ===== verification/V1System.v ===== *)
(** * The Stratum V1 session as a concurrent system

    The read loop, Negotiate and any number of Submit calls run on one
    session, with the consumer of the job channels and Close.  [sys] holds the
    session, the program counter of each goroutine and two logs: the gated
    pool messages in wire order and the messages applied to the session.
    [step] performs one atomic action of one goroutine: an atomic load or
    store, a critical section, a channel operation.  The pool is an adversary:
    any line may arrive at any time. *)
From S2P Require Import Prelude.
From S2P Require Import Float64.
From S2P Require Import Json.
From S2P Require Import Poolproto.
From S2P Require Import StratumV1.
From S2P Require Import V1Jobs.

Open Scope Z_scope.

(** The read loop: between lines; [dispatch] past the load of [authorized];
    applying messages; the two deferred calls; ended. *)
Inductive reader :=
  | RIdle
  | RStash (m : preAuthMsg)
  | RFlush (m : preAuthMsg)
  | RApply (todo : list preAuthMsg)
  | RCancel
  | RCloseChannels
  | RDone.

(** The calls of the handshake. *)
Inductive phase := PSubscribe | PAuthorize | PExtranonce.

Inductive negotiator :=
  | NCall (ph : phase)
  | NWrite (ph : phase) (id : Z)
  | NWait (ph : phase) (id : Z)
  | NStoreUser
  | NStoreAuth
  | NTakeQueue
  | NReplay (todo : list preAuthMsg)
  | NDone
  | NFail (e : error).

(** A Submit between its registration, its write and its verdict. *)
Inductive submitter := SWrite (sub : ShareSubmission) | SWait.

Record sys := {
  ss : session;
  rd : reader;
  ng : negotiator;
  subs : gmap Z submitter;
  verdicts : gmap Z (result ShareResult);
  recvd : list preAuthMsg;
  applied : list preAuthMsg;
}.

Definition on_ss (f : session → session) (y : sys) : sys :=
  {| ss := f (ss y); rd := rd y; ng := ng y; subs := subs y; verdicts := verdicts y;
     recvd := recvd y; applied := applied y |}.
Definition set_rd (r : reader) (y : sys) : sys :=
  {| ss := ss y; rd := r; ng := ng y; subs := subs y; verdicts := verdicts y;
     recvd := recvd y; applied := applied y |}.
Definition set_ng (n : negotiator) (y : sys) : sys :=
  {| ss := ss y; rd := rd y; ng := n; subs := subs y; verdicts := verdicts y;
     recvd := recvd y; applied := applied y |}.
Definition set_subs (m : gmap Z submitter) (v : gmap Z (result ShareResult)) (y : sys) : sys :=
  {| ss := ss y; rd := rd y; ng := ng y; subs := m; verdicts := v;
     recvd := recvd y; applied := applied y |}.
Definition receive (m : preAuthMsg) (y : sys) : sys :=
  {| ss := ss y; rd := rd y; ng := ng y; subs := subs y; verdicts := verdicts y;
     recvd := recvd y ++ [m]; applied := applied y |}.

(** [dispatchPoolMsg] of one message, logged. *)
Definition apply_msg (now : Z) (sc : sched) (m : preAuthMsg) (y : sys) : sys :=
  {| ss := dispatchPoolMsg now sc m (ss y); rd := rd y; ng := ng y; subs := subs y;
     verdicts := verdicts y; recvd := recvd y; applied := applied y ++ [m] |}.

Definition init : sys :=
  {| ss := newSession; rd := RIdle; ng := NCall PSubscribe; subs := ∅; verdicts := ∅;
     recvd := []; applied := [] |}.

Inductive action :=
  | ARead (line : list Z)
  | AReadError
  | AReader (now : Z) (sc : sched)
  | ANeg (write_ok : bool) (w : wake) (now : Z) (sc : sched)
  | ASubmit (sub : ShareSubmission)
  | ASubmitStep (id : Z) (write_ok : bool) (w : wake)
  | AConsume (jobs diffs notices : nat)
  | AClose.

Section System.
Context (u64_of_float_outside : float64 → Z) (sprintf : json → list Z) (creds : Credentials).

(** [dispatch] up to and including the load of [authorized]. *)
Definition dispatch (line : list Z) (y : sys) : sys :=
  match trimRight line with
  | [] => y
  | line =>
      match unmarshalRpc line with
      | None => y
      | Some msg =>
          if bool_decide (Method msg = []) && negb (match ID msg with JNull => true | _ => false end)
          then on_ss (handleResponse u64_of_float_outside msg) y
          else if gatedMethod (Method msg) then
            let m := {| method := Method msg; params := Params msg |} in
            if authorized (ss y) then set_rd (RFlush m) (receive m y)
            else set_rd (RStash m) (receive m y)
          else y
      end
  end.

(** The rest of [dispatch], and the deferred calls of [readLoop]. *)
Definition reader_step (now : Z) (sc : sched) (y : sys) : option sys :=
  match rd y with
  | RStash m => Some (set_rd RIdle (on_ss (stashPreAuth m) y))
  | RFlush m => Some (set_rd (RApply (preAuthQ (ss y) ++ [m])) (on_ss (set_preAuthQ []) y))
  | RApply [] => Some (set_rd RIdle y)
  | RApply (m :: todo) => Some (set_rd (RApply todo) (apply_msg now sc m y))
  | RCancel => Some (set_rd RCloseChannels (on_ss cancelPending y))
  | RCloseChannels => Some (set_rd RDone (on_ss closeChannels y))
  | RIdle | RDone => None
  end.

Definition phaseMethod (ph : phase) : string :=
  match ph with
  | PSubscribe => "mining.subscribe"
  | PAuthorize => "mining.authorize"
  | PExtranonce => "extranonce.subscribe"
  end.
Definition phaseParams (ph : phase) : list (list Z) :=
  match ph with
  | PSubscribe => [bytes_of_string "Otedama/3.0.0"]
  | PAuthorize =>
      [User creds; match Password creds with [] => bytes_of_string "x" | p => p end]
  | PExtranonce => []
  end.

(** A failed mandatory step closes the session; the optional one is ignored. *)
Definition neg_fail (ph : phase) (e : error) (y : sys) : sys :=
  match ph with
  | PExtranonce => set_ng NDone y
  | _ => set_ng (NFail e) (on_ss Close y)
  end.

Definition neg_response (ph : phase) (r : rpcResponse) (y : sys) : sys :=
  match ph, resp_errResult r with
  | PExtranonce, _ => set_ng NDone y
  | PSubscribe, JNull =>
      match parseSubscribeResult (resp_result r) with
      | Ok (e1, sz) =>
          set_ng (NCall PAuthorize) (on_ss (set_extranonce (Some {| en1 := e1; size := sz |})) y)
      | Err _ => neg_fail ph (Wrapf "%w: %w" ErrHandshakeFailed) y
      end
  | PAuthorize, JNull =>
      match resp_result r with
      | JBool true => set_ng NStoreUser y
      | _ => neg_fail ph (Wrapf "%w: worker not authorized" ErrHandshakeFailed) y
      end
  | _, _ => neg_fail ph (Wrapf "%w: rejected: %v" ErrHandshakeFailed) y
  end.

Definition neg_step (write_ok : bool) (w : wake) (now : Z) (sc : sched) (y : sys) : option sys :=
  match ng y with
  | NCall ph =>
      let '(id, s) := call_register (ss y) in
      Some (set_ng (NWrite ph id) (on_ss (λ _, s) y))
  | NWrite ph id =>
      let req := {| req_id := id; req_method := phaseMethod ph; req_params := phaseParams ph |} in
      Some match call_write req write_ok (ss y) with
           | Ok s => set_ng (NWait ph id) (on_ss (λ _, s) y)
           | Err e => neg_fail ph e (on_ss (forget id) y)
           end
  | NWait ph id =>
      '(r, s) ← call_end w id (ss y);
      let y := on_ss (λ _, s) y in
      Some match r with
           | Err e => neg_fail ph (Wrapf "stratumv1: %s: %w" e) y
           | Ok r => neg_response ph r y
           end
  | NStoreUser => Some (set_ng NStoreAuth (on_ss (set_authorizedUser (Some (User creds))) y))
  | NStoreAuth => Some (set_ng NTakeQueue (on_ss (set_authorized true) y))
  | NTakeQueue => Some (set_ng (NReplay (preAuthQ (ss y))) (on_ss (set_preAuthQ []) y))
  | NReplay [] => Some (set_ng (NCall PExtranonce) y)
  | NReplay (m :: todo) => Some (set_ng (NReplay todo) (apply_msg now sc m y))
  | NDone | NFail _ => None
  end.

(** [Submit]: the entry check and the registration, then the write and the
    wait.  Callers get the session from Negotiate. *)
Definition submit_begin (sub : ShareSubmission) (y : sys) : option sys :=
  match ng y with
  | NDone =>
      if connClosed (ss y) then Some y (* returns an error *)
      else
        let '(id, s) := call_register (ss y) in
        Some (set_subs (<[id := SWrite sub]> (subs y)) (verdicts y) (on_ss (λ _, s) y))
  | _ => None
  end.

Definition submit_step (id : Z) (write_ok : bool) (w : wake) (y : sys) : option sys :=
  let finish v y := set_subs (delete id (subs y)) (<[id := v]> (verdicts y)) y in
  match subs y !! id with
  | Some (SWrite sub) =>
      let req := {| req_id := id; req_method := "mining.submit"; req_params := submitParams sub (ss y) |} in
      Some match call_write req write_ok (ss y) with
           | Ok s => set_subs (<[id := SWait]> (subs y)) (verdicts y) (on_ss (λ _, s) y)
           | Err e => finish (Err e) (on_ss (forget id) y)
           end
  | Some SWait =>
      '(r, s) ← call_end w id (ss y);
      Some match r with
           | Ok r => finish (Ok (submitVerdict sprintf r s)) (on_ss (λ _, s) y)
           | Err e => finish (Err e) (on_ss (λ _, s) y)
           end
  | None => None
  end.

Definition step (a : action) (y : sys) : option sys :=
  match a with
  | ARead line => match rd y with RIdle => Some (dispatch line y) | _ => None end
  | AReadError => match rd y with RIdle => Some (set_rd RCancel y) | _ => None end
  | AReader now sc => reader_step now sc y
  | ANeg ok w now sc => neg_step ok w now sc y
  | ASubmit sub => submit_begin sub y
  | ASubmitStep id ok w => submit_step id ok w y
  | AConsume j d n =>
      Some (on_ss (λ s, set_jobsCh (consume j (jobsCh s))
                     (set_diffCh (consume d (diffCh s)) (set_noticeCh (consume n (noticeCh s)) s))) y)
  | AClose => Some (on_ss Close y)
  end.

Fixpoint run (acts : list action) (y : sys) : option sys :=
  match acts with
  | [] => Some y
  | a :: acts => y ← step a y; run acts y
  end.

Definition reachable (y : sys) : Prop := ∃ acts, run acts init = Some y.
End System.

(** * What the operations leave alone *)

(** The handlers of pool messages touch neither the authorization state nor
    the call bookkeeping. *)
Definition same_control (s s' : session) : Prop :=
  authorized s' = authorized s ∧ preAuthQ s' = preAuthQ s ∧ nextID s' = nextID s ∧
  pending s' = pending s ∧ respCh s' = respCh s ∧ authorizedUser s' = authorizedUser s.

Lemma same_control_refl s : same_control s s.
Proof. done. Qed.
#[local] Hint Resolve same_control_refl : core.

Lemma completeV1Job_control j s : same_control s (completeV1Job j s).2.
Proof. unfold completeV1Job. repeat case_match; done. Qed.

Lemma sendJob_control sc j s : same_control s (sendJob sc j s).
Proof. unfold sendJob. case_if; done. Qed.

Lemma dispatchPoolMsg_control now sc m s : same_control s (dispatchPoolMsg now sc m s).
Proof.
  unfold dispatchPoolMsg. repeat (case_if; [|]).
  - unfold handleNotify. destruct (parseNotify _ _) as [j|]; [|done].
    pose proof (completeV1Job_control j s) as H. destruct (completeV1Job j s) as [j' s'].
    pose proof (sendJob_control sc j' s'). unfold same_control in *. cbn [snd] in H. intuition congruence.
  - unfold handleSetDifficulty. case_match; [|done]. cbn zeta. case_if; done.
  - unfold handleSetExtranonce. repeat case_match; done.
  - unfold handleShowMessage. repeat case_match; done.
  - done.
  - unfold handleVersionMask. case_if; [done|]. cbn zeta. case_if; done.
  - done.
Qed.

(** The session fields only pool messages write. *)
Definition isolated (s : session) : Prop :=
  jobsCh s = mkchan ∧ diffCh s = mkchan ∧ noticeCh s = mkchan ∧ difficulty s = fzero ∧
  lastReconnect s = None ∧ en2Counter s = 0 ∧ versionMaskWarned s = false.

Definition from_subscribe (s : session) : Prop :=
  match extranonce s with
  | None => True
  | Some ep => ∃ r, parseSubscribeResult r = Ok (en1 ep, size ep)
  end.

(** Negotiate has seen authorize accepted. *)
Definition post_auth (n : negotiator) : bool :=
  match n with
  | NTakeQueue | NReplay _ | NCall PExtranonce | NWrite PExtranonce _ | NWait PExtranonce _
  | NDone => true
  | _ => false
  end.

Definition gate (s : session) (r : reader) (n : negotiator) (ap : list preAuthMsg) : Prop :=
  authorized s = post_auth n ∧
  (length (preAuthQ s) ≤ preAuthCap)%nat ∧
  (authorized s = false →
     ap = [] ∧ isolated s ∧ from_subscribe s ∧
     match r with RFlush _ | RApply _ => False | _ => True end).
Definition gate_inv (y : sys) : Prop := gate (ss y) (rd y) (ng y) (applied y).

Lemma stash_length m s :
  (length (preAuthQ s) ≤ preAuthCap)%nat →
  (length (preAuthQ (stashPreAuth m s)) ≤ preAuthCap)%nat.
Proof.
  intros H. cbn [stashPreAuth preAuthQ set_preAuthQ]. unfold preAuthCap in *.
  rewrite length_app. cbn [length]. destruct (Nat.leb_spec 16 (length (preAuthQ s))).
  - destruct (preAuthQ s); cbn [tail length] in *; lia.
  - lia.
Qed.

Section Gate.
Context (u64_of_float_outside : float64 → Z) (sprintf : json → list Z) (creds : Credentials).
Notation step := (step u64_of_float_outside sprintf creds).
Notation reachable := (reachable u64_of_float_outside sprintf creds).

(** Steps that change only the call bookkeeping of the session. *)
Definition same_gate (s s' : session) : Prop :=
  authorized s' = authorized s ∧ preAuthQ s' = preAuthQ s ∧ jobsCh s' = jobsCh s ∧
  diffCh s' = diffCh s ∧ noticeCh s' = noticeCh s ∧ difficulty s' = difficulty s ∧
  lastReconnect s' = lastReconnect s ∧ en2Counter s' = en2Counter s ∧
  versionMaskWarned s' = versionMaskWarned s ∧ extranonce s' = extranonce s.

Lemma handleResponse_gate m s : same_gate s (handleResponse u64_of_float_outside m s).
Proof. unfold handleResponse. case_if; done. Qed.
Lemma Close_gate s : same_gate s (Close s).
Proof. unfold Close. case_if; done. Qed.
Lemma call_end_gate w id s r s' : call_end w id s = Some (r, s') → same_gate s s'.
Proof. unfold call_end. intros H. repeat case_match; simplify_eq; done. Qed.
Lemma call_write_gate req ok s s' : call_write req ok s = Ok s' → same_gate s s'.
Proof. unfold call_write. case_if; [|done]. by intros <-%Ok_inj. Qed.

Lemma gate_same s r n ap s' r' n' :
  gate s r n ap → same_gate s s' → post_auth n' = post_auth n →
  (authorized s = false → match r' with RFlush _ | RApply _ => False | _ => True end) →
  gate s' r' n' ap.
Proof.
  intros (Ha & Hq & Hf) (Ea & Eq & H1 & H2 & H3 & H4 & H5 & H6 & H7 & H8) Hn Hr.
  unfold gate. rewrite Ea, Eq, Hn. split; [done|]. split; [done|]. intros Hfalse.
  destruct (Hf Hfalse) as (? & Hi & Hs & _). split; [done|]. split.
  { unfold isolated in *. intuition congruence. }
  split; [|by apply Hr]. unfold from_subscribe in *. by rewrite H8.
Qed.

(** Same reader and same side of the authorization. *)
Lemma gate_call s r n ap s' n' :
  gate s r n ap → same_gate s s' → post_auth n' = post_auth n → gate s' r n' ap.
Proof. intros H Hs Hn. eapply gate_same; [done..|]. intros Hf. by apply H. Qed.

(** An authorized session stays so whatever the messages do. *)
Lemma gate_authorized s r n ap s' r' n' ap' :
  gate s r n ap → authorized s = true → authorized s' = true → post_auth n' = true →
  (length (preAuthQ s') ≤ preAuthCap)%nat → gate s' r' n' ap'.
Proof. intros H Ha Ha' Hn Hq. split; [congruence|]. split; [done|]. congruence. Qed.

Lemma gate_apply now sc m s r n ap r' n' ap' :
  gate s r n ap → authorized s = true → post_auth n' = true →
  gate (dispatchPoolMsg now sc m s) r' n' ap'.
Proof.
  intros H Ha Hn. destruct (dispatchPoolMsg_control now sc m s) as (Ea & Eq & _).
  eapply gate_authorized; [done..| |done|]; [congruence|]. rewrite Eq. apply H.
Qed.

Lemma neg_fail_gate ph e y :
  gate_inv y → post_auth (ng y) = post_auth (NCall ph) → gate_inv (neg_fail ph e y).
Proof.
  intros H Hn. unfold gate_inv. destruct ph; cbn [neg_fail ss rd ng applied set_ng on_ss];
    (eapply gate_call; [exact H| |by rewrite Hn]); first [apply Close_gate|done].
Qed.

Lemma neg_response_gate ph r y :
  gate_inv y → post_auth (ng y) = post_auth (NCall ph) → gate_inv (neg_response ph r y).
Proof.
  intros H Hn. unfold neg_response. destruct ph.
  - destruct (resp_errResult r); try (by apply neg_fail_gate).
    destruct (parseSubscribeResult (resp_result r)) as [[e1 sz]|] eqn:E;
      [|by apply neg_fail_gate].
    destruct H as (Ha & Hq & Hf). unfold gate_inv, gate.
    cbn [ss rd ng applied set_ng on_ss authorized set_extranonce preAuthQ post_auth].
    rewrite Hn in Ha. split; [done|]. split; [done|]. intros Hfalse.
    destruct (Hf Hfalse) as (? & Hi & _ & Hr). split; [done|]. split; [done|].
    split; [|done]. exists (resp_result r). done.
  - destruct (resp_errResult r); try (by apply neg_fail_gate).
    destruct (resp_result r) as [|[]| | | |]; try (by apply neg_fail_gate).
    unfold gate_inv. cbn [ss rd ng applied set_ng].
    eapply gate_call; [exact H|done|by rewrite Hn].
  - unfold gate_inv. cbn [ss rd ng applied set_ng].
    eapply gate_call; [exact H|done|by rewrite Hn].
Qed.

Lemma neg_step_gate ok w now sc y y' :
  gate_inv y → neg_step creds ok w now sc y = Some y' → gate_inv y'.
Proof.
  intros H. unfold neg_step. destruct (ng y) as [ph|ph id|ph id| | | |[|m todo]| |] eqn:En;
    cbn [call_register].
  - intros [= <-]. unfold gate_inv. cbn [ss rd ng applied set_ng on_ss].
    eapply gate_call; [exact H|done|by rewrite En; destruct ph].
  - intros [= <-]. destruct (call_write _ _ _) as [s|e] eqn:E.
    + apply call_write_gate in E. unfold gate_inv. cbn [ss rd ng applied set_ng on_ss].
      eapply gate_call; [exact H|done|by rewrite En; destruct ph].
    + apply neg_fail_gate; [|by cbn [ng on_ss]; rewrite En; destruct ph].
      by eapply gate_call; [exact H| |].
  - destruct (call_end w id (ss y)) as [[r s]|] eqn:E; [|done]. cbn [mbind option_bind].
    intros [= <-]. apply call_end_gate in E.
    assert (gate_inv (on_ss (λ _, s) y)) as H' by (by eapply gate_call; [exact H| |]).
    destruct r; [apply neg_response_gate|apply neg_fail_gate]; try done;
      cbn [ng on_ss]; rewrite En; by destruct ph.
  - intros [= <-]. unfold gate_inv. cbn [ss rd ng applied set_ng on_ss].
    eapply gate_call; [exact H|done|by rewrite En].
  - intros [= <-]. destruct H as (Ha & Hq & Hf). split; [done|]. split; [done|].
    intros Hfalse; discriminate Hfalse.
  - intros [= <-]. assert (authorized (ss y) = true) by (destruct H as [-> _]; by rewrite En).
    eapply gate_authorized; [exact H|done..|]. cbn. lia.
  - intros [= <-]. eapply gate_call; [exact H|done|by rewrite En].
  - intros [= <-]. assert (authorized (ss y) = true) by (destruct H as [-> _]; by rewrite En).
    eapply gate_apply; [exact H|done..].
  - done.
  - done.
Qed.

Lemma reader_step_gate now sc y y' :
  gate_inv y → reader_step now sc y = Some y' → gate_inv y'.
Proof.
  intros H. unfold reader_step.
  assert (match rd y with RFlush _ | RApply _ => True | _ => False end →
          authorized (ss y) = true ∧ post_auth (ng y) = true) as Hauth.
  { destruct H as (Ha & Hq & Hf). intros Hr. destruct (authorized (ss y)); [by rewrite <-Ha|].
    destruct Hf as (_ & _ & _ & Hf); [done|]. by destruct (rd y). }
  destruct (rd y) as [|m|m|[|m todo]| | |] eqn:Er; try done; intros [= <-].
  - destruct H as (Ha & Hq & Hf). unfold gate_inv, gate. cbn [ss rd ng applied set_rd on_ss].
    split; [done|]. split; [by apply stash_length|]. intros Hfalse.
    destruct (Hf Hfalse) as (? & Hi & Hs & _). done.
  - destruct (Hauth I) as [Ha Hn]. eapply gate_authorized; [exact H|done..|]. cbn. lia.
  - destruct (Hauth I) as [Ha Hn]. eapply gate_same; [exact H|done..].
  - destruct (Hauth I) as [Ha Hn]. eapply gate_apply; [exact H|done..].
  - eapply gate_same; [exact H|done..].
  - eapply gate_same; [exact H|done..].
Qed.

Lemma dispatch_gate line y :
  rd y = RIdle → gate_inv y → gate_inv (dispatch u64_of_float_outside line y).
Proof.
  intros Hr H. unfold dispatch. destruct (trimRight line) as [|c l]; [done|].
  destruct (unmarshalRpc (c :: l)) as [msg|]; [|done]. case_if.
  { eapply gate_call; [exact H|apply handleResponse_gate|done]. }
  case_if; [|done]. cbn zeta. destruct (authorized (ss y)) eqn:Ea.
  - eapply gate_authorized; [exact H|done|done| |apply H]. destruct H as [H _]. cbn [ng set_rd receive]. congruence.
  - eapply gate_same; [exact H|done..].
Qed.

Lemma gate_step a y y' : gate_inv y → step a y = Some y' → gate_inv y'.
Proof.
  intros H. destruct a as [line| |now sc|ok w now sc|sub|id ok w|j d n|]; cbn [V1System.step].
  - destruct (rd y) eqn:Er; try done. intros [= <-]. by apply dispatch_gate.
  - destruct (rd y) eqn:Er; try done. intros [= <-]. eapply gate_same; [exact H|done..].
  - by apply reader_step_gate.
  - by apply neg_step_gate.
  - unfold submit_begin. destruct (ng y) eqn:En; try done. case_if; intros [= <-]; [done|].
    eapply gate_call; [exact H|done|done].
  - unfold submit_step. destruct (subs y !! id) as [[sub|]|]; [| |done].
    + intros [= <-]. destruct (call_write _ _ _) eqn:E.
      * apply call_write_gate in E. by eapply gate_call; [exact H| |].
      * by eapply gate_call; [exact H| |].
    + destruct (call_end w id (ss y)) as [[r s]|] eqn:E; [|done]. cbn [mbind option_bind].
      apply call_end_gate in E. destruct r; intros [= <-]; by eapply gate_call; [exact H| |].
  - intros [= <-]. destruct H as (Ha & Hq & Hf). split; [done|]. split; [done|].
    intros Hfalse. destruct (Hf Hfalse) as (? & Hi & ? & ?). split; [done|]. split; [|done].
    destruct Hi as (E1 & E2 & E3 & ?). unfold isolated.
    cbn [ss on_ss jobsCh diffCh noticeCh difficulty lastReconnect en2Counter versionMaskWarned
      set_jobsCh set_diffCh set_noticeCh]. rewrite E1, E2, E3. unfold consume, mkchan.
    cbn [buf out app]. by rewrite !drop_nil, !take_nil.
  - intros [= <-]. eapply gate_call; [exact H|apply Close_gate|done].
Qed.

Lemma run_ind (P : sys → Prop) acts y y' :
  P y → (∀ a y y', P y → step a y = Some y' → P y') →
  run u64_of_float_outside sprintf creds acts y = Some y' → P y'.
Proof.
  intros Hy Hstep. revert y Hy. induction acts as [|a acts IH]; intros y Hy; cbn [run].
  - by intros [= <-].
  - destruct (step a y) as [y1|] eqn:E; [|done]. cbn [mbind option_bind]. apply IH.
    by eapply Hstep.
Qed.

Lemma gate_init : gate_inv init.
Proof. split; [done|]. split; [cbn; lia|]. done. Qed.

(** * Wire order *)

Definition ntodo (n : negotiator) : list preAuthMsg :=
  match n with NReplay todo => todo | _ => [] end.
Definition rtodo (r : reader) : list preAuthMsg :=
  match r with RApply todo => todo | _ => [] end.
Definition rpend (r : reader) : list preAuthMsg :=
  match r with RStash m | RFlush m => [m] | _ => [] end.

(** The messages received and not yet applied, oldest first. *)
Definition inflight (y : sys) : list preAuthMsg :=
  ntodo (ng y) ++ rtodo (rd y) ++ preAuthQ (ss y) ++ rpend (rd y).

(** The reader applies a message while Negotiate is replaying the stash. *)
Definition racy (a : action) (y : sys) : bool :=
  match a, rd y, ng y with
  | AReader _ _, RApply (_ :: _), NReplay (_ :: _) => true
  | _, _, _ => false
  end.

Definition queue_taken (y : sys) : Prop :=
  match rd y with RApply _ => preAuthQ (ss y) = [] | _ => True end.

(** How a step changes the sequence of applied and in-flight messages. *)
Definition moves (a : action) (y y' : sys) : Prop :=
  (∃ ms, recvd y' = recvd y ++ ms ∧ applied y' ++ inflight y' = (applied y ++ inflight y) ++ ms) ∨
  (recvd y' = recvd y ∧ ∃ l1 m l2, applied y ++ inflight y = l1 ++ m :: l2 ∧
     applied y' ++ inflight y' = l1 ++ l2 ∧ (preAuthCap < length (l1 ++ m :: l2))%nat) ∨
  (recvd y' = recvd y ∧ racy a y = true ∧ applied y' ++ inflight y' ≡ₚ applied y ++ inflight y).

Lemma moves_same a y y' :
  recvd y' = recvd y → applied y' = applied y → preAuthQ (ss y') = preAuthQ (ss y) →
  rtodo (rd y') = rtodo (rd y) → rpend (rd y') = rpend (rd y) → ntodo (ng y') = ntodo (ng y) →
  moves a y y'.
Proof.
  intros H1 H2 H3 H4 H5 H6. left. exists []. rewrite !app_nil_r. split; [done|].
  unfold inflight. by rewrite H2, H3, H4, H5, H6.
Qed.

(** A negotiation step that is not a replay leaves the messages alone. *)
Definition quiet_neg (y y' : sys) : Prop :=
  recvd y' = recvd y ∧ applied y' = applied y ∧ preAuthQ (ss y') = preAuthQ (ss y) ∧
  rd y' = rd y ∧ ntodo (ng y') = [].

Lemma neg_fail_quiet ph e y : quiet_neg y (neg_fail ph e y).
Proof.
  unfold quiet_neg. destruct ph; cbn [neg_fail recvd applied ss rd ng set_ng on_ss ntodo];
    destruct (Close_gate (ss y)) as (_ & Hq & _); by rewrite ?Hq.
Qed.

Lemma neg_response_quiet ph r y : quiet_neg y (neg_response ph r y).
Proof.
  unfold neg_response. repeat case_match; try apply neg_fail_quiet; done.
Qed.

Lemma quiet_neg_moves a y0 y y' :
  quiet_neg y y' → queue_taken y0 → recvd y = recvd y0 → applied y = applied y0 → rd y = rd y0 →
  preAuthQ (ss y) = preAuthQ (ss y0) → ntodo (ng y0) = [] →
  moves a y0 y' ∧ queue_taken y'.
Proof.
  intros (H1 & H2 & H3 & H4 & H5) Hq E1 E2 E3 E4 E5. split.
  - apply moves_same; congruence.
  - unfold queue_taken in *. rewrite H4, E3, H3, E4. done.
Qed.

Lemma neg_step_moves ok w now sc y y' :
  neg_step creds ok w now sc y = Some y' →
  queue_taken y → moves (ANeg ok w now sc) y y' ∧ queue_taken y'.
Proof.
  intros H Hq. revert H. unfold neg_step.
  destruct (ng y) as [ph|ph id|ph id| | | |[|m todo]| |] eqn:En; cbn [call_register]; try done.
  - intros [= <-]. split; [apply moves_same; try done; by rewrite En|done].
  - intros [= <-]. destruct (call_write _ _ _) as [s|e] eqn:E.
    + apply call_write_gate in E as (_ & E & _). split.
      * apply moves_same; try done; by rewrite ?En.
      * unfold queue_taken in *. cbn [rd ss set_ng on_ss]. by rewrite E.
    + eapply quiet_neg_moves; [apply neg_fail_quiet|done..|by rewrite En].
  - destruct (call_end w id (ss y)) as [[r s]|] eqn:E; [|done]. cbn [mbind option_bind].
    intros [= <-]. apply call_end_gate in E as (_ & E & _).
    destruct r; (eapply quiet_neg_moves;
      [first [apply neg_response_quiet|apply neg_fail_quiet]|done|done|done|done|exact E|by rewrite En]).
  - intros [= <-]. split; [apply moves_same; try done; by rewrite En|done].
  - intros [= <-]. split; [apply moves_same; try done; by rewrite En|done].
  - intros [= <-]. split.
    + left. exists []. rewrite !app_nil_r. split; [done|]. unfold inflight.
      cbn [ss rd ng applied set_ng on_ss preAuthQ set_preAuthQ]. rewrite En. cbn [ntodo app].
      unfold queue_taken in Hq. destruct (rd y); cbn [rtodo rpend app]; rewrite ?Hq;
        by rewrite ?app_nil_r.
    + unfold queue_taken. cbn [rd ss set_ng on_ss preAuthQ set_preAuthQ]. by destruct (rd y).
  - intros [= <-]. split; [apply moves_same; try done; by rewrite En|done].
  - intros [= <-]. split.
    + left. exists []. rewrite !app_nil_r. split; [done|]. unfold inflight.
      cbn [ss rd ng applied set_ng apply_msg]. rewrite En. cbn [ntodo].
      destruct (dispatchPoolMsg_control now sc m (ss y)) as (_ & -> & _).
      by rewrite <-!app_assoc.
    + unfold queue_taken in *. cbn [ss rd set_ng apply_msg].
      by destruct (dispatchPoolMsg_control now sc m (ss y)) as (_ & -> & _).
Qed.

Lemma reader_step_moves now sc y y' :
  reader_step now sc y = Some y' →
  queue_taken y → moves (AReader now sc) y y' ∧ queue_taken y'.
Proof.
  intros H Hq. revert H. unfold reader_step.
  destruct (rd y) as [|m|m|[|m todo]| | |] eqn:Er; try done; intros [= <-].
  - split; [|done]. unfold moves, inflight.
    cbn [ss rd ng applied recvd set_rd on_ss rtodo rpend app preAuthQ stashPreAuth set_preAuthQ].
    rewrite Er. cbn [rtodo rpend app].
    destruct (Nat.leb_spec preAuthCap (length (preAuthQ (ss y)))) as [Hc|Hc].
    + right. left. split; [done|]. unfold preAuthCap in *.
      destruct (preAuthQ (ss y)) as [|q qs]; [cbn in Hc; lia|].
      cbn [tail]. exists (applied y ++ ntodo (ng y)), q, (qs ++ [m]).
      rewrite <-!app_assoc. cbn [app]. split; [done|]. rewrite ?app_nil_r. split; [done|].
      cbn [length] in Hc. rewrite !length_app. cbn [length]. rewrite length_app. cbn [length]. lia.
    + left. exists []. by rewrite !app_nil_r.
  - split; [|done]. left. exists []. rewrite !app_nil_r. split; [done|]. unfold inflight.
    cbn [ss rd ng applied set_rd on_ss rtodo rpend preAuthQ set_preAuthQ]. rewrite Er.
    cbn [rtodo rpend app]. by rewrite app_nil_r.
  - split; [|done]. apply moves_same; try done; by rewrite Er.
  - unfold queue_taken in *. rewrite Er in Hq. cbn [ss rd set_rd apply_msg].
    destruct (dispatchPoolMsg_control now sc m (ss y)) as (_ & Eq & _).
    split; [|by rewrite Eq]. unfold moves, inflight.
    cbn [ss rd ng applied recvd set_rd apply_msg rtodo rpend]. rewrite Eq, Er, Hq.
    cbn [rtodo rpend app]. rewrite !app_nil_r.
    destruct (ntodo (ng y)) as [|n ns] eqn:En.
    + left. exists []. rewrite !app_nil_r. split; [done|]. by rewrite <-app_assoc.
    + right. right. split; [done|]. split.
      { cbn [racy]. rewrite Er. by destruct (ng y) as [| | | | | |[|]| |]. }
      rewrite <-app_assoc. apply Permutation_app_head. cbn [app].
      change (m :: n :: ns ++ todo) with ([m] ++ (n :: ns) ++ todo).
      change (n :: ns ++ m :: todo) with ((n :: ns) ++ [m] ++ todo).
      by rewrite !app_assoc, (Permutation_app_comm [m]).
  - split; [|done]. apply moves_same; try done; by rewrite Er.
  - split; [|done]. apply moves_same; try done; by rewrite Er.
Qed.

Lemma dispatch_moves line y :
  rd y = RIdle →
  moves (ARead line) y (dispatch u64_of_float_outside line y) ∧
  queue_taken (dispatch u64_of_float_outside line y).
Proof.
  intros Hr. assert (queue_taken y) as Hq by (unfold queue_taken; by rewrite Hr).
  assert (moves (ARead line) y y) as Hsame by (by apply moves_same).
  unfold dispatch. destruct (trimRight line) as [|c l]; [done|].
  destruct (unmarshalRpc (c :: l)) as [msg|]; [|done]. case_if.
  { destruct (handleResponse_gate msg (ss y)) as (_ & Eq & _).
    split; [by apply moves_same|]. unfold queue_taken. cbn [rd on_ss]. by rewrite Hr. }
  case_if; [|done]. cbn zeta.
  set (m := {| method := Method msg; params := Params msg |}).
  destruct (authorized (ss y)); (split; [|done]); left; exists [m]; (split; [done|]);
    unfold inflight; cbn [ss rd ng applied set_rd receive rtodo rpend]; rewrite Hr;
    cbn [rtodo rpend app]; by rewrite app_nil_r, <-!app_assoc.
Qed.

Lemma step_moves a y y' :
  step a y = Some y' → queue_taken y → moves a y y' ∧ queue_taken y'.
Proof.
  destruct a as [line| |now sc|ok w now sc|sub|id ok w|j d n|]; cbn [V1System.step].
  - destruct (rd y) eqn:Er; try done. intros [= <-] _. by apply dispatch_moves.
  - destruct (rd y) eqn:Er; try done. intros [= <-] _.
    split; [|done]. apply moves_same; try done; by rewrite Er.
  - apply reader_step_moves.
  - apply neg_step_moves.
  - unfold submit_begin. destruct (ng y) eqn:En; try done.
    case_if; intros [= <-] Hq; (split; [by apply moves_same|done]).
  - unfold submit_step. destruct (subs y !! id) as [[sub|]|]; [| |done].
    + intros [= <-] Hq. unfold queue_taken in *. destruct (call_write _ _ _) eqn:E.
      * apply call_write_gate in E as (_ & Eq & _). split; [by apply moves_same|].
        cbn [rd ss set_subs on_ss]. by rewrite Eq.
      * split; [by apply moves_same|done].
    + destruct (call_end w id (ss y)) as [[r s]|] eqn:E; [|done]. cbn [mbind option_bind].
      apply call_end_gate in E as (_ & Eq & _). unfold queue_taken.
      destruct r; intros [= <-] Hq; (split; [by apply moves_same|]);
        cbn [rd ss set_subs on_ss]; by rewrite Eq.
  - intros [= <-] Hq. split; [by apply moves_same|done].
  - intros [= <-] Hq. destruct (Close_gate (ss y)) as (_ & Eq & _).
    split; [by apply moves_same|]. unfold queue_taken in *. cbn [rd ss on_ss]. by rewrite Eq.
Qed.

Lemma moves_submseteq a y y' :
  moves a y y' → applied y ++ inflight y ⊆+ recvd y → applied y' ++ inflight y' ⊆+ recvd y'.
Proof.
  intros [(ms & -> & ->)|[(-> & l1 & m & l2 & E & -> & _)|(-> & _ & ->)]] H; [|rewrite E in H|done].
  - by apply submseteq_app.
  - etransitivity; [|exact H]. apply submseteq_app; [done|]. by apply submseteq_cons.
Qed.

(** C18. Nothing a pool sends before authorization reaches the miner.  Along
    every interleaving of the read loop, Negotiate, submits, Close and the
    consumer, and for every pool input: while the session is unauthorized no
    pool message has been applied, the job, difficulty and notice channels
    and the difficulty are untouched and the extranonce can only come from
    the subscribe reply; a message is applied only after Negotiate saw
    authorize accepted; each received message is applied at most once; and
    the stash never exceeds 16 messages. *)
Theorem preauth_isolation y :
  reachable y →
  (authorized (ss y) = false → applied y = [] ∧ isolated (ss y) ∧ from_subscribe (ss y)) ∧
  (applied y ≠ [] → post_auth (ng y) = true) ∧
  (length (preAuthQ (ss y)) ≤ 16)%nat ∧
  applied y ++ inflight y ⊆+ recvd y.
Proof.
  intros [acts Hrun].
  assert (gate_inv y ∧ queue_taken y ∧ applied y ++ inflight y ⊆+ recvd y) as ((Ha & Hq & Hf) & _ & Hm).
  { refine (run_ind (λ z, gate_inv z ∧ queue_taken z ∧ applied z ++ inflight z ⊆+ recvd z)
      _ _ _ _ _ Hrun).
    - split; [apply gate_init|]. split; [done|]. apply submseteq_nil_l.
    - intros a z z' (H1 & H2 & H3) Hs. destruct (step_moves a z z' Hs H2) as [Hmv Hqt].
      split; [by eapply gate_step|]. split; [done|]. by eapply moves_submseteq. }
  split; [intros Hfalse; by destruct (Hf Hfalse) as (? & ? & ? & _)|].
  split; [|done]. intros Hap. rewrite <-Ha. destruct (authorized (ss y)); [done|].
  destruct Hf as [? _]; done.
Qed.

(** Runs in which the reader applies nothing while Negotiate replays. *)
Fixpoint calm (acts : list action) (y : sys) : bool :=
  match acts with
  | [] => true
  | a :: acts =>
      negb (racy a y) && match step a y with Some y => calm acts y | None => true end
  end.

Definition in_order (y : sys) : Prop :=
  applied y ++ inflight y `sublist_of` recvd y ∧
  ((length (recvd y) ≤ preAuthCap)%nat → applied y ++ inflight y = recvd y).

Lemma moves_in_order a y y' :
  racy a y = false → moves a y y' → in_order y → in_order y'.
Proof.
  intros Hr [(ms & E1 & E2)|[(E1 & l1 & m & l2 & E & E2 & Hl)|(_ & Hr' & _)]] [Hs Hall];
    [| |congruence]; unfold in_order; rewrite E1, E2.
  - split; [by apply sublist_app|]. intros Hlen. rewrite length_app in Hlen.
    rewrite Hall; [done|lia].
  - rewrite E in Hs. split.
    + etransitivity; [|exact Hs]. apply sublist_app; [done|]. by apply sublist_cons.
    + intros Hlen. apply sublist_length in Hs. lia.
Qed.

(** Without that overlap, messages are applied in wire order.  In every
    run where the reader applies nothing while Negotiate replays the stash,
    the applied messages followed by those in flight are a subsequence of the
    received ones; with at most 16 received messages none is lost, so once
    nothing is in flight exactly the received messages have been applied, in
    order. *)
Theorem calm_wire_order acts y :
  run u64_of_float_outside sprintf creds acts init = Some y → calm acts init = true →
  applied y ++ inflight y `sublist_of` recvd y ∧
  ((length (recvd y) ≤ 16)%nat → applied y ++ inflight y = recvd y) ∧
  ((length (recvd y) ≤ 16)%nat → inflight y = [] → applied y = recvd y).
Proof.
  intros Hrun Hcalm. assert (in_order y) as [H1 H2].
  2:{ split; [done|]. split; [done|]. intros Hl Hi. rewrite <-(H2 Hl), Hi. by rewrite app_nil_r. }
  assert (in_order init ∧ queue_taken init) as [Hi Hq] by (split; [|done]; split; done).
  revert Hi Hq Hcalm Hrun. generalize init. induction acts as [|a acts IH]; intros z Hi Hq.
  - intros _ [= <-]. done.
  - cbn [calm run]. intros [Hr Hc]%andb_true_iff. destruct (step a z) as [z'|] eqn:E; [|done].
    cbn [mbind option_bind]. destruct (step_moves a z z' E Hq) as [Hm Hq'].
    apply IH; [|done|done]. apply (moves_in_order a z z'); [by destruct (racy a z)|done|done].
Qed.
End Gate.

(** ** Runs on concrete lines *)

Definition line (s : string) : list Z := dq s ++ [10].
Definition demo_creds : Credentials :=
  {| User := bytes_of_string "bc1q.rig"; Password := []; PoolPubKey := []; TLSRootCAsPEM := [] |}.
Definition demo_run : list action → sys → option sys := run (λ _, 0) (λ _, []) demo_creds.
Definition neg1 : action := ANeg true WakeResponse 0 quiet.
Definition rd1 : action := AReader 0 quiet.

(** Subscribe and authorize answered; a difficulty of 16 sent in between. *)
Definition demo_handshake : list action :=
  [neg1; neg1; ARead (line "{'id':1,'result':[[],'08000002',4],'error':null}"); neg1;
   neg1; neg1; ARead (line "{'id':null,'method':'mining.set_difficulty','params':[16]}"); rd1;
   ARead (line "{'id':2,'result':true,'error':null}"); neg1].
(** Store the user and the flag, take the stash, replay it. *)
Definition demo_flush : list action := [neg1; neg1; neg1; neg1].
Definition demo_newer : list action :=
  [ARead (line "{'id':null,'method':'mining.set_difficulty','params':[1024]}"); rd1; rd1; rd1].

Definition set_diff (s : string) : preAuthMsg :=
  {| method := bytes_of_string "mining.set_difficulty"; params := json_parse (bytes_of_string s) |}.

Lemma preauth_isolation_witness :
  ∃ y, demo_run demo_handshake init = Some y ∧ length (preAuthQ (ss y)) = 1%nat ∧
    (authorized (ss y) = false → applied y = [] ∧ isolated (ss y) ∧ from_subscribe (ss y)).
Proof.
  eexists. split; [vm_compute; reflexivity|]. split; [reflexivity|].
  refine (proj1 (preauth_isolation (λ _, 0) (λ _, []) demo_creds _ _)).
  exists demo_handshake. vm_compute. reflexivity.
Defined.

Lemma calm_wire_order_witness :
  ∃ y, demo_run (demo_handshake ++ demo_flush ++ demo_newer) init = Some y ∧
    difficulty (ss y) = f64_of_Z 1024 ∧ applied y = recvd y.
Proof.
  eexists. split; [vm_compute; reflexivity|]. split; [vm_compute; reflexivity|].
  refine (proj2 (proj2 (calm_wire_order (λ _, 0) (λ _, []) demo_creds
    (demo_handshake ++ demo_flush ++ demo_newer) _ _ _)) _ _);
    [vm_compute; reflexivity|vm_compute; reflexivity|cbn; lia|reflexivity].
Defined.

(** With the overlap the newer difficulty is applied first and the stashed one
    overwrites it: the session is left on a difficulty the pool replaced. *)
Lemma replay_race_reverts_difficulty :
  ∃ y, demo_run (demo_handshake ++ [neg1; neg1; neg1] ++ demo_newer ++ [neg1]) init = Some y ∧
    recvd y = [set_diff "[16]"; set_diff "[1024]"] ∧
    applied y = [set_diff "[1024]"; set_diff "[16]"] ∧
    inflight y = [] ∧ difficulty (ss y) = f64_of_Z 16.
Proof. eexists. split; [vm_compute; reflexivity|]. vm_compute. repeat split. Qed.
