(* ===== verification/V1Calls.v ===== *)
(** * In-flight calls of a Stratum V1 session

    The pending table against the goroutines that wait on it, along every
    interleaving of [V1System]. *)
From S2P Require Import Prelude.
From S2P Require Import Float64.
From S2P Require Import Json.
From S2P Require Import Poolproto.
From S2P Require Import StratumV1.
From S2P Require Import V1System.

Open Scope Z_scope.

(** Issued ids up to [n]; [live] are the ids goroutines are still working on.
    An id is in the table exactly while its channel is empty. *)
Definition calls_ok (n : Z) (pend : gset Z) (resp : gmap Z respState) (live : gset Z) : Prop :=
  0 ≤ n ∧ pend ⊆ live ∧
  ∀ id, id ∈ live → 1 ≤ id ≤ n ∧
    ∃ st, resp !! id = Some st ∧ (id ∈ pend ↔ st = RespWaiting).

Lemma calls_register n p r l :
  calls_ok n p r l →
  calls_ok (n + 1) ({[n + 1]} ∪ p) (<[n + 1 := RespWaiting]> r) ({[n + 1]} ∪ l) ∧ n + 1 ∉ l.
Proof.
  intros (Hn & Hp & Hl). assert (n + 1 ∉ l) as Hnew by (intros H; apply Hl in H; lia).
  split; [|done]. split; [lia|]. split; [set_solver|]. intros id [->%elem_of_singleton|Hid]%elem_of_union.
  - split; [lia|]. exists RespWaiting. rewrite lookup_insert_eq. set_solver.
  - destruct (Hl id Hid) as (Hr & st & Hst & Hiff). split; [lia|]. exists st.
    rewrite lookup_insert_ne by lia. split; [done|].
    rewrite elem_of_union, elem_of_singleton, <-Hiff. split; [|by right]. intros [->|]; [lia|done].
Qed.

Lemma calls_response n p r l id resp :
  calls_ok n p r l → calls_ok n (p ∖ {[id]}) (<[id := RespGot resp]> r) l.
Proof.
  intros (Hn & Hp & Hl). split; [done|]. split; [set_solver|]. intros id' Hid.
  destruct (Hl id' Hid) as (Hr & st & Hst & Hiff). split; [done|].
  destruct (decide (id' = id)) as [->|Hne].
  - exists (RespGot resp). rewrite lookup_insert_eq. split; [done|]. split; [set_solver|done].
  - exists st. rewrite lookup_insert_ne by done. split; [done|]. rewrite <-Hiff. set_solver.
Qed.

Lemma calls_cancel n p r l :
  calls_ok n p r l →
  calls_ok n ∅ (map_imap (λ id st, Some (if bool_decide (id ∈ p) then RespClosed else st)) r) l.
Proof.
  intros (Hn & Hp & Hl). split; [done|]. split; [set_solver|]. intros id Hid.
  destruct (Hl id Hid) as (Hr & st & Hst & Hiff). split; [done|].
  rewrite map_lookup_imap, Hst. cbn [mbind option_bind]. eexists. split; [reflexivity|].
  split; [set_solver|]. case_bool_decide as Hb; [done|]. tauto.
Qed.

Lemma calls_forget n p r l id :
  calls_ok n p r l → calls_ok n (p ∖ {[id]}) r (l ∖ {[id]}).
Proof.
  intros (Hn & Hp & Hl). split; [done|]. split; [set_solver|].
  intros id' [Hid Hne]%elem_of_difference.
  destruct (Hl id' Hid) as (Hr & st & Hst & Hiff). split; [done|]. exists st.
  split; [done|]. rewrite <-Hiff. set_solver.
Qed.

Lemma calls_finish n p r l id st :
  calls_ok n p r l → r !! id = Some st → st ≠ RespWaiting → calls_ok n p r (l ∖ {[id]}).
Proof.
  intros H Hst Hw. destruct H as (Hn & Hp & Hl).
  assert (id ∉ p) as Hid.
  { intros Hid. destruct (Hl id (Hp _ Hid)) as (_ & st' & Hst' & Hiff).
    rewrite Hst in Hst'. injection Hst' as <-. by apply Hw, Hiff. }
  replace p with (p ∖ {[id]}) by set_solver. by apply calls_forget.
Qed.

(** ** The invariant *)

Definition sess_calls (s : session) (l : gset Z) : Prop :=
  calls_ok (nextID s) (pending s) (respCh s) l.

Definition neg_ids (n : negotiator) : gset Z :=
  match n with NWrite _ id | NWait _ id => {[id]} | _ => ∅ end.
Definition live (y : sys) : gset Z := neg_ids (ng y) ∪ dom (subs y).

Definition calls_inv (y : sys) : Prop :=
  sess_calls (ss y) (live y) ∧ neg_ids (ng y) ## dom (subs y).

Definition same_calls (s s' : session) : Prop :=
  nextID s' = nextID s ∧ pending s' = pending s ∧ respCh s' = respCh s.

Lemma same_control_calls s s' : same_control s s' → same_calls s s'.
Proof. unfold same_control, same_calls. tauto. Qed.

Lemma cancelPending_calls s l : sess_calls s l → sess_calls (cancelPending s) l.
Proof. apply calls_cancel. Qed.

Lemma Close_calls s l : sess_calls s l → sess_calls (Close s) l.
Proof. intros H. unfold Close. case_if; [done|]. by apply cancelPending_calls. Qed.

Lemma register_calls s l :
  nextID s + 1 < 2 ^ 64 → sess_calls s l →
  sess_calls (call_register s).2 ({[(call_register s).1]} ∪ l) ∧ (call_register s).1 ∉ l ∧
  nextID (call_register s).2 = nextID s + 1.
Proof.
  intros Hn H. unfold call_register. cbn [fst snd].
  rewrite wrap_small by (destruct H as [? _]; lia).
  destruct (calls_register _ _ _ _ H) as [H1 H2]. done.
Qed.

(** The end of a call, by a response or by giving up. *)
Lemma call_end_calls w id s r s' l :
  call_end w id s = Some (r, s') → sess_calls s l →
  sess_calls s' (l ∖ {[id]}) ∧ nextID s' = nextID s.
Proof.
  intros He H. destruct w; cbn [call_end] in He.
  - destruct (respCh s !! id) as [[|resp|]|] eqn:E; try done; injection He as <- <-;
      (split; [|done]); by eapply calls_finish.
  - injection He as <- <-. split; [by apply calls_forget|done].
  - injection He as <- <-. split; [by apply calls_forget|done].
Qed.

(** Project the call counter through session updates and compare. *)
Ltac bookkeeping :=
  cbn [ss on_ss set_rd set_subs nextID set_respCh set_pending set_sent cancelPending
    set_connClosed set_ctxDone set_closeDone init newSession]; lia.

Section Calls.
Context (u64_of_float_outside : float64 → Z) (sprintf : json → list Z) (creds : Credentials).
Notation step := (step u64_of_float_outside sprintf creds).

(** What a step may do to the bookkeeping. *)
Definition calls_step (y y' : sys) : Prop :=
  calls_inv y' ∧ nextID (ss y') ≤ nextID (ss y) + 1.

(** The negotiator's call is over and the session is at [s]. *)
Lemma neg_fail_calls ph e y y0 :
  sess_calls (ss y) (dom (subs y)) → nextID (ss y) = nextID (ss y0) →
  calls_step y0 (neg_fail ph e y).
Proof.
  intros H Hn. assert (nextID (Close (ss y)) = nextID (ss y)) as Hc by (unfold Close; by case_if).
  destruct ph; unfold calls_step, calls_inv, live;
    cbn [neg_fail ss ng subs set_ng on_ss neg_ids]; rewrite ?Hc, (left_id_L ∅ (∪));
    (split; [split; [|set_solver]|lia]); try (by apply Close_calls); done.
Qed.

Lemma neg_response_calls ph r y y0 :
  sess_calls (ss y) (dom (subs y)) → nextID (ss y) = nextID (ss y0) →
  calls_step y0 (neg_response ph r y).
Proof.
  intros H Hn. unfold neg_response.
  repeat case_match; try (by apply neg_fail_calls); unfold calls_step, calls_inv, live;
    cbn [ss ng subs set_ng on_ss neg_ids nextID set_extranonce]; rewrite (left_id_L ∅ (∪));
    (split; [split; [exact H|set_solver]|lia]).
Qed.

Lemma calls_same y y' :
  calls_inv y → same_calls (ss y) (ss y') → neg_ids (ng y') = neg_ids (ng y) →
  subs y' = subs y → calls_step y y'.
Proof.
  intros [H Hd] (E1 & E2 & E3) Hn Hsub. unfold calls_step, calls_inv, live, sess_calls.
  rewrite Hn, Hsub, E1, E2, E3. split; [done|lia].
Qed.

Lemma neg_step_calls ok w now sc y y' :
  calls_inv y → nextID (ss y) + 1 < 2 ^ 64 →
  neg_step creds ok w now sc y = Some y' → calls_step y y'.
Proof.
  intros Hinv Hn. pose proof Hinv as [H Hd]. unfold neg_step.
  assert (∀ id, neg_ids (ng y) = {[id]} → live y ∖ {[id]} = dom (subs y)) as Hlive.
  { intros id E. unfold live. rewrite E in *. set_solver. }
  destruct (ng y) as [ph|ph id|ph id| | | |[|m todo]| |] eqn:En; try done;
    try (intros [= <-]; apply calls_same; [done|done|by rewrite En|done]).
  - assert (live y = dom (subs y)) as Hl by (unfold live; rewrite En; set_solver).
    destruct (register_calls (ss y) (live y) Hn H) as (H1 & H2 & H3).
    destruct (call_register (ss y)) as [id s]. cbn [fst snd] in *. intros [= <-].
    unfold calls_step, calls_inv, live. cbn [ss ng subs set_ng on_ss neg_ids].
    rewrite Hl in *. split; [split; [done|set_solver]|lia].
  - intros [= <-]. unfold call_write. destruct ok.
    + apply calls_same; [done|done|by rewrite En|done].
    + apply neg_fail_calls; [|done]. cbn [ss subs on_ss]. rewrite <-(Hlive id) by done.
      by apply calls_forget.
  - destruct (call_end w id (ss y)) as [[r s]|] eqn:E; [|done]. cbn [mbind option_bind].
    destruct (call_end_calls _ _ _ _ _ _ E H) as [H1 H2]. rewrite (Hlive id) in H1 by done.
    intros [= <-]. destruct r; [apply neg_response_calls|apply neg_fail_calls]; done.
  - intros [= <-]. apply calls_same; [done|apply same_control_calls, dispatchPoolMsg_control|
      by rewrite En|done].
Qed.

Lemma reader_step_calls now sc y y' :
  calls_inv y → reader_step now sc y = Some y' → calls_step y y'.
Proof.
  intros Hinv. unfold reader_step.
  destruct (rd y) as [|m|m|[|m todo]| | |]; try done; intros [= <-];
    try (by apply calls_same).
  - apply calls_same; [done|apply same_control_calls, dispatchPoolMsg_control|done|done].
  - destruct Hinv as [H Hd]. split; [|bookkeeping]. split; [by apply cancelPending_calls|done].
Qed.

Lemma handleResponse_calls m s l :
  sess_calls s l →
  sess_calls (handleResponse u64_of_float_outside m s) l ∧
  nextID (handleResponse u64_of_float_outside m s) = nextID s.
Proof.
  intros H. unfold handleResponse. cbn zeta. case_bool_decide; [|done].
  split; [by apply calls_response|done].
Qed.

Lemma dispatch_calls line y :
  calls_inv y → calls_step y (dispatch u64_of_float_outside line y).
Proof.
  intros Hinv. assert (calls_step y y) as Hsame by (by apply calls_same).
  unfold dispatch. destruct (trimRight line) as [|c l]; [done|].
  destruct (unmarshalRpc (c :: l)) as [msg|]; [|done]. case_if.
  - destruct Hinv as [H Hd]. destruct (handleResponse_calls msg (ss y) (live y) H) as [H1 H2].
    split; [done|]. cbn [ss on_ss]. lia.
  - case_if; [|done]. cbn zeta. case_if; by apply calls_same.
Qed.

(** A submit's end: the id leaves [subs] with the session at [s]. *)
Lemma submit_finish_calls id v s y :
  calls_inv y → is_Some (subs y !! id) → sess_calls s (live y ∖ {[id]}) →
  nextID s = nextID (ss y) →
  calls_step y (set_subs (delete id (subs y)) (<[id := v]> (verdicts y)) (on_ss (λ _, s) y)).
Proof.
  intros [H Hd] Hin Hs Hn. assert (id ∈ dom (subs y)) as Hid by (by apply elem_of_dom).
  unfold calls_step, calls_inv, live. cbn [ss ng subs set_subs on_ss]. rewrite dom_delete_L.
  split; [split; [|set_solver]|lia].
  replace (neg_ids (ng y) ∪ dom (subs y) ∖ {[id]}) with (live y ∖ {[id]}); [done|].
  unfold live. set_solver.
Qed.

Lemma submit_step_calls id ok w y y' :
  calls_inv y → submit_step sprintf id ok w y = Some y' → calls_step y y'.
Proof.
  intros Hinv. unfold submit_step. destruct (subs y !! id) as [[sub|]|] eqn:E; [| |done].
  - intros [= <-]. unfold call_write. destruct ok.
    + destruct Hinv as [H Hd]. unfold calls_step, calls_inv, live.
      cbn [ss ng subs set_subs on_ss]. rewrite dom_insert_lookup_L by (by rewrite E).
      split; [done|bookkeeping].
    + apply submit_finish_calls; [done|by rewrite E| |done]. destruct Hinv as [H _].
      by apply calls_forget.
  - destruct (call_end w id (ss y)) as [[r s]|] eqn:Ec; [|done]. cbn [mbind option_bind].
    destruct Hinv as [H Hd]. destruct (call_end_calls _ _ _ _ _ _ Ec H) as [H1 H2].
    destruct r; intros [= <-]; by apply submit_finish_calls.
Qed.

Lemma calls_step_step a y y' :
  calls_inv y → nextID (ss y) + 1 < 2 ^ 64 → step a y = Some y' → calls_step y y'.
Proof.
  intros Hinv Hn. destruct a as [line| |now sc|ok w now sc|sub|id ok w|j d n|]; cbn [V1System.step].
  - destruct (rd y); try done. intros [= <-]. by apply dispatch_calls.
  - destruct (rd y); try done. intros [= <-]. by apply calls_same.
  - by apply reader_step_calls.
  - by apply neg_step_calls.
  - unfold submit_begin. destruct (ng y) eqn:En; try done.
    case_if; [intros [= <-]; by apply calls_same|]. destruct Hinv as [H Hd].
    destruct (register_calls (ss y) (live y) Hn H) as (H1 & H2 & H3).
    destruct (call_register (ss y)) as [id s]. cbn [fst snd] in *. intros [= <-].
    unfold calls_step, calls_inv. unfold live in *. cbn [ss ng subs set_subs on_ss].
    rewrite En in *. cbn [neg_ids] in *. rewrite dom_insert_L. split; [split; [|set_solver]|lia].
    replace (∅ ∪ ({[id]} ∪ dom (subs y))) with ({[id]} ∪ (∅ ∪ dom (subs y))) by set_solver. done.
  - by apply submit_step_calls.
  - intros [= <-]. by apply calls_same.
  - intros [= <-]. destruct Hinv as [H Hd]. split; [split; [by apply Close_calls|done]|].
    cbn [ss on_ss]. unfold Close. case_if; bookkeeping.
Qed.

Lemma calls_init : calls_inv init.
Proof. split; [split; [done|]; split; [done|]|]; set_solver. Qed.

Lemma run_calls acts y y' :
  calls_inv y → nextID (ss y) + Z.of_nat (length acts) < 2 ^ 64 →
  run u64_of_float_outside sprintf creds acts y = Some y' → calls_inv y'.
Proof.
  revert y. induction acts as [|a acts IH]; intros y H Hn; cbn [run].
  - by intros [= <-].
  - cbn [length] in Hn. destruct (step a y) as [y1|] eqn:E; [|done]. cbn [mbind option_bind].
    destruct (calls_step_step a y y1 H ltac:(lia) E) as [H1 H2]. apply IH; [done|lia].
Qed.

(** The pending table never leaks and never loses a wake-up.  Along every
    interleaving of fewer than 2^64 steps — with failed writes, timeouts,
    cancellations, a dying read loop and Close anywhere in between — each
    entry of the table belongs to a call some goroutine is still running, a
    running call is in the table exactly while its channel is empty, and one
    that is not can return at once with its response or the closed-session
    error. *)
Theorem pending_exact acts y :
  run u64_of_float_outside sprintf creds acts init = Some y → Z.of_nat (length acts) < 2 ^ 64 →
  pending (ss y) ⊆ live y ∧
  (∀ id, id ∈ live y → (id ∈ pending (ss y) ↔ respCh (ss y) !! id = Some RespWaiting)) ∧
  (∀ id, id ∈ live y → id ∉ pending (ss y) →
     ∃ r, call_end WakeResponse id (ss y) = Some (r, ss y)).
Proof.
  intros Hrun Hlen.
  destruct (run_calls acts init y calls_init ltac:(bookkeeping) Hrun) as [(_ & Hp & Hl) _].
  split; [done|]. split.
  - intros id Hid. destruct (Hl id Hid) as (_ & st & -> & ->). split; [by intros ->|congruence].
  - intros id Hid Hnot. destruct (Hl id Hid) as (_ & st & Hst & Hiff). cbn [call_end].
    rewrite Hst. destruct st; [exfalso; by apply Hnot, Hiff|eauto..].
Qed.
End Calls.

Lemma pending_exact_witness :
  ∃ y, demo_run [neg1; neg1; AReadError; rd1] init = Some y ∧ live y = {[1]} ∧
    pending (ss y) ⊆ live y.
Proof.
  eexists. split; [vm_compute; reflexivity|]. split; [vm_compute; reflexivity|].
  refine (proj1 (pending_exact (λ _, 0) (λ _, []) demo_creds [neg1; neg1; AReadError; rd1] _ _ _));
    [vm_compute; reflexivity|reflexivity].
Defined.
