(* ===== verification/Wire.v ===== *)
(** * internal/stratum/wire.go

    The little-endian encoding primitives of the Stratum V2 messages, the
    in-memory [byteSliceReader], and Go's [io.Reader] contract.

    [Reader] is the interface ([io.Reader]); [StreamReader] states what a
    reader promises: it delivers the bytes of a finite stream in order, in
    pieces of any size, and then reports a fixed fault.  [byteSliceReader]
    is one instance; the frame decoder and the message decoders are proved
    against the interface only. *)
From S2P Require Import Prelude.

Open Scope Z_scope.

(** ** [io.Reader] and [io.ReadFull] *)

(** [Read n r] is [r.Read(p)] with [len(p) = n]: the bytes stored, the error,
    the reader afterwards.  [budget] is model-only: it bounds the number of
    calls a loop over [Read] may make and serves as its fuel. *)
Class Reader (R : Type) := {
  Read : nat → R → (list Z * option error) * R;
  budget : R → nat;
}.

Fixpoint ReadAtLeast `{Reader R} (fuel need : nat) (acc : list Z) (r : R)
    : result (list Z) * R :=
  if (need <=? length acc)%nat then (Ok acc, r) else
  match fuel with
  | O => (Err Diverges, r)
  | S fuel =>
      let '((bs, err), r') := Read (need - length acc) r in
      let acc' := acc ++ bs in
      match err with
      | None => ReadAtLeast fuel need acc' r'
      | Some e =>
          if (need <=? length acc')%nat then (Ok acc', r')
          else if (0 <? length acc')%nat && bool_decide (e = EOF)
          then (Err ErrUnexpectedEOF, r')
          else (Err e, r')
      end
  end.

Definition ReadFull `{Reader R} (n : nat) (r : R) : result (list Z) * R :=
  ReadAtLeast (S (budget r)) n [] r.

(** Computations that read: a reader in, a result and the reader out. *)
Definition rdm (R A : Type) : Type := R → result A * R.

#[export] Instance rdm_ret {R} : MRet (rdm R) := λ A a r, (Ok a, r).
#[export] Instance rdm_bind {R} : MBind (rdm R) := λ A B k c r,
  match c r with (Ok a, r') => k a r' | (Err e, r') => (Err e, r') end.

Definition rd_fail {R A} (e : error) : rdm R A := λ r, (Err e, r).
Definition rd_wrap {R A} (fmt : string) (c : rdm R A) : rdm R A := λ r,
  match c r with (Ok a, r') => (Ok a, r') | (Err e, r') => (Err (Wrapf fmt e), r') end.

(** ** The byte-slice reader *)

Record byteSliceReader := { bsr_b : list Z; bsr_pos : nat }.

Definition newByteReader (b : list Z) : byteSliceReader := {| bsr_b := b; bsr_pos := 0 |}.

Definition byteSliceReader_Read (n : nat) (r : byteSliceReader)
    : (list Z * option error) * byteSliceReader :=
  if (length (bsr_b r) <=? bsr_pos r)%nat then (([], Some EOF), r)
  else
    let bs := take n (drop (bsr_pos r) (bsr_b r)) in
    ((bs, None), {| bsr_b := bsr_b r; bsr_pos := bsr_pos r + length bs |}).

#[export] Instance byteSliceReader_Reader : Reader byteSliceReader := {|
  Read := byteSliceReader_Read;
  budget r := (length (bsr_b r) - bsr_pos r)%nat;
|}.

Definition ReadByte : rdm byteSliceReader Z := λ r,
  match bsr_b r !! bsr_pos r with
  | None => (Err EOF, r)
  | Some c => (Ok c, {| bsr_b := bsr_b r; bsr_pos := S (bsr_pos r) |})
  end.

(** Run a decoder over a payload, as [newByteReader(payload)] does. *)
Definition decode_with {A} (c : rdm byteSliceReader A) (payload : list Z) : result A :=
  fst (c (newByteReader payload)).

(** ** Append and get *)

Definition appendStr0_255 (b : list Z) (s : string) : result (list Z) :=
  let s := bytes_of_string s in
  if (255 <? length s)%nat
  then Err (Errorf "stratum: string too long (%d > 255 bytes)" [Z.of_nat (length s)])
  else Ok ((b ++ [wrap 8 (Z.of_nat (length s))]) ++ s).

Definition getStr0_255 `{Reader R} : rdm R string :=
  lenBuf ← rd_wrap "stratum: reading string length: %w" (ReadFull 1);
  let n := Z.to_nat (nth 0 lenBuf 0) in
  if (n =? 0)%nat then mret ""
  else
    buf ← rd_wrap "stratum: reading string bytes: %w" (ReadFull n);
    mret (string_of_bytes buf).

Definition appendB0_255 (dst v : list Z) : result (list Z) :=
  if (255 <? length v)%nat
  then Err (Errorf "stratum: byte slice too long (%d > 255)" [Z.of_nat (length v)])
  else Ok ((dst ++ [wrap 8 (Z.of_nat (length v))]) ++ v).

Definition getB0_255 `{Reader R} : rdm R (list Z) :=
  lenBuf ← ReadFull 1;
  let n := Z.to_nat (nth 0 lenBuf 0) in
  if (n =? 0)%nat then mret [] else ReadFull n.

Definition appendB0_32 (dst v : list Z) : result (list Z) :=
  if (32 <? length v)%nat
  then Err (Errorf "stratum: byte slice too long for B0_32 (%d > 32)" [Z.of_nat (length v)])
  else Ok ((dst ++ [wrap 8 (Z.of_nat (length v))]) ++ v).

Definition appendU16LE (b : list Z) (v : Z) : list Z := b ++ le_bytes 2 v.
Definition appendU32LE (b : list Z) (v : Z) : list Z := b ++ le_bytes 4 v.

Definition getU16LE `{Reader R} : rdm R Z := b ← ReadFull 2; mret (le_Z b).
Definition getU32LE `{Reader R} : rdm R Z := b ← ReadFull 4; mret (le_Z b).

(** A [float32] is its IEEE 754 bit pattern: Stratum V2 only moves the pattern. *)
Record float32 := { f32_bits : Z }.
Definition float32bits (f : float32) : Z := f32_bits f.
Definition float32frombits (v : Z) : float32 := {| f32_bits := v |}.

(** A [net.Conn] whose peer sends the given segments and then closes: [Read]
    returns at most one segment at a time. *)
Record segmentConn := { segments : list (list Z) }.

Definition segmentConn_Read (n : nat) (r : segmentConn)
    : (list Z * option error) * segmentConn :=
  match segments r with
  | [] => (([], Some EOF), r)
  | seg :: segs =>
      ((take n seg, None),
       {| segments := if (length seg <=? n)%nat then segs else drop n seg :: segs |})
  end.

#[export] Instance segmentConn_Reader : Reader segmentConn := {|
  Read := segmentConn_Read;
  budget r := (length (concat (segments r)) + length (segments r))%nat;
|}.

(** ** What a reader promises *)

Class StreamReader (R : Type) `{Reader R} := {
  stream : R → list Z;
  fault : R → error;
  Read_lawful : ∀ n r, (0 < n)%nat →
    match Read n r with
    | ((bs, None), r') =>
        stream r = bs ++ stream r' ∧ (length bs ≤ n)%nat ∧
        fault r' = fault r ∧ (budget r' < budget r)%nat
    | ((bs, Some e), _) => bs = [] ∧ stream r = [] ∧ e = fault r
    end;
}.

(** The outcome [io.ReadFull] has on a stream [s] that ends in fault [e]. *)
Definition read_outcome (n : nat) (s : list Z) (e : error) : result (list Z) :=
  if (n <=? length s)%nat then Ok (take n s)
  else Err (if (0 <? length s)%nat && bool_decide (e = EOF) then ErrUnexpectedEOF else e).

Section readers.
Context {R : Type} `{StreamReader R}.

(** [Reads c bs a]: on a stream that starts with [bs] the computation
    returns [a] and consumes exactly [bs]; on a stream that is a strict
    prefix of [bs] it fails. *)
Definition Reads {A} (c : rdm R A) (bs : list Z) (a : A) : Prop :=
  (∀ r rest, stream r = bs ++ rest →
     ∃ r', c r = (Ok a, r') ∧ stream r' = rest ∧ fault r' = fault r) ∧
  (∀ r rest, stream r ++ rest = bs → rest ≠ [] → ∃ e r', c r = (Err e, r')).

Lemma ReadAtLeast_spec fuel need acc r :
  (budget r < fuel)%nat → (length acc ≤ need)%nat →
  ∃ r', ReadAtLeast fuel need acc r =
    (read_outcome need (acc ++ stream r) (fault r), r') ∧
    ((need ≤ length acc + length (stream r))%nat →
     stream r' = drop (need - length acc) (stream r) ∧ fault r' = fault r).
Proof.
  revert acc r. induction fuel as [|fuel IH]; intros acc r Hf Hl; [lia|].
  cbn [ReadAtLeast]. destruct (Nat.leb_spec need (length acc)) as [Hn|Hn].
  { assert (length acc = need) as Ha by lia. exists r. split.
    - unfold read_outcome. rewrite length_app, (proj2 (Nat.leb_le _ _)) by lia.
      by rewrite take_app_exact.
    - intros _. by rewrite Ha, Nat.sub_diag. }
  pose proof (Read_lawful (need - length acc) r ltac:(lia)) as HR.
  destruct (Read _ r) as [[bs [e|]] r'].
  - destruct HR as (-> & Hs & ->). exists r'. rewrite !app_nil_r, Hs, app_nil_r.
    unfold read_outcome. rewrite (proj2 (Nat.leb_gt _ _)) by lia.
    split; [|simpl; lia]. by destruct (_ && _).
  - destruct HR as (Hs & Hb & Hft & Hbud).
    destruct (IH (acc ++ bs) r') as (r'' & -> & Hok);
      [lia|rewrite length_app; lia|].
    exists r''. rewrite Hft, Hs, <- app_assoc. split; [done|].
    rewrite !length_app in *. intros Hle. destruct Hok as [-> ->]; [lia|].
    rewrite Hft. split; [|done]. rewrite drop_app_ge by lia. f_equal. lia.
Qed.

Lemma ReadFull_spec n r :
  ∃ r', ReadFull n r = (read_outcome n (stream r) (fault r), r') ∧
    ((n ≤ length (stream r))%nat → stream r' = drop n (stream r) ∧ fault r' = fault r).
Proof.
  destruct (ReadAtLeast_spec (S (budget r)) n [] r) as (r' & Heq & Hok); [lia|simpl; lia|].
  exists r'. unfold ReadFull. rewrite Heq. simpl in *. by rewrite Nat.sub_0_r in Hok.
Qed.

Lemma Reads_ReadFull bs : Reads (ReadFull (length bs)) bs bs.
Proof.
  split.
  - intros r rest Hs. destruct (ReadFull_spec (length bs) r) as (r' & -> & Hok).
    rewrite Hs, length_app in Hok. destruct Hok as [Hs' Hf]; [lia|].
    exists r'. unfold read_outcome. rewrite Hs, length_app, (proj2 (Nat.leb_le _ _)) by lia.
    rewrite take_app_length. rewrite drop_app_length in Hs'. auto.
  - intros r rest Hs Hr. destruct (ReadFull_spec (length bs) r) as (r' & -> & _).
    rewrite <- Hs, length_app. destruct rest; [done|]. unfold read_outcome. simpl.
    rewrite (proj2 (Nat.leb_gt _ _)) by lia. eauto.
Qed.

Lemma Reads_ret {A} (a : A) : Reads (mret a) [] a.
Proof.
  split; [intros r rest Hs; exists r; auto|].
  intros r rest Hs Hr. destruct (stream r); simpl in *; congruence.
Qed.

Lemma Reads_bind {A B} (c : rdm R A) (k : A → rdm R B) bs1 bs2 a b :
  Reads c bs1 a → Reads (k a) bs2 b → Reads (c ≫= k) (bs1 ++ bs2) b.
Proof.
  intros [H1 H1'] [H2 H2']. split.
  - intros r rest Hs. rewrite <- app_assoc in Hs.
    destruct (H1 _ _ Hs) as (r1 & E1 & Hs1 & Hf1).
    destruct (H2 _ _ Hs1) as (r2 & E2 & Hs2 & Hf2).
    exists r2. unfold mbind, rdm_bind. rewrite E1, E2. split_and!; congruence.
  - intros r rest Hs Hr. unfold mbind, rdm_bind.
    apply app_eq_inv in Hs as [(k' & Hk & Hk')|(k' & Hk & Hk')].
    + destruct (H1 r k' Hk) as (r1 & E1 & Hs1 & _). rewrite E1.
      apply (H2' r1 rest); [by rewrite Hs1|done].
    + destruct k' as [|x k'].
      * destruct (H1 r []) as (r1 & E1 & Hs1 & _);
          [rewrite app_nil_r in Hk; by rewrite app_nil_r|].
        rewrite E1. apply (H2' r1 bs2); [by rewrite Hs1|simpl in *; congruence].
      * destruct (H1' r (x :: k')) as (e & r1 & ->); eauto.
Qed.

Lemma Reads_wrap {A} fmt (c : rdm R A) bs a : Reads c bs a → Reads (rd_wrap fmt c) bs a.
Proof.
  intros [H1 H2]. unfold rd_wrap. split.
  - intros r rest Hs. destruct (H1 r rest Hs) as (r' & -> & ?). eauto.
  - intros r rest Hs Hr. destruct (H2 r rest Hs Hr) as (e & r' & ->). eauto.
Qed.

Lemma Reads_fmap_ret {A B} (c : rdm R A) (f : A → B) bs a :
  Reads c bs a → Reads (x ← c; mret (f x)) bs (f a).
Proof.
  intros Hc. rewrite <- (app_nil_r bs). eapply Reads_bind; [done|]. apply Reads_ret.
Qed.

Lemma Reads_getU16LE v : v ∈u 16 → Reads getU16LE (le_bytes 2 v) v.
Proof.
  intros Hv. unfold getU16LE. rewrite <- (le_Z_le_bytes 2 v) at 2 by exact Hv.
  apply Reads_fmap_ret. rewrite <- (length_le_bytes 2 v) at 1. apply Reads_ReadFull.
Qed.

Lemma Reads_getU32LE v : v ∈u 32 → Reads getU32LE (le_bytes 4 v) v.
Proof.
  intros Hv. unfold getU32LE. rewrite <- (le_Z_le_bytes 4 v) at 2 by exact Hv.
  apply Reads_fmap_ret. rewrite <- (length_le_bytes 4 v) at 1. apply Reads_ReadFull.
Qed.

(** Reading a one-byte length and then that many bytes. *)
Lemma Reads_prefixed {A} (k : list Z → rdm R A) (v : list Z) a :
  (length v ≤ 255)%nat →
  Reads (k [Z.of_nat (length v)]) v a →
  Reads (ReadFull 1 ≫= k) (wrap 8 (Z.of_nat (length v)) :: v) a.
Proof.
  intros Hl Hk. rewrite wrap_small by lia.
  eapply (Reads_bind _ _ [Z.of_nat (length v)]); [apply (Reads_ReadFull [_])|done].
Qed.

Lemma Reads_getB0_255 v :
  (length v ≤ 255)%nat → Reads getB0_255 (wrap 8 (Z.of_nat (length v)) :: v) v.
Proof.
  intros Hl. unfold getB0_255. apply Reads_prefixed; [done|]. simpl.
  rewrite Nat2Z.id. destruct v as [|x v]; [apply Reads_ret|].
  apply (Reads_ReadFull (x :: v)).
Qed.

Lemma Reads_getStr0_255 s :
  (String.length s ≤ 255)%nat →
  Reads getStr0_255 (wrap 8 (Z.of_nat (String.length s)) :: bytes_of_string s) s.
Proof.
  rewrite <- length_bytes_of_string. intros Hl. unfold getStr0_255.
  change (wrap 8 ?x :: ?y) with ([wrap 8 x] ++ y).
  eapply Reads_bind.
  { apply Reads_wrap. rewrite wrap_small by lia. apply (Reads_ReadFull [_]). }
  cbn [nth]. rewrite Nat2Z.id. destruct s as [|c s]; [apply Reads_ret|].
  generalize (String.String c s) (eq_refl : (length (bytes_of_string (String.String c s)) =? 0)%nat = false).
  intros s' ->. rewrite <- (string_of_bytes_of_string s') at 3.
  apply Reads_fmap_ret, Reads_wrap, Reads_ReadFull.
Qed.
End readers.

(** ** The byte-slice reader keeps the promise *)

#[export] Program Instance byteSliceReader_StreamReader : StreamReader byteSliceReader := {|
  stream r := drop (bsr_pos r) (bsr_b r);
  fault _ := EOF;
|}.
Next Obligation.
  intros n [b pos] Hn. unfold Read, byteSliceReader_Reader, byteSliceReader_Read. simpl.
  destruct (Nat.leb_spec (length b) pos) as [Hp|Hp]; simpl.
  - split_and!; auto. by apply drop_ge.
  - split_and!; [|rewrite length_take; lia|done|].
    + rewrite <- drop_drop, length_take, length_drop.
      destruct (decide (n ≤ length b - pos)%nat).
      * rewrite Nat.min_l, take_drop by lia. done.
      * rewrite Nat.min_r, (take_ge (drop pos b) n) by (rewrite ?length_drop; lia).
        rewrite (drop_ge (drop pos b)) by (rewrite length_drop; lia). by rewrite app_nil_r.
    + rewrite length_take, length_drop. lia.
Qed.

#[export] Program Instance segmentConn_StreamReader : StreamReader segmentConn := {|
  stream r := concat (segments r);
  fault _ := EOF;
|}.
Next Obligation.
  intros n [[|seg segs]] Hn; simpl; [done|].
  destruct (Nat.leb_spec (length seg) n); simpl.
  - rewrite take_ge, length_app by lia. split_and!; auto; lia.
  - rewrite app_assoc, take_drop, !length_app, length_take, length_drop.
    split_and!; auto; lia.
Qed.

Lemma Reads_ReadByte c : Reads ReadByte [c] c.
Proof.
  split.
  - intros [b pos] rest Hs. simpl in *. unfold ReadByte. simpl.
    assert (b !! pos = Some c) as ->.
    { rewrite <- (Nat.add_0_r pos), <- lookup_drop, Hs. done. }
    eexists. split; [done|]. simpl. split; [|done].
    replace (S pos) with (pos + 1)%nat by lia. by rewrite <- drop_drop, Hs.
  - intros [b pos] rest Hs Hr. simpl in *. unfold ReadByte. simpl.
    destruct (drop pos b) as [|x l] eqn:E.
    + destruct (b !! pos) eqn:Hb; [|eauto].
      apply lookup_lt_Some in Hb. apply (f_equal length) in E.
      rewrite length_drop in E. simpl in E. lia.
    + destruct l, rest; simpl in *; simplify_eq.
Qed.

(** What [Reads] gives for a decoder run over a payload. *)
Lemma decode_with_Reads {A} (c : rdm byteSliceReader A) bs a rest :
  Reads c bs a → decode_with c (bs ++ rest) = Ok a.
Proof.
  intros [H _]. unfold decode_with.
  destruct (H (newByteReader (bs ++ rest)) rest) as (r' & -> & _); done.
Qed.

Lemma decode_with_truncated {A} (c : rdm byteSliceReader A) bs a p rest :
  Reads c bs a → p ++ rest = bs → rest ≠ [] → ∃ e, decode_with c p = Err e.
Proof.
  intros [_ H] Hp Hr. unfold decode_with.
  destruct (H (newByteReader p) rest) as (e & r' & ->); eauto.
Qed.

#[export] Hint Resolve Reads_getU16LE Reads_getU32LE Reads_getB0_255 Reads_getStr0_255
  Reads_ReadByte Reads_ret : otd.
