(* ===== verification/Frame.v ===== *)
(** * internal/stratum/frame.go

    The Stratum V2 frame layer: the six-byte header (U16 extension type, U8
    message type, U24 length), [EncodeFrame], [DecodeHeader] and the
    [Decoder], which reads frames from any [io.Reader] under a size bound.

    The theorems characterise the decoder completely on any lawful reader:
    it returns a frame exactly when the stream starts with that frame's
    encoding, whatever the fragmentation of the reads. *)
From S2P Require Import Prelude.
From S2P Require Import Wire.

Open Scope Z_scope.

Definition HeaderSize : nat := 6.
Definition MaxMessageLength : Z := Z.shiftl 1 24 - 1.
Definition DefaultMaxFrameSize : Z := 16 * 1024 * 1024.
Definition MinimumChannelPayload : nat := 4.
Definition channelMsgBit : Z := 0x8000.

Record Header := {
  ExtensionType : Z;  (* uint16 *)
  MsgType : Z;        (* uint8 *)
  MsgLength : Z;      (* uint32 *)
}.

Definition ChannelMsg (h : Header) : bool :=
  negb (Z.land (ExtensionType h) channelMsgBit =? 0).

Definition ExtensionID (h : Header) : Z := Z.ldiff (ExtensionType h) channelMsgBit.

Definition Validate (h : Header) : result unit :=
  if MaxMessageLength <? MsgLength h
  then Err (Errorf "stratum: MsgLength %d exceeds U24 maximum %d" [MsgLength h; MaxMessageLength])
  else if ChannelMsg h && (MsgLength h <? Z.of_nat MinimumChannelPayload)
  then Err (Errorf "stratum: channel message requires payload >= %d bytes, got %d"
              [Z.of_nat MinimumChannelPayload; MsgLength h])
  else Ok ().

Record Frame := {
  FHeader : Header;
  Payload : list Z;
}.

Definition ChannelID (f : Frame) : result Z :=
  if negb (ChannelMsg (FHeader f))
  then Err (Errorf "stratum: frame is not a channel message" [])
  else if (length (Payload f) <? MinimumChannelPayload)%nat
  then Err (Errorf "stratum: channel message payload is %d bytes, need at least %d"
              [Z.of_nat (length (Payload f)); Z.of_nat MinimumChannelPayload])
  else Ok (le_Z (take MinimumChannelPayload (Payload f))).

(** [EncodeHeader] writes into [dst]; the model returns the buffer afterwards. *)
Definition EncodeHeader (dst : list Z) (h : Header) : result (list Z) :=
  _ ← Validate h;
  if (length dst <? HeaderSize)%nat
  then Err (Errorf "stratum: dst too small: need %d bytes, got %d"
              [Z.of_nat HeaderSize; Z.of_nat (length dst)])
  else Ok (le_bytes 2 (ExtensionType h) ++
           [MsgType h;
            wrap 8 (MsgLength h);
            wrap 8 (Z.shiftr (MsgLength h) 8);
            wrap 8 (Z.shiftr (MsgLength h) 16)] ++ drop HeaderSize dst).

Definition EncodeFrame (f : Frame) : result (list Z) :=
  if MaxMessageLength <? Z.of_nat (length (Payload f))
  then Err (Errorf "stratum: payload length %d exceeds U24 maximum %d"
              [Z.of_nat (length (Payload f)); MaxMessageLength])
  else
    let h := {| ExtensionType := ExtensionType (FHeader f);
                MsgType := MsgType (FHeader f);
                MsgLength := wrap 32 (Z.of_nat (length (Payload f))) |} in
    _ ← Validate h;
    (* the error of EncodeHeader is discarded: a failure leaves buf zeroed *)
    let buf := replicate HeaderSize 0 in
    let buf := match EncodeHeader buf h with Ok b => b | Err _ => buf end in
    Ok (buf ++ Payload f).

Definition DecodeHeader (src : list Z) : result Header :=
  if (length src <? HeaderSize)%nat
  then Err (Errorf "stratum: header truncated: need %d bytes, got %d"
              [Z.of_nat HeaderSize; Z.of_nat (length src)])
  else Ok {|
    ExtensionType := le_Z (slice 0 2 src);
    MsgType := nth 2 src 0;
    MsgLength := Z.lor (Z.lor (nth 3 src 0) (Z.shiftl (nth 4 src 0) 8))
                       (Z.shiftl (nth 5 src 0) 16);
  |}.

(** The header buffer [scratch] is overwritten by every call and never read
    across calls, so the decoder's state is its reader and its bound. *)
Record Decoder (R : Type) := {
  dec_r : R;
  MaxFrameSize : Z;
}.
Arguments dec_r {_} _.
Arguments MaxFrameSize {_} _.

Definition NewDecoder {R} (r : R) : Decoder R :=
  {| dec_r := r; MaxFrameSize := DefaultMaxFrameSize |}.

Definition ReadFrame `{Reader R} (d : Decoder R) : result Frame * Decoder R :=
  let set r := {| dec_r := r; MaxFrameSize := MaxFrameSize d |} in
  if MaxFrameSize d <=? 0
  then (Err (Errorf "stratum: Decoder.MaxFrameSize must be positive" []), d)
  else
    match ReadFull HeaderSize (dec_r d) with
    | (Err e, r) => (Err e, set r)
    | (Ok scratch, r) =>
        (* the error of DecodeHeader is discarded: the zero header *)
        let h := match DecodeHeader scratch with
                 | Ok h => h
                 | Err _ => {| ExtensionType := 0; MsgType := 0; MsgLength := 0 |}
                 end in
        match Validate h with
        | Err e => (Err e, set r)
        | Ok _ =>
            let total := Z.of_nat HeaderSize + MsgLength h in
            if MaxFrameSize d <? total
            then (Err (Errorf "stratum: frame size %d exceeds MaxFrameSize %d"
                         [total; MaxFrameSize d]), set r)
            else if 0 <? MsgLength h then
              match ReadFull (Z.to_nat (MsgLength h)) r with
              | (Err e, r) => (Err e, set r)
              | (Ok payload, r) => (Ok {| FHeader := h; Payload := payload |}, set r)
              end
            else (Ok {| FHeader := h; Payload := [] |}, set r)
        end
    end.

(** ** Well-formedness *)

Definition header_ok (h : Header) : Prop :=
  ExtensionType h ∈u 16 ∧ MsgType h ∈u 8 ∧ MsgLength h ∈u 32.

Definition frame_ok (f : Frame) : Prop :=
  header_ok (FHeader f) ∧ bytes_ok (Payload f).

(** The header's length field is the payload's length. *)
Definition frame_consistent (f : Frame) : Prop :=
  MsgLength (FHeader f) = Z.of_nat (length (Payload f)).

(** ** Lemmas on headers *)

Definition header_bytes (h : Header) : list Z :=
  le_bytes 2 (ExtensionType h) ++ [MsgType h] ++ le_bytes 3 (MsgLength h).

Lemma length_header_bytes h : length (header_bytes h) = HeaderSize.
Proof. reflexivity. Qed.

Lemma Validate_ok h :
  Validate h = Ok () ↔
  MsgLength h < 2 ^ 24 ∧ (ChannelMsg h = true → 4 ≤ MsgLength h).
Proof.
  unfold Validate. change MaxMessageLength with (2 ^ 24 - 1).
  change (Z.of_nat MinimumChannelPayload) with 4.
  destruct (Z.ltb_spec (2 ^ 24 - 1) (MsgLength h)).
  - split; [done|lia].
  - destruct (ChannelMsg h); simpl; [|split; [intros _; split; [lia|done]|done]].
    destruct (Z.ltb_spec (MsgLength h) 4); split; try done; try lia.
Qed.

Lemma Validate_cases h : Validate h = Ok () ∨ ∃ e, Validate h = Err e.
Proof. destruct (Validate h) as [[]|e]; eauto. Qed.

Lemma EncodeHeader_bytes h dst :
  header_ok h → Validate h = Ok () → (HeaderSize ≤ length dst)%nat →
  EncodeHeader dst h = Ok (header_bytes h ++ drop HeaderSize dst).
Proof.
  intros (_ & _ & Hl) Hv Hd. unfold EncodeHeader, header_bytes. rewrite Hv. cbn [mbind result_bind].
  if_lia. unfold wrap. rewrite !Z.shiftr_div_pow2 by lia.
  change (2 ^ 16) with (256 * 256). change (2 ^ 8) with 256.
  by rewrite <- Zdiv_Zdiv by lia.
Qed.

Lemma DecodeHeader_bytes h rest :
  header_ok h → MsgLength h < 2 ^ 24 → DecodeHeader (header_bytes h ++ rest) = Ok h.
Proof.
  intros (He & Ht & Hl) Hlt. destruct h as [ext ty len]. cbn [ExtensionType MsgType MsgLength] in *.
  unfold DecodeHeader. cbn -[Z.div Z.modulo Z.lor Z.shiftl Z.mul]. f_equal. f_equal.
  - exact (le_Z_le_bytes 2 ext He).
  - rewrite <- (le_Z_le_bytes 3 len) at 4 by word_lia. cbn [le_bytes le_Z].
    pose proof (Z.mod_pos_bound len 256). pose proof (Z.mod_pos_bound (len `div` 256) 256).
    rewrite (lor_shiftl_add _ _ 8), (lor_shiftl_add _ _ 16) by word_lia.
    pow_consts. ring.
Qed.

Lemma DecodeHeader_inv src h :
  bytes_ok src → DecodeHeader src = Ok h →
  header_ok h ∧ MsgLength h < 2 ^ 24 ∧ src = header_bytes h ++ drop HeaderSize src.
Proof.
  intros Hb Hd. unfold DecodeHeader in Hd. case_if; [done|].
  do 6 (destruct src as [|? src]; [simpl in *; unfold HeaderSize in *; lia|]).
  repeat match goal with H : bytes_ok (_ :: _) |- _ => apply Forall_cons in H as [? H] end.
  injection Hd as <-. cbn -[Z.mul Z.lor Z.shiftl Z.pow le_Z header_bytes].
  rewrite (lor_shiftl_add _ _ 8), (lor_shiftl_add _ _ 16) by word_lia.
  match goal with |- context [?a + 2 ^ 8 * ?b + 2 ^ 16 * ?c] =>
    replace (a + 2 ^ 8 * b + 2 ^ 16 * c) with (le_Z [a; b; c]) by (cbn [le_Z]; word_lia) end.
  split_and!.
  - unfold header_ok. cbn [ExtensionType MsgType MsgLength le_Z]. word_lia.
  - cbn [le_Z]. word_lia.
  - unfold header_bytes. cbn [ExtensionType MsgType MsgLength].
    match goal with |- context [?a + 256 * (?b + 256 * 0)] =>
      change (a + 256 * (b + 256 * 0)) with (le_Z [a; b]) end.
    rewrite (le_bytes_le_Z [_; _]), (le_bytes_le_Z [_; _; _]) by (repeat constructor; word_lia).
    done.
Qed.

(** ** Encoding *)

Lemma EncodeFrame_spec f bs :
  frame_ok f → EncodeFrame f = Ok bs →
  let h := {| ExtensionType := ExtensionType (FHeader f); MsgType := MsgType (FHeader f);
              MsgLength := Z.of_nat (length (Payload f)) |} in
  bs = header_bytes h ++ Payload f ∧ Validate h = Ok () ∧ header_ok h.
Proof.
  intros [(He & Ht & _) Hp] HE h. unfold EncodeFrame in HE. case_if; [done|].
  change MaxMessageLength with (2 ^ 24 - 1) in *.
  rewrite wrap_small in HE by word_lia. fold h in HE.
  destruct (Validate_cases h) as [Hv|[e Hv]]; rewrite Hv in HE; [|done].
  assert (header_ok h) as Hh by (unfold header_ok, h; simpl; word_lia).
  cbn [mbind result_bind] in HE.
  rewrite EncodeHeader_bytes in HE by (auto; rewrite length_replicate; lia).
  injection HE as <-. auto.
Qed.

Lemma EncodeFrame_consistent f :
  frame_consistent f → frame_ok f → Validate (FHeader f) = Ok () →
  EncodeFrame f = Ok (header_bytes (FHeader f) ++ Payload f).
Proof.
  intros Hc [Hh Hp] Hv. destruct f as [h p]. unfold frame_consistent in Hc. simpl in *.
  pose proof (proj1 (Validate_ok h) Hv) as [Hl _]. unfold EncodeFrame.
  cbn [FHeader Payload]. change MaxMessageLength with (2 ^ 24 - 1). if_lia.
  rewrite wrap_small by word_lia. rewrite <- Hc.
  replace {| ExtensionType := _ |} with h by (by destruct h).
  rewrite Hv. cbn [mbind result_bind].
  rewrite EncodeHeader_bytes by (auto; rewrite length_replicate; lia). done.
Qed.

(** ** The decoder *)

Section decoder.
Context {R : Type} `{StreamReader R}.

(** Everything [ReadFrame] does once the header bytes are there. *)
Lemma ReadFrame_header d h rest :
  header_ok h → MsgLength h < 2 ^ 24 → 0 < MaxFrameSize d →
  stream (dec_r d) = header_bytes h ++ rest →
  ∃ r, stream r = rest ∧ fault r = fault (dec_r d) ∧
    ReadFrame d =
      let set r := {| dec_r := r; MaxFrameSize := MaxFrameSize d |} in
      match Validate h with
      | Err e => (Err e, set r)
      | Ok _ =>
          let total := Z.of_nat HeaderSize + MsgLength h in
          if MaxFrameSize d <? total
          then (Err (Errorf "stratum: frame size %d exceeds MaxFrameSize %d"
                       [total; MaxFrameSize d]), set r)
          else match ReadFull (Z.to_nat (MsgLength h)) r with
               | (Err e, r) => (Err e, set r)
               | (Ok payload, r) => (Ok {| FHeader := h; Payload := payload |}, set r)
               end
      end.
Proof.
  intros Hh Hl Hm Hs.
  destruct (Reads_ReadFull (header_bytes h)) as [HR _].
  destruct (HR _ _ Hs) as (r & Hr & Hst & Hf). exists r. split_and!; [done..|].
  unfold ReadFrame. if_lia. change (length (header_bytes h)) with HeaderSize in Hr.
  rewrite Hr. rewrite <- (app_nil_r (header_bytes h)), DecodeHeader_bytes by done.
  destruct (Validate h); [|done]. destruct (_ <? _); [done|].
  destruct (Z.ltb_spec 0 (MsgLength h)); [done|].
  destruct Hh as (_ & _ & Hh). replace (MsgLength h) with 0 by lia. done.
Qed.

Lemma ReadFrame_complete d f bs rest :
  frame_ok f → EncodeFrame f = Ok bs →
  Z.of_nat (length bs) ≤ MaxFrameSize d →
  stream (dec_r d) = bs ++ rest →
  ∃ d', ReadFrame d =
      (Ok {| FHeader := {| ExtensionType := ExtensionType (FHeader f);
                           MsgType := MsgType (FHeader f);
                           MsgLength := Z.of_nat (length (Payload f)) |};
             Payload := Payload f |}, d') ∧
    stream (dec_r d') = rest ∧ MaxFrameSize d' = MaxFrameSize d.
Proof.
  intros Hf HE Hm Hs. destruct (EncodeFrame_spec f bs Hf HE) as (-> & Hv & Hh).
  rewrite length_app, length_header_bytes in Hm. rewrite <- app_assoc in Hs.
  set (h := {| ExtensionType := _ |}) in *.
  pose proof (proj1 (Validate_ok h) Hv) as [Hl _].
  destruct (ReadFrame_header d h (Payload f ++ rest)) as (r & Hr & _ & ->); auto;
    [unfold HeaderSize in *; lia|].
  rewrite Hv. cbv zeta. cbn [MsgLength h]. if_lia.
  destruct (Reads_ReadFull (Payload f)) as [HR _].
  destruct (HR _ _ Hr) as (r' & Hr' & Hst & _). rewrite Nat2Z.id, Hr'. eauto.
Qed.

Lemma ReadFrame_short d :
  0 < MaxFrameSize d → (length (stream (dec_r d)) < HeaderSize)%nat →
  ∃ d', ReadFrame d = (Err (if (0 <? length (stream (dec_r d)))%nat
                            && bool_decide (fault (dec_r d) = EOF)
                            then ErrUnexpectedEOF else fault (dec_r d)), d').
Proof.
  intros Hm Hl. unfold ReadFrame. if_lia.
  destruct (ReadFull_spec HeaderSize (dec_r d)) as (r' & -> & _).
  unfold read_outcome. if_lia. eauto.
Qed.

Lemma stream_header s :
  bytes_ok s → (HeaderSize ≤ length s)%nat →
  ∃ h, header_ok h ∧ MsgLength h < 2 ^ 24 ∧ s = header_bytes h ++ drop HeaderSize s.
Proof.
  intros Hb Hl. destruct (DecodeHeader s) as [h|e] eqn:Hd.
  - exists h. by apply DecodeHeader_inv.
  - unfold DecodeHeader in Hd. case_if; [lia|done].
Qed.

Lemma ReadFrame_sound d f d' :
  bytes_ok (stream (dec_r d)) → ReadFrame d = (Ok f, d') →
  frame_ok f ∧ frame_consistent f ∧ Validate (FHeader f) = Ok () ∧
  Z.of_nat (HeaderSize + length (Payload f)) ≤ MaxFrameSize d ∧
  stream (dec_r d) = header_bytes (FHeader f) ++ Payload f ++ stream (dec_r d').
Proof.
  intros Hb HR. destruct (Z.leb_spec (MaxFrameSize d) 0) as [Hm|Hm].
  { unfold ReadFrame in HR. rewrite (proj2 (Z.leb_le _ _)) in HR by done. done. }
  destruct (Nat.ltb_spec (length (stream (dec_r d))) HeaderSize) as [Hl|Hl].
  { destruct (ReadFrame_short d) as [d2 Hd]; auto. congruence. }
  destruct (stream_header (stream (dec_r d))) as (h & Hh & Hlt & Hs); auto.
  destruct (ReadFrame_header d h _ Hh Hlt Hm Hs) as (r & Hr & Hfl & E).
  rewrite E in HR. cbv zeta in HR.
  destruct (Validate_cases h) as [Hv|[e Hv]]; rewrite Hv in HR; [|done].
  case_if; [done|].
  destruct (ReadFull_spec (Z.to_nat (MsgLength h)) r) as (r' & HF & Hok).
  rewrite HF in HR. unfold read_outcome in HR. case_if; [|done].
  destruct Hok as [Hs' _]; [lia|]. injection HR as <- <-. simpl.
  rewrite Hr in *. assert (0 ≤ MsgLength h) by (destruct Hh as (_ & _ & ?); lia).
  unfold frame_ok, frame_consistent. simpl. rewrite length_take.
  rewrite Nat.min_l by lia. split_and!; auto; try lia.
  - rewrite Hs in Hb. apply Forall_app in Hb as [_ Hb]. by apply Forall_take.
  - unfold HeaderSize in *. lia.
  - rewrite Hs', take_drop. done.
Qed.
End decoder.

(** ** Properties *)

(** C23. Decoding is the left inverse of encoding on every lawful transport:
    whatever pieces the transport delivers the bytes in, a decoder whose
    bound admits the frame returns the frame that was encoded (with the
    length field [EncodeFrame] fills in) and leaves exactly the rest of the
    stream for the next call. *)
Theorem ReadFrame_EncodeFrame `{StreamReader R} (d : Decoder R) f bs rest :
  frame_ok f → EncodeFrame f = Ok bs →
  Z.of_nat (length bs) ≤ MaxFrameSize d →
  stream (dec_r d) = bs ++ rest →
  ∃ d', ReadFrame d =
      (Ok {| FHeader := {| ExtensionType := ExtensionType (FHeader f);
                           MsgType := MsgType (FHeader f);
                           MsgLength := Z.of_nat (length (Payload f)) |};
             Payload := Payload f |}, d') ∧
    stream (dec_r d') = rest ∧ MaxFrameSize d' = MaxFrameSize d.
Proof. apply ReadFrame_complete. Qed.

(** A frame is accepted only if it is exactly what was on the wire: the
    consumed bytes are the frame's canonical encoding, its header passes
    [Validate], its length field is its payload's length and header plus
    payload stay within the decoder's [MaxFrameSize]. *)
Theorem ReadFrame_accepts_only_encodings `{StreamReader R} (d : Decoder R) f d' :
  bytes_ok (stream (dec_r d)) → ReadFrame d = (Ok f, d') →
  frame_consistent f ∧ Validate (FHeader f) = Ok () ∧
  Z.of_nat (HeaderSize + length (Payload f)) ≤ MaxFrameSize d ∧
  ∃ bs, EncodeFrame f = Ok bs ∧ stream (dec_r d) = bs ++ stream (dec_r d').
Proof.
  intros Hb HR. destruct (ReadFrame_sound d f d' Hb HR) as (Hf & Hc & Hv & Hm & Hs).
  split_and!; auto. eexists. rewrite <- app_assoc. split; [|exact Hs].
  by apply EncodeFrame_consistent.
Qed.

(** Memory-exhaustion defence: when a peer announces a frame larger than
    the decoder's bound, [ReadFrame] refuses it having consumed the six
    header bytes and nothing of the payload. *)
Theorem ReadFrame_refuses_oversized `{StreamReader R} (d : Decoder R) h rest :
  header_ok h → Validate h = Ok () → 0 < MaxFrameSize d →
  MaxFrameSize d < Z.of_nat HeaderSize + MsgLength h →
  stream (dec_r d) = header_bytes h ++ rest →
  ∃ d', ReadFrame d =
      (Err (Errorf "stratum: frame size %d exceeds MaxFrameSize %d"
              [Z.of_nat HeaderSize + MsgLength h; MaxFrameSize d]), d') ∧
    stream (dec_r d') = rest.
Proof.
  intros Hh Hv Hm Hbig Hs. pose proof (proj1 (Validate_ok h) Hv) as [Hl _].
  destruct (ReadFrame_header d h rest) as (r & Hr & _ & ->); auto.
  rewrite Hv. cbv zeta. if_lia. eexists. split; [done|]. done.
Qed.

(** How truncation is reported.  Let the peer close after the first [k]
    bytes of a frame.  The decoder reports [io.EOF] when nothing was sent
    ([k = 0]) but also when the connection ends exactly between header and
    payload ([k = 6]); every other truncation is [io.ErrUnexpectedEOF]. *)
Theorem ReadFrame_truncated `{StreamReader R} (d : Decoder R) f bs (k : nat) :
  frame_ok f → EncodeFrame f = Ok bs → Z.of_nat (length bs) ≤ MaxFrameSize d →
  (k < length bs)%nat → stream (dec_r d) = take k bs → fault (dec_r d) = EOF →
  fst (ReadFrame d) = Err (if (k =? 0)%nat || (k =? HeaderSize)%nat
                           then EOF else ErrUnexpectedEOF).
Proof.
  intros Hf HE Hm Hk Hs HF. destruct (EncodeFrame_spec f bs Hf HE) as (-> & Hv & Hh).
  set (h := {| ExtensionType := _ |}) in *.
  rewrite length_app, length_header_bytes in *.
  assert (0 < MaxFrameSize d) by (unfold HeaderSize in *; lia).
  destruct (Nat.ltb_spec k HeaderSize) as [Hlt|Hge].
  - destruct (ReadFrame_short d) as [d' ->]; [done| |].
    + rewrite Hs, length_take. lia.
    + simpl. rewrite HF, Hs, length_take, length_app, length_header_bytes.
      rewrite bool_decide_true, andb_true_r by done. rewrite Nat.min_l by lia.
      f_equal. repeat case_if; auto; lia.
  - rewrite take_app_ge in Hs by (rewrite length_header_bytes; lia).
    pose proof (proj1 (Validate_ok h) Hv) as [Hl _].
    destruct (ReadFrame_header d h _ Hh Hl ltac:(done) Hs) as (r & Hr & Hfr & ->).
    rewrite Hv. cbv zeta. cbn [MsgLength h]. if_lia.
    destruct (ReadFull_spec (Z.to_nat (Z.of_nat (length (Payload f)))) r) as (r' & -> & _).
    rewrite Nat2Z.id, Hfr, HF, Hr.
    rewrite length_header_bytes in *. unfold read_outcome.
    rewrite length_take. if_lia. rewrite bool_decide_true, andb_true_r by done. simpl.
    f_equal. repeat case_if; auto; lia.
Qed.

(** Fragmentation independence: two transports that carry the same bytes
    and end the same way make the decoder behave the same, call after call. *)
Theorem ReadFrame_transport_independent
    `{StreamReader R1} `{StreamReader R2} (d1 : Decoder R1) (d2 : Decoder R2) :
  MaxFrameSize d1 = MaxFrameSize d2 →
  stream (dec_r d1) = stream (dec_r d2) → fault (dec_r d1) = fault (dec_r d2) →
  bytes_ok (stream (dec_r d1)) →
  fst (ReadFrame d1) = fst (ReadFrame d2) ∧
  (is_ok (fst (ReadFrame d1)) = true →
   stream (dec_r (snd (ReadFrame d1))) = stream (dec_r (snd (ReadFrame d2)))).
Proof.
  intros Hm Hs Hf Hb. destruct (Z.leb_spec (MaxFrameSize d1) 0) as [Hp|Hp].
  { unfold ReadFrame. rewrite <- Hm, (proj2 (Z.leb_le _ _)) by done. done. }
  destruct (Nat.ltb_spec (length (stream (dec_r d1))) HeaderSize) as [Hl|Hl].
  { destruct (ReadFrame_short d1) as [d1' E1]; auto.
    destruct (ReadFrame_short d2) as [d2' E2]; [lia|by rewrite <- Hs|].
    rewrite E1, E2, Hs, Hf. done. }
  destruct (stream_header _ Hb Hl) as (h & Hh & Hlt & Hhs).
  destruct (ReadFrame_header d1 h _ Hh Hlt Hp Hhs) as (r1 & Hr1 & Hf1 & ->).
  rewrite Hs in Hhs. rewrite Hm in Hp.
  destruct (ReadFrame_header d2 h _ Hh Hlt Hp Hhs) as (r2 & Hr2 & Hf2 & ->).
  rewrite Hm. destruct (Validate h); [|done]. cbv zeta. destruct (_ <? _); [done|].
  destruct (ReadFull_spec (Z.to_nat (MsgLength h)) r1) as (r1' & -> & Hok1).
  destruct (ReadFull_spec (Z.to_nat (MsgLength h)) r2) as (r2' & -> & Hok2).
  assert (stream r1 = stream r2) as Hr by congruence.
  rewrite Hf1, Hf2, Hf, Hr in *. unfold read_outcome.
  destruct (Nat.leb_spec (Z.to_nat (MsgLength h)) (length (stream r2))); [|done].
  split; [done|]. intros _. simpl.
  destruct Hok1 as [E1 _]; [done|]. destruct Hok2 as [E2 _]; [done|]. congruence.
Qed.

(** ** Witnesses *)

(** A channel message with a five-byte payload, delivered in three segments
    and followed by the first byte of the next frame. *)
Definition wit_frame : Frame :=
  {| FHeader := {| ExtensionType := 0x8000; MsgType := 0x15; MsgLength := 5 |};
     Payload := [1; 0; 0; 0; 9] |}.
Definition wit_bytes : list Z := [0; 128; 21; 5; 0; 0; 1; 0; 0; 0; 9].
Definition wit_conn (last : list Z) : Decoder segmentConn :=
  NewDecoder {| segments := [[0; 128]; [21; 5; 0; 0; 1]; []; [0; 0; 0; 9]; last] |}.

Lemma wit_frame_ok : frame_ok wit_frame.
Proof. unfold frame_ok, header_ok. split; [done|repeat constructor; done]. Qed.

Lemma ReadFrame_EncodeFrame_witness :
  ∃ d', ReadFrame (wit_conn [7]) = (Ok wit_frame, d') ∧ stream (dec_r d') = [7] ∧
        MaxFrameSize d' = DefaultMaxFrameSize.
Proof.
  apply (ReadFrame_EncodeFrame (wit_conn [7]) wit_frame wit_bytes [7]);
    [apply wit_frame_ok|reflexivity|vm_compute; discriminate|reflexivity].
Defined.

Lemma ReadFrame_accepts_only_encodings_witness :
  frame_consistent wit_frame ∧ Validate (FHeader wit_frame) = Ok () ∧
  Z.of_nat (HeaderSize + length (Payload wit_frame)) ≤ DefaultMaxFrameSize ∧
  ∃ bs, EncodeFrame wit_frame = Ok bs ∧
    stream (dec_r (wit_conn [7])) = bs ++ stream (dec_r (snd (ReadFrame (wit_conn [7])))).
Proof.
  apply (ReadFrame_accepts_only_encodings (wit_conn [7]) wit_frame);
    [repeat constructor; done|reflexivity].
Defined.

Lemma ReadFrame_refuses_oversized_witness :
  ∃ d', ReadFrame {| dec_r := dec_r (wit_conn [7]); MaxFrameSize := 10 |} =
      (Err (Errorf "stratum: frame size %d exceeds MaxFrameSize %d" [11; 10]), d') ∧
    stream (dec_r d') = [1; 0; 0; 0; 9; 7].
Proof.
  apply (ReadFrame_refuses_oversized
           {| dec_r := dec_r (wit_conn [7]); MaxFrameSize := 10 |} (FHeader wit_frame));
    [split_and!; done|reflexivity|done|done|reflexivity].
Defined.

Lemma ReadFrame_truncated_witness :
  fst (ReadFrame (NewDecoder {| segments := [take 6 wit_bytes] |})) = Err EOF.
Proof.
  apply (ReadFrame_truncated (NewDecoder {| segments := [take 6 wit_bytes] |})
           wit_frame wit_bytes 6);
    [apply wit_frame_ok|reflexivity|vm_compute; discriminate|simpl; lia|reflexivity|reflexivity].
Defined.

Lemma ReadFrame_transport_independent_witness :
  fst (ReadFrame (wit_conn [7])) = fst (ReadFrame (NewDecoder (newByteReader (wit_bytes ++ [7])))).
Proof.
  apply (ReadFrame_transport_independent (wit_conn [7])
           (NewDecoder (newByteReader (wit_bytes ++ [7]))));
    [reflexivity|reflexivity|reflexivity|repeat constructor; done].
Defined.
