(* ===== verification/Messages.v ===== *)
(** * internal/stratum/handshake.go and internal/stratum/messages.go

    The Stratum V2 Mining Protocol messages: one record per message with its
    [Encode] and [Decode], [WrapMessage], and [DispatchFrame], which decodes
    a frame into the [Message] record of pointers.

    [MiningMessage] is the abstract sum the [Message] record stands for; the
    round-trip theorems are stated over it, so they cover every message. *)
From S2P Require Import Prelude.
From S2P Require Import Wire.
From S2P Require Import Frame.

Open Scope Z_scope.

(** [msg_type] constants. *)
Definition MsgSetupConnection : Z := 0x00.
Definition MsgSetupConnectionSuccess : Z := 0x01.
Definition MsgSetupConnectionError : Z := 0x02.
Definition MsgOpenMiningChannel : Z := 0x10.
Definition MsgOpenMiningChannelSuccess : Z := 0x11.
Definition MsgOpenMiningChannelError : Z := 0x12.
Definition MsgNewMiningJob : Z := 0x15.
Definition MsgCloseChannel : Z := 0x18.
Definition MsgSubmitSharesStandard : Z := 0x1a.
Definition MsgSubmitSharesSuccess : Z := 0x1c.
Definition MsgSubmitSharesError : Z := 0x1d.
Definition MsgSetNewPrevHash : Z := 0x20.
Definition MsgSetTarget : Z := 0x21.

Definition MiningProtocol : Z := 0.

(** ** Connection establishment (handshake.go) *)

Record SetupConnection := {
  sc_Protocol : Z;
  sc_MinVersion : Z;
  sc_MaxVersion : Z;
  sc_Flags : Z;
  sc_Endpoint : string;
  sc_Vendor : string;
  sc_HardwareVersion : string;
  sc_Firmware : string;
  sc_DeviceID : string;
}.

(** The loop of [SetupConnection.Encode] over its string fields. *)
Fixpoint append_strings (b : list Z) (ss : list string) : result (list Z) :=
  match ss with
  | [] => Ok b
  | s :: ss => b ← appendStr0_255 b s; append_strings b ss
  end.

Definition SetupConnection_Encode (m : SetupConnection) : result (list Z) :=
  let b := [] ++ [wrap 8 (sc_Protocol m)] in
  let b := appendU16LE b (sc_MinVersion m) in
  let b := appendU16LE b (sc_MaxVersion m) in
  let b := appendU32LE b (sc_Flags m) in
  append_strings b [sc_Endpoint m; sc_Vendor m; sc_HardwareVersion m; sc_Firmware m; sc_DeviceID m].

Definition DecodeSetupConnection (payload : list Z) : result SetupConnection :=
  decode_with (
    proto ← rd_wrap "stratum: SetupConnection.Protocol: %w" ReadByte;
    minv ← rd_wrap "stratum: SetupConnection.MinVersion: %w" getU16LE;
    maxv ← rd_wrap "stratum: SetupConnection.MaxVersion: %w" getU16LE;
    flags ← rd_wrap "stratum: SetupConnection.Flags: %w" getU32LE;
    s1 ← rd_wrap "stratum: SetupConnection.Endpoint: %w" getStr0_255;
    s2 ← rd_wrap "stratum: SetupConnection.Vendor: %w" getStr0_255;
    s3 ← rd_wrap "stratum: SetupConnection.HardwareVersion: %w" getStr0_255;
    s4 ← rd_wrap "stratum: SetupConnection.Firmware: %w" getStr0_255;
    s5 ← rd_wrap "stratum: SetupConnection.DeviceID: %w" getStr0_255;
    mret {| sc_Protocol := proto; sc_MinVersion := minv; sc_MaxVersion := maxv;
            sc_Flags := flags; sc_Endpoint := s1; sc_Vendor := s2;
            sc_HardwareVersion := s3; sc_Firmware := s4; sc_DeviceID := s5 |}) payload.

Record SetupConnectionSuccess := { scs_UsedVersion : Z; scs_Flags : Z }.

Definition SetupConnectionSuccess_Encode (m : SetupConnectionSuccess) : result (list Z) :=
  Ok (le_bytes 2 (scs_UsedVersion m) ++ le_bytes 4 (scs_Flags m)).

Definition short_payload {A} (name : string) (payload : list Z) (need : nat)
    : result A :=
  Err (Errorf (name +:+ ": short payload (%d < %d)") [Z.of_nat (length payload); Z.of_nat need]).

Definition DecodeSetupConnectionSuccess (payload : list Z) : result SetupConnectionSuccess :=
  if (length payload <? 6)%nat then short_payload "stratum: SetupConnectionSuccess" payload 6
  else Ok {| scs_UsedVersion := le_Z (slice 0 2 payload); scs_Flags := le_Z (slice 2 6 payload) |}.

Record SetupConnectionError := { sce_Flags : Z; sce_Error : string }.

Definition SetupConnectionError_Encode (m : SetupConnectionError) : result (list Z) :=
  appendStr0_255 (appendU32LE [] (sce_Flags m)) (sce_Error m).

Definition DecodeSetupConnectionError (payload : list Z) : result SetupConnectionError :=
  decode_with (
    flags ← rd_wrap "stratum: SetupConnectionError.Flags: %w" getU32LE;
    err ← rd_wrap "stratum: SetupConnectionError.Error: %w" getStr0_255;
    mret {| sce_Flags := flags; sce_Error := err |}) payload.

Record OpenMiningChannel := {
  omc_ReqID : Z;
  omc_User : string;
  omc_NominalHashrate : float32;
  omc_MaxTarget : list Z;  (* [32]byte *)
}.

Definition MaxTargetUnconstrained : list Z := replicate 32 0xFF.

Definition OpenMiningChannel_Encode (m : OpenMiningChannel) : result (list Z) :=
  let b := appendU32LE [] (omc_ReqID m) in
  b ← appendStr0_255 b (omc_User m);
  let b := appendU32LE b (float32bits (omc_NominalHashrate m)) in
  Ok (b ++ omc_MaxTarget m).

Definition DecodeOpenMiningChannel (payload : list Z) : result OpenMiningChannel :=
  decode_with (
    req ← rd_wrap "stratum: OpenMiningChannel.ReqID: %w" getU32LE;
    user ← rd_wrap "stratum: OpenMiningChannel.User: %w" getStr0_255;
    f ← rd_wrap "stratum: OpenMiningChannel.NominalHashrate: %w" (ReadFull 4);
    t ← rd_wrap "stratum: OpenMiningChannel.MaxTarget: %w" (ReadFull 32);
    mret {| omc_ReqID := req; omc_User := user;
            omc_NominalHashrate := float32frombits (le_Z f); omc_MaxTarget := t |}) payload.

Record OpenMiningChannelSuccess := {
  omcs_ReqID : Z;
  omcs_ChannelID : Z;
  omcs_Target : list Z;  (* [32]byte *)
  omcs_Extranonce : list Z;
  omcs_GroupChannelID : Z;
}.

Definition OpenMiningChannelSuccess_Encode (m : OpenMiningChannelSuccess) : result (list Z) :=
  let b := appendU32LE [] (omcs_ReqID m) in
  let b := appendU32LE b (omcs_ChannelID m) in
  let b := b ++ omcs_Target m in
  b ← appendB0_32 b (omcs_Extranonce m);
  Ok (appendU32LE b (omcs_GroupChannelID m)).

Definition DecodeOpenMiningChannelSuccess (payload : list Z) : result OpenMiningChannelSuccess :=
  decode_with (
    req ← getU32LE;
    chan ← getU32LE;
    target ← rd_wrap "stratum: OpenMiningChannelSuccess.Target: %w" (ReadFull 32);
    en ← getB0_255;
    grp ← rd_wrap "stratum: OpenMiningChannelSuccess.GroupChannelID: %w" getU32LE;
    mret {| omcs_ReqID := req; omcs_ChannelID := chan; omcs_Target := target;
            omcs_Extranonce := en; omcs_GroupChannelID := grp |}) payload.

Record OpenMiningChannelError := { omce_ReqID : Z; omce_Error : string }.

Definition OpenMiningChannelError_Encode (m : OpenMiningChannelError) : result (list Z) :=
  appendStr0_255 (appendU32LE [] (omce_ReqID m)) (omce_Error m).

Definition DecodeOpenMiningChannelError (payload : list Z) : result OpenMiningChannelError :=
  if (length payload <? 4)%nat then short_payload "stratum: OpenMiningChannelError" payload 4
  else
    let req := le_Z (slice 0 4 payload) in
    if (4 <? length payload)%nat then
      err ← wrapping "stratum: OpenMiningChannelError.Error: %w"
              (decode_with getStr0_255 (drop 4 payload));
      Ok {| omce_ReqID := req; omce_Error := err |}
    else Ok {| omce_ReqID := req; omce_Error := "" |}.

(** ** Mining (messages.go) *)

Record NewMiningJob := {
  nmj_ChannelID : Z;
  nmj_JobID : Z;
  nmj_HasNtimeStart : bool;
  nmj_NtimeStart : Z;
  nmj_Version : Z;
  nmj_MerkleRoot : list Z;  (* [32]byte *)
}.

Definition NewMiningJob_Encode (m : NewMiningJob) : result (list Z) :=
  let buf := le_bytes 4 (nmj_ChannelID m) ++ le_bytes 4 (nmj_JobID m) in
  let buf := if nmj_HasNtimeStart m then buf ++ [1] ++ le_bytes 4 (nmj_NtimeStart m)
             else buf ++ [0] in
  Ok (buf ++ le_bytes 4 (nmj_Version m) ++ nmj_MerkleRoot m).

Definition DecodeNewMiningJob (payload : list Z) : result NewMiningJob :=
  let minNeed := (4 + 4 + 1 + 4 + 32)%nat in
  if (length payload <? minNeed)%nat then short_payload "stratum: NewMiningJob" payload minNeed
  else
    let finish has ntime off :=
      Ok {| nmj_ChannelID := le_Z (slice 0 4 payload);
            nmj_JobID := le_Z (slice 4 8 payload);
            nmj_HasNtimeStart := has;
            nmj_NtimeStart := ntime;
            nmj_Version := le_Z (slice off (off + 4) payload);
            nmj_MerkleRoot := slice (off + 4) (off + 4 + 32) payload |} in
    match nth 8 payload 0 with
    | 0 => finish false 0 9%nat
    | 1 =>
        if (length payload <? 9 + 4 + 4 + 32)%nat
        then Err (Errorf "stratum: NewMiningJob: short payload for present ntime_start (%d)"
                    [Z.of_nat (length payload)])
        else finish true (le_Z (slice 9 13 payload)) 13%nat
    | c => Err (Errorf "stratum: NewMiningJob: invalid OPTION count %d for ntime_start" [c])
    end.

Record SetNewPrevHash := {
  snp_ChannelID : Z;
  snp_JobID : Z;
  snp_PrevHash : list Z;  (* [32]byte *)
  snp_NtimeStart : Z;
  snp_NBits : Z;
}.

Definition SetNewPrevHash_Encode (m : SetNewPrevHash) : result (list Z) :=
  Ok (le_bytes 4 (snp_ChannelID m) ++ le_bytes 4 (snp_JobID m) ++ snp_PrevHash m ++
      le_bytes 4 (snp_NtimeStart m) ++ le_bytes 4 (snp_NBits m)).

Definition DecodeSetNewPrevHash (payload : list Z) : result SetNewPrevHash :=
  let need := (4 + 4 + 32 + 4 + 4)%nat in
  if (length payload <? need)%nat then short_payload "stratum: SetNewPrevHash" payload need
  else Ok {| snp_ChannelID := le_Z (slice 0 4 payload);
             snp_JobID := le_Z (slice 4 8 payload);
             snp_PrevHash := slice 8 40 payload;
             snp_NtimeStart := le_Z (slice 40 44 payload);
             snp_NBits := le_Z (slice 44 48 payload) |}.

Record SetTarget := { st_ChannelID : Z; st_Target : list Z (* [32]byte *) }.

Definition SetTarget_Encode (m : SetTarget) : result (list Z) :=
  Ok (le_bytes 4 (st_ChannelID m) ++ st_Target m).

Definition DecodeSetTarget (payload : list Z) : result SetTarget :=
  let need := (4 + 32)%nat in
  if (length payload <? need)%nat then short_payload "stratum: SetTarget" payload need
  else Ok {| st_ChannelID := le_Z (slice 0 4 payload); st_Target := slice 4 36 payload |}.

Record SubmitSharesStandard := {
  sss_ChannelID : Z;
  sss_SequenceNumber : Z;
  sss_JobID : Z;
  sss_Nonce : Z;
  sss_NTime : Z;
  sss_NVersion : Z;
}.

Definition SubmitSharesStandard_Encode (m : SubmitSharesStandard) : result (list Z) :=
  Ok (le_bytes 4 (sss_ChannelID m) ++ le_bytes 4 (sss_SequenceNumber m) ++
      le_bytes 4 (sss_JobID m) ++ le_bytes 4 (sss_Nonce m) ++
      le_bytes 4 (sss_NTime m) ++ le_bytes 4 (sss_NVersion m)).

Definition DecodeSubmitSharesStandard (payload : list Z) : result SubmitSharesStandard :=
  if (length payload <? 24)%nat then short_payload "stratum: SubmitSharesStandard" payload 24
  else Ok {| sss_ChannelID := le_Z (slice 0 4 payload);
             sss_SequenceNumber := le_Z (slice 4 8 payload);
             sss_JobID := le_Z (slice 8 12 payload);
             sss_Nonce := le_Z (slice 12 16 payload);
             sss_NTime := le_Z (slice 16 20 payload);
             sss_NVersion := le_Z (slice 20 24 payload) |}.

Record SubmitSharesSuccess := {
  sssu_ChannelID : Z;
  sssu_LastSequenceNumber : Z;
  sssu_NewSubmitsAccepted : Z;
  sssu_NewSharesSummed : Z;  (* uint64 *)
}.

Definition SubmitSharesSuccess_Encode (m : SubmitSharesSuccess) : result (list Z) :=
  Ok (le_bytes 4 (sssu_ChannelID m) ++ le_bytes 4 (sssu_LastSequenceNumber m) ++
      le_bytes 4 (sssu_NewSubmitsAccepted m) ++ le_bytes 8 (sssu_NewSharesSummed m)).

Definition DecodeSubmitSharesSuccess (payload : list Z) : result SubmitSharesSuccess :=
  if (length payload <? 20)%nat then short_payload "stratum: SubmitSharesSuccess" payload 20
  else Ok {| sssu_ChannelID := le_Z (slice 0 4 payload);
             sssu_LastSequenceNumber := le_Z (slice 4 8 payload);
             sssu_NewSubmitsAccepted := le_Z (slice 8 12 payload);
             sssu_NewSharesSummed := le_Z (slice 12 20 payload) |}.

Record SubmitSharesError := {
  sse_ChannelID : Z;
  sse_SequenceNumber : Z;
  sse_Error : string;
}.

Definition SubmitSharesError_Encode (m : SubmitSharesError) : result (list Z) :=
  let b := appendU32LE [] (sse_ChannelID m) in
  let b := appendU32LE b (sse_SequenceNumber m) in
  appendStr0_255 b (sse_Error m).

Definition DecodeSubmitSharesError (payload : list Z) : result SubmitSharesError :=
  if (length payload <? 8)%nat then short_payload "stratum: SubmitSharesError" payload 8
  else
    let chan := le_Z (slice 0 4 payload) in
    let seq := le_Z (slice 4 8 payload) in
    if (8 <? length payload)%nat then
      err ← decode_with getStr0_255 (drop 8 payload);
      Ok {| sse_ChannelID := chan; sse_SequenceNumber := seq; sse_Error := err |}
    else Ok {| sse_ChannelID := chan; sse_SequenceNumber := seq; sse_Error := "" |}.

Record CloseChannel := { cc_ChannelID : Z; cc_Reason : string }.

Definition CloseChannel_Encode (m : CloseChannel) : result (list Z) :=
  appendStr0_255 (appendU32LE [] (cc_ChannelID m)) (cc_Reason m).

Definition DecodeCloseChannel (payload : list Z) : result CloseChannel :=
  decode_with (
    chan ← rd_wrap "stratum: CloseChannel.ChannelID: %w" getU32LE;
    reason ← rd_wrap "stratum: CloseChannel.Reason: %w" getStr0_255;
    mret {| cc_ChannelID := chan; cc_Reason := reason |}) payload.

(** ** Frames *)

Definition WrapMessage (msgType : Z) (isChannelMsg : bool) (payload : list Z) : result Frame :=
  let ext := if isChannelMsg then channelMsgBit else 0 in
  let h := {| ExtensionType := ext; MsgType := msgType;
              MsgLength := wrap 32 (Z.of_nat (length payload)) |} in
  _ ← Validate h;
  Ok {| FHeader := h; Payload := payload |}.

Record UnknownMessage := { um_MsgType : Z; um_Payload : list Z }.

Record Message := {
  m_SetupConnection : option SetupConnection;
  m_SetupConnectionSuccess : option SetupConnectionSuccess;
  m_SetupConnectionError : option SetupConnectionError;
  m_OpenMiningChannel : option OpenMiningChannel;
  m_OpenMiningChannelSuccess : option OpenMiningChannelSuccess;
  m_OpenMiningChannelError : option OpenMiningChannelError;
  m_NewMiningJob : option NewMiningJob;
  m_SetNewPrevHash : option SetNewPrevHash;
  m_SetTarget : option SetTarget;
  m_CloseChannel : option CloseChannel;
  m_SubmitSharesStandard : option SubmitSharesStandard;
  m_SubmitSharesSuccess : option SubmitSharesSuccess;
  m_SubmitSharesError : option SubmitSharesError;
  m_Unknown : option UnknownMessage;
}.

Definition Message_zero : Message :=
  Build_Message None None None None None None None None None None None None None None.

Definition set_SetupConnection v (m : Message) : Message :=
  let 'Build_Message _ b c d e f g h i j k l n o := m in Build_Message (Some v) b c d e f g h i j k l n o.
Definition set_SetupConnectionSuccess v (m : Message) : Message :=
  let 'Build_Message a _ c d e f g h i j k l n o := m in Build_Message a (Some v) c d e f g h i j k l n o.
Definition set_SetupConnectionError v (m : Message) : Message :=
  let 'Build_Message a b _ d e f g h i j k l n o := m in Build_Message a b (Some v) d e f g h i j k l n o.
Definition set_OpenMiningChannel v (m : Message) : Message :=
  let 'Build_Message a b c _ e f g h i j k l n o := m in Build_Message a b c (Some v) e f g h i j k l n o.
Definition set_OpenMiningChannelSuccess v (m : Message) : Message :=
  let 'Build_Message a b c d _ f g h i j k l n o := m in Build_Message a b c d (Some v) f g h i j k l n o.
Definition set_OpenMiningChannelError v (m : Message) : Message :=
  let 'Build_Message a b c d e _ g h i j k l n o := m in Build_Message a b c d e (Some v) g h i j k l n o.
Definition set_NewMiningJob v (m : Message) : Message :=
  let 'Build_Message a b c d e f _ h i j k l n o := m in Build_Message a b c d e f (Some v) h i j k l n o.
Definition set_SetNewPrevHash v (m : Message) : Message :=
  let 'Build_Message a b c d e f g _ i j k l n o := m in Build_Message a b c d e f g (Some v) i j k l n o.
Definition set_SetTarget v (m : Message) : Message :=
  let 'Build_Message a b c d e f g h _ j k l n o := m in Build_Message a b c d e f g h (Some v) j k l n o.
Definition set_CloseChannel v (m : Message) : Message :=
  let 'Build_Message a b c d e f g h i _ k l n o := m in Build_Message a b c d e f g h i (Some v) k l n o.
Definition set_SubmitSharesStandard v (m : Message) : Message :=
  let 'Build_Message a b c d e f g h i j _ l n o := m in Build_Message a b c d e f g h i j (Some v) l n o.
Definition set_SubmitSharesSuccess v (m : Message) : Message :=
  let 'Build_Message a b c d e f g h i j k _ n o := m in Build_Message a b c d e f g h i j k (Some v) n o.
Definition set_SubmitSharesError v (m : Message) : Message :=
  let 'Build_Message a b c d e f g h i j k l _ o := m in Build_Message a b c d e f g h i j k l (Some v) o.
Definition set_Unknown v (m : Message) : Message :=
  let 'Build_Message a b c d e f g h i j k l n _ := m in Build_Message a b c d e f g h i j k l n (Some v).

(** One entry of [frameDecoders]: decode, then store the pointer. *)
Definition decoder {A} (dec : list Z → result A) (store : A → Message → Message)
    : list Z → Message → result Message :=
  λ p m, v ← dec p; Ok (store v m).

Definition frameDecoders (t : Z) : option (list Z → Message → result Message) :=
  if t =? MsgSetupConnection then Some (decoder DecodeSetupConnection set_SetupConnection)
  else if t =? MsgSetupConnectionSuccess
  then Some (decoder DecodeSetupConnectionSuccess set_SetupConnectionSuccess)
  else if t =? MsgSetupConnectionError
  then Some (decoder DecodeSetupConnectionError set_SetupConnectionError)
  else if t =? MsgOpenMiningChannel
  then Some (decoder DecodeOpenMiningChannel set_OpenMiningChannel)
  else if t =? MsgOpenMiningChannelSuccess
  then Some (decoder DecodeOpenMiningChannelSuccess set_OpenMiningChannelSuccess)
  else if t =? MsgOpenMiningChannelError
  then Some (decoder DecodeOpenMiningChannelError set_OpenMiningChannelError)
  else if t =? MsgNewMiningJob then Some (decoder DecodeNewMiningJob set_NewMiningJob)
  else if t =? MsgSetNewPrevHash then Some (decoder DecodeSetNewPrevHash set_SetNewPrevHash)
  else if t =? MsgSetTarget then Some (decoder DecodeSetTarget set_SetTarget)
  else if t =? MsgSubmitSharesStandard
  then Some (decoder DecodeSubmitSharesStandard set_SubmitSharesStandard)
  else if t =? MsgSubmitSharesSuccess
  then Some (decoder DecodeSubmitSharesSuccess set_SubmitSharesSuccess)
  else if t =? MsgSubmitSharesError
  then Some (decoder DecodeSubmitSharesError set_SubmitSharesError)
  else if t =? MsgCloseChannel then Some (decoder DecodeCloseChannel set_CloseChannel)
  else None.

Definition DispatchFrame (f : Frame) : result Message :=
  match frameDecoders (MsgType (FHeader f)) with
  | None =>
      Ok (set_Unknown {| um_MsgType := MsgType (FHeader f); um_Payload := Payload f |} Message_zero)
  | Some d => d (Payload f) Message_zero
  end.

Definition ValidateSetupConnection (m : SetupConnection) : result unit :=
  if negb (sc_Protocol m =? MiningProtocol)
  then Err (Errorf "stratum: unsupported protocol %d (only MiningProtocol=0 supported)" [sc_Protocol m])
  else if sc_MaxVersion m <? sc_MinVersion m
  then Err (Errorf "stratum: MinVersion %d > MaxVersion %d" [sc_MinVersion m; sc_MaxVersion m])
  else Ok ().

(** ** The abstract sum of messages *)

Inductive MiningMessage :=
  | ASetupConnection (m : SetupConnection)
  | ASetupConnectionSuccess (m : SetupConnectionSuccess)
  | ASetupConnectionError (m : SetupConnectionError)
  | AOpenMiningChannel (m : OpenMiningChannel)
  | AOpenMiningChannelSuccess (m : OpenMiningChannelSuccess)
  | AOpenMiningChannelError (m : OpenMiningChannelError)
  | ANewMiningJob (m : NewMiningJob)
  | ASetNewPrevHash (m : SetNewPrevHash)
  | ASetTarget (m : SetTarget)
  | ACloseChannel (m : CloseChannel)
  | ASubmitSharesStandard (m : SubmitSharesStandard)
  | ASubmitSharesSuccess (m : SubmitSharesSuccess)
  | ASubmitSharesError (m : SubmitSharesError).

Definition msg_type (m : MiningMessage) : Z :=
  match m with
  | ASetupConnection _ => MsgSetupConnection
  | ASetupConnectionSuccess _ => MsgSetupConnectionSuccess
  | ASetupConnectionError _ => MsgSetupConnectionError
  | AOpenMiningChannel _ => MsgOpenMiningChannel
  | AOpenMiningChannelSuccess _ => MsgOpenMiningChannelSuccess
  | AOpenMiningChannelError _ => MsgOpenMiningChannelError
  | ANewMiningJob _ => MsgNewMiningJob
  | ASetNewPrevHash _ => MsgSetNewPrevHash
  | ASetTarget _ => MsgSetTarget
  | ACloseChannel _ => MsgCloseChannel
  | ASubmitSharesStandard _ => MsgSubmitSharesStandard
  | ASubmitSharesSuccess _ => MsgSubmitSharesSuccess
  | ASubmitSharesError _ => MsgSubmitSharesError
  end.

Definition msg_encode (m : MiningMessage) : result (list Z) :=
  match m with
  | ASetupConnection m => SetupConnection_Encode m
  | ASetupConnectionSuccess m => SetupConnectionSuccess_Encode m
  | ASetupConnectionError m => SetupConnectionError_Encode m
  | AOpenMiningChannel m => OpenMiningChannel_Encode m
  | AOpenMiningChannelSuccess m => OpenMiningChannelSuccess_Encode m
  | AOpenMiningChannelError m => OpenMiningChannelError_Encode m
  | ANewMiningJob m => NewMiningJob_Encode m
  | ASetNewPrevHash m => SetNewPrevHash_Encode m
  | ASetTarget m => SetTarget_Encode m
  | ACloseChannel m => CloseChannel_Encode m
  | ASubmitSharesStandard m => SubmitSharesStandard_Encode m
  | ASubmitSharesSuccess m => SubmitSharesSuccess_Encode m
  | ASubmitSharesError m => SubmitSharesError_Encode m
  end.

(** The [Message] with exactly the one pointer set. *)
Definition msg_inject (m : MiningMessage) : Message :=
  match m with
  | ASetupConnection m => set_SetupConnection m Message_zero
  | ASetupConnectionSuccess m => set_SetupConnectionSuccess m Message_zero
  | ASetupConnectionError m => set_SetupConnectionError m Message_zero
  | AOpenMiningChannel m => set_OpenMiningChannel m Message_zero
  | AOpenMiningChannelSuccess m => set_OpenMiningChannelSuccess m Message_zero
  | AOpenMiningChannelError m => set_OpenMiningChannelError m Message_zero
  | ANewMiningJob m => set_NewMiningJob m Message_zero
  | ASetNewPrevHash m => set_SetNewPrevHash m Message_zero
  | ASetTarget m => set_SetTarget m Message_zero
  | ACloseChannel m => set_CloseChannel m Message_zero
  | ASubmitSharesStandard m => set_SubmitSharesStandard m Message_zero
  | ASubmitSharesSuccess m => set_SubmitSharesSuccess m Message_zero
  | ASubmitSharesError m => set_SubmitSharesError m Message_zero
  end.


(** The Go types of the fields; an absent [ntime_start] is the zero value. *)
Definition msg_ok (m : MiningMessage) : Prop :=
  match m with
  | ASetupConnection m =>
      sc_Protocol m ∈u 8 ∧ sc_MinVersion m ∈u 16 ∧ sc_MaxVersion m ∈u 16 ∧ is_u32 (sc_Flags m)
  | ASetupConnectionSuccess m => scs_UsedVersion m ∈u 16 ∧ is_u32 (scs_Flags m)
  | ASetupConnectionError m => is_u32 (sce_Flags m)
  | AOpenMiningChannel m =>
      is_u32 (omc_ReqID m) ∧ is_u32 (f32_bits (omc_NominalHashrate m)) ∧ is_hash (omc_MaxTarget m)
  | AOpenMiningChannelSuccess m =>
      is_u32 (omcs_ReqID m) ∧ is_u32 (omcs_ChannelID m) ∧ is_hash (omcs_Target m) ∧
      bytes_ok (omcs_Extranonce m) ∧ is_u32 (omcs_GroupChannelID m)
  | AOpenMiningChannelError m => is_u32 (omce_ReqID m)
  | ANewMiningJob m =>
      is_u32 (nmj_ChannelID m) ∧ is_u32 (nmj_JobID m) ∧ is_u32 (nmj_NtimeStart m) ∧
      is_u32 (nmj_Version m) ∧ is_hash (nmj_MerkleRoot m) ∧
      (nmj_HasNtimeStart m = false → nmj_NtimeStart m = 0)
  | ASetNewPrevHash m =>
      is_u32 (snp_ChannelID m) ∧ is_u32 (snp_JobID m) ∧ is_hash (snp_PrevHash m) ∧
      is_u32 (snp_NtimeStart m) ∧ is_u32 (snp_NBits m)
  | ASetTarget m => is_u32 (st_ChannelID m) ∧ is_hash (st_Target m)
  | ACloseChannel m => is_u32 (cc_ChannelID m)
  | ASubmitSharesStandard m =>
      is_u32 (sss_ChannelID m) ∧ is_u32 (sss_SequenceNumber m) ∧ is_u32 (sss_JobID m) ∧
      is_u32 (sss_Nonce m) ∧ is_u32 (sss_NTime m) ∧ is_u32 (sss_NVersion m)
  | ASubmitSharesSuccess m =>
      is_u32 (sssu_ChannelID m) ∧ is_u32 (sssu_LastSequenceNumber m) ∧
      is_u32 (sssu_NewSubmitsAccepted m) ∧ sssu_NewSharesSummed m ∈u 64
  | ASubmitSharesError m => is_u32 (sse_ChannelID m) ∧ is_u32 (sse_SequenceNumber m)
  end.

(** ** Lemmas *)

Lemma le_Z_u16 v : v ∈u 16 → le_Z (le_bytes 2 v) = v.
Proof. intros. by apply le_Z_le_bytes. Qed.
Lemma le_Z_u32 v : is_u32 v → le_Z (le_bytes 4 v) = v.
Proof. intros. by apply le_Z_le_bytes. Qed.
Lemma le_Z_u64 v : v ∈u 64 → le_Z (le_bytes 8 v) = v.
Proof. intros. by apply le_Z_le_bytes. Qed.

Lemma appendStr0_255_inv b s b' :
  appendStr0_255 b s = Ok b' →
  (String.length s ≤ 255)%nat ∧
  b' = b ++ (wrap 8 (Z.of_nat (String.length s)) :: bytes_of_string s).
Proof.
  unfold appendStr0_255. rewrite length_bytes_of_string. case_if; [done|].
  intros [= <-]. split; [lia|]. by rewrite <- app_assoc.
Qed.

Lemma appendB0_32_inv b v b' :
  appendB0_32 b v = Ok b' →
  (length v ≤ 32)%nat ∧ b' = b ++ (wrap 8 (Z.of_nat (length v)) :: v).
Proof.
  unfold appendB0_32. case_if; [done|]. intros [= <-]. split; [lia|]. by rewrite <- app_assoc.
Qed.

Lemma append_strings_inv b ss b' :
  append_strings b ss = Ok b' →
  Forall (λ s, (String.length s ≤ 255)%nat) ss ∧
  b' = b ++ concat (map (λ s, wrap 8 (Z.of_nat (String.length s)) :: bytes_of_string s) ss).
Proof.
  revert b. induction ss as [|s ss IH]; intros b; cbn [append_strings].
  - intros [= <-]. split; [constructor|]. by rewrite app_nil_r.
  - destruct (appendStr0_255 b s) as [b1|e] eqn:E; [|done].
    cbn [mbind result_bind]. intros H. apply appendStr0_255_inv in E as [Hs ->].
    apply IH in H as [Hss ->]. split; [by constructor|]. cbn [map concat].
    by rewrite <- app_assoc.
Qed.

Lemma Reads_ReadFull_n `{StreamReader R} bs n : length bs = n → Reads (ReadFull n) bs bs.
Proof. intros <-. apply Reads_ReadFull. Qed.

Lemma Reads_last {A B} (c : rdm byteSliceReader A) (k : A → rdm byteSliceReader B) bs a b :
  Reads c bs a → k a = mret b → Reads (c ≫= k) bs b.
Proof.
  intros Hc Hk. rewrite <- (app_nil_r bs). eapply Reads_bind; [done|]. rewrite Hk. apply Reads_ret.
Qed.

Ltac msimpl :=
  cbn [sc_Protocol sc_MinVersion sc_MaxVersion sc_Flags sc_Endpoint sc_Vendor
    sc_HardwareVersion sc_Firmware sc_DeviceID scs_UsedVersion scs_Flags sce_Flags sce_Error
    omc_ReqID omc_User omc_NominalHashrate omc_MaxTarget omcs_ReqID omcs_ChannelID
    omcs_Target omcs_Extranonce omcs_GroupChannelID omce_ReqID omce_Error
    nmj_ChannelID nmj_JobID nmj_HasNtimeStart nmj_NtimeStart nmj_Version nmj_MerkleRoot
    snp_ChannelID snp_JobID snp_PrevHash snp_NtimeStart snp_NBits st_ChannelID st_Target
    sss_ChannelID sss_SequenceNumber sss_JobID sss_Nonce sss_NTime sss_NVersion
    sssu_ChannelID sssu_LastSequenceNumber sssu_NewSubmitsAccepted sssu_NewSharesSummed
    sse_ChannelID sse_SequenceNumber sse_Error cc_ChannelID cc_Reason f32_bits] in *.

(** Follow a decoder's reads through the concatenated fields. *)
Ltac reads :=
  repeat (eapply Reads_bind; [try apply Reads_wrap; eauto using Reads_ReadFull_n with otd; fail|]);
  eapply Reads_last; [try apply Reads_wrap; eauto using Reads_ReadFull_n with otd|try reflexivity].

(** [Decodes dec p a k]: [dec] returns [a] on [p] and whatever follows it, and
    refuses every strict prefix of [p], except possibly the one of [k] bytes. *)
Definition Decodes {A} (dec : list Z → result A) (p : list Z) (a : A) (k : option nat) : Prop :=
  (∀ rest, dec (p ++ rest) = Ok a) ∧
  (∀ q rest, q ++ rest = p → rest ≠ [] → k ≠ Some (length q) → ∃ e, dec q = Err e).

Lemma Decodes_reads {A} (c : rdm byteSliceReader A) p a :
  Reads c p a → Decodes (decode_with c) p a None.
Proof.
  intros Hc. split.
  - intros rest. by apply decode_with_Reads.
  - intros q rest Hq Hr _. by eapply decode_with_truncated.
Qed.

(** Fixed-size messages: the length check comes first. *)
Lemma Decodes_fixed {A} (dec body : list Z → result A) p a n :
  length p = n →
  (∀ q, (length q < n)%nat → ∃ e, dec q = Err e) →
  (∀ rest, dec (p ++ rest) = Ok a) → Decodes dec p a None.
Proof.
  intros Hn Hs Hb. split; [done|]. intros q rest Hq Hr _. apply Hs.
  apply (f_equal length) in Hq. rewrite length_app in Hq. destruct rest; [done|simpl in Hq; lia].
Qed.

Ltac fixed_decoder n :=
  eapply (Decodes_fixed _ (λ _, Err Diverges) _ _ n);
  [ rewrite ?length_app; repeat first [reflexivity | match goal with H : length _ = _ |- _ => rewrite H end]
  | let q := fresh in let Hq := fresh in
    intros q Hq; match goal with |- ∃ e, ?f q = _ => unfold f end; if_lia; eexists; reflexivity
  | let rest := fresh in
    intros rest; match goal with |- ?f _ = _ => unfold f end;
    rewrite <- ?app_assoc;
    match goal with |- context [(?a <? ?b)%nat] =>
      rewrite (proj2 (Nat.ltb_ge a b)) by
        (rewrite !length_app; repeat match goal with H : length _ = _ |- _ => rewrite H end; cbn [length le_bytes]; lia) end;
    slices; repeat first [rewrite le_Z_u16 by done | rewrite le_Z_u32 by done | rewrite le_Z_u64 by done] ].

Lemma SetupConnection_decodes m p :
  msg_ok (ASetupConnection m) → SetupConnection_Encode m = Ok p →
  Decodes DecodeSetupConnection p m None.
Proof.
  intros (Hp & Hmin & Hmax & Hf) HE. apply append_strings_inv in HE as [Hs ->].
  rewrite !Forall_cons in Hs. destruct Hs as (H1 & H2 & H3 & H4 & H5 & _).
  apply Decodes_reads. unfold appendU16LE, appendU32LE. cbn [map concat].
  rewrite wrap_small by done. rewrite <- !app_assoc, app_nil_r, app_nil_l.
  destruct m; msimpl. reads.
Qed.

Lemma SetupConnectionSuccess_decodes m p :
  msg_ok (ASetupConnectionSuccess m) → SetupConnectionSuccess_Encode m = Ok p →
  Decodes DecodeSetupConnectionSuccess p m None.
Proof.
  intros (Hv & Hf) <-%Ok_inj. destruct m as [v f]; msimpl.
  fixed_decoder 6%nat. done.
Qed.

Lemma SetupConnectionError_decodes m p :
  msg_ok (ASetupConnectionError m) → SetupConnectionError_Encode m = Ok p →
  Decodes DecodeSetupConnectionError p m None.
Proof.
  intros Hf HE. apply appendStr0_255_inv in HE as [Hs ->]. apply Decodes_reads.
  destruct m; msimpl. unfold appendU32LE. rewrite app_nil_l. reads.
Qed.

Lemma CloseChannel_decodes m p :
  msg_ok (ACloseChannel m) → CloseChannel_Encode m = Ok p →
  Decodes DecodeCloseChannel p m None.
Proof.
  intros Hf HE. apply appendStr0_255_inv in HE as [Hs ->]. apply Decodes_reads.
  destruct m; msimpl. unfold appendU32LE. rewrite app_nil_l. reads.
Qed.

Lemma OpenMiningChannel_decodes m p :
  msg_ok (AOpenMiningChannel m) → OpenMiningChannel_Encode m = Ok p →
  Decodes DecodeOpenMiningChannel p m None.
Proof.
  intros (Hr & Hf & Ht & _) HE. unfold OpenMiningChannel_Encode in HE.
  destruct (appendStr0_255 _ _) as [b|] eqn:E; [|done]. apply Ok_inj in HE as <-.
  apply appendStr0_255_inv in E as [Hs ->]. apply Decodes_reads.
  destruct m as [req user [f] t]; msimpl. unfold appendU32LE, float32bits. cbn [f32_bits].
  rewrite app_nil_l, <- !app_assoc.
  eapply Reads_bind; [eauto using Reads_wrap with otd|].
  eapply Reads_bind; [eauto using Reads_wrap with otd|].
  eapply Reads_bind; [by apply Reads_wrap, Reads_ReadFull_n|].
  eapply Reads_last; [by apply Reads_wrap, Reads_ReadFull_n|].
  unfold float32frombits. by rewrite le_Z_u32.
Qed.

Lemma OpenMiningChannelSuccess_decodes m p :
  msg_ok (AOpenMiningChannelSuccess m) → OpenMiningChannelSuccess_Encode m = Ok p →
  Decodes DecodeOpenMiningChannelSuccess p m None.
Proof.
  intros (Hr & Hc & [Ht _] & _ & Hg) HE. unfold OpenMiningChannelSuccess_Encode in HE.
  destruct (appendB0_32 _ _) as [b|] eqn:E; [|done]. apply Ok_inj in HE as <-.
  apply appendB0_32_inv in E as [Hs ->]. apply Decodes_reads.
  destruct m; msimpl. unfold appendU32LE. rewrite app_nil_l, <- !app_assoc.
  assert (length omcs_Extranonce0 ≤ 255)%nat by lia. reads.
Qed.

Lemma NewMiningJob_decodes m p :
  msg_ok (ANewMiningJob m) → NewMiningJob_Encode m = Ok p →
  Decodes DecodeNewMiningJob p m None.
Proof.
  intros (Hc & Hj & Hn & Hv & [Hr _] & H0) <-%Ok_inj.
  destruct m as [c j [|] n v r]; msimpl; rewrite <- !app_assoc.
  - split.
    + intros rest. unfold DecodeNewMiningJob. rewrite <- !app_assoc.
      rewrite !(proj2 (Nat.ltb_ge _ _)) by (rewrite !length_app, Hr; cbn [length le_bytes]; lia).
      change (nth 8 (le_bytes 4 c ++ le_bytes 4 j ++ [1] ++ _) 0) with 1. cbv zeta. cbn [Nat.add].
      slices. by rewrite !le_Z_u32.
    + intros q rest Hq Hrest _. unfold DecodeNewMiningJob. case_if; [eexists; done|].
      assert (length q < 49)%nat.
      { apply (f_equal length) in Hq. rewrite !length_app, Hr in Hq. cbn [length le_bytes] in Hq.
        destruct rest; [done|]. simpl in Hq. lia. }
      assert (nth 8 q 0 = 1) as ->.
      { rewrite <- (app_nth1 q rest) by lia. by rewrite Hq. }
      rewrite (proj2 (Nat.ltb_lt _ _)) by (simpl; lia). eexists; done.
  - rewrite H0 by done. fixed_decoder 45%nat. cbv zeta.
    change (nth 8 (le_bytes 4 c ++ le_bytes 4 j ++ [0] ++ _) 0) with 0. cbn [Nat.add].
    slices. by rewrite ?le_Z_u32.
Qed.

Lemma SetNewPrevHash_decodes m p :
  msg_ok (ASetNewPrevHash m) → SetNewPrevHash_Encode m = Ok p →
  Decodes DecodeSetNewPrevHash p m None.
Proof.
  intros (Hc & Hj & [Hr _] & Hn & Hb) <-%Ok_inj. destruct m as [c j r n b]; msimpl.
  fixed_decoder 48%nat. done.
Qed.

Lemma SetTarget_decodes m p :
  msg_ok (ASetTarget m) → SetTarget_Encode m = Ok p → Decodes DecodeSetTarget p m None.
Proof.
  intros (Hc & [Hr _]) <-%Ok_inj. destruct m as [c r]; msimpl. fixed_decoder 36%nat. done.
Qed.

Lemma SubmitSharesStandard_decodes m p :
  msg_ok (ASubmitSharesStandard m) → SubmitSharesStandard_Encode m = Ok p →
  Decodes DecodeSubmitSharesStandard p m None.
Proof.
  intros (H1 & H2 & H3 & H4 & H5 & H6) <-%Ok_inj. destruct m; msimpl. fixed_decoder 24%nat. done.
Qed.

Lemma SubmitSharesSuccess_decodes m p :
  msg_ok (ASubmitSharesSuccess m) → SubmitSharesSuccess_Encode m = Ok p →
  Decodes DecodeSubmitSharesSuccess p m None.
Proof.
  intros (H1 & H2 & H3 & H4) <-%Ok_inj. destruct m; msimpl. fixed_decoder 20%nat. done.
Qed.

(** A fixed part followed by an optional string: the string's decoder runs
    only when bytes are left, so the bare fixed part is accepted. *)
Lemma Decodes_optional_string {A} (dec : list Z → result A) fixed (s : string) a n :
  length fixed = n → (String.length s ≤ 255)%nat →
  (∀ q, (length q < n)%nat → ∃ e, dec q = Err e) →
  (∀ q, (0 < length q)%nat → ∀ s', decode_with getStr0_255 q = Ok s' → s' = s →
        dec (fixed ++ q) = Ok a) →
  (∀ q e, (0 < length q)%nat → decode_with getStr0_255 q = Err e →
        ∃ e', dec (fixed ++ q) = Err e') →
  Decodes dec (fixed ++ (wrap 8 (Z.of_nat (String.length s)) :: bytes_of_string s)) a (Some n).
Proof.
  intros Hn Hs Hshort Hok Herr. pose proof (Decodes_reads _ _ _ (Reads_getStr0_255 s Hs)) as [HD HT].
  split.
  - intros rest. rewrite <- app_assoc.
    apply Hok with (s' := s); [rewrite length_app; simpl; lia|by apply HD|done].
  - intros q rest Hq Hr Hk. apply app_eq_inv in Hq as [(k & -> & Hq)|(k & Hq & ->)].
    + assert (0 < length k)%nat.
      { destruct k; [|simpl; lia]. rewrite app_nil_r in Hk. congruence. }
      destruct (HT k rest) as [e He]; [done|done|done|]. by apply (Herr k e).
    + destruct k as [|x k]; [rewrite app_nil_r in Hq; subst; congruence|].
      apply Hshort. apply (f_equal length) in Hq. rewrite length_app in Hq. simpl in Hq. lia.
Qed.

Lemma OpenMiningChannelError_decodes m p :
  msg_ok (AOpenMiningChannelError m) → OpenMiningChannelError_Encode m = Ok p →
  Decodes DecodeOpenMiningChannelError p m (Some 4%nat).
Proof.
  intros Hc HE. apply appendStr0_255_inv in HE as [Hs ->]. destruct m as [c s]; msimpl.
  unfold appendU32LE. rewrite app_nil_l.
  apply Decodes_optional_string; auto; unfold DecodeOpenMiningChannelError.
  - intros q Hq. if_lia. eexists; done.
  - intros q Hq s' Hd ->. rewrite !length_app, length_le_bytes. do 2 if_lia.
    rewrite drop_app_exact, Hd by done. slices. by rewrite le_Z_u32.
  - intros q e Hq Hd. rewrite !length_app, length_le_bytes. do 2 if_lia.
    rewrite drop_app_exact, Hd by done. eexists; done.
Qed.

Lemma SubmitSharesError_decodes m p :
  msg_ok (ASubmitSharesError m) → SubmitSharesError_Encode m = Ok p →
  Decodes DecodeSubmitSharesError p m (Some 8%nat).
Proof.
  intros [Hc Hq] HE. apply appendStr0_255_inv in HE as [Hs ->]. destruct m as [c n s]; msimpl.
  unfold appendU32LE. rewrite app_nil_l.
  apply Decodes_optional_string; auto; unfold DecodeSubmitSharesError.
  - intros q Hl. if_lia. eexists; done.
  - intros q Hl s' Hd ->. rewrite !length_app, !length_le_bytes. do 2 if_lia.
    rewrite drop_app_exact, Hd by done. rewrite <- app_assoc. slices. by rewrite !le_Z_u32.
  - intros q e Hl Hd. rewrite !length_app, !length_le_bytes. do 2 if_lia.
    rewrite drop_app_exact, Hd by done. eexists; done.
Qed.

(** The prefix length at which a message may be cut without being refused. *)
Definition lenient_at (m : MiningMessage) : option nat :=
  match m with
  | AOpenMiningChannelError _ => Some 4%nat
  | ASubmitSharesError _ => Some 8%nat
  | _ => None
  end.

Lemma Decodes_decoder {A} (dec : list Z → result A) store p a k :
  Decodes dec p a k →
  Decodes (λ q, decoder dec store q Message_zero) p (store a Message_zero) k.
Proof.
  intros [H1 H2]. unfold decoder. split.
  - intros rest. by rewrite H1.
  - intros q rest Hq Hr Hk. destruct (H2 q rest Hq Hr Hk) as [e ->]. eexists; done.
Qed.

Definition dispatch (t : Z) (p : list Z) : result Message :=
  DispatchFrame {| FHeader := {| ExtensionType := 0; MsgType := t; MsgLength := 0 |}; Payload := p |}.

Lemma DispatchFrame_dispatch f : DispatchFrame f = dispatch (MsgType (FHeader f)) (Payload f).
Proof. reflexivity. Qed.

Lemma dispatch_decodes m p :
  msg_ok m → msg_encode m = Ok p →
  Decodes (dispatch (msg_type m)) p (msg_inject m) (lenient_at m).
Proof.
  destruct m; cbn [msg_encode msg_inject lenient_at]; intros Hok HE;
    apply Decodes_decoder;
    eauto using SetupConnection_decodes, SetupConnectionSuccess_decodes,
      SetupConnectionError_decodes, OpenMiningChannel_decodes, OpenMiningChannelSuccess_decodes,
      OpenMiningChannelError_decodes, NewMiningJob_decodes, SetNewPrevHash_decodes,
      SetTarget_decodes, CloseChannel_decodes, SubmitSharesStandard_decodes,
      SubmitSharesSuccess_decodes, SubmitSharesError_decodes.
Qed.

(** Encodings are bytes, and stay far below the frame limit. *)
Lemma append_str_bytes_ok s :
  (String.length s ≤ 255)%nat →
  bytes_ok (wrap 8 (Z.of_nat (String.length s)) :: bytes_of_string s).
Proof. intros. constructor; [apply wrap_range; lia|auto with otd]. Qed.

Lemma msg_encode_bytes_ok m p : msg_ok m → msg_encode m = Ok p → bytes_ok p.
Proof.
  destruct m; cbn [msg_encode msg_ok]; intros Hok HE.
  - apply append_strings_inv in HE as [Hs ->]. unfold appendU16LE, appendU32LE.
    rewrite !Forall_cons in Hs. destruct Hs as (H1 & H2 & H3 & H4 & H5 & _).
    repeat apply Forall_app_2; auto using append_str_bytes_ok with otd.
    repeat constructor; apply wrap_range; lia.
  - apply Ok_inj in HE as <-. apply Forall_app_2; auto with otd.
  - apply appendStr0_255_inv in HE as [Hs ->]. unfold appendU32LE. rewrite app_nil_l.
    apply Forall_app_2; [auto with otd|by apply append_str_bytes_ok].
  - unfold OpenMiningChannel_Encode in HE. destruct (appendStr0_255 _ _) as [b|] eqn:E; [|done].
    apply Ok_inj in HE as <-. apply appendStr0_255_inv in E as [Hs ->]. unfold appendU32LE.
    destruct Hok as (_ & _ & _ & Ht). rewrite app_nil_l.
    repeat apply Forall_app_2; auto using append_str_bytes_ok with otd.
  - unfold OpenMiningChannelSuccess_Encode in HE. destruct (appendB0_32 _ _) as [b|] eqn:E; [|done].
    apply Ok_inj in HE as <-. apply appendB0_32_inv in E as [Hs ->]. unfold appendU32LE.
    destruct Hok as (_ & _ & [_ Ht] & He & _). rewrite app_nil_l.
    repeat apply Forall_app_2; auto with otd. constructor; [apply wrap_range; lia|done].
  - apply appendStr0_255_inv in HE as [Hs ->]. unfold appendU32LE. rewrite app_nil_l.
    apply Forall_app_2; [auto with otd|by apply append_str_bytes_ok].
  - destruct Hok as (_ & _ & _ & _ & [_ Ht] & _). apply Ok_inj in HE as <-.
    destruct (nmj_HasNtimeStart m); repeat apply Forall_app_2; auto with otd; by repeat constructor.
  - destruct Hok as (_ & _ & [_ Ht] & _). apply Ok_inj in HE as <-.
    repeat apply Forall_app_2; auto with otd.
  - destruct Hok as (_ & [_ Ht]). apply Ok_inj in HE as <-. repeat apply Forall_app_2; auto with otd.
  - apply appendStr0_255_inv in HE as [Hs ->]. unfold appendU32LE. rewrite app_nil_l.
    apply Forall_app_2; [auto with otd|by apply append_str_bytes_ok].
  - apply Ok_inj in HE as <-. repeat apply Forall_app_2; auto with otd.
  - apply Ok_inj in HE as <-. repeat apply Forall_app_2; auto with otd.
  - apply appendStr0_255_inv in HE as [Hs ->]. unfold appendU32LE. rewrite app_nil_l.
    repeat apply Forall_app_2; auto using append_str_bytes_ok with otd.
Qed.

Lemma length_append_str s :
  length (wrap 8 (Z.of_nat (String.length s)) :: bytes_of_string s) = S (String.length s).
Proof. simpl. by rewrite length_bytes_of_string. Qed.

Lemma msg_encode_length m p :
  msg_ok m → msg_encode m = Ok p → (4 ≤ length p ≤ 1500)%nat.
Proof.
  destruct m; cbn [msg_encode msg_ok]; intros Hok HE.
  - apply append_strings_inv in HE as [Hs ->]. unfold appendU16LE, appendU32LE.
    rewrite !Forall_cons in Hs. destruct Hs as (H1 & H2 & H3 & H4 & H5 & _).
    cbn [map concat]. rewrite !length_app, !length_append_str, !length_le_bytes. simpl. lia.
  - apply Ok_inj in HE as <-. rewrite !length_app, !length_le_bytes. lia.
  - apply appendStr0_255_inv in HE as [Hs ->]. unfold appendU32LE.
    rewrite !length_app, length_append_str, !length_le_bytes. simpl. lia.
  - unfold OpenMiningChannel_Encode in HE. destruct (appendStr0_255 _ _) as [b|] eqn:E; [|done].
    apply Ok_inj in HE as <-. apply appendStr0_255_inv in E as [Hs ->]. unfold appendU32LE.
    destruct Hok as (_ & _ & Ht & _).
    rewrite !length_app, length_append_str, !length_le_bytes, Ht. simpl. lia.
  - unfold OpenMiningChannelSuccess_Encode in HE. destruct (appendB0_32 _ _) as [b|] eqn:E; [|done].
    apply Ok_inj in HE as <-. apply appendB0_32_inv in E as [Hs ->]. unfold appendU32LE.
    destruct Hok as (_ & _ & [Ht _] & _). rewrite !length_app, !length_le_bytes, Ht. simpl. lia.
  - apply appendStr0_255_inv in HE as [Hs ->]. unfold appendU32LE.
    rewrite !length_app, length_append_str, !length_le_bytes. simpl. lia.
  - destruct Hok as (_ & _ & _ & _ & [Ht _] & _). apply Ok_inj in HE as <-.
    destruct (nmj_HasNtimeStart m); rewrite !length_app, !length_le_bytes, Ht; simpl; lia.
  - destruct Hok as (_ & _ & [Ht _] & _). apply Ok_inj in HE as <-.
    rewrite !length_app, !length_le_bytes, Ht. lia.
  - destruct Hok as (_ & [Ht _]). apply Ok_inj in HE as <-.
    rewrite !length_app, !length_le_bytes, Ht. lia.
  - apply appendStr0_255_inv in HE as [Hs ->]. unfold appendU32LE.
    rewrite !length_app, length_append_str, !length_le_bytes. simpl. lia.
  - apply Ok_inj in HE as <-. rewrite !length_app, !length_le_bytes. lia.
  - apply Ok_inj in HE as <-. rewrite !length_app, !length_le_bytes. lia.
  - apply appendStr0_255_inv in HE as [Hs ->]. unfold appendU32LE.
    rewrite !length_app, length_append_str, !length_le_bytes. simpl. lia.
Qed.

Lemma WrapMessage_ok t (chan : bool) p :
  t ∈u 8 → bytes_ok p → (4 ≤ length p ≤ 1500)%nat →
  ∃ f, WrapMessage t chan p = Ok f ∧ frame_ok f ∧ frame_consistent f ∧
    MsgType (FHeader f) = t ∧ Payload f = p ∧ Validate (FHeader f) = Ok ().
Proof.
  intros Ht Hb Hl. unfold WrapMessage. rewrite wrap_small by word_lia.
  set (h := {| ExtensionType := _ |}).
  assert (Validate h = Ok ()) as Hv.
  { apply Validate_ok. cbn [MsgLength h]. split; [word_lia|lia]. }
  rewrite Hv. cbn [mbind result_bind]. eexists. split; [done|].
  unfold frame_ok, frame_consistent, header_ok. cbn [FHeader Payload MsgLength MsgType ExtensionType h].
  split_and!; auto; try word_lia; destruct chan; unfold channelMsgBit; word_lia.
Qed.

Lemma msg_type_u8 m : msg_type m ∈u 8.
Proof. by destruct m. Qed.

(** Which messages fit their wire types: every STR0_255 at most 255 bytes and
    the extranonce of [OpenMiningChannelSuccess] at most 32. *)
Definition msg_fits (m : MiningMessage) : Prop :=
  match m with
  | ASetupConnection m =>
      Forall (λ s, (String.length s ≤ 255)%nat)
        [sc_Endpoint m; sc_Vendor m; sc_HardwareVersion m; sc_Firmware m; sc_DeviceID m]
  | ASetupConnectionError m => (String.length (sce_Error m) ≤ 255)%nat
  | AOpenMiningChannel m => (String.length (omc_User m) ≤ 255)%nat
  | AOpenMiningChannelSuccess m => (length (omcs_Extranonce m) ≤ 32)%nat
  | AOpenMiningChannelError m => (String.length (omce_Error m) ≤ 255)%nat
  | ACloseChannel m => (String.length (cc_Reason m) ≤ 255)%nat
  | ASubmitSharesError m => (String.length (sse_Error m) ≤ 255)%nat
  | _ => True
  end.

Lemma appendStr0_255_total b s :
  (String.length s ≤ 255)%nat → ∃ b', appendStr0_255 b s = Ok b'.
Proof.
  intros. unfold appendStr0_255. rewrite length_bytes_of_string. if_lia. eauto.
Qed.

Lemma append_strings_total b ss :
  Forall (λ s, (String.length s ≤ 255)%nat) ss → ∃ b', append_strings b ss = Ok b'.
Proof.
  intros H. revert b. induction H as [|s ss Hs _ IH]; intros b; cbn [append_strings]; [eauto|].
  destruct (appendStr0_255_total b s Hs) as [b1 ->]. apply IH.
Qed.

(** A message that encodes travels over any lawful transport. *)
Lemma message_transport `{StreamReader R} (d : Decoder R) m p (chan : bool) :
  msg_ok m → msg_encode m = Ok p → 1506 ≤ MaxFrameSize d →
  ∃ f bs, WrapMessage (msg_type m) chan p = Ok f ∧ EncodeFrame f = Ok bs ∧
    ∀ rest, stream (dec_r d) = bs ++ rest →
      ∃ fr d', ReadFrame d = (Ok fr, d') ∧ DispatchFrame fr = Ok (msg_inject m) ∧
        stream (dec_r d') = rest ∧ MaxFrameSize d' = MaxFrameSize d.
Proof.
  intros Hok HE Hm. pose proof (msg_encode_length m p Hok HE) as Hl.
  destruct (WrapMessage_ok (msg_type m) chan p) as (f & Hw & Hf & Hc & Ht & Hp & Hv);
    eauto using msg_type_u8, msg_encode_bytes_ok.
  exists f, (header_bytes (FHeader f) ++ Payload f).
  assert (EncodeFrame f = Ok (header_bytes (FHeader f) ++ Payload f)) as HF
    by (by apply EncodeFrame_consistent).
  split_and!; auto. intros rest Hs.
  destruct (ReadFrame_complete d f _ rest Hf HF) as (d' & HR & Hs' & Hmax); auto.
  { rewrite length_app, length_header_bytes, Hp. unfold HeaderSize. lia. }
  eexists _, d'. split; [exact HR|]. split; [|done].
  rewrite DispatchFrame_dispatch. cbn [FHeader MsgType Payload]. rewrite Ht, Hp.
  destruct (dispatch_decodes m p Hok HE) as [HD _].
  rewrite <- (app_nil_r p). apply HD.
Qed.

(** ** Properties *)

(** C24. End to end: a message that encodes is wrapped, framed, carried over
    any lawful transport, read back and dispatched to a [Message] in which
    exactly its own pointer is set, equal to the message sent; the rest of
    the stream is untouched.  Neither framing step can fail. *)
Theorem message_roundtrip `{StreamReader R} (d : Decoder R) m p (chan : bool) :
  msg_ok m → msg_encode m = Ok p → 1506 ≤ MaxFrameSize d →
  ∃ f bs, WrapMessage (msg_type m) chan p = Ok f ∧ EncodeFrame f = Ok bs ∧
    ∀ rest, stream (dec_r d) = bs ++ rest →
      ∃ fr d', ReadFrame d = (Ok fr, d') ∧ DispatchFrame fr = Ok (msg_inject m) ∧
        stream (dec_r d') = rest.
Proof.
  intros Hok HE Hm. destruct (message_transport d m p chan Hok HE Hm) as (f & bs & Hw & HF & HR).
  exists f, bs. split_and!; auto. intros rest Hs.
  destruct (HR rest Hs) as (fr & d' & H1 & H2 & H3 & _). eauto.
Qed.

(** Trailing bytes are ignored and truncation is refused: any extension of
    an encoding dispatches to the same message, and every strict prefix is an
    error — except the two error messages whose text is optional on the wire,
    cut exactly before the text. *)
Theorem dispatch_prefix_behaviour m p :
  msg_ok m → msg_encode m = Ok p →
  (∀ rest, dispatch (msg_type m) (p ++ rest) = Ok (msg_inject m)) ∧
  (∀ q rest, q ++ rest = p → rest ≠ [] → lenient_at m ≠ Some (length q) →
     ∃ e, dispatch (msg_type m) q = Err e).
Proof. intros Hok HE. exact (dispatch_decodes m p Hok HE). Qed.

(** Dispatch is total and unambiguous: every frame either decodes to a
    message of its own type with exactly that one pointer set, or has an
    unregistered type and passes through as [Unknown] with its payload intact;
    only a registered type can produce an error. *)
Theorem DispatchFrame_one_message f :
  match DispatchFrame f with
  | Ok m =>
      (∃ mm, msg_type mm = MsgType (FHeader f) ∧ m = msg_inject mm) ∨
      (frameDecoders (MsgType (FHeader f)) = None ∧
       m = set_Unknown {| um_MsgType := MsgType (FHeader f); um_Payload := Payload f |} Message_zero)
  | Err _ => frameDecoders (MsgType (FHeader f)) ≠ None
  end.
Proof.
  unfold DispatchFrame, frameDecoders.
  repeat match goal with
  | |- context [if (?t =? ?c) then _ else _] => destruct (Z.eqb_spec t c) as [E|_]
  end; cbv beta iota; [..|by right].
  all: unfold decoder;
    match goal with |- context [?c ≫= _] => destruct c as [v|e] end;
    cbn [mbind result_bind]; [left|discriminate]; rewrite E.
  - by exists (ASetupConnection v).
  - by exists (ASetupConnectionSuccess v).
  - by exists (ASetupConnectionError v).
  - by exists (AOpenMiningChannel v).
  - by exists (AOpenMiningChannelSuccess v).
  - by exists (AOpenMiningChannelError v).
  - by exists (ANewMiningJob v).
  - by exists (ASetNewPrevHash v).
  - by exists (ASetTarget v).
  - by exists (ASubmitSharesStandard v).
  - by exists (ASubmitSharesSuccess v).
  - by exists (ASubmitSharesError v).
  - by exists (ACloseChannel v).
Qed.

(** Encoding fails exactly for the values the wire format cannot carry. *)
Lemma msg_encode_fails_iff m :
  is_ok (msg_encode m) = true ↔ msg_fits m.
Proof.
  destruct m; cbn [msg_encode msg_fits]; try (split; done).
  - split.
    + destruct (SetupConnection_Encode m) as [b|] eqn:E; [|done]. intros _.
      by apply append_strings_inv in E as [? _].
    + intros Hs. unfold SetupConnection_Encode.
      match goal with |- context [append_strings ?b ?l] =>
        destruct (append_strings_total b l Hs) as [b' ->] end. done.
  - unfold SetupConnectionError_Encode, appendStr0_255. rewrite length_bytes_of_string.
    case_if; simpl; split; (done || lia).
  - unfold OpenMiningChannel_Encode, appendStr0_255. rewrite length_bytes_of_string.
    case_if; simpl; split; (done || lia).
  - unfold OpenMiningChannelSuccess_Encode, appendB0_32. case_if; simpl; split; (done || lia).
  - unfold OpenMiningChannelError_Encode, appendStr0_255. rewrite length_bytes_of_string.
    case_if; simpl; split; (done || lia).
  - unfold CloseChannel_Encode, appendStr0_255. rewrite length_bytes_of_string.
    case_if; simpl; split; (done || lia).
  - unfold SubmitSharesError_Encode, appendStr0_255. rewrite length_bytes_of_string.
    case_if; simpl; split; (done || lia).
Qed.

(** ** Witnesses *)

Definition wit_job : MiningMessage :=
  ANewMiningJob {| nmj_ChannelID := 7; nmj_JobID := 258; nmj_HasNtimeStart := true;
                   nmj_NtimeStart := 0x665544; nmj_Version := 0x20000000;
                   nmj_MerkleRoot := replicate 32 0xAB |}.

Lemma wit_job_ok : msg_ok wit_job.
Proof.
  cbn [msg_ok wit_job]. msimpl. unfold is_u32, is_hash.
  split_and!; try done. by apply Forall_replicate.
Qed.

Definition wit_job_bytes : list Z :=
  match msg_encode wit_job with Ok p => p | Err _ => [] end.
Definition wit_job_frame : list Z := [0; 128; 21; 49; 0; 0] ++ wit_job_bytes.

Definition wit_job_conn : Decoder segmentConn :=
  NewDecoder {| segments := [take 11 wit_job_frame; drop 11 wit_job_frame] |}.

Lemma message_roundtrip_witness :
  ∃ f bs, WrapMessage (msg_type wit_job) true wit_job_bytes = Ok f ∧ EncodeFrame f = Ok bs ∧
    ∀ rest, stream (dec_r wit_job_conn) = bs ++ rest →
      ∃ fr d', ReadFrame wit_job_conn = (Ok fr, d') ∧
        DispatchFrame fr = Ok (msg_inject wit_job) ∧ stream (dec_r d') = rest.
Proof.
  apply (message_roundtrip wit_job_conn wit_job wit_job_bytes true);
    [apply wit_job_ok|reflexivity|vm_compute; discriminate].
Defined.

Lemma dispatch_prefix_behaviour_witness :
  (∀ rest, dispatch MsgNewMiningJob (wit_job_bytes ++ rest) = Ok (msg_inject wit_job)) ∧
  ∃ e, dispatch MsgNewMiningJob (take 48 wit_job_bytes) = Err e.
Proof.
  destruct (dispatch_prefix_behaviour wit_job wit_job_bytes) as [H1 H2];
    [apply wit_job_ok|reflexivity|].
  split; [exact H1|]. apply (H2 (take 48 wit_job_bytes) [0xAB]); [reflexivity|discriminate|discriminate].
Defined.
