(* ===== verification/Seed.v ===== *)
(** * internal/lightning/seed.go

    Entropy, BIP-39 word lists and mnemonics.  Strings are byte lists; a bit
    buffer is a list of 0 and 1.  Key stretching (golang.org/x/crypto/pbkdf2
    over HMAC-SHA512) is a parameter. *)
From S2P Require Import Prelude.
From S2P Require Import Sha256.
From S2P Require Import Utf8.
From S2P Require Import Json.
From S2P Require Import Wire.

Open Scope Z_scope.

Definition Entropy : Type := list Z.
Definition DefaultEntropyBits : Z := 256.
Definition validEntropyBits (bits : Z) : bool :=
  existsb (Z.eqb bits) [128; 160; 192; 224; 256].

Definition GenerateEntropy `{Reader R} (bits : Z) : rdm R Entropy :=
  if negb (validEntropyBits bits)
  then rd_fail (Errorf "lightning: entropy bits must be 128/160/192/224/256, got %d" [bits])
  else rd_wrap "lightning: entropy generation failed: %w" (ReadFull (Z.to_nat (bits / 8))).

Definition Entropy_Validate (e : Entropy) : result unit :=
  let bits := Z.of_nat (length e) * 8 in
  if validEntropyBits bits then Ok ()
  else Err (Errorf "lightning: entropy has %d bits, must be one of 128/160/192/224/256" [bits]).

(** ** Word lists *)

Record WordList := { words : list (list Z); wordIndex : gmap (list Z) Z }.

(** [utf8.ValidString]: a RuneError of width 1 marks an invalid byte. *)
Fixpoint valid_fuel (n : nat) (s : list Z) : bool :=
  match n, s with
  | _, [] => true
  | O, _ => false
  | S n, _ =>
      let '(r, w) := decode_rune s in
      negb ((r =? RuneError) && (w =? 1)%nat) && valid_fuel n (drop w s)
  end.
Definition ValidString (s : list Z) : bool := valid_fuel (length s) s.

Fixpoint indexWords (i : Z) (ws : list (list Z)) (idx : gmap (list Z) Z)
    : result (gmap (list Z) Z) :=
  match ws with
  | [] => Ok idx
  | w :: ws =>
      if bool_decide (w = []) then Err (Errorf "lightning: wordlist entry at index %d is empty" [i])
      else if negb (ValidString w)
      then Err (Errorf "lightning: wordlist entry at index %d is not valid UTF-8" [i])
      else match idx !! w with
      | Some _ => Err (Sentinel "lightning: duplicate word %q in wordlist")
      | None => indexWords (i + 1) ws (<[w := i]> idx)
      end
  end.

Definition wordlistRequired : Z := 2048.
Definition NewWordList (ws : list (list Z)) : result WordList :=
  if negb (Z.of_nat (length ws) =? wordlistRequired)
  then Err (Errorf "lightning: wordlist must have exactly %d entries, got %d"
              [wordlistRequired; Z.of_nat (length ws)])
  else
    idx ← indexWords 0 ws ∅;
    Ok {| words := ws; wordIndex := idx |}.

Definition Word (w : WordList) (i : Z) : result (list Z) :=
  if (i <? 0) || (Z.of_nat (length (words w)) <=? i)
  then Err (Errorf "lightning: wordlist index %d out of range" [i])
  else Ok (nth (Z.to_nat i) (words w) []).

Definition Index (w : WordList) (word : list Z) : result Z :=
  match wordIndex w !! word with
  | Some i => Ok i
  | None => Err (Sentinel "lightning: word %q not in wordlist")
  end.

(** ** Mnemonics *)

Definition Mnemonic : Type := list (list Z).

(** [strings.Join(m, " ")]. *)
Fixpoint Mnemonic_String (m : Mnemonic) : list Z :=
  match m with
  | [] => []
  | [w] => w
  | w :: m => w ++ 32 :: Mnemonic_String m
  end.

(** Bits [hi], [hi]-1, ..., [lo] of [v]. *)
Definition bits_down (hi lo : nat) (v : Z) : list Z :=
  map (λ i, Z.land (Z.shiftr v (Z.of_nat i)) 1) (reverse (seq lo (S hi - lo))).

(** The bit buffer of [EntropyToMnemonic]: the entropy, then the high bits of
    the first byte of its hash. *)
Definition entropyBits (e : Entropy) (cs : nat) : list Z :=
  let checksumByte := nth 0 (Sum256 e) 0 in
  concat (map (bits_down 7 0) e) ++ bits_down 7 (8 - cs) checksumByte.

Definition wordIdx (bits : list Z) (i : nat) : Z :=
  foldl (λ idx j, Z.lor (Z.shiftl idx 1) (nth (i * 11 + j) bits 0)) 0 (seq 0 11).

Fixpoint lookupWords (w : WordList) (bits : list Z) (ixs : list nat) : result Mnemonic :=
  match ixs with
  | [] => Ok []
  | i :: ixs =>
      word ← Word w (wordIdx bits i);
      m ← lookupWords w bits ixs;
      Ok (word :: m)
  end.

Definition EntropyToMnemonic (e : Entropy) (w : option WordList) : result Mnemonic :=
  _ ← Entropy_Validate e;
  match w with
  | None => Err (Sentinel "lightning: wordlist must not be nil")
  | Some w =>
      let ent := (length e * 8)%nat in
      let cs := (ent / 32)%nat in
      let wordCount := ((ent + cs) / 11)%nat in
      lookupWords w (entropyBits e cs) (seq 0 wordCount)
  end.

Fixpoint mnemonicBits (w : WordList) (m : Mnemonic) : result (list Z) :=
  match m with
  | [] => Ok []
  | word :: m =>
      idx ← wrapping "lightning: word %d: %w" (Index w word);
      bits ← mnemonicBits w m;
      Ok (bits_down 10 0 idx ++ bits)
  end.

(** [entropy[i/8] |= bits[i] << (7 - i%8)] for the entropy bits. *)
Definition packBits (bits : list Z) (entBits : nat) : list Z :=
  foldl (λ ent i,
      <[(i / 8)%nat := Z.lor (nth (i / 8) ent 0)
                       (wrap 8 (Z.shiftl (nth i bits 0) (7 - Z.of_nat (i mod 8))))]> ent)
    (replicate (entBits / 8) 0) (seq 0 entBits).

Definition validCounts (n : nat) : bool := existsb (Nat.eqb n) [12; 15; 18; 21; 24]%nat.

Definition MnemonicToEntropy (m : Mnemonic) (w : option WordList) : result Entropy :=
  match w with
  | None => Err (Sentinel "lightning: wordlist must not be nil")
  | Some w =>
      if bool_decide (m = []) then Err (Sentinel "lightning: mnemonic is empty")
      else if negb (validCounts (length m))
      then Err (Errorf "lightning: mnemonic has %d words, must be 12/15/18/21/24"
                  [Z.of_nat (length m)])
      else
        let totalBits := (length m * 11)%nat in
        let cs := (totalBits / 33)%nat in
        let entBits := (totalBits - cs)%nat in
        bits ← mnemonicBits w m;
        let entropy := packBits bits entBits in
        let sum0 := nth 0 (Sum256 entropy) 0 in
        if forallb (λ i, nth (entBits + i) bits 0 =?
                         Z.land (Z.shiftr sum0 (7 - Z.of_nat i)) 1) (seq 0 cs)
        then Ok entropy
        else Err (Sentinel "lightning: mnemonic checksum mismatch; check for transcription errors")
  end.

(** ** Seeds *)

Section Derivation.
(** [pbkdf2.Key(password, salt, iter, keyLen, sha512.New)]. *)
Context (pbkdf2_Key : list Z → list Z → Z → nat → list Z).
Definition MnemonicToSeed (m : Mnemonic) (passphrase : list Z) : list Z :=
  let salt := bytes_of_string "mnemonic" ++ passphrase in
  let seed := pbkdf2_Key (Mnemonic_String m) salt 2048 64 in
  take 64 (seed ++ replicate 64 0).
End Derivation.

(** HMAC-SHA256 for keys of at most one block. *)
Definition hmac_sha256 (key msg : list Z) : list Z :=
  let k := key ++ replicate (64 - length key) 0 in
  Sum256 (map (Z.lxor 0x5c) k ++ Sum256 (map (Z.lxor 0x36) k ++ msg)).
Definition Fingerprint (s : list Z) : list Z :=
  hex_EncodeToString (take 4 (hmac_sha256 (bytes_of_string "otedama-fingerprint-v1") s)).

(** * Word lists *)

(** What a constructed word list promises its users. *)
Class LawfulWordList (w : WordList) : Prop := {
  wl_length : Z.of_nat (length (words w)) = 2048;
  wl_index : ∀ x i, wordIndex w !! x = Some i ↔ 0 ≤ i ∧ words w !! Z.to_nat i = Some x;
}.

Lemma indexWords_spec ws i idx idx' :
  indexWords i ws idx = Ok idx' →
  NoDup ws ∧ (∀ x, x ∈ ws → idx !! x = None) ∧
  ∀ x j, idx' !! x = Some j ↔
         idx !! x = Some j ∨ (∃ k, ws !! k = Some x ∧ j = i + Z.of_nat k).
Proof.
  revert i idx. induction ws as [|w ws IH]; intros i idx H; cbn [indexWords] in H.
  - apply Ok_inj in H as <-. split; [constructor|]. split; [set_solver|]. intros x j.
    split; [by left|]. intros [?|(k & Hk & _)]; [done|]. by rewrite lookup_nil in Hk.
  - do 2 (case_if; [done|]). destruct (idx !! w) eqn:Ew; [done|].
    destruct (IH _ _ H) as (Hnd & Hfresh & Hspec).
    assert (w ∉ ws) as Hw.
    { intros Hin. specialize (Hfresh w Hin). by rewrite lookup_insert_eq in Hfresh. }
    split; [by constructor|]. split.
    { intros x [->|Hx]%elem_of_cons; [done|]. specialize (Hfresh x Hx).
      rewrite lookup_insert_ne in Hfresh; [done|]. by intros ->. }
    intros x j. rewrite Hspec. destruct (decide (x = w)) as [->|Hne].
    + rewrite lookup_insert_eq, Ew. split.
      * intros [[= <-]|(k & Hk & _)]; [|exfalso; by apply Hw, (list_elem_of_lookup_2 _ k)].
        right. exists 0%nat. split; [done|lia].
      * intros [?|([|k] & Hk & ->)]; [done|left; f_equal; lia|].
        exfalso. by apply Hw, (list_elem_of_lookup_2 _ k).
    + rewrite lookup_insert_ne by done. split; (intros [?|(k & Hk & ->)]; [by left|right]).
      * exists (S k). split; [done|lia].
      * destruct k as [|k]; [cbn in Hk; congruence|]. exists k. split; [done|lia].
Qed.

#[export] Instance NewWordList_lawful ws w : TCEq (NewWordList ws) (Ok w) → LawfulWordList w.
Proof.
  intros H%TCEq_eq. unfold NewWordList, wordlistRequired in H. case_if; [done|].
  destruct (indexWords 0 ws ∅) as [idx|] eqn:E; [|done]. cbn [mbind result_bind] in H.
  apply Ok_inj in H as <-. apply indexWords_spec in E as (_ & _ & E). split; cbn [words wordIndex].
  - lia.
  - intros x i. rewrite E, lookup_empty. split.
    + intros [?|(k & Hk & ->)]; [done|]. split; [lia|]. by rewrite Z.add_0_l, Nat2Z.id.
    + intros [Hi Hx]. right. exists (Z.to_nat i). split; [done|lia].
Qed.

Lemma Word_Index w `{!LawfulWordList w} i x : Word w i = Ok x ↔ Index w x = Ok i.
Proof.
  unfold Word, Index. pose proof (wl_length (w := w)) as Hl. split.
  - case_if; [done|]. intros <-%Ok_inj.
    assert (words w !! Z.to_nat i = Some (nth (Z.to_nat i) (words w) [])) as Hx.
    { destruct (lookup_lt_is_Some_2 (words w) (Z.to_nat i)) as [y Hy]; [lia|].
      rewrite Hy. f_equal. symmetry. by apply nth_lookup_Some. }
    by rewrite (proj2 (wl_index _ i)) by (split; [lia|exact Hx]).
  - destruct (wordIndex w !! x) as [j|] eqn:E; [|done]. intros <-%Ok_inj.
    apply wl_index in E as [Hi Hx]. pose proof (lookup_lt_Some _ _ _ Hx).
    rewrite (proj2 (Z.ltb_ge _ _)), (proj2 (Z.leb_gt _ _)) by lia. cbn [orb]. f_equal.
    by apply nth_lookup_Some.
Qed.

Lemma Word_range w `{!LawfulWordList w} i x : Word w i = Ok x → 0 ≤ i < 2 ^ 11.
Proof.
  unfold Word. pose proof (wl_length (w := w)). case_if; [done|]. intros _.
  change (2 ^ 11) with 2048. lia.
Qed.

Lemma Word_total w `{!LawfulWordList w} i : 0 ≤ i < 2 ^ 11 → ∃ x, Word w i = Ok x.
Proof.
  intros Hi. change (2 ^ 11) with 2048 in Hi. pose proof (wl_length (w := w)).
  unfold Word. rewrite (proj2 (Z.ltb_ge _ _)), (proj2 (Z.leb_gt _ _)) by lia. eauto.
Qed.

(** * Bits *)

Notation binary := (digits_ok 2).

Lemma land_1 v i : 0 ≤ i → Z.land (Z.shiftr v i) 1 = v / 2 ^ i mod 2.
Proof.
  intros Hi. rewrite Z.shiftr_div_pow2 by done. change 1 with (Z.ones 1).
  by rewrite Z.land_ones by lia.
Qed.

Lemma bits_down_digits n v : bits_down n 0 v = to_digits 2 (S n) v.
Proof.
  unfold bits_down. rewrite Nat.sub_0_r.
  generalize (S n). clear n. intros n. revert v. induction n as [|n IH]; intros v; [done|].
  cbn [seq to_digits]. rewrite reverse_cons, map_app. cbn [map].
  rewrite <-(IH (v / 2)), <-seq_shift. f_equal.
  - rewrite <-!(fmap_reverse (A := nat)). unfold fmap, list_fmap.
    change (map (λ i, Z.land (Z.shiftr v (Z.of_nat i)) 1) (map S (reverse (seq 0 n))) =
            map (λ i, Z.land (Z.shiftr (v / 2) (Z.of_nat i)) 1) (reverse (seq 0 n))).
    rewrite map_map. apply map_ext. intros i. rewrite !land_1 by lia.
    rewrite Nat2Z.inj_succ, Z.pow_succ_r, Z.div_div by lia. done.
  - rewrite land_1 by lia. by rewrite Z.pow_0_r, Z.div_1_r.
Qed.

(** A binary list is the blocks of digits of some words. *)
Lemma binary_blocks s n l :
  binary l → length l = (s * n)%nat →
  ∃ vs, length vs = n ∧ digits_ok (2 ^ Z.of_nat s) vs ∧ l = concat (map (to_digits 2 s) vs).
Proof.
  revert l. induction n as [|n IH]; intros l Hl Hlen.
  - exists []. destruct l; [done|cbn in Hlen; lia].
  - destruct (IH (drop s l)) as (vs & H1 & H2 & H3);
      [by apply Forall_drop|rewrite length_drop; lia|].
    exists (of_digits 2 (take s l) :: vs). split; [cbn; lia|].
    assert (length (take s l) = s) as Ht by (rewrite length_take; lia).
    assert (binary (take s l)) as Hb by (by apply Forall_take). split.
    + constructor; [|done]. pose proof (of_digits_range 2 (take s l) ltac:(lia) Hb) as Hr.
      by rewrite Ht in Hr.
    + cbn [map concat]. rewrite to_of_digits by done. rewrite <-H3. by rewrite take_drop.
Qed.

Lemma blocks_binary s vs : binary (concat (map (to_digits 2 s) vs)).
Proof.
  apply Forall_concat, Forall_map, Forall_true. intros v. by apply to_digits_ok.
Qed.

Lemma length_blocks s vs : length (concat (map (to_digits 2 s) vs)) = (s * length vs)%nat.
Proof.
  induction vs as [|v vs IH]; [cbn; lia|]. cbn [map concat length].
  rewrite length_app, length_to_digits, IH. lia.
Qed.

(** ** The word loop *)

Lemma foldl_ext_in {A B} (f g : A → B → A) l a :
  (∀ a b, b ∈ l → f a b = g a b) → foldl f a l = foldl g a l.
Proof.
  revert a. induction l as [|b l IH]; intros a H; [done|]. cbn [foldl].
  rewrite H by left. apply IH. intros a' b' Hb. apply H. by right.
Qed.

Lemma fold_bits c :
  binary c →
  foldl (λ a j, Z.lor (Z.shiftl a 1) (nth j c 0)) 0 (seq 0 (length c)) = of_digits 2 c.
Proof.
  induction c as [|d c IH] using rev_ind; intros Hb; [done|].
  apply Forall_app in Hb as [Hb [Hd _]%Forall_cons].
  rewrite length_app, Nat.add_1_r, seq_S, foldl_app, of_digits_snoc. cbn [foldl].
  rewrite Nat.add_0_l, app_nth2, Nat.sub_diag by lia. cbn [nth].
  rewrite (foldl_ext_in _ (λ a j, Z.lor (Z.shiftl a 1) (nth j c 0))).
  2:{ intros a j [_ Hj]%elem_of_seq. by rewrite app_nth1 by lia. }
  rewrite IH by done. rewrite Z.lor_comm, lor_shiftl_add by lia. lia.
Qed.

Lemma wordIdx_head blk rest :
  length blk = 11%nat → binary blk → wordIdx (blk ++ rest) 0 = of_digits 2 blk.
Proof.
  intros Hl Hb. unfold wordIdx. rewrite <-(fold_bits blk Hb), Hl.
  apply foldl_ext_in. intros a j [_ Hj]%elem_of_seq. by rewrite app_nth1 by lia.
Qed.

Lemma wordIdx_tail blk rest i :
  length blk = 11%nat → wordIdx (blk ++ rest) (S i) = wordIdx rest i.
Proof.
  intros Hl. unfold wordIdx. apply foldl_ext_in. intros a j [_ Hj]%elem_of_seq.
  rewrite app_nth2 by lia. do 2 f_equal. lia.
Qed.

Lemma wordIdx_blocks vs :
  digits_ok (2 ^ 11) vs →
  map (wordIdx (concat (map (to_digits 2 11) vs))) (seq 0 (length vs)) = vs.
Proof.
  induction 1 as [|v vs Hv _ IH]; [done|]. cbn [map concat length seq].
  assert (length (to_digits 2 11 v) = 11%nat) as Hl by apply length_to_digits.
  rewrite wordIdx_head by (done || by apply to_digits_ok).
  rewrite of_to_digits by (done || lia). f_equal.
  rewrite <-seq_shift, map_map. etransitivity; [|exact IH]. apply map_ext. intros i.
  by apply wordIdx_tail.
Qed.

Lemma lookupWords_spec w bits ixs m :
  lookupWords w bits ixs = Ok m ↔ Forall2 (λ i x, Word w i = Ok x) (map (wordIdx bits) ixs) m.
Proof.
  revert m. induction ixs as [|i ixs IH]; intros m; cbn [lookupWords map].
  - split; [intros <-%Ok_inj; constructor|]. by inversion 1.
  - destruct (Word w (wordIdx bits i)) as [x|] eqn:E; cbn [mbind result_bind].
    + destruct (lookupWords w bits ixs) as [m'|] eqn:E'; cbn [mbind result_bind]; split.
      * intros <-%Ok_inj. constructor; [done|]. by apply IH.
      * inversion 1 as [|? ? ? ? H1 H2]; subst. rewrite E in H1. apply Ok_inj in H1 as ->.
        apply IH in H2. by apply Ok_inj in H2 as ->.
      * done.
      * inversion 1 as [|? ? ? ? H1 H2]; subst. by apply IH in H2.
    + split; [done|]. inversion 1 as [|? ? ? ? H1 H2]; subst. by rewrite E in H1.
Qed.

Lemma mnemonicBits_spec w m bits :
  mnemonicBits w m = Ok bits ↔
  ∃ vs, Forall2 (λ i x, Index w x = Ok i) vs m ∧ bits = concat (map (to_digits 2 11) vs).
Proof.
  revert bits. induction m as [|x m IH]; intros bits; cbn [mnemonicBits].
  - split; [intros <-%Ok_inj; by exists []|]. intros (vs & H & ->). by inversion H.
  - destruct (Index w x) as [i|] eqn:E; cbn [wrapping mbind result_bind].
    + destruct (mnemonicBits w m) as [b|] eqn:E'; cbn [mbind result_bind]; split.
      * intros <-%Ok_inj. destruct (proj1 (IH b) eq_refl) as (vs & H & ->).
        exists (i :: vs). split; [by constructor|]. cbn [map concat]. by rewrite bits_down_digits.
      * intros (vs & H & ->). inversion H as [|? ? vs' ? H1 H2]; subst. rewrite E in H1.
        apply Ok_inj in H1 as ->. cbn [map concat]. rewrite bits_down_digits. do 2 f_equal.
        assert (Ok b = Ok (concat (map (to_digits 2 11) vs'))) as ->%Ok_inj; [|done].
        apply IH. by exists vs'.
      * done.
      * intros (vs & H & ->). inversion H as [|? ? vs' ? H1 H2]; subst.
        assert (Err e = Ok (concat (map (to_digits 2 11) vs'))); [|done]. apply IH. by exists vs'.
    + split; [done|]. intros (vs & H & _). inversion H as [|? ? vs' ? H1 H2]; subst.
      by rewrite E in H1.
Qed.

(** ** The byte loop *)

Lemma pack_step bits e1 x z t :
  (t < 8)%nat →
  let i := (8 * length e1 + t)%nat in
  <[(i / 8)%nat := Z.lor (nth (i / 8) (e1 ++ x :: z) 0)
                     (wrap 8 (Z.shiftl (nth i bits 0) (7 - Z.of_nat (i mod 8))))]> (e1 ++ x :: z) =
  e1 ++ Z.lor x (wrap 8 (Z.shiftl (nth i bits 0) (7 - Z.of_nat t))) :: z.
Proof.
  intros Ht i.
  assert (i / 8 = length e1)%nat as -> by (unfold i; rewrite Nat.mul_comm, Nat.div_add_l, Nat.div_small; lia).
  assert (i mod 8 = t)%nat as -> by (unfold i; rewrite Nat.add_comm, Nat.mul_comm, Nat.Div0.mod_add, Nat.mod_small; lia).
  rewrite app_nth2, Nat.sub_diag by lia. cbn [nth].
  rewrite <-(Nat.add_0_r (length e1)) at 1. by rewrite insert_app_r.
Qed.

Definition pack_digits (ds : list Z) : Z :=
  foldl (λ x t, Z.lor x (wrap 8 (Z.shiftl (nth t ds 0) (7 - Z.of_nat t)))) 0 (seq 0 8).

Lemma pack_digits_byte b : byte_ok b → pack_digits (to_digits 2 8 b) = b.
Proof.
  intros Hb. apply Z.eqb_eq.
  apply (forallb_words 256 (λ b, pack_digits (to_digits 2 8 b) =? b)); [by vm_compute|].
  unfold byte_ok in Hb. word_lia.
Qed.

Lemma pack_block bits e1 z n x ds :
  (n ≤ 8)%nat → (∀ t, (t < 8)%nat → nth (8 * length e1 + t) bits 0 = nth t ds 0) →
  foldl (λ ent i,
      <[(i / 8)%nat := Z.lor (nth (i / 8) ent 0)
                       (wrap 8 (Z.shiftl (nth i bits 0) (7 - Z.of_nat (i mod 8))))]> ent)
    (e1 ++ x :: z) (seq (8 * length e1) n) =
  e1 ++ foldl (λ x t, Z.lor x (wrap 8 (Z.shiftl (nth t ds 0) (7 - Z.of_nat t)))) x (seq 0 n) :: z.
Proof.
  intros Hn Hds. induction n as [|n IH]; [done|].
  rewrite !seq_S, !foldl_app, IH by lia. cbn [foldl].
  etransitivity; [apply pack_step; lia|]. by rewrite Hds by lia.
Qed.

Lemma packBits_blocks e rest :
  bytes_ok e →
  packBits (concat (map (to_digits 2 8) e) ++ rest) (8 * length e) = e.
Proof.
  intros He. unfold packBits. rewrite Nat.mul_comm, Nat.div_mul, Nat.mul_comm by done.
  set (bits := concat (map (to_digits 2 8) e) ++ rest).
  assert (∀ e1 e2, e = e1 ++ e2 →
    foldl (λ ent i,
        <[(i / 8)%nat := Z.lor (nth (i / 8) ent 0)
                         (wrap 8 (Z.shiftl (nth i bits 0) (7 - Z.of_nat (i mod 8))))]> ent)
      (replicate (length e) 0) (seq 0 (8 * length e1)) = e1 ++ replicate (length e2) 0) as H.
  2:{ rewrite (H e []) by (by rewrite app_nil_r). by rewrite app_nil_r. }
  induction e1 as [|b e1 IH] using rev_ind; intros e2 E.
  - by rewrite E.
  - rewrite <-app_assoc in E. cbn [app] in E. rewrite length_app. cbn [length].
    replace (8 * (length e1 + 1))%nat with (8 * length e1 + 8)%nat by lia.
    rewrite seq_app, foldl_app, (IH (b :: e2)) by done. cbn [length replicate].
    rewrite Nat.add_0_l, (pack_block _ _ _ _ _ (to_digits 2 8 b)); [|lia|].
    + fold (pack_digits (to_digits 2 8 b)). rewrite pack_digits_byte; [by rewrite <-app_assoc|].
      rewrite E in He. by apply Forall_app in He as [_ [? _]%Forall_cons].
    + intros t Ht. unfold bits. rewrite E, map_app, concat_app. cbn [map concat].
      rewrite <-!app_assoc, app_nth2; rewrite length_blocks; [|lia].
      replace (8 * length e1 + t - 8 * length e1)%nat with t by lia.
      rewrite app_nth1; [done|]. rewrite length_to_digits. lia.
Qed.

(** ** The checksum *)

Lemma bits_down_high k c :
  (4 ≤ k ≤ 8)%nat →
  bits_down 7 (8 - k) c = map (λ i, Z.land (Z.shiftr c (7 - Z.of_nat i)) 1) (seq 0 k).
Proof.
  intros Hk. assert (k = 4 ∨ k = 5 ∨ k = 6 ∨ k = 7 ∨ k = 8)%nat as Hc by lia.
  destruct_or! Hc; subst k; reflexivity.
Qed.

Lemma eq_map_seq (f : nat → Z) k l :
  length l = k → l = map f (seq 0 k) ↔ ∀ i, (i < k)%nat → nth i l 0 = f i.
Proof.
  intros Hl. split.
  - intros -> i Hi. rewrite (nth_indep _ 0 (f 0%nat)) by (rewrite length_map, length_seq; lia).
    by rewrite map_nth, seq_nth.
  - intros H. apply (nth_ext _ _ 0 (f 0%nat)); [by rewrite length_map, length_seq|].
    intros i Hi. by rewrite map_nth, seq_nth, H by lia.
Qed.

Lemma checksum_check k bits c :
  (4 ≤ k ≤ 8)%nat → length bits = (33 * k)%nat →
  forallb (λ i, nth (32 * k + i) bits 0 =? Z.land (Z.shiftr c (7 - Z.of_nat i)) 1) (seq 0 k) = true
  ↔ drop (32 * k) bits = bits_down 7 (8 - k) c.
Proof.
  intros Hk Hl. rewrite bits_down_high, eq_map_seq, forallb_forall by (rewrite ?length_drop; lia).
  assert (∀ i, nth (32 * k + i) bits 0 = nth i (drop (32 * k) bits) 0) as Hn.
  { intros i. rewrite <-(take_drop (32 * k) bits) at 1. rewrite app_nth2;
      rewrite length_take; [f_equal; lia|lia]. }
  split.
  - intros H i Hi. rewrite <-Hn. apply Z.eqb_eq, H, in_seq. lia.
  - intros H i Hi%in_seq. apply Z.eqb_eq. rewrite Hn. apply H. lia.
Qed.

(** * Mnemonics and entropy correspond *)

Lemma Entropy_Validate_ok e :
  Entropy_Validate e = Ok () ↔ ∃ k, (4 ≤ k ≤ 8)%nat ∧ length e = (4 * k)%nat.
Proof.
  unfold Entropy_Validate, validEntropyBits. cbn [existsb]. split.
  - case_if; [|done]. intros _. exists (length e / 4)%nat.
    assert (length e = 16 ∨ length e = 20 ∨ length e = 24 ∨ length e = 28 ∨ length e = 32)%nat
      as Hc by lia. destruct_or! Hc; rewrite Hc; cbn; lia.
  - intros (k & Hk & ->). by if_lia.
Qed.

Lemma validCounts_ok n : validCounts n = true ↔ ∃ k, (4 ≤ k ≤ 8)%nat ∧ n = (3 * k)%nat.
Proof.
  unfold validCounts. cbn [existsb]. rewrite !orb_true_iff, !Nat.eqb_eq. split.
  - intros H. exists (n / 3)%nat. destruct_or! H; subst; cbn; try lia; done.
  - intros (k & Hk & ->). lia.
Qed.

Lemma entropyBits_blocks e k :
  entropyBits e k = concat (map (to_digits 2 8) e) ++ bits_down 7 (8 - k) (nth 0 (Sum256 e) 0).
Proof.
  unfold entropyBits. f_equal. f_equal. apply map_ext. intros b. apply bits_down_digits.
Qed.

#[local] Opaque Sum256.

(** The two conversions with their size arithmetic resolved: [4 k] bytes,
    [3 k] words, a [k]-bit checksum. *)
Lemma EntropyToMnemonic_sized e w k :
  (4 ≤ k ≤ 8)%nat → length e = (4 * k)%nat →
  EntropyToMnemonic e (Some w) = lookupWords w (entropyBits e k) (seq 0 (3 * k)).
Proof.
  intros Hk Hl. unfold EntropyToMnemonic.
  rewrite (proj2 (Entropy_Validate_ok e)) by eauto. cbn [mbind result_bind]. rewrite Hl.
  assert (k = 4 ∨ k = 5 ∨ k = 6 ∨ k = 7 ∨ k = 8)%nat as Hc by lia.
  destruct_or! Hc; subst k; reflexivity.
Qed.

Lemma MnemonicToEntropy_sized m w k :
  (4 ≤ k ≤ 8)%nat → length m = (3 * k)%nat →
  MnemonicToEntropy m (Some w) =
    (bits ← mnemonicBits w m;
     let e := packBits bits (32 * k) in
     if forallb (λ i, nth (32 * k + i) bits 0 =?
                      Z.land (Z.shiftr (nth 0 (Sum256 e) 0) (7 - Z.of_nat i)) 1) (seq 0 k)
     then Ok e
     else Err (Sentinel "lightning: mnemonic checksum mismatch; check for transcription errors")).
Proof.
  intros Hk Hl. unfold MnemonicToEntropy.
  rewrite bool_decide_eq_false_2 by (intros ->; cbn in Hl; lia).
  rewrite (proj2 (validCounts_ok _)) by eauto. cbn [negb]. rewrite Hl.
  assert (3 * k * 11 / 33 = k)%nat as ->
    by (replace (3 * k * 11)%nat with (k * 33)%nat by lia; by apply Nat.div_mul).
  by replace (3 * k * 11 - k)%nat with (32 * k)%nat by lia.
Qed.

Lemma entropyBits_shape e k :
  (4 ≤ k ≤ 8)%nat → length e = (4 * k)%nat →
  binary (entropyBits e k) ∧ length (entropyBits e k) = (33 * k)%nat.
Proof.
  intros Hk Hl. rewrite entropyBits_blocks, bits_down_high by done. split.
  - apply Forall_app. split; [apply blocks_binary|]. apply Forall_map, Forall_true. intros i.
    change 1 with (Z.ones 1).
    rewrite Z.land_ones by lia. by apply Z.mod_pos_bound.
  - rewrite length_app, length_blocks, length_map, length_seq. lia.
Qed.

(** The words of a bit buffer, and back. *)
Lemma words_bits w `{!LawfulWordList w} bits n m :
  binary bits → length bits = (11 * n)%nat →
  lookupWords w bits (seq 0 n) = Ok m ↔ mnemonicBits w m = Ok bits ∧ length m = n.
Proof.
  intros Hb Hl. destruct (binary_blocks 11 n bits Hb Hl) as (vs & Hn & Hvs & ->).
  rewrite lookupWords_spec, mnemonicBits_spec, <-Hn, wordIdx_blocks by done. split.
  - intros H. split; [|by rewrite <-(Forall2_length _ _ _ H)]. exists vs. split; [|done].
    eapply Forall2_impl; [exact H|]. intros i x Hx. by apply Word_Index.
  - intros [(us & H & E) Hlen].
    assert (us = vs) as ->.
    { assert (digits_ok (2 ^ 11) us) as Hus.
      { eapply Forall2_Forall_l; [exact H|]. apply Forall_true. intros x i Hx.
        apply Word_Index in Hx; [|done]. by apply Word_range in Hx. }
      rewrite <-(wordIdx_blocks us), <-(wordIdx_blocks vs), E by done.
      f_equal. f_equal. rewrite (Forall2_length _ _ _ H). lia. }
    eapply Forall2_impl; [exact H|]. intros i x Hx. by apply Word_Index.
Qed.

Lemma entropy_mnemonic_entropy w `{!LawfulWordList w} e m k :
  (4 ≤ k ≤ 8)%nat → length e = (4 * k)%nat → bytes_ok e →
  EntropyToMnemonic e (Some w) = Ok m → MnemonicToEntropy m (Some w) = Ok e ∧ length m = (3 * k)%nat.
Proof.
  intros Hk Hl He. rewrite (EntropyToMnemonic_sized e w k) by done.
  destruct (entropyBits_shape e k Hk Hl) as [Hb Hlen].
  rewrite words_bits by (done || lia). intros [Hm Hml]. split; [|done].
  rewrite (MnemonicToEntropy_sized m w k), Hm by done. cbn [mbind result_bind].
  assert (packBits (entropyBits e k) (32 * k) = e) as Hp.
  { rewrite entropyBits_blocks. replace (32 * k)%nat with (8 * length e)%nat by lia.
    by apply packBits_blocks. }
  rewrite Hp, (proj2 (checksum_check k _ _ Hk Hlen)); [done|].
  rewrite entropyBits_blocks. replace (32 * k)%nat with (length (concat (map (to_digits 2 8) e))).
  - by rewrite drop_app_length.
  - rewrite length_blocks. lia.
Qed.

Lemma mnemonic_entropy_mnemonic w `{!LawfulWordList w} m e :
  MnemonicToEntropy m (Some w) = Ok e → bytes_ok e ∧ EntropyToMnemonic e (Some w) = Ok m.
Proof.
  intros H. assert (∃ k, (4 ≤ k ≤ 8)%nat ∧ length m = (3 * k)%nat) as (k & Hk & Hm).
  { revert H. unfold MnemonicToEntropy. case_if; [done|].
    destruct (validCounts (length m)) eqn:E; [|done]. intros _. by apply validCounts_ok. }
  rewrite (MnemonicToEntropy_sized m w k) in H by done.
  destruct (mnemonicBits w m) as [bits|] eqn:Eb; [|done]. cbn [mbind result_bind] in H.
  assert (binary bits ∧ length bits = (33 * k)%nat) as [Hb Hlen].
  { apply mnemonicBits_spec in Eb as (vs & Hvs & ->). split; [apply blocks_binary|].
    rewrite length_blocks, (Forall2_length _ _ _ Hvs). lia. }
  destruct (binary_blocks 8 (4 * k) (take (32 * k) bits)) as (e' & Hel & Hbytes & Htake);
    [by apply Forall_take|rewrite length_take; lia|].
  assert (packBits bits (32 * k) = e') as Hp.
  { rewrite <-(take_drop (32 * k) bits), Htake.
    replace (32 * k)%nat with (8 * length e')%nat at 2 by lia. by apply packBits_blocks. }
  rewrite Hp in H. destruct (forallb _ _) eqn:Ec; [|done]. apply Ok_inj in H as ->.
  apply (checksum_check k _ _ Hk Hlen) in Ec. split; [done|].
  rewrite (EntropyToMnemonic_sized e w k), entropyBits_blocks, <-Ec, <-Htake, take_drop by done.
  apply words_bits; [done|done|lia|done].
Qed.

(** C16. Mnemonics are a faithful backup.  With any word list [NewWordList]
    accepts, every entropy of a permitted size has a mnemonic of three words
    per four bytes that recovers exactly that entropy; and a mnemonic is
    accepted only if it is the one its entropy encodes to, so two different
    accepted mnemonics never stand for the same wallet. *)
Theorem mnemonic_backup ws w :
  NewWordList ws = Ok w →
  (∀ e, bytes_ok e → validEntropyBits (Z.of_nat (length e) * 8) = true →
     ∃ m, EntropyToMnemonic e (Some w) = Ok m ∧ (4 * length m = 3 * length e)%nat ∧
          MnemonicToEntropy m (Some w) = Ok e) ∧
  (∀ m e, MnemonicToEntropy m (Some w) = Ok e →
     bytes_ok e ∧ EntropyToMnemonic e (Some w) = Ok m).
Proof.
  intros Hw. assert (LawfulWordList w) as Hlaw by (apply (NewWordList_lawful ws w); by rewrite Hw).
  split; [|apply mnemonic_entropy_mnemonic, _].
  intros e He Hv.
  assert (∃ k, (4 ≤ k ≤ 8)%nat ∧ length e = (4 * k)%nat) as (k & Hk & Hl).
  { apply Entropy_Validate_ok. unfold Entropy_Validate. by rewrite Hv. }
  destruct (entropyBits_shape e k Hk Hl) as [Hb Hlen].
  assert (∃ m, EntropyToMnemonic e (Some w) = Ok m) as [m Hm].
  { rewrite (EntropyToMnemonic_sized e w k) by done.
    destruct (binary_blocks 11 (3 * k) (entropyBits e k) Hb) as (vs & Hn & Hvs & E); [lia|].
    assert (∃ m, Forall2 (λ i x, Word w i = Ok x) vs m) as [m Hm].
    { clear -Hvs Hlaw. induction Hvs as [|v vs Hv _ [m Hm]]; [by exists []|].
      destruct (Word_total w v Hv) as [x Hx]. exists (x :: m). by constructor. }
    exists m. apply lookupWords_spec. rewrite E, <-Hn, wordIdx_blocks by done. done. }
  destruct (entropy_mnemonic_entropy w e m k Hk Hl He Hm) as [H1 H2].
  exists m. split; [done|]. split; [lia|done].
Qed.

(** Two-byte words over 64 printable characters. *)
Definition demo_words : list (list Z) :=
  map (λ i, [33 + Z.of_nat i / 64; 33 + Z.of_nat i mod 64]) (seq 0 (2 * 1024)).
Definition demo_wordlist : WordList :=
  match NewWordList demo_words with Ok w => w | Err _ => {| words := []; wordIndex := ∅ |} end.

Lemma mnemonic_backup_witness :
  ∃ m, EntropyToMnemonic (seqZ 100 16) (Some demo_wordlist) = Ok m ∧ length m = 12%nat ∧
    MnemonicToEntropy m (Some demo_wordlist) = Ok (seqZ 100 16).
Proof.
  destruct (proj1 (mnemonic_backup demo_words demo_wordlist ltac:(vm_cast_no_check (eq_refl (Ok demo_wordlist))))
    (seqZ 100 16) ltac:(decide_vm) eq_refl) as (m & H1 & H2 & H3).
  exists m. split; [exact H1|]. split; [|exact H3]. change (length (seqZ 100 16)) with 16%nat in H2. lia.
Defined.
