(* ===== verification/Wallet.v ===== *)
(** * internal/lightning/seedstore.go and wallet.go

    Encryption of the seed at rest, its file format, and the wallet manager
    over a data directory.  The directory is a map from file names to files;
    every system call may fail, as the [env] of a call says, and an operation
    returns the directory states it went through, so that a crash after any
    of them can be discussed.  The cryptographic primitives are parameters
    ([SeedCrypto]); their documented behaviour is [SeedCryptoLaws]. *)
From S2P Require Import Prelude.
From S2P Require Import Json.
From S2P Require Import Wire.
From S2P Require Import Seed.

Open Scope Z_scope.

(** scrypt and pbkdf2 of golang.org/x/crypto; AES-256-GCM of crypto/cipher. *)
Class SeedCrypto := {
  scrypt_Key : list Z → list Z → Z → Z → Z → nat → result (list Z);
  gcm_Seal : list Z → list Z → list Z → list Z;
  gcm_Open : list Z → list Z → list Z → option (list Z);
  pbkdf2_Key : list Z → list Z → Z → nat → list Z;
}.

(** scrypt with valid parameters returns a key of the requested length; opening
    what was sealed under the same key and nonce gives the plaintext; the tag
    adds 16 bytes. *)
Class SeedCryptoLaws `{SeedCrypto} : Prop := {
  scrypt_total : ∀ p s, ∃ k, scrypt_Key p s (2 ^ 17) 8 1 32 = Ok k ∧ length k = 32%nat;
  gcm_open_seal : ∀ k n p, gcm_Open k n (gcm_Seal k n p) = Some p;
  gcm_overhead : ∀ k n p, length (gcm_Seal k n p) = (length p + 16)%nat;
}.

Definition ErrWrongPassphrase : error :=
  Sentinel "lightning: decryption failed (wrong passphrase or corrupted file)".

Record EncryptedSeed := {
  es_Version : Z; es_Salt : list Z; es_Nonce : list Z; es_Ciphertext : list Z
}.

Definition currentEncryptedSeedVersion : Z := 0x01.
Definition scryptN : Z := 2 ^ 17.
Definition scryptR : Z := 8.
Definition scryptP : Z := 1.

(** [aes.NewCipher] accepts the three AES key sizes. *)
Definition aes_NewCipher (key : list Z) : result (list Z) :=
  if existsb (Nat.eqb (length key)) [16; 24; 32]%nat then Ok key
  else Err (Sentinel "crypto/aes: invalid key size").

Section Store.
Context `{SeedCrypto}.

Definition deriveKey (passphrase salt : list Z) : result (list Z) :=
  key ← wrapping "lightning: scrypt derivation failed: %w"
          (scrypt_Key passphrase salt scryptN scryptR scryptP 32);
  wrapping "lightning: aes init failed: %w" (aes_NewCipher key).

(** A computation that does not read. *)
Definition rd_lift {R A} (c : result A) : rdm R A := λ r, (c, r).

Definition EncryptSeed `{Reader R} (s passphrase : list Z) : rdm R EncryptedSeed :=
  if bool_decide (passphrase = []) then rd_fail (Sentinel "lightning: passphrase must not be empty")
  else
    salt ← rd_wrap "lightning: salt generation failed: %w" (ReadFull 16);
    nonce ← rd_wrap "lightning: nonce generation failed: %w" (ReadFull 12);
    key ← rd_lift (deriveKey passphrase salt);
    mret {| es_Version := currentEncryptedSeedVersion; es_Salt := salt; es_Nonce := nonce;
            es_Ciphertext := gcm_Seal key nonce s |}.

Definition DecryptSeed (es : EncryptedSeed) (passphrase : list Z) : result (list Z) :=
  if negb (es_Version es =? currentEncryptedSeedVersion)
  then Err (Errorf "lightning: unsupported EncryptedSeed version %d" [es_Version es])
  else if bool_decide (es_Ciphertext es = [])
  then Err (Sentinel "lightning: EncryptedSeed has empty ciphertext")
  else
    key ← deriveKey passphrase (es_Salt es);
    match gcm_Open key (es_Nonce es) (es_Ciphertext es) with
    | None => Err ErrWrongPassphrase
    | Some plaintext =>
        if negb (length plaintext =? 64)%nat
        then Err (Errorf "lightning: decrypted seed is %d bytes, want 64" [Z.of_nat (length plaintext)])
        else Ok plaintext
    end.

Definition Marshal (es : EncryptedSeed) : result (list Z) :=
  if negb (es_Version es =? currentEncryptedSeedVersion)
  then Err (Errorf "lightning: Marshal: unsupported version %d" [es_Version es])
  else Ok (es_Version es :: es_Salt es ++ es_Nonce es ++ es_Ciphertext es).

Definition seedMinLen : Z := 1 + 16 + 12.
Definition seedMaxLen : Z := 4 * 1024.
Definition UnmarshalEncryptedSeed (b : list Z) : result EncryptedSeed :=
  let n := Z.of_nat (length b) in
  if n <? seedMinLen
  then Err (Errorf "lightning: EncryptedSeed too short: %d bytes, need at least %d" [n; seedMinLen])
  else if seedMaxLen <? n
  then Err (Errorf "lightning: EncryptedSeed too large: %d bytes, need at most %d" [n; seedMaxLen])
  else
    let version := nth 0 b 0 in
    if negb (version =? currentEncryptedSeedVersion)
    then Err (Errorf "lightning: unsupported EncryptedSeed version %d" [version])
    else Ok {| es_Version := version; es_Salt := slice 1 17 b; es_Nonce := slice 17 29 b;
               es_Ciphertext := drop 29 b |}.

(** ** The data directory *)

Record file := { content : list Z; mtime : Z }.
Notation fs := (gmap string file).

Definition walletFile : string := "wallet.dat".
Definition fingerprintFile : string := "wallet.fingerprint".

(** The pattern [.wallet-*.tmp]. *)
Definition is_temp (name : string) : bool :=
  String.prefix ".wallet-" name &&
  String.prefix "pmt." (String.rev name) && (12 <=? String.length name)%nat.

(** Which system call of a save fails; a failing write stores a prefix. *)
Inductive save_fault :=
  NoFault | FailCreate | FailWrite (stored : nat) | FailSync | FailClose | FailChmod | FailRename.
#[export] Instance save_fault_eq_dec : EqDecision save_fault.
Proof. solve_decision. Defined.

(** What the operating system does during one call. *)
Record env := {
  mkdir_ok : bool; stat_ok : bool; read_ok : bool; fp_ok : bool;
  remove_ok : string → bool;
  now : Z; tmp : string; failing : save_fault
}.

Definition staleTempMaxAge : Z := 60 * 10 ^ 9.
Definition sweepStaleTempFiles (v : env) (d : fs) : fs :=
  filter (λ nf, is_temp nf.1 && (mtime nf.2 <? now v - staleTempMaxAge) && remove_ok v nf.1 = false) d.

(** The temporary file, the rename, and the error paths; the list is the
    directory after each system call. *)
Definition saveFile (v : env) (raw : list Z) (d : fs) : list fs * result unit :=
  let tmpf c := <[tmp v := {| content := c; mtime := now v |}]> in
  let removed := delete (tmp v) d in
  let created := tmpf [] d in
  let written := tmpf raw d in
  let renamed := <[walletFile := {| content := raw; mtime := now v |}]> removed in
  match failing v with
  | FailCreate => ([], Err (Sentinel "lightning: create temp wallet file: %w"))
  | FailWrite n =>
      ([created; tmpf (take n raw) d; removed], Err (Sentinel "lightning: write temp wallet file: %w"))
  | FailSync => ([created; written; removed], Err (Sentinel "lightning: sync temp wallet file: %w"))
  | FailClose => ([created; written; removed], Err (Sentinel "lightning: close temp wallet file: %w"))
  | FailChmod => ([created; written; removed], Err (Sentinel "lightning: chmod temp wallet file: %w"))
  | FailRename => ([created; written; removed], Err (Sentinel "lightning: rename wallet file: %w"))
  | NoFault => ([created; written; renamed], Ok ())
  end.

Definition save `{Reader R} (v : env) (seed passphrase : list Z) (d : fs) (r : R)
    : list fs * result unit * R :=
  match EncryptSeed seed passphrase r with
  | (Err e, r) => ([], Err (Wrapf "lightning: encrypt seed: %w" e), r)
  | (Ok es, r) =>
      match Marshal es with
      | Err e => ([], Err (Wrapf "lightning: marshal encrypted seed: %w" e), r)
      | Ok raw => (saveFile v raw d, r)
      end
  end.

Definition readWallet (v : env) (d : fs) : result (list Z) :=
  match d !! walletFile with
  | Some f => if read_ok v then Ok (content f) else Err (Sentinel "lightning: read wallet file: %w")
  | None => Err (Sentinel "lightning: read wallet file: %w")
  end.

(** The directory an operation leaves behind. *)
Definition final (d : fs) (hist : list fs) : fs := foldl (λ _ x, x) d hist.

Definition ChangePassphrase `{Reader R} (v : env) (old new : list Z) (d : fs) (r : R)
    : list fs * result unit * R :=
  if bool_decide (new = []) then ([], Err (Sentinel "lightning: new passphrase must not be empty"), r)
  else match readWallet v d with
  | Err e => ([], Err e, r)
  | Ok raw =>
      match UnmarshalEncryptedSeed raw with
      | Err e => ([], Err (Wrapf "lightning: unmarshal wallet: %w" e), r)
      | Ok es =>
          match DecryptSeed es old with
          | Err _ => ([], Err (Sentinel "lightning: incorrect old passphrase"), r)
          | Ok seed => save v seed new d r
          end
      end
  end.

(** ** The wallet manager *)

Record WalletManager := {
  wm_dataDir : list Z; wm_seed : list Z; wm_mnemonic : option Mnemonic; wm_wordList : WordList
}.
Definition IsNew (wm : WalletManager) : bool :=
  match wm_mnemonic wm with Some _ => true | None => false end.

Definition loadExisting (v : env) (passphrase : list Z) (d : fs) : result (list Z) :=
  raw ← readWallet v d;
  es ← wrapping "lightning: unmarshal wallet: %w" (UnmarshalEncryptedSeed raw);
  match DecryptSeed es passphrase with
  | Ok seed => Ok seed
  | Err _ => Err (Sentinel "lightning: wallet unlock failed - check your passphrase")
  end.

(** [os.WriteFile] of the fingerprint, best effort. *)
Definition writeFingerprint (v : env) (seed : list Z) (d : fs) : list fs :=
  if fp_ok v then [<[fingerprintFile := {| content := Fingerprint seed; mtime := now v |}]> d] else [].

Definition createNew `{Reader R} (v : env) (wl : WordList) (passphrase mnemonicPassphrase : list Z)
    (d : fs) (r : R) : list fs * result (list Z * Mnemonic) * R :=
  match GenerateEntropy DefaultEntropyBits r with
  | (Err e, r) => ([], Err (Wrapf "lightning: generate entropy: %w" e), r)
  | (Ok entropy, r) =>
      match EntropyToMnemonic entropy (Some wl) with
      | Err e => ([], Err (Wrapf "lightning: entropy to mnemonic: %w" e), r)
      | Ok m =>
          let seed := MnemonicToSeed pbkdf2_Key m mnemonicPassphrase in
          match save v seed passphrase d r with
          | (hist, Err e, r) => (hist, Err e, r)
          | (hist, Ok _, r) => (hist ++ writeFingerprint v seed (final d hist), Ok (seed, m), r)
          end
      end
  end.

Definition NewWalletManager `{Reader R} (v : env) (dataDir passphrase : list Z)
    (wordList : option WordList) (mnemonicPassphrase : list Z) (d : fs) (r : R)
    : list fs * result WalletManager * R :=
  if bool_decide (dataDir = []) then ([], Err (Sentinel "lightning: dataDir must not be empty"), r)
  else if bool_decide (passphrase = [])
  then ([], Err (Sentinel "lightning: passphrase must not be empty"), r)
  else match wordList with
  | None => ([], Err (Sentinel "lightning: wordList must not be nil"), r)
  | Some wl =>
      if negb (mkdir_ok v) then ([], Err (Sentinel "lightning: create data dir %q: %w"), r)
      else
        let d := sweepStaleTempFiles v d in
        let mk seed m := {| wm_dataDir := dataDir; wm_seed := seed; wm_mnemonic := m; wm_wordList := wl |} in
        if negb (stat_ok v) then ([d], Err (Sentinel "lightning: stat wallet file: %w"), r)
        else match d !! walletFile with
        | None =>
            match createNew v wl passphrase mnemonicPassphrase d r with
            | (hist, Err e, r) => (d :: hist, Err e, r)
            | (hist, Ok (seed, m), r) => (d :: hist, Ok (mk seed (Some m)), r)
            end
        | Some _ =>
            match loadExisting v passphrase d with
            | Err e => ([d], Err e, r)
            | Ok seed =>
                let hist := match d !! fingerprintFile with
                            | None => writeFingerprint v seed d
                            | Some _ => []
                            end in
                (d :: hist, Ok (mk seed None), r)
            end
        end
  end.
End Store.

(** * The file format *)

(** Opening the bytes of a wallet file. *)
Definition unlock `{SeedCrypto} (raw passphrase : list Z) : result (list Z) :=
  es ← UnmarshalEncryptedSeed raw; DecryptSeed es passphrase.

Lemma ReadFull_length `{StreamReader R} n (r r' : R) bs :
  ReadFull n r = (Ok bs, r') → length bs = n.
Proof.
  destruct (ReadFull_spec n r) as (r'' & -> & _). unfold read_outcome. case_if; [|done].
  intros [= <- _]. rewrite length_take. apply Nat.leb_le in Heqb. lia.
Qed.

Section Laws.
Context {R : Type} `{HC : SeedCrypto, HL : !SeedCryptoLaws, HRd : Reader R, HS : !StreamReader R}.

Lemma deriveKey_total p s : ∃ k, deriveKey p s = Ok k.
Proof.
  destruct (scrypt_total p s) as (k & Hk & Hl). exists k. unfold deriveKey, scryptN, scryptR, scryptP.
  rewrite Hk. cbn [wrapping mbind result_bind]. unfold aes_NewCipher. by rewrite Hl.
Qed.

Lemma EncryptSeed_Ok s p (r r' : R) es :
  EncryptSeed s p r = (Ok es, r') →
  p ≠ [] ∧ es_Version es = 1 ∧ length (es_Salt es) = 16%nat ∧ length (es_Nonce es) = 12%nat ∧
  ∃ k, deriveKey p (es_Salt es) = Ok k ∧ es_Ciphertext es = gcm_Seal k (es_Nonce es) s.
Proof.
  unfold EncryptSeed. case_bool_decide as Hp; [done|]. unfold mbind, rdm_bind, rd_wrap, rd_lift.
  destruct (ReadFull 16 r) as [[salt|] r1] eqn:E1; [|done].
  destruct (ReadFull 12 r1) as [[nonce|] r2] eqn:E2; [|done].
  destruct (deriveKey_total p salt) as [k Hk]. rewrite Hk. unfold mret, rdm_ret.
  intros [= <- <-]. cbn. apply ReadFull_length in E1, E2. eauto 10.
Qed.

(** What EncryptSeed stores, Marshal and Unmarshal carry and DecryptSeed
    recovers. *)
Lemma stored_seed s p (r r' : R) es :
  length s = 64%nat → EncryptSeed s p r = (Ok es, r') →
  ∃ raw, Marshal es = Ok raw ∧ UnmarshalEncryptedSeed raw = Ok es ∧ unlock raw p = Ok s.
Proof.
  intros Hs He. destruct (EncryptSeed_Ok _ _ _ _ _ He) as (Hp & Hv & Hsl & Hnl & k & Hk & Hc).
  destruct es as [ver salt nonce ct]. cbn in *. subst ver ct.
  set (ct := gcm_Seal k nonce s). assert (length ct = 80%nat) as Hct.
  { unfold ct. rewrite gcm_overhead. lia. }
  exists (1 :: salt ++ nonce ++ ct). unfold Marshal, currentEncryptedSeedVersion. cbn [es_Version].
  split; [done|].
  assert (UnmarshalEncryptedSeed (1 :: salt ++ nonce ++ ct) =
    Ok {| es_Version := 1; es_Salt := salt; es_Nonce := nonce; es_Ciphertext := ct |}) as Hu.
  { unfold UnmarshalEncryptedSeed, seedMinLen, seedMaxLen, currentEncryptedSeedVersion.
    cbn [length nth]. rewrite !length_app, Hsl, Hnl, Hct.
    change (Z.of_nat (S (16 + (12 + 80)))) with 109. cbn [Z.ltb Z.compare].
    do 2 f_equal; unfold slice.
    - change (take 16 (salt ++ nonce ++ ct) = salt). by rewrite take_app_exact.
    - change (take 12 (drop 16 (salt ++ nonce ++ ct)) = nonce).
      by rewrite drop_app_exact, take_app_exact.
    - change (drop 29 (1 :: salt ++ nonce ++ ct)) with (drop (16 + 12) (salt ++ nonce ++ ct)).
      by rewrite <-drop_drop, !drop_app_exact. }
  split; [exact Hu|]. unfold unlock. rewrite Hu. cbn [mbind result_bind].
  unfold DecryptSeed, currentEncryptedSeedVersion. cbn [es_Version es_Ciphertext es_Salt es_Nonce].
  rewrite Z.eqb_refl. cbn [negb].
  rewrite bool_decide_eq_false_2 by (intros E; rewrite E in Hct; done).
  rewrite Hk. cbn [mbind result_bind]. unfold ct. rewrite gcm_open_seal, Hs. done.
Qed.

(** ** Saving *)

Notation fs := (gmap string file).

Lemma is_temp_not_wallet t : is_temp t = true → t ≠ walletFile ∧ t ≠ fingerprintFile.
Proof. intros Ht. split; intros ->; done. Qed.

(** [os.CreateTemp] picks an unused name of the pattern. *)
Definition fresh_temp (v : env) (d : fs) : Prop := is_temp (tmp v) = true ∧ d !! tmp v = None.

(** Every state a save goes through has the old wallet file or the complete new
    one; it ends with the new one iff it succeeds, and leaves no temporary. *)
Lemma saveFile_atomic v raw (d : fs) hist res :
  fresh_temp v d → saveFile v raw d = (hist, res) →
  Forall (λ d', d' !! walletFile = d !! walletFile ∨
                d' !! walletFile = Some {| content := raw; mtime := now v |}) hist ∧
  match res with
  | Ok _ => final d hist !! walletFile = Some {| content := raw; mtime := now v |}
  | Err _ => final d hist = d
  end ∧ final d hist !! tmp v = None ∧
  (∀ n, n ≠ walletFile → n ≠ tmp v → final d hist !! n = d !! n).
Proof.
  intros [Ht Hn] E. destruct (is_temp_not_wallet _ Ht) as [Hw _].
  assert (delete (tmp v) d = d) as Hdel by (by apply delete_id).
  unfold saveFile in E. rewrite Hdel in E. unfold final.
  destruct (failing v); injection E as <- <-; cbn [foldl];
    (split; [repeat (apply Forall_cons; split; [|]); try apply Forall_nil; try done;
             rewrite ?lookup_insert_eq, ?lookup_insert_ne by done; auto|]);
    try (split; [done|split; done]).
  rewrite lookup_insert_eq. split; [done|]. split; [by rewrite lookup_insert_ne|].
  intros n H1 H2. by rewrite lookup_insert_ne.
Qed.

Lemma save_atomic v seed p (d : fs) (r r' : R) hist res :
  length seed = 64%nat → fresh_temp v d → save v seed p d r = (hist, res, r') →
  Forall (λ d', d' !! walletFile = d !! walletFile ∨
                ∃ f, d' !! walletFile = Some f ∧ unlock (content f) p = Ok seed) hist ∧
  match res with
  | Ok _ => ∃ f, final d hist !! walletFile = Some f ∧ unlock (content f) p = Ok seed
  | Err _ => final d hist = d
  end ∧ final d hist !! tmp v = None ∧
  (∀ n, n ≠ walletFile → n ≠ tmp v → final d hist !! n = d !! n).
Proof.
  intros Hs Ht. unfold save. destruct (EncryptSeed seed p r) as [[es|e] r1] eqn:E.
  2:{ intros [= <- <- <-]. destruct Ht as [_ Hn]. unfold final. cbn [foldl]. done. }
  destruct (stored_seed _ _ _ _ _ Hs E) as (raw & -> & _ & Hu).
  destruct (saveFile v raw d) as [hist' res'] eqn:Es. intros [= <- <- <-].
  destruct (saveFile_atomic _ _ _ _ _ Ht Es) as (H1 & H2 & H3 & H4).
  split; [|split; [|done]].
  - eapply Forall_impl; [exact H1|]. intros d' [?| ->]; [by left|right]. by eexists.
  - destruct res'; [|done]. by eexists.
Qed.

Lemma unlock_length raw p seed : unlock raw p = Ok seed → length seed = 64%nat.
Proof.
  unfold unlock. destruct (UnmarshalEncryptedSeed raw) as [es|]; [|done]. cbn [mbind result_bind].
  unfold DecryptSeed. do 2 (case_if; [done|]). destruct (deriveKey p (es_Salt es)); [|done].
  cbn [mbind result_bind]. destruct (gcm_Open _ _ _) as [pt|]; [|done].
  destruct (length pt =? 64)%nat eqn:E; [|done]. intros <-%Ok_inj. by apply Nat.eqb_eq.
Qed.

Lemma EncryptSeed_total s p (r : R) :
  p ≠ [] → (28 ≤ length (stream r))%nat → ∃ es r', EncryptSeed s p r = (Ok es, r').
Proof.
  intros Hp Hr. unfold EncryptSeed. rewrite bool_decide_eq_false_2 by done.
  unfold mbind, rdm_bind, rd_wrap, rd_lift, mret, rdm_ret.
  destruct (ReadFull_spec 16 r) as (r1 & -> & Hr1). destruct Hr1 as [Hs1 _]; [lia|].
  unfold read_outcome at 1. rewrite (proj2 (Nat.leb_le _ _)) by lia.
  destruct (ReadFull_spec 12 r1) as (r2 & -> & _).
  unfold read_outcome. rewrite Hs1, length_drop, (proj2 (Nat.leb_le _ _)) by lia.
  destruct (deriveKey_total p (take 16 (stream r))) as [k ->]. eauto.
Qed.

(** C14. Changing the passphrase cannot lose the wallet.  Whatever system call
    fails, and if the process dies after any of them, the wallet file on disk
    is either the old file untouched or a complete file that the new
    passphrase opens to the same seed; an error leaves the directory as it
    was, success leaves the new file; and it succeeds when nothing fails and
    the random source delivers. *)
Theorem passphrase_change_crash_safe v old new (d : fs) (r r' : R) hist res f seed :
  d !! walletFile = Some f → unlock (content f) old = Ok seed → fresh_temp v d →
  ChangePassphrase v old new d r = (hist, res, r') →
  (∀ d', d' ∈ hist → ∃ f', d' !! walletFile = Some f' ∧
     (f' = f ∨ unlock (content f') new = Ok seed)) ∧
  match res with
  | Ok _ => ∃ f', final d hist !! walletFile = Some f' ∧ unlock (content f') new = Ok seed
  | Err _ => final d hist = d
  end ∧
  (new ≠ [] → read_ok v = true → failing v = NoFault → (28 ≤ length (stream r))%nat →
   res = Ok ()).
Proof.
  intros Hf Hu Ht. pose proof (unlock_length _ _ _ Hu) as Hlen.
  unfold ChangePassphrase, readWallet. rewrite Hf. unfold unlock in Hu.
  destruct (UnmarshalEncryptedSeed (content f)) as [es|] eqn:Ees; [|done].
  cbn [mbind result_bind] in Hu. case_bool_decide as Hnew.
  { intros [= <- <- <-]. split; [set_solver|]. split; [done|]. done. }
  destruct (read_ok v).
  2:{ intros [= <- <- <-]. split; [set_solver|]. split; [done|]. done. }
  rewrite Ees, Hu. intros Hsv. destruct (save_atomic _ _ _ _ _ _ _ _ Hlen Ht Hsv) as (S1 & S2 & _).
  split; [|split; [done|]].
  - intros d' Hd'. rewrite Forall_forall in S1. destruct (S1 d' Hd') as [E|(f' & Hf' & Hu')].
    + exists f. rewrite E, Hf. auto.
    + exists f'. auto.
  - intros _ _ Hnf Hr. destruct (EncryptSeed_total seed new r Hnew Hr) as (es' & r1 & E).
    unfold save in Hsv. rewrite E in Hsv. destruct (stored_seed _ _ _ _ _ Hlen E) as (raw & Hm & _).
    rewrite Hm in Hsv. unfold saveFile in Hsv. rewrite Hnf in Hsv. by injection Hsv.
Qed.

(** ** Creation and reopening *)

Lemma sweep_keeps v (d : fs) n : is_temp n = false → sweepStaleTempFiles v d !! n = d !! n.
Proof.
  intros Hn. unfold sweepStaleTempFiles. rewrite map_lookup_filter.
  destruct (d !! n) as [f|]; [|done]. cbn [mbind option_bind].
  rewrite option_guard_True; [done|]. cbn [fst]. by rewrite Hn.
Qed.

Lemma writeFingerprint_keeps v seed (d d' : fs) :
  d' ∈ writeFingerprint v seed d → d' !! walletFile = d !! walletFile.
Proof.
  unfold writeFingerprint. case_if; [|set_solver]. intros ->%list_elem_of_singleton.
  by rewrite lookup_insert_ne.
Qed.

Lemma final_app (d : fs) h1 h2 : final d (h1 ++ h2) = final (final d h1) h2.
Proof. apply foldl_app. Qed.

Lemma createNew_spec v wl p mp (d : fs) (r r' : R) hist res :
  fresh_temp v d → createNew v wl p mp d r = (hist, res, r') →
  ∃ seed, Forall (λ d', d' !! walletFile = d !! walletFile ∨
                ∃ f, d' !! walletFile = Some f ∧ unlock (content f) p = Ok seed) hist ∧
  match res with
  | Ok (s, m) =>
      s = seed ∧ s = MnemonicToSeed pbkdf2_Key m mp ∧ length m = 24%nat ∧
      ∃ f, final d hist !! walletFile = Some f ∧ unlock (content f) p = Ok seed
  | Err _ => True
  end.
Proof.
  intros Ht. unfold createNew.
  destruct (GenerateEntropy DefaultEntropyBits r) as [[e|] r1] eqn:Eg.
  2:{ intros [= <- <- <-]. by exists []. }
  destruct (EntropyToMnemonic e (Some wl)) as [m|] eqn:Em.
  2:{ intros [= <- <- <-]. by exists []. }
  assert (length m = 24%nat) as Hm.
  { assert (length e = 32%nat) as He.
    { change (GenerateEntropy DefaultEntropyBits r) with
        (rd_wrap "lightning: entropy generation failed: %w" (ReadFull 32) r) in Eg.
      unfold rd_wrap in Eg. destruct (ReadFull 32 r) as [[bs|] r2] eqn:E; [|done].
      injection Eg as -> ->. by apply ReadFull_length in E. }
    rewrite (EntropyToMnemonic_sized e wl 8) in Em by lia.
    apply lookupWords_spec, Forall2_length in Em. by rewrite length_map, length_seq in Em. }
  set (seed := MnemonicToSeed pbkdf2_Key m mp). intros Hc. exists seed. revert Hc.
  assert (length seed = 64%nat) as Hs.
  { unfold seed, MnemonicToSeed. rewrite length_take, length_app, length_replicate. lia. }
  destruct (save v seed p d r1) as [[h rs] r2] eqn:Es.
  destruct (save_atomic _ _ _ _ _ _ _ _ Hs Ht Es) as (S1 & S2 & _).
  destruct rs as [[]|e0]; intros [= <- <- <-]; [|by split].
  destruct S2 as (f & Hf & Hu).
  assert (∀ d', d' ∈ writeFingerprint v seed (final d h) → d' !! walletFile = Some f) as Hfp.
  { intros d' Hd'. by rewrite (writeFingerprint_keeps _ _ _ _ Hd'). }
  split.
  - apply Forall_app. split; [done|]. apply Forall_forall. intros d' Hd'. right. exists f.
    split; [by apply Hfp|done].
  - split; [done|]. split; [done|]. split; [done|]. exists f. split; [|done]. rewrite final_app.
    unfold writeFingerprint in *. destruct (fp_ok v); [|done].
    apply Hfp. by apply list_elem_of_singleton.
Qed.

Lemma loadExisting_unlock v p (d : fs) f s :
  d !! walletFile = Some f →
  loadExisting v p d = Ok s ↔ read_ok v = true ∧ unlock (content f) p = Ok s.
Proof.
  intros Hf. unfold loadExisting, readWallet, unlock. rewrite Hf. destruct (read_ok v).
  2:{ split; [done|]. by intros [? _]. }
  cbn [mbind result_bind]. destruct (UnmarshalEncryptedSeed (content f)) as [es|].
  2:{ split; [done|]. by intros [_ ?]. }
  cbn [wrapping mbind result_bind]. destruct (DecryptSeed es p); naive_solver.
Qed.

Lemma open_existing v dir p wl mp (d : fs) (r : R) f seed :
  dir ≠ [] → p ≠ [] → mkdir_ok v = true → stat_ok v = true → read_ok v = true →
  d !! walletFile = Some f → unlock (content f) p = Ok seed →
  ∃ hist wm, NewWalletManager v dir p (Some wl) mp d r = (hist, Ok wm, r) ∧
    wm_seed wm = seed ∧ IsNew wm = false.
Proof.
  intros Hd Hp Hm Hs Hr Hf Hu. unfold NewWalletManager.
  rewrite !bool_decide_eq_false_2 by done. rewrite Hm, Hs. cbn [negb].
  assert (sweepStaleTempFiles v d !! walletFile = Some f) as Hsw by (by rewrite sweep_keeps).
  rewrite Hsw, (proj2 (loadExisting_unlock _ _ _ _ seed Hsw)) by done. by do 2 eexists.
Qed.

(** C15. A wallet survives restarts and is never overwritten.  If a wallet file
    exists, opening leaves it unchanged in every directory state on the way
    and yields the seed it unlocks to.  If none exists, every state on the way
    has no wallet file or a complete one; on success the manager holds a
    24-word mnemonic that derives the seed, and any later opening with the
    same passphrase, whatever options it passes, yields the same seed and is
    not a first run. *)
Theorem wallet_create_reopen v dir p wl mp (d : fs) (r r' : R) hist res :
  (d !! walletFile = None → fresh_temp v (sweepStaleTempFiles v d)) →
  NewWalletManager v dir p (Some wl) mp d r = (hist, res, r') →
  (∀ f, d !! walletFile = Some f →
     (∀ d', d' ∈ hist → d' !! walletFile = Some f) ∧
     (∀ wm, res = Ok wm → unlock (content f) p = Ok (wm_seed wm) ∧ IsNew wm = false)) ∧
  (d !! walletFile = None →
     ∃ seed, (∀ d', d' ∈ hist → d' !! walletFile = None ∨
                ∃ f, d' !! walletFile = Some f ∧ unlock (content f) p = Ok seed) ∧
     ∀ wm, res = Ok wm →
       wm_seed wm = seed ∧
       (∃ m, wm_mnemonic wm = Some m ∧ length m = 24%nat ∧ seed = MnemonicToSeed pbkdf2_Key m mp) ∧
       ∀ v2 wl2 mp2 (r2 : R), mkdir_ok v2 = true → stat_ok v2 = true → read_ok v2 = true →
         ∃ hist2 wm2, NewWalletManager v2 dir p (Some wl2) mp2 (final d hist) r2 = (hist2, Ok wm2, r2) ∧
           wm_seed wm2 = seed ∧ IsNew wm2 = false).
Proof.
  intros Ht. unfold NewWalletManager at 1.
  case_bool_decide as Hdir. { intros [= <- <- <-]. split; [set_solver|]. exists []. set_solver. }
  case_bool_decide as Hp. { intros [= <- <- <-]. split; [set_solver|]. exists []. set_solver. }
  destruct (mkdir_ok v); cbn [negb].
  2:{ intros [= <- <- <-]. split; [set_solver|]. exists []. set_solver. }
  assert (sweepStaleTempFiles v d !! walletFile = d !! walletFile) as Hsw by (by apply sweep_keeps).
  set (d1 := sweepStaleTempFiles v d) in *. rewrite Hsw.
  destruct (stat_ok v); cbn [negb].
  2:{ intros [= <- <- <-]. split; [intros f Hf|intros Hn; exists []];
        (split; [intros d' ->%list_elem_of_singleton; rewrite Hsw; auto|done]). }
  destruct (d !! walletFile) as [f|] eqn:Ef.
  - intros Hres. split; [|done]. intros f' [= <-].
    destruct (loadExisting v p d1) as [s|e] eqn:El; injection Hres as <- <- <-.
    2:{ split; [intros d' ->%list_elem_of_singleton; by rewrite Hsw|done]. }
    apply (loadExisting_unlock _ _ _ f) in El as [_ Hu]; [|done]. split.
    + intros d' [->|Hd']%elem_of_cons; [done|]. destruct (d1 !! fingerprintFile); [set_solver|].
      by rewrite (writeFingerprint_keeps _ _ _ _ Hd').
    + intros wm <-%Ok_inj. done.
  - intros Hres. split; [done|]. intros _.
    destruct (createNew v wl p mp d1 r) as [[h rs] r1] eqn:Ec.
    destruct (createNew_spec _ _ _ _ _ _ _ _ _ (Ht eq_refl) Ec) as (seed & Hall & Hrs).
    exists seed. assert (hist = d1 :: h) as -> by (by destruct rs as [[]|]; injection Hres).
    split.
    { intros d' [->|Hd']%elem_of_cons; [by left|]. rewrite Forall_forall in Hall.
      destruct (Hall d' Hd') as [->|]; [by left|by right]. }
    intros wm ->. destruct rs as [[s m]|]; [|done]. injection Hres as <- <-.
    destruct Hrs as (-> & Hm & Hl & f & Hf & Hu). split; [done|]. split; [by exists m|].
    intros v2 wl2 mp2 r2 H1 H2 H3. by apply (open_existing _ _ _ _ _ _ _ f).
Qed.
End Laws.

(** ** A concrete wallet *)

(** Toy primitives that satisfy the laws: the key is a prefix of the salted
    passphrase and the tag is the first half of the key. *)
Definition pad32 (l : list Z) : list Z := take 32 (l ++ replicate 32 0).
#[local] Instance toy_crypto : SeedCrypto := {|
  scrypt_Key p s _ _ _ _ := Ok (pad32 (p ++ s));
  gcm_Seal k _ pt := pt ++ take 16 (k ++ replicate 16 0);
  gcm_Open k _ ct :=
    let n := (length ct - 16)%nat in
    if bool_decide (drop n ct = take 16 (k ++ replicate 16 0)) then Some (take n ct) else None;
  pbkdf2_Key pw salt _ n := take n (pw ++ salt);
|}.
#[local] Instance toy_laws : SeedCryptoLaws.
Proof.
  assert (∀ k, length (take 16 (k ++ replicate 16 0)) = 16%nat) as Ht.
  { intros k. rewrite length_take, length_app, length_replicate. lia. }
  split.
  - intros p s. exists (pad32 (p ++ s)). split; [done|]. unfold pad32.
    rewrite length_take, length_app, length_replicate. lia.
  - intros k n p. cbn. rewrite length_app, Ht, Nat.add_sub, drop_app_length, take_app_length.
    by rewrite bool_decide_eq_true_2.
  - intros k n p. cbn [gcm_Seal toy_crypto]. by rewrite length_app, Ht.
Qed.

Definition demo_env (flt : save_fault) : env :=
  {| mkdir_ok := true; stat_ok := true; read_ok := true; fp_ok := true;
     remove_ok := λ _, true; now := 10 ^ 12; tmp := ".wallet-7.tmp"; failing := flt |}.
Definition demo_seed : list Z := seqZ 0 64.
Definition demo_salt : list Z := replicate 16 1.
Definition demo_raw (p : list Z) : list Z :=
  1 :: demo_salt ++ replicate 12 2 ++ gcm_Seal (pad32 (p ++ demo_salt)) (replicate 12 2) demo_seed.
Definition demo_dir (p : list Z) : gmap string file :=
  {[ walletFile := {| content := demo_raw p; mtime := 5 |} ]}.
Definition demo_rand (n : nat) : byteSliceReader := newByteReader (replicate n 3).

Lemma passphrase_change_crash_safe_witness :
  let old := bytes_of_string "old" in
  let new := bytes_of_string "new" in
  let '(hist, res, _) := ChangePassphrase (demo_env NoFault) old new (demo_dir old) (demo_rand 28) in
  res = Ok () ∧ length hist = 3%nat ∧
  ∃ f', final (demo_dir old) hist !! walletFile = Some f' ∧ unlock (content f') new = Ok demo_seed.
Proof.
  intros old new.
  pose proof (passphrase_change_crash_safe (demo_env NoFault) old new (demo_dir old) (demo_rand 28))
    as H.
  destruct (ChangePassphrase (demo_env NoFault) old new (demo_dir old) (demo_rand 28))
    as [[hist res] r'] eqn:E.
  assert (length hist = 3%nat) as Hl.
  { apply (f_equal (λ x, length x.1.1)) in E. cbn [fst] in E. rewrite <-E. vm_compute. reflexivity. }
  destruct (H r' hist res {| content := demo_raw old; mtime := 5 |} demo_seed) as (_ & H2 & H3).
  - reflexivity.
  - vm_compute. reflexivity.
  - split; [reflexivity|reflexivity].
  - reflexivity.
  - assert (res = Ok ()) as -> by (apply H3; [discriminate|reflexivity|reflexivity|vm_compute; lia]).
    split; [reflexivity|]. split; [exact Hl|exact H2].
Defined.

Lemma wallet_create_reopen_witness :
  let v := demo_env NoFault in
  let p := bytes_of_string "pass" in
  let '(hist, res, _) := NewWalletManager v [47] p (Some demo_wordlist) [] ∅ (demo_rand 60) in
  match res with
  | Ok wm =>
      ∃ hist2 wm2,
        NewWalletManager v [47] p (Some demo_wordlist) [] (final ∅ hist) (demo_rand 0) =
          (hist2, Ok wm2, demo_rand 0) ∧
        wm_seed wm2 = wm_seed wm ∧ IsNew wm2 = false
  | Err _ => False
  end.
Proof.
  intros v p.
  assert (is_ok (NewWalletManager v [47] p (Some demo_wordlist) [] ∅ (demo_rand 60)).1.2 = true) as Hok
    by (vm_compute; reflexivity).
  destruct (NewWalletManager v [47] p (Some demo_wordlist) [] ∅ (demo_rand 60)) as [[hist res] r'] eqn:E.
  cbn [fst snd] in Hok. destruct res as [wm|]; [|discriminate Hok].
  destruct (proj2 (wallet_create_reopen v [47] p demo_wordlist [] ∅ (demo_rand 60) r' hist (Ok wm)
    ltac:(split; reflexivity) E) eq_refl) as (seed & _ & H).
  destruct (H wm eq_refl) as (-> & _ & Hre). apply Hre; reflexivity.
Defined.
