(* ===== verification/StratumV2.v ===== *)
(** * internal/poolproto/stratumv2/dialer.go

    The Stratum V2 client: the handshake over the frame and message layers, the
    job assembler, the read loop and Submit.  The assembler is related to an
    abstract specification ([offered]) that keeps every job offered since the
    last tip, without the 64-entry bound. *)
From S2P Require Import Prelude.
From S2P Require Import Float64.
From S2P Require Import Json.
From S2P Require Import Text.
From S2P Require Import Poolproto.
From S2P Require Import Wire.
From S2P Require Import Frame.
From S2P Require Import Messages.

Open Scope Z_scope.

Definition parseJobID (s : list Z) : Z := wrap 32 (ParseUint 10 32 s).1.

(** ** Sending *)

(** [sendMsg]: the bytes written; the connection decides whether the write
    succeeds. *)
Definition sendMsg (write_ok : bool) (msgType : Z) (isChannel : bool) (enc : result (list Z))
    : result (list Z) :=
  payload ← enc;
  f ← WrapMessage msgType isChannel payload;
  data ← EncodeFrame f;
  if write_ok then Ok data else Err (Sentinel "net").

(** ** Dialing *)

(** [raw] is the transport, read through the reader interface. *)
Record connection (R : Type) := {
  raw : R; remoteAddr : list Z; conn_protocol : ProtocolID; conn_user : list Z
}.
Arguments raw {_} _.
Arguments remoteAddr {_} _.
Arguments conn_protocol {_} _.
Arguments conn_user {_} _.

Definition Dialer_Protocol (useTLS : bool) : ProtocolID :=
  if useTLS then ProtocolStratumV2TLS else ProtocolStratumV2.

Definition DeadlineExceeded : error := Sentinel "context deadline exceeded".

(** [dialFn] opens the transport: plain TCP, or verified TLS when [useTLS]. *)
Definition Dialer_Dial {R} (useTLS : bool) (dialFn : bool → list Z → result R)
    (url : list Z) (creds : Credentials) : result (connection R) :=
  match StripScheme url with
  | Err e => Err (Wrapf "stratumv2: %w" e)
  | Ok address =>
      match dialFn useTLS address with
      | Err e =>
          Err (Wrapf "stratumv2: dial %s: %w"
                 (if errors_Is e DeadlineExceeded then Sentinel "dial timeout after %s" else e))
      | Ok raw =>
          Ok {| raw := raw; remoteAddr := address; conn_protocol := Dialer_Protocol useTLS;
                conn_user := User creds |}
      end
  end.

(** ** The handshake *)

Record session (R : Type) := { chanID : Z; dec : Decoder R }.
Arguments chanID {_} _.
Arguments dec {_} _.

Definition setupConnection (remoteAddr : string) : SetupConnection :=
  {| sc_Protocol := MiningProtocol; sc_MinVersion := 2; sc_MaxVersion := 2; sc_Flags := 0;
     sc_Endpoint := remoteAddr; sc_Vendor := "Otedama"; sc_HardwareVersion := "v3.0.0";
     sc_Firmware := "main"; sc_DeviceID := "cpu" |}.
Definition openMiningChannel (user : string) : OpenMiningChannel :=
  {| omc_ReqID := 1; omc_User := user; omc_NominalHashrate := float32frombits 0;
     omc_MaxTarget := MaxTargetUnconstrained |}.

(** One frame read and dispatched. *)
Definition readMsg `{Reader R} (what : string) (d : Decoder R) : result Message * Decoder R :=
  match ReadFrame d with
  | (Err e, d) => (Err (Wrapf what e), d)
  | (Ok f, d) => (DispatchFrame f, d)
  end.

Definition checkSetup (sc : SetupConnection) (msg : Message) : result unit :=
  match m_SetupConnectionError msg with
  | Some _ => Err (Wrapf "%w: %q" ErrHandshakeFailed)
  | None =>
      match m_SetupConnectionSuccess msg with
      | None => Err (Sentinel "stratumv2: unexpected msg 0x%02X during setup")
      | Some ok =>
          if negb (Z.ldiff (scs_Flags ok) (sc_Flags sc) =? 0)
          then Err (Wrapf "%w: pool requires flags 0x%08x outside offered set 0x%08x" ErrHandshakeFailed)
          else Ok ()
      end
  end.

Definition checkOpen (omc : OpenMiningChannel) (msg : Message) : result Z :=
  match m_OpenMiningChannelError msg with
  | Some _ => Err (Wrapf "%w: %q" ErrHandshakeFailed)
  | None =>
      match m_OpenMiningChannelSuccess msg with
      | None => Err (Sentinel "stratumv2: unexpected msg 0x%02X during channel open")
      | Some ok =>
          if negb (omcs_ReqID ok =? omc_ReqID omc)
          then Err (Errorf "stratumv2: channel response echoes req_id %d, sent %d"
                      [omcs_ReqID ok; omc_ReqID omc])
          else Ok (omcs_ChannelID ok)
      end
  end.

(** The bytes written so far accompany every outcome. *)
Definition Negotiate `{Reader R} (w1 w2 : bool) (c : connection R)
    : list Z * result (session R) :=
  let d := NewDecoder (raw c) in
  let sc := setupConnection (string_of_bytes (remoteAddr c)) in
  match sendMsg w1 MsgSetupConnection false (SetupConnection_Encode sc) with
  | Err e => ([], Err (Wrapf "stratumv2: send SetupConnection: %w" e))
  | Ok sent1 =>
      match readMsg "stratumv2: read SetupConnection response: %w" d with
      | (Err e, _) => (sent1, Err e)
      | (Ok msg, d) =>
          match checkSetup sc msg with
          | Err e => (sent1, Err e)
          | Ok _ =>
              let omc := openMiningChannel (string_of_bytes (conn_user c)) in
              match sendMsg w2 MsgOpenMiningChannel false (OpenMiningChannel_Encode omc) with
              | Err e => (sent1, Err (Wrapf "stratumv2: send OpenMiningChannel: %w" e))
              | Ok sent2 =>
                  match readMsg "stratumv2: read OpenMiningChannel response: %w" d with
                  | (Err e, _) => (sent1 ++ sent2, Err e)
                  | (Ok msg, d) =>
                      (sent1 ++ sent2,
                       c ← checkOpen omc msg; Ok {| chanID := c; dec := d |})
                  end
              end
          end
      end
  end.

(** The two dialers [init] registers, over one way of opening transports. *)
Definition v2Dialer `{Reader R} (dialFn : bool → list Z → result R) (w1 w2 useTLS : bool)
    : Dialer (connection R) (session R) :=
  {| Protocol := Dialer_Protocol useTLS;
     Dial := Dialer_Dial useTLS dialFn;
     Poolproto.Negotiate := λ c, (Negotiate w1 w2 c).2 |}.
Definition init `{Reader R} (dialFn : bool → list Z → result R) (w1 w2 : bool)
    (r : gmap string (Dialer (connection R) (session R)))
    : result (gmap string (Dialer (connection R) (session R))) :=
  r ← Register (Some (v2Dialer dialFn w1 w2 false)) r;
  Register (Some (v2Dialer dialFn w1 w2 true)) r.

(** ** The job assembler *)

Definition pendingCap : nat := 64.

Record sv2JobAssembler := {
  pending : gmap Z NewMiningJob;
  pendingOrder : list Z;
  prevHash : list Z;
  prevNBits : Z;
  havePrev : bool;
}.
Definition newAssembler : sv2JobAssembler :=
  {| pending := ∅; pendingOrder := []; prevHash := replicate 32 0; prevNBits := 0; havePrev := false |}.

(** The job handed to [emit]. *)
Definition mkJob (now : Z) (prev : list Z) (nbits : Z) (j : NewMiningJob) (ntime : Z) (clean : bool) : Job :=
  {| JobID := FormatUint (nmj_JobID j); Job_Version := nmj_Version j; Job_PrevHash := prev;
     Job_MerkleRoot := nmj_MerkleRoot j; Job_NTime := ntime; Job_NBits := nbits;
     CleanJobs := clean; Job_ExtraNonce := []; Coinb1 := []; Coinb2 := []; MerkleBranch := [];
     CoinbaseTx := []; ReceivedAt := now |}.

(** The eviction loop. *)
Fixpoint evict (cap : nat) (order : list Z) (p : gmap Z NewMiningJob)
    : list Z * gmap Z NewMiningJob :=
  match order with
  | id :: rest => if (cap <? length order)%nat then evict cap rest (delete id p) else (order, p)
  | [] => ([], p)
  end.

Definition onNewMiningJob (now : Z) (j : NewMiningJob) (a : sv2JobAssembler)
    : sv2JobAssembler * option Job :=
  let order := match pending a !! nmj_JobID j with
               | Some _ => pendingOrder a
               | None => pendingOrder a ++ [nmj_JobID j]
               end in
  let '(order, p) := evict pendingCap order (<[nmj_JobID j := j]> (pending a)) in
  ({| pending := p; pendingOrder := order; prevHash := prevHash a; prevNBits := prevNBits a;
      havePrev := havePrev a |},
   if nmj_HasNtimeStart j && havePrev a
   then Some (mkJob now (prevHash a) (prevNBits a) j (nmj_NtimeStart j) false) else None).

Definition onSetNewPrevHash (now : Z) (p : SetNewPrevHash) (a : sv2JobAssembler)
    : sv2JobAssembler * option Job :=
  let tip pend order :=
    {| pending := pend; pendingOrder := order; prevHash := snp_PrevHash p;
       prevNBits := snp_NBits p; havePrev := true |} in
  match pending a !! snp_JobID p with
  | None => (tip ∅ [], None)
  | Some named =>
      let ntime := if nmj_HasNtimeStart named && (snp_NtimeStart p <? nmj_NtimeStart named)
                   then nmj_NtimeStart named else snp_NtimeStart p in
      (tip {[snp_JobID p := named]} [snp_JobID p],
       Some (mkJob now (snp_PrevHash p) (snp_NBits p) named ntime true))
  end.

(** One dispatched message of the read loop: the states and emissions in order. *)
Definition onMessage (now : Z) (msg : Message) (a : sv2JobAssembler) : sv2JobAssembler * list Job :=
  let '(a, e1) := match m_NewMiningJob msg with
                  | Some j => onNewMiningJob now j a
                  | None => (a, None)
                  end in
  let '(a, e2) := match m_SetNewPrevHash msg with
                  | Some p => onSetNewPrevHash now p a
                  | None => (a, None)
                  end in
  (a, option_list e1 ++ option_list e2).

(** ** The read loop *)

(** [iters] iterations pass before the context is cancelled or the connection
    closed; the loop ends earlier when a read fails.  The jobs sent. *)
Fixpoint readLoop `{Reader R} (iters : nat) (now : Z) (a : sv2JobAssembler) (d : Decoder R) : list Job :=
  match iters with
  | O => []
  | S iters =>
      match ReadFrame d with
      | (Err _, _) => []
      | (Ok f, d) =>
          match DispatchFrame f with
          | Err _ => readLoop iters now a d
          | Ok msg => let '(a, out) := onMessage now msg a in out ++ readLoop iters now a d
          end
      end
  end.

(** ** Submit *)

Definition submitMessage (chan : Z) (sub : ShareSubmission) : SubmitSharesStandard :=
  {| sss_ChannelID := chan; sss_SequenceNumber := 0; sss_JobID := parseJobID (Sub_JobID sub);
     sss_Nonce := Sub_Nonce sub; sss_NTime := Sub_NTime sub; sss_NVersion := Sub_Version sub |}.
Definition Submit {R} (write_ok : bool) (s : session R) (sub : ShareSubmission)
    : result (list Z * ShareResult) :=
  match sendMsg write_ok MsgSubmitSharesStandard true
          (SubmitSharesStandard_Encode (submitMessage (chanID s) sub)) with
  | Err e => Err (Wrapf "stratumv2: submit share: %w" e)
  | Ok data => Ok (data, {| Accepted := true; Result_Reason := []; Difficulty := fzero |})
  end.

(** ** Specification of the assembler

    What the pool has announced, without the bound: the tip, and every job
    offered since the tip changed (the job the tip named included).  A tip
    names the last offer made under its job id. *)
Record offered := { offers : list NewMiningJob; tip : option (list Z * Z) }.
Definition nothing_offered : offered := {| offers := []; tip := None |}.

Fixpoint named (id : Z) (l : list NewMiningJob) : option NewMiningJob :=
  match l with
  | [] => None
  | j :: l => match named id l with
              | Some j' => Some j'
              | None => if nmj_JobID j =? id then Some j else None
              end
  end.

Definition announce (now : Z) (m : MiningMessage) (s : offered) : offered * list Job :=
  match m with
  | ANewMiningJob j =>
      ({| offers := offers s ++ [j]; tip := tip s |},
       match tip s with
       | Some (prev, nbits) =>
           if nmj_HasNtimeStart j then [mkJob now prev nbits j (nmj_NtimeStart j) false] else []
       | None => []
       end)
  | ASetNewPrevHash p =>
      match named (snp_JobID p) (offers s) with
      | Some j =>
          ({| offers := [j]; tip := Some (snp_PrevHash p, snp_NBits p) |},
           [mkJob now (snp_PrevHash p) (snp_NBits p) j
              (if nmj_HasNtimeStart j then Z.max (snp_NtimeStart p) (nmj_NtimeStart j)
               else snp_NtimeStart p) true])
      | None => ({| offers := []; tip := Some (snp_PrevHash p, snp_NBits p) |}, [])
      end
  | _ => (s, [])
  end.

Fixpoint announced (now : Z) (ms : list MiningMessage) (s : offered) : list Job :=
  match ms with
  | [] => []
  | m :: ms => let '(s, out) := announce now m s in out ++ announced now ms s
  end.

Definition outstanding (s : offered) : gset Z := list_to_set (nmj_JobID <$> offers s).

(** At most [pendingCap] different job ids are outstanding at any time. *)
Fixpoint within_cap (ms : list MiningMessage) (s : offered) : Prop :=
  (size (outstanding s) ≤ pendingCap)%nat ∧
  match ms with
  | [] => True
  | m :: ms => within_cap ms (announce 0 m s).1
  end.

(** ** The assembler refines the specification *)

Lemma named_snoc id l j :
  named id (l ++ [j]) = if nmj_JobID j =? id then Some j else named id l.
Proof.
  induction l as [|k l IH]; cbn [named app].
  { by destruct (nmj_JobID j =? id). }
  rewrite IH. destruct (nmj_JobID j =? id); [done|]. done.
Qed.

Lemma named_id id l j : named id l = Some j → nmj_JobID j = id.
Proof.
  induction l as [|k l IH]; cbn [named]; [done|]. destruct (named id l); [done|].
  destruct (Z.eqb_spec (nmj_JobID k) id) as [He|He]; [|done]. by intros [= <-].
Qed.

Lemma named_outstanding id l : is_Some (named id l) ↔ id ∈ nmj_JobID <$> l.
Proof.
  induction l as [|k l IH]; cbn [named fmap list_fmap].
  { split; [by intros [? ?]|intros H; by apply elem_of_nil in H]. }
  rewrite elem_of_cons, <- IH. destruct (named id l) as [j|].
  { split; [by right|eauto]. }
  destruct (Z.eqb_spec (nmj_JobID k) id) as [He|He]; split.
  - by left.
  - eauto.
  - by intros [? ?].
  - by intros [->|[? ?]].
Qed.

(** The order list is duplicate free and lists exactly the pending ids. *)
Definition order_ok (order : list Z) (p : gmap Z NewMiningJob) : Prop :=
  NoDup order ∧ ∀ id, id ∈ order ↔ is_Some (p !! id).

Lemma evict_ok cap order p :
  order_ok order p →
  order_ok (evict cap order p).1 (evict cap order p).2 ∧
  (length (evict cap order p).1 ≤ cap)%nat ∧ (evict cap order p).2 ⊆ p.
Proof.
  revert p. induction order as [|id order IH]; intros p Hok; cbn [evict].
  { split; [done|]. split; [cbn; lia|done]. }
  case_if; [|split_and!; [done|cbn [fst]; lia|done]].
  destruct Hok as [[Hni Hnd]%NoDup_cons Hin].
  destruct (IH (delete id p)) as (H1 & H2 & H3).
  { split; [done|]. intros x. destruct (decide (x = id)) as [->|Hx].
    - rewrite lookup_delete_eq. split; [done|]. intros [? ?]; done.
    - rewrite lookup_delete_ne by done. rewrite <- Hin, elem_of_cons. naive_solver. }
  split_and!; auto. etrans; [exact H3|]. apply delete_subseteq.
Qed.

Lemma evict_small cap order p : (length order ≤ cap)%nat → evict cap order p = (order, p).
Proof. destruct order; intros Hl; cbn [evict]; [done|]. by if_lia. Qed.

Lemma order_ok_new order p j :
  order_ok order p →
  order_ok (match p !! nmj_JobID j with Some _ => order | None => order ++ [nmj_JobID j] end)
           (<[nmj_JobID j := j]> p).
Proof.
  intros [Hnd Hin]. destruct (p !! nmj_JobID j) as [k|] eqn:E.
  - split; [done|]. intros x. destruct (decide (x = nmj_JobID j)) as [->|Hx].
    + rewrite lookup_insert_eq, Hin, E. split; eauto.
    + by rewrite lookup_insert_ne, Hin by done.
  - split.
    + apply NoDup_app. split; [done|]. split; [|apply NoDup_singleton].
      intros x Hx%Hin ->%list_elem_of_singleton. rewrite E in Hx. by destruct Hx.
    + intros x. rewrite elem_of_app, list_elem_of_singleton, Hin.
      destruct (decide (x = nmj_JobID j)) as [->|Hx].
      * rewrite lookup_insert_eq. split; eauto.
      * rewrite lookup_insert_ne by done. naive_solver.
Qed.

(** What the concrete and the abstract state agree on; [exact] adds that no
    outstanding job has been forgotten. *)
Record refines (exact : bool) (a : sv2JobAssembler) (s : offered) : Prop := {
  ref_order : order_ok (pendingOrder a) (pending a);
  ref_cap : (length (pendingOrder a) ≤ pendingCap)%nat;
  ref_sub : ∀ id j, pending a !! id = Some j → named id (offers s) = Some j;
  ref_exact : exact = true → ∀ id, pending a !! id = named id (offers s);
  ref_tip : tip s = if havePrev a then Some (prevHash a, prevNBits a) else None;
}.

Lemma refines_init exact : refines exact newAssembler nothing_offered.
Proof.
  constructor; [|cbn; lia|done|done|done].
  split; [apply NoDup_nil; done|]. intros x. cbn. split; [by intros ?%elem_of_nil|by intros [? ?]].
Qed.

Lemma order_ok_size order p (X : gset Z) :
  order_ok order p → (∀ id, is_Some (p !! id) ↔ id ∈ X) → length order = size X.
Proof.
  intros [Hnd Hin] HX. rewrite <- (size_list_to_set (C := gset Z) order) by done. f_equal.
  apply set_eq. intros x. rewrite elem_of_list_to_set, Hin. apply HX.
Qed.

Lemma refines_new exact now j a s :
  refines exact a s →
  (exact = true → (size (outstanding (announce now (ANewMiningJob j) s).1) ≤ pendingCap)%nat) →
  refines exact (onNewMiningJob now j a).1 (announce now (ANewMiningJob j) s).1 ∧
  option_list (onNewMiningJob now j a).2 = (announce now (ANewMiningJob j) s).2.
Proof.
  intros HR Hcap. unfold onNewMiningJob, announce in *. cbn [fst] in Hcap.
  pose proof (order_ok_new _ _ j (ref_order _ _ _ HR)) as Hok.
  set (order := match pending a !! nmj_JobID j with Some _ => _ | None => _ end) in *.
  set (p := <[nmj_JobID j := j]> (pending a)) in *.
  assert (∀ id k, p !! id = Some k → named id (offers s ++ [j]) = Some k) as Hsub.
  { intros id k. unfold p. rewrite named_snoc. destruct (Z.eqb_spec (nmj_JobID j) id) as [->|Hne].
    - by rewrite lookup_insert_eq.
    - rewrite lookup_insert_ne by done. apply (ref_sub _ _ _ HR). }
  assert (exact = true → ∀ id, p !! id = named id (offers s ++ [j])) as Hex.
  { intros He id. unfold p. rewrite named_snoc. destruct (Z.eqb_spec (nmj_JobID j) id) as [->|Hne].
    - by rewrite lookup_insert_eq.
    - rewrite lookup_insert_ne by done. by apply (ref_exact _ _ _ HR). }
  destruct (evict_ok pendingCap order p Hok) as (Ho & Hl & Hs).
  destruct (evict pendingCap order p) as [order' p'] eqn:Ev. cbn [fst snd] in *. split.
  - constructor; cbn [pending pendingOrder prevHash prevNBits havePrev offers tip]; auto.
    + intros id k Hk. apply Hsub. by apply (lookup_weaken p' p).
    + intros He id. rewrite <- Hex by done.
      rewrite evict_small in Ev; [by injection Ev as <- <-|].
      rewrite (order_ok_size _ p (outstanding {| offers := offers s ++ [j]; tip := tip s |})); auto.
      intros x. unfold outstanding. rewrite elem_of_list_to_set, <- named_outstanding.
      cbn [offers]. by rewrite <- Hex.
    + apply (ref_tip _ _ _ HR).
  - rewrite (ref_tip _ _ _ HR). destruct (nmj_HasNtimeStart j), (havePrev a); done.
Qed.

Lemma refines_tip exact now p a s :
  refines exact a s →
  refines exact (onSetNewPrevHash now p a).1 (announce now (ASetNewPrevHash p) s).1 ∧
  option_list (onSetNewPrevHash now p a).2 `sublist_of` (announce now (ASetNewPrevHash p) s).2 ∧
  (exact = true →
   option_list (onSetNewPrevHash now p a).2 = (announce now (ASetNewPrevHash p) s).2).
Proof.
  intros HR. unfold onSetNewPrevHash, announce.
  destruct (pending a !! snp_JobID p) as [j|] eqn:E.
  - rewrite (ref_sub _ _ _ HR _ _ E). cbn [fst snd].
    assert ((if nmj_HasNtimeStart j && (snp_NtimeStart p <? nmj_NtimeStart j)
             then nmj_NtimeStart j else snp_NtimeStart p) =
            (if nmj_HasNtimeStart j then Z.max (snp_NtimeStart p) (nmj_NtimeStart j)
             else snp_NtimeStart p)) as ->.
    { destruct (nmj_HasNtimeStart j); [|done]. cbn [andb].
      destruct (Z.ltb_spec (snp_NtimeStart p) (nmj_NtimeStart j)); lia. }
    split; [|done].
    assert (nmj_JobID j = snp_JobID p) as Hid by (eapply named_id, (ref_sub _ _ _ HR), E).
    assert (∀ id, ({[snp_JobID p := j]} : gmap Z NewMiningJob) !! id = named id [j]) as Hn.
    { intros id. cbn [named]. destruct (Z.eqb_spec (nmj_JobID j) id) as [<-|Hne].
      - by rewrite Hid, lookup_singleton_eq.
      - by rewrite lookup_singleton_ne by congruence. }
    constructor; cbn [pending pendingOrder prevHash prevNBits havePrev offers tip length]; auto.
    + split; [apply NoDup_singleton|]. intros id. rewrite list_elem_of_singleton.
      destruct (decide (id = snp_JobID p)) as [->|Hne].
      * rewrite lookup_singleton_eq. split; eauto.
      * rewrite lookup_singleton_ne by done. split; [done|by intros [? ?]].
    + unfold pendingCap. lia.
    + intros id k. by rewrite Hn.
  - destruct (named (snp_JobID p) (offers s)) as [j|] eqn:En; cbn [fst snd].
    + split; [|split; [apply sublist_nil_l|]].
      2:{ intros He. by rewrite (ref_exact _ _ _ HR He), En in E. }
      constructor; cbn [pending pendingOrder prevHash prevNBits havePrev offers tip length]; auto.
      * split; [by apply NoDup_nil|]. intros x. by rewrite lookup_empty, elem_of_nil, is_Some_alt.
      * unfold pendingCap. lia.
      * intros id k. by rewrite lookup_empty.
      * intros He. by rewrite (ref_exact _ _ _ HR He), En in E.
    + split; [|done].
      constructor; cbn [pending pendingOrder prevHash prevNBits havePrev offers tip length]; auto.
      * split; [by apply NoDup_nil|]. intros x. by rewrite lookup_empty, elem_of_nil, is_Some_alt.
      * unfold pendingCap. lia.
Qed.

Lemma refines_message exact now m a s :
  refines exact a s →
  (exact = true → (size (outstanding (announce now m s).1) ≤ pendingCap)%nat) →
  refines exact (onMessage now (msg_inject m) a).1 (announce now m s).1 ∧
  (onMessage now (msg_inject m) a).2 `sublist_of` (announce now m s).2 ∧
  (exact = true → (onMessage now (msg_inject m) a).2 = (announce now m s).2).
Proof.
  intros HR Hcap. destruct m; try (by split; [exact HR|]);
    unfold onMessage; cbn [msg_inject m_NewMiningJob m_SetNewPrevHash
      set_NewMiningJob set_SetNewPrevHash Message_zero].
  - pose proof (refines_new exact now m a s HR Hcap) as [H1 H2].
    destruct (onNewMiningJob now m a) as [a' e]. cbn [fst snd option_list] in *.
    rewrite app_nil_r, <- H2. split; [exact H1|]. split; [|done]. reflexivity.
  - pose proof (refines_tip exact now m a s HR) as (H1 & H2 & H3).
    destruct (onSetNewPrevHash now m a) as [a' e]. cbn [fst snd option_list app] in *. done.
Qed.

(** ** From bytes to jobs *)

(** [bs] is a frame carrying [m]. *)
Definition framed (m : MiningMessage) (bs : list Z) : Prop :=
  ∃ p chan f, msg_encode m = Ok p ∧ WrapMessage (msg_type m) chan p = Ok f ∧ EncodeFrame f = Ok bs.

Lemma framed_read `{StreamReader R} (d : Decoder R) m bs rest :
  msg_ok m → framed m bs → 1506 ≤ MaxFrameSize d → stream (dec_r d) = bs ++ rest →
  ∃ fr d', ReadFrame d = (Ok fr, d') ∧ DispatchFrame fr = Ok (msg_inject m) ∧
    stream (dec_r d') = rest ∧ MaxFrameSize d' = MaxFrameSize d.
Proof.
  intros Hok (p & chan & f & HE & HW & HF) Hm Hs.
  destruct (message_transport d m p chan Hok HE Hm) as (f' & bs' & HW' & HF' & HR).
  rewrite HW in HW'. injection HW' as <-. rewrite HF in HF'. injection HF' as <-. eauto.
Qed.

Lemma announce_state now m s : (announce 0 m s).1 = (announce now m s).1.
Proof. destruct m; try done. cbn [announce]. by destruct (named _ _). Qed.

Lemma readLoop_run `{StreamReader R} now ms : ∀ (exact : bool) bss a s (d : Decoder R) rest,
  Forall msg_ok ms → Forall2 framed ms bss → 1506 ≤ MaxFrameSize d →
  stream (dec_r d) = concat bss ++ rest → refines exact a s →
  (exact = true → within_cap ms s) →
  readLoop (length ms) now a d `sublist_of` announced now ms s ∧
  (exact = true → readLoop (length ms) now a d = announced now ms s).
Proof.
  induction ms as [|m ms IH]; intros exact bss a s d rest Hok HF Hmax Hs HR Hcap.
  { cbn. done. }
  apply Forall_cons in Hok as [Hm Hok].
  apply Forall2_cons_inv_l in HF as (bs & bss' & Hbs & HF & ->).
  cbn [concat] in Hs. rewrite <- app_assoc in Hs.
  destruct (framed_read d m bs _ Hm Hbs Hmax Hs) as (fr & d' & HRd & HD & Hs' & Hmax').
  assert (exact = true → within_cap ms (announce now m s).1) as Hcap'.
  { intros He. destruct (Hcap He) as [_ Hw]. by rewrite (announce_state now) in Hw. }
  destruct (refines_message exact now m a s HR) as (HR' & Hsub & Hex).
  { intros He. specialize (Hcap' He). by destruct ms; destruct Hcap'. }
  cbn [length readLoop announced]. rewrite HRd, HD.
  destruct (onMessage now (msg_inject m) a) as [a' out].
  destruct (announce now m s) as [s' out']. cbn [fst snd] in *.
  destruct (IH exact bss' a' s' d' rest) as [IH1 IH2]; auto; [lia|]. split.
  - by apply sublist_app.
  - intros He. by rewrite (Hex He), (IH2 He).
Qed.

(** C17. Refinement: reading the frames of any message sequence off any lawful
    transport, the session emits only jobs the specification announces, in
    order; and exactly those as long as no more than 64 different job ids are
    outstanding at a time. *)
Theorem readLoop_refines `{StreamReader R} now (d : Decoder R) ms bss rest :
  Forall msg_ok ms → Forall2 framed ms bss → 1506 ≤ MaxFrameSize d →
  stream (dec_r d) = concat bss ++ rest →
  readLoop (length ms) now newAssembler d `sublist_of` announced now ms nothing_offered ∧
  (within_cap ms nothing_offered →
   readLoop (length ms) now newAssembler d = announced now ms nothing_offered).
Proof.
  intros Hok HF Hmax Hs. split.
  - by apply (readLoop_run now ms false bss newAssembler nothing_offered d rest);
      auto using refines_init.
  - intros Hcap. by apply (readLoop_run now ms true bss newAssembler nothing_offered d rest);
      auto using refines_init.
Qed.

(** ** The handshake *)

Lemma sendMsg_framed m chan :
  msg_ok m → msg_fits m →
  ∃ bs, sendMsg true (msg_type m) chan (msg_encode m) = Ok bs ∧ framed m bs.
Proof.
  intros Hok Hfit. apply msg_encode_fails_iff in Hfit.
  destruct (msg_encode m) as [p|] eqn:HE; [|done].
  destruct (WrapMessage_ok (msg_type m) chan p) as (f & Hw & Hf & Hc & _ & Hp & Hv);
    eauto using msg_type_u8, msg_encode_bytes_ok, msg_encode_length.
  assert (EncodeFrame f = Ok (header_bytes (FHeader f) ++ Payload f)) as HF
    by (by apply EncodeFrame_consistent).
  exists (header_bytes (FHeader f) ++ Payload f). split; [|by exists p, chan, f].
  unfold sendMsg. cbn [mbind result_bind]. rewrite Hw. cbn [mbind result_bind]. by rewrite HF.
Qed.

(** What the two replies must be for the handshake to succeed. *)
Definition accepting (m1 m2 : MiningMessage) (chan : Z) : Prop :=
  ∃ ok1 ok2, m1 = ASetupConnectionSuccess ok1 ∧ scs_Flags ok1 = 0 ∧
    m2 = AOpenMiningChannelSuccess ok2 ∧ omcs_ReqID ok2 = 1 ∧ omcs_ChannelID ok2 = chan.

Lemma checkSetup_ok m addr :
  checkSetup (setupConnection addr) (msg_inject m) = Ok () ↔
  ∃ ok, m = ASetupConnectionSuccess ok ∧ scs_Flags ok = 0.
Proof.
  destruct m; try (split; [done|by intros (? & ? & _)]).
  cbn. rewrite Z.ldiff_0_r. destruct (Z.eqb_spec (scs_Flags m) 0) as [Hf|Hf]; cbn.
  - split; [eauto|done].
  - split; [done|]. intros (ok & [= <-] & ?). done.
Qed.

Lemma checkOpen_ok m user chan :
  checkOpen (openMiningChannel user) (msg_inject m) = Ok chan ↔
  ∃ ok, m = AOpenMiningChannelSuccess ok ∧ omcs_ReqID ok = 1 ∧ omcs_ChannelID ok = chan.
Proof.
  destruct m; try (split; [done|by intros (? & ? & _)]).
  cbn. destruct (Z.eqb_spec (omcs_ReqID m) 1) as [Hf|Hf]; cbn.
  - split; [intros [= <-]; eauto|]. by intros (ok & [= <-] & _ & <-).
  - split; [done|]. intros (ok & [= <-] & ? & _). done.
Qed.

Lemma readMsg_framed `{StreamReader R} what (d : Decoder R) m bs rest :
  msg_ok m → framed m bs → 1506 ≤ MaxFrameSize d → stream (dec_r d) = bs ++ rest →
  ∃ d', readMsg what d = (Ok (msg_inject m), d') ∧ stream (dec_r d') = rest ∧
    MaxFrameSize d' = MaxFrameSize d.
Proof.
  intros Hok HF Hm Hs. destruct (framed_read d m bs rest Hok HF Hm Hs) as (fr & d' & HR & HD & H').
  exists d'. unfold readMsg. by rewrite HR, HD.
Qed.

Lemma length_string_of_bytes bs : String.length (string_of_bytes bs) = length bs.
Proof. induction bs as [|b bs IH]; cbn; [done|]. by rewrite IH. Qed.

(** The handshake over a transport carrying two reply frames: the client
    sends a SetupConnection and, when it is accepted without required flags,
    an OpenMiningChannel; the session opens exactly when the replies accept
    both, with the channel id of the reply, the decoder standing at the first
    byte after the replies. *)
Theorem Negotiate_exact `{StreamReader R} (c : connection R) m1 bs1 m2 bs2 rest :
  (length (remoteAddr c) ≤ 255)%nat → (length (conn_user c) ≤ 255)%nat →
  msg_ok m1 → framed m1 bs1 → msg_ok m2 → framed m2 bs2 →
  stream (raw c) = bs1 ++ bs2 ++ rest →
  ∃ b1 b2,
    framed (ASetupConnection (setupConnection (string_of_bytes (remoteAddr c)))) b1 ∧
    framed (AOpenMiningChannel (openMiningChannel (string_of_bytes (conn_user c)))) b2 ∧
    match Negotiate true true c with
    | (sent, Ok s) => sent = b1 ++ b2 ∧ accepting m1 m2 (chanID s) ∧
        stream (dec_r (dec s)) = rest ∧ MaxFrameSize (dec s) = DefaultMaxFrameSize
    | (sent, Err _) => (∀ chan, ¬ accepting m1 m2 chan) ∧
        sent = if is_ok (checkSetup (setupConnection "") (msg_inject m1)) then b1 ++ b2 else b1
    end.
Proof.
  intros Ha Hu Hok1 HF1 Hok2 HF2 Hs.
  destruct (sendMsg_framed
    (ASetupConnection (setupConnection (string_of_bytes (remoteAddr c)))) false)
    as (b1 & HS1 & Hb1); [by vm_compute| |].
  { cbn [msg_fits sc_Endpoint setupConnection]. rewrite !Forall_cons, Forall_nil.
    rewrite length_string_of_bytes. cbn. split_and!; lia. }
  destruct (sendMsg_framed
    (AOpenMiningChannel (openMiningChannel (string_of_bytes (conn_user c)))) false)
    as (b2 & HS2 & Hb2); [| |].
  { split; [by vm_compute|]. split; [by vm_compute|]. split; [done|].
    apply Forall_replicate. by vm_compute. }
  { cbn. by rewrite length_string_of_bytes. }
  exists b1, b2. split; [done|]. split; [done|].
  cbn [msg_type msg_encode] in HS1, HS2. unfold Negotiate. rewrite HS1.
  destruct (readMsg_framed "stratumv2: read SetupConnection response: %w"
    (NewDecoder (raw c)) m1 bs1 (bs2 ++ rest)) as (d1 & HR1 & Hs1 & Hm1); auto; [done|].
  rewrite HR1.
  change (checkSetup (setupConnection (string_of_bytes (remoteAddr c))) (msg_inject m1))
    with (checkSetup (setupConnection "") (msg_inject m1)).
  destruct (checkSetup (setupConnection "") (msg_inject m1)) as [[]|e] eqn:E1; cbn [is_ok].
  2:{ split; [|done]. intros chan (ok1 & ok2 & -> & Hf & _).
      by rewrite (proj2 (checkSetup_ok (ASetupConnectionSuccess ok1) "")) in E1 by eauto. }
  apply checkSetup_ok in E1 as (ok1 & -> & Hf). rewrite HS2.
  destruct (readMsg_framed "stratumv2: read OpenMiningChannel response: %w" d1 m2 bs2 rest)
    as (d2 & HR2 & Hs2 & Hm2); auto; [by rewrite Hm1|].
  rewrite HR2. cbn [mbind result_bind].
  destruct (checkOpen _ (msg_inject m2)) as [chan|e] eqn:E2.
  - apply checkOpen_ok in E2 as (ok2 & -> & Hr & Hc). split; [done|]. cbn [chanID dec].
    split; [by exists ok1, ok2|]. split; [done|]. by rewrite Hm2, Hm1.
  - split; [|done]. intros chan (ok1' & ok2 & _ & _ & -> & Hr & Hc).
    rewrite (proj2 (checkOpen_ok (AOpenMiningChannelSuccess ok2)
      (string_of_bytes (conn_user c)) chan)) in E2 by eauto. done.
Qed.

(** ** Submit *)

Lemma parseJobID_FormatUint v : v ∈u 32 → parseJobID (FormatUint v) = v.
Proof.
  intros Hv. unfold parseJobID, FormatUint.
  destruct (formatDigits_ok 20 v) as (ds & Hm & Ho & Hp); [word_lia|].
  rewrite (ParseUint_digits 10 32 _ ds); auto.
  - cbn [fst]. by rewrite Ho, wrap_small.
  - cbn [formatDigits]. case_if; [done|]. intros E. by apply app_nil in E as [_ ?].
  - rewrite Ho. lia.
Qed.

(** A number that does not fit is not mapped to 0 but to the largest id. *)
Lemma parseJobID_out_of_range : parseJobID (bytes_of_string "4294967296") = 0xFFFFFFFF.
Proof. by vm_compute. Qed.

(** A share submitted for a job the session emitted is a
    SubmitSharesStandard frame on the session's channel that carries the
    pool's own job id and the share's nonce, time and version. *)
Theorem Submit_echoes_job {R} (s : session R) now prev nbits j ntime clean sub :
  is_u32 (chanID s) → is_u32 (nmj_JobID j) →
  Sub_JobID sub = JobID (mkJob now prev nbits j ntime clean) →
  is_u32 (Sub_Nonce sub) → is_u32 (Sub_NTime sub) → is_u32 (Sub_Version sub) →
  ∃ bs, Submit true s sub =
          Ok (bs, {| Accepted := true; Result_Reason := []; Difficulty := fzero |}) ∧
    framed (ASubmitSharesStandard
      {| sss_ChannelID := chanID s; sss_SequenceNumber := 0; sss_JobID := nmj_JobID j;
         sss_Nonce := Sub_Nonce sub; sss_NTime := Sub_NTime sub;
         sss_NVersion := Sub_Version sub |}) bs.
Proof.
  intros Hc Hj Hid Hn Ht Hv.
  set (m := ASubmitSharesStandard _).
  destruct (sendMsg_framed m true) as (bs & HS & HF); [|done|].
  { cbn [m msg_ok sss_ChannelID sss_SequenceNumber sss_JobID sss_Nonce sss_NTime sss_NVersion].
    by split_and!. }
  exists bs. split; [|done]. unfold Submit, submitMessage. rewrite Hid. cbn [JobID mkJob].
  rewrite parseJobID_FormatUint by done. cbn [msg_type msg_encode m] in HS. by rewrite HS.
Qed.

(** ** Witnesses *)

Definition v2_demo_job (id : Z) (nt : option Z) : NewMiningJob :=
  {| nmj_ChannelID := 7; nmj_JobID := id; nmj_HasNtimeStart := bool_decide (is_Some nt);
     nmj_NtimeStart := default 0 nt; nmj_Version := 0x20000000; nmj_MerkleRoot := replicate 32 9 |}.
Definition v2_tip (id : Z) : SetNewPrevHash :=
  {| snp_ChannelID := 7; snp_JobID := id; snp_PrevHash := replicate 32 5; snp_NtimeStart := 100;
     snp_NBits := 0x1d00ffff |}.
Definition v2_msgs : list MiningMessage :=
  [ANewMiningJob (v2_demo_job 1 None); ANewMiningJob (v2_demo_job 2 None); ASetNewPrevHash (v2_tip 2);
   ANewMiningJob (v2_demo_job 3 (Some 120))].
Definition v2_frame (m : MiningMessage) : list Z :=
  match sendMsg true (msg_type m) false (msg_encode m) with Ok bs => bs | Err _ => [] end.
Definition v2_replies : MiningMessage * MiningMessage :=
  (ASetupConnectionSuccess {| scs_UsedVersion := 2; scs_Flags := 0 |},
   AOpenMiningChannelSuccess {| omcs_ReqID := 1; omcs_ChannelID := 7; omcs_Target := replicate 32 1;
     omcs_Extranonce := [1; 2]; omcs_GroupChannelID := 0 |}).

Lemma v2_framed m : msg_ok m → msg_fits m → framed m (v2_frame m).
Proof.
  intros Hok Hf. destruct (sendMsg_framed m false Hok Hf) as (bs & HS & HF).
  unfold v2_frame. by rewrite HS.
Qed.

Lemma v2_msgs_ok : Forall msg_ok v2_msgs.
Proof. repeat constructor; cbn; unfold is_u32; try lia; try done. Qed.

Lemma v2_replies_ok : msg_ok v2_replies.1 ∧ msg_ok v2_replies.2.
Proof. split; cbn; unfold is_u32; split_and!; try done; repeat constructor; done. Qed.

(** A transport that delivers [bs] in pieces of five bytes. *)
Fixpoint pieces (fuel : nat) (bs : list Z) : list (list Z) :=
  match fuel, bs with
  | S fuel, _ :: _ => take 5 bs :: pieces fuel (drop 5 bs)
  | _, _ => []
  end.
Definition v2_conn (bs : list Z) : segmentConn := {| segments := pieces 100 bs |}.

Lemma readLoop_refines_witness :
  (JobID <$> readLoop 4 0 newAssembler (NewDecoder (v2_conn (concat (v2_frame <$> v2_msgs))))) =
    [[50]; [51]] ∧
  readLoop 4 0 newAssembler (NewDecoder (v2_conn (concat (v2_frame <$> v2_msgs)))) =
    announced 0 v2_msgs nothing_offered.
Proof.
  split; [vm_compute; reflexivity|].
  apply (readLoop_refines 0 (NewDecoder (v2_conn (concat (v2_frame <$> v2_msgs))))
           v2_msgs (v2_frame <$> v2_msgs) []).
  - exact v2_msgs_ok.
  - apply Forall2_fmap_r, Forall_Forall2_diag.
    repeat (constructor; [apply v2_framed; [cbn; unfold is_u32; split_and!; try done;
      repeat constructor; done|done]|]). constructor.
  - vm_compute. discriminate.
  - vm_compute. reflexivity.
  - vm_compute. lia.
Defined.

Definition v2_demo_connection : connection segmentConn :=
  {| raw := v2_conn (v2_frame v2_replies.1 ++ v2_frame v2_replies.2 ++ [1; 2]);
     remoteAddr := bytes_of_string "pool.example:3336"; conn_protocol := ProtocolStratumV2;
     conn_user := bytes_of_string "worker" |}.

Lemma Negotiate_exact_witness :
  is_ok (Negotiate true true v2_demo_connection).2 = true ∧
  ∃ b1 b2,
    framed (ASetupConnection (setupConnection "pool.example:3336")) b1 ∧
    framed (AOpenMiningChannel (openMiningChannel "worker")) b2 ∧
    match Negotiate true true v2_demo_connection with
    | (sent, Ok s) => sent = b1 ++ b2 ∧ accepting v2_replies.1 v2_replies.2 (chanID s) ∧
        stream (dec_r (dec s)) = [1; 2] ∧ MaxFrameSize (dec s) = DefaultMaxFrameSize
    | (sent, Err _) => (∀ chan, ¬ accepting v2_replies.1 v2_replies.2 chan) ∧
        sent = if is_ok (checkSetup (setupConnection "") (msg_inject v2_replies.1))
               then b1 ++ b2 else b1
    end.
Proof.
  split; [vm_compute; reflexivity|].
  apply (Negotiate_exact v2_demo_connection v2_replies.1 (v2_frame v2_replies.1)
           v2_replies.2 (v2_frame v2_replies.2) [1; 2]).
  - vm_compute. lia.
  - vm_compute. lia.
  - apply v2_replies_ok.
  - apply v2_framed; [apply v2_replies_ok|done].
  - apply v2_replies_ok.
  - apply v2_framed; [apply v2_replies_ok|cbn; lia].
  - vm_compute. reflexivity.
Defined.

Lemma Submit_echoes_job_witness :
  let sub := {| Sub_JobID := FormatUint 77; Sub_Nonce := 5; Sub_NTime := 6; Sub_Version := 2;
                Sub_ExtraNonce := [] |} in
  ∃ bs, Submit true {| chanID := 7; dec := NewDecoder (v2_conn []) |} sub =
          Ok (bs, {| Accepted := true; Result_Reason := []; Difficulty := fzero |}) ∧
    framed (ASubmitSharesStandard
      {| sss_ChannelID := 7; sss_SequenceNumber := 0; sss_JobID := 77; sss_Nonce := 5;
         sss_NTime := 6; sss_NVersion := 2 |}) bs.
Proof.
  intros sub.
  apply (Submit_echoes_job {| chanID := 7; dec := NewDecoder (v2_conn []) |} 0 [] 0
           (v2_demo_job 77 None) 100 true sub); by vm_compute.
Defined.
