(* ===== verification/Config.v ===== *)
(** * internal/config/config.go, and the configuration readers of internal/engine/setup.go

    The layered configuration (defaults, file, environment, flags) with the
    origin of every value, validation, and the lists of pools and payout
    addresses the engine derives from a configuration.  Texts are byte lists;
    the empty text is Go's empty string. *)
From S2P Require Import Prelude.
From S2P Require Import Float64.
From S2P Require Import Bech32.
From S2P Require Import Base58.
From S2P Require Import Json.
From S2P Require Import Poolproto.

Open Scope Z_scope.

Definition DefaultPoolURL : list Z := bytes_of_string "stratum+v2://stratum.braiins.com:3336".

Record PoolConfig := {
  URL : list Z;
  pc_User : list Z;
  pc_Password : list Z;
  PayoutScheme : list Z;
  TLSCAFile : list Z;
}.

Record Config := {
  BitcoinAddress : list Z;
  BitcoinAddresses : list (list Z);
  Pools : list PoolConfig;
  WorkerName : list Z;   (* Workers.Name *)
  Language : list Z;
  LogLevel : list Z;
  LogFormat : list Z;
  DataDir : list Z;
  ArbitrationHysteresisPct : float64;
  CurtailBelowBTCUSD : float64;
  cfg_MinYieldSatsPerSec : float64;
  PowerWatts : float64;
  ElectricityPricePerKWh : float64;
  HTTPAddr : list Z;
}.

Definition Defaults : Config :=
  {| BitcoinAddress := []; BitcoinAddresses := []; Pools := []; WorkerName := []; Language := [];
     LogLevel := bytes_of_string "info"; LogFormat := bytes_of_string "text"; DataDir := [];
     ArbitrationHysteresisPct := f64_const 5 100; CurtailBelowBTCUSD := fzero;
     cfg_MinYieldSatsPerSec := fzero; PowerWatts := fzero; ElectricityPricePerKWh := fzero;
     HTTPAddr := [] |}.

Record FlagValues := {
  fl_BitcoinAddress : list Z; fl_LogLevel : list Z; fl_LogFormat : list Z; fl_Language : list Z;
  fl_DataDir : list Z; fl_HTTPAddr : list Z
}.

Inductive ValueOrigin := OriginDefault | OriginFile | OriginEnv | OriginFlag.

Record Origins := {
  o_BitcoinAddress : ValueOrigin; o_BitcoinAddresses : ValueOrigin; o_Pools : ValueOrigin;
  o_WorkerName : ValueOrigin; o_Language : ValueOrigin; o_LogLevel : ValueOrigin;
  o_LogFormat : ValueOrigin; o_DataDir : ValueOrigin; o_ArbitrationHysteresisPct : ValueOrigin;
  o_CurtailBelowBTCUSD : ValueOrigin; o_MinYieldSatsPerSec : ValueOrigin;
  o_PowerWatts : ValueOrigin; o_ElectricityPricePerKWh : ValueOrigin; o_HTTPAddr : ValueOrigin
}.
Definition noOrigins : Origins :=
  Build_Origins OriginDefault OriginDefault OriginDefault OriginDefault OriginDefault OriginDefault
    OriginDefault OriginDefault OriginDefault OriginDefault OriginDefault OriginDefault
    OriginDefault OriginDefault.

(** ** The layers

    Each [if] of a layer assigns one field and its origin; [ovr] is one such
    [if]. *)
Definition is_set {A} (l : list A) : bool := match l with [] => false | _ => true end.
Definition ovr {A} (set : bool) (new old : A) : A := if set then new else old.
(** [x != 0] on floats, NaN included. *)
Definition nonzero (f : float64) : bool := negb (feq f fzero).

Definition applyFileLayer (co : Config * Origins) (f : Config) : Config * Origins :=
  let '(c, o) := co in
  ({| BitcoinAddress := ovr (is_set (BitcoinAddress f)) (BitcoinAddress f) (BitcoinAddress c);
      BitcoinAddresses := ovr (is_set (BitcoinAddresses f)) (BitcoinAddresses f) (BitcoinAddresses c);
      Pools := ovr (is_set (Pools f)) (Pools f) (Pools c);
      WorkerName := ovr (is_set (WorkerName f)) (WorkerName f) (WorkerName c);
      Language := ovr (is_set (Language f)) (Language f) (Language c);
      LogLevel := ovr (is_set (LogLevel f)) (LogLevel f) (LogLevel c);
      LogFormat := ovr (is_set (LogFormat f)) (LogFormat f) (LogFormat c);
      DataDir := ovr (is_set (DataDir f)) (DataDir f) (DataDir c);
      ArbitrationHysteresisPct := ovr (nonzero (ArbitrationHysteresisPct f))
        (ArbitrationHysteresisPct f) (ArbitrationHysteresisPct c);
      CurtailBelowBTCUSD := ovr (nonzero (CurtailBelowBTCUSD f)) (CurtailBelowBTCUSD f) (CurtailBelowBTCUSD c);
      cfg_MinYieldSatsPerSec := ovr (nonzero (cfg_MinYieldSatsPerSec f))
        (cfg_MinYieldSatsPerSec f) (cfg_MinYieldSatsPerSec c);
      PowerWatts := ovr (nonzero (PowerWatts f)) (PowerWatts f) (PowerWatts c);
      ElectricityPricePerKWh := ovr (nonzero (ElectricityPricePerKWh f))
        (ElectricityPricePerKWh f) (ElectricityPricePerKWh c);
      HTTPAddr := ovr (is_set (HTTPAddr f)) (HTTPAddr f) (HTTPAddr c) |},
   {| o_BitcoinAddress := ovr (is_set (BitcoinAddress f)) OriginFile (o_BitcoinAddress o);
      o_BitcoinAddresses := ovr (is_set (BitcoinAddresses f)) OriginFile (o_BitcoinAddresses o);
      o_Pools := ovr (is_set (Pools f)) OriginFile (o_Pools o);
      o_WorkerName := ovr (is_set (WorkerName f)) OriginFile (o_WorkerName o);
      o_Language := ovr (is_set (Language f)) OriginFile (o_Language o);
      o_LogLevel := ovr (is_set (LogLevel f)) OriginFile (o_LogLevel o);
      o_LogFormat := ovr (is_set (LogFormat f)) OriginFile (o_LogFormat o);
      o_DataDir := ovr (is_set (DataDir f)) OriginFile (o_DataDir o);
      o_ArbitrationHysteresisPct :=
        ovr (nonzero (ArbitrationHysteresisPct f)) OriginFile (o_ArbitrationHysteresisPct o);
      o_CurtailBelowBTCUSD := ovr (nonzero (CurtailBelowBTCUSD f)) OriginFile (o_CurtailBelowBTCUSD o);
      o_MinYieldSatsPerSec := ovr (nonzero (cfg_MinYieldSatsPerSec f)) OriginFile (o_MinYieldSatsPerSec o);
      o_PowerWatts := ovr (nonzero (PowerWatts f)) OriginFile (o_PowerWatts o);
      o_ElectricityPricePerKWh :=
        ovr (nonzero (ElectricityPricePerKWh f)) OriginFile (o_ElectricityPricePerKWh o);
      o_HTTPAddr := ovr (is_set (HTTPAddr f)) OriginFile (o_HTTPAddr o) |}).

Section Environment.
(** [getEnv], which is empty for an unset variable, and [strconv.ParseFloat]
    with its error as [None]: the layers do not depend on how numbers are
    written. *)
Context (getEnv : string → list Z) (ParseFloat : list Z → option float64).

(** One entry of [numericEnvVars]: the value it applies, if any. *)
Definition numericEnv (key : string) : option float64 :=
  match getEnv key with [] => None | v => ParseFloat v end.

Definition numericEnvVars : list string :=
  ["OTEDAMA_ARBITRATION_HYSTERESIS_PCT"; "OTEDAMA_MIN_YIELD_SATS_PER_SEC";
   "OTEDAMA_CURTAIL_BELOW_BTC_USD"; "OTEDAMA_POWER_WATTS"; "OTEDAMA_ELECTRICITY_PRICE_PER_KWH"].

(** The keys warned about. *)
Definition EnvWarnings : list string :=
  filter (λ key, is_set (getEnv key) = true ∧ ParseFloat (getEnv key) = None) numericEnvVars.

Definition applyEnvLayer (co : Config * Origins) : Config * Origins :=
  let '(c, o) := co in
  let txt key old := ovr (is_set (getEnv key)) (getEnv key) old in
  let txt_o key old := ovr (is_set (getEnv key)) OriginEnv old in
  let num key old := default old (numericEnv key) in
  let num_o key old := ovr (bool_decide (is_Some (numericEnv key))) OriginEnv old in
  ({| BitcoinAddress := txt "OTEDAMA_BITCOIN_ADDRESS" (BitcoinAddress c);
      BitcoinAddresses := BitcoinAddresses c; Pools := Pools c; WorkerName := WorkerName c;
      Language := txt "OTEDAMA_LANGUAGE" (Language c);
      LogLevel := txt "OTEDAMA_LOG_LEVEL" (LogLevel c);
      LogFormat := txt "OTEDAMA_LOG_FORMAT" (LogFormat c);
      DataDir := txt "OTEDAMA_DATA_DIR" (DataDir c);
      ArbitrationHysteresisPct := num "OTEDAMA_ARBITRATION_HYSTERESIS_PCT" (ArbitrationHysteresisPct c);
      CurtailBelowBTCUSD := num "OTEDAMA_CURTAIL_BELOW_BTC_USD" (CurtailBelowBTCUSD c);
      cfg_MinYieldSatsPerSec := num "OTEDAMA_MIN_YIELD_SATS_PER_SEC" (cfg_MinYieldSatsPerSec c);
      PowerWatts := num "OTEDAMA_POWER_WATTS" (PowerWatts c);
      ElectricityPricePerKWh := num "OTEDAMA_ELECTRICITY_PRICE_PER_KWH" (ElectricityPricePerKWh c);
      HTTPAddr := txt "OTEDAMA_HTTP_ADDR" (HTTPAddr c) |},
   {| o_BitcoinAddress := txt_o "OTEDAMA_BITCOIN_ADDRESS" (o_BitcoinAddress o);
      o_BitcoinAddresses := o_BitcoinAddresses o; o_Pools := o_Pools o;
      o_WorkerName := o_WorkerName o;
      o_Language := txt_o "OTEDAMA_LANGUAGE" (o_Language o);
      o_LogLevel := txt_o "OTEDAMA_LOG_LEVEL" (o_LogLevel o);
      o_LogFormat := txt_o "OTEDAMA_LOG_FORMAT" (o_LogFormat o);
      o_DataDir := txt_o "OTEDAMA_DATA_DIR" (o_DataDir o);
      o_ArbitrationHysteresisPct :=
        num_o "OTEDAMA_ARBITRATION_HYSTERESIS_PCT" (o_ArbitrationHysteresisPct o);
      o_CurtailBelowBTCUSD := num_o "OTEDAMA_CURTAIL_BELOW_BTC_USD" (o_CurtailBelowBTCUSD o);
      o_MinYieldSatsPerSec := num_o "OTEDAMA_MIN_YIELD_SATS_PER_SEC" (o_MinYieldSatsPerSec o);
      o_PowerWatts := num_o "OTEDAMA_POWER_WATTS" (o_PowerWatts o);
      o_ElectricityPricePerKWh :=
        num_o "OTEDAMA_ELECTRICITY_PRICE_PER_KWH" (o_ElectricityPricePerKWh o);
      o_HTTPAddr := txt_o "OTEDAMA_HTTP_ADDR" (o_HTTPAddr o) |}).

Definition applyFlagLayer (co : Config * Origins) (f : FlagValues) : Config * Origins :=
  let '(c, o) := co in
  ({| BitcoinAddress := ovr (is_set (fl_BitcoinAddress f)) (fl_BitcoinAddress f) (BitcoinAddress c);
      BitcoinAddresses := BitcoinAddresses c; Pools := Pools c; WorkerName := WorkerName c;
      Language := ovr (is_set (fl_Language f)) (fl_Language f) (Language c);
      LogLevel := ovr (is_set (fl_LogLevel f)) (fl_LogLevel f) (LogLevel c);
      LogFormat := ovr (is_set (fl_LogFormat f)) (fl_LogFormat f) (LogFormat c);
      DataDir := ovr (is_set (fl_DataDir f)) (fl_DataDir f) (DataDir c);
      ArbitrationHysteresisPct := ArbitrationHysteresisPct c;
      CurtailBelowBTCUSD := CurtailBelowBTCUSD c;
      cfg_MinYieldSatsPerSec := cfg_MinYieldSatsPerSec c; PowerWatts := PowerWatts c;
      ElectricityPricePerKWh := ElectricityPricePerKWh c;
      HTTPAddr := ovr (is_set (fl_HTTPAddr f)) (fl_HTTPAddr f) (HTTPAddr c) |},
   {| o_BitcoinAddress := ovr (is_set (fl_BitcoinAddress f)) OriginFlag (o_BitcoinAddress o);
      o_BitcoinAddresses := o_BitcoinAddresses o; o_Pools := o_Pools o;
      o_WorkerName := o_WorkerName o;
      o_Language := ovr (is_set (fl_Language f)) OriginFlag (o_Language o);
      o_LogLevel := ovr (is_set (fl_LogLevel f)) OriginFlag (o_LogLevel o);
      o_LogFormat := ovr (is_set (fl_LogFormat f)) OriginFlag (o_LogFormat o);
      o_DataDir := ovr (is_set (fl_DataDir f)) OriginFlag (o_DataDir o);
      o_ArbitrationHysteresisPct := o_ArbitrationHysteresisPct o;
      o_CurtailBelowBTCUSD := o_CurtailBelowBTCUSD o;
      o_MinYieldSatsPerSec := o_MinYieldSatsPerSec o; o_PowerWatts := o_PowerWatts o;
      o_ElectricityPricePerKWh := o_ElectricityPricePerKWh o;
      o_HTTPAddr := ovr (is_set (fl_HTTPAddr f)) OriginFlag (o_HTTPAddr o) |}).

(** [DefaultDataDir] reads the process environment: its result is an
    argument. *)
Definition with_DataDir (d : list Z) (c : Config) : Config :=
  {| BitcoinAddress := BitcoinAddress c; BitcoinAddresses := BitcoinAddresses c; Pools := Pools c;
     WorkerName := WorkerName c; Language := Language c; LogLevel := LogLevel c;
     LogFormat := LogFormat c; DataDir := d;
     ArbitrationHysteresisPct := ArbitrationHysteresisPct c;
     CurtailBelowBTCUSD := CurtailBelowBTCUSD c;
     cfg_MinYieldSatsPerSec := cfg_MinYieldSatsPerSec c; PowerWatts := PowerWatts c;
     ElectricityPricePerKWh := ElectricityPricePerKWh c; HTTPAddr := HTTPAddr c |}.
Definition ResolveWithOrigins (DefaultDataDir : list Z) (fromFile : Config) (flags : FlagValues)
    : Config * Origins :=
  let '(c, o) :=
    applyFlagLayer (applyEnvLayer (applyFileLayer (Defaults, noOrigins) fromFile)) flags in
  (if is_set (DataDir c) then c else with_DataDir DefaultDataDir c, o).
End Environment.

(** ** Validation *)

(** [net.SplitHostPort]. *)
Definition SplitHostPort (hp : list Z) : result (list Z * list Z) :=
  match LastIndexByte hp 58 with
  | None => Err (Sentinel "missing port in address")
  | Some i =>
      hjk ← (if bool_decide (head hp = Some 91) then
               match IndexByte hp 93 with
               | None => Err (Sentinel "missing ']' in address")
               | Some e =>
                   if (S e =? length hp)%nat then Err (Sentinel "missing port in address")
                   else if (S e =? i)%nat then Ok (drop 1 (take e hp), (1%nat, S e))
                   else if bool_decide (hp !! S e = Some 58)
                        then Err (Sentinel "too many colons in address")
                        else Err (Sentinel "missing port in address")
               end
             else
               match IndexByte (take i hp) 58 with
               | Some _ => Err (Sentinel "too many colons in address")
               | None => Ok (take i hp, (O, O))
               end);
      let '(host, (j, k)) := hjk in
      match IndexByte (drop j hp) 91, IndexByte (drop k hp) 93 with
      | Some _, _ => Err (Sentinel "unexpected '[' in address")
      | None, Some _ => Err (Sentinel "unexpected ']' in address")
      | None, None => Ok (host, drop (S i) hp)
      end
  end.

Definition ContainsAny (s chars : list Z) : bool := existsb (λ c, bool_decide (c ∈ chars)) s.

Definition validatePoolTarget (rest : list Z) : result unit :=
  match rest with
  | [] => Err (Sentinel "URL has no host after scheme")
  | _ =>
      if ContainsAny rest [64; 47; 63; 35; 32; 9]  (* "@/?# \t" *)
      then Err (Sentinel "must be host:port with no userinfo, path, or whitespace (got %q)")
      else match SplitHostPort rest with
      | Err e => Err (Wrapf "must be host:port (e.g. pool.example.com:3333): %w" e)
      | Ok (host, port) =>
          if negb (is_set host) then Err (Sentinel "host is empty")
          else
            (* Atoi returns 0 on a syntax error and an extreme value on a range error *)
            let p := Atoi port in
            if (p <? 1) || (65535 <? p) then Err (Sentinel "port %q is not a number in 1-65535")
            else Ok ()
      end
  end.

Definition validSchemes : list (list Z) :=
  bytes_of_string <$> ["stratum+tcp://"; "stratum+tls://"; "stratum+v2://"; "stratum+v2tls://"].
Definition validatePoolURL (raw : list Z) : result unit :=
  match List.find (HasPrefix raw) validSchemes with
  | Some s => validatePoolTarget (drop (length s) raw)
  | None => Err (Sentinel "URL must start with one of: %s")
  end.

Section Validation.
Context (unicodeToLower unicodeToUpper : list Z → list Z).

Definition validateBitcoinAddress (addr : list Z) : result unit :=
  if (length addr <? 26)%nat then Err (Errorf "address is too short (%d characters)" [Z.of_nat (length addr)])
  else if (90 <? length addr)%nat then Err (Errorf "address is too long (%d characters)" [Z.of_nat (length addr)])
  else if HasPrefix addr (bytes_of_string "1") || HasPrefix addr (bytes_of_string "3")
          || HasPrefix addr (bytes_of_string "bc1")
  then match ValidateAddress unicodeToLower unicodeToUpper addr with
       | Ok _ => Ok ()
       | Err e => Err (Wrapf "checksum verification failed (likely a typo in the address): %w" e)
       end
  else Err (Sentinel "address does not start with '1', '3', or 'bc1'; testnet addresses are not supported in this configuration").

(** The issues found, in order. *)
Definition addressIssues (c : Config) : list error :=
  (if negb (is_set (BitcoinAddress c)) && negb (is_set (BitcoinAddresses c))
   then [Sentinel "bitcoin_address is required (set via --bitcoin-address, OTEDAMA_BITCOIN_ADDRESS, or config file)"]
   else if is_set (BitcoinAddress c)
   then match validateBitcoinAddress (BitcoinAddress c) with
        | Ok _ => []
        | Err e => [Wrapf "bitcoin_address invalid: %v" e]
        end
   else []) ++
  concat (imap (λ i a,
    if negb (is_set a) then [Errorf "bitcoin_addresses[%d] is empty" [Z.of_nat i]]
    else match validateBitcoinAddress a with
         | Ok _ => []
         | Err e => [Wrapf "bitcoin_addresses[%d] invalid: %v" e]
         end) (BitcoinAddresses c)).

Definition logIssues (c : Config) : list error :=
  (if bool_decide (LogLevel c ∈ [] :: (bytes_of_string <$> ["debug"; "info"; "warn"; "error"]))
   then [] else [Sentinel "log_level %q is not one of debug, info, warn, error"]) ++
  (if bool_decide (LogFormat c ∈ [] :: (bytes_of_string <$> ["text"; "json"]))
   then [] else [Sentinel "log_format %q is not one of text, json"]).

Definition poolIssues (c : Config) : list error :=
  concat (imap (λ i p,
    (if negb (is_set (URL p)) then [Errorf "pools[%d].url is empty" [Z.of_nat i]]
     else match validatePoolURL (URL p) with
          | Ok _ => []
          | Err e => [Wrapf "pools[%d].url invalid: %v" e]
          end) ++
    (if bool_decide (PayoutScheme p ∈ [] :: (bytes_of_string <$> ["fpps"; "pplns"; "tides"; "solo"]))
     then [] else [Errorf "pools[%d].payout_scheme %q is not one of fpps, pplns, tides, solo" [Z.of_nat i]]))
    (Pools c)).

Definition numericIssues (c : Config) : list error :=
  concat (map (λ f : string * float64,
    if IsNaN f.2 || IsInf f.2 then [Sentinel (f.1 +:+ " must be a finite number")] else [])
    [("arbitration_hysteresis_pct"%string, ArbitrationHysteresisPct c);
     ("curtail_below_btc_usd"%string, CurtailBelowBTCUSD c);
     ("min_yield_sats_per_sec"%string, cfg_MinYieldSatsPerSec c);
     ("power_watts"%string, PowerWatts c);
     ("electricity_price_per_kwh"%string, ElectricityPricePerKWh c)]) ++
  (if flt (ArbitrationHysteresisPct c) fzero || fle fone (ArbitrationHysteresisPct c)
   then [Sentinel "arbitration_hysteresis_pct %.4f is out of range [0.0, 1.0)"] else []) ++
  (if flt (CurtailBelowBTCUSD c) fzero
   then [Sentinel "curtail_below_btc_usd %.2f must be >= 0 (0 = disabled)"] else []) ++
  (if flt (cfg_MinYieldSatsPerSec c) fzero
   then [Sentinel "min_yield_sats_per_sec %.4f must be >= 0 (0 = disabled)"] else []) ++
  (if flt (PowerWatts c) fzero
   then [Sentinel "power_watts %.2f must be >= 0 (0 = disabled)"] else []) ++
  (if flt (ElectricityPricePerKWh c) fzero
   then [Sentinel "electricity_price_per_kwh %.4f must be >= 0 (0 = disabled)"] else []).

(** [Validate] returns one error made of all issues; here they are kept. *)
Definition Validate (c : Config) : list error :=
  addressIssues c ++ logIssues c ++ poolIssues c ++ numericIssues c.
End Validation.

(** ** What the engine reads from a configuration (engine/setup.go) *)

Definition defaultPoolURL (c : Config) : list Z :=
  match Pools c with p :: _ => URL p | [] => DefaultPoolURL end.

Definition poolURLs (c : Config) : list (list Z) :=
  match Pools c with
  | [] => [DefaultPoolURL]
  | ps => URL <$> ps
  end.

(** [add], with the addresses collected so far as [seen]. *)
Definition addAddr (addrs : list (list Z)) (a : list Z) : list (list Z) :=
  if negb (is_set a) || bool_decide (a ∈ addrs) then addrs else addrs ++ [a].
Definition payoutAddresses (c : Config) : list (list Z) :=
  foldl addAddr (addAddr [] (BitcoinAddress c)) (BitcoinAddresses c).

Definition sessionUser (poolUser addr worker : list Z) : list Z :=
  if is_set poolUser then poolUser
  else if is_set worker then addr ++ [46] ++ worker
  else addr.

(** The ellipsis is three bytes of UTF-8. *)
Definition maskAddr (a : list Z) : list Z :=
  if (length a <=? 12)%nat then a
  else take 6 a ++ [0xE2; 0x80; 0xA6] ++ drop (length a - 4) a.

(** ** A validated configuration is ready for the engine *)

Lemma HasPrefix_app s p : HasPrefix s p = true → s = p ++ drop (length p) s.
Proof. unfold HasPrefix. intros H%bool_decide_eq_true. by rewrite <- H at 1; rewrite take_drop. Qed.

(** A scheme of [knownSchemes] decides the protocol and is what is stripped. *)
Lemma known_scheme_dial s p rest :
  (s, p) ∈ knownSchemes → FromURL (s ++ rest) = p ∧
  (rest ≠ [] → StripScheme (s ++ rest) = Ok rest).
Proof.
  intros Hin. unfold knownSchemes in Hin.
  repeat (apply elem_of_cons in Hin as [Hin|Hin]); [..|by apply elem_of_nil in Hin];
    apply pair_equal_spec in Hin as [-> ->].
  all: split; [unfold FromURL, knownSchemes; cbn [List.find fst snd];
       repeat match goal with |- context [HasPrefix ?x ?y] =>
         first [replace (HasPrefix x y) with true
                  by (symmetry; apply bool_decide_eq_true_2; by rewrite take_app_length)
               |replace (HasPrefix x y) with false
                  by (symmetry; apply bool_decide_eq_false_2; vm_compute; discriminate)];
         cbn [List.find fst snd] end; reflexivity|].
  all: intros Hr; unfold StripScheme, knownSchemes; cbn [List.find fst snd];
    assert (length rest ≠ 0)%nat by (by destruct rest).
  all: repeat match goal with |- context [(?a <? length (?x ++ _))%nat && bool_decide (take _ _ = ?y)] =>
         first [replace (bool_decide (take (length y) (x ++ rest) = y)) with true
                  by (symmetry; apply bool_decide_eq_true_2; by rewrite take_app_length);
                replace (length y <? length (x ++ rest))%nat with true
                  by (symmetry; rewrite length_app; apply Nat.ltb_lt; lia);
                cbn [andb fst snd]
               |replace (bool_decide (take (length y) (x ++ rest) = y)) with false
                  by (symmetry; apply bool_decide_eq_false_2; vm_compute; discriminate);
                rewrite andb_false_r] end.
  all: by rewrite drop_app_length.
Qed.

(** What [validatePoolTarget] accepts. *)
Definition dial_target (t : list Z) : Prop :=
  ∃ host port, SplitHostPort t = Ok (host, port) ∧ host ≠ [] ∧ 1 ≤ Atoi port ≤ 65535 ∧
    ∀ c, c ∈ t → c ∉ [64; 47; 63; 35; 32; 9].

Lemma validatePoolTarget_ok t : validatePoolTarget t = Ok () → dial_target t.
Proof.
  unfold validatePoolTarget. destruct t as [|c t]; [done|]. set (r := c :: t).
  case_if; [done|]. destruct (SplitHostPort r) as [[host port]|] eqn:E; [|done].
  case_if; [done|]. case_if; [done|]. intros _. exists host, port.
  split; [done|]. split; [by intros ->|]. split; [lia|]. intros x Hx Hin.
  assert (ContainsAny r [64; 47; 63; 35; 32; 9] = true); [|congruence].
  apply existsb_exists. exists x. split; [by apply list_elem_of_In|by apply bool_decide_eq_true].
Qed.

Definition supported : list ProtocolID :=
  [ProtocolStratumV1; ProtocolStratumV1TLS; ProtocolStratumV2; ProtocolStratumV2TLS].

(** A pool URL the engine can dial: its scheme is implemented and what follows
    is a plain host and port. *)
Definition dialable (u : list Z) : Prop :=
  FromURL u ∈ supported ∧ ∃ t, StripScheme u = Ok t ∧ dial_target t.

Lemma scheme_dialable s p u :
  (s, p) ∈ knownSchemes → p ∈ supported → HasPrefix u s = true →
  validatePoolTarget (drop (length s) u) = Ok () → dialable u.
Proof.
  intros Hs Hp Hu Ht. apply HasPrefix_app in Hu.
  destruct (known_scheme_dial s p (drop (length s) u) Hs) as [H1 H2]. rewrite <- Hu in H1, H2.
  split; [by rewrite H1|]. exists (drop (length s) u). split; [|by apply validatePoolTarget_ok].
  apply H2. intros E. by rewrite E in Ht.
Qed.

Lemma validatePoolURL_dialable u : validatePoolURL u = Ok () → dialable u.
Proof.
  unfold validatePoolURL, validSchemes. cbn [fmap list_fmap List.find].
  repeat match goal with |- context [HasPrefix ?x ?y] => destruct (HasPrefix x y) eqn:? end; [..|done].
  all: intros Ht; eapply scheme_dialable; [| |eassumption|exact Ht].
  all: first [by apply (list_elem_of_lookup_2 _ 3)|by apply (list_elem_of_lookup_2 _ 2)
             |by apply (list_elem_of_lookup_2 _ 1)|by apply (list_elem_of_lookup_2 _ 0)|idtac].
Qed.

Lemma concat_nil_lookup {B} (ll : list (list B)) i y :
  concat ll = [] → ll !! i = Some y → y = [].
Proof.
  revert i. induction ll as [|z ll IH]; intros i H Hi; [done|]. cbn [concat] in H.
  apply app_nil in H as [-> H]. destruct i; [by injection Hi|]. by apply (IH i).
Qed.

Lemma concat_imap_nil {A B} (f : nat → A → list B) l :
  concat (imap f l) = [] → ∀ i x, l !! i = Some x → f i x = [].
Proof.
  intros H i x Hi. apply (concat_nil_lookup (imap f l) i); [done|]. by rewrite list_lookup_imap, Hi.
Qed.

Lemma addAddr_spec l a x :
  x ∈ addAddr l a ↔ x ∈ l ∨ (x = a ∧ a ≠ []).
Proof.
  unfold addAddr. destruct a as [|c a]; cbn [is_set negb orb].
  { split; [by left|]. by intros [?|[_ ?]]. }
  case_bool_decide as Hin.
  - split; [by left|]. intros [?|[-> _]]; done.
  - rewrite elem_of_app, list_elem_of_singleton. split; [|tauto]. intros [?|?]; [by left|by right].
Qed.

Lemma addAddr_NoDup l a : NoDup l → NoDup (addAddr l a).
Proof.
  intros Hnd. unfold addAddr. destruct (negb (is_set a)); [done|]. cbn [orb].
  case_bool_decide as Hin; [done|]. apply NoDup_app. split; [done|].
  split; [|apply NoDup_singleton]. by intros x Hx ->%list_elem_of_singleton.
Qed.

(** The payout list holds each non-empty configured address once, the primary
    first. *)
Lemma payoutAddresses_spec c :
  NoDup (payoutAddresses c) ∧
  (∀ a, a ∈ payoutAddresses c ↔ a ≠ [] ∧ (a = BitcoinAddress c ∨ a ∈ BitcoinAddresses c)) ∧
  (BitcoinAddress c ≠ [] → head (payoutAddresses c) = Some (BitcoinAddress c)).
Proof.
  unfold payoutAddresses. set (l0 := addAddr [] (BitcoinAddress c)).
  assert (∀ l acc, NoDup acc → NoDup (foldl addAddr acc l) ∧
    (∀ a, a ∈ foldl addAddr acc l ↔ a ∈ acc ∨ (a ≠ [] ∧ a ∈ l)) ∧
    ∃ t, foldl addAddr acc l = acc ++ t) as Hfold.
  { induction l as [|x l IH]; intros acc Hnd; cbn [foldl].
    - split_and!; [done| |exists []; by rewrite app_nil_r].
      intros a. rewrite elem_of_nil. tauto.
    - destruct (IH (addAddr acc x) (addAddr_NoDup acc x Hnd)) as (H1 & H2 & t & H3).
      split_and!; [done| |].
      + intros a. rewrite H2, addAddr_spec, elem_of_cons. naive_solver.
      + rewrite H3. unfold addAddr. case_if; [by exists t|]. exists ([x] ++ t). by rewrite app_assoc. }
  destruct (Hfold (BitcoinAddresses c) l0) as (H1 & H2 & t & H3).
  { apply addAddr_NoDup, NoDup_nil; done. }
  split_and!; [done| |].
  - intros a. rewrite H2. unfold l0. rewrite addAddr_spec, elem_of_nil. naive_solver.
  - intros Hne. rewrite H3. unfold l0, addAddr. by destruct (BitcoinAddress c).
Qed.

Lemma is_set_true {A} (l : list A) : is_set l = true ↔ l ≠ [].
Proof. destruct l; naive_solver. Qed.

Definition finite_nonneg (f : float64) : Prop :=
  IsNaN f = false ∧ IsInf f = false ∧ flt f fzero = false.

Lemma validateBitcoinAddress_ok lo up a :
  validateBitcoinAddress lo up a = Ok () → ∃ t, ValidateAddress lo up a = Ok t.
Proof.
  unfold validateBitcoinAddress. repeat (case_if; [done|]). case_if; [|done].
  destruct (ValidateAddress lo up a); eauto; done.
Qed.

Lemma addressIssues_nil lo up c :
  addressIssues lo up c = [] →
  payoutAddresses c ≠ [] ∧ ∀ a, a ∈ payoutAddresses c → ∃ t, ValidateAddress lo up a = Ok t.
Proof.
  unfold addressIssues. intros [H1 H2]%app_nil.
  destruct (payoutAddresses_spec c) as (_ & Hin & _).
  assert (∀ a, a ∈ BitcoinAddresses c → a ≠ [] ∧ ∃ t, ValidateAddress lo up a = Ok t) as Hl.
  { intros a (i & Hi)%list_elem_of_lookup. pose proof (concat_imap_nil _ _ H2 i a Hi) as Hf.
    cbv beta in Hf. destruct a as [|x a]; [done|]. split; [done|]. cbn [is_set negb] in Hf.
    destruct (validateBitcoinAddress lo up (x :: a)) as [[]|] eqn:E; [|done].
    by apply validateBitcoinAddress_ok. }
  assert (BitcoinAddress c ≠ [] → ∃ t, ValidateAddress lo up (BitcoinAddress c) = Ok t) as Hp.
  { intros Hne%is_set_true. rewrite Hne in H1. cbn [negb andb] in H1.
    destruct (validateBitcoinAddress lo up (BitcoinAddress c)) as [[]|] eqn:E; [|done].
    by apply validateBitcoinAddress_ok. }
  split.
  - intros E. destruct (BitcoinAddress c) as [|x a] eqn:EB.
    + destruct (BitcoinAddresses c) as [|b bs] eqn:EL; [done|].
      assert (b ∈ payoutAddresses c) as Hb; [|by rewrite E in Hb; apply elem_of_nil in Hb].
      apply Hin. split; [apply (Hl b); left|]. right. left.
    + assert (x :: a ∈ payoutAddresses c) as Hb; [|by rewrite E in Hb; apply elem_of_nil in Hb].
      apply Hin. split; [done|by left].
  - intros a [Hne [->|Ha]]%Hin; [by apply Hp|by apply Hl].
Qed.

Lemma poolIssues_nil c u : poolIssues c = [] → u ∈ poolURLs c → dialable u.
Proof.
  intros H Hu. unfold poolURLs in Hu. destruct (Pools c) as [|p ps] eqn:EP.
  { apply list_elem_of_singleton in Hu as ->. by apply validatePoolURL_dialable. }
  rewrite <- EP in Hu. apply list_elem_of_fmap in Hu as (q & -> & (i & Hi)%list_elem_of_lookup).
  pose proof (concat_imap_nil _ _ H i q Hi) as Hq. cbv beta in Hq. apply app_nil in Hq as [Hq _].
  destruct (is_set (URL q)) eqn:E; [|done]. cbn [negb] in Hq.
  destruct (validatePoolURL (URL q)) as [[]|] eqn:EV; [|done]. by apply validatePoolURL_dialable.
Qed.

Lemma numericIssues_nil c :
  numericIssues c = [] →
  Forall finite_nonneg [ArbitrationHysteresisPct c; CurtailBelowBTCUSD c; cfg_MinYieldSatsPerSec c;
                        PowerWatts c; ElectricityPricePerKWh c] ∧
  fle fone (ArbitrationHysteresisPct c) = false.
Proof.
  unfold numericIssues. cbn [map concat fst snd]. rewrite app_nil_r.
  intros H. repeat (apply app_nil in H as [? H] || apply app_nil in H as [[? ?]%app_nil H]).
  repeat match goal with
    | X : _ ++ _ = [] |- _ => apply app_nil in X as [? X]
    | X : (if ?b then _ else _) = [] |- _ => destruct b eqn:?; [discriminate X|clear X]
    | X : _ || _ = false |- _ => apply orb_false_elim in X as [? ?]
  end.
  split; [repeat (constructor; [done|]); constructor|done].
Qed.

(** C29. A configuration without validation issues is one the engine can run on:
    the payout list is not empty, has no duplicates and holds only addresses
    whose checksum verifies; every pool to dial has an implemented scheme and a
    plain host and port, and carries no userinfo; every number is finite and in
    its range. *)
Theorem Validate_ready lo up c :
  Validate lo up c = [] →
  payoutAddresses c ≠ [] ∧ NoDup (payoutAddresses c) ∧
  (∀ a, a ∈ payoutAddresses c → ∃ t, ValidateAddress lo up a = Ok t) ∧
  poolURLs c ≠ [] ∧ (∀ u, u ∈ poolURLs c → dialable u) ∧
  Forall finite_nonneg [ArbitrationHysteresisPct c; CurtailBelowBTCUSD c; cfg_MinYieldSatsPerSec c;
                        PowerWatts c; ElectricityPricePerKWh c] ∧
  fle fone (ArbitrationHysteresisPct c) = false.
Proof.
  unfold Validate. intros [Ha [_ [Hp Hn]%app_nil]%app_nil]%app_nil.
  apply addressIssues_nil in Ha as [H1 H2]. apply numericIssues_nil in Hn as [H3 H4].
  split_and!; auto.
  - apply payoutAddresses_spec.
  - unfold poolURLs. by destruct (Pools c).
  - intros u. by apply poolIssues_nil.
Qed.

Definition demo_config : Config :=
  {| BitcoinAddress := bytes_of_string "1A1zP1eP5QGefi2DMPTfTL5SLmv7DivfNa";
     BitcoinAddresses := [bytes_of_string "1A1zP1eP5QGefi2DMPTfTL5SLmv7DivfNa"];
     Pools := [{| URL := bytes_of_string "stratum+tls://pool.example.com:3333"; pc_User := [];
                  pc_Password := []; PayoutScheme := bytes_of_string "solo"; TLSCAFile := [] |}];
     WorkerName := []; Language := []; LogLevel := bytes_of_string "info"; LogFormat := [];
     DataDir := []; ArbitrationHysteresisPct := f64_const 5 100; CurtailBelowBTCUSD := fzero;
     cfg_MinYieldSatsPerSec := fzero; PowerWatts := fzero; ElectricityPricePerKWh := fzero;
     HTTPAddr := [] |}.

Lemma Validate_ready_witness :
  payoutAddresses demo_config = [bytes_of_string "1A1zP1eP5QGefi2DMPTfTL5SLmv7DivfNa"] ∧
  dialable (bytes_of_string "stratum+tls://pool.example.com:3333").
Proof.
  split; [vm_compute; reflexivity|].
  refine (proj1 (proj2 (proj2 (proj2 (proj2 (Validate_ready id id demo_config _))))) _ _).
  - vm_compute. reflexivity.
  - left.
Defined.

(** ** Precedence *)

#[local] Opaque f64_const is_set bytes_of_string.

(** The first layer that gives a value wins, and is its origin. *)
Fixpoint winner {A} (layers : list (ValueOrigin * option A)) (d : A) : A * ValueOrigin :=
  match layers with
  | [] => (d, OriginDefault)
  | (o, Some v) :: _ => (v, o)
  | (_, None) :: layers => winner layers d
  end.
Definition given {A} (l : list A) : option (list A) := if is_set l then Some l else None.
Definition given_num (f : float64) : option float64 := if nonzero f then Some f else None.

Lemma winner_text (fl e f d : list Z) :
  (ovr (is_set fl) fl (ovr (is_set e) e (ovr (is_set f) f d)),
   ovr (is_set fl) OriginFlag (ovr (is_set e) OriginEnv (ovr (is_set f) OriginFile OriginDefault))) =
  winner [(OriginFlag, given fl); (OriginEnv, given e); (OriginFile, given f)] d.
Proof. unfold given. by destruct (is_set fl), (is_set e), (is_set f). Qed.

Lemma winner_file {A} (f d : list A) :
  (ovr (is_set f) f d, ovr (is_set f) OriginFile OriginDefault) = winner [(OriginFile, given f)] d.
Proof. unfold given. by destruct (is_set f). Qed.

Lemma winner_num (e : option float64) f d :
  (default (ovr (nonzero f) f d) e,
   ovr (bool_decide (is_Some e)) OriginEnv (ovr (nonzero f) OriginFile OriginDefault)) =
  winner [(OriginEnv, e); (OriginFile, given_num f)] d.
Proof. unfold given_num. by destruct e, (nonzero f). Qed.

(** Flags beat the environment, the environment beats the file, the file
    beats the defaults, field by field, and the reported origin is the layer
    that won; a numeric variable that is set is either applied or warned
    about. *)
Theorem Resolve_precedence getEnv PF dd file flags :
  let '(c, o) := ResolveWithOrigins getEnv PF dd file flags in
  let txt key fl f := [(OriginFlag, given fl); (OriginEnv, given (getEnv key)); (OriginFile, given f)] in
  let num key f := [(OriginEnv, numericEnv getEnv PF key); (OriginFile, given_num f)] in
  ((BitcoinAddress c, o_BitcoinAddress o) =
     winner (txt "OTEDAMA_BITCOIN_ADDRESS" (fl_BitcoinAddress flags) (BitcoinAddress file)) [] ∧
   (LogLevel c, o_LogLevel o) =
     winner (txt "OTEDAMA_LOG_LEVEL" (fl_LogLevel flags) (LogLevel file)) (LogLevel Defaults) ∧
   (LogFormat c, o_LogFormat o) =
     winner (txt "OTEDAMA_LOG_FORMAT" (fl_LogFormat flags) (LogFormat file)) (LogFormat Defaults) ∧
   (Language c, o_Language o) =
     winner (txt "OTEDAMA_LANGUAGE" (fl_Language flags) (Language file)) [] ∧
   (HTTPAddr c, o_HTTPAddr o) =
     winner (txt "OTEDAMA_HTTP_ADDR" (fl_HTTPAddr flags) (HTTPAddr file)) [] ∧
   (DataDir c, o_DataDir o) =
     winner (txt "OTEDAMA_DATA_DIR" (fl_DataDir flags) (DataDir file)) dd) ∧
  ((BitcoinAddresses c, o_BitcoinAddresses o) = winner [(OriginFile, given (BitcoinAddresses file))] [] ∧
   (Pools c, o_Pools o) = winner [(OriginFile, given (Pools file))] [] ∧
   (WorkerName c, o_WorkerName o) = winner [(OriginFile, given (WorkerName file))] []) ∧
  ((ArbitrationHysteresisPct c, o_ArbitrationHysteresisPct o) =
     winner (num "OTEDAMA_ARBITRATION_HYSTERESIS_PCT" (ArbitrationHysteresisPct file)) (f64_const 5 100) ∧
   (CurtailBelowBTCUSD c, o_CurtailBelowBTCUSD o) =
     winner (num "OTEDAMA_CURTAIL_BELOW_BTC_USD" (CurtailBelowBTCUSD file)) fzero ∧
   (cfg_MinYieldSatsPerSec c, o_MinYieldSatsPerSec o) =
     winner (num "OTEDAMA_MIN_YIELD_SATS_PER_SEC" (cfg_MinYieldSatsPerSec file)) fzero ∧
   (PowerWatts c, o_PowerWatts o) = winner (num "OTEDAMA_POWER_WATTS" (PowerWatts file)) fzero ∧
   (ElectricityPricePerKWh c, o_ElectricityPricePerKWh o) =
     winner (num "OTEDAMA_ELECTRICITY_PRICE_PER_KWH" (ElectricityPricePerKWh file)) fzero) ∧
  (∀ key, key ∈ numericEnvVars → getEnv key ≠ [] →
     is_Some (numericEnv getEnv PF key) ∨ key ∈ EnvWarnings getEnv PF).
Proof.
  assert (ResolveWithOrigins getEnv PF dd file flags =
    (let co := applyFlagLayer (applyEnvLayer getEnv PF (applyFileLayer (Defaults, noOrigins) file)) flags in
     (if is_set (DataDir co.1) then co.1 else with_DataDir dd co.1, co.2))) as ->
    by (unfold ResolveWithOrigins; by destruct (applyFlagLayer _ flags)).
  set (co := applyFlagLayer _ flags). cbv zeta.
  split; [|split; [|split]].
  - split_and!.
    1-5: destruct (is_set (DataDir co.1)); apply winner_text.
    assert (DataDir (if is_set (DataDir co.1) then co.1 else with_DataDir dd co.1) =
            ovr (is_set (DataDir co.1)) (DataDir co.1) dd) as -> by (by destruct (is_set (DataDir co.1))).
    rewrite <- winner_text.
    change (DataDir co.1) with (ovr (is_set (fl_DataDir flags)) (fl_DataDir flags)
      (ovr (is_set (getEnv "OTEDAMA_DATA_DIR")) (getEnv "OTEDAMA_DATA_DIR")
        (ovr (is_set (DataDir file)) (DataDir file) []))).
    apply pair_equal_spec. split; [|done]. clear co.
    destruct (is_set (fl_DataDir flags)) eqn:E1; cbn [ovr]; [by rewrite E1|].
    destruct (is_set (getEnv "OTEDAMA_DATA_DIR")) eqn:E2; cbn [ovr]; [by rewrite E2|].
    destruct (is_set (DataDir file)) eqn:E3; cbn [ovr]; [by rewrite E3|done].
  - destruct (is_set (DataDir co.1)); split_and!; apply winner_file.
  - destruct (is_set (DataDir co.1)); split_and!; apply winner_num.
  - intros key Hin Hne. unfold EnvWarnings, numericEnv. rewrite list_elem_of_filter.
    destruct (getEnv key) as [|b v] eqn:Ek; [done|]. destruct (PF (b :: v)) eqn:EP; [left; eauto|].
    right. by split_and!.
Qed.
