(* ===== verification/Reconnect.v ===== *)
(** * internal/engine/run.go: the reconnect loop

    [runReconnectLoop] with pool failover, payout-address failover, the
    yield-degradation marks and the jittered exponential backoff.  One
    iteration is a function of the loop's variables and of what the world did
    during it: how the session ended, whether the context was cancelled, which
    random number was drawn. *)
From S2P Require Import Prelude.
From S2P Require Import Config.

Open Scope Z_scope.

(** Durations are nanoseconds. *)
Definition Second : Z := 10 ^ 9.
Definition reconnectBackoffInitial : Z := Second.
Definition reconnectBackoffMax : Z := 64 * Second.
Definition reconnectBackoffJitterPct : Z := 25.

(** [rnd span] is the number [rand.Int] draws below [span], or its failure. *)
Definition jitteredBackoff (d : Z) (rnd : Z → option Z) : Z :=
  let span := Z.quot (d * 2 * reconnectBackoffJitterPct) 100 in
  if span <=? 0 then d
  else match rnd span with
  | None => d
  | Some n => d - Z.quot (d * reconnectBackoffJitterPct) 100 + n
  end.

(** The loop of [nextFailoverPool]; [None] is running out of fuel. *)
Fixpoint failover_walk (fuel : nat) (start n next : nat) (degraded : gset nat) : option nat :=
  match fuel with
  | O => None
  | S fuel =>
      let next := ((next + 1) mod n)%nat in
      if negb (bool_decide (next ∈ degraded)) || (next =? start)%nat then Some next
      else failover_walk fuel start n next degraded
  end.
(** [n] steps return to the start, which ends the loop. *)
Definition nextFailoverPool (start n : nat) (degraded : gset nat) : nat :=
  default start (failover_walk n start n start degraded).

(** ** Sessions as the loop sees them *)

(** A session ends with a [fatalError] or another error. *)
Inductive session_error := Fatal (msg : string) | Ended (e : error).
Definition isFatal (e : option session_error) : bool :=
  match e with Some (Fatal _) => true | _ => false end.
Definition errYieldDegraded : error := Sentinel "engine: pool share acceptance below yield floor".
Definition is_yield_degraded (e : option session_error) : bool :=
  match e with Some (Ended e) => errors_Is e errYieldDegraded | _ => false end.

(** The part of [sessionOpts] that depends on the attempt. *)
Record sessionOpts := {
  so_pool : nat;   (* poolIdx *)
  so_addr : nat;   (* addrIdx *)
  so_poolURL : list Z;
  so_user : list Z;
  so_tlsCAFile : list Z;
  so_poolPassword : list Z;
  so_payoutAddr : list Z;
  so_payoutScheme : list Z;
  so_yieldFailover : bool;
}.

(** What the world does in one iteration. *)
Record happening := {
  connected : bool;                 (* onConnected was called *)
  sessionErr : option session_error;
  ctx_done : bool;                  (* the context is done when the session ends *)
  rnd : Z → option Z;               (* the number drawn for the jitter *)
  ctx_done_asleep : bool;           (* ... or is cancelled during the sleep *)
}.

Record loop := {
  poolIdx : nat;
  addrIdx : nat;
  addrConnected : bool;
  attempt : Z;
  backoff : Z;
  degraded : gset nat;
  poolConnectAttempts : Z;
  poolConnectFailures : Z;
  poolYieldFailovers : Z;
}.
Definition loop_init : loop :=
  {| poolIdx := 0; addrIdx := 0; addrConnected := false; attempt := 0;
     backoff := reconnectBackoffInitial; degraded := ∅; poolConnectAttempts := 0;
     poolConnectFailures := 0; poolYieldFailovers := 0 |}.

(** The session options of an attempt; indexing past the end panics. *)
Definition attemptOpts (cfg : Config) (l : loop) : result sessionOpts :=
  match poolURLs cfg !! poolIdx l, payoutAddresses cfg !! addrIdx l with
  | Some url, Some addr =>
      let field (f : PoolConfig → list Z) :=
        match Pools cfg !! poolIdx l with Some p => f p | None => [] end in
      Ok {| so_pool := poolIdx l; so_addr := addrIdx l; so_poolURL := url;
            so_user := sessionUser (field pc_User) addr (WorkerName cfg);
            so_tlsCAFile := field TLSCAFile; so_poolPassword := field pc_Password;
            so_payoutAddr := if is_set (field pc_User) then [] else addr;
            so_payoutScheme := field PayoutScheme;
            so_yieldFailover := (1 <? length (poolURLs cfg))%nat |}
  | _, _ => Err (Sentinel "panic: index out of range")
  end.

Definition set_idx (p a : nat) (l : loop) : loop :=
  {| poolIdx := p; addrIdx := a; addrConnected := addrConnected l; attempt := attempt l;
     backoff := backoff l; degraded := degraded l; poolConnectAttempts := poolConnectAttempts l;
     poolConnectFailures := poolConnectFailures l; poolYieldFailovers := poolYieldFailovers l |}.
Definition set_backoff (b : Z) (l : loop) : loop :=
  {| poolIdx := poolIdx l; addrIdx := addrIdx l; addrConnected := addrConnected l;
     attempt := attempt l; backoff := b; degraded := degraded l;
     poolConnectAttempts := poolConnectAttempts l; poolConnectFailures := poolConnectFailures l;
     poolYieldFailovers := poolYieldFailovers l |}.
Definition set_degraded (d : gset nat) (l : loop) : loop :=
  {| poolIdx := poolIdx l; addrIdx := addrIdx l; addrConnected := addrConnected l;
     attempt := attempt l; backoff := backoff l; degraded := d;
     poolConnectAttempts := poolConnectAttempts l; poolConnectFailures := poolConnectFailures l;
     poolYieldFailovers := poolYieldFailovers l |}.

(** How an iteration ends: the loop goes on (after sleeping, or at once), or
    [runReconnectLoop] returns. *)
Inductive iteration_end :=
  | Again (l : loop) (slept : option Z)
  | Return_ (e : option session_error).

(** ctx.Err() of a done context. *)
Definition ctxErr : option session_error := Some (Ended (Sentinel "context canceled")).

(** After [runSession] returned: the verdict on the session. *)
Definition afterSession (h : happening) (l : loop) : loop :=
  let counted := negb (bool_decide (sessionErr h = None)) && negb (ctx_done h) in
  let yielded := counted && is_yield_degraded (sessionErr h) in
  {| poolIdx := poolIdx l; addrIdx := addrIdx l; addrConnected := addrConnected l || connected h;
     attempt := attempt l; backoff := backoff l;
     degraded := if yielded then {[poolIdx l]} ∪ degraded l else degraded l;
     poolConnectAttempts := poolConnectAttempts l + 1;
     poolConnectFailures := poolConnectFailures l + (if counted && negb yielded then 1 else 0);
     poolYieldFailovers := poolYieldFailovers l + (if yielded then 1 else 0) |}.

(** Pool failover: the loop's new variables and whether it continues at once. *)
Definition poolFailover (n : nat) (l : loop) : loop * bool :=
  if (1 <? n)%nat then
    let prev := poolIdx l in
    let next := nextFailoverPool prev n (degraded l) in
    if (next =? prev)%nat && bool_decide (prev ∈ degraded l)
    then (set_idx 0 (addrIdx l) (set_degraded ∅ l), false)
    else (set_idx next (addrIdx l) l, (prev <? next)%nat)
  else (l, false).

(** Payout-address failover: likewise. *)
Definition addressFailover (k : nat) (l : loop) : loop * bool :=
  if negb (addrConnected l) && (1 <? k)%nat then
    let a := ((addrIdx l + 1) mod k)%nat in
    (set_idx 0 a l, negb (a =? 0)%nat)
  else (l, false).

(** One iteration, entered with a live context. *)
Definition iteration (n k : nat) (h : happening) (l : loop) : iteration_end :=
  let l := afterSession h l in
  if ctx_done h then Return_ ctxErr
  else if isFatal (sessionErr h) then Return_ (sessionErr h)
  else
    let l := if connected h then set_backoff reconnectBackoffInitial l else l in
    let '(l, again) := poolFailover n l in
    if again then Again l None
    else
      let sleep := jitteredBackoff (backoff l) (rnd h) in
      let '(l, again) := addressFailover k l in
      if again then Again l None
      else if ctx_done_asleep h then Return_ ctxErr
      else Again (if backoff l <? reconnectBackoffMax then set_backoff (backoff l * 2) l else l)
             (Some sleep).

(** The attempt counter, checked before dialing. *)
Definition next_attempt (l : loop) : loop :=
  {| poolIdx := poolIdx l; addrIdx := addrIdx l; addrConnected := addrConnected l;
     attempt := attempt l + 1; backoff := backoff l; degraded := degraded l;
     poolConnectAttempts := poolConnectAttempts l; poolConnectFailures := poolConnectFailures l;
     poolYieldFailovers := poolYieldFailovers l |}.

(** One dial as it is made: its options, what happened, and the sleep that
    followed, if the loop slept. *)
Record dial := { dialed : sessionOpts; did : happening; sleep_after : option Z }.

(** The loop over the iterations the world offers; the dials it made, and its
    result if it returned. *)
Fixpoint runReconnectLoop (cfg : Config) (maxAttempts : Z) (hs : list happening) (l : loop)
    : list dial * option (result (option session_error)) :=
  match hs with
  | [] => ([], None)
  | h :: hs =>
      let l := next_attempt l in
      if (0 <? maxAttempts) && (maxAttempts <? attempt l)
      then ([], Some (Err (Errorf "engine: exceeded %d reconnect attempts" [maxAttempts])))
      else match attemptOpts cfg l with
      | Err e => ([], Some (Err e))
      | Ok so =>
          match iteration (length (poolURLs cfg)) (length (payoutAddresses cfg)) h l with
          | Return_ e => ([{| dialed := so; did := h; sleep_after := None |}], Some (Ok e))
          | Again l slept =>
              let '(ds, r) := runReconnectLoop cfg maxAttempts hs l in
              ({| dialed := so; did := h; sleep_after := slept |} :: ds, r)
          end
      end
  end.

(** ** The failover walk *)

Lemma failover_walk_spec deg n start : ∀ fuel j,
  (start < n)%nat → (fuel + j = n)%nat → (∀ i, (0 < i ≤ j)%nat → ((start + i) mod n)%nat ∈ deg) →
  (0 < fuel)%nat →
  ∃ i, (j < i ≤ n)%nat ∧ failover_walk fuel start n ((start + j) mod n)%nat deg = Some ((start + i) mod n)%nat ∧
    (∀ i', (0 < i' < i)%nat → ((start + i') mod n)%nat ∈ deg) ∧
    (i = n ∨ ((start + i) mod n)%nat ∉ deg).
Proof.
  induction fuel as [|fuel IH]; intros j Hs Hf Hin H0; [lia|]. cbn [failover_walk].
  assert ((((start + j) mod n + 1) mod n = (start + (S j)) mod n)%nat) as ->.
  { rewrite Nat.Div0.add_mod_idemp_l. f_equal. lia. }
  case_bool_decide as Hd; cbn [negb orb].
  - destruct ((start + S j) mod n =? start)%nat eqn:E.
    + exists (S j). split; [lia|]. split; [done|]. split; [intros i' Hi'; apply Hin; lia|].
      left. apply Nat.eqb_eq in E. rewrite <- (Nat.mod_small start n Hs) in E at 2.
      destruct (decide (S j = n)); [done|]. exfalso. assert (S j < n)%nat by lia.
      rewrite (Nat.mod_small start n Hs) in E.
      destruct (decide (start + S j < n)%nat).
      * rewrite Nat.mod_small in E by lia. lia.
      * replace (start + S j)%nat with (start + S j - n + 1 * n)%nat in E by lia.
        rewrite Nat.Div0.mod_add, Nat.mod_small in E by lia. lia.
    + destruct fuel as [|fuel'] eqn:Ef.
      { exfalso. assert (S j = n) as <- by lia. apply Nat.eqb_neq in E. apply E.
        replace (start + S j)%nat with (start + 1 * S j)%nat by lia.
        rewrite Nat.Div0.mod_add. apply Nat.mod_small. lia. }
      rewrite <- Ef in *. destruct (IH (S j)) as (i & Hi & HW & Hlt & Hend); [lia|lia| |lia|].
      { intros i Hi. destruct (decide (i = S j)) as [->|]; [done|]. apply Hin. lia. }
      exists i. split; [lia|]. done.
  - exists (S j). split; [lia|]. split; [done|]. split; [intros i' Hi'; apply Hin; lia|]. by right.
Qed.

(** The next pool in priority order that carries no mark; the start itself
    exactly when every other pool carries one. *)
Lemma nextFailoverPool_spec start n deg :
  (start < n)%nat →
  ∃ i, (0 < i ≤ n)%nat ∧ nextFailoverPool start n deg = ((start + i) mod n)%nat ∧
    (∀ i', (0 < i' < i)%nat → ((start + i') mod n)%nat ∈ deg) ∧
    (i = n ∨ ((start + i) mod n)%nat ∉ deg).
Proof.
  intros Hs. destruct (failover_walk_spec deg n start n 0) as (i & Hi & HW & Hr);
    [done|lia|lia|lia|]. exists i. split; [done|]. split; [|done].
  unfold nextFailoverPool. rewrite Nat.add_0_r, Nat.mod_small in HW by done. by rewrite HW.
Qed.

Lemma mod_self_add start n : (start < n)%nat → ((start + n) mod n)%nat = start.
Proof.
  intros Hs. replace (start + n)%nat with (start + 1 * n)%nat by lia.
  rewrite Nat.Div0.mod_add. by apply Nat.mod_small.
Qed.

Lemma mod_reach start n q : (start < n)%nat → (q < n)%nat → q ≠ start →
  ∃ i, (0 < i < n)%nat ∧ ((start + i) mod n)%nat = q.
Proof.
  intros Hs Hq Hne. destruct (decide (start < q)%nat).
  - exists (q - start)%nat. split; [lia|]. rewrite Nat.mod_small; lia.
  - exists (q + n - start)%nat. split; [lia|].
    replace (start + (q + n - start))%nat with (q + n)%nat by lia. by apply mod_self_add.
Qed.

Lemma nextFailoverPool_choice start n deg :
  (start < n)%nat →
  (nextFailoverPool start n deg < n)%nat ∧
  (nextFailoverPool start n deg ∉ deg ∨
   (nextFailoverPool start n deg = start ∧ start ∈ deg ∧ ∀ q, (q < n)%nat → q ∈ deg)).
Proof.
  intros Hs. destruct (nextFailoverPool_spec start n deg Hs) as (i & Hi & -> & Hb & He).
  split; [apply Nat.mod_upper_bound; lia|].
  destruct He as [->|He]; [|by left]. rewrite mod_self_add by done.
  destruct (decide (start ∈ deg)) as [Hd|Hd]; [right|by left]. split_and!; auto.
  intros q Hq. destruct (decide (q = start)) as [->|Hne]; [done|].
  destruct (mod_reach start n q Hs Hq Hne) as (i & Hi' & <-). by apply Hb.
Qed.

Lemma nextFailoverPool_clean start n :
  (start < n)%nat → nextFailoverPool start n ∅ = ((start + 1) mod n)%nat.
Proof.
  intros Hs. destruct (nextFailoverPool_spec start n ∅ Hs) as (i & Hi & -> & Hb & _).
  destruct (decide (1 < i)%nat); [|by replace i with 1%nat by lia].
  specialize (Hb 1%nat ltac:(lia)). set_solver.
Qed.

(** ** What holds between iterations *)

(** A session reports yield degradation only after it was established, and only
    when there is another pool; [rand.Int] keeps below its bound. *)
Definition plausible (n : nat) (h : happening) : Prop :=
  (is_yield_degraded (sessionErr h) = true → connected h = true ∧ (1 < n)%nat) ∧
  (∀ span r, rnd h span = Some r → 0 ≤ r < span).

Record loop_ok (n k : nat) (l : loop) : Prop := {
  ok_pool : (poolIdx l < n)%nat;
  ok_addr : (addrIdx l < k)%nat;
  ok_unmarked : poolIdx l ∉ degraded l;
  ok_marks : degraded l ≠ ∅ → addrConnected l = true;
  ok_backoff : ∃ e, 0 ≤ e ≤ 6 ∧ backoff l = 2 ^ e * Second;
}.

Lemma loop_init_ok n k : (0 < n)%nat → (0 < k)%nat → loop_ok n k loop_init.
Proof. intros Hn Hk. constructor; cbn; try done; try set_solver. exists 0. split; [lia|done]. Qed.

Lemma backoff_step b :
  (∃ e, 0 ≤ e ≤ 6 ∧ b = 2 ^ e * Second) →
  ∃ e, 0 ≤ e ≤ 6 ∧ (if b <? reconnectBackoffMax then b * 2 else b) = 2 ^ e * Second.
Proof.
  intros (e & He & ->). unfold reconnectBackoffMax.
  destruct (Z.ltb_spec (2 ^ e * Second) (64 * Second)) as [Hlt|Hge]; [|by exists e].
  exists (e + 1). rewrite Z.pow_add_r by lia. split; [|lia].
  assert (2 ^ e < 2 ^ 6) as Hpow by (unfold Second in Hlt; lia).
  apply Z.pow_lt_mono_r_iff in Hpow; lia.
Qed.

(** The delay stays within a quarter of the exponential base. *)
Lemma jitter_bounds b rnd :
  (∃ e, 0 ≤ e ≤ 6 ∧ b = 2 ^ e * Second) → (∀ span r, rnd span = Some r → 0 ≤ r < span) →
  3 * b ≤ 4 * jitteredBackoff b rnd < 5 * b.
Proof.
  intros (e & He & ->) Hr. unfold jitteredBackoff, reconnectBackoffJitterPct.
  assert (∃ q, 2 ^ e * Second = 100 * q ∧ 0 < q) as (q & -> & Hq).
  { exists (2 ^ e * 10 ^ 7). unfold Second. change (10 ^ 9) with (100 * 10 ^ 7).
    pose proof (Z.pow_pos_nonneg 2 e ltac:(lia) ltac:(lia)). lia. }
  replace (100 * q * 2 * 25) with (50 * q * 100) by lia.
  replace (100 * q * 25) with (25 * q * 100) by lia.
  rewrite !Z.quot_mul by lia. if_lia.
  destruct (rnd (50 * q)) as [r|] eqn:E; [|lia]. apply Hr in E. lia.
Qed.

Lemma afterSession_ok n k h l :
  loop_ok n k l → plausible n h →
  poolIdx (afterSession h l) = poolIdx l ∧ addrIdx (afterSession h l) = addrIdx l ∧
  backoff (afterSession h l) = backoff l ∧
  addrConnected (afterSession h l) = addrConnected l || connected h ∧
  (degraded (afterSession h l) ≠ ∅ → addrConnected (afterSession h l) = true) ∧
  (∀ q, q ∈ degraded (afterSession h l) ↔
     q ∈ degraded l ∨
     (q = poolIdx l ∧ ctx_done h = false ∧ is_yield_degraded (sessionErr h) = true)).
Proof.
  intros Hok [Hy _]. unfold afterSession.
  cbn [poolIdx addrIdx backoff addrConnected degraded].
  assert (negb (bool_decide (sessionErr h = None)) && negb (ctx_done h) &&
          is_yield_degraded (sessionErr h) =
          negb (ctx_done h) && is_yield_degraded (sessionErr h)) as ->.
  { destruct (sessionErr h); [done|]. cbn. by rewrite andb_false_r. }
  split_and!; auto.
  - destruct (ctx_done h); cbn [negb andb].
    { intros Hne. by rewrite (ok_marks _ _ _ Hok Hne). }
    destruct (is_yield_degraded (sessionErr h)).
    + intros _. destruct (Hy eq_refl) as [-> _]. apply orb_true_r.
    + intros Hne. by rewrite (ok_marks _ _ _ Hok Hne).
  - intros q. destruct (ctx_done h); cbn [negb andb]; [naive_solver|].
    destruct (is_yield_degraded (sessionErr h)); set_solver.
Qed.

Lemma poolFailover_ok n l l' again :
  (poolIdx l < n)%nat → ((n ≤ 1)%nat → poolIdx l ∉ degraded l) → poolFailover n l = (l', again) →
  (poolIdx l' < n)%nat ∧ poolIdx l' ∉ degraded l' ∧ addrIdx l' = addrIdx l ∧
  addrConnected l' = addrConnected l ∧ backoff l' = backoff l ∧
  (degraded l' = degraded l ∨ (degraded l' = ∅ ∧ ∀ q, (q < n)%nat → q ∈ degraded l)).
Proof.
  intros Hn H1. unfold poolFailover. destruct (Nat.ltb_spec 1 n) as [Hlt|Hle].
  - destruct (nextFailoverPool_choice (poolIdx l) n (degraded l) Hn) as [Hb Hc].
    destruct Hc as [Hc|(He & Hd & Hall)].
    + destruct (_ && _) eqn:E; intros [= <- <-];
        cbn [poolIdx addrIdx addrConnected backoff degraded set_idx set_degraded].
      * apply andb_prop in E as [E1%Nat.eqb_eq E2%bool_decide_eq_true]. congruence.
      * split_and!; auto.
    + rewrite He, Nat.eqb_refl. rewrite bool_decide_eq_true_2 by done. cbn [andb].
      intros [= <- <-]; cbn [poolIdx addrIdx addrConnected backoff degraded set_idx set_degraded].
      split_and!; auto; [lia|set_solver].
  - intros [= <- <-]. split_and!; auto.
Qed.

Lemma addressFailover_ok k l l' again :
  (addrIdx l < k)%nat → addressFailover k l = (l', again) →
  degraded l' = degraded l ∧ backoff l' = backoff l ∧ addrConnected l' = addrConnected l ∧
  (addrIdx l' < k)%nat ∧
  if addrConnected l then l' = l ∧ again = false else poolIdx l' = poolIdx l ∨ poolIdx l' = O.
Proof.
  intros Hk. unfold addressFailover. destruct (addrConnected l) eqn:Ec; cbn [negb andb].
  - intros [= <- <-]. by split_and!.
  - destruct (1 <? k)%nat; intros [= <- <-];
      cbn [poolIdx addrIdx addrConnected backoff degraded set_idx set_degraded].
    + split_and!; auto. apply Nat.mod_upper_bound. lia.
    + split_and!; auto.
Qed.

(** One iteration that goes on. *)
Lemma iteration_ok n k h l l' slept :
  loop_ok n k l → plausible n h → iteration n k h l = Again l' slept →
  loop_ok n k l' ∧
  addrConnected l' = addrConnected l || connected h ∧
  (addrConnected l' = true → addrIdx l' = addrIdx l) ∧
  (∀ s, slept = Some s → ∃ e, 0 ≤ e ≤ 6 ∧
     3 * (2 ^ e * Second) ≤ 4 * s < 5 * (2 ^ e * Second) ∧ (connected h = true → e = 0)) ∧
  ctx_done h = false.
Proof.
  intros Hok Hp. destruct (afterSession_ok n k h l Hok Hp) as (Ep & Ea & Eb & Ec & Hm & Hd).
  unfold iteration. set (l1 := afterSession h l) in *.
  destruct (ctx_done h) eqn:Ectx; [done|]. destruct (isFatal (sessionErr h)); [done|].
  set (l2 := if connected h then set_backoff reconnectBackoffInitial l1 else l1).
  assert (poolIdx l2 = poolIdx l ∧ addrIdx l2 = addrIdx l ∧ degraded l2 = degraded l1 ∧
    addrConnected l2 = addrConnected l || connected h ∧
    (∃ e, 0 ≤ e ≤ 6 ∧ backoff l2 = 2 ^ e * Second ∧ (connected h = true → e = 0)))
    as (Fp & Fa & Fd & Fc & Fb).
  { unfold l2. destruct (connected h) eqn:Ecn; cbn [poolIdx addrIdx degraded addrConnected backoff set_backoff].
    - split_and!; auto. exists 0. split; [lia|]. done.
    - split_and!; auto. destruct (ok_backoff _ _ _ Hok) as (e & He & Hbe). exists e.
      rewrite Eb. done. }
  assert ((n ≤ 1)%nat → poolIdx l2 ∉ degraded l2) as H1.
  { intros Hn. rewrite Fp, Fd. intros [Hq|(_ & _ & Hy)]%Hd; [by apply (ok_unmarked _ _ _ Hok)|].
    destruct (proj1 Hp Hy). lia. }
  destruct (poolFailover n l2) as [l3 again] eqn:EP.
  apply poolFailover_ok in EP as (Gp & Gu & Ga & Gc & Gb & Gd);
    [|rewrite Fp; apply (ok_pool _ _ _ Hok)|done].
  assert (degraded l3 ≠ ∅ → addrConnected l3 = true) as Gm.
  { intros Hne. rewrite Gc, Fc. rewrite <- Ec. apply Hm. rewrite <- Fd. set_solver. }
  destruct Fb as (e & He & Hbe & He0). rewrite <- Gb in Hbe.
  assert (addrIdx l3 < k)%nat as Gk by (rewrite Ga, Fa; apply (ok_addr _ _ _ Hok)).
  destruct again.
  { intros [= <- <-]. split_and!; [|congruence| |done|done].
    - constructor; auto. exists e. done.
    - intros _. congruence. }
  destruct (addressFailover k l3) as [l4 again] eqn:EA.
  apply addressFailover_ok in EA as (Jd & Jb & Jc & Jk & Jx); [|done].
  assert (poolIdx l4 < n ∧ poolIdx l4 ∉ degraded l4 ∧
          (addrConnected l4 = true → addrIdx l4 = addrIdx l))%nat as (Kp & Ku & Ka).
  { destruct (addrConnected l3) eqn:E3.
    - destruct Jx as [-> ->]. split_and!; auto. intros _. congruence.
    - assert (degraded l3 = ∅) as Hempty.
      { destruct (decide (degraded l3 = ∅)); [done|]. discriminate (Gm ltac:(done)). }
      rewrite Jd, Hempty, Jc. split_and!; [|set_solver|done].
      destruct Jx as [->| ->]; [done|lia]. }
  assert (∀ b, (∃ e, 0 ≤ e ≤ 6 ∧ b = 2 ^ e * Second) → loop_ok n k (set_backoff b l4)) as Kok.
  { intros b Hb. constructor; cbn [poolIdx addrIdx addrConnected backoff degraded set_backoff]; auto.
    rewrite Jd, Jc. done. }
  destruct again.
  { intros [= <- <-]. split_and!; [|congruence|done|done|done].
    specialize (Kok (backoff l4)). destruct l4; apply Kok. rewrite Jb. by exists e. }
  destruct (ctx_done_asleep h); [done|]. intros [= <- <-].
  assert (loop_ok n k (if backoff l4 <? reconnectBackoffMax then set_backoff (backoff l4 * 2) l4 else l4)) as Kfin.
  { replace (if backoff l4 <? reconnectBackoffMax then set_backoff (backoff l4 * 2) l4 else l4)
      with (set_backoff (if backoff l4 <? reconnectBackoffMax then backoff l4 * 2 else backoff l4) l4)
      by (destruct (backoff l4 <? reconnectBackoffMax); by destruct l4).
    apply Kok, backoff_step. rewrite Jb. by exists e. }
  split; [done|]. split; [case_if; cbn [addrConnected set_backoff]; congruence|].
  split; [case_if; cbn [addrConnected addrIdx set_backoff]; done|].
  split; [|done]. intros s [= <-]. exists e. split; [done|]. split; [|done].
  rewrite <- Hbe. apply jitter_bounds; [by exists e|apply Hp].
Qed.

Lemma succ_mod i n : (0 < n)%nat →
  (i mod n + 1 < n ∧ S i mod n = i mod n + 1 ∧ S i / n = i / n)%nat ∨
  (i mod n + 1 = n ∧ S i mod n = 0 ∧ S i / n = i / n + 1)%nat.
Proof.
  intros Hn. pose proof (Nat.mod_upper_bound i n ltac:(lia)) as Hb.
  pose proof (Nat.div_mod_eq i n) as He. destruct (decide (i mod n + 1 < n)%nat) as [Hlt|Hge].
  - left. split; [done|]. symmetry in He.
    assert (S i = n * (i / n) + (i mod n + 1))%nat as HS by lia.
    split; [by rewrite (Nat.mod_unique _ _ _ _ Hlt HS)|by rewrite (Nat.div_unique _ _ _ _ Hlt HS)].
  - right. split; [lia|]. assert (S i = n * (i / n + 1) + 0)%nat as HS by lia.
    assert (0 < n)%nat as H0 by lia.
    split; [by rewrite (Nat.mod_unique _ _ _ _ H0 HS)|by rewrite (Nat.div_unique _ _ _ _ H0 HS)].
Qed.

(** ** Whole runs *)

Section Runs.
Context (cfg : Config) (maxAttempts : Z).
Notation n := (length (poolURLs cfg)).
Notation k := (length (payoutAddresses cfg)).
Notation run := (runReconnectLoop cfg maxAttempts).

Lemma next_attempt_ok l : loop_ok n k l → loop_ok n k (next_attempt l).
Proof. by intros []. Qed.

Lemma attemptOpts_ok l :
  loop_ok n k l → ∃ so, attemptOpts cfg l = Ok so ∧ so_pool so = poolIdx l ∧ so_addr so = addrIdx l.
Proof.
  intros Hok. unfold attemptOpts.
  destruct (lookup_lt_is_Some_2 (poolURLs cfg) _ (ok_pool _ _ _ Hok)) as [u ->].
  destruct (lookup_lt_is_Some_2 (payoutAddresses cfg) _ (ok_addr _ _ _ Hok)) as [a ->]. eauto.
Qed.

(** A non-empty trace starts with the dial of the current variables, and goes
    on from a good state. *)
Lemma run_cons hs l ds r :
  loop_ok n k l → Forall (plausible n) hs → run hs l = (ds, r) →
  match ds with
  | [] => True
  | d :: ds' =>
      so_pool (dialed d) = poolIdx l ∧ so_addr (dialed d) = addrIdx l ∧
      plausible n (did d) ∧
      (ds' ≠ [] → ∃ l' hs' ,
         iteration n k (did d) (next_attempt l) = Again l' (sleep_after d) ∧
         loop_ok n k l' ∧ Forall (plausible n) hs' ∧ run hs' l' = (ds', r)) ∧
      (∀ s, sleep_after d = Some s → ∃ l', iteration n k (did d) (next_attempt l) = Again l' (Some s))
  end.
Proof.
  destruct hs as [|h hs]; intros Hok Hp; cbn [runReconnectLoop]; [by intros [= <- <-]|].
  apply Forall_cons in Hp as [Hh Hp]. apply next_attempt_ok in Hok.
  destruct (_ && _); [by intros [= <- <-]|].
  destruct (attemptOpts_ok _ Hok) as (so & -> & E1 & E2).
  destruct (iteration n k h (next_attempt l)) as [l' slept|e] eqn:EI.
  - destruct (run hs l') as [ds' r'] eqn:ER. intros [= <- <-].
    cbn [dialed did sleep_after]. destruct (iteration_ok _ _ _ _ _ _ Hok Hh EI) as (Hok' & _).
    split_and!; auto; [|by intros s ->; eauto]. intros _. exists l', hs. done.
  - intros [= <- <-]. cbn [dialed did sleep_after]. split_and!; auto; done.
Qed.

(** Once a session was established, the payout address stays. *)
Lemma run_sticky ds : ∀ hs l r,
  loop_ok n k l → Forall (plausible n) hs → run hs l = (ds, r) → addrConnected l = true →
  Forall (λ d, so_addr (dialed d) = addrIdx l) ds.
Proof.
  induction ds as [|d ds IH]; intros hs l r Hok Hp HR Hc; [constructor|].
  pose proof (run_cons _ _ _ _ Hok Hp HR) as (_ & Ea & Hd & Hrest & _).
  constructor; [done|]. destruct ds as [|d' ds]; [constructor|].
  destruct (Hrest ltac:(done)) as (l' & hs' & HI & Hok' & Hp' & HR').
  destruct (iteration_ok _ _ _ _ _ _ (next_attempt_ok l Hok) Hd HI) as (_ & Ec & Es & _).
  assert (addrConnected l' = true) as Hc' by (rewrite Ec; cbn [addrConnected next_attempt]; by rewrite Hc).
  specialize (IH hs' l' r Hok' Hp' HR' Hc'). rewrite (Es Hc') in IH. exact IH.
Qed.

Lemma run_sticky_after ds : ∀ hs l r i j di dj,
  loop_ok n k l → Forall (plausible n) hs → run hs l = (ds, r) →
  ds !! i = Some di → ds !! j = Some dj → (i < j)%nat → connected (did di) = true →
  so_addr (dialed dj) = so_addr (dialed di).
Proof.
  induction ds as [|d ds IH]; intros hs l r i j di dj Hok Hp HR Hi Hj Hlt Hc; [done|].
  destruct j as [|j]; [lia|]. cbn [lookup list_lookup] in Hj.
  pose proof (run_cons _ _ _ _ Hok Hp HR) as (_ & Ea & Hd & Hrest & _).
  destruct (Hrest ltac:(by destruct ds)) as (l' & hs' & HI & Hok' & Hp' & HR').
  destruct (iteration_ok _ _ _ _ _ _ (next_attempt_ok l Hok) Hd HI) as (_ & Ec & Es & _).
  destruct i as [|i].
  - injection Hi as <-. assert (addrConnected l' = true) as Hc' by (rewrite Ec, Hc; apply orb_true_r).
    pose proof (run_sticky ds hs' l' r Hok' Hp' HR' Hc') as HF.
    rewrite Forall_lookup in HF. rewrite (HF j dj Hj), (Es Hc'). by rewrite Ea.
  - apply (IH hs' l' r i j); auto. lia.
Qed.

(** ** Failover order *)

(** The state after [i] dials none of which connected. *)
Definition fresh_at (i : nat) (l : loop) : Prop :=
  poolIdx l = (i mod n)%nat ∧ addrIdx l = (i / n mod k)%nat ∧ addrConnected l = false ∧ degraded l = ∅.

Lemma fresh_step i l h l' slept :
  loop_ok n k l → plausible n h → fresh_at i l → connected h = false →
  iteration n k h l = Again l' slept →
  fresh_at (S i) l' ∧ (is_Some slept ↔ ((S i) mod (n * k) = 0)%nat).
Proof.
  intros Hok Hp (Fp & Fa & Fc & Fd) Hc.
  destruct (afterSession_ok n k h l Hok Hp) as (Ep & Ea & _ & Ec & Hm & _).
  unfold iteration. set (l1 := afterSession h l) in *.
  destruct (ctx_done h); [done|]. destruct (isFatal (sessionErr h)); [done|].
  rewrite Fc, Hc in Ec. cbn [orb] in Ec. rewrite Hc.
  assert (degraded l1 = ∅) as Hd.
  { destruct (decide (degraded l1 = ∅)); [done|]. rewrite Hm in Ec by done. done. }
  rewrite Fp in Ep. rewrite Fa in Ea. clearbody l1.
  pose proof (ok_pool _ _ _ Hok) as Hn. pose proof (ok_addr _ _ _ Hok) as Hk.
  rewrite Nat.Div0.mod_mul_r.
  destruct (succ_mod i n ltac:(lia)) as [(H1 & H2 & H3)|(H1 & H2 & H3)]; rewrite H2, H3.
  - (* another pool of this round *)
    unfold poolFailover. if_lia. rewrite Ep, Hd, nextFailoverPool_clean by lia.
    rewrite (Nat.mod_small (i mod n + 1) n) by lia.
    rewrite bool_decide_eq_false_2 by set_solver. rewrite andb_false_r. if_lia.
    intros [= <- <-]. unfold fresh_at. rewrite H2, H3.
    cbn [poolIdx addrIdx addrConnected degraded set_idx].
    split; [by split_and!|]. split; [by intros [? ?]|]. intros He. lia.
  - (* the last pool *)
    assert (∃ l2, poolFailover n l1 = (l2, false) ∧ poolIdx l2 = O ∧ addrIdx l2 = addrIdx l1 ∧
      addrConnected l2 = false ∧ degraded l2 = ∅) as (l2 & -> & Gp & Ga & Gc & Gd).
    { unfold poolFailover. destruct (Nat.ltb_spec 1 n) as [Hlt|Hle].
      - rewrite Ep, Hd, nextFailoverPool_clean by lia.
        replace (i mod n + 1)%nat with n by lia. rewrite Nat.Div0.mod_same.
        rewrite bool_decide_eq_false_2 by set_solver. rewrite andb_false_r.
        eexists. split; [f_equal; apply Nat.ltb_ge; lia|].
        by cbn [poolIdx addrIdx addrConnected degraded set_idx].
      - exists l1. split_and!; auto. rewrite Ep. lia. }
    unfold addressFailover. rewrite Gc, Ga, Ea. cbn [negb andb].
    destruct (Nat.ltb_spec 1 k) as [Hlt|Hle].
    + rewrite Nat.Div0.add_mod_idemp_l.
      destruct (Nat.eqb_spec ((i / n + 1) mod k) 0) as [E0|E0]; cbn [negb].
      * destruct (ctx_done_asleep h); [done|]. intros [= <- <-].
        split; [|split; [intros _; lia|by eexists]]. unfold fresh_at. rewrite H2, H3.
        case_if; cbn [poolIdx addrIdx addrConnected degraded set_idx set_backoff]; by split_and!.
      * intros [= <- <-]. unfold fresh_at. rewrite H2, H3.
        cbn [poolIdx addrIdx addrConnected degraded set_idx].
        split; [by split_and!|]. split; [by intros [? ?]|]. intros He. lia.
    + assert (k = 1%nat) as Hk1 by lia. rewrite Hk1, Nat.mod_1_r.
      destruct (ctx_done_asleep h); [done|]. intros [= <- <-].
      split; [|split; [intros _; lia|by eexists]]. unfold fresh_at. rewrite H2, H3, Hk1, Nat.mod_1_r.
      rewrite Hk1, Nat.mod_1_r in Ea.
      case_if; cbn [poolIdx addrIdx addrConnected degraded set_idx set_backoff]; split_and!; auto; lia.
Qed.

Lemma run_failover_order ds : ∀ hs l r i0,
  loop_ok n k l → Forall (plausible n) hs → run hs l = (ds, r) → fresh_at i0 l →
  ∀ i d, ds !! i = Some d →
    (∀ j e, (j < i)%nat → ds !! j = Some e → connected (did e) = false) →
    so_pool (dialed d) = ((i0 + i) mod n)%nat ∧ so_addr (dialed d) = ((i0 + i) / n mod k)%nat ∧
    ∀ j e, (j < i)%nat → ds !! j = Some e →
      (is_Some (sleep_after e) ↔ (S (i0 + j) mod (n * k) = 0)%nat).
Proof.
  induction ds as [|d0 ds IH]; intros hs l r i0 Hok Hp HR Hf i d Hi Hun; [done|].
  pose proof (run_cons _ _ _ _ Hok Hp HR) as (Ep & Ea & Hd & Hrest & _).
  destruct i as [|i].
  { injection Hi as <-. rewrite Nat.add_0_r, Ep, Ea. destruct Hf as (-> & -> & _).
    split_and!; auto. intros j e Hj. lia. }
  cbn [lookup list_lookup] in Hi.
  destruct (Hrest ltac:(by destruct ds)) as (l' & hs' & HI & Hok' & Hp' & HR').
  assert (connected (did d0) = false) as Hc by (apply (Hun 0%nat); [lia|done]).
  destruct (fresh_step i0 (next_attempt l) (did d0) l' (sleep_after d0)) as [Hf' Hs];
    auto using next_attempt_ok.
  destruct (IH hs' l' r (S i0) Hok' Hp' HR' Hf' i d Hi) as (H1 & H2 & H3).
  { intros j e Hj He. apply (Hun (S j) e); [lia|done]. }
  rewrite <- !plus_n_Sm. split_and!; auto. intros j e Hj He. destruct j as [|j].
  - injection He as <-. by rewrite Nat.add_0_r.
  - rewrite <- plus_n_Sm. apply (H3 j); [lia|done].
Qed.

(** ** Yield marks *)

Definition wasted (d : dial) : bool := is_yield_degraded (sessionErr (did d)).

(** The marks come from dials, and a wasted dial is marked until all are. *)
Definition marks_ok (hist : list dial) (l : loop) : Prop :=
  (∀ q, q ∈ degraded l → ∃ d, d ∈ hist ∧ wasted d = true ∧ so_pool (dialed d) = q) ∧
  (∀ d, d ∈ hist → wasted d = true →
     so_pool (dialed d) ∈ degraded l ∨
     ∀ q, (q < n)%nat → ∃ d', d' ∈ hist ∧ wasted d' = true ∧ so_pool (dialed d') = q).

Lemma iteration_marks h l l' slept :
  loop_ok n k l → plausible n h → iteration n k h l = Again l' slept →
  degraded l' = degraded (afterSession h l) ∨
  (degraded l' = ∅ ∧ ∀ q, (q < n)%nat → q ∈ degraded (afterSession h l)).
Proof.
  intros Hok Hp. pose proof (afterSession_ok n k h l Hok Hp) as (Ep & Ea & _ & _ & _ & Hd).
  unfold iteration. set (l1 := afterSession h l) in *.
  destruct (ctx_done h); [done|]. destruct (isFatal (sessionErr h)); [done|].
  set (l2 := if connected h then set_backoff reconnectBackoffInitial l1 else l1).
  assert (poolIdx l2 = poolIdx l ∧ addrIdx l2 = addrIdx l ∧ degraded l2 = degraded l1) as (Fp & Fa & Fd)
    by (unfold l2; by destruct (connected h)).
  destruct (poolFailover n l2) as [l3 again] eqn:EP.
  apply poolFailover_ok in EP as (_ & _ & Ga & _ & _ & Gd);
    [|rewrite Fp; apply (ok_pool _ _ _ Hok)|].
  2:{ intros Hn. rewrite Fp, Fd. intros [Hq|(_ & _ & Hy)]%Hd; [by apply (ok_unmarked _ _ _ Hok)|].
      destruct (proj1 Hp Hy). lia. }
  rewrite Fd in Gd. destruct again; [intros [= <- <-]; done|].
  destruct (addressFailover k l3) as [l4 again] eqn:EA.
  apply addressFailover_ok in EA as (Jd & _); [|rewrite Ga, Fa; apply (ok_addr _ _ _ Hok)].
  rewrite <- Jd in Gd. destruct again; [by intros [= <- <-]|].
  destruct (ctx_done_asleep h); [done|]. intros [= <- <-]. by case_if.
Qed.

Lemma marks_step hist d l l' :
  loop_ok n k l → plausible n (did d) → marks_ok hist l → so_pool (dialed d) = poolIdx l →
  iteration n k (did d) l = Again l' (sleep_after d) → marks_ok (hist ++ [d]) l'.
Proof.
  intros Hok Hp [M1 M2] Hd HI.
  pose proof (iteration_ok _ _ _ _ _ _ Hok Hp HI) as (_ & _ & _ & _ & Hctx).
  pose proof (iteration_marks _ _ _ _ Hok Hp HI) as Hm.
  pose proof (afterSession_ok n k (did d) l Hok Hp) as (_ & _ & _ & _ & _ & Hq).
  set (l1 := afterSession (did d) l) in *.
  assert (∀ q, q ∈ degraded l1 → ∃ e, e ∈ hist ++ [d] ∧ wasted e = true ∧ so_pool (dialed e) = q) as N1.
  { intros q [Hin|(-> & _ & Hy)]%Hq.
    - destruct (M1 q Hin) as (e & He & Hw & Hs). exists e. rewrite elem_of_app. auto.
    - exists d. rewrite elem_of_app, list_elem_of_singleton. auto. }
  assert (∀ e, e ∈ hist ++ [d] → wasted e = true → so_pool (dialed e) ∈ degraded l1 ∨
     ∀ q, (q < n)%nat → ∃ d', d' ∈ hist ++ [d] ∧ wasted d' = true ∧ so_pool (dialed d') = q) as N2.
  { intros e [He| ->%list_elem_of_singleton]%elem_of_app Hw.
    - destruct (M2 e He Hw) as [Hin|Hall]; [left; apply Hq; by left|right].
      intros q Hlt. destruct (Hall q Hlt) as (e' & He' & Hs). exists e'. rewrite elem_of_app. tauto.
    - left. apply Hq. right. by rewrite Hd. }
  destruct Hm as [Hm|[Hm Hall]].
  - split; rewrite Hm; auto.
  - split; rewrite Hm; [set_solver|]. intros e He Hw. right. intros q Hlt. by apply N1, Hall.
Qed.

Lemma run_marks ds : ∀ hist hs l r,
  loop_ok n k l → Forall (plausible n) hs → run hs l = (ds, r) → marks_ok hist l →
  ∀ i d, ds !! i = Some d → ∀ e, e ∈ hist ++ take i ds → wasted e = true →
    so_pool (dialed e) = so_pool (dialed d) →
    ∀ q, (q < n)%nat → ∃ d', d' ∈ hist ++ take i ds ∧ wasted d' = true ∧ so_pool (dialed d') = q.
Proof.
  induction ds as [|d0 ds IH]; intros hist hs l r Hok Hp HR HM i d Hi e He Hw Hs; [done|].
  pose proof (run_cons _ _ _ _ Hok Hp HR) as (Ep & _ & Hd & Hrest & _).
  destruct i as [|i].
  - injection Hi as ->. cbn [take] in *. rewrite app_nil_r in *.
    destruct (proj2 HM e He Hw) as [Hin|Hall]; [|done].
    exfalso. apply (ok_unmarked _ _ _ Hok). by rewrite <- Ep, <- Hs.
  - cbn [lookup list_lookup] in Hi. cbn [take] in *.
    replace (hist ++ d0 :: take i ds) with ((hist ++ [d0]) ++ take i ds) in * by (by rewrite <- app_assoc).
    destruct (Hrest ltac:(by destruct ds)) as (l' & hs' & HI & Hok' & Hp' & HR').
    apply (IH (hist ++ [d0]) hs' l' r Hok' Hp' HR') with (d := d) (e := e); auto.
    apply (marks_step hist d0 (next_attempt l) l'); auto using next_attempt_ok.
Qed.

End Runs.

(** ** Properties *)

Lemma poolURLs_nonempty cfg : (0 < length (poolURLs cfg))%nat.
Proof. unfold poolURLs. destruct (Pools cfg); cbn; lia. Qed.

(** C11. Earnings are never silently redirected: once a session has been
    established, every later dial uses the payout address of that session,
    whatever happens afterwards. *)
Theorem payout_address_sticky cfg maxAttempts hs ds r i j di dj :
  payoutAddresses cfg ≠ [] → Forall (plausible (length (poolURLs cfg))) hs →
  runReconnectLoop cfg maxAttempts hs loop_init = (ds, r) →
  ds !! i = Some di → ds !! j = Some dj → (i < j)%nat → connected (did di) = true →
  so_addr (dialed dj) = so_addr (dialed di).
Proof.
  intros Hk Hp HR. apply (run_sticky_after cfg maxAttempts ds hs loop_init r); auto.
  apply loop_init_ok; [apply poolURLs_nonempty|]. destruct (payoutAddresses cfg); [done|cbn; lia].
Qed.

(** C12. Failover is exhaustive and in order: until a session is established,
    dial number [a * pools + p] tries pool [p] with address [a], rounds follow
    one another, and the loop sleeps exactly after each full round. *)
Theorem failover_order cfg maxAttempts hs ds r i d :
  payoutAddresses cfg ≠ [] → Forall (plausible (length (poolURLs cfg))) hs →
  runReconnectLoop cfg maxAttempts hs loop_init = (ds, r) →
  ds !! i = Some d → (∀ j e, (j < i)%nat → ds !! j = Some e → connected (did e) = false) →
  let n := length (poolURLs cfg) in let k := length (payoutAddresses cfg) in
  so_pool (dialed d) = (i mod n)%nat ∧ so_addr (dialed d) = (i / n mod k)%nat ∧
  ∀ j e, (j < i)%nat → ds !! j = Some e →
    (is_Some (sleep_after e) ↔ (S j mod (n * k) = 0)%nat).
Proof.
  intros Hk Hp HR Hi Hun. pose proof (poolURLs_nonempty cfg) as Hn.
  assert (0 < length (payoutAddresses cfg))%nat as Hk0 by (destruct (payoutAddresses cfg); [done|cbn; lia]).
  apply (run_failover_order cfg maxAttempts ds hs loop_init r 0); auto using loop_init_ok.
  unfold fresh_at. rewrite Nat.Div0.mod_0_l, Nat.Div0.div_0_l, Nat.Div0.mod_0_l. done.
Qed.

(** A pool whose session ended for wasting shares is dialed again only
    after every configured pool has been measured so. *)
Theorem degraded_pool_excluded cfg maxAttempts hs ds r i j di dj :
  payoutAddresses cfg ≠ [] → Forall (plausible (length (poolURLs cfg))) hs →
  runReconnectLoop cfg maxAttempts hs loop_init = (ds, r) →
  ds !! i = Some di → ds !! j = Some dj → (i < j)%nat → wasted di = true →
  so_pool (dialed dj) = so_pool (dialed di) →
  ∀ q, (q < length (poolURLs cfg))%nat →
    ∃ m dm, (m < j)%nat ∧ ds !! m = Some dm ∧ wasted dm = true ∧ so_pool (dialed dm) = q.
Proof.
  intros Hk Hp HR Hi Hj Hlt Hw Hs q Hq. pose proof (poolURLs_nonempty cfg) as Hn.
  assert (0 < length (payoutAddresses cfg))%nat as Hk0 by (destruct (payoutAddresses cfg); [done|cbn; lia]).
  destruct (run_marks cfg maxAttempts ds [] hs loop_init r) with (i := j) (d := dj) (e := di) (q := q)
    as (d' & Hd' & Hw' & Hs'); auto using loop_init_ok.
  - by split; [set_solver|intros ? ?%elem_of_nil].
  - cbn [app]. apply list_elem_of_lookup. exists i. by rewrite lookup_take_lt.
  - cbn [app] in Hd'. apply list_elem_of_lookup in Hd' as (m & Hm).
    apply lookup_take_Some in Hm as [Hm Hmj]. by exists m, d'.
Qed.

(** Nothing in the iteration ends the loop. *)
Definition goes_on (h : happening) : Prop :=
  ctx_done h = false ∧ isFatal (sessionErr h) = false ∧ ctx_done_asleep h = false.

Lemma iteration_goes_on n k h l : goes_on h → ∃ l' slept, iteration n k h l = Again l' slept.
Proof.
  intros (H1 & H2 & H3). unfold iteration. rewrite H1, H2, H3.
  destruct (poolFailover _ _) as [l3 []]; [eauto|].
  destruct (addressFailover _ _) as [l4 []]; eauto.
Qed.

Lemma run_persistent cfg hs : ∀ l ds r,
  loop_ok (length (poolURLs cfg)) (length (payoutAddresses cfg)) l →
  Forall (plausible (length (poolURLs cfg))) hs → Forall goes_on hs →
  runReconnectLoop cfg 0 hs l = (ds, r) →
  r = None ∧ did <$> ds = hs ∧
  ∀ d s, d ∈ ds → sleep_after d = Some s → 3 * Second ≤ 4 * s < 320 * Second.
Proof.
  induction hs as [|h hs IH]; intros l ds r Hok Hp Hg; cbn [runReconnectLoop].
  { intros [= <- <-]. split_and!; auto. intros d s Hd. by apply elem_of_nil in Hd. }
  apply Forall_cons in Hp as [Hh Hp]. apply Forall_cons in Hg as [Hgh Hg].
  apply next_attempt_ok in Hok. cbn [Z.ltb Z.compare andb].
  destruct (attemptOpts_ok cfg _ Hok) as (so & -> & _).
  destruct (iteration_goes_on (length (poolURLs cfg)) (length (payoutAddresses cfg)) h (next_attempt l) Hgh)
    as (l' & slept & HI). rewrite HI.
  destruct (iteration_ok _ _ _ _ _ _ Hok Hh HI) as (Hok' & _ & _ & Hs & _).
  destruct (runReconnectLoop cfg 0 hs l') as [ds' r'] eqn:ER. intros [= <- <-].
  destruct (IH l' ds' r' Hok' Hp Hg ER) as (-> & Hd & Hb). split; [done|].
  split; [cbn [fmap list_fmap did]; by f_equal|].
  intros d s [->|Hin]%elem_of_cons; [|by apply Hb]. cbn [sleep_after]. intros ->.
  destruct (Hs s eq_refl) as (e & He & Hbd & _).
  assert (2 ^ 0 ≤ 2 ^ e ≤ 2 ^ 6) by (split; apply Z.pow_le_mono_r; lia). unfold Second in *. lia.
Qed.


(** ** Witnesses *)

Definition two_by_two : Config :=
  {| BitcoinAddress := BitcoinAddress demo_config;
     BitcoinAddresses := [bytes_of_string "3J98t1WpEZ73CNmQviecrnyiWrnqRhWNLy"];
     Pools := Pools demo_config ++ Pools demo_config;
     WorkerName := []; Language := []; LogLevel := []; LogFormat := []; DataDir := [];
     ArbitrationHysteresisPct := ArbitrationHysteresisPct demo_config;
     CurtailBelowBTCUSD := CurtailBelowBTCUSD demo_config;
     cfg_MinYieldSatsPerSec := cfg_MinYieldSatsPerSec demo_config;
     PowerWatts := PowerWatts demo_config; ElectricityPricePerKWh := ElectricityPricePerKWh demo_config;
     HTTPAddr := [] |}.
Definition no_dial : happening :=
  {| connected := false; sessionErr := Some (Ended (Sentinel "engine: dial")); ctx_done := false;
     rnd := λ _, None; ctx_done_asleep := false |}.
Definition dropped : happening :=
  {| connected := true; sessionErr := Some (Ended EOF); ctx_done := false; rnd := λ _, None;
     ctx_done_asleep := false |}.
Definition wasteful : happening :=
  {| connected := true; sessionErr := Some (Ended errYieldDegraded); ctx_done := false;
     rnd := λ _, None; ctx_done_asleep := false |}.

Lemma demo_hs_1 h hs : h = no_dial ∨ h = dropped ∨ h = wasteful →
  Forall (plausible (length (poolURLs two_by_two))) hs →
  Forall (plausible (length (poolURLs two_by_two))) (h :: hs).
Proof.
  intros Hh Hs. constructor; [|done]. destruct Hh as [->|[->| ->]]; split; try done.
  intros _. split; [done|cbn; lia].
Qed.

(** The dials of a run on [two_by_two]. *)
Definition demo_run (hs : list happening) : list dial := (runReconnectLoop two_by_two 0 hs loop_init).1.
Definition where_ (ds : list dial) : list (nat * nat) := (λ d, (so_pool (dialed d), so_addr (dialed d))) <$> ds.

(** A run of the witnesses, with the facts read off it by evaluation. *)
Lemma demo_run_eq hs :
  runReconnectLoop two_by_two 0 hs loop_init = (demo_run hs, (runReconnectLoop two_by_two 0 hs loop_init).2).
Proof. apply surjective_pairing. Qed.

Lemma demo_dial hs i p : where_ (demo_run hs) !! i = Some p →
  ∃ d, demo_run hs !! i = Some d ∧ so_pool (dialed d) = p.1 ∧ so_addr (dialed d) = p.2.
Proof. intros (d & -> & Hd)%list_lookup_fmap_Some. eauto. Qed.

Lemma demo_did hs i d b (f : happening → bool) :
  demo_run hs !! i = Some d → (f ∘ did <$> demo_run hs) !! i = Some b → f (did d) = b.
Proof. intros Hd. rewrite list_lookup_fmap, Hd. by intros [= <-]. Qed.

#[local] Opaque runReconnectLoop demo_run where_.

Definition hs_rotate : list happening := [no_dial; no_dial; no_dial; dropped; no_dial].
Lemma payout_address_sticky_witness :
  where_ (demo_run hs_rotate) = [(0, 0); (1, 0); (0, 1); (1, 1); (0, 1)]%nat ∧
  ∃ d3 d4, demo_run hs_rotate !! 3%nat = Some d3 ∧ demo_run hs_rotate !! 4%nat = Some d4 ∧
    so_addr (dialed d4) = so_addr (dialed d3).
Proof.
  split; [vm_compute; reflexivity|].
  destruct (demo_dial hs_rotate 3 (1, 1)%nat) as (d3 & E3 & _); [vm_compute; reflexivity|].
  destruct (demo_dial hs_rotate 4 (0, 1)%nat) as (d4 & E4 & _); [vm_compute; reflexivity|].
  exists d3, d4. split; [exact E3|]. split; [exact E4|].
  refine (payout_address_sticky two_by_two 0 hs_rotate _ _ 3 4 d3 d4 _ _ (demo_run_eq _) E3 E4 _ _).
  - vm_compute. discriminate.
  - repeat (apply demo_hs_1; [tauto|]). constructor.
  - lia.
  - apply (demo_did hs_rotate 3 d3 true connected E3). vm_compute. reflexivity.
Defined.

Definition hs_dead : list happening := [no_dial; no_dial; no_dial; no_dial; no_dial].
Lemma failover_order_witness :
  ∃ d, demo_run hs_dead !! 3%nat = Some d ∧ so_pool (dialed d) = 1%nat ∧ so_addr (dialed d) = 1%nat.
Proof.
  destruct (demo_dial hs_dead 3 (1, 1)%nat) as (d & E & _); [vm_compute; reflexivity|].
  exists d. split; [exact E|].
  destruct (failover_order two_by_two 0 hs_dead (demo_run hs_dead)
    (runReconnectLoop two_by_two 0 hs_dead loop_init).2 3 d) as (H1 & H2 & _);
    [| |apply demo_run_eq|exact E| |split; [exact H1|exact H2]].
  - vm_compute. discriminate.
  - repeat (apply demo_hs_1; [tauto|]). constructor.
  - intros j e Hj He. apply (demo_did hs_dead j e false connected He).
    destruct j as [|[|[|j]]]; [vm_compute; reflexivity..|lia].
Defined.

Definition hs_waste : list happening := [wasteful; wasteful; dropped].
Lemma degraded_pool_excluded_witness :
  where_ (demo_run hs_waste) = [(0, 0); (1, 0); (0, 0)]%nat ∧
  ∃ m dm, (m < 2)%nat ∧ demo_run hs_waste !! m = Some dm ∧ wasted dm = true ∧
    so_pool (dialed dm) = 1%nat.
Proof.
  split; [vm_compute; reflexivity|].
  destruct (demo_dial hs_waste 0 (0, 0)%nat) as (d0 & E0 & P0 & _); [vm_compute; reflexivity|].
  destruct (demo_dial hs_waste 2 (0, 0)%nat) as (d2 & E2 & P2 & _); [vm_compute; reflexivity|].
  refine (degraded_pool_excluded two_by_two 0 hs_waste _ _ 0 2 d0 d2 _ _ (demo_run_eq _) E0 E2 _ _ _ 1 _).
  - vm_compute. discriminate.
  - repeat (apply demo_hs_1; [tauto|]). constructor.
  - lia.
  - apply (demo_did hs_waste 0 d0 true (λ h, is_yield_degraded (sessionErr h)) E0).
    vm_compute. reflexivity.
  - by rewrite P0, P2.
  - vm_compute. lia.
Defined.

