(* ===== verification/EngineStats.v ===== *)
(** * internal/engine/stats.go

    The engine's running statistics: current hashrate, productive time,
    estimated earnings, the classification of rejects, the acceptance rate, the
    latency ring buffer with its quantiles, and the stall monitor.  Times are
    nanoseconds; a zero [time.Time] is [None]. *)
From S2P Require Import Prelude.
From S2P Require Import Float64.
From S2P Require Import Bech32.
From S2P Require Import Poolproto.
From S2P Require Import Sha256d.
From S2P Require Import Worker.

Open Scope Z_scope.

(** [Duration.Seconds]. *)
Definition durSeconds (d : Z) : float64 :=
  fadd (f64_of_Z (Z.quot d (10 ^ 9))) (fdiv (f64_of_Z (Z.rem d (10 ^ 9))) (f64_of_Z (10 ^ 9))).

(** [total += x] on uint64. *)
Definition sum64 (xs : list Z) : Z := foldl (λ t x, wrap 64 (t + x)) 0 xs.
Definition totalHashes (ws : list Worker) : Z := sum64 (hashCount <$> ws).
Definition totalDropped (ws : list Worker) : Z := sum64 (dropCount <$> ws).

(** ** Rates and accountants *)

Record hashrateWindow := { lastTotal : Z; lastTime : Z; primed : bool }.
Definition hashrateWindow_observe (total now : Z) (w : hashrateWindow) : hashrateWindow * float64 :=
  let w' := {| lastTotal := total; lastTime := now; primed := true |} in
  if negb (primed w) then (w', fzero)
  else
    let dt := durSeconds (now - lastTime w) in
    (w', if flt fzero dt && (lastTotal w <=? total)
         then fdiv (f64_of_Z (total - lastTotal w)) dt else fzero).

Record uptimeAccountant := { up_lastTick : option Z; accum : float64 }.
(** The seconds added to the counter. *)
Definition uptimeAccountant_observe (now : Z) (productive : bool) (u : uptimeAccountant)
    : uptimeAccountant * Z :=
  match up_lastTick u with
  | None => ({| up_lastTick := Some now; accum := accum u |}, 0)
  | Some t =>
      let elapsed := durSeconds (now - t) in
      if fle elapsed fzero || negb productive then ({| up_lastTick := Some now; accum := accum u |}, 0)
      else
        let acc := fadd (accum u) elapsed in
        let whole := big_Int acc in
        if 0 <? whole
        then ({| up_lastTick := Some now; accum := fsub acc (f64_of_Z whole) |}, whole)
        else ({| up_lastTick := Some now; accum := acc |}, 0)
  end.

Record satsAccountant := { sa_lastTick : option Z; total : float64 }.
Definition satsAccountant_observe (now : Z) (ratePerSec : float64) (productive : bool)
    (s : satsAccountant) : satsAccountant * float64 :=
  match sa_lastTick s with
  | None => ({| sa_lastTick := Some now; total := total s |}, total s)
  | Some t =>
      let elapsed := durSeconds (now - t) in
      let tot := if flt fzero elapsed && productive && flt fzero ratePerSec
                 then fadd (total s) (fmul ratePerSec elapsed) else total s in
      ({| sa_lastTick := Some now; total := tot |}, tot)
  end.

(** ** Rejects *)

Inductive reject_category := Stale | Duplicate | Difficulty_ | Hardware | Other.
#[export] Instance reject_category_eq_dec : EqDecision reject_category.
Proof. solve_decision. Defined.

Definition Contains (s sub : list Z) : bool := bool_decide (is_Some (Index s sub)).
Definition isText (s : list Z) (t : string) : bool := bool_decide (s = bytes_of_string t).
Definition hasText (s : list Z) (t : string) : bool := Contains s (bytes_of_string t).

(** The category; the diagnosis text goes with it. *)
Definition rejectClass (unicodeToLower : list Z → list Z) (reason : list Z) : reject_category :=
  let r := ToLower unicodeToLower reason in
  if isText r "stale-share" || isText r "invalid-job-id" || isText r "invalid-channel-id" then Stale
  else if isText r "difficulty-too-low" then Difficulty_
  else if hasText r "stale" || hasText r "job not found" || hasText r "unknown job" then Stale
  else if hasText r "duplicate" then Duplicate
  else if hasText r "above" || hasText r "target" || hasText r "low difficulty" || hasText r "high-hash"
  then Difficulty_
  else if hasText r "invalid" || hasText r "bad" then Hardware
  else Other.

Definition zeroHash : Hash := replicate 32 0.
Definition transitionReject (category : reject_category) (issued current : Hash) : bool :=
  if negb (bool_decide (category = Difficulty_)) then false
  else if bool_decide (issued = zeroHash) then false
  else negb (bool_decide (issued = current)).

Definition acceptanceRate (accepted rejected : Z) : float64 :=
  let total := wrap 64 (accepted + rejected) in
  if total =? 0 then fone else fdiv (f64_of_Z accepted) (f64_of_Z total).

Definition effectiveYield (expected productive uptime : float64) : float64 :=
  if fle uptime fzero then fzero
  else
    let fraction := fdiv productive uptime in
    let fraction := if flt fone fraction then fone else if flt fraction fzero then fzero else fraction in
    fmul expected fraction.

(** engine/run.go. *)
Definition yieldFailoverMinJudged : Z := 32.
Definition yieldFailoverAcceptanceFloor : float64 := f64_const 9 10.
Definition yieldDegraded (accepted rejected : Z) : bool :=
  (yieldFailoverMinJudged <=? wrap 64 (accepted + rejected)) &&
  flt (acceptanceRate accepted rejected) yieldFailoverAcceptanceFloor.

(** ** Latency *)

Record LatencyTracker := { samples : list float64; next : nat; filled : bool }.
Definition NewLatencyTracker (size : Z) : LatencyTracker :=
  let size := if size <? 1 then 256%nat else Z.to_nat size in
  {| samples := replicate size fzero; next := 0; filled := false |}.

Definition Record_ (ms : float64) (l : LatencyTracker) : LatencyTracker :=
  if flt ms fzero then l
  else
    let nx := ((next l + 1) mod length (samples l))%nat in
    {| samples := <[next l := ms]> (samples l); next := nx;
       filled := if (nx =? 0)%nat then true else filled l |}.

(** The samples a quantile is taken of. *)
Definition window (l : LatencyTracker) : list float64 :=
  take (if filled l then length (samples l) else next l) (samples l).

Section Quantile.
(** Go's conversion of a float64 to int, which the language fixes only for
    values in range. *)
Context (int_of_float : float64 → Z).
Definition rank (q : float64) (n : nat) : nat :=
  let idx := int_of_float (fadd (fmul q (f64_of_Z (Z.of_nat n))) (f64_const 1 2)) - 1 in
  let idx := if idx <? 0 then 0 else idx in
  Z.to_nat (if Z.of_nat n <=? idx then Z.of_nat n - 1 else idx).
(** [slices.Sort] on floats orders as [cmp.Compare]. *)
Definition Quantile (q : float64) (l : LatencyTracker) : float64 :=
  let cp := window l in
  match cp with
  | [] => fzero
  | _ => nth (rank q (length cp)) (SortStableFunc fcompare cp) fzero
  end.
End Quantile.

(** ** The stall monitor *)

Record HashrateMonitor := { floor : float64; maxStall : Z; stallCount : Z; warned : bool }.
Definition NewHashrateMonitor (floor_ : float64) (maxStall_ : Z) : HashrateMonitor :=
  {| floor := floor_; maxStall := if maxStall_ <? 1 then 3 else maxStall_; stallCount := 0;
     warned := false |}.

Inductive monitor_log := StallWarning (samples : Z) | Recovered.
Definition Observe (hashrate : float64) (m : HashrateMonitor) : HashrateMonitor * list monitor_log :=
  if fle hashrate (floor m) then
    let c := stallCount m + 1 in
    let warn := (maxStall m <=? c) && negb (warned m) in
    ({| floor := floor m; maxStall := maxStall m; stallCount := c; warned := warned m || warn |},
     if warn then [StallWarning c] else [])
  else
    ({| floor := floor m; maxStall := maxStall m; stallCount := 0; warned := false |},
     if warned m then [Recovered] else []).
Definition Stalled (m : HashrateMonitor) : bool := warned m.

(** ** The ring buffer holds the most recent samples *)

Definition lastn {A} (n : nat) (l : list A) : list A := drop (length l - n) l.

(** The samples [Record_] keeps. *)
Definition recorded (h : list float64) : list float64 := filter (λ ms, flt ms fzero = false) h.

(** [h] is what has been recorded: in order until the buffer is full, and a
    rotation of the last [size] of it from then on. *)
Definition ring (size : nat) (h : list float64) (l : LatencyTracker) : Prop :=
  length (samples l) = size ∧ (next l < size)%nat ∧
  if filled l then (size ≤ length h)%nat ∧ drop (next l) (samples l) ++ take (next l) (samples l) = lastn size h
  else take (next l) (samples l) = h ∧ next l = length h.

Lemma take_S_insert {A} i (x : A) l : (i < length l)%nat → take (S i) (<[i := x]> l) = take i l ++ [x].
Proof.
  intros Hi. rewrite (take_S_r _ i x) by (by apply list_lookup_insert_eq). by rewrite take_insert_ge.
Qed.

Lemma drop_S_tail {A} k (l : list A) : drop (S k) l = tail (drop k l).
Proof. revert k. induction l as [|x l IH]; intros [|k]; try done. apply IH. Qed.

Lemma lastn_snoc {A} n (h : list A) x :
  (n ≤ length h)%nat → (0 < n)%nat → lastn n (h ++ [x]) = tail (lastn n h) ++ [x].
Proof.
  intros Hn H0. unfold lastn. rewrite length_app. cbn [length].
  replace (length h + 1 - n)%nat with (S (length h - n)) by lia.
  rewrite drop_app_le by lia. by rewrite drop_S_tail.
Qed.

Lemma ring_record size h ms l :
  ring size h l → flt ms fzero = false → ring size (h ++ [ms]) (Record_ ms l).
Proof.
  intros (Hl & Hn & Hf) Hms. unfold Record_. rewrite Hms.
  unfold ring. cbn [samples next filled]. rewrite length_insert, Hl.
  split; [done|]. split; [apply Nat.mod_upper_bound; lia|].
  assert (length (samples l) ≠ O) as H0 by lia.
  destruct (decide (S (next l) = size)) as [He|Hne].
  - (* the buffer wraps *)
    assert (((next l + 1) mod size = 0)%nat) as ->.
    { replace (next l + 1)%nat with size by lia. apply Nat.Div0.mod_same. }
    cbn [Nat.eqb drop]. rewrite take_0, app_nil_r.
    assert (<[next l := ms]> (samples l) = take (next l) (samples l) ++ [ms]) as ->.
    { rewrite <- take_S_insert by lia. rewrite take_ge; [done|]. rewrite length_insert. lia. }
    destruct (filled l).
    + destruct Hf as [Hh Hr]. split; [rewrite length_app; lia|].
      rewrite lastn_snoc, <- Hr by lia. f_equal.
      destruct (drop (next l) (samples l)) as [|y [|z r]] eqn:E;
        apply (f_equal length) in E; rewrite length_drop in E; cbn [length] in E; [lia|done|lia].
    + destruct Hf as [<- Hh]. split; [rewrite length_app, length_take; cbn; lia|].
      unfold lastn. rewrite length_app, length_take. cbn [length].
      by replace (next l `min` length (samples l) + 1 - size)%nat with O by lia.
  - assert (((next l + 1) mod size = S (next l))%nat) as -> by (rewrite Nat.mod_small; lia).
    cbn [Nat.eqb]. destruct (filled l).
    + destruct Hf as [Hh Hr]. split; [rewrite length_app; lia|].
      rewrite take_S_insert, drop_insert_lt by lia.
      rewrite lastn_snoc, <- Hr, app_assoc by lia. f_equal.
      rewrite drop_S_tail. destruct (drop (next l) (samples l)) as [|y r] eqn:E; [|done].
      apply (f_equal length) in E. rewrite length_drop in E. cbn in E. lia.
    + destruct Hf as [<- Hh]. rewrite take_S_insert by lia. split; [done|].
      rewrite length_app, length_take. cbn. lia.
Qed.

Lemma Record_negative ms l : flt ms fzero = true → Record_ ms l = l.
Proof. unfold Record_. by intros ->. Qed.

(** Recording a history into a fresh tracker. *)
Definition records (size : Z) (h : list float64) : LatencyTracker :=
  foldl (λ l ms, Record_ ms l) (NewLatencyTracker size) h.
Definition tracker_size (size : Z) : nat := if size <? 1 then 256%nat else Z.to_nat size.

Lemma records_ring size h : ring (tracker_size size) (recorded h) (records size h).
Proof.
  induction h as [|ms h IH] using rev_ind; unfold records, recorded.
  - cbn [foldl]. unfold ring, NewLatencyTracker, tracker_size. cbn [samples next filled].
    split; [by case_if; rewrite length_replicate|]. split; [case_if; lia|done].
  - rewrite foldl_app, filter_app. cbn [foldl]. fold (records size h). fold (recorded h).
    destruct (flt ms fzero) eqn:E.
    + rewrite Record_negative by done. rewrite filter_cons_False by congruence.
      by rewrite filter_nil, app_nil_r.
    + rewrite filter_cons_True by done. rewrite filter_nil. by apply ring_record.
Qed.

Lemma ring_window size h l : ring size h l → window l ≡ₚ lastn size h.
Proof.
  intros (Hl & Hn & Hf). unfold window. destruct (filled l).
  - destruct Hf as [_ <-]. rewrite take_ge by lia.
    rewrite <- (take_drop (next l) (samples l)) at 1. apply Permutation_app_comm.
  - destruct Hf as [-> Hh]. unfold lastn.
    by replace (length h - size)%nat with O by lia.
Qed.

(** ** Quantiles are order statistics *)

Lemma fcompare_le a b : IsNaN a = false → IsNaN b = false → cmp_le fcompare a b ↔ fle a b = true.
Proof.
  intros Ha Hb. unfold cmp_le, fcompare. rewrite Ha, Hb.
  destruct (flt a b) eqn:E1; [split; [intros _; by apply flt_le|done]|].
  destruct (flt b a) eqn:E2.
  - split; [done|]. intros H. apply (flt_fle_neg b a) in H; auto. congruence.
  - split; [|done]. intros _. by apply flt_fle_neg.
Qed.

Lemma fcompare_sorted l :
  Forall (λ x, IsNaN x = false) l → StronglySorted (cmp_le fcompare) (SortStableFunc fcompare l).
Proof.
  apply SortStableFunc_sorted.
  - intros x y Hx Hy E. apply fcompare_le; auto. destruct (fle_total x y Hx Hy) as [H|H]; [|done].
    by apply fcompare_le in H.
  - intros x y z Hx Hy Hz. rewrite !fcompare_le by done. intros H1 H2. by apply (fle_trans x y z).
Qed.

Lemma StronglySorted_app_inv {A} (R : A → A → Prop) l1 l2 :
  StronglySorted R (l1 ++ l2) → Forall (λ x, Forall (R x) l2) l1 ∧ StronglySorted R l2.
Proof.
  induction l1 as [|x l1 IH]; cbn [app]; [by split|]. intros [H1 H2]%StronglySorted_inv.
  apply IH in H1 as [H1 H3]. split; [|done]. constructor; [|done]. by apply Forall_app in H2 as [_ ?].
Qed.

Lemma filter_none {A} (P : A → Prop) `{∀ x, Decision (P x)} l : Forall (λ x, ¬ P x) l → filter P l = [].
Proof. induction 1; [done|]. by rewrite filter_cons_False. Qed.

Lemma filter_all {A} (P : A → Prop) `{∀ x, Decision (P x)} l : Forall P l → filter P l = l.
Proof. induction 1 as [|x l Hx _ IH]; [done|]. by rewrite filter_cons_True, IH. Qed.

Lemma sorted_rank s r v :
  Forall (λ x, IsNaN x = false) s → StronglySorted (cmp_le fcompare) s → s !! r = Some v →
  (length (filter (λ x, flt x v = true) s) ≤ r < length (filter (λ x, fle x v = true) s))%nat.
Proof.
  intros HN HS Hr. pose proof (take_drop_middle s r v Hr) as Hs.
  assert (length (take r s) = r) as Hlr by (apply length_take_le; apply lookup_lt_Some in Hr; lia).
  rewrite <- Hs in HN, HS. apply Forall_app in HN as [HN1 HN2]. apply Forall_cons in HN2 as [Hv HN2].
  apply StronglySorted_app_inv in HS as [HA HB]. apply StronglySorted_inv in HB as [_ HB].
  rewrite <- Hs, !filter_app, !length_app. split.
  - rewrite (filter_none (λ x, flt x v = true) (v :: drop (S r) s)).
    + cbn [length]. pose proof (length_filter (λ x, flt x v = true) (take r s)). lia.
    + constructor.
      * rewrite not_true_iff_false. apply flt_fle_neg; auto. by apply fle_refl.
      * rewrite Forall_forall in HB, HN2 |- *. intros x Hx. rewrite not_true_iff_false.
        apply flt_fle_neg; auto. apply fcompare_le; auto.
  - rewrite (filter_all (λ x, fle x v = true) (take r s)).
    + rewrite Hlr. rewrite filter_cons_True by (by apply fle_refl). cbn [length]. lia.
    + rewrite Forall_forall in HA, HN1 |- *. intros x Hx. apply fcompare_le; auto.
      by apply HA in Hx as [? _]%Forall_cons.
Qed.

Lemma rank_lt conv q n : (0 < n)%nat → (rank conv q n < n)%nat.
Proof.
  intros Hn. unfold rank. set (i := conv _ - 1). clearbody i.
  destruct (Z.ltb_spec i 0); [if_lia; lia|]. destruct (Z.leb_spec (Z.of_nat n) i); lia.
Qed.

(** The index the code computes for the three quantiles it publishes, for every
    window size up to 256, is the nearest rank. *)
Definition nearest_rank (p n : Z) : Z := Z.min (n - 1) (Z.max 0 ((2 * p * n + 100) / 200 - 1)).
Lemma published_ranks :
  forallb (λ n, forallb (λ p, Z.of_nat (rank big_Int (f64_const p 100) n) =? nearest_rank p (Z.of_nat n))
                  [50; 95; 99]) (seq 1 256) = true.
Proof. vm_compute. reflexivity. Qed.

(** The latency quantiles are exact over the most recent samples: whatever
    was recorded, [Quantile] returns one of the last [size] samples, with at
    most [rank] of them below it and more than [rank] at or below it, for any
    [q] and however out-of-range floats convert; and for the published p50, p95
    and p99 the rank is the nearest rank. *)
Theorem Quantile_exact conv size h q :
  Forall (λ x, IsNaN x = false) h → recorded h ≠ [] →
  let recent := lastn (tracker_size size) (recorded h) in
  let v := Quantile conv q (records size h) in
  let r := rank conv q (length recent) in
  v ∈ recent ∧
  (length (filter (λ x, flt x v = true) recent) ≤ r < length (filter (λ x, fle x v = true) recent))%nat ∧
  (conv = big_Int → ∀ p, p ∈ [50; 95; 99] → q = f64_const p 100 → (length recent ≤ 256)%nat →
     Z.of_nat r = nearest_rank p (Z.of_nat (length recent))).
Proof.
  intros HN Hne recent v r.
  pose proof (records_ring size h) as HR. pose proof (ring_window _ _ _ HR) as HP. fold recent in HP.
  assert (0 < length recent)%nat as H0.
  { unfold recent, lastn. rewrite length_drop.
    assert (0 < tracker_size size)%nat by (unfold tracker_size; case_if; lia).
    destruct (recorded h); [done|cbn; lia]. }
  pose proof (Permutation_length HP) as HL.
  assert (Forall (λ x, IsNaN x = false) (window (records size h))) as HW.
  { rewrite HP. unfold recent, lastn. apply Forall_drop. unfold recorded.
    rewrite Forall_forall in HN |- *. intros x [_ Hx]%list_elem_of_filter. by apply HN. }
  assert (SortStableFunc fcompare (window (records size h)) !! r = Some v) as Hr.
  { unfold v, Quantile. destruct (window (records size h)) as [|x w] eqn:EW.
    { rewrite <- HL in H0. cbn in H0. lia. }
    rewrite HL. fold r.
    destruct (nth_lookup_or_length (SortStableFunc fcompare (x :: w)) r fzero) as [E|E]; [done|].
    rewrite (Permutation_length (SortStableFunc_Permutation fcompare (x :: w))), HL in E.
    pose proof (rank_lt conv q (length recent) H0). unfold r in E. lia. }
  split; [|split].
  - rewrite <- HP, <- (SortStableFunc_Permutation fcompare). by eapply list_elem_of_lookup_2.
  - assert (∀ (P : float64 → Prop) `{∀ x, Decision (P x)},
      length (filter P recent) =
      length (filter P (SortStableFunc fcompare (window (records size h))))) as HC.
    { intros P HD. apply Permutation_length. by rewrite SortStableFunc_Permutation, HP. }
    rewrite !HC. apply sorted_rank; [|by apply fcompare_sorted|done].
    by rewrite SortStableFunc_Permutation.
  - intros Hc p Hp Hq Hle. pose proof published_ranks as Hall.
    rewrite forallb_forall in Hall. specialize (Hall (length recent)).
    rewrite in_seq in Hall. specialize (Hall ltac:(lia)). rewrite forallb_forall in Hall.
    specialize (Hall p). apply Z.eqb_eq. unfold r. rewrite Hc, Hq. apply Hall.
    by apply list_elem_of_In.
Qed.

(** ** The stall monitor against its history *)

(** How many of the most recent samples are at or below the floor. *)
Fixpoint stalled_run (f : float64) (rev_h : list float64) : Z :=
  match rev_h with
  | x :: rest => if fle x f then 1 + stalled_run f rest else 0
  | [] => 0
  end.
Definition trailing (f : float64) (h : list float64) : Z := stalled_run f (reverse h).

Lemma stalled_run_nonneg f h : 0 ≤ stalled_run f h.
Proof. induction h as [|x h IH]; cbn [stalled_run]; [lia|]. case_if; lia. Qed.

Lemma trailing_snoc f h x : trailing f (h ++ [x]) = if fle x f then 1 + trailing f h else 0.
Proof. unfold trailing. by rewrite reverse_snoc. Qed.

Definition observes (f : float64) (k : Z) (h : list float64) : HashrateMonitor :=
  foldl (λ m x, (Observe x m).1) (NewHashrateMonitor f k) h.
Definition effective_max (k : Z) : Z := if k <? 1 then 3 else k.

Lemma observes_state f k h :
  observes f k h = {| floor := f; maxStall := effective_max k; stallCount := trailing f h;
                      warned := effective_max k <=? trailing f h |}.
Proof.
  assert (1 ≤ effective_max k) as Hk by (unfold effective_max; case_if; lia).
  induction h as [|x h IH] using rev_ind; unfold observes.
  - cbn [foldl]. unfold NewHashrateMonitor, trailing. cbn [reverse rev_append stalled_run].
    fold (effective_max k). f_equal. symmetry. apply Z.leb_gt. cbn. lia.
  - rewrite foldl_app. fold (observes f k h). cbn [foldl]. rewrite IH, trailing_snoc.
    unfold Observe. cbn [floor maxStall stallCount warned].
    pose proof (stalled_run_nonneg f (reverse h)) as Hn. fold (trailing f h) in Hn.
    destruct (fle x f); cbn [fst].
    + rewrite (Z.add_comm 1). f_equal.
      destruct (Z.leb_spec (effective_max k) (trailing f h)),
               (Z.leb_spec (effective_max k) (trailing f h + 1)); cbn; lia || done.
    + f_equal. symmetry. apply Z.leb_gt. lia.
Qed.

(** The stall monitor is exact: it reports a stall if and only if at least
    [maxStall] samples in a row up to now are at or below the floor; it logs one
    warning per stall, at the sample that completes the run, and one recovery,
    at the first sample above the floor after a warning. *)
Theorem monitor_exact f k h x :
  (Stalled (observes f k h) = true ↔ effective_max k ≤ trailing f h) ∧
  (Observe x (observes f k h)).2 =
    if fle x f then
      if trailing f (h ++ [x]) =? effective_max k then [StallWarning (effective_max k)] else []
    else if effective_max k <=? trailing f h then [Recovered] else [].
Proof.
  rewrite observes_state. split.
  - cbn [Stalled warned]. apply Z.leb_le.
  - unfold Observe. cbn [floor maxStall stallCount warned]. rewrite trailing_snoc.
    destruct (fle x f); cbn [snd]; [|done].
    destruct (Z.leb_spec (effective_max k) (trailing f h)),
             (Z.leb_spec (effective_max k) (trailing f h + 1)),
             (Z.eqb_spec (1 + trailing f h) (effective_max k)); cbn; try lia; try done.
    do 2 f_equal. lia.
Qed.

(** ** Witnesses *)

Definition demo_latencies : list float64 := map f64_of_Z [30; 10; -5; 20; 50; 40].
Lemma Quantile_exact_witness :
  Quantile big_Int (f64_const 50 100) (records 4 demo_latencies) = f64_of_Z 20 ∧
  lastn (tracker_size 4) (recorded demo_latencies) = map f64_of_Z [10; 20; 50; 40] ∧
  Quantile big_Int (f64_const 50 100) (records 4 demo_latencies) ∈
    lastn (tracker_size 4) (recorded demo_latencies).
Proof.
  split; [vm_compute; reflexivity|]. split; [vm_compute; reflexivity|].
  apply (Quantile_exact big_Int 4 demo_latencies (f64_const 50 100)).
  - repeat constructor.
  - vm_compute. discriminate.
Defined.
