(* ===== verification/EngineV2.v ===== *)
(** * internal/engine/run.go: the Stratum V2 session

    [runSession] after the dial: the handshake, and the session loop as one
    function per arm of its select statement (pool message, found share, stats
    tick, limiter tick), over the session's variables and the workers it feeds.
    The curtailment gate, the arbitration pause set and the clock are read from
    a [world] that other goroutines change between and during steps.  The metrics
    of the engine are present, as [Run] guarantees. *)
From S2P Require Import Prelude.
From S2P Require Import Float64.
From S2P Require Import Sha256d.
From S2P Require Import Worker.
From S2P Require Import Poolproto.
From S2P Require Import Wire.
From S2P Require Import Frame.
From S2P Require Import Messages.
From S2P Require Import StratumV2.
From S2P Require Import Reconnect.
From S2P Require Import EngineStats.

Open Scope Z_scope.

Record world := {
  curtailed : bool;        (* curtailGate *)
  paused : gset string;    (* arbPaused *)
  clock : Z;               (* time.Now(), nanoseconds since the epoch *)
}.
Definition unix (w : world) : Z := clock w / 10 ^ 9.

(** ** Jobs and workers *)

Definition jobsCap : nat := 64.

Definition storeBoundedJob (jobs : gmap Z NewMiningJob) (order : list Z) (j : NewMiningJob)
    : list Z * gmap Z NewMiningJob :=
  let order := match jobs !! nmj_JobID j with
               | Some _ => order
               | None => order ++ [nmj_JobID j]
               end in
  evict jobsCap order (<[nmj_JobID j := j]> jobs).

Definition rollNTime (w : world) (declared : Z) : Z :=
  let now := wrap 32 (unix w) in if declared <? now then now else declared.

Record jobstate := {
  jobs : gmap Z NewMiningJob;
  jobOrder : list Z;
  active : option NewMiningJob;
  tipHash : list Z;       (* prevHash *)
  tipNBits : Z;           (* prevNBits *)
  activeNTime : Z;
  haveTip : bool;         (* havePrev *)
  shareTarget : Hash;
}.

(** The workers, and the number of [Work] values allocated so far. *)
Record fleet := { workers : list Worker; allocated : nat }.

Definition idleAll (f : fleet) : fleet :=
  {| workers := SetWork None <$> workers f; allocated := allocated f |}.

(** [wr.SetWork(w)] for every worker that is not paused. *)
Definition armAll (w : world) (wk : Work) (f : fleet) : fleet :=
  {| workers := (λ wr, if bool_decide (DeviceID wr ∈ paused w) then wr
                       else SetWork (Some (allocated f, wk)) wr) <$> workers f;
     allocated := S (allocated f) |}.

Definition jobWork (w : world) (j : NewMiningJob) (chanID : Z) (prev : list Z) (nbits ntime : Z)
    (target : Hash) : Work :=
  {| Work_JobID := nmj_JobID j; Work_ChannelID := chanID;
     Work_Header := {| Version := nmj_Version j; PrevHash := prev; MerkleRoot := nmj_MerkleRoot j;
                       Time := rollNTime w ntime; Bits := nbits; Nonce := 0 |};
     Work_NBits := nbits; Work_Target := target; Work_ExtraNonce := [] |}.

Definition updateWork (w : world) (j : NewMiningJob) (chanID : Z) (prev : list Z) (nbits ntime : Z)
    (target : Hash) (f : fleet) : fleet :=
  match (if bool_decide (target = zeroHash) then TargetFromNBits nbits else Ok target) with
  | Err _ => f
  | Ok target => armAll w (jobWork w j chanID prev nbits ntime target) f
  end.

(** [startJob]: the variables, then — unless curtailed — the workers. *)
Definition activate (j : NewMiningJob) (ntime : Z) (s : jobstate) : jobstate :=
  {| jobs := jobs s; jobOrder := jobOrder s; active := Some j; tipHash := tipHash s;
     tipNBits := tipNBits s; activeNTime := ntime; haveTip := haveTip s;
     shareTarget := shareTarget s |}.
Definition startJob (w : world) (chanID : Z) (j : NewMiningJob) (ntime : Z) (sf : jobstate * fleet)
    : jobstate * fleet :=
  let s := activate j ntime sf.1 in
  (s, if curtailed w then sf.2
      else updateWork w j chanID (tipHash s) (tipNBits s) ntime (shareTarget s) sf.2).

Definition newMiningJob (w : world) (chanID : Z) (j : NewMiningJob) (sf : jobstate * fleet)
    : jobstate * fleet :=
  let s := sf.1 in
  let '(order, js) := storeBoundedJob (jobs s) (jobOrder s) j in
  let s := {| jobs := js; jobOrder := order; active := active s; tipHash := tipHash s;
              tipNBits := tipNBits s; activeNTime := activeNTime s; haveTip := haveTip s;
              shareTarget := shareTarget s |} in
  if nmj_HasNtimeStart j && haveTip s then startJob w chanID j (nmj_NtimeStart j) (s, sf.2)
  else (s, sf.2).

Definition setNewPrevHash (w : world) (chanID : Z) (p : SetNewPrevHash) (sf : jobstate * fleet)
    : jobstate * fleet :=
  let s := sf.1 in
  let tip js order act :=
    {| jobs := js; jobOrder := order; active := act; tipHash := snp_PrevHash p;
       tipNBits := snp_NBits p; activeNTime := activeNTime s; haveTip := true;
       shareTarget := shareTarget s |} in
  match jobs s !! snp_JobID p with
  | Some named =>
      let ntime := if nmj_HasNtimeStart named && (snp_NtimeStart p <? nmj_NtimeStart named)
                   then nmj_NtimeStart named else snp_NtimeStart p in
      startJob w chanID named ntime (tip {[snp_JobID p := named]} [snp_JobID p] (active s), sf.2)
  | None => (tip ∅ [] None, idleAll sf.2)
  end.

Definition setTarget (w : world) (chanID : Z) (t : SetTarget) (sf : jobstate * fleet)
    : jobstate * fleet :=
  let s := sf.1 in
  let s := {| jobs := jobs s; jobOrder := jobOrder s; active := active s; tipHash := tipHash s;
              tipNBits := tipNBits s; activeNTime := activeNTime s; haveTip := haveTip s;
              shareTarget := st_Target t |} in
  match active s with
  | Some j => if haveTip s then startJob w chanID j (activeNTime s) (s, sf.2) else (s, sf.2)
  | None => (s, sf.2)
  end.

(** ** Shares and verdicts *)

Definition submitTimesCap : Z := 1024.
Definition submitBurst : nat := 32.

(** Counters of the metrics registry; 64 bits, not exhausted by one increment
    per share. *)
Record counters := {
  sharesFound : Z; sharesSubmitted : Z; sharesSubmitDropped : Z;
  sharesAccepted : Z; sharesRejected : Z;
  transitions : Z;   (* rejectReason("difficulty-transition") *)
}.

Record submissions := {
  seqNum : Z;
  submitTimes : gmap Z Z;
  submitTargets : gmap Z Hash;
  latency : LatencyTracker;
  tokens : nat;      (* the limiter's channel *)
  count : counters;
}.

Definition millis (d : Z) : float64 := fdiv (f64_of_Z (Z.quot d 1000)) (f64_of_Z 1000).

(** [SubmitSharesSuccess]; the order in which the range loop meets the settled
    entries is not fixed by Go and matters only to the latency ring. *)
Definition submitSuccess (now : Z) (m : SubmitSharesSuccess) (s : submissions) : submissions :=
  let last := sssu_LastSequenceNumber m in
  if seqNum s <? last then s
  else
    let settled := filter (λ kv, kv.1 ≤ last) (submitTimes s) in
    let n := sssu_NewSubmitsAccepted m in
    let n := if (n =? 0) || (Z.of_nat (size settled) <? n) then Z.of_nat (size settled) else n in
    let c := count s in
    {| seqNum := seqNum s;
       submitTimes := filter (λ kv, ¬ kv.1 ≤ last) (submitTimes s);
       submitTargets := filter (λ kv, settled !! kv.1 = None) (submitTargets s);
       latency := foldl (λ l kv, Record_ (millis (now - kv.2)) l) (latency s) (map_to_list settled);
       tokens := tokens s;
       count := {| sharesFound := sharesFound c; sharesSubmitted := sharesSubmitted c;
                   sharesSubmitDropped := sharesSubmitDropped c;
                   sharesAccepted := sharesAccepted c + n; sharesRejected := sharesRejected c;
                   transitions := transitions c |} |}.

(** [SubmitSharesError] against the current share target; the flag is the
    [continue] of the two refusals. *)
Definition submitError (unicodeToLower : list Z → list Z) (now : Z) (current : Hash)
    (e : SubmitSharesError) (s : submissions) : submissions * bool :=
  let seq := sse_SequenceNumber e in
  if seqNum s <? seq then (s, true)
  else match submitTimes s !! seq with
  | None => (s, true)
  | Some sent =>
      let category := rejectClass unicodeToLower (SanitizePoolText (bytes_of_string (sse_Error e))) in
      let transition := match submitTargets s !! seq with
                        | Some issued => transitionReject category issued current
                        | None => false
                        end in
      let c := count s in
      ({| seqNum := seqNum s;
          submitTimes := delete seq (submitTimes s);
          submitTargets := delete seq (submitTargets s);
          latency := Record_ (millis (now - sent)) (latency s);
          tokens := tokens s;
          count := {| sharesFound := sharesFound c; sharesSubmitted := sharesSubmitted c;
                      sharesSubmitDropped := sharesSubmitDropped c;
                      sharesAccepted := sharesAccepted c;
                      sharesRejected := sharesRejected c + (if transition then 0 else 1);
                      transitions := transitions c + (if transition then 1 else 0) |} |}, false)
  end.

(** The engine's own [sendMsg]. *)
Definition sendFrame (write_ok : bool) (msgType : Z) (isChannel : bool) (enc : result (list Z))
    : result (list Z) :=
  match enc with
  | Err e => Err (Wrapf "engine: encode 0x%02X: %w" e)
  | Ok payload =>
      match WrapMessage msgType isChannel payload with
      | Err e => Err (Wrapf "engine: wrap 0x%02X: %w" e)
      | Ok f => data ← EncodeFrame f; if write_ok then Ok data else Err (Sentinel "net")
      end
  end.

Definition shareMessage (chanID seq : Z) (sh : Share) : SubmitSharesStandard :=
  {| sss_ChannelID := chanID; sss_SequenceNumber := seq; sss_JobID := Share_JobID sh;
     sss_Nonce := Share_Nonce sh; sss_NTime := Share_NTime sh; sss_NVersion := Share_Version sh |}.

(** The cap on unacknowledged shares. *)
Definition reap (s : submissions) : submissions :=
  if submitTimesCap <? Z.of_nat (size (submitTimes s)) then
    let cutoff := wrap 32 (seqNum s - Z.quot submitTimesCap 2) in
    let old := filter (λ kv, kv.1 < cutoff) (submitTimes s) in
    {| seqNum := seqNum s;
       submitTimes := filter (λ kv, ¬ kv.1 < cutoff) (submitTimes s);
       submitTargets := filter (λ kv, old !! kv.1 = None) (submitTargets s);
       latency := latency s; tokens := tokens s; count := count s |}
  else s.

(** The variables after a found share of sequence number [seq]: one more found,
    [sub] more submitted and [drop] more dropped. *)
Definition tally (seq : Z) (times : gmap Z Z) (targets : gmap Z Hash) (toks : nat) (sub drop : Z)
    (s : submissions) : submissions :=
  let c := count s in
  {| seqNum := seq; submitTimes := times; submitTargets := targets; latency := latency s;
     tokens := toks;
     count := {| sharesFound := sharesFound c + 1; sharesSubmitted := sharesSubmitted c + sub;
                 sharesSubmitDropped := sharesSubmitDropped c + drop;
                 sharesAccepted := sharesAccepted c; sharesRejected := sharesRejected c;
                 transitions := transitions c |} |}.

(** A found share: the frame written, if any, and the error that ends the
    session if the write fails. *)
Definition foundShare (now : Z) (write_ok : bool) (chanID : Z) (act : option NewMiningJob)
    (sh : Share) (s : submissions) : submissions * option (result (list Z)) :=
  let seq := wrap 32 (seqNum s + 1) in
  let dropped := (tally seq (submitTimes s) (submitTargets s) (tokens s) 0 1 s, None) in
  match act with
  | None => dropped
  | Some j =>
      if negb (Share_JobID sh =? nmj_JobID j) then dropped
      else match tokens s with
      | O => dropped
      | S toks =>
          match sendFrame write_ok MsgSubmitSharesStandard true
                  (SubmitSharesStandard_Encode (shareMessage chanID seq sh)) with
          | Err e => (tally seq (submitTimes s) (submitTargets s) toks 0 0 s,
                      Some (Err (Wrapf "engine: submit share: %w" e)))
          | Ok data =>
              (reap (tally seq (<[seq := now]> (submitTimes s))
                       (<[seq := Share_Target sh]> (submitTargets s)) toks 1 0 s), Some (Ok data))
          end
      end
  end.

(** ** Pool messages *)

Definition channelIDOf (m : Message) : option Z :=
  match m_NewMiningJob m, m_SetNewPrevHash m, m_SetTarget m, m_SubmitSharesSuccess m,
        m_SubmitSharesError m, m_CloseChannel m with
  | Some x, _, _, _, _, _ => Some (nmj_ChannelID x)
  | _, Some x, _, _, _, _ => Some (snp_ChannelID x)
  | _, _, Some x, _, _, _ => Some (st_ChannelID x)
  | _, _, _, Some x, _, _ => Some (sssu_ChannelID x)
  | _, _, _, _, Some x, _ => Some (sse_ChannelID x)
  | _, _, _, _, _, Some x => Some (cc_ChannelID x)
  | _, _, _, _, _, _ => None
  end.

Definition misplacedMsgType (m : Message) : option Z :=
  match m_SetupConnection m, m_SetupConnectionSuccess m, m_SetupConnectionError m,
        m_OpenMiningChannel m, m_OpenMiningChannelSuccess m, m_OpenMiningChannelError m,
        m_SubmitSharesStandard m with
  | Some _, _, _, _, _, _, _ => Some MsgSetupConnection
  | _, Some _, _, _, _, _, _ => Some MsgSetupConnectionSuccess
  | _, _, Some _, _, _, _, _ => Some MsgSetupConnectionError
  | _, _, _, Some _, _, _, _ => Some MsgOpenMiningChannel
  | _, _, _, _, Some _, _, _ => Some MsgOpenMiningChannelSuccess
  | _, _, _, _, _, Some _, _ => Some MsgOpenMiningChannelError
  | _, _, _, _, _, _, Some _ => Some MsgSubmitSharesStandard
  | _, _, _, _, _, _, _ => None
  end.

Record v2session := {
  chan : Z;
  group : Z;
  job : jobstate;
  feet : fleet;
  sub : submissions;
  seenUnknown : gset Z;
  seenMisplaced : gset Z;
  startAccepted : Z;
  startRejected : Z;
}.
Definition with_jobs (sf : jobstate * fleet) (s : v2session) : v2session :=
  {| chan := chan s; group := group s; job := sf.1; feet := sf.2; sub := sub s;
     seenUnknown := seenUnknown s; seenMisplaced := seenMisplaced s;
     startAccepted := startAccepted s; startRejected := startRejected s |}.
Definition with_sub (x : submissions) (s : v2session) : v2session :=
  {| chan := chan s; group := group s; job := job s; feet := feet s; sub := x;
     seenUnknown := seenUnknown s; seenMisplaced := seenMisplaced s;
     startAccepted := startAccepted s; startRejected := startRejected s |}.
Definition with_seen (u m : gset Z) (s : v2session) : v2session :=
  {| chan := chan s; group := group s; job := job s; feet := feet s; sub := sub s;
     seenUnknown := u; seenMisplaced := m;
     startAccepted := startAccepted s; startRejected := startRejected s |}.

(** The guard on channel-scoped frames. *)
Definition foreign (m : Message) (s : v2session) : bool :=
  match channelIDOf m with
  | Some cid =>
      negb (cid =? chan s) && bool_decide (m_SetNewPrevHash m = None) &&
      (bool_decide (m_CloseChannel m = None) || negb (cid =? group s))
  | None => false
  end.

Definition whenSome {A B} (o : option A) (f : A → B → B) (b : B) : B :=
  match o with Some a => f a b | None => b end.

Definition poolMessage (unicodeToLower : list Z → list Z) (w : world) (m : Message) (s : v2session)
    : v2session * option error :=
  if foreign m s then (s, None)
  else match m_Unknown m with
  | Some u => (with_seen ({[um_MsgType u]} ∪ seenUnknown s) (seenMisplaced s) s, None)
  | None =>
  match misplacedMsgType m with
  | Some mt => (with_seen (seenUnknown s) ({[mt]} ∪ seenMisplaced s) s, None)
  | None =>
      let sf := (job s, feet s) in
      let sf := whenSome (m_NewMiningJob m) (newMiningJob w (chan s)) sf in
      let sf := whenSome (m_SetNewPrevHash m) (setNewPrevHash w (chan s)) sf in
      let sf := whenSome (m_SetTarget m) (setTarget w (chan s)) sf in
      let s := with_jobs sf s in
      let s := with_sub (whenSome (m_SubmitSharesSuccess m) (submitSuccess (clock w)) (sub s)) s in
      let '(x, skip) := match m_SubmitSharesError m with
                        | Some e => submitError unicodeToLower (clock w) (shareTarget (job s)) e (sub s)
                        | None => (sub s, false)
                        end in
      let s := with_sub x s in
      if skip then (s, None)
      else (s, match m_CloseChannel m with
               | Some c => Some (Errorf "engine: pool closed channel %d (%s)" [cc_ChannelID c])
               | None => None
               end)
  end
  end.

(** ** The session loop *)

(** The yield check of the stats tick. *)
Definition yieldCheck (yieldFailover : bool) (s : v2session) : option error :=
  let c := count (sub s) in
  if yieldFailover && yieldDegraded (wrap 64 (sharesAccepted c - startAccepted s))
                                    (wrap 64 (sharesRejected c - startRejected s))
  then Some errYieldDegraded else None.

Inductive event :=
  | PoolMsg (m : result Message)            (* from the reader goroutine *)
  | PoolClosed
  | FoundShare (sh : Share) (write_ok : bool)
  | StatsTick (yieldFailover : bool)
  | LimiterTick
  | Cancelled.                              (* ctx.Done, or the share channel closed *)

(** One turn of the loop: the new state, the frame written, the error that ends
    the session. *)
Definition turn (unicodeToLower : list Z → list Z) (w : world) (e : event) (s : v2session)
    : v2session * option (list Z) * option error :=
  match e with
  | PoolMsg (Ok m) => let '(s, err) := poolMessage unicodeToLower w m s in (s, None, err)
  | PoolMsg (Err e) => (s, None, Some (Wrapf "engine: pool read: %w" e))
  | PoolClosed => (s, None, Some (Sentinel "engine: pool closed connection"))
  | FoundShare sh ok =>
      match foundShare (clock w) ok (chan s) (active (job s)) sh (sub s) with
      | (x, Some (Ok data)) => (with_sub x s, Some data, None)
      | (x, Some (Err e)) => (with_sub x s, None, Some e)
      | (x, None) => (with_sub x s, None, None)
      end
  | StatsTick yf => (s, None, yieldCheck yf s)
  | LimiterTick =>
      let x := sub s in
      (with_sub {| seqNum := seqNum x; submitTimes := submitTimes x; submitTargets := submitTargets x;
                   latency := latency x; tokens := Nat.min submitBurst (S (tokens x));
                   count := count x |} s, None, None)
  | Cancelled => (s, None, Some (Sentinel "context canceled"))
  end.

(** The loop over the events the select statement meets, with the frames written
    and the job that was active when each was. *)
Definition sent (s : v2session) (d : option (list Z)) : list (option NewMiningJob * list Z) :=
  match d with Some bs => [(active (job s), bs)] | None => [] end.
Fixpoint sessionLoop (unicodeToLower : list Z → list Z) (es : list (world * event)) (s : v2session)
    : v2session * list (option NewMiningJob * list Z) * option error :=
  match es with
  | [] => (s, [], None)
  | (w, e) :: es =>
      match turn unicodeToLower w e s with
      | (s', d, Some err) => (s', sent s d, Some err)
      | (s', d, None) =>
          let '(s'', out, err) := sessionLoop unicodeToLower es s' in (s'', sent s d ++ out, err)
      end
  end.

Definition newSession (c g : Z) (target : Hash) (f : fleet) (k : counters) : v2session :=
  {| chan := c; group := g;
     job := {| jobs := ∅; jobOrder := []; active := None; tipHash := replicate 32 0; tipNBits := 0;
               activeNTime := 0; haveTip := false; shareTarget := target |};
     feet := f;
     sub := {| seqNum := 0; submitTimes := ∅; submitTargets := ∅; latency := NewLatencyTracker 256;
               tokens := submitBurst; count := k |};
     seenUnknown := ∅; seenMisplaced := ∅;
     startAccepted := sharesAccepted k; startRejected := sharesRejected k |}.

(** ** The handshake *)

Definition engineOpen (user : string) (hashRate : float32) : OpenMiningChannel :=
  {| omc_ReqID := 1; omc_User := user; omc_NominalHashrate := hashRate;
     omc_MaxTarget := MaxTargetUnconstrained |}.

Definition setupReply (sc : SetupConnection) (msg : Message) : option session_error :=
  match m_SetupConnectionError msg with
  | Some _ => Some (Fatal "pool rejected: %q")
  | None =>
      match m_SetupConnectionSuccess msg with
      | None => Some (Ended (Sentinel "engine: unexpected msg 0x%02X during setup"))
      | Some ok =>
          if (scs_UsedVersion ok <? sc_MinVersion sc) || (sc_MaxVersion sc <? scs_UsedVersion ok)
          then Some (Ended (Errorf "engine: pool negotiated version %d outside declared range [%d, %d]"
                       [scs_UsedVersion ok; sc_MinVersion sc; sc_MaxVersion sc]))
          else if negb (Z.ldiff (scs_Flags ok) (sc_Flags sc) =? 0)
          then Some (Ended (Sentinel "engine: pool requires flags 0x%08x outside offered set 0x%08x"))
          else None
      end
  end.

Definition openReply (omc : OpenMiningChannel) (msg : Message)
    : (Z * Z * Hash) + session_error :=
  match m_OpenMiningChannelError msg with
  | Some _ => inr (Fatal "pool rejected channel open: %q")
  | None =>
      match m_OpenMiningChannelSuccess msg with
      | None => inr (Ended (Sentinel "engine: channel open failed"))
      | Some ok =>
          if negb (omcs_ReqID ok =? omc_ReqID omc)
          then inr (Ended (Errorf "engine: channel response echoes req_id %d, sent %d"
                      [omcs_ReqID ok; omc_ReqID omc]))
          else inl (omcs_ChannelID ok, omcs_GroupChannelID ok, omcs_Target ok)
      end
  end.

(** [hashRate] is the sum of the workers' rates, or the nominal one. *)
Definition handshake `{Reader R} (host user : string) (hashRate : float32) (w1 w2 : bool)
    (d : Decoder R) : ((Z * Z * Hash) + session_error) * Decoder R :=
  let sc := setupConnection host in
  match sendFrame w1 MsgSetupConnection false (SetupConnection_Encode sc) with
  | Err e => (inr (Ended e), d)
  | Ok _ =>
      match ReadFrame d with
      | (Err e, d) => (inr (Ended (Wrapf "engine: setup response: %w" e)), d)
      | (Ok f, d) =>
          match DispatchFrame f with
          | Err e => (inr (Ended e), d)
          | Ok msg =>
              match setupReply sc msg with
              | Some e => (inr e, d)
              | None =>
                  let omc := engineOpen user hashRate in
                  match sendFrame w2 MsgOpenMiningChannel false (OpenMiningChannel_Encode omc) with
                  | Err e => (inr (Ended e), d)
                  | Ok _ =>
                      match ReadFrame d with
                      | (Err e, d) => (inr (Ended (Wrapf "engine: channel response: %w" e)), d)
                      | (Ok f, d) =>
                          match DispatchFrame f with
                          | Err e => (inr (Ended e), d)
                          | Ok msg => (openReply omc msg, d)
                          end
                      end
                  end
              end
          end
      end
  end.

(** ** Accounting *)

(** What the counters gained since [k], and what is still unanswered, against
    the number of frames sent. *)
Definition judged (k c : counters) : Z :=
  (sharesAccepted c - sharesAccepted k) + (sharesRejected c - sharesRejected k) +
  (transitions c - transitions k).

Record accounted (k : counters) (sent : Z) (x : submissions) : Prop := {
  acc_verdicts : judged k (count x) + Z.of_nat (size (submitTimes x)) ≤ sent;
  acc_submitted : sharesSubmitted (count x) = sharesSubmitted k + sent;
  acc_monotone : sharesAccepted k ≤ sharesAccepted (count x) ∧
                 sharesRejected k ≤ sharesRejected (count x) ∧
                 transitions k ≤ transitions (count x);
  acc_targets : dom (submitTargets x) = dom (submitTimes x);
  acc_keys : ∀ seq, seq ∈ dom (submitTimes x) → 0 ≤ seq ≤ seqNum x;
  acc_cap : Z.of_nat (size (submitTimes x)) ≤ submitTimesCap;
  acc_tokens : (tokens x ≤ submitBurst)%nat;
}.

Lemma size_filter_split {A} (P : Z * A → Prop) `{∀ x, Decision (P x)} (m : gmap Z A) :
  (size (filter P m) + size (filter (λ x, ¬ P x) m) = size m)%nat.
Proof.
  rewrite <- map_size_disj_union by apply map_disjoint_filter_complement.
  by rewrite map_filter_union_complement.
Qed.

Lemma dom_settle {A B} (P : Z * A → Prop) `{∀ x, Decision (P x)} (times : gmap Z A) (targets : gmap Z B) :
  dom targets = dom times →
  dom (filter (λ kv, filter P times !! kv.1 = None) targets) = dom (filter (λ kv, ¬ P kv) times).
Proof.
  intros Hd. apply set_eq. intros i. rewrite !elem_of_dom. unfold is_Some.
  setoid_rewrite map_lookup_filter_Some. cbn [fst].
  assert (is_Some (targets !! i) ↔ is_Some (times !! i)) as Hi by (rewrite <- !elem_of_dom; by rewrite Hd).
  split.
  - intros (b & Hb & HN). destruct (proj1 Hi ltac:(eauto)) as [a Ha]. exists a. split; [done|].
    intros HP. assert (filter P times !! i = Some a) by (by apply map_lookup_filter_Some).
    congruence.
  - intros (a & Ha & HP). destruct (proj2 Hi ltac:(eauto)) as [b Hb]. exists b. split; [done|].
    apply map_lookup_filter_None. right. intros a' Ha'. congruence.
Qed.

Lemma filter_dom_subset {A} (P : Z * A → Prop) `{∀ x, Decision (P x)} (m : gmap Z A) i :
  i ∈ dom (filter P m) → i ∈ dom m ∧ ∃ a, P (i, a).
Proof.
  rewrite !elem_of_dom. intros [a [Ha HP]%map_lookup_filter_Some]. split; eauto.
Qed.

Lemma submitSuccess_accounted k sent now m x :
  accounted k sent x → 0 ≤ sssu_NewSubmitsAccepted m → accounted k sent (submitSuccess now m x).
Proof.
  intros [H1 H2 H3 H4 H5 H6 H7] Hm. unfold submitSuccess. case_if; [by constructor|].
  set (size0 := Z.of_nat (size (filter _ (submitTimes x)))).
  pose proof (size_filter_split (λ kv : Z * Z, kv.1 ≤ sssu_LastSequenceNumber m) (submitTimes x)) as Hs.
  set (n := if _ || _ then _ else _).
  assert (0 ≤ n ≤ size0) as Hn.
  { unfold n. destruct (Z.eqb_spec (sssu_NewSubmitsAccepted m) 0);
      destruct (Z.ltb_spec size0 (sssu_NewSubmitsAccepted m)); cbn [orb]; lia. }
  unfold size0 in Hn. clearbody n.
  constructor; cbn [count submitTimes submitTargets seqNum tokens sharesAccepted sharesRejected
    transitions sharesSubmitted]; auto.
  - unfold judged in *. cbn [sharesAccepted sharesRejected transitions] in *. lia.
  - lia.
  - exact (dom_settle _ _ _ H4).
  - intros seq [Hin _]%filter_dom_subset. auto.
  - lia.
Qed.

Lemma submitError_accounted k sent lo now cur e x :
  accounted k sent x → accounted k sent (submitError lo now cur e x).1.
Proof.
  intros [H1 H2 H3 H4 H5 H6 H7]. unfold submitError. case_if; [by constructor|].
  destruct (submitTimes x !! sse_SequenceNumber e) as [sent_at|] eqn:E; [|by constructor].
  set (tr := match submitTargets x !! _ with Some _ => _ | None => _ end).
  assert (size (delete (sse_SequenceNumber e) (submitTimes x)) = size (submitTimes x) - 1)%nat as Hs
    by (rewrite map_size_delete_Some by eauto; lia).
  assert (0 < size (submitTimes x))%nat as H0.
  { apply Nat.neq_0_lt_0. intros H0%map_size_empty_iff. by rewrite H0, lookup_empty in E. }
  constructor; cbn [fst count submitTimes submitTargets seqNum tokens sharesAccepted sharesRejected
    transitions sharesSubmitted]; auto.
  - unfold judged in *. cbn [sharesAccepted sharesRejected transitions] in *. destruct tr; lia.
  - destruct tr; lia.
  - by rewrite !dom_delete_L, H4.
  - intros seq. rewrite dom_delete_L. intros [Hin _]%elem_of_difference. auto.
  - lia.
Qed.

(** At most 513 sequence numbers lie between the cutoff and the last one. *)
Lemma size_of_range {A} (m : gmap Z A) (lo : Z) (n : nat) :
  (∀ i, i ∈ dom m → lo ≤ i < lo + Z.of_nat n) → (size m ≤ n)%nat.
Proof.
  intros H. rewrite <- size_dom.
  transitivity (size (list_to_set (seqZ lo (Z.of_nat n)) : gset Z)).
  - apply subseteq_size. intros i Hi%H. rewrite elem_of_list_to_set, elem_of_seqZ. lia.
  - rewrite size_list_to_set by apply NoDup_seqZ. rewrite length_seqZ. lia.
Qed.

Lemma reap_accounted k sent x :
  judged k (count x) + Z.of_nat (size (submitTimes x)) ≤ sent →
  sharesSubmitted (count x) = sharesSubmitted k + sent →
  sharesAccepted k ≤ sharesAccepted (count x) ∧ sharesRejected k ≤ sharesRejected (count x) ∧
    transitions k ≤ transitions (count x) →
  dom (submitTargets x) = dom (submitTimes x) →
  (∀ seq, seq ∈ dom (submitTimes x) → 0 ≤ seq ≤ seqNum x) →
  seqNum x < 2 ^ 32 → (tokens x ≤ submitBurst)%nat →
  accounted k sent (reap x).
Proof.
  intros H1 H2 H3 H4 H5 H6 H7. unfold reap. case_if; [|constructor; auto; lia].
  pose proof (size_filter_split (λ kv : Z * Z, kv.1 < wrap 32 (seqNum x - Z.quot submitTimesCap 2))
    (submitTimes x)) as Hs.
  assert (512 ≤ seqNum x) as Hlo.
  { destruct (Z.le_gt_cases 512 (seqNum x)); [done|].
    assert (size (submitTimes x) ≤ 513)%nat; [|unfold submitTimesCap in *; lia].
    apply (size_of_range _ 0). intros i Hi%H5. lia. }
  assert (wrap 32 (seqNum x - Z.quot submitTimesCap 2) = seqNum x - 512) as Hc.
  { unfold wrap, submitTimesCap. change (Z.quot 1024 2) with 512. apply Z.mod_small. lia. }
  constructor; cbn [count submitTimes submitTargets seqNum tokens]; auto.
  - lia.
  - exact (dom_settle _ _ _ H4).
  - intros seq [Hin _]%filter_dom_subset. auto.
  - rewrite Hc. etransitivity; [apply Nat2Z.inj_le, (size_of_range _ (seqNum x - 512) 513)|done].
    intros i [Hin%H5 [a Ha]]%filter_dom_subset. cbn [fst] in Ha. lia.
Qed.

Lemma foundShare_seq now ok ch act sh x :
  0 ≤ seqNum x → seqNum x + 1 < 2 ^ 32 → seqNum (foundShare now ok ch act sh x).1 = seqNum x + 1.
Proof.
  intros Hlo Hhi. unfold foundShare.
  assert (wrap 32 (seqNum x + 1) = seqNum x + 1) as -> by (unfold wrap; apply Z.mod_small; lia).
  destruct act as [j|]; [|done]. case_if; [done|]. destruct (tokens x); [done|].
  destruct (sendFrame _ _ _ _); [|done]. cbn [fst]. unfold reap. by case_if.
Qed.

Definition sentOf (r : option (result (list Z))) : Z := match r with Some (Ok _) => 1 | _ => 0 end.

Lemma foundShare_accounted k sent now ok ch act sh x :
  accounted k sent x → 0 ≤ seqNum x → seqNum x + 1 < 2 ^ 32 →
  accounted k (sent + sentOf (foundShare now ok ch act sh x).2) (foundShare now ok ch act sh x).1.
Proof.
  intros [H1 H2 H3 H4 H5 H6 H7] Hlo Hhi. unfold foundShare.
  assert (wrap 32 (seqNum x + 1) = seqNum x + 1) as -> by (unfold wrap; apply Z.mod_small; lia).
  assert (∀ toks drop, (toks ≤ submitBurst)%nat →
    accounted k (sent + 0) (tally (seqNum x + 1) (submitTimes x) (submitTargets x) toks 0 drop x)) as Hkeep.
  { intros toks drop Ht. constructor;
      cbn [tally count submitTimes submitTargets seqNum tokens sharesAccepted sharesRejected
        transitions sharesSubmitted]; auto; try lia.
    - unfold judged in *. cbn [tally count submitTimes sharesAccepted sharesRejected transitions]. lia.
    - intros seq Hseq%H5. lia. }
  destruct act as [j|]; [|by apply Hkeep]. case_if; [by apply Hkeep|].
  destruct (tokens x) as [|toks] eqn:Et; [apply Hkeep; lia|].
  destruct (sendFrame _ _ _ _) as [data|e]; cbn [fst snd sentOf]; [|apply Hkeep; lia].
  assert (submitTimes x !! (seqNum x + 1) = None) as Hnone.
  { apply not_elem_of_dom. intros Hin%H5. lia. }
  apply reap_accounted; cbn [tally count submitTimes submitTargets seqNum tokens sharesAccepted
    sharesRejected transitions sharesSubmitted]; auto; try lia.
  - rewrite map_size_insert_None by done. unfold judged in *.
    cbn [sharesAccepted sharesRejected transitions]. lia.
  - by rewrite !dom_insert_L, H4.
  - intros seq. rewrite dom_insert_L. intros [->%elem_of_singleton|Hin%H5]%elem_of_union; lia.
Qed.

(** ** The loop *)

(** What the decoder guarantees of the events. *)
Definition event_ok (e : event) : Prop :=
  match e with
  | PoolMsg (Ok m) => match m_SubmitSharesSuccess m with
                      | Some x => 0 ≤ sssu_NewSubmitsAccepted x
                      | None => True
                      end
  | _ => True
  end.

(** [n] more events keep the sequence number within 32 bits. *)
Definition room (n : nat) (x : submissions) : Prop := 0 ≤ seqNum x ∧ seqNum x + Z.of_nat n < 2 ^ 32.

Lemma submitSuccess_seq now m x : seqNum (submitSuccess now m x) = seqNum x.
Proof. unfold submitSuccess. by case_if. Qed.
Lemma submitError_seq lo now cur e x : seqNum (submitError lo now cur e x).1 = seqNum x.
Proof. unfold submitError. case_if; [done|]. by destruct (submitTimes x !! _). Qed.

Lemma poolMessage_keeps lo w m s :
  seqNum (sub (poolMessage lo w m s).1) = seqNum (sub s) ∧ chan (poolMessage lo w m s).1 = chan s.
Proof.
  unfold poolMessage. case_if; [done|].
  destruct (m_Unknown m); [done|]. destruct (misplacedMsgType m); [done|].
  set (sf := whenSome (m_SetTarget m) _ _). set (x := whenSome (m_SubmitSharesSuccess m) _ _).
  assert (seqNum x = seqNum (sub s)) as Hq.
  { unfold x. destruct (m_SubmitSharesSuccess m); [apply submitSuccess_seq|done]. }
  destruct (m_SubmitSharesError m) as [e|]; [|by cbn].
  pose proof (submitError_seq lo (clock w) (shareTarget sf.1) e x) as Hyq.
  cbn [with_sub with_jobs job sub chan].
  destruct (submitError _ _ _ _ _) as [y []]; cbn in *; split; congruence || done.
Qed.

Lemma poolMessage_accounted lo w m s k n :
  accounted k n (sub s) → event_ok (PoolMsg (Ok m)) → accounted k n (sub (poolMessage lo w m s).1).
Proof.
  intros HA He. unfold poolMessage. case_if; [done|].
  destruct (m_Unknown m); [done|]. destruct (misplacedMsgType m); [done|].
  set (sf := whenSome (m_SetTarget m) _ _). set (x := whenSome (m_SubmitSharesSuccess m) _ _).
  assert (accounted k n x) as Hx.
  { unfold x, event_ok in *. destruct (m_SubmitSharesSuccess m) as [a|]; cbn [whenSome]; [|done].
    by apply submitSuccess_accounted. }
  destruct (m_SubmitSharesError m) as [e|]; [|by cbn].
  pose proof (submitError_accounted k n lo (clock w) (shareTarget sf.1) e x Hx) as Hy.
  cbn [with_sub with_jobs job sub chan].
  by destruct (submitError _ _ _ _ _) as [y []].
Qed.

Lemma turn_accounted lo w e s k n m :
  accounted k n (sub s) → event_ok e → room (S m) (sub s) →
  let '(s', d, _) := turn lo w e s in
  accounted k (n + Z.of_nat (length (sent s d))) (sub s') ∧ room m (sub s') ∧ chan s' = chan s.
Proof.
  intros HA He [Hlo Hhi]. unfold turn.
  assert (∀ s' : v2session, accounted k n (sub s') → seqNum (sub s') = seqNum (sub s) → chan s' = chan s →
    accounted k (n + Z.of_nat 0) (sub s') ∧ room m (sub s') ∧ chan s' = chan s) as Hquiet.
  { intros s' Hs' Hq Hc. rewrite Z.add_0_r. split_and!; [done|split; lia|done]. }
  destruct e as [[msg|e]| |sh ok|yf| |]; cbn [sent length]; try (apply Hquiet; done).
  - pose proof (poolMessage_accounted lo w msg s k n HA He) as H1.
    pose proof (poolMessage_keeps lo w msg s) as [H2 H3].
    destruct (poolMessage lo w msg s) as [s' err]. cbn [fst sent length] in *. by apply Hquiet.
  - pose proof (foundShare_accounted k n (clock w) ok (chan s) (active (job s)) sh (sub s) HA Hlo
      ltac:(lia)) as Hs.
    pose proof (foundShare_seq (clock w) ok (chan s) (active (job s)) sh (sub s) Hlo ltac:(lia)) as Hq.
    destruct (foundShare _ _ _ _ _ _) as [x [[data|e]|]]; cbn [fst snd sentOf sent length with_sub sub chan] in *;
      (split_and!; [exact Hs|split; lia|done]).
  - apply Hquiet; cbn [with_sub sub chan seqNum]; [|done..].
    destruct HA as [H1 H2 H3 H4 H5 H6 H7].
    constructor; cbn [count submitTimes submitTargets seqNum tokens]; auto. unfold submitBurst. lia.
Qed.

Lemma sessionLoop_accounted lo k es : ∀ s n,
  accounted k n (sub s) → Forall (λ we, event_ok we.2) es → room (length es) (sub s) →
  let '(s', out, _) := sessionLoop lo es s in
  accounted k (n + Z.of_nat (length out)) (sub s').
Proof.
  induction es as [|[w e] es IH]; intros s n HA HE HR; cbn [sessionLoop].
  { by rewrite Z.add_0_r. }
  apply Forall_cons in HE as [He HE].
  pose proof (turn_accounted lo w e s k n (length es) HA He HR) as HT.
  destruct (turn lo w e s) as [[s' d] [err|]]; destruct HT as (HA' & HR' & _); [done|].
  specialize (IH s' _ HA' HE HR'). destruct (sessionLoop lo es s') as [[s'' out] err].
  by rewrite length_app, Nat2Z.inj_add, Z.add_assoc.
Qed.

Lemma newSession_accounted c g t f k : accounted k 0 (sub (newSession c g t f k)).
Proof.
  constructor; cbn [newSession sub count submitTimes submitTargets seqNum tokens].
  - unfold judged. rewrite map_size_empty. lia.
  - lia.
  - lia.
  - by rewrite !dom_empty_L.
  - intros seq. by rewrite dom_empty_L, elem_of_empty.
  - rewrite map_size_empty. unfold submitTimesCap. lia.
  - done.
Qed.

(** ** What the session writes *)

Lemma sendFrame_framed ok m ch bs :
  sendFrame ok (msg_type m) ch (msg_encode m) = Ok bs → framed m bs.
Proof.
  unfold sendFrame. destruct (msg_encode m) as [p|] eqn:Ep; [|done].
  destruct (WrapMessage _ _ _) as [f|] eqn:Ef; [|done]. cbn [mbind result_bind].
  destruct (EncodeFrame f) as [data|] eqn:Ed; [|done]. cbn [result_bind].
  destruct ok; intros [=]; subst. by exists p, ch, f.
Qed.

(** A frame of the log is the submission, under [seq], of a share found in [es]
    for the job then active. *)
Definition submits (ch : Z) (es : list (world * event)) (m : SubmitSharesStandard)
    (log : option NewMiningJob * list Z) : Prop :=
  framed (ASubmitSharesStandard m) log.2 ∧
  ∃ w sh ok j, (w, FoundShare sh ok) ∈ es ∧ m = shareMessage ch (sss_SequenceNumber m) sh ∧
    log.1 = Some j ∧ Share_JobID sh = nmj_JobID j.

Lemma foundShare_submits w now ok ch act sh x y bs :
  0 ≤ seqNum x → seqNum x + 1 < 2 ^ 32 →
  foundShare now ok ch act sh x = (y, Some (Ok bs)) →
  ∃ m, submits ch [(w, FoundShare sh ok)] m (act, bs) ∧ sss_SequenceNumber m = seqNum x + 1.
Proof.
  intros Hlo Hhi. unfold foundShare.
  assert (wrap 32 (seqNum x + 1) = seqNum x + 1) as -> by (unfold wrap; apply Z.mod_small; lia).
  destruct act as [j|]; [|done]. case_if; [done|]. destruct (tokens x); [done|].
  destruct (sendFrame _ _ _ _) eqn:E; [|done]. intros [=]; subst.
  exists (shareMessage ch (seqNum x + 1) sh). split; [|done]. split.
  - by apply (sendFrame_framed ok (ASubmitSharesStandard (shareMessage ch (seqNum x + 1) sh)) true).
  - exists w, sh, ok, j. split_and!; [by apply list_elem_of_singleton|done|done|by apply Z.eqb_eq, negb_false_iff].
Qed.

Lemma turn_submits lo w e s n :
  room (S n) (sub s) → event_ok e →
  let '(s', d, _) := turn lo w e s in
  chan s' = chan s ∧ room n (sub s') ∧ seqNum (sub s) ≤ seqNum (sub s') ∧
  ∀ bs, d = Some bs → ∃ m, submits (chan s) [(w, e)] m (active (job s), bs) ∧
    sss_SequenceNumber m = seqNum (sub s) + 1 ∧ seqNum (sub s') = seqNum (sub s) + 1.
Proof.
  intros [Hlo Hhi] He. unfold turn.
  assert (∀ s' : v2session, seqNum (sub s') = seqNum (sub s) → chan s' = chan s →
    chan s' = chan s ∧ room n (sub s') ∧ seqNum (sub s) ≤ seqNum (sub s') ∧
    ∀ bs, None = Some bs → ∃ m, submits (chan s) [(w, e)] m (active (job s), bs) ∧
    sss_SequenceNumber m = seqNum (sub s) + 1 ∧ seqNum (sub s') = seqNum (sub s) + 1) as Hquiet.
  { intros s' Hq Hc. split_and!; [done|split; lia|lia|done]. }
  destruct e as [[msg|e]| |sh ok|yf| |]; try (apply Hquiet; done).
  - pose proof (poolMessage_keeps lo w msg s) as [H2 H3].
    destruct (poolMessage lo w msg s) as [s' err]. by apply Hquiet.
  - pose proof (foundShare_seq (clock w) ok (chan s) (active (job s)) sh (sub s) Hlo ltac:(lia)) as Hq.
    assert (∀ x bs, foundShare (clock w) ok (chan s) (active (job s)) sh (sub s) = (x, Some (Ok bs)) →
      ∃ m, submits (chan s) [(w, FoundShare sh ok)] m (active (job s), bs) ∧
        sss_SequenceNumber m = seqNum (sub s) + 1) as Hm
      by (intros; eapply foundShare_submits; eauto; lia).
    destruct (foundShare _ _ _ _ _ _) as [x [[data|e]|]]; cbn [fst with_sub sub chan] in *;
      (split_and!; [done|split; lia|lia|]); intros bs [=]; subst.
    destruct (Hm _ _ eq_refl) as (m & ? & ?). eauto.
Qed.

Lemma submits_mono ch es es' m log : es ⊆ es' → submits ch es m log → submits ch es' m log.
Proof. intros Hs [? (w & sh & ok & j & Hin & ?)]. split; [done|]. exists w, sh, ok, j. eauto. Qed.

Lemma sessionLoop_submits lo es : ∀ s,
  Forall (λ we, event_ok we.2) es → room (length es) (sub s) →
  let '(_, out, _) := sessionLoop lo es s in
  ∃ ms, Forall2 (submits (chan s) es) ms out ∧
    StronglySorted Z.lt (seqNum (sub s) :: (sss_SequenceNumber <$> ms)).
Proof.
  induction es as [|[w e] es IH]; intros s HE HR; cbn [sessionLoop].
  { exists []. split; [done|]. repeat constructor. }
  apply Forall_cons in HE as [He HE].
  pose proof (turn_submits lo w e s (length es) HR He) as HT.
  assert (∀ d s' m0 out, Forall2 (submits (chan s) es) m0 out →
    StronglySorted Z.lt (seqNum (sub s') :: (sss_SequenceNumber <$> m0)) →
    seqNum (sub s) ≤ seqNum (sub s') →
    (∀ bs, d = Some bs → ∃ m, submits (chan s) [(w, e)] m (active (job s), bs) ∧
      sss_SequenceNumber m = seqNum (sub s) + 1 ∧ seqNum (sub s') = seqNum (sub s) + 1) →
    ∃ ms, Forall2 (submits (chan s) ((w, e) :: es)) ms (sent s d ++ out) ∧
      StronglySorted Z.lt (seqNum (sub s) :: (sss_SequenceNumber <$> ms))) as Hadd.
  { intros d s' m0 out H1 H2 H3 Hd.
    apply (Forall2_impl _ (submits (chan s) ((w, e) :: es))) in H1;
      [|intros ??; apply submits_mono; set_solver].
    destruct d as [bs|]; cbn [sent app].
    - destruct (Hd bs eq_refl) as (m & Hm & Hq & Hs'). exists (m :: m0). split.
      + constructor; [|done]. eapply submits_mono; [|done]. set_solver.
      + rewrite fmap_cons, Hq, <- Hs'. constructor; [done|]. constructor; [lia|].
        inversion H2; subst. eapply Forall_impl; [done|]. cbn. lia.
    - exists m0. split; [done|]. inversion H2; subst. constructor; [done|].
      eapply Forall_impl; [done|]. cbn. lia. }
  destruct (turn lo w e s) as [[s' d] [err|]]; destruct HT as (Hc & HR' & Hq & Hd).
  - rewrite <- (app_nil_r (sent s d)). apply (Hadd d s' []); eauto. repeat constructor.
  - specialize (IH s' HE HR'). destruct (sessionLoop lo es s') as [[s'' out] err].
    destruct IH as (m0 & H1 & H2). rewrite Hc in H1. by apply (Hadd d s' m0).
Qed.

(** C4. Over a whole session, whatever the pool sends: the verdicts credited to
    the counters (accepted, rejected and transition rejects) together with the
    shares still unanswered never exceed the submissions written to the pool, so
    forged, replayed or inflated verdicts are worth nothing; the submitted
    counter equals the frames written; the two bookkeeping maps have the same
    keys, at most 1024 of them, all issued; and no more than a burst of 32
    submissions is ever allowed at once. *)
Theorem session_accounting lo c g t f k es s out err :
  Forall (λ we, event_ok we.2) es → Z.of_nat (length es) < 2 ^ 32 →
  sessionLoop lo es (newSession c g t f k) = (s, out, err) →
  accounted k (Z.of_nat (length out)) (sub s).
Proof.
  intros HE Hlen HS.
  pose proof (sessionLoop_accounted lo k es _ 0 (newSession_accounted c g t f k) HE) as H.
  rewrite HS in H. apply H. by split.
Qed.


(** ** Witnesses *)

Definition ses_world : world := {| curtailed := false; paused := ∅; clock := 200 * 10 ^ 9 |}.
Definition ses_share (id nonce : Z) : Share :=
  {| Share_ChannelID := 7; Share_JobID := id; Share_Nonce := nonce; Share_NTime := 200;
     Share_Version := 0x20000000; Share_Hash := zeroHash; Share_Target := replicate 32 1;
     Share_DeviceID := "cpu0"; Share_ExtraNonce := [] |}.
(** Two shares are submitted and one is dropped; the pool then claims a hundred
    acceptances, repeats the claim, and rejects a share it has accepted. *)
Definition ses_events : list (world * event) :=
  pair ses_world <$>
    [PoolMsg (Ok (msg_inject (ANewMiningJob (v2_demo_job 2 None))));
     PoolMsg (Ok (msg_inject (ASetNewPrevHash (v2_tip 2))));
     FoundShare (ses_share 2 5) true; FoundShare (ses_share 9 6) true;
     FoundShare (ses_share 2 7) true;
     PoolMsg (Ok (msg_inject (ASubmitSharesSuccess
       {| sssu_ChannelID := 7; sssu_LastSequenceNumber := 3; sssu_NewSubmitsAccepted := 100;
          sssu_NewSharesSummed := 0 |})));
     PoolMsg (Ok (msg_inject (ASubmitSharesSuccess
       {| sssu_ChannelID := 7; sssu_LastSequenceNumber := 3; sssu_NewSubmitsAccepted := 100;
          sssu_NewSharesSummed := 0 |})));
     PoolMsg (Ok (msg_inject (ASubmitSharesError
       {| sse_ChannelID := 7; sse_SequenceNumber := 3; sse_Error := "stale-share" |})));
     StatsTick true; LimiterTick].
Definition ses_zero : counters :=
  {| sharesFound := 0; sharesSubmitted := 0; sharesSubmitDropped := 0; sharesAccepted := 0;
     sharesRejected := 0; transitions := 0 |}.
Definition ses_fleet : fleet := {| workers := []; allocated := 0 |}.
Definition ses_run : v2session * list (option NewMiningJob * list Z) * option error :=
  sessionLoop id ses_events (newSession 7 0 (replicate 32 1) ses_fleet ses_zero).

Lemma ses_events_ok : Forall (λ we, event_ok we.2) ses_events.
Proof. repeat constructor; vm_compute; discriminate. Qed.
Lemma ses_run_eq :
  sessionLoop id ses_events (newSession 7 0 (replicate 32 1) ses_fleet ses_zero) =
  (ses_run.1.1, ses_run.1.2, ses_run.2).
Proof. unfold ses_run. by destruct (sessionLoop _ _ _) as [[? ?] ?]. Qed.

Lemma session_accounting_witness :
  length ses_run.1.2 = 2%nat ∧ sharesAccepted (count (sub ses_run.1.1)) = 2 ∧
  sharesRejected (count (sub ses_run.1.1)) = 0 ∧ accounted ses_zero 2 (sub ses_run.1.1).
Proof.
  assert (length ses_run.1.2 = 2%nat) as HL by (vm_compute; reflexivity).
  split; [exact HL|]. split; [vm_compute; reflexivity|]. split; [vm_compute; reflexivity|].
  change 2 with (Z.of_nat 2). rewrite <- HL.
  apply (session_accounting id 7 0 (replicate 32 1) ses_fleet ses_zero ses_events ses_run.1.1
    ses_run.1.2 ses_run.2 ses_events_ok); [by vm_compute|exact ses_run_eq].
Defined.

