(* ===== verification/EngineV1.v ===== *)
(** * internal/engine/run.go: the Stratum V1 session

    [runSessionV1] after the dial, as one function per arm of its select
    statement, with the goroutines that wait for the pool's verdicts as a list of
    pending submissions that resolve in any order.  [SuggestedDifficulty] and the
    other methods of the session enter as the values they return.  As in the V2
    session, the metrics are present. *)
From S2P Require Import Prelude.
From S2P Require Import Float64.
From S2P Require Import Json.
From S2P Require Import Sha256d.
From S2P Require Import Worker.
From S2P Require Import Script.
From S2P Require Import Poolproto.
From S2P Require Import StratumV2.
From S2P Require Import Reconnect.
From S2P Require Import EngineStats.
From S2P Require Import EngineV2.

Open Scope Z_scope.

(** ** Targets and job identifiers *)

Definition v1JobTarget (nBits : Z) (difficulty : float64) : result Hash :=
  target ← TargetFromNBits nBits;
  if flt fzero difficulty then
    match TargetFromDifficulty difficulty with
    | Err e => Err (Wrapf "miner: pool difficulty %v unusable: %w" e)
    | Ok dt => Ok dt
    end
  else Ok target.

Definition v1ShareTarget (difficulty : float64) : option Hash :=
  if fle difficulty fzero then None
  else match TargetFromDifficulty difficulty with Ok t => Some t | Err _ => None end.

(** [hash/fnv]: 32-bit FNV-1a. *)
Definition fnv32a (bs : list Z) : Z :=
  foldl (λ h b, wrap 32 (Z.lxor h b * 16777619)) 2166136261 bs.

Definition v1JobWireID (jobID : list Z) : Z :=
  match ParseUint 10 32 jobID with
  | (n, true) => n
  | (_, false) => fnv32a jobID
  end.

Definition v1Work (w : world) (j : Job) (chanID : Z) (target : Hash) : Work :=
  {| Work_JobID := v1JobWireID (JobID j); Work_ChannelID := chanID;
     Work_Header := {| Version := Job_Version j; PrevHash := Job_PrevHash j;
                       MerkleRoot := Job_MerkleRoot j; Time := rollNTime w (Job_NTime j);
                       Bits := Job_NBits j; Nonce := 0 |};
     Work_NBits := Job_NBits j; Work_Target := target; Work_ExtraNonce := Job_ExtraNonce j |}.

Definition applyJob (w : world) (j : Job) (chanID : Z) (difficulty : float64) (f : fleet) : result fleet :=
  match v1JobTarget (Job_NBits j) difficulty with
  | Err e => Err (Wrapf "engine: bad target for job %q: %w" e)
  | Ok target => Ok (armAll w (v1Work w j chanID target) f)
  end.

(** ** The payout check *)

Inductive payoutWarning := CoinbaseMalformed | CoinbaseDoesNotPay.

(** What the job arm reports, and whether the episode's warning has been given. *)
Definition checkPayout (payoutScript : list Z) (j : Job) (warned : bool)
    : bool * option payoutWarning :=
  if (0 <? length payoutScript)%nat && (0 <? length (CoinbaseTx j))%nat then
    match CoinbasePaysScript (CoinbaseTx j) payoutScript with
    | Err _ => (true, if warned then None else Some CoinbaseMalformed)
    | Ok false => (true, if warned then None else Some CoinbaseDoesNotPay)
    | Ok true => (false, None)
    end
  else (warned, None).

(** ** The session *)

(** A submission in flight: the captured share, job ID and send time. *)
Record pendingShare := { p_share : Share; p_jobID : list Z; p_sent : Z }.
Definition submissionOf (p : pendingShare) : ShareSubmission :=
  {| Sub_JobID := p_jobID p; Sub_Nonce := Share_Nonce (p_share p); Sub_NTime := Share_NTime (p_share p);
     Sub_Version := 0; Sub_ExtraNonce := Share_ExtraNonce (p_share p) |}.

Record v1loop := {
  v1fleet : fleet;
  currentJobID : Z;
  currentJobIDStr : list Z;
  haveJob : bool;
  lastJob : option Job;          (* the zero Job until one is applied *)
  appliedDifficulty : float64;
  payoutMissingWarned : bool;
  v1tokens : nat;
  sessAccepted : Z;              (* 64-bit atomics *)
  sessRejected : Z;
  v1latency : LatencyTracker;
  v1count : counters;
  pending : list pendingShare;
}.

Definition v1_jobs (f : fleet) (id : Z) (str : list Z) (have : bool) (last : option Job) (d : float64)
    (s : v1loop) : v1loop :=
  {| v1fleet := f; currentJobID := id; currentJobIDStr := str; haveJob := have; lastJob := last;
     appliedDifficulty := d; payoutMissingWarned := payoutMissingWarned s; v1tokens := v1tokens s;
     sessAccepted := sessAccepted s; sessRejected := sessRejected s; v1latency := v1latency s;
     v1count := v1count s; pending := pending s |}.
Definition v1_warned (b : bool) (s : v1loop) : v1loop :=
  {| v1fleet := v1fleet s; currentJobID := currentJobID s; currentJobIDStr := currentJobIDStr s;
     haveJob := haveJob s; lastJob := lastJob s; appliedDifficulty := appliedDifficulty s;
     payoutMissingWarned := b; v1tokens := v1tokens s; sessAccepted := sessAccepted s;
     sessRejected := sessRejected s; v1latency := v1latency s; v1count := v1count s;
     pending := pending s |}.
Definition v1_shares (toks : nat) (acc rej : Z) (l : LatencyTracker) (c : counters)
    (ps : list pendingShare) (s : v1loop) : v1loop :=
  {| v1fleet := v1fleet s; currentJobID := currentJobID s; currentJobIDStr := currentJobIDStr s;
     haveJob := haveJob s; lastJob := lastJob s; appliedDifficulty := appliedDifficulty s;
     payoutMissingWarned := payoutMissingWarned s; v1tokens := toks; sessAccepted := acc;
     sessRejected := rej; v1latency := l; v1count := c; pending := ps |}.

Definition bump (found submitted dropped accepted rejected transition : Z) (c : counters) : counters :=
  {| sharesFound := sharesFound c + found; sharesSubmitted := sharesSubmitted c + submitted;
     sharesSubmitDropped := sharesSubmitDropped c + dropped;
     sharesAccepted := sharesAccepted c + accepted; sharesRejected := sharesRejected c + rejected;
     transitions := transitions c + transition |}.

(** The job arm. *)
Definition v1Job (w : world) (payoutScript : list Z) (j : Job) (suggested : float64) (s : v1loop)
    : v1loop * option payoutWarning :=
  if curtailed w then (s, None)
  else
    let '(warned, report) := checkPayout payoutScript j (payoutMissingWarned s) in
    let s := v1_warned warned s in
    match applyJob w j 0 suggested (v1fleet s) with
    | Err _ => (s, report)
    | Ok f => (v1_jobs f (v1JobWireID (JobID j)) (JobID j) true (Some j) suggested s, report)
    end.

(** The retarget arm; [lastJob] is set whenever [haveJob] is. *)
Definition v1Retarget (w : world) (d : float64) (s : v1loop) : v1loop :=
  match lastJob s with
  | Some j =>
      if negb (haveJob s) || curtailed w || feq d (appliedDifficulty s) then s
      else
        let s := v1_jobs (v1fleet s) (currentJobID s) (currentJobIDStr s) (haveJob s) (lastJob s) d s in
        match applyJob w j 0 d (v1fleet s) with
        | Err _ => s
        | Ok f => v1_jobs f (currentJobID s) (currentJobIDStr s) (haveJob s) (lastJob s) d s
        end
  | None => s
  end.

(** The share arm, and the submission it starts. *)
Definition v1Share (now : Z) (sh : Share) (s : v1loop) : v1loop * option pendingShare :=
  let upd toks sub drop ps :=
    v1_shares toks (sessAccepted s) (sessRejected s) (v1latency s)
      (bump 1 sub drop 0 0 0 (v1count s)) ps s in
  if negb (haveJob s) || negb (Share_JobID sh =? currentJobID s)
  then (upd (v1tokens s) 0 1 (pending s), None)
  else match v1tokens s with
  | O => (upd O 0 1 (pending s), None)
  | S toks =>
      let p := {| p_share := sh; p_jobID := currentJobIDStr s; p_sent := now |} in
      (upd toks 1 0 (pending s ++ [p]), Some p)
  end.

(** [elapsed := float64(time.Since(sendTime).Milliseconds())]. *)
Definition elapsed (now sent : Z) : float64 := f64_of_Z (Z.quot (now - sent) (10 ^ 6)).

(** A submit goroutine ends with the pool's answer. *)
Definition v1Verdict (unicodeToLower : list Z → list Z) (now : Z) (i : nat)
    (r : result ShareResult) (suggested : float64) (s : v1loop) : v1loop :=
  match pending s !! i with
  | None => s
  | Some p =>
      let rest := delete i (pending s) in
      let el := elapsed now (p_sent p) in
      match r with
      | Err _ =>
          v1_shares (v1tokens s) (sessAccepted s) (sessRejected s)
            (if flt fzero el then Record_ el (v1latency s) else v1latency s) (v1count s) rest s
      | Ok r =>
          let l := Record_ el (v1latency s) in
          if Accepted r then
            v1_shares (v1tokens s) (wrap 64 (sessAccepted s + 1)) (sessRejected s) l
              (bump 0 0 0 1 0 0 (v1count s)) rest s
          else
            let category := rejectClass unicodeToLower (SanitizePoolText (Result_Reason r)) in
            let superseded := match v1ShareTarget suggested with
                              | Some current => transitionReject category (Share_Target (p_share p)) current
                              | None => false
                              end in
            if superseded then
              v1_shares (v1tokens s) (sessAccepted s) (sessRejected s) l
                (bump 0 0 0 0 0 1 (v1count s)) rest s
            else
              v1_shares (v1tokens s) (sessAccepted s) (wrap 64 (sessRejected s + 1)) l
                (bump 0 0 0 0 1 0 (v1count s)) rest s
      end
  end.

Inductive v1event :=
  | V1Job (j : Job) (suggested : float64)
  | V1JobsClosed
  | V1Retargeted (d : float64)
  | V1Found (sh : Share)
  | V1Answered (i : nat) (r : result ShareResult) (suggested : float64)
  | V1Stats (yieldFailover : bool)
  | V1Limiter
  | V1Cancelled.

Definition v1Turn (unicodeToLower : list Z → list Z) (payoutScript : list Z) (w : world) (e : v1event)
    (s : v1loop) : v1loop * option error :=
  match e with
  | V1Job j suggested => ((v1Job w payoutScript j suggested s).1, None)
  | V1JobsClosed => (s, Some (Sentinel "engine: pool closed connection"))
  | V1Retargeted d => (v1Retarget w d s, None)
  | V1Found sh => ((v1Share (clock w) sh s).1, None)
  | V1Answered i r suggested => (v1Verdict unicodeToLower (clock w) i r suggested s, None)
  | V1Stats yf => (s, if yf && yieldDegraded (sessAccepted s) (sessRejected s)
                      then Some errYieldDegraded else None)
  | V1Limiter =>
      (v1_shares (Nat.min submitBurst (S (v1tokens s))) (sessAccepted s) (sessRejected s) (v1latency s)
         (v1count s) (pending s) s, None)
  | V1Cancelled => (s, Some (Sentinel "context canceled"))
  end.

Definition newV1 (f : fleet) (c : counters) : v1loop :=
  {| v1fleet := f; currentJobID := 0; currentJobIDStr := []; haveJob := false; lastJob := None;
     appliedDifficulty := fzero; payoutMissingWarned := false; v1tokens := submitBurst;
     sessAccepted := 0; sessRejected := 0; v1latency := NewLatencyTracker 256; v1count := c;
     pending := [] |}.

(** The loop over the events the select statement meets. *)
Fixpoint v1Session (unicodeToLower : list Z → list Z) (payoutScript : list Z)
    (es : list (world * v1event)) (s : v1loop) : v1loop * option error :=
  match es with
  | [] => (s, None)
  | (w, e) :: es =>
      match v1Turn unicodeToLower payoutScript w e s with
      | (s, Some err) => (s, Some err)
      | (s, None) => v1Session unicodeToLower payoutScript es s
      end
  end.

(** * Accounting *)

Record v1_accounted (k : counters) (s : v1loop) : Prop := {
  va_found : sharesFound (v1count s) - sharesFound k =
             (sharesSubmitted (v1count s) - sharesSubmitted k) +
             (sharesSubmitDropped (v1count s) - sharesSubmitDropped k);
  va_verdicts : judged k (v1count s) + Z.of_nat (length (pending s)) ≤
                sharesSubmitted (v1count s) - sharesSubmitted k;
  va_accepted : sessAccepted s = wrap 64 (sharesAccepted (v1count s) - sharesAccepted k);
  va_rejected : sessRejected s = wrap 64 (sharesRejected (v1count s) - sharesRejected k);
  va_tokens : (v1tokens s ≤ submitBurst)%nat;
  va_pending : Forall (λ p, Share_JobID (p_share p) = v1JobWireID (p_jobID p)) (pending s);
  va_job : haveJob s = true →
    currentJobID s = v1JobWireID (currentJobIDStr s) ∧
    ∃ j, lastJob s = Some j ∧ JobID j = currentJobIDStr s;
}.

Lemma wrap_succ n x : wrap n (wrap n x + 1) = wrap n (x + 1).
Proof. unfold wrap. apply Zplus_mod_idemp_l. Qed.

Ltac v1simpl := cbn [fst v1_shares v1_jobs v1_warned bump v1count pending sessAccepted sessRejected v1tokens
  haveJob currentJobID currentJobIDStr lastJob sharesFound sharesSubmitted sharesSubmitDropped
  sharesAccepted sharesRejected transitions v1fleet] in *.

Lemma v1Job_accounted k w ps j d s : v1_accounted k s → v1_accounted k (v1Job w ps j d s).1.
Proof.
  intros H. pose proof H as [H1 H2 H3 H4 H5 H6 H7]. unfold v1Job. case_if; [done|].
  destruct (checkPayout _ _ _) as [wd rp]. destruct (applyJob _ _ _ _ _); constructor; v1simpl; eauto.
Qed.

Lemma v1Retarget_accounted k w d s : v1_accounted k s → v1_accounted k (v1Retarget w d s).
Proof.
  intros H. pose proof H as [H1 H2 H3 H4 H5 H6 H7]. unfold v1Retarget. destruct (lastJob s) as [j|] eqn:E; [|done].
  case_if; [done|]. v1simpl. destruct (applyJob _ _ _ _ _); constructor; v1simpl; try rewrite E; eauto.
Qed.

Lemma v1Share_accounted k now sh s : v1_accounted k s → v1_accounted k (v1Share now sh s).1.
Proof.
  intros H. pose proof H as [H1 H2 H3 H4 H5 H6 H7]. unfold v1Share, judged in *.
  destruct (negb (haveJob s) || negb (Share_JobID sh =? currentJobID s)) eqn:E;
    [|destruct (v1tokens s) as [|toks] eqn:Et];
    constructor; v1simpl; unfold judged; v1simpl; rewrite ?Z.add_0_r, ?length_app; cbn [length]; eauto; try lia.
  apply orb_false_iff in E as [Eh%negb_false_iff Ej%negb_false_iff%Z.eqb_eq].
  apply Forall_app. split; [done|]. constructor; [|constructor]. cbn [p_share p_jobID].
  rewrite Ej. by apply H7.
Qed.

Lemma v1Verdict_accounted k lo now i r d s : v1_accounted k s → v1_accounted k (v1Verdict lo now i r d s).
Proof.
  intros H. pose proof H as [H1 H2 H3 H4 H5 H6 H7]. unfold v1Verdict. destruct (pending s !! i) as [p|] eqn:E; [|done].
  assert (length (delete i (pending s)) = length (pending s) - 1)%nat as Hl
    by (apply length_delete; eauto).
  assert (0 < length (pending s))%nat as H0 by (apply lookup_lt_Some in E; lia).
  assert (Forall (λ p, Share_JobID (p_share p) = v1JobWireID (p_jobID p)) (delete i (pending s))) as Hp
    by (by apply Forall_delete).
  unfold judged in *. destruct r as [r|e]; [destruct (Accepted r); [|destruct (match v1ShareTarget d with Some _ => _ | None => _ end)]|];
    constructor; v1simpl; unfold judged; v1simpl; rewrite ?Z.add_0_r, ?Hl, ?H3, ?H4, ?wrap_succ; eauto; try lia;
    f_equal; lia.
Qed.

Lemma v1Turn_accounted k lo ps w e s : v1_accounted k s → v1_accounted k (v1Turn lo ps w e s).1.
Proof.
  intros H. destruct e; cbn [v1Turn fst]; auto using v1Job_accounted, v1Retarget_accounted,
    v1Share_accounted, v1Verdict_accounted.
  destruct H as [H1 H2 H3 H4 H5 H6 H7]. constructor; v1simpl; eauto. unfold submitBurst. lia.
Qed.

Lemma v1Session_accounted k lo ps es : ∀ s, v1_accounted k s → v1_accounted k (v1Session lo ps es s).1.
Proof.
  induction es as [|[w e] es IH]; intros s H; [done|]. cbn [v1Session].
  pose proof (v1Turn_accounted k lo ps w e s H) as H'.
  destruct (v1Turn lo ps w e s) as [s' [err|]]; auto.
Qed.

Lemma newV1_accounted f k : v1_accounted k (newV1 f k).
Proof.
  constructor; cbn [newV1 v1count pending sessAccepted sessRejected v1tokens haveJob length]; try done;
    unfold judged; rewrite ?Z.sub_diag; try done.
Qed.


(** ** The payout warnings *)

Definition pays_out (script : list Z) (j : Job) : bool :=
  match CoinbasePaysScript (CoinbaseTx j) script with Ok true => true | _ => false end.

Fixpoint payoutReports (script : list Z) (js : list Job) (warned : bool) : list (option payoutWarning) :=
  match js with
  | [] => []
  | j :: js => let '(warned, r) := checkPayout script j warned in r :: payoutReports script js warned
  end.

Lemma checkPayout_exact script j warned :
  script ≠ [] → CoinbaseTx j ≠ [] →
  (checkPayout script j warned).1 = negb (pays_out script j) ∧
  (is_Some (checkPayout script j warned).2 ↔ pays_out script j = false ∧ warned = false).
Proof.
  intros Hs Hc. unfold checkPayout, pays_out.
  assert (∀ l : list Z, l ≠ [] → (0 <? length l)%nat = true) as Hl by (by intros []).
  rewrite !Hl by done. cbn [andb].
  destruct (CoinbasePaysScript _ _) as [[]|e]; cbn [fst snd negb]; (split; [done|]);
    destruct warned; unfold is_Some; naive_solver.
Qed.

Lemma payoutReports_exact script js warned i j :
  script ≠ [] → Forall (λ j, CoinbaseTx j ≠ []) js → js !! i = Some j →
  (∃ w, payoutReports script js warned !! i = Some (Some w)) ↔
  pays_out script j = false ∧
  match i with O => warned = false | S i => ∃ p, js !! i = Some p ∧ pays_out script p = true end.
Proof.
  intros Hs. revert warned i. induction js as [|j0 js IH]; intros warned i Hf Hi; [done|].
  apply Forall_cons in Hf as [Hj0 Hf]. cbn [payoutReports].
  destruct (checkPayout_exact script j0 warned Hs Hj0) as [H1 H2].
  destruct (checkPayout script j0 warned) as [wd r]. cbn [fst snd] in *.
  destruct i as [|i]; cbn in Hi |- *.
  - injection Hi as ->. rewrite <- H2. unfold is_Some. naive_solver.
  - rewrite (IH wd i Hf Hi). destruct i as [|i]; [|done]. cbn. subst wd.
    split; intros [? Hx]; (split; [done|]).
    + exists j0. split; [done|]. by apply negb_false_iff.
    + destruct Hx as (p & [= <-] & ->). done.
Qed.

(** The payout check of a direct-payout pool warns once per episode: for a
    sequence of jobs, a warning is issued for a job exactly when its coinbase does
    not pay the user's script and the job before it did (or it is the first). *)
Theorem payout_warnings script js i j :
  script ≠ [] → Forall (λ j, CoinbaseTx j ≠ []) js → js !! i = Some j →
  (∃ w, payoutReports script js false !! i = Some (Some w)) ↔
  pays_out script j = false ∧ (∀ p, i ≠ O → js !! Nat.pred i = Some p → pays_out script p = true).
Proof.
  intros Hs Hf Hi. rewrite payoutReports_exact by done.
  destruct i as [|i]; cbn [Nat.pred]; [naive_solver|].
  assert (is_Some (js !! i)) as [p Hp] by (apply lookup_lt_is_Some; apply lookup_lt_Some in Hi; lia).
  split; intros [? Hx]; (split; [done|]).
  - intros q _ Hq. destruct Hx as (p' & Hp' & ?). congruence.
  - exists p. split; [done|]. by apply Hx.
Qed.

(** ** Witness *)

Definition v1_demo_job (id : list Z) (script : list Z) : Job :=
  {| JobID := id; Job_Version := 0x20000000; Job_PrevHash := replicate 32 1;
     Job_MerkleRoot := replicate 32 2; Job_NTime := 100; Job_NBits := 0x1d00ffff; CleanJobs := true;
     Job_ExtraNonce := [1; 2; 3; 4]; Coinb1 := []; Coinb2 := []; MerkleBranch := [];
     CoinbaseTx := serialize (demo_tx script); ReceivedAt := 0 |}.

(** The pool pays, then twice does not, then pays, then again does not. *)
Definition payout_jobs : list Job :=
  (λ b : bool, v1_demo_job [] (if b then [0x51; 0x01; 0xaa] else [1; 2; 3])) <$>
    [true; false; false; true; false].

Lemma payout_jobs_ok : Forall (λ j, CoinbaseTx j ≠ []) payout_jobs.
Proof. apply Forall_forall. intros j (b & -> & _)%list_elem_of_fmap. by destruct b. Qed.

Lemma payout_warnings_witness :
  (∃ w, payoutReports [0x51; 0x01; 0xaa] payout_jobs false !! 1%nat = Some (Some w)) ∧
  payoutReports [0x51; 0x01; 0xaa] payout_jobs false =
    [None; Some CoinbaseDoesNotPay; None; None; Some CoinbaseDoesNotPay].
Proof.
  split; [|vm_compute; reflexivity].
  apply (payout_warnings [0x51; 0x01; 0xaa] payout_jobs 1 (v1_demo_job [] [1; 2; 3]));
    [discriminate|apply payout_jobs_ok|reflexivity|].
  split; [vm_compute; reflexivity|]. intros p _ Hp. injection Hp as <-. vm_compute. reflexivity.
Defined.

(** * What the workers hash *)

Definition v1current (s : v1loop) (wk : Work) : Prop :=
  haveJob s = true ∧
  ∃ j, lastJob s = Some j ∧ Work_JobID wk = v1JobWireID (JobID j) ∧
    Version (Work_Header wk) = Job_Version j ∧ MerkleRoot (Work_Header wk) = Job_MerkleRoot j ∧
    PrevHash (Work_Header wk) = Job_PrevHash j ∧ Bits (Work_Header wk) = Job_NBits j ∧
    Work_ExtraNonce wk = Job_ExtraNonce j ∧
    ∀ t, v1JobTarget (Job_NBits j) (appliedDifficulty s) = Ok t → Work_Target wk = t.
