(* ===== verification/EngineSession.v ===== *)
(** * internal/engine: what a pool session promises the engine

    [Run] shares its workers between the pool session, the price loop and the
    arbitration loop, and does not care which protocol the session speaks.  The
    interface a session offers ([Session]) and what it owes the other goroutines
    ([Feeder]), with its two implementations — [runSession] and [runSessionV1] — and
    the choice between them that each reconnection makes. *)
From S2P Require Import Prelude.
From S2P Require Import Float64.
From S2P Require Import Sha256d.
From S2P Require Import Worker.
From S2P Require Import Poolproto.
From S2P Require Import Messages.
From S2P Require Import StratumV2.
From S2P Require Import EngineStats.
From S2P Require Import EngineV2.
From S2P Require Import EngineV1.

Open Scope Z_scope.

(** Workers with work are outside the gate and the pause set. *)
Definition unparked (g : bool) (ps : gset string) (f : fleet) : Prop :=
  ∀ wr p, wr ∈ workers f → work wr = Some p → g = false ∧ DeviceID wr ∉ ps.

Lemma idleAll_work f wr : wr ∈ workers (idleAll f) → work wr = None.
Proof. cbn. rewrite list_elem_of_fmap. by intros (w0 & -> & _). Qed.

(** Arming a fleet whose parked workers are idle. *)
Lemma armAll_work w wk f wr p :
  unparked (curtailed w) (paused w) f → wr ∈ workers (armAll w wk f) → work wr = Some p →
  DeviceID wr ∉ paused w ∧ p = (allocated f, wk).
Proof.
  intros HU (w0 & -> & Hin)%list_elem_of_fmap. destruct (decide (DeviceID w0 ∈ paused w)) as [Hp|Hp].
  - rewrite bool_decide_eq_true_2 by done. intros Hwk. by destruct (HU w0 _ Hin Hwk).
  - rewrite bool_decide_eq_false_2 by done. by intros [= <-].
Qed.

(** ** The interface *)

Class Session (S E R : Type) := {
  fleet_of : S → fleet;
  put_fleet : fleet → S → S;               (* another goroutine changed the workers *)
  counters_of : S → counters;
  run_turn : world → E → S → S;            (* one turn of the session's loop *)
  open_session : R → fleet → counters → S; (* after a successful dial and handshake *)
}.

(** [hashes s wk]: [wk] is what the session wants hashed now. *)
Class Feeder (S E R : Type) `{Session S E R} := {
  hashes : S → Work → Prop;
  sound : S → Prop;
  admissible : E → Prop;
  fed (g : bool) (ps : gset string) (s : S) : Prop :=
    sound s ∧ unparked g ps (fleet_of s) ∧
    ∀ wr i wk, wr ∈ workers (fleet_of s) → work wr = Some (i, wk) → hashes s wk;
  fleet_put f s : fleet_of (put_fleet f s) = f;
  hashes_put f s wk : hashes s wk → hashes (put_fleet f s) wk;
  sound_put f s : sound s → sound (put_fleet f s);
  open_fleet r f c : fleet_of (open_session r f c) = f;
  open_sound r f c : sound (open_session r f c);
  turn_fed w e s : fed (curtailed w) (paused w) s → admissible e →
    fed (curtailed w) (paused w) (run_turn w e s);
}.

(** ** Stratum V2 *)

(** The work hashes the active job on the current tip at the current share
    target. *)
Definition current (ch : Z) (js : jobstate) (wk : Work) : Prop :=
  haveTip js = true ∧
  ∃ j, active js = Some j ∧ Work_JobID wk = nmj_JobID j ∧ Work_ChannelID wk = ch ∧
    Version (Work_Header wk) = nmj_Version j ∧ MerkleRoot (Work_Header wk) = nmj_MerkleRoot j ∧
    PrevHash (Work_Header wk) = tipHash js ∧ Bits (Work_Header wk) = tipNBits js ∧
    (if bool_decide (shareTarget js = zeroHash) then TargetFromNBits (tipNBits js)
     else Ok (shareTarget js)) = Ok (Work_Target wk).

Record in_step (g : bool) (ps : gset string) (ch : Z) (sf : jobstate * fleet) : Prop := {
  is_unparked : unparked g ps sf.2;
  is_current wr i wk : wr ∈ workers sf.2 → work wr = Some (i, wk) → current ch sf.1 wk;
  is_tip : haveTip sf.1 = true → ∃ t, TargetFromNBits (tipNBits sf.1) = Ok t;
}.

(** [startJob] re-establishes the invariant from the parking alone. *)
Lemma startJob_in_step w ch j ntime sf :
  unparked (curtailed w) (paused w) sf.2 → haveTip sf.1 = true →
  (∃ t, TargetFromNBits (tipNBits sf.1) = Ok t) →
  in_step (curtailed w) (paused w) ch (startJob w ch j ntime sf).
Proof.
  intros HU Ht [t0 Ht0]. unfold startJob. destruct (curtailed w) eqn:Ec.
  { split; cbn [fst snd]; [done| |by eexists].
    intros wr i wk Hin Hwk. by destruct (HU wr _ Hin Hwk). }
  unfold updateWork. cbn [activate tipHash tipNBits shareTarget].
  destruct (if bool_decide _ then _ else _) as [t|e] eqn:Et.
  2:{ case_bool_decide; congruence. }
  split; cbn [fst snd].
  - intros wr p Hin Hwk. rewrite <- Ec in HU. by destruct (armAll_work _ _ _ _ _ HU Hin Hwk).
  - intros wr i wk Hin Hwk. rewrite <- Ec in HU.
    destruct (armAll_work _ _ _ _ _ HU Hin Hwk) as [_ [= -> ->]].
    split; [done|]. exists j. split_and!; done.
  - intros _. by exists t0.
Qed.

Lemma newMiningJob_in_step w ch j sf :
  in_step (curtailed w) (paused w) ch sf → in_step (curtailed w) (paused w) ch (newMiningJob w ch j sf).
Proof.
  intros [H1 H2 H3]. unfold newMiningJob. destruct (storeBoundedJob _ _ _) as [order js].
  cbn [haveTip]. destruct (nmj_HasNtimeStart j && haveTip sf.1) eqn:E; [|by split].
  apply andb_true_iff in E as [_ E]. apply startJob_in_step; cbn [fst snd haveTip tipNBits]; auto.
Qed.

Definition valid_tip (p : SetNewPrevHash) : Prop := ∃ t, TargetFromNBits (snp_NBits p) = Ok t.

Lemma setNewPrevHash_in_step w ch p sf :
  in_step (curtailed w) (paused w) ch sf → valid_tip p →
  in_step (curtailed w) (paused w) ch (setNewPrevHash w ch p sf).
Proof.
  intros [H1 H2 H3] Hp. unfold setNewPrevHash. destruct (jobs sf.1 !! snp_JobID p) as [j|].
  - by apply startJob_in_step.
  - split; cbn [fst snd]; [| |done].
    + intros wr q Hin Hwk. apply idleAll_work in Hin. congruence.
    + intros wr i wk Hin Hwk. apply idleAll_work in Hin. congruence.
Qed.

Lemma setTarget_in_step w ch t sf :
  in_step (curtailed w) (paused w) ch sf → in_step (curtailed w) (paused w) ch (setTarget w ch t sf).
Proof.
  intros [H1 H2 H3]. unfold setTarget. cbn [active haveTip activeNTime].
  assert (∀ wr i wk, active sf.1 = None ∨ haveTip sf.1 = false → wr ∈ workers sf.2 →
    work wr = Some (i, wk) → False) as Hno.
  { intros wr i wk Hor Hin Hwk. destruct (H2 wr i wk Hin Hwk) as (? & ? & ? & _). destruct Hor; congruence. }
  destruct (active sf.1) as [j|] eqn:Ea.
  - destruct (haveTip sf.1) eqn:Eh.
    + apply startJob_in_step; cbn [fst snd haveTip tipNBits]; auto.
    + split; cbn [fst snd]; [done| |done]. intros wr i wk Hin Hwk. exfalso. eauto.
  - split; cbn [fst snd]; [done| |done]. intros wr i wk Hin Hwk. exfalso. eauto.
Qed.

(** Pools announce tips whose nBits decode. *)
Definition pool_tips_valid (e : event) : Prop :=
  match e with
  | PoolMsg (Ok m) => match m_SetNewPrevHash m with Some p => valid_tip p | None => True end
  | _ => True
  end.

Definition feeds (s : v2session) : jobstate * fleet := (job s, feet s).

Lemma turn_in_step lo w e s :
  in_step (curtailed w) (paused w) (chan s) (feeds s) → pool_tips_valid e →
  let s' := (turn lo w e s).1.1 in in_step (curtailed w) (paused w) (chan s') (feeds s').
Proof.
  intros HI He. unfold turn. destruct e as [[m|e]| |sh ok|yf| |]; try done.
  - unfold poolMessage. destruct (foreign m s); [done|]. destruct (m_Unknown m); [done|].
    destruct (misplacedMsgType m); [done|].
    assert (in_step (curtailed w) (paused w) (chan s)
      (whenSome (m_SetTarget m) (setTarget w (chan s))
        (whenSome (m_SetNewPrevHash m) (setNewPrevHash w (chan s))
          (whenSome (m_NewMiningJob m) (newMiningJob w (chan s)) (feeds s))))) as HI'.
    { destruct (m_NewMiningJob m); cbn [whenSome];
        (destruct (m_SetNewPrevHash m) as [p|] eqn:Ep; cbn [whenSome];
          (destruct (m_SetTarget m); cbn [whenSome]));
        repeat first [apply setTarget_in_step | apply setNewPrevHash_in_step |
          apply newMiningJob_in_step]; try done; cbn in He; by rewrite Ep in He. }
    fold (feeds s). set (sf := whenSome (m_SetTarget m) _ _) in *.
    assert (in_step (curtailed w) (paused w) (chan s) (sf.1, sf.2)) as HI2 by (by destruct sf).
    destruct (m_SubmitSharesError m) as [e|]; [|exact HI2].
    destruct (submitError _ _ _ _ _) as [y []]; exact HI2.
  - destruct (foundShare _ _ _ _ _ _) as [x [[data|e]|]]; done.
Qed.


Definition with_fleet (f : fleet) (s : v2session) : v2session := with_jobs (job s, f) s.

#[export] Instance v2_session (lo : list Z → list Z) : Session v2session event (Z * Z * Hash) := {
  fleet_of := feet;
  put_fleet := with_fleet;
  counters_of s := count (sub s);
  run_turn w e s := (turn lo w e s).1.1;
  open_session r f c := newSession r.1.1 r.1.2 r.2 f c;
}.

#[export] Instance v2_feeder (lo : list Z → list Z) :
  Feeder v2session event (Z * Z * Hash) (H := v2_session lo).
Proof.
  refine {| hashes s wk := current (chan s) (job s) wk;
            sound s := haveTip (job s) = true → ∃ t, TargetFromNBits (tipNBits (job s)) = Ok t;
            admissible := pool_tips_valid |}; try done.
  intros w e s (H1 & H2 & H3) He.
  destruct (turn_in_step lo w e s) as [I1 I2 I3]; [by split|done|]. by split_and!.
Defined.

(** ** Stratum V1 *)

#[export] Instance v1_session (lo : list Z → list Z) (payoutScript : list Z) :
    Session v1loop v1event unit := {
  fleet_of := v1fleet;
  put_fleet f s := v1_jobs f (currentJobID s) (currentJobIDStr s) (haveJob s) (lastJob s)
                     (appliedDifficulty s) s;
  counters_of := v1count;
  run_turn w e s := (v1Turn lo payoutScript w e s).1;
  open_session _ f c := newV1 f c;
}.

Lemma applyJob_work w j d f f' wr i wk :
  unparked (curtailed w) (paused w) f → applyJob w j 0 d f = Ok f' →
  wr ∈ workers f' → work wr = Some (i, wk) →
  DeviceID wr ∉ paused w ∧ ∃ t, v1JobTarget (Job_NBits j) d = Ok t ∧ wk = v1Work w j 0 t.
Proof.
  intros HU. unfold applyJob. destruct (v1JobTarget _ _) as [t|]; [|done]. intros [= <-] Hin Hwk.
  destruct (armAll_work _ _ _ _ _ HU Hin Hwk) as [? [= -> ->]]. eauto.
Qed.

Definition v1fed (w : world) (s : v1loop) : Prop :=
  unparked (curtailed w) (paused w) (v1fleet s) ∧
  ∀ wr i wk, wr ∈ workers (v1fleet s) → work wr = Some (i, wk) → v1current s wk.

(** Applying [j] at difficulty [d] re-establishes the promise. *)
Lemma applyJob_fed w j d f f' id str s :
  unparked (curtailed w) (paused w) f → curtailed w = false → applyJob w j 0 d f = Ok f' →
  v1fed w (v1_jobs f' id str true (Some j) d s).
Proof.
  intros HU Hc HA. split; cbn [v1_jobs v1fleet].
  - intros wr [i wk] Hin Hwk. by destruct (applyJob_work _ _ _ _ _ _ _ _ HU HA Hin Hwk).
  - intros wr i wk Hin Hwk. destruct (applyJob_work _ _ _ _ _ _ _ _ HU HA Hin Hwk) as (_ & t & Ht & ->).
    split; [done|]. exists j. split_and!; try done. intros t'. cbn. congruence.
Qed.

Lemma v1Retarget_fed w d s : v1fed w s → v1fed w (v1Retarget w d s).
Proof.
  intros HF. pose proof HF as [HU HC]. unfold v1Retarget.
  destruct (lastJob s) as [j|] eqn:El; [|done].
  destruct (negb (haveJob s) || curtailed w || _) eqn:E; [done|].
  apply orb_false_iff in E as [[Eh%negb_false_iff Ec]%orb_false_iff _].
  cbn [v1_jobs v1fleet currentJobID currentJobIDStr haveJob lastJob]. rewrite Eh.
  destruct (applyJob w j 0 d (v1fleet s)) as [f'|e] eqn:EA; [by eapply applyJob_fed|].
  split; cbn [v1_jobs v1fleet]; [done|]. intros wr i wk Hin Hwk.
  destruct (HC wr i wk Hin Hwk) as (_ & j' & Hj' & ? & ? & ? & ? & ? & ? & _). split; [done|].
  exists j'. cbn [v1_jobs lastJob appliedDifficulty]. split_and!; try done; [congruence|].
  intros t Ht. exfalso. unfold applyJob in EA. assert (j' = j) as -> by congruence. by rewrite Ht in EA.
Qed.

Lemma v1Turn_fed lo ps w e s : v1fed w s → v1fed w (v1Turn lo ps w e s).1.
Proof.
  intros HF. pose proof HF as [HU HC].
  assert (∀ s', v1fleet s' = v1fleet s → haveJob s' = haveJob s → lastJob s' = lastJob s →
    appliedDifficulty s' = appliedDifficulty s → v1fed w s') as Hsame.
  { intros s' E1 E2 E3 E4. unfold v1fed, v1current. by rewrite E1, E2, E3, E4. }
  destruct e as [j d| |d|sh|i r d|yf| |]; cbn [v1Turn fst]; try done; try (by apply Hsame).
  - unfold v1Job. destruct (curtailed w) eqn:Ec; [by rewrite <- Ec in *|].
    destruct (checkPayout _ _ _) as [wd rp]. cbn [v1_warned v1fleet].
    destruct (applyJob w j 0 d (v1fleet s)) as [f'|e] eqn:EA; cbn [fst].
    + rewrite <- Ec in HU. by eapply applyJob_fed.
    + by apply Hsame.
  - by apply v1Retarget_fed.
  - unfold v1Share. case_if; [by apply Hsame|]. by destruct (v1tokens s); apply Hsame.
  - unfold v1Verdict. destruct (pending s !! i); [|done].
    destruct r as [r|e]; [|by apply Hsame]. destruct (Accepted r); [by apply Hsame|].
    by destruct (match v1ShareTarget d with Some _ => _ | None => _ end); apply Hsame.
Qed.

#[export] Instance v1_feeder (lo : list Z → list Z) (payoutScript : list Z) :
  Feeder v1loop v1event unit (H := v1_session lo payoutScript).
Proof.
  refine {| hashes := v1current; sound _ := True; admissible _ := True |}; try done.
  intros w e s (_ & H2) _. split; [done|]. exact (v1Turn_fed lo payoutScript w e s H2).
Defined.

(** ** Either protocol *)

Section either.
Context {S1 E1 R1 S2 E2 R2 : Type} `{F1 : Feeder S1 E1 R1} `{F2 : Feeder S2 E2 R2}.

(** Events of the other protocol do not reach a session. *)
#[export] Instance either_session : Session (S1 + S2) (E1 + E2) (R1 + R2) := {
  fleet_of s := match s with inl s => fleet_of s | inr s => fleet_of s end;
  put_fleet f s := match s with inl s => inl (put_fleet f s) | inr s => inr (put_fleet f s) end;
  counters_of s := match s with inl s => counters_of s | inr s => counters_of s end;
  run_turn w e s := match s, e with
                    | inl s, inl e => inl (run_turn w e s)
                    | inr s, inr e => inr (run_turn w e s)
                    | _, _ => s
                    end;
  open_session r f c := match r with
                        | inl r => inl (open_session r f c)
                        | inr r => inr (open_session r f c)
                        end;
}.

#[export] Instance either_feeder : Feeder (S1 + S2) (E1 + E2) (R1 + R2).
Proof.
  refine {| hashes s wk := match s with inl s => hashes s wk | inr s => hashes s wk end;
            sound s := match s with inl s => sound s | inr s => sound s end;
            admissible e := match e with inl e => admissible e | inr e => admissible e end |}.
  - intros f [s|s]; [apply (@fleet_put _ _ _ _ F1)|apply (@fleet_put _ _ _ _ F2)].
  - intros f [s|s] wk; [apply (@hashes_put _ _ _ _ F1)|apply (@hashes_put _ _ _ _ F2)].
  - intros f [s|s]; [apply (@sound_put _ _ _ _ F1)|apply (@sound_put _ _ _ _ F2)].
  - intros [r|r] f c; [apply (@open_fleet _ _ _ _ F1)|apply (@open_fleet _ _ _ _ F2)].
  - intros [r|r] f c; [apply (@open_sound _ _ _ _ F1)|apply (@open_sound _ _ _ _ F2)].
  - intros w e [s|s] HF He; destruct e as [e|e]; try exact HF;
      [apply (@turn_fed _ _ _ _ F1 w e s HF He)|apply (@turn_fed _ _ _ _ F2 w e s HF He)].
Defined.

End either.
