(* ===== verification/Provider.v ===== *)
(** * internal/provider: quotes and the polling providers

    What a market quotes for each device, the bounded channel the quotes travel
    through, and the two providers built on it.  The price feed (a [RateSource])
    and the hashrate feeds enter as the values they returned. *)
From S2P Require Import Prelude.
From S2P Require Import Float64.
From S2P Require Import Arbitration.

Open Scope Z_scope.

(** ** provider.go *)

Record QYield := { q_SatsPerSecond : float64; q_NetSatsPerSecond : float64; q_Confidence : float64 }.

Definition QYield_Effective (y : QYield) : float64 :=
  if negb (flt fzero (q_NetSatsPerSecond y)) || negb (flt fzero (q_Confidence y)) then fzero
  else
    let v := fmul (q_NetSatsPerSecond y) (fmin (q_Confidence y) fone) in
    if IsInf v || IsInf (q_Confidence y) then fzero else v.

(** [AcceptedFamilies] may be nil; [At] is [None] for the zero time. *)
Record Quote := {
  q_ProviderID : string;
  q_DeviceID : string;
  q_Yield : QYield;
  AcceptedFamilies : option (list Family);
  At : option Z;
}.

(** What [BTCUSDRate] and [CurrentHashrate] return: a value and its freshness. *)
Definition reading : Type := float64 * bool.

Definition SatsPerSecond_of (usdPerHour btcUSDRate : float64) : float64 :=
  if fle btcUSDRate fzero || fle usdPerHour fzero then fzero
  else fdiv (fmul (fdiv usdPerHour btcUSDRate) (f64_of_Z (10 ^ 8))) (f64_of_Z 3600).

(** ** polling.go *)

Inductive start_state := Stopped | Started.

Record pollingProvider := { quoteCap : nat; quoteCh : list Quote; cancel : start_state }.

(** [launch]: the prepared device set, unless already started. *)
Definition launch {D} (label : string) (prepare : D → D) (pd : pollingProvider * D)
    : (pollingProvider * D) * option error :=
  match cancel pd.1 with
  | Started => (pd, Some (Sentinel ("provider: " ++ label ++ " already started")))
  | Stopped => (({| quoteCap := quoteCap pd.1; quoteCh := quoteCh pd.1; cancel := Started |},
                 prepare pd.2), None)
  end.

Definition Stop (p : pollingProvider) : pollingProvider :=
  match cancel p with
  | Started => {| quoteCap := quoteCap p; quoteCh := []; cancel := Stopped |}
  | Stopped => p
  end.

(** What [sendQuote] meets: whether the context is done at each select, which of
    two ready cases is picked, and how many quotes the consumer takes before
    and after the oldest is dropped. *)
Record sending := { done1 : bool; pick1 : bool; done2 : bool; pick2 : bool; take1 : nat; take2 : nat }.

Definition sendQuote (x : sending) (q : Quote) (p : pollingProvider) : pollingProvider * bool :=
  let upd ch := {| quoteCap := quoteCap p; quoteCh := ch; cancel := cancel p |} in
  if (length (quoteCh p) <? quoteCap p)%nat then
    if done1 x && pick1 x then (p, false) else (upd (quoteCh p ++ [q]), true)
  else if done1 x then (p, false)
  else
    let ch := drop (take2 x) (drop 1 (drop (take1 x) (quoteCh p))) in
    if done2 x && pick2 x then (upd ch, false) else (upd (ch ++ [q]), true).

(** The loop over the devices: stop at the first quote that is not sent. *)
Fixpoint sendAll (xs : nat → sending) (qs : list Quote) (p : pollingProvider) : pollingProvider :=
  match qs with
  | [] => p
  | q :: qs =>
      match sendQuote (xs O) q p with
      | (p, true) => sendAll (xs ∘ S) qs p
      | (p, false) => p
      end
  end.

(** ** mining.go *)

Definition FamilyASIC : Family := "asic".
Definition FamilyGPU : Family := "gpu".
Definition FamilyCPU : Family := "cpu".

Record MiningProvider := {
  m_id : string;
  m_devices : list DeviceRef;
  HashrateFunc : option (string → float64);
  NetworkHashrateFunc : option reading;
  payoutScheme : option string;
}.

Definition NewMiningProvider : pollingProvider * MiningProvider :=
  ({| quoteCap := 16; quoteCh := []; cancel := Stopped |},
   {| m_id := "mining.stratum"; m_devices := []; HashrateFunc := None; NetworkHashrateFunc := None;
      payoutScheme := None |}).

Definition PayoutScheme (p : MiningProvider) : string := default "" (payoutScheme p).
Definition SetPayoutScheme (s : string) (p : MiningProvider) : MiningProvider :=
  {| m_id := m_id p; m_devices := m_devices p; HashrateFunc := HashrateFunc p;
     NetworkHashrateFunc := NetworkHashrateFunc p; payoutScheme := Some s |}.

Definition mining_Start (devices : list DeviceRef) : pollingProvider * MiningProvider →
    (pollingProvider * MiningProvider) * option error :=
  launch "mining provider" (λ p,
    {| m_id := m_id p; m_devices := devices; HashrateFunc := HashrateFunc p;
       NetworkHashrateFunc := NetworkHashrateFunc p; payoutScheme := payoutScheme p |}).

Definition networkInput (fresh : bool) (net : option reading) : float64 * float64 :=
  let confidence := if fresh then f64_const 95 100 else f64_const 7 10 in
  let fallback := f64_of_Z (10 ^ 21) in
  match net with
  | None => (fallback, confidence)
  | Some (h, hashFresh) =>
      if hashFresh && flt fzero h then (h, confidence)
      else (fallback, if flt (f64_const 7 10) confidence then f64_const 7 10 else confidence)
  end.

Definition deviceHashrate (p : MiningProvider) (d : DeviceRef) : float64 :=
  let measured := match HashrateFunc p with Some f => f (dev_id d) | None => fzero end in
  if fle measured fzero then
    let fam := id_Family (dev_Identity d) in
    if String.eqb fam FamilyASIC then f64_of_Z (100 * 10 ^ 12)
    else if String.eqb fam FamilyGPU then f64_of_Z 1500000000
    else f64_of_Z (10 * 10 ^ 6)
  else measured.

Definition miningQuote (now : Z) (network confidence : float64) (p : MiningProvider) (d : DeviceRef)
    : Quote :=
  let btcPerSec := fdiv (fmul (fdiv (deviceHashrate p d) network) (f64_const 3125 1000)) (f64_of_Z 600) in
  let satsPerSec := fmul btcPerSec (f64_of_Z (10 ^ 8)) in
  let net := if String.eqb (PayoutScheme p) "solo" then satsPerSec
             else fmul satsPerSec (f64_const 99 100) in
  {| q_ProviderID := m_id p; q_DeviceID := dev_id d;
     q_Yield := {| q_SatsPerSecond := satsPerSec; q_NetSatsPerSecond := net;
                   q_Confidence := confidence |};
     AcceptedFamilies := Some [FamilyASIC; FamilyGPU; FamilyCPU]; At := Some now |}.

Definition miningQuotes (now : Z) (rate : reading) (p : MiningProvider) : list Quote :=
  let '(network, confidence) := networkInput rate.2 (NetworkHashrateFunc p) in
  miningQuote now network confidence p <$>
    List.filter (λ d, cap_SHA256d (dev_Capabilities d)) (m_devices p).

Definition mining_publish (now : Z) (rate : reading) (xs : nat → sending)
    (pp : pollingProvider * MiningProvider) : pollingProvider * MiningProvider :=
  (sendAll xs (miningQuotes now rate pp.2) pp.1, pp.2).

(** ** ai_inference.go *)

Record AkashProvider := {
  a_id : string;
  a_devices : list DeviceRef;
  MinUSDPerHour : float64;
  MaxUSDPerHour : float64;
}.

Definition NewAkashProvider : pollingProvider * AkashProvider :=
  ({| quoteCap := 32; quoteCh := []; cancel := Stopped |},
   {| a_id := "ai.akash"; a_devices := []; MinUSDPerHour := f64_const 30 100;
      MaxUSDPerHour := f64_const 60 100 |}).

Definition akash_Start (devices : list DeviceRef) : pollingProvider * AkashProvider →
    (pollingProvider * AkashProvider) * option error :=
  launch "akash" (λ p,
    {| a_id := a_id p;
       a_devices := List.filter (λ d, String.eqb (id_Family (dev_Identity d)) FamilyGPU &&
                                      GeneralCompute (dev_Capabilities d)) devices;
       MinUSDPerHour := MinUSDPerHour p; MaxUSDPerHour := MaxUSDPerHour p |}).

Definition akashQuotes (now : Z) (rate : reading) (p : AkashProvider) : list Quote :=
  match a_devices p with
  | [] => [{| q_ProviderID := a_id p; q_DeviceID := "";
              q_Yield := {| q_SatsPerSecond := fzero; q_NetSatsPerSecond := fzero;
                            q_Confidence := fzero |};
              AcceptedFamilies := Some [FamilyGPU]; At := Some now |}]
  | ds =>
      let usd := if fle rate.1 fzero then f64_of_Z 95000 else rate.1 in
      let confidence := if rate.2 then f64_const 85 100 else f64_const 6 10 in
      let usdPerHour := fdiv (fadd (MinUSDPerHour p) (MaxUSDPerHour p)) (f64_of_Z 2) in
      let netUSDPerHour := fmul usdPerHour (f64_const 80 100) in
      (λ d, {| q_ProviderID := a_id p; q_DeviceID := dev_id d;
               q_Yield := {| q_SatsPerSecond := SatsPerSecond_of usdPerHour usd;
                             q_NetSatsPerSecond := SatsPerSecond_of netUSDPerHour usd;
                             q_Confidence := confidence |};
               AcceptedFamilies := Some [FamilyGPU]; At := Some now |}) <$> ds
  end.

Definition akash_publish (now : Z) (rate : reading) (xs : nat → sending)
    (pp : pollingProvider * AkashProvider) : pollingProvider * AkashProvider :=
  (sendAll xs (akashQuotes now rate pp.2) pp.1, pp.2).

(** * The channel keeps the freshest quotes *)

Lemma sendQuote_suffix x q p :
  (0 < quoteCap p)%nat → (length (quoteCh p) ≤ quoteCap p)%nat → done1 x = false → done2 x = false →
  ∃ p', sendQuote x q p = (p', true) ∧ quoteCap p' = quoteCap p ∧
    (length (quoteCh p') ≤ quoteCap p)%nat ∧ (∃ l, quoteCh p' = l ++ [q] ∧ l `suffix_of` quoteCh p) ∧
    (take1 x = 0%nat → take2 x = 0%nat →
       length (quoteCh p') = Nat.min (quoteCap p) (S (length (quoteCh p)))).
Proof.
  intros H0 Hl H1 H2. unfold sendQuote. rewrite H1, H2. cbn [andb].
  case_if; eexists; (split; [reflexivity|]); cbn [quoteCap quoteCh]; rewrite length_app; cbn [length].
  - split_and!; [done|lia|eauto|intros; lia].
  - rewrite !length_drop. split_and!; [done|lia| |intros; lia].
    eexists. split; [done|].
    do 2 (etransitivity; [apply suffix_drop|]). apply suffix_drop.
Qed.

(** While a provider is running, publishing a batch of quotes leaves in its
    channel a suffix of what was there followed by the batch, never more than
    the channel's capacity; the newest quote is always in it, whatever the
    consumer takes meanwhile; and with an idle consumer nothing is dropped that
    would have fitted. *)
Theorem sendAll_freshest xs qs p :
  (0 < quoteCap p)%nat → (length (quoteCh p) ≤ quoteCap p)%nat →
  (∀ i, done1 (xs i) = false ∧ done2 (xs i) = false) →
  let ch := quoteCh (sendAll xs qs p) in
  ch `suffix_of` quoteCh p ++ qs ∧ (length ch ≤ quoteCap p)%nat ∧
  (∀ q, last qs = Some q → last ch = Some q) ∧
  ((∀ i, take1 (xs i) = 0%nat ∧ take2 (xs i) = 0%nat) →
     length ch = Nat.min (quoteCap p) (length (quoteCh p ++ qs))).
Proof.
  revert xs p. induction qs as [|q qs IH]; intros xs p H0 Hl Hd; cbn [sendAll].
  { rewrite app_nil_r. split_and!; [done|done|done|intros; lia]. }
  destruct (Hd O) as [D1 D2].
  destruct (sendQuote_suffix (xs O) q p H0 Hl D1 D2) as (p' & -> & Hc & Hl' & (l & Hch & Hsuf) & Hidle).
  destruct (IH (xs ∘ S) p') as (I1 & I2 & I3 & I4); [by rewrite Hc|by rewrite Hc|intros i; apply Hd|].
  rewrite Hc in I2, I4. split_and!.
  - etransitivity; [exact I1|]. rewrite Hch, <- (assoc_L (++)). by apply suffix_app.
  - done.
  - intros q' Hq. destruct qs as [|q0 qs]; [|by apply I3].
    cbn in Hq. injection Hq as <-. cbn [sendAll]. by rewrite Hch, last_snoc.
  - intros Ht. rewrite I4 by (intros i; apply Ht). destruct (Ht O) as [T1 T2].
    rewrite !length_app, (Hidle T1 T2). cbn [length]. lia.
Qed.

(** ** Witness *)

Definition demo_quote (pid did : string) (net : Z) (at_ : Z) : Quote :=
  {| q_ProviderID := pid; q_DeviceID := did;
     q_Yield := {| q_SatsPerSecond := f64_of_Z net; q_NetSatsPerSecond := f64_of_Z net;
                   q_Confidence := fone |};
     AcceptedFamilies := None; At := Some at_ |}.
Definition quiet_sending : sending :=
  {| done1 := false; pick1 := false; done2 := false; pick2 := false; take1 := 0; take2 := 0 |}.
Definition demo_batch : list Quote := (λ i, demo_quote "mining.stratum" "cpu0" i i) <$> seqZ 1 20.

Lemma sendAll_freshest_witness :
  let p := NewMiningProvider.1 in
  length (quoteCh (sendAll (λ _, quiet_sending) demo_batch p)) = 16%nat ∧
  quoteCh (sendAll (λ _, quiet_sending) demo_batch p) `suffix_of` demo_batch.
Proof.
  intros p. destruct (sendAll_freshest (λ _, quiet_sending) demo_batch p) as (H1 & _ & _ & H4);
    [vm_compute; lia|vm_compute; lia|done|].
  split; [|exact H1]. etransitivity; [apply H4; intros i; split; reflexivity|].
  vm_compute. reflexivity.
Defined.
