(* ===== verification/EngineArb.v ===== *)
(** * internal/engine/arbitrate.go: the arbitration loop

    Quotes folded into the stream map, the expiry of dead providers, one
    arbitration tick, and the application of its result to the workers and to the
    shared pause set.  Logs are not modelled.  [range] is the order in which Go's
    [range] visits a map, which the language leaves open. *)
From S2P Require Import Prelude.
From S2P Require Import Float64.
From S2P Require Import Worker.
From S2P Require Import Arbitration.
From S2P Require Import Provider.
From S2P Require Import EngineV2.

Open Scope Z_scope.

Definition miningStreamPrefix : string := "mining.".
Definition HasPrefix (s p : string) : bool := String.prefix p s.
Definition allDeviceFamilies : list Family := [FamilyASIC; FamilyGPU; FamilyCPU].
Definition defaultHysteresisPct : float64 := f64_const 5 100.
Definition streamStaleTimeout : Z := 3 * 60 * 10 ^ 9.

(** ** The pause set *)

(** The condition under which [reconcileArbPauses] pauses a device. *)
Definition parks (a : Assignment) : bool := Idle a || negb (HasPrefix (a_Stream a) miningStreamPrefix).

Definition reconcileArbPauses (al : Allocation) (ps : gset string) : gset string :=
  foldl (λ ps a, if parks a then {[a_DeviceID a]} ∪ ps else ps ∖ {[a_DeviceID a]}) ps (Assignments al).

(** ** Quotes and streams *)

Definition quoteFreshness (at_ : option Z) (now : Z) : Z :=
  match at_ with
  | None => now
  | Some t => if now <? t then now else t
  end.

Definition zeroYield : Yield := {| SatsPerSecond := fzero; Confidence := fzero |}.
Definition zeroStream : Stream :=
  {| Stream_ID := ""; AcceptsFamilies := []; YieldPerDevice := ∅; DefaultYield := zeroYield;
     PrivacyRating := 0; EnvironmentalRating := 0; IsBitcoinMining := false |}.

Definition streamKey (q : Quote) : string := q_ProviderID q ++ ":" ++ q_DeviceID q.

Definition netYield (q : Quote) : Yield :=
  {| SatsPerSecond := if fle (q_NetSatsPerSecond (q_Yield q)) fzero then q_SatsPerSecond (q_Yield q)
                      else q_NetSatsPerSecond (q_Yield q);
     Confidence := q_Confidence (q_Yield q) |}.

Definition updateStream (q : Quote) (m : gmap string Stream) : gmap string Stream :=
  let existing := default zeroStream (m !! streamKey q) in
  <[streamKey q :=
     {| Stream_ID := q_ProviderID q;
        AcceptsFamilies := match AcceptedFamilies q with Some fs => fs | None => allDeviceFamilies end;
        YieldPerDevice := if String.eqb (q_DeviceID q) "" then YieldPerDevice existing
                          else <[q_DeviceID q := netYield q]> (YieldPerDevice existing);
        DefaultYield := if String.eqb (q_DeviceID q) "" then netYield q else DefaultYield existing;
        PrivacyRating := PrivacyRating existing;
        EnvironmentalRating := EnvironmentalRating existing;
        IsBitcoinMining := HasPrefix (q_ProviderID q) miningStreamPrefix |}]> m.

Definition stale (now : Z) (ts : Z) : bool := streamStaleTimeout <? now - ts.
Definition pruneStaleStreams (now : Z) (m : gmap string Stream) (seen : gmap string Z)
    : gmap string Stream * gmap string Z :=
  let dead := filter (λ kt, stale now kt.2 = true) seen in
  (filter (λ ks, dead !! ks.1 = None) m, filter (λ kt, stale now kt.2 = false) seen).

(** A representative of [streamsSlice] and, when its map was not copied because
    it was empty, the entry of the stream map it shares that map with. *)
Record repr := { rep : Stream; shared : option string }.

Definition set_yields (y : gmap string Yield) (s : Stream) : Stream :=
  {| Stream_ID := Stream_ID s; AcceptsFamilies := AcceptsFamilies s; YieldPerDevice := y;
     DefaultYield := DefaultYield s; PrivacyRating := PrivacyRating s;
     EnvironmentalRating := EnvironmentalRating s; IsBitcoinMining := IsBitcoinMining s |}.
Definition set_default (y : Yield) (s : Stream) : Stream :=
  {| Stream_ID := Stream_ID s; AcceptsFamilies := AcceptsFamilies s;
     YieldPerDevice := YieldPerDevice s; DefaultYield := y; PrivacyRating := PrivacyRating s;
     EnvironmentalRating := EnvironmentalRating s; IsBitcoinMining := IsBitcoinMining s |}.
Definition isZeroYield (y : Yield) : bool := feq (SatsPerSecond y) fzero && feq (Confidence y) fzero.

Definition mergeStream (st : gmap string repr * gmap string Stream) (ks : string * Stream)
    : gmap string repr * gmap string Stream :=
  let '(merged, m) := st in
  let '(key, s) := ks in
  match merged !! Stream_ID s with
  | Some r =>
      let y := YieldPerDevice s ∪ YieldPerDevice (rep r) in
      let rp := set_yields y (rep r) in
      let rp := if isZeroYield (DefaultYield rp) then set_default (DefaultYield s) rp else rp in
      (<[Stream_ID s := {| rep := rp; shared := shared r |}]> merged,
       match shared r with Some k => alter (set_yields y) k m | None => m end)
  | None =>
      (<[Stream_ID s := {| rep := s;
                           shared := if (0 <? size (YieldPerDevice s))%nat then None else Some key |}]> merged,
       m)
  end.

Section range.
Context (range : ∀ A, gmap string A → list (string * A)).

Definition streamsSlice (m : gmap string Stream) : list Stream * gmap string Stream :=
  let '(merged, m) := foldl mergeStream (∅, m) (range Stream m) in
  (rep ∘ snd <$> range repr merged, m).

(** ** The tick *)

Record arbOpts := {
  devRefs : list DeviceRef;
  hysteresisPct : float64;
  opt_minYield : float64;
  powerWatts : float64;
  powerPricePerKWh : float64;
}.

Record arbGauges := {
  activeStreams : Z; arbitrationSwitches : Z; arbitrationHolds : Z;
  arbitrationForegoneSatsPerSec : float64; arbitrationExpectedYieldSatsPerSec : float64;
  devicesIdle : Z; powerBreakevenFloor : float64;
}.

Record arbState := {
  streamMap : gmap string Stream;
  lastQuoteAt : gmap string Z;
  prevAlloc : option Allocation;
  activity : gmap string float64;
  gauges : arbGauges;
}.

(** [rate] is the reading of the rate source, if there is one. *)
Definition powerFloor (o : arbOpts) (rate : option reading) : float64 :=
  if flt fzero (powerWatts o) && flt fzero (powerPricePerKWh o) && (0 <? length (devRefs o))%nat then
    let r := match rate with Some x => x.1 | None => fzero end in
    if flt fzero r then
      fdiv (SatsPerSecond_of (fmul (fdiv (powerWatts o) (f64_of_Z 1000)) (powerPricePerKWh o)) r)
           (f64_of_Z (Z.of_nat (length (devRefs o))))
    else fzero
  else fzero.

(** The quote arm of the loop. *)
Definition onQuote (now : Z) (q : Quote) (a : arbState) : arbState :=
  {| streamMap := updateStream q (streamMap a);
     lastQuoteAt := <[streamKey q := quoteFreshness (At q) now]> (lastQuoteAt a);
     prevAlloc := prevAlloc a; activity := activity a; gauges := gauges a |}.

Definition pauseDevice (id : string) (ws : list Worker) : list Worker :=
  (λ w, if String.eqb (DeviceID w) id then SetWork None w else w) <$> ws.

Definition applyOne (ws : list Worker) (a : Assignment) : list Worker :=
  if Idle a then pauseDevice (a_DeviceID a) ws
  else if negb (String.eqb (SwitchedFromID a) "") then
    if HasPrefix (SwitchedFromID a) miningStreamPrefix &&
       negb (HasPrefix (a_Stream a) miningStreamPrefix)
    then pauseDevice (a_DeviceID a) ws else ws
  else ws.
Definition applyAllocation (al : Allocation) (ws : list Worker) : list Worker :=
  foldl applyOne ws (Assignments al).

Definition decideInput (o : arbOpts) (rate : option reading) (streams : list Stream)
    (prev : option Allocation) : Input :=
  let pf := powerFloor o rate in
  {| Devices := devRefs o; Streams := streams; Previous := prev;
     in_Policy := PolicyMaximizeEarnings;
     HysteresisMargin := if feq (hysteresisPct o) fzero then defaultHysteresisPct else hysteresisPct o;
     MinYieldSatsPerSec := if flt (opt_minYield o) pf then pf else opt_minYield o |}.

Definition activityOf (al : Allocation) : gmap string float64 :=
  foldl (λ m a, if Idle a then m
                else <[a_Stream a := fadd (default fzero (m !! a_Stream a)) (ExpectedYield a)]> m)
    ∅ (Assignments al).

Definition arbitrationTick (o : arbOpts) (now : Z) (rate : option reading) (a : arbState)
    (ps : gset string) (ws : list Worker) : arbState * gset string * list Worker :=
  let '(m, seen) := pruneStaleStreams now (streamMap a) (lastQuoteAt a) in
  let '(streams, m) := streamsSlice m in
  let g := gauges a in
  match Decide (Some (decideInput o rate streams (prevAlloc a))) with
  | Err _ =>
      ({| streamMap := m; lastQuoteAt := seen; prevAlloc := prevAlloc a; activity := activity a;
          gauges := {| activeStreams := Z.of_nat (length streams);
                       arbitrationSwitches := arbitrationSwitches g;
                       arbitrationHolds := arbitrationHolds g;
                       arbitrationForegoneSatsPerSec := arbitrationForegoneSatsPerSec g;
                       arbitrationExpectedYieldSatsPerSec := arbitrationExpectedYieldSatsPerSec g;
                       devicesIdle := devicesIdle g; powerBreakevenFloor := powerFloor o rate |} |},
       ps, ws)
  | Ok al =>
      ({| streamMap := m; lastQuoteAt := seen; prevAlloc := Some al; activity := activityOf al;
          gauges := {| activeStreams := Z.of_nat (length streams);
                       arbitrationSwitches := arbitrationSwitches g +
                         Z.of_nat (length (List.filter (λ x, negb (String.eqb (SwitchedFromID x) ""))
                                             (Assignments al)));
                       arbitrationHolds := arbitrationHolds g +
                         Z.of_nat (length (List.filter Held (Assignments al)));
                       arbitrationForegoneSatsPerSec :=
                         foldl (λ t x, fadd t (ForegoneSatsPerSec x)) fzero (Assignments al);
                       arbitrationExpectedYieldSatsPerSec := TotalYield al;
                       devicesIdle := SkippedDevice al; powerBreakevenFloor := powerFloor o rate |} |},
       reconcileArbPauses al ps, applyAllocation al ws)
  end.

(** The loop: quotes and ticks in the order they arrive. *)
Inductive arbEvent := ArbQuote (now : Z) (q : Quote) | ArbTick (now : Z) (rate : option reading).
Definition arbStep (o : arbOpts) (st : arbState * gset string * list Worker) (e : arbEvent)
    : arbState * gset string * list Worker :=
  let '(a, ps, ws) := st in
  match e with
  | ArbQuote now q => (onQuote now q a, ps, ws)
  | ArbTick now rate => arbitrationTick o now rate a ps ws
  end.
Definition runArbitrationLoop (o : arbOpts) (es : list arbEvent)
    (st : arbState * gset string * list Worker) : arbState * gset string * list Worker :=
  foldl (arbStep o) st es.

End range.

Definition emptyArb : arbState :=
  {| streamMap := ∅; lastQuoteAt := ∅; prevAlloc := None; activity := ∅;
     gauges := {| activeStreams := 0; arbitrationSwitches := 0; arbitrationHolds := 0;
                  arbitrationForegoneSatsPerSec := fzero; arbitrationExpectedYieldSatsPerSec := fzero;
                  devicesIdle := 0; powerBreakevenFloor := fzero |} |}.

(** * The stream map refines a ledger of live quotes *)

(** The abstract specification: for every provider and device, the last quote
    and its age; a tick forgets the quotes older than three minutes. *)
Local Notation ledger := (gmap (string * string) (Quote * Z)).
Definition ledgerStep (l : ledger) (e : arbEvent) : ledger :=
  match e with
  | ArbQuote now q => <[(q_ProviderID q, q_DeviceID q) := (q, quoteFreshness (At q) now)]> l
  | ArbTick now _ => filter (λ kq, now - kq.2.2 ≤ 180 * 10 ^ 9) l
  end.

(** Splitting a key at its first colon. *)
Fixpoint unkey (k : string) : option (string * string) :=
  match k with
  | EmptyString => None
  | String c k =>
      if Ascii.eqb c ":" then Some ("", k)
      else '(p, d) ← unkey k; Some (String c p, d)
  end.
Fixpoint no_colon (p : string) : bool :=
  match p with EmptyString => true | String c p => negb (Ascii.eqb c ":") && no_colon p end.

Lemma unkey_key p d : no_colon p = true → unkey (p ++ ":" ++ d) = Some (p, d).
Proof.
  induction p as [|c p IH]; intros H; [done|]. cbn [no_colon] in H. apply andb_true_iff in H as [Hc H].
  apply negb_true_iff in Hc. change (String c p ++ ":" ++ d)%string with (String c (p ++ ":" ++ d))%string.
  cbn [unkey]. by rewrite Hc, (IH H).
Qed.

Lemma unkey_Some k p d : unkey k = Some (p, d) → k = (p ++ ":" ++ d)%string.
Proof.
  revert p d. induction k as [|c k IH]; intros p d; [done|]. cbn [unkey].
  destruct (Ascii.eqb_spec c ":") as [->|Hc]; [by intros [= <- <-]|].
  destruct (unkey k) as [[p' d']|]; [|done]. cbn. intros [= <- <-].
  change (String c p' ++ ":" ++ d')%string with (String c (p' ++ ":" ++ d'))%string.
  f_equal. by apply (IH p' d').
Qed.

(** The entry of the stream map that stands for a quote. *)
Definition entry (pd : string * string) (qt : Quote * Z) : Stream :=
  {| Stream_ID := pd.1;
     AcceptsFamilies := match AcceptedFamilies qt.1 with Some fs => fs | None => allDeviceFamilies end;
     YieldPerDevice := {[pd.2 := netYield qt.1]}; DefaultYield := zeroYield;
     PrivacyRating := 0; EnvironmentalRating := 0;
     IsBitcoinMining := HasPrefix pd.1 miningStreamPrefix |}.

Record tracks (l : ledger) (m : gmap string Stream) (seen : gmap string Z) : Prop := {
  tracks_streams k : m !! k = (unkey k ≫= λ pd, entry pd <$> l !! pd);
  tracks_ages k : seen !! k = (unkey k ≫= λ pd, snd <$> l !! pd);
  tracks_names p d : is_Some (l !! (p, d)) → no_colon p = true;
}.

(** A quote for one device of a provider whose name has no colon. *)
Definition device_quote (e : arbEvent) : Prop :=
  match e with
  | ArbQuote _ q => no_colon (q_ProviderID q) = true ∧ q_DeviceID q ≠ ""
  | ArbTick _ _ => True
  end.

Lemma onQuote_tracks l now q a :
  tracks l (streamMap a) (lastQuoteAt a) → device_quote (ArbQuote now q) →
  tracks (ledgerStep l (ArbQuote now q)) (streamMap (onQuote now q a)) (lastQuoteAt (onQuote now q a)).
Proof.
  intros [H1 H2 H3] [Hp Hd]. pose proof (unkey_key _ (q_DeviceID q) Hp) as Hk.
  apply String.eqb_neq in Hd.
  assert (∀ k, streamKey q ≠ k → ∀ pd, unkey k = Some pd → (q_ProviderID q, q_DeviceID q) ≠ pd) as Hne.
  { intros k Hkk pd Hpd <-. apply Hkk. symmetry. by apply unkey_Some. }
  split; cbn [onQuote streamMap lastQuoteAt ledgerStep];
    [intros k|intros k|intros p d [[= <- <-]|[_ ?]]%lookup_insert_is_Some; eauto];
    (destruct (decide (streamKey q = k)) as [<-|Hkk];
      [|unfold updateStream; rewrite lookup_insert_ne by done;
        rewrite ?H1, ?H2; destruct (unkey k) as [pd|] eqn:E; [cbn [mbind option_bind]|done];
        by rewrite lookup_insert_ne by eauto]).
  - unfold updateStream. rewrite lookup_insert. destruct (decide _); [|done].
    rewrite H1. unfold streamKey. rewrite Hk, Hd. cbn [mbind option_bind]. rewrite lookup_insert.
    destruct (decide _); [|done].
    destruct (l !! _) as [[q0 t0]|]; cbn [fmap option_fmap option_map from_option]; [unfold entry, id; cbn [YieldPerDevice DefaultYield PrivacyRating EnvironmentalRating fst snd];
      by rewrite insert_singleton_eq|done].
  - rewrite lookup_insert. destruct (decide _); [|done].
    unfold streamKey. rewrite Hk. cbn. rewrite lookup_insert. by destruct (decide _).
Qed.

Lemma stale_iff now t : stale now t = false ↔ now - t ≤ 180 * 10 ^ 9.
Proof. unfold stale, streamStaleTimeout. rewrite Z.ltb_ge. lia. Qed.

Lemma prune_tracks l now rate m seen :
  tracks l m seen →
  tracks (ledgerStep l (ArbTick now rate)) (pruneStaleStreams now m seen).1 (pruneStaleStreams now m seen).2.
Proof.
  intros [H1 H2 H3].
  split; cbn [pruneStaleStreams fst snd ledgerStep];
    [intros k|intros k|intros p d [? [? _]%map_lookup_filter_Some]; eauto].
  - rewrite map_lookup_filter, H1.
    assert (filter (λ kt, stale now kt.2 = true) seen !! k = None ↔
            ∀ t, seen !! k = Some t → stale now t = false) as Hd.
    { rewrite map_lookup_filter_None. split.
      - intros [H|H] t Ht; [congruence|]. specialize (H t Ht). cbn in H. by destruct (stale now t).
      - intros H. right. intros t Ht. cbn. by rewrite (H t Ht). }
    rewrite H2 in Hd. destruct (unkey k) as [pd|]; [|done]. cbn [mbind option_bind] in *.
    rewrite map_lookup_filter. destruct (l !! pd) as [[q t]|]; [|done]. cbn -[Z.pow Z.mul] in *.
    pose proof (stale_iff now t). repeat case_guard; try done; naive_solver.
  - rewrite map_lookup_filter, H2. destruct (unkey k) as [pd|]; [|done]. cbn [mbind option_bind].
    rewrite map_lookup_filter. destruct (l !! pd) as [[q t]|]; [|done]. cbn -[Z.pow Z.mul].
    pose proof (stale_iff now t). by repeat case_guard; try tauto.
Qed.

(** Streams whose device maps are not empty and agree where they overlap. *)
Definition coherent (es : list (string * Stream)) : Prop :=
  (∀ k s, (k, s) ∈ es → YieldPerDevice s ≠ ∅) ∧
  (∀ k1 s1 k2 s2 d y1 y2, (k1, s1) ∈ es → (k2, s2) ∈ es → Stream_ID s1 = Stream_ID s2 →
     YieldPerDevice s1 !! d = Some y1 → YieldPerDevice s2 !! d = Some y2 → y1 = y2).

Definition yields_of (es : list (string * Stream)) (p d : string) (y : Yield) : Prop :=
  ∃ k s, (k, s) ∈ es ∧ Stream_ID s = p ∧ YieldPerDevice s !! d = Some y.

Record merges (es : list (string * Stream)) (merged : gmap string repr) : Prop := {
  mg_id p r : merged !! p = Some r → Stream_ID (rep r) = p ∧ shared r = None;
  mg_dom p : is_Some (merged !! p) ↔ ∃ k s, (k, s) ∈ es ∧ Stream_ID s = p;
  mg_yields p r d y : merged !! p = Some r → YieldPerDevice (rep r) !! d = Some y ↔ yields_of es p d y;
}.

Lemma mergeStream_merges es merged m k s :
  merges es merged → coherent (es ++ [(k, s)]) →
  ∃ merged', mergeStream (merged, m) (k, s) = (merged', m) ∧ merges (es ++ [(k, s)]) merged'.
Proof.
  intros [H1 H2 H3] [C1 C2]. unfold mergeStream.
  assert (∀ p d y, yields_of (es ++ [(k, s)]) p d y ↔
    yields_of es p d y ∨ (Stream_ID s = p ∧ YieldPerDevice s !! d = Some y)) as Hy.
  { intros p d y. unfold yields_of. split.
    - intros (k' & s' & [Hin|Hin]%elem_of_app & ? & ?); [left; eauto|].
      apply list_elem_of_singleton in Hin. injection Hin as -> ->. eauto.
    - intros [(k' & s' & ? & ? & ?)|[? ?]]; [exists k', s'|exists k, s]; set_solver. }
  assert (∀ p, (∃ k' s', (k', s') ∈ es ++ [(k, s)] ∧ Stream_ID s' = p) ↔
    (∃ k' s', (k', s') ∈ es ∧ Stream_ID s' = p) ∨ Stream_ID s = p) as Hin.
  { intros p. split.
    - intros (k' & s' & [Hin|Hin]%elem_of_app & ?); [left; eauto|].
      apply list_elem_of_singleton in Hin. injection Hin as -> ->. eauto.
    - intros [(k' & s' & ? & ?)|?]; [exists k', s'|exists k, s]; set_solver. }
  destruct (merged !! Stream_ID s) as [r|] eqn:E.
  - destruct (H1 _ _ E) as [Hid Hsh]. rewrite Hsh.
    set (rp := if isZeroYield _ then _ else _).
    assert (Stream_ID rp = Stream_ID s ∧ YieldPerDevice rp = YieldPerDevice s ∪ YieldPerDevice (rep r))
      as [Hrp Hyr] by (unfold rp; case_if; done).
    eexists. split; [done|]. split.
    + intros p r' [[<- <-]|[_ ?]]%lookup_insert_Some; eauto.
    + intros p. rewrite lookup_insert_is_Some', H2, Hin. tauto.
    + intros p r' d y [[<- <-]|[Hne Hr']]%lookup_insert_Some; rewrite Hy; cbn [rep].
      * rewrite Hyr, lookup_union_Some_raw, (H3 _ _ _ _ E). split; [naive_solver|].
        intros [HY|[_ HY]]; [|by left]. destruct (YieldPerDevice s !! d) as [y'|] eqn:Ed; [left|by right].
        destruct HY as (k' & s' & Hk' & Hid' & Hs'). f_equal.
        apply (C2 k s k' s' d); [set_solver..|done|done|done].
      * rewrite (H3 _ _ _ _ Hr'). naive_solver.
  - assert ((0 <? size (YieldPerDevice s))%nat = true) as ->.
    { apply Nat.ltb_lt. apply Nat.neq_0_lt_0. intros H%map_size_empty_iff. apply (C1 k s); [set_solver|done]. }
    eexists. split; [done|]. split.
    + intros p r' [[<- <-]|[_ ?]]%lookup_insert_Some; eauto.
    + intros p. rewrite lookup_insert_is_Some', H2, Hin. tauto.
    + intros p r' d y [[<- <-]|[Hne Hr']]%lookup_insert_Some; rewrite Hy; cbn [rep].
      * split; [naive_solver|]. intros [(k' & s' & ? & ? & ?)|[_ ?]]; [|done]. exfalso.
        assert (is_Some (merged !! Stream_ID s)) as [? ?] by (apply H2; eauto). congruence.
      * rewrite (H3 _ _ _ _ Hr'). naive_solver.
Qed.

Lemma foldl_merges es : ∀ es0 merged m,
  merges es0 merged → coherent (es0 ++ es) →
  ∃ merged', foldl mergeStream (merged, m) es = (merged', m) ∧ merges (es0 ++ es) merged'.
Proof.
  induction es as [|[k s] es IH]; intros es0 merged m HM HC; cbn [foldl].
  { rewrite app_nil_r. eauto. }
  destruct (mergeStream_merges es0 merged m k s HM) as (merged' & -> & HM').
  { destruct HC as [C1 C2]. split.
    - intros k' s' Hin. apply (C1 k' s'). set_solver.
    - intros k1 s1 k2 s2 d y1 y2 Hin1 Hin2. apply (C2 k1 s1 k2 s2 d); set_solver. }
  destruct (IH (es0 ++ [(k, s)]) merged' m HM') as (m2 & HF & HM2).
  { by rewrite <- (assoc_L (++)). }
  exists m2. split; [done|]. by rewrite <- (assoc_L (++)) in HM2.
Qed.

Section streams.
Context (range : ∀ A, gmap string A → list (string * A)).
Context (range_perm : ∀ A (m : gmap string A), range A m ≡ₚ map_to_list m).

Lemma elem_of_range {A} (m : gmap string A) k x : (k, x) ∈ range A m ↔ m !! k = Some x.
Proof. rewrite (range_perm A m). apply elem_of_map_to_list. Qed.

Lemma streamsSlice_spec m :
  coherent (range Stream m) →
  (streamsSlice range m).2 = m ∧
  NoDup (Stream_ID <$> (streamsSlice range m).1) ∧
  (∀ p d y, (∃ s, s ∈ (streamsSlice range m).1 ∧ Stream_ID s = p ∧ YieldPerDevice s !! d = Some y) ↔
            ∃ k s, m !! k = Some s ∧ Stream_ID s = p ∧ YieldPerDevice s !! d = Some y).
Proof.
  intros HC. unfold streamsSlice.
  destruct (foldl_merges (range Stream m) [] ∅ m) as (merged & -> & [H1 H2 H3]); [|done|].
  { split; [done| |done]. intros p. split; [by intros [? ?]|]. intros (? & ? & []%not_elem_of_nil & _). }
  cbn [app] in *. split; [done|]. split.
  - cbn [fst]. rewrite <- list_fmap_compose.
    assert (Stream_ID ∘ (rep ∘ snd) <$> range repr merged = (range repr merged).*1) as ->.
    { apply list_fmap_ext. intros i [p r] Hi%list_elem_of_lookup_2. apply elem_of_range in Hi.
      cbn. by apply H1. }
    rewrite (range_perm repr merged). apply NoDup_fst_map_to_list.
  - intros p d y. cbn [fst]. split.
    + intros (s & ([p' r] & -> & Hin%elem_of_range)%list_elem_of_fmap & Hp & Hy). cbn in Hp, Hy.
      destruct (H1 _ _ Hin) as [Hid _].
      apply (H3 _ _ _ _ Hin) in Hy as (k & s & Hk%elem_of_range & ? & ?). exists k, s.
      split_and!; [done|congruence|done].
    + intros (k & s & Hk & Hp & Hy).
      assert (is_Some (merged !! p)) as [r Hr].
      { apply H2. exists k, s. by rewrite elem_of_range. }
      exists (rep r). split_and!; [|by apply H1|].
      * apply list_elem_of_fmap. exists (p, r). split; [done|]. by apply elem_of_range.
      * apply (H3 _ _ _ _ Hr). exists k, s. by rewrite elem_of_range.
Qed.

Lemma tracks_coherent l m seen : tracks l m seen → coherent (range Stream m).
Proof.
  intros [H1 _ _].
  assert (∀ k s, (k, s) ∈ range Stream m → ∃ pd qt, unkey k = Some pd ∧ l !! pd = Some qt ∧ s = entry pd qt) as He.
  { intros k s Hk%elem_of_range. rewrite H1 in Hk. destruct (unkey k) as [pd|]; [|done]. cbn in Hk.
    destruct (l !! pd) as [qt|] eqn:El; [|done]. injection Hk as <-. eauto. }
  split.
  - intros k s (pd & qt & _ & _ & ->)%He. apply map_non_empty_singleton.
  - intros k1 s1 k2 s2 d y1 y2 (pd1 & q1 & _ & L1 & ->)%He (pd2 & q2 & _ & L2 & ->)%He.
    cbn [entry Stream_ID YieldPerDevice]. intros Hp [Hd1 <-]%lookup_singleton_Some [Hd2 <-]%lookup_singleton_Some.
    assert (pd1 = pd2) as -> by (destruct pd1, pd2; cbn in *; congruence). by rewrite L1 in L2; injection L2 as ->.
Qed.

Lemma tick_tracks o l now rate a ps ws :
  tracks l (streamMap a) (lastQuoteAt a) →
  let a' := (arbitrationTick range o now rate a ps ws).1.1 in
  tracks (ledgerStep l (ArbTick now rate)) (streamMap a') (lastQuoteAt a').
Proof.
  intros HT%(prune_tracks _ now rate). unfold arbitrationTick.
  destruct (pruneStaleStreams now (streamMap a) (lastQuoteAt a)) as [m seen]. cbn [fst snd] in HT.
  destruct (streamsSlice_spec m (tracks_coherent _ _ _ HT)) as [Hm _].
  destruct (streamsSlice range m) as [streams m']. cbn [snd] in Hm. subst m'.
  by destruct (Decide _).
Qed.

Definition ledgerRun (es : list arbEvent) : ledger := foldl ledgerStep ∅ es.

Lemma loop_tracks o es : ∀ l a ps ws,
  tracks l (streamMap a) (lastQuoteAt a) → Forall device_quote es →
  let a' := (runArbitrationLoop range o es (a, ps, ws)).1.1 in
  tracks (foldl ledgerStep l es) (streamMap a') (lastQuoteAt a').
Proof.
  induction es as [|e es IH]; intros l a ps ws HT HE; [done|].
  apply Forall_cons in HE as [He HE]. cbn [runArbitrationLoop foldl arbStep].
  destruct e as [now q|now rate].
  - by apply IH; [apply onQuote_tracks|].
  - pose proof (tick_tracks o l now rate a ps ws HT) as HT'.
    destruct (arbitrationTick range o now rate a ps ws) as [[a' ps'] ws']. by apply IH.
Qed.

End streams.

Lemma empty_tracks : tracks ∅ (streamMap emptyArb) (lastQuoteAt emptyArb).
Proof.
  split.
  - intros k. cbn [emptyArb streamMap]. rewrite lookup_empty. destruct (unkey k); [cbn|done].
    by rewrite lookup_empty.
  - intros k. cbn [emptyArb lastQuoteAt]. rewrite lookup_empty. destruct (unkey k); [cbn|done].
    by rewrite lookup_empty.
  - intros p d. rewrite lookup_empty. by intros [? ?].
Qed.


(** ** Witness, and what a quote for no particular device does *)

Definition arb_dev (id : string) (f : Family) : DeviceRef :=
  {| dev_Identity := {| ID := id; id_Family := f; Vendor := ""; Model := "" |};
     dev_Capabilities := {| cap_SHA256d := true; GeneralCompute := true |} |}.
Definition arb_opts : arbOpts :=
  {| devRefs := [arb_dev "cpu0" FamilyCPU; arb_dev "gpu0" FamilyGPU]; hysteresisPct := fzero;
     opt_minYield := fzero; powerWatts := fzero; powerPricePerKWh := fzero |}.
Definition second : Z := 10 ^ 9.
Definition byKey (A : Type) (m : gmap string A) : list (string * A) := map_to_list m.

(** cpu0's mining quote is renewed; gpu0's expires. *)
Definition arb_events : list arbEvent :=
  [ArbQuote 0 (demo_quote "mining.stratum" "cpu0" 5 0);
   ArbQuote 0 (demo_quote "ai.akash" "gpu0" 9 0);
   ArbTick (30 * second) None;
   ArbQuote (150 * second) (demo_quote "mining.stratum" "cpu0" 6 (150 * second))].


(** Quoting a provider once for any device and once for gpu0 leaves gpu0's price
    in the entry of the device-agnostic quote, since a map that is empty is
    shared and not copied: the price is still offered after its own quote has
    expired. *)
Definition backwards (A : Type) (m : gmap string A) : list (string * A) := reverse (map_to_list m).
Definition mixed_events : list arbEvent :=
  [ArbQuote 0 (demo_quote "ai.akash" "" 1 0);
   ArbQuote 0 (demo_quote "ai.akash" "gpu0" 9 0);
   ArbTick (30 * second) None;
   ArbQuote (150 * second) (demo_quote "ai.akash" "" 1 (150 * second))].
Definition mixed_after (range : ∀ A, gmap string A → list (string * A)) : option (option Yield) :=
  let a := (runArbitrationLoop range arb_opts mixed_events (emptyArb, ∅, [])).1.1 in
  let streams := (streamsSlice range (pruneStaleStreams (200 * second) (streamMap a) (lastQuoteAt a)).1).1 in
  (λ s, YieldPerDevice s !! "gpu0") <$> head streams.

Lemma expired_price_survives :
  ledgerRun (mixed_events ++ [ArbTick (200 * second) None]) !! ("ai.akash", "gpu0") = None ∧
  mixed_after backwards = Some (Some (netYield (demo_quote "ai.akash" "gpu0" 9 0))).
Proof. split; vm_compute; reflexivity. Qed.
