(* ===== verification/EngineSystem.v ===== *)
(** * internal/engine: price gate, arbitration and pool session together

    The three goroutines of [Run] that touch the workers — the price loop, the
    arbitration loop and the pool session — over the workers, the curtailment
    gate and the pause set they share, with the reconnect loop idling the workers
    between sessions.  Each step below is atomic; the races a finer interleaving
    allows are at the end of the file. *)
From S2P Require Import Prelude.
From S2P Require Import Float64.
From S2P Require Import Sha256d.
From S2P Require Import Worker.
From S2P Require Import Messages.
From S2P Require Import StratumV2.
From S2P Require Import Arbitration.
From S2P Require Import EngineStats.
From S2P Require Import Provider.
From S2P Require Import EngineV2.
From S2P Require Import EngineV1.
From S2P Require Import EngineSession.
From S2P Require Import EngineArb.

Open Scope Z_scope.

(** ** The price loop *)

Definition curtailDecision (curr : bool) (rate : float64) (fresh : bool) (threshold : float64)
    : bool * bool :=
  if fle threshold fzero || negb fresh || fle rate fzero then (curr, false)
  else if flt rate threshold && negb curr then (true, true)
  else if fle threshold rate && curr then (false, true)
  else (curr, false).

(** One tick: the gate, and the workers idled when it is raised. *)
Definition priceTick (r : reading) (threshold : float64) (gate : bool) (f : fleet) : bool * fleet :=
  let '(next, changed) := curtailDecision gate r.1 r.2 threshold in
  if negb changed then (gate, f)
  else (next, if next then idleAll f else f).

(** ** The engine *)

(** The engine over any protocol. *)
Record engine {S : Type} := { gate : bool; pauses : gset string; ses : S; arb : arbState }.
Arguments engine : clear implicits.

Inductive step {E R : Type} :=
  | Pool (now : Z) (e : E)                  (* a turn of the session loop *)
  | Price (r : reading) (threshold : float64)
  | Quoted (now : Z) (q : Quote)
  | Tick (now : Z) (rate : option reading)
  | Reconnected (r : R).                    (* the next session, the workers idled *)
Arguments step : clear implicits.

Definition engineStep {S E R} `{Session S E R} (range : ∀ A, gmap string A → list (string * A))
    (o : arbOpts) (x : engine S) (st : step E R) : engine S :=
  match st with
  | Pool now e =>
      let w := {| curtailed := gate x; paused := pauses x; clock := now |} in
      {| gate := gate x; pauses := pauses x; ses := run_turn w e (ses x); arb := arb x |}
  | Price r threshold =>
      let '(g, f) := priceTick r threshold (gate x) (fleet_of (ses x)) in
      {| gate := g; pauses := pauses x; ses := put_fleet f (ses x); arb := arb x |}
  | Quoted now q => {| gate := gate x; pauses := pauses x; ses := ses x; arb := onQuote now q (arb x) |}
  | Tick now rate =>
      let f := fleet_of (ses x) in
      let '(a, ps, ws) := arbitrationTick range o now rate (arb x) (pauses x) (workers f) in
      {| gate := gate x; pauses := ps;
         ses := put_fleet {| workers := ws; allocated := allocated f |} (ses x); arb := a |}
  | Reconnected r =>
      {| gate := gate x; pauses := pauses x;
         ses := open_session r (idleAll (fleet_of (ses x))) (counters_of (ses x)); arb := arb x |}
  end.

(** Putting back a fleet with fewer armed workers. *)
Lemma put_fed {S E R} `{Feeder S E R} g ps g' ps' f (s : S) :
  fed g ps s → unparked g' ps' f →
  (∀ wr p, wr ∈ workers f → work wr = Some p → wr ∈ workers (fleet_of s)) →
  fed g' ps' (put_fleet f s).
Proof.
  intros (H1 & H2 & H3) HU Hsub. split; [by apply sound_put|]. rewrite fleet_put. split; [done|].
  intros wr i wk Hin Hwk. eapply hashes_put, H3; eauto.
Qed.

Lemma priceTick_fed {S E R} `{Feeder S E R} r th g ps (s : S) :
  fed g ps s →
  fed (priceTick r th g (fleet_of s)).1 ps (put_fleet (priceTick r th g (fleet_of s)).2 s).
Proof.
  intros HF. pose proof HF as (_ & HU & _). unfold priceTick, curtailDecision.
  destruct (_ || _); [by apply (put_fed g ps)|].
  destruct (flt r.1 th && negb g) eqn:E1; cbn [negb fst snd].
  { apply (put_fed g ps); [done|..]; intros wr p Hin%idleAll_work; congruence. }
  destruct (fle th r.1 && g) eqn:E2; cbn [negb fst snd]; [|by apply (put_fed g ps)].
  apply andb_true_iff in E2 as [_ ->].
  apply (put_fed true ps); [done| |done]. intros wr p Hin Hwk. by destruct (HU wr p Hin Hwk).
Qed.

(** ** A tick and the parking *)

Definition pausing (a : Assignment) : bool :=
  Idle a || (negb (String.eqb (SwitchedFromID a) "") &&
             HasPrefix (SwitchedFromID a) miningStreamPrefix &&
             negb (HasPrefix (a_Stream a) miningStreamPrefix)).

Lemma pauseDevice_work id ws wr p :
  wr ∈ pauseDevice id ws → work wr = Some p → wr ∈ ws ∧ DeviceID wr ≠ id.
Proof.
  unfold pauseDevice. intros (w0 & -> & Hin)%list_elem_of_fmap.
  destruct (String.eqb_spec (DeviceID w0) id); [done|]. done.
Qed.

Lemma applyOne_work ws a wr p :
  wr ∈ applyOne ws a → work wr = Some p →
  wr ∈ ws ∧ (a_DeviceID a = DeviceID wr → pausing a = false).
Proof.
  unfold applyOne, pausing. destruct (Idle a); cbn [orb].
  { intros Hin Hp. destruct (pauseDevice_work _ _ _ _ Hin Hp). split; [done|congruence]. }
  destruct (String.eqb (SwitchedFromID a) ""); cbn [negb andb]; [done|].
  destruct (_ && _); [|done].
  intros Hin Hp. destruct (pauseDevice_work _ _ _ _ Hin Hp). split; [done|congruence].
Qed.

Lemma applyAllocation_work al ws wr p :
  wr ∈ applyAllocation al ws → work wr = Some p →
  wr ∈ ws ∧ ∀ a, a ∈ Assignments al → a_DeviceID a = DeviceID wr → pausing a = false.
Proof.
  unfold applyAllocation. revert ws. induction (Assignments al) as [|a l IH]; intros ws Hin Hp.
  { split; [done|]. by intros a ?%not_elem_of_nil. }
  destruct (IH _ Hin Hp) as [Hin' Hrest]. destruct (applyOne_work _ _ _ _ Hin' Hp) as [? ?].
  split; [done|]. intros b [->|Hb]%elem_of_cons; auto.
Qed.

Lemma reconcile_spec al ps d :
  d ∈ reconcileArbPauses al ps →
  (∃ a, a ∈ Assignments al ∧ a_DeviceID a = d ∧ parks a = true) ∨
  (d ∈ ps ∧ ∀ a, a ∈ Assignments al → a_DeviceID a ≠ d).
Proof.
  unfold reconcileArbPauses. revert ps. induction (Assignments al) as [|a l IH]; intros ps; cbn [foldl].
  { intros H. right. split; [done|]. by intros a ?%not_elem_of_nil. }
  intros [(b & ? & ? & ?)|[Hd Hn]]%IH; [left; exists b; split; [by right|done]|].
  destruct (parks a) eqn:Ep.
  - apply elem_of_union in Hd as [->%elem_of_singleton|Hd]; [left; exists a; split; [left|done]|].
    destruct (decide (a_DeviceID a = d)); [left; exists a; split; [left|done]|].
    right. split; [done|]. intros b [->|Hb]%elem_of_cons; auto.
  - apply elem_of_difference in Hd as [Hd Hne]. right. split; [done|].
    intros b [->|Hb]%elem_of_cons; [set_solver|auto].
Qed.

Lemma reconcile_parks al ps a :
  NoDup (a_DeviceID <$> Assignments al) → a ∈ Assignments al → parks a = true →
  a_DeviceID a ∈ reconcileArbPauses al ps.
Proof.
  unfold reconcileArbPauses. revert ps. induction (Assignments al) as [|b l IH]; intros ps HN Ha Hp;
    [by apply not_elem_of_nil in Ha|]. rewrite fmap_cons in HN. apply NoDup_cons in HN as [Hb HN].
  apply elem_of_cons in Ha as [<-|Ha]; [|by apply IH]. cbn [foldl]. rewrite Hp.
  assert (a_DeviceID a ∈ ({[a_DeviceID a]} ∪ ps : gset string)) as Hin by set_solver.
  revert Hin. generalize ({[a_DeviceID a]} ∪ ps : gset string). clear - Hb.
  induction l as [|c l IH]; intros qs Hin; [done|]. cbn [foldl].
  rewrite fmap_cons, not_elem_of_cons in Hb. destruct Hb as [? ?].
  apply IH; [done|]. destruct (parks c); set_solver.
Qed.

Lemma Decide_assigns inp al :
  Decide (Some inp) = Ok al →
  Assignments al = map (assign inp (previousMap (Previous inp))) (SortStableFunc devCmp (Devices inp)) ∧
  NoDup (a_DeviceID <$> Assignments al).
Proof.
  intros H. destruct (Decide_cases inp) as [[Hacc He]|[_ [e He]]]; [|congruence].
  rewrite He in H. apply Ok_inj in H as <-.
  destruct (decideLoop_spec inp (previousMap (Previous inp)) (SortStableFunc devCmp (Devices inp)))
    as (Hal & _). split; [done|]. rewrite Hal, <- (list_fmap_compose (assign inp _) a_DeviceID).
  rewrite (list_fmap_ext _ dev_id) by (intros i d _; apply assign_device).
  rewrite SortStableFunc_Permutation. apply Hacc.
Qed.

(** Where an assignment says the device comes from. *)
Lemma assign_switched inp prev dev :
  let a := assign inp prev dev in
  let p := a_Stream (default zeroAssignment (prev !! dev_id dev)) in
  Idle a = true ∨ p = "" ∨ p = a_Stream a ∨ SwitchedFromID a = p.
Proof.
  intros a p. unfold a, assign. fold (dev_id dev).
  set (pr := default zeroAssignment (prev !! dev_id dev)).
  set (c := chooseForDevice dev (Streams inp) pr (in_Policy inp) (HysteresisMargin inp)
             (MinYieldSatsPerSec inp)).
  assert (Idle c = true ∨ p = "" ∨ p = a_Stream c ∨ SwitchedFromID c = p) as Hc.
  2:{ by destruct (Idle c && _ && _). }
  unfold c, chooseForDevice. destruct (candidateStreams _ _ _) as [[|c0 cs] below]; [by left|].
  change (a_Stream (default zeroAssignment (prev !! dev_id dev))) with (a_Stream pr) in p.
  subst p. destruct (String.eqb_spec (a_Stream pr) "") as [Hp|Hp]; [by right; left|]. cbn [negb andb].
  destruct (incumbentHold _ _ _ _ _ _ _ _) as [h|] eqn:E.
  - apply incumbentHold_Some in E as (d & _ & Hd & _ & (_ & Hs & _) & _).
    right; right; left. congruence.
  - cbn [a_Stream SwitchedFromID]. destruct (String.eqb_spec (a_Stream pr) (Stream_ID (stream (nth 0
      (SortStableFunc (candCmp (in_Policy inp)) (c0 :: cs)) c0)))) as [Hq|Hq]; cbn [negb];
      [by right; right; left|]. by right; right; right.
Qed.

Lemma previousMap_covers al id :
  (∃ a, a ∈ Assignments al ∧ a_DeviceID a = id) →
  ∃ a, previousMap (Some al) !! id = Some a ∧ a ∈ Assignments al ∧ a_DeviceID a = id.
Proof.
  cbn [previousMap]. induction (Assignments al) as [|b l IH] using rev_ind;
    [by intros (a & ?%not_elem_of_nil & _)|].
  intros (a & Ha & <-). rewrite foldl_app. cbn [foldl].
  destruct (decide (a_DeviceID b = a_DeviceID a)) as [E|E].
  - exists b. rewrite E, lookup_insert. destruct (decide _); [|done]. split_and!; [done|set_solver|done].
  - apply elem_of_app in Ha as [Ha| ->%list_elem_of_singleton]; [|done].
    destruct IH as (a' & H1 & H2 & H3); [eauto|]. exists a'. rewrite lookup_insert_ne by done.
    split_and!; [done|set_solver|done].
Qed.

(** ** The engine's invariant *)

Section invariant.
Context {S E R : Type} `{FD : Feeder S E R}.
Context (range : ∀ A, gmap string A → list (string * A)).
Context (o : arbOpts).

Record engine_ok (x : engine S) : Prop := {
  eng_fed : fed (gate x) (pauses x) (ses x);
  eng_alloc : match prevAlloc (arb x) with
    | None => True
    | Some al =>
        (∀ d, d ∈ devRefs o → ∃ a, a ∈ Assignments al ∧ a_DeviceID a = dev_id d) ∧
        (∀ a, a ∈ Assignments al → parks a = true → a_DeviceID a ∈ pauses x)
    end;
}.

(** The first allocation of the run sends no device straight to another market. *)
Definition first_mines (x : engine S) (now : Z) (rate : option reading) : Prop :=
  prevAlloc (arb x) = None →
  match prevAlloc (arbitrationTick range o now rate (arb x) (pauses x) (workers (fleet_of (ses x)))).1.1 with
  | Some al => Forall (λ a, Idle a = true ∨ parks a = false) (Assignments al)
  | None => True
  end.

Definition step_ok (x : engine S) (st : step E R) : Prop :=
  match st with
  | Pool _ e => admissible e
  | Tick now rate => first_mines x now rate
  | _ => True
  end.

(** Under the invariant, an armed worker that survives [applyAllocation] is not
    parked by the new allocation. *)
Lemma tick_parks x inp al a wr p :
  engine_ok x → Decide (Some inp) = Ok al → Devices inp = devRefs o → Previous inp = prevAlloc (arb x) →
  (prevAlloc (arb x) = None → Forall (λ a, Idle a = true ∨ parks a = false) (Assignments al)) →
  wr ∈ workers (fleet_of (ses x)) → work wr = Some p →
  a ∈ Assignments al → a_DeviceID a = DeviceID wr → pausing a = false → parks a = false.
Proof.
  intros [(_ & HU & _) HA] HD Hdev Hprev Hfirst Hin Hwk Ha Hid Hp.
  destruct (HU wr p Hin Hwk) as [_ Hun]. destruct (Idle a) eqn:Ei; [unfold pausing in Hp; by rewrite Ei in Hp|].
  destruct (parks a) eqn:Epk; [exfalso|done].
  assert (HasPrefix (a_Stream a) miningStreamPrefix = false) as Hnm.
  { unfold parks in Epk. rewrite Ei in Epk. by apply negb_true_iff. }
  destruct (prevAlloc (arb x)) as [al0|] eqn:Epa.
  2:{ specialize (Hfirst eq_refl). rewrite Forall_forall in Hfirst. destruct (Hfirst a Ha); congruence. }
  destruct HA as [Hcov Hpark]. destruct (Decide_assigns inp al HD) as [Hal _].
  rewrite Hal in Ha. apply list_elem_of_In, in_map_iff in Ha as (dev & <- & Hdv).
  apply list_elem_of_In in Hdv. rewrite elem_of_SortStableFunc, Hdev in Hdv.
  rewrite assign_device in Hid. rewrite Hprev in *.
  destruct (previousMap_covers al0 (dev_id dev) (Hcov dev Hdv)) as (a0 & H1 & H2 & H3).
  pose proof (assign_switched inp (previousMap (Some al0)) dev) as Hsw. cbn zeta in Hsw. rewrite H1 in Hsw.
  cbn [from_option id] in Hsw.
  assert (parks a0 = false) as Hpk0.
  { destruct (parks a0) eqn:Ep0; [|done]. exfalso. apply Hun. rewrite <- Hid, <- H3. by apply Hpark. }
  unfold parks in Hpk0. apply orb_false_iff in Hpk0 as [Hi0 Hm0%negb_false_iff].
  destruct Hsw as [Hsw|[Hsw|[Hsw|Hsw]]].
  - congruence.
  - unfold Idle in Hi0. apply String.eqb_neq in Hi0. done.
  - unfold id in Hsw. congruence.
  - unfold pausing in Hp. rewrite Ei, Hsw, Hnm in Hp. unfold id in Hp. rewrite Hm0 in Hp.
    unfold Idle in Hi0. rewrite Hi0 in Hp. done.
Qed.


Lemma tick_engine_ok x now rate :
  engine_ok x → first_mines x now rate → engine_ok (engineStep range o x (Tick now rate)).
Proof.
  intros HE HF. pose proof HE as [Hfed HA]. pose proof Hfed as (_ & HU & _). unfold first_mines in HF.
  unfold engineStep, arbitrationTick in *.
  destruct (pruneStaleStreams now _ _) as [m seen]. destruct (streamsSlice range m) as [streams m'].
  set (inp := decideInput o rate streams (prevAlloc (arb x))) in *.
  destruct (Decide (Some inp)) as [al|e] eqn:ED.
  2:{ split; [|done]. by apply (put_fed (gate x) (pauses x)). }
  cbn [fst prevAlloc] in HF.
  assert (∀ wr p, wr ∈ applyAllocation al (workers (fleet_of (ses x))) → work wr = Some p →
    wr ∈ workers (fleet_of (ses x)) ∧ DeviceID wr ∉ reconcileArbPauses al (pauses x)) as Hkeep.
  { intros wr p Hin Hwk. destruct (applyAllocation_work _ _ _ _ Hin Hwk) as [Hold Hnp]. split; [done|].
    intros [(a & Ha & Hid & Hpk)|[Hd _]]%reconcile_spec; [|by destruct (HU wr p Hold Hwk)].
    assert (parks a = false); [|congruence].
    eapply (tick_parks x inp al a wr p); eauto. }
  destruct (Decide_assigns inp al ED) as [Hal HN].
  split; cbn [ses gate pauses arb prevAlloc].
  - apply (put_fed (gate x) (pauses x)); [done|..]; cbn [workers].
    + intros wr p Hin Hwk. destruct (Hkeep wr p Hin Hwk) as [Hold Hnp].
      split; [by destruct (HU wr p Hold Hwk)|done].
    + intros wr p Hin Hwk. by destruct (Hkeep wr p Hin Hwk).
  - split; [|by intros a; apply reconcile_parks].
    intros d Hd. exists (assign inp (previousMap (Previous inp)) d). split; [|apply assign_device].
    rewrite Hal. apply list_elem_of_In, in_map, list_elem_of_In, elem_of_SortStableFunc. done.
Qed.

Lemma engineStep_ok x st : engine_ok x → step_ok x st → engine_ok (engineStep range o x st).
Proof.
  intros HE Hst. pose proof HE as [HI HA]. destruct st as [now e|r th|now q|now rate|r].
  - split; [|done].
    exact (turn_fed {| curtailed := gate x; paused := pauses x; clock := now |} e (ses x) HI Hst).
  - cbn [engineStep]. pose proof (priceTick_fed r th (gate x) (pauses x) (ses x) HI) as HP.
    destruct (priceTick r th (gate x) (fleet_of (ses x))) as [g f]. by split.
  - by split.
  - by apply tick_engine_ok.
  - split; [|done]. split; [apply open_sound|]. cbn [engineStep ses]. rewrite open_fleet.
    split; [intros wr p Hin Hwk|intros wr i wk Hin Hwk]; apply idleAll_work in Hin; congruence.
Qed.

(** The states the engine passes through, each step admissible where it is taken. *)
Inductive reaches : engine S → engine S → Prop :=
  | reaches_refl x : reaches x x
  | reaches_step x y st : reaches x y → step_ok y st → reaches x (engineStep range o y st).

(** The engine at start-up: workers without work, and no allocation yet. *)
Definition initial (x : engine S) : Prop :=
  prevAlloc (arb x) = None ∧ sound (ses x) ∧
  ∀ wr, wr ∈ workers (fleet_of (ses x)) → work wr = None.

Lemma initial_ok x : initial x → engine_ok x.
Proof.
  intros (Ha & Hs & Hw). split; [|by rewrite Ha]. split; [done|].
  split; [intros wr p Hin Hwk|intros wr i wk Hin Hwk]; rewrite (Hw wr Hin) in Hwk; done.
Qed.

Lemma reaches_ok x y : engine_ok x → reaches x y → engine_ok y.
Proof. intros H' HR. induction HR; [done|]. apply engineStep_ok; auto. Qed.

End invariant.

(** The protocol each connection uses is the pool's: V1 or V2. *)
Definition anySession (lo : list Z → list Z) (script : list Z)
    : Session (v1loop + v2session) (v1event + event) (unit + Z * Z * Hash) :=
  either_session (H := v1_session lo script) (H0 := v2_session lo).
Definition anyFeeder (lo : list Z → list Z) (script : list Z)
    : Feeder (v1loop + v2session) (v1event + event) (unit + Z * Z * Hash) (H := anySession lo script) :=
  either_feeder (F1 := v1_feeder lo script) (F2 := v2_feeder lo).

(** What the session wants hashed, in either protocol. *)
Definition wants (s : v1loop + v2session) (wk : Work) : Prop :=
  match s with inl s => v1current s wk | inr s => current (chan s) (job s) wk end.


(** ** Witness, and what the invariant's hypotheses exclude *)

Definition eng_worker : Worker :=
  {| cfg := {| Threads := 1; NonceStep := 0; NonceOffset := 0; cfg_DeviceID := "cpu0" |};
     work := None; workVer := 0; hashCount := 0; shareCount := 0; dropCount := 0; startTime := 0;
     started := true; cancelled := false; chan_buf := []; chan_closed := false; done := false |}.
Definition eng_fleet : fleet := {| workers := [eng_worker]; allocated := 0 |}.
Definition eng_start : engine (v1loop + v2session) :=
  {| gate := false; pauses := ∅; ses := inr (newSession 7 0 (replicate 32 1) eng_fleet ses_zero);
     arb := emptyArb |}.
Definition eng_step : engine (v1loop + v2session) → step (v1event + event) (unit + Z * Z * Hash) →
    engine (v1loop + v2session) :=
  @engineStep _ _ _ (anySession id []) byKey arb_opts.
Definition poolMsg (m : MiningMessage) : step (v1event + event) (unit + Z * Z * Hash) :=
  Pool (200 * second) (inr (PoolMsg (Ok (msg_inject m)))).
Definition arm : list (step (v1event + event) (unit + Z * Z * Hash)) :=
  [poolMsg (ANewMiningJob (v2_demo_job 2 None)); poolMsg (ASetNewPrevHash (v2_tip 2))].
Definition eng_run (sts : list (step (v1event + event) (unit + Z * Z * Hash))) : engine (v1loop + v2session) :=
  foldl eng_step eng_start sts.
Definition eng_workers (x : engine (v1loop + v2session)) : list Worker :=
  workers (@fleet_of _ _ _ (anySession id []) (ses x)).
Definition hashing (x : engine (v1loop + v2session)) : list bool := HasWork <$> eng_workers x.

Lemma eng_initial : @initial _ _ _ _ (anyFeeder id []) eng_start.
Proof. repeat split; [done|]. intros wr ->%list_elem_of_singleton. done. Qed.

Lemma eng_reaches : @reaches _ _ _ _ (anyFeeder id []) byKey arb_opts eng_start (eng_run arm).
Proof.
  change (eng_run arm) with (eng_step (eng_step eng_start
    (poolMsg (ANewMiningJob (v2_demo_job 2 None)))) (poolMsg (ASetNewPrevHash (v2_tip 2)))).
  apply reaches_step; [apply reaches_step; [apply reaches_refl|done]|].
  eexists. vm_compute. reflexivity.
Qed.


(** The first allocation sends cpu0 to another market: the device is marked
    paused, but its worker goes on hashing. *)
Lemma first_allocation_keeps_hashing :
  let x := eng_run (arm ++ [Quoted (200 * second) (demo_quote "ai.akash" "cpu0" 9 (200 * second));
                            Tick (201 * second) None]) in
  "cpu0" ∈ pauses x ∧ hashing x = [true].
Proof. split; [apply (bool_decide_eq_true_1 _)|]; vm_compute; reflexivity. Qed.

(** Steps are atomic above.  In the code the session reads the gate, the price
    loop may raise it and idle the workers, and the session then arms them: the
    gate is up, the worker hashes, and a later job leaves it so. *)
Lemma curtail_race :
  let w := {| curtailed := false; paused := ∅; clock := 200 * second |} in
  let '(js, f) := setNewPrevHash w 7 (v2_tip 2)
    (newMiningJob w 7 (v2_demo_job 2 None) (feeds (newSession 7 0 (replicate 32 1) eng_fleet ses_zero))) in
  let '(g, f) := priceTick (f64_of_Z 50000, true) (f64_of_Z 60000) false f in
  let '(js, f) := newMiningJob w 7 (v2_demo_job 3 (Some 120)) (js, f) in
  let later := newMiningJob {| curtailed := g; paused := ∅; clock := 230 * second |} 7
                 (v2_demo_job 4 (Some 130)) (js, f) in
  g = true ∧ HasWork <$> workers f = [true] ∧ HasWork <$> workers later.2 = [true].
Proof. vm_compute. repeat split. Qed.

(** A V1 session ignores the jobs that arrive while curtailed, so a retarget after
    the price recovers puts the workers back on the job from before. *)
Lemma v1_retarget_revives_old_job :
  let w (g : bool) := {| curtailed := g; paused := ∅; clock := 200 * second |} in
  let s := (v1Turn id [] (w false) (V1Job (v1_demo_job [49] []) (f64_of_Z 1)) (newV1 eng_fleet ses_zero)).1 in
  let s := @put_fleet _ _ _ (v1_session id []) (idleAll (v1fleet s)) s in
  let s := (v1Turn id [] (w true) (V1Job (v1_demo_job [50] []) (f64_of_Z 1)) s).1 in
  let s := (v1Turn id [] (w false) (V1Retargeted (f64_of_Z 2)) s).1 in
  (λ wr, (λ p, Work_JobID p.2) <$> work wr) <$> workers (v1fleet s) = [Some 1].
Proof. vm_compute. reflexivity. Qed.
