(* ===== verification/FanIn.v ===== *)
(** * internal/engine/fanin.go: merging channels

    One goroutine per input, each holding at most one value between its two
    selects, a bounded output channel, and the closer that waits for all of them.
    Producers, the consumer and the cancellation are steps of the environment, so
    the theorems hold for every scheduling. *)
From S2P Require Import Prelude.

Open Scope nat_scope.

(** [bufSize], for [n] channels. *)
Definition bufSize (bufFactor n : nat) : nat :=
  let b := bufFactor * n in
  let b := if 64 <? b then 64 else b in
  if b <? 1 then 1 else b.
Definition mergeQuotesBuf (n : nat) : nat := bufSize 64 n.
Definition mergeSharesBuf (n : nat) : nat := bufSize 4 n.

Section fanIn.
Context {T : Type}.

(** A forwarder: waiting to receive, holding a value to send, or returned. *)
Inductive forwarder := Receiving | Sending (v : T) | Returned.

Record input := { queue : list T; in_closed : bool; fwd : forwarder }.

Record fan := {
  cap : nat;
  inputs : list input;
  out : list T;             (* the output channel *)
  out_closed : bool;
  ctx_done : bool;
  delivered : list T;       (* what the consumer received, oldest first *)
}.

Definition fanIn (bufFactor : nat) (queues : list (list T)) : fan :=
  {| cap := bufSize bufFactor (length queues);
     inputs := (λ q, {| queue := q; in_closed := false; fwd := Receiving |}) <$> queues;
     out := []; out_closed := false; ctx_done := false; delivered := [] |}.

Definition set_inputs (i : list input) (o : list T) (s : fan) : fan :=
  {| cap := cap s; inputs := i; out := o; out_closed := out_closed s; ctx_done := ctx_done s;
     delivered := delivered s |}.
Definition set_input (i : nat) (c : input) (s : fan) : fan := set_inputs (<[i := c]> (inputs s)) (out s) s.

(** The label is what a producer put into an input. *)
Inductive fstep : fan → option (nat * T) → fan → Prop :=
  (* the select on the input and the context *)
  | f_receive s i v q cl : inputs s !! i = Some {| queue := v :: q; in_closed := cl; fwd := Receiving |} →
      fstep s None (set_input i {| queue := q; in_closed := cl; fwd := Sending v |} s)
  | f_input_closed s i : inputs s !! i = Some {| queue := []; in_closed := true; fwd := Receiving |} →
      fstep s None (set_input i {| queue := []; in_closed := true; fwd := Returned |} s)
  | f_receive_done s i c : inputs s !! i = Some c → fwd c = Receiving → ctx_done s = true →
      fstep s None (set_input i {| queue := queue c; in_closed := in_closed c; fwd := Returned |} s)
  (* the select on the output and the context *)
  | f_send s i c v : inputs s !! i = Some c → fwd c = Sending v → length (out s) < cap s →
      fstep s None (set_inputs (<[i := {| queue := queue c; in_closed := in_closed c; fwd := Receiving |}]> (inputs s))
                 (out s ++ [v]) s)
  | f_send_done s i c v : inputs s !! i = Some c → fwd c = Sending v → ctx_done s = true →
      fstep s None (set_input i {| queue := queue c; in_closed := in_closed c; fwd := Returned |} s)
  (* wg.Wait then close *)
  | f_close s : out_closed s = false → (∀ c, c ∈ inputs s → fwd c = Returned) →
      fstep s None {| cap := cap s; inputs := inputs s; out := out s; out_closed := true;
                 ctx_done := ctx_done s; delivered := delivered s |}
  (* the environment *)
  | f_produce s i c v : inputs s !! i = Some c → in_closed c = false →
      fstep s (Some (i, v)) (set_input i {| queue := queue c ++ [v]; in_closed := false; fwd := fwd c |} s)
  | f_close_input s i c : inputs s !! i = Some c → in_closed c = false →
      fstep s None (set_input i {| queue := queue c; in_closed := true; fwd := fwd c |} s)
  | f_consume s v o : out s = v :: o →
      fstep s None {| cap := cap s; inputs := inputs s; out := o; out_closed := out_closed s;
                 ctx_done := ctx_done s; delivered := delivered s ++ [v] |}
  | f_cancel s :
      fstep s None {| cap := cap s; inputs := inputs s; out := out s; out_closed := out_closed s;
                 ctx_done := true; delivered := delivered s |}.

(** ** Traces *)

(** [history]: everything ever put into each input. *)
Definition produce (lbl : option (nat * T)) (h : list (list T)) : list (list T) :=
  match lbl with Some (i, v) => alter (λ l, l ++ [v]) i h | None => h end.
Inductive freach (s0 : fan) (h0 : list (list T)) : list (list T) → fan → Prop :=
  | fr_refl : freach s0 h0 h0 s0
  | fr_step h s lbl s' : freach s0 h0 h s → fstep s lbl s' → freach s0 h0 (produce lbl h) s'.

(** [interleave ls l]: [l] mixes the lists [ls], keeping the order of each. *)
Inductive interleave : list (list T) → list T → Prop :=
  | il_nil n : interleave (replicate n []) []
  | il_snoc ls l i t v : interleave ls l → ls !! i = Some t →
      interleave (<[i := t ++ [v]]> ls) (l ++ [v]).

Lemma interleave_perm ls l : interleave ls l → l ≡ₚ concat ls.
Proof.
  induction 1 as [n|ls l i t v _ IH Hi].
  - induction n as [|n IHn]; [done|]. exact IHn.
  - rewrite IH. clear IH. revert i Hi. induction ls as [|t0 ls IH]; intros [|i] Hi; try done; cbn in *.
    + injection Hi as ->. rewrite <- !(assoc_L (++)). apply Permutation_app_head, Permutation_app_comm.
    + rewrite <- (assoc_L (++)). by apply Permutation_app_head, IH.
Qed.

(** What has happened to what was produced on one input. *)
Definition fate (cancelled : bool) (c : input) (p t : list T) : Prop :=
  match fwd c with
  | Receiving => p = t ++ queue c
  | Sending v => p = t ++ v :: queue c
  | Returned => (queue c = [] ∧ in_closed c = true ∧ p = t) ∨
                (cancelled = true ∧ t `prefix_of` p)
  end.

Record fan_inv (s : fan) (h taken : list (list T)) : Prop := {
  fi_len : length (inputs s) = length h ∧ length taken = length h;
  fi_mix : interleave taken (delivered s ++ out s);
  fi_cap : length (out s) ≤ cap s;
  fi_fate i c p t : inputs s !! i = Some c → h !! i = Some p → taken !! i = Some t →
    fate (ctx_done s) c p t;
  fi_closed : out_closed s = true → ∀ c, c ∈ inputs s → fwd c = Returned;
}.

Lemma fate_cancel b c p t : fate b c p t → fate true c p t.
Proof. unfold fate. destruct (fwd c); naive_solver. Qed.

Lemma fanIn_inv b qs : fan_inv (fanIn b qs) qs (replicate (length qs) []).
Proof.
  split; cbn [fanIn inputs delivered out out_closed ctx_done cap length].
  - by rewrite length_fmap, length_replicate.
  - constructor.
  - lia.
  - intros i c p t. rewrite list_lookup_fmap. intros (q & Hq & ->)%fmap_Some Hp.
    intros [-> _]%lookup_replicate. unfold fate. by simplify_eq/=.
  - done.
Qed.

(** Steps that change one input only. *)
Lemma set_input_inv s h taken i c c' :
  fan_inv s h taken → inputs s !! i = Some c → fwd c ≠ Returned →
  (∀ p t, fate (ctx_done s) c p t → fate (ctx_done s) c' p t) → fan_inv (set_input i c' s) h taken.
Proof.
  intros [[L1 L2] H2 H3 H4 H5] Hi Hr Hf. split; cbn [set_input set_inputs inputs delivered out out_closed ctx_done cap];
    try done.
  - by rewrite length_insert.
  - intros k c0 p t [(-> & <- & _)|[Hne Hk]]%list_lookup_insert_Some Hp Ht; [|by apply (H4 k)].
    apply Hf. by apply (H4 k).
  - intros Hc. exfalso. apply Hr, H5; [done|]. by eapply list_elem_of_lookup_2.
Qed.

Lemma send_inv s h taken i c v :
  fan_inv s h taken → inputs s !! i = Some c → fwd c = Sending v → length (out s) < cap s →
  ∃ taken', fan_inv (set_inputs
    (<[i := {| queue := queue c; in_closed := in_closed c; fwd := Receiving |}]> (inputs s)) (out s ++ [v]) s)
    h taken'.
Proof.
  intros [[L1 L2] H2 H3 H4 H5] Hi Hf Hl.
  assert (is_Some (taken !! i)) as [t Ht].
  { apply lookup_lt_is_Some. rewrite L2, <- L1. by eapply lookup_lt_Some. }
  exists (<[i := t ++ [v]]> taken).
  split; cbn [set_inputs inputs delivered out out_closed ctx_done cap].
  - by rewrite !length_insert.
  - rewrite (assoc_L (++)). by constructor.
  - rewrite length_app. cbn. lia.
  - intros k c0 p t0 [(-> & <- & _)|[Hne Hk]]%list_lookup_insert_Some Hp.
    + rewrite list_lookup_insert_eq by (rewrite L2, <- L1; by eapply lookup_lt_Some). intros [= <-].
      pose proof (H4 _ _ _ _ Hi Hp Ht) as HF. unfold fate in *. rewrite Hf in HF. cbn.
      by rewrite <- (assoc_L (++)).
    + rewrite list_lookup_insert_ne by done. by apply (H4 k).
  - intros Hc. exfalso. assert (fwd c = Returned); [|congruence].
    apply H5; [done|]. by eapply list_elem_of_lookup_2.
Qed.

Lemma produce_inv s h taken i c v :
  fan_inv s h taken → inputs s !! i = Some c → in_closed c = false →
  fan_inv (set_input i {| queue := queue c ++ [v]; in_closed := false; fwd := fwd c |} s)
    (produce (Some (i, v)) h) taken.
Proof.
  intros [[L1 L2] H2 H3 H4 H5] Hi Hc.
  split; cbn [set_input set_inputs inputs delivered out out_closed ctx_done cap produce]; try done.
  - by rewrite length_insert, length_alter.
  - intros k c0 p t [(-> & <- & _)|[Hne Hk]]%list_lookup_insert_Some.
    + rewrite list_lookup_alter_eq. intros (p0 & Hp0 & ->)%fmap_Some Ht.
      pose proof (H4 _ _ _ _ Hi Hp0 Ht) as HF. unfold fate in *. cbn.
      destruct (fwd c); [by rewrite HF, <- (assoc_L (++))|by rewrite HF, <- (assoc_L (++))|].
      destruct HF as [(_ & ? & _)|[? ?]]; [congruence|]. right. split; [done|]. by apply prefix_app_r.
    + rewrite list_lookup_alter_ne by done. by apply (H4 k).
  - intros Hcl c0 (k & Hk)%list_elem_of_lookup. apply list_lookup_insert_Some in Hk as [(-> & <- & _)|[_ Hk]];
      cbn; apply (H5 Hcl); by eapply list_elem_of_lookup_2.
Qed.

Lemma fstep_inv s lbl s' h taken :
  fan_inv s h taken → fstep s lbl s' → ∃ taken', fan_inv s' (produce lbl h) taken'.
Proof.
  intros HI HS. destruct HS as [s i v q cl Hi|s i Hi|s i c Hi Hf Hd|s i c v Hi Hf Hl|s i c v Hi Hf Hd|
    s Hc Hall|s i c v Hi Hc|s i c Hi Hc|s v o Ho|s]; cbn [produce].
  - exists taken. apply (set_input_inv s h taken i _ _ HI Hi); [done|]. done.
  - exists taken. apply (set_input_inv s h taken i _ _ HI Hi); [done|]. unfold fate. cbn. intros p t ->.
    rewrite app_nil_r. by left.
  - exists taken. apply (set_input_inv s h taken i _ _ HI Hi); [congruence|]. unfold fate. rewrite Hf. cbn. intros p t ->.
    right. split; [done|]. by apply prefix_app_r.
  - by apply (send_inv s h taken i c v).
  - exists taken. apply (set_input_inv s h taken i _ _ HI Hi); [congruence|]. unfold fate. rewrite Hf. cbn. intros p t ->.
    right. split; [done|]. by apply prefix_app_r.
  - exists taken. destruct HI as [H1 H2 H3 H4 H5]. by split.
  - exists taken. by eapply produce_inv.
  - exists taken. destruct HI as [[L1 L2] H2 H3 H4 H5].
    split; cbn [set_input set_inputs inputs delivered out out_closed ctx_done cap]; try done.
    + by rewrite length_insert.
    + intros k c0 p t [(-> & <- & _)|[Hne Hk]]%list_lookup_insert_Some Hp Ht; [|by apply (H4 k)].
      pose proof (H4 _ _ _ _ Hi Hp Ht) as HF. unfold fate in *. cbn. destruct (fwd c); naive_solver.
    + intros Hcl c0 (k & Hk)%list_elem_of_lookup. apply list_lookup_insert_Some in Hk as [(-> & <- & _)|[_ Hk]];
        cbn; apply (H5 Hcl); by eapply list_elem_of_lookup_2.
  - exists taken. destruct HI as [H1 H2 H3 H4 H5].
    split; cbn [inputs delivered out out_closed ctx_done cap]; try done.
    + rewrite Ho in H2. by rewrite <- (assoc_L (++)).
    + rewrite Ho in H3. cbn in H3. lia.
  - exists taken. destruct HI as [H1 H2 H3 H4 H5].
    split; cbn [inputs delivered out out_closed ctx_done cap]; try done.
    intros k c p t Hk Hp Ht. eapply fate_cancel, H4; eauto.
Qed.

Lemma freach_inv b qs h s : freach (fanIn b qs) qs h s → ∃ taken, fan_inv s h taken.
Proof.
  induction 1 as [|h s lbl s' _ [taken IH] HS]; [eexists; apply fanIn_inv|]. by eapply fstep_inv.
Qed.
End fanIn.
Arguments input : clear implicits.
Arguments fan : clear implicits.
Arguments forwarder : clear implicits.

(** However producers, forwarders, the consumer and cancellation are
    scheduled: what has come out of the merged channel, or waits in it, is an
    interleaving of what went into the inputs, each in its own order and without
    loss, duplication or invention, and the buffer bound is kept; until
    cancellation every value taken from an input is in the output or held by that
    input's forwarder; and once the merged channel is closed nothing can be sent to
    it, and without cancellation it has received everything produced. *)
Theorem fanIn_exact {T} b (qs h : list (list T)) s :
  freach (fanIn b qs) qs h s →
  ∃ taken, interleave taken (delivered s ++ out s) ∧ length (out s) ≤ cap s ∧ length taken = length h ∧
    (∀ i t p, taken !! i = Some t → h !! i = Some p → t `prefix_of` p) ∧
    (ctx_done s = false → ∀ i c t p, inputs s !! i = Some c → taken !! i = Some t → h !! i = Some p →
       p = t ++ match fwd c with Sending v => [v] | _ => [] end ++ queue c) ∧
    (out_closed s = true →
       (∀ c, c ∈ inputs s → fwd c = Returned) ∧ (ctx_done s = false → taken = h)).
Proof.
  intros (taken & [[L1 L2] H2 H3 H4 H5])%freach_inv. exists taken. split_and!; try done.
  - intros i t p Ht Hp.
    assert (is_Some (inputs s !! i)) as [c Hc].
    { apply lookup_lt_is_Some. rewrite L1. by eapply lookup_lt_Some. }
    pose proof (H4 _ _ _ _ Hc Hp Ht) as HF. unfold fate in HF. destruct (fwd c); [by exists (queue c)|by eexists|].
    destruct HF as [(_ & _ & ->)|[_ ?]]; done.
  - intros Hd i c t p Hc Ht Hp. pose proof (H4 _ _ _ _ Hc Hp Ht) as HF. unfold fate in HF.
    destruct (fwd c); [done|done|]. destruct HF as [(-> & _ & ->)|[? _]]; [by rewrite app_nil_r|congruence].
  - intros Hcl. split; [by apply H5|]. intros Hd. apply list_eq_same_length with (length h); [done..|].
    intros i t p Hi Ht Hp.
    assert (is_Some (inputs s !! i)) as [c Hc] by (apply lookup_lt_is_Some; lia).
    pose proof (H4 _ _ _ _ Hc Hp Ht) as HF. unfold fate in HF.
    rewrite (H5 Hcl c) in HF by (by eapply list_elem_of_lookup_2).
    destruct HF as [(_ & _ & ->)|[? _]]; [done|congruence].
Qed.

Lemma fr_quiet {T} (s0 : fan T) h0 h s s' : freach s0 h0 h s → fstep s None s' → freach s0 h0 h s'.
Proof. intros HR HS. by apply (fr_step s0 h0 h s None s'). Qed.

(** ** Witness: two producers, one of which closes; the value of the other is
    in flight. *)
Lemma fanIn_exact_witness :
  ∃ taken, interleave taken [5; 6] ∧ length taken = 2.
Proof.
  assert (∃ s, freach (fanIn 4 [[5]; [6; 7]]) [[5]; [6; 7]] [[5]; [6; 7]] s ∧ delivered s ++ out s = [5; 6])
    as (s & HR & Ho).
  { eexists. split.
    - eapply fr_quiet; [eapply fr_quiet; [eapply fr_quiet; [eapply fr_quiet; [apply fr_refl|]|]|]|].
      + by apply (f_receive _ 0 5 [] false).
      + by eapply (f_send _ 0 _ 5); [reflexivity|reflexivity|vm_compute; lia].
      + by apply (f_receive _ 1 6 [7] false).
      + by eapply (f_send _ 1 _ 6); [reflexivity|reflexivity|vm_compute; lia].
    - reflexivity. }
  destruct (fanIn_exact 4 [[5]; [6; 7]] [[5]; [6; 7]] s HR) as (taken & H1 & _ & H3 & _).
  exists taken. rewrite Ho in H1. split; [exact H1|exact H3].
Defined.
