(* ===== verification/Rates.v ===== *)
(** * internal/rates: the price and network-hashrate feeds

    The two fetchers from the answers of their sources on: what one HTTP answer
    contributes, the plausibility bands, the median and its two-source guard, the
    cached value and its freshness, and the coalescing of concurrent fetches.  The
    HTTP exchange, [strconv.ParseFloat] and the JSON decoding inside each source's
    [extract] are arguments. *)
From S2P Require Import Prelude.
From S2P Require Import Float64.
From S2P Require Import EngineStats.
From Stdlib Require Import SpecFloat.

Open Scope Z_scope.

(** ** One source *)

(** What the HTTP client returned: an error, or a status, a body read up to the
    limit, and the skew derived from the Date header if there was one. *)
Inductive answer :=
  | NoAnswer (e : error)
  | Answer (status : Z) (body : result (list Z)) (skew : option float64).

Definition StatusOK : Z := 200.

Section sources.
Context (ParseFloat : list Z → result float64).

Definition parseRate (s : list Z) : result float64 :=
  v ← ParseFloat s;
  if IsNaN v || IsInf v then Err (Errorf "rates: non-finite price %q" s) else Ok v.

(** [fetchOne] of the price fetcher: the reading and the skew, 0 for none. *)
Definition fetchOne (extract : list Z → result float64) (a : answer) : result float64 * float64 :=
  match a with
  | NoAnswer e => (Err (Wrapf "rates: %s: %w" e), fzero)
  | Answer status body skew =>
      (match body with
       | Err e => Err (Wrapf "rates: %s: read body: %w" e)
       | Ok b => if negb (status =? StatusOK) then Err (Errorf "rates: %s: HTTP %d" [status])
                 else extract b
       end, default fzero skew)
  end.

Definition minPlausibleHashrate : float64 := f64_of_Z (10 ^ 18).
Definition maxPlausibleHashrate : float64 := f64_of_Z (10 ^ 23).

Definition mempoolExtract (currentHashrate : result float64) : result float64 :=
  v ← currentHashrate;
  if fle v fzero then Err (Errorf "currentHashrate %v not positive" []) else Ok v.
Definition blockchainExtract (b : list Z) : result float64 :=
  ghs ← ParseFloat b; Ok (fmul ghs (f64_of_Z (10 ^ 9))).

(** [fetchOne] of the hashrate fetcher. *)
Definition hashrateFetchOne (extract : list Z → result float64) (a : answer) : result float64 :=
  match a with
  | NoAnswer e => Err e
  | Answer status body _ =>
      if negb (status =? StatusOK) then Err (Errorf "HTTP %d" [status])
      else
        b ← body;
        v ← extract b;
        if flt v minPlausibleHashrate || flt maxPlausibleHashrate v
        then Err (Errorf "hashrate %e H/s outside plausibility band" []) else Ok v
  end.
End sources.

(** ** The median *)

Definition four : float64 := f64_of_Z 4.

(** The sorted readings: refused when two disagree by more than a factor 4. *)
Definition consensus (vals : list float64) : result float64 :=
  let vals := SortStableFunc fcompare vals in
  let n := length vals in
  if (n =? 2)%nat && flt (fmul (nth 0 vals fzero) four) (nth 1 vals fzero)
  then Err (Errorf "rates: sources disagree" [])
  else if Nat.odd n then Ok (nth (n / 2) vals fzero)
  else Ok (fdiv (fadd (nth (n / 2 - 1) vals fzero) (nth (n / 2) vals fzero)) (f64_of_Z 2)).

(** ** The price fetcher *)

Definition CacheDuration : Z := 5 * 60 * 10 ^ 9.
Definition minPlausibleRateUSD : float64 := f64_of_Z 100.
Definition maxPlausibleRateUSD : float64 := f64_of_Z 100000000.
Definition clockSkewWarnThreshold : float64 := f64_of_Z 120.

Record Fetcher := {
  rate : float64;
  fetchedAt : option Z;
  clockSkewSecs : float64;
  lastOKSources : Z;
  fetchAttempts : Z;
  sourceCount : Z;
  fallback : float64;
}.

Definition NewFetcher (fb : float64) : Fetcher :=
  {| rate := fzero; fetchedAt := None; clockSkewSecs := fzero; lastOKSources := 0; fetchAttempts := 0;
     sourceCount := 3; fallback := fb |}.

Definition plausible (r : float64) : bool := fle minPlausibleRateUSD r && fle r maxPlausibleRateUSD.

(** The readings that count, in the order the sources answered. *)
Definition usable (rs : list (result float64 * float64)) : list float64 :=
  omap (λ x, match x.1 with Ok r => if plausible r then Some r else None | Err _ => None end) rs.
Definition fetchErrs (rs : list (result float64 * float64)) : list error :=
  omap (λ x, match x.1 with Ok _ => None | Err e => Some e end) rs.
Definition observedSkew (rs : list (result float64 * float64)) : option float64 :=
  foldl (λ m x, if flt fzero x.2 then Some (fmax (default fzero m) x.2) else m) None rs.

Definition doFetch (now : Z) (rs : list (result float64 * float64)) (f : Fetcher)
    : Fetcher * option error :=
  let rates := usable rs in
  let f := {| rate := rate f; fetchedAt := fetchedAt f;
              clockSkewSecs := default (clockSkewSecs f) (observedSkew rs);
              lastOKSources := Z.of_nat (length rates); fetchAttempts := fetchAttempts f + 1;
              sourceCount := sourceCount f; fallback := fallback f |} in
  match rates with
  | [] => (f, Some (match fetchErrs rs with
                    | [] => Sentinel "rates: all sources failed (all readings implausible)"
                    | e :: _ => Wrapf "rates: all sources failed: %w" e
                    end))
  | _ =>
      match consensus rates with
      | Err e => (f, Some e)
      | Ok median =>
          ({| rate := median; fetchedAt := Some now; clockSkewSecs := clockSkewSecs f;
              lastOKSources := lastOKSources f; fetchAttempts := fetchAttempts f;
              sourceCount := sourceCount f; fallback := fallback f |}, None)
      end
  end.

Definition BTCUSDRate (now : Z) (f : Fetcher) : float64 * bool :=
  if fle (rate f) fzero then (fallback f, false)
  else (rate f, match fetchedAt f with Some t => now - t <? CacheDuration | None => false end).

Definition RateAge (now : Z) (f : Fetcher) : Z * bool :=
  match fetchedAt f with Some t => (now - t, true) | None => (0, false) end.

Definition SourceHealth (f : Fetcher) : Z * Z * bool :=
  (lastOKSources f, sourceCount f, 0 <? fetchAttempts f).

(** ** The hashrate fetcher *)

Definition HashrateCacheDuration : Z := 30 * 60 * 10 ^ 9.

Record HashrateFetcher := { hashrate : float64; h_fetchedAt : option Z; h_sourceCount : Z }.

Definition HashrateFetcher_Fetch (now : Z) (rs : list (result float64)) (f : HashrateFetcher)
    : HashrateFetcher * option error :=
  match omap (λ r : result float64, match r with Ok v => Some v | Err _ => None end) rs with
  | [] => (f, Some (Errorf "rates: all %d hashrate sources failed" [h_sourceCount f]))
  | vals =>
      match consensus vals with
      | Err e => (f, Some e)
      | Ok h => ({| hashrate := h; h_fetchedAt := Some now; h_sourceCount := h_sourceCount f |}, None)
      end
  end.

Definition CurrentHashrate (now : Z) (f : HashrateFetcher) : float64 * bool :=
  if fle (hashrate f) fzero then (fzero, false)
  else (hashrate f, match h_fetchedAt f with Some t => now - t <? HashrateCacheDuration | None => false end).

(** * A majority of honest sources fixes the price *)

Definition within (lo hi x : float64) : bool := fle lo x && fle x hi.

Lemma disjoint_filters {A} (P Q : A → Prop) `{∀ x, Decision (P x), ∀ x, Decision (Q x)} l :
  (∀ x, x ∈ l → P x → ¬ Q x) → (length (filter P l) + length (filter Q l) ≤ length l)%nat.
Proof.
  induction l as [|x l IH]; intros Hd; [done|]. specialize (IH ltac:(set_solver)).
  rewrite !filter_cons. destruct (decide (P x)), (decide (Q x)); cbn [length]; try lia.
  exfalso. apply (Hd x); [left|done|done].
Qed.

Lemma fle_not_nan a b : fle a b = true → IsNaN a = false ∧ IsNaN b = false.
Proof. by destruct a, b. Qed.

Lemma fle_false a b : IsNaN a = false → IsNaN b = false → fle a b = false ↔ flt b a = true.
Proof.
  intros Ha Hb. pose proof (flt_fle_neg b a Hb Ha) as H.
  destruct (flt b a), (fle a b); naive_solver.
Qed.

Lemma median_within lo hi vals m k :
  Forall (λ x, IsNaN x = false) vals → IsNaN lo = false → IsNaN hi = false →
  length vals = (2 * k + 1)%nat → SortStableFunc fcompare vals !! k = Some m →
  (k < length (filter (λ x, within lo hi x = true) vals))%nat → within lo hi m = true.
Proof.
  intros HN Hlo Hhi Hl Hm Hc. set (s := SortStableFunc fcompare vals) in *.
  assert (s ≡ₚ vals) as HP by apply SortStableFunc_Permutation.
  assert (Forall (λ x, IsNaN x = false) s) as HNs by (by rewrite HP).
  pose proof (sorted_rank s k m HNs (fcompare_sorted _ HN) Hm) as [Hlt Hle].
  assert (IsNaN m = false) as HNm
    by (rewrite Forall_forall in HNs; apply HNs; by eapply list_elem_of_lookup_2).
  rewrite <- (Permutation_length HP) in Hl.
  assert (length (filter (λ x, within lo hi x = true) vals) =
          length (filter (λ x, within lo hi x = true) s)) as Hf.
  { apply Permutation_length. by rewrite HP. }
  rewrite Hf in Hc. rewrite Forall_forall in HNs. unfold within. apply andb_true_iff. split.
  - destruct (fle lo m) eqn:E; [done|exfalso]. apply fle_false in E; [|done..].
    pose proof (disjoint_filters (λ x, within lo hi x = true) (λ x, fle x m = true) s) as Hd.
    cut (length (filter (λ x, within lo hi x = true) s) +
         length (filter (λ x, fle x m = true) s) ≤ length s)%nat; [lia|]. apply Hd.
    intros x Hx [Hx1 _]%andb_true_iff Hx2.
    assert (flt x lo = true) as Hxl by (apply (fle_lt_trans x m lo); auto).
    apply fle_false in Hxl; [congruence|done|auto].
  - destruct (fle m hi) eqn:E; [done|exfalso]. apply fle_false in E; [|done..].
    pose proof (disjoint_filters (λ x, within lo hi x = true) (λ x, ¬ flt x m = true) s) as Hd.
    assert (length (filter (λ x, flt x m = true) s) + length (filter (λ x, ¬ flt x m = true) s) =
            length s)%nat as Hs.
    { clear. induction s as [|x s IH]; [done|]. rewrite !filter_cons.
      destruct (decide (flt x m = true)), (decide (¬ flt x m = true)); cbn [length]; try lia; naive_solver. }
    cut (length (filter (λ x, within lo hi x = true) s) +
         length (filter (λ x, ¬ flt x m = true) s) ≤ length s)%nat; [lia|]. apply Hd.
    intros x Hx [_ Hx2]%andb_true_iff Hx3. apply Hx3. apply (fle_lt_trans x hi m); auto.
Qed.

Lemma usable_plausible rs : Forall (λ r, plausible r = true) (usable rs).
Proof.
  apply Forall_forall. intros r ([[v|e] sk] & _ & Hr)%list_elem_of_omap; cbn in Hr; [|done].
  destruct (plausible v) eqn:E; [|done]. by injection Hr as <-.
Qed.

Lemma flt_le_trans a b c : IsNaN c = false → flt a b = true → fle b c = true → flt a c = true.
Proof. intros ? H ?. destruct (flt_not_nan _ _ H). fkeys. Qed.

Lemma plausible_positive r : plausible r = true → fle r fzero = false ∧ IsNaN r = false.
Proof.
  intros [H1 _]%andb_true_iff. destruct (fle_not_nan _ _ H1) as [_ HN]. split; [|done].
  apply fle_false; [done|done|]. apply (flt_le_trans _ minPlausibleRateUSD); [done|by vm_compute|done].
Qed.

(** C31. The price feed resists a minority of lying sources and fails closed: if an
    odd number of sources give a plausible reading and more than half of those lie
    in an interval, the fetch succeeds, the cached rate lies in that interval and
    in the plausible band, and is reported fresh for exactly the five minutes that
    follow; and a fetch that fails — no plausible reading, or two that disagree by
    more than a factor 4 — leaves the reported rate and its freshness as they
    were. *)
Theorem price_feed_robust now rs f lo hi :
  let vals := usable rs in
  (Nat.odd (length vals) = true → IsNaN lo = false → IsNaN hi = false →
   (length vals < 2 * length (filter (λ r, within lo hi r = true) vals))%nat →
   ∃ f', doFetch now rs f = (f', None) ∧ within lo hi (rate f') = true ∧ plausible (rate f') = true ∧
     ∀ t, BTCUSDRate t f' = (rate f', t - now <? CacheDuration)) ∧
  (∀ f' e t, doFetch now rs f = (f', Some e) → BTCUSDRate t f' = BTCUSDRate t f).
Proof.
  intros vals. split.
  - intros Hodd Hlo Hhi Hmaj. pose proof (usable_plausible rs) as HPl. fold vals in HPl.
    assert (Forall (λ x, IsNaN x = false) vals) as HN.
    { eapply Forall_impl; [exact HPl|]. intros x Hx. by apply plausible_positive. }
    apply Nat.odd_spec in Hodd as [k Hk].
    assert (length (SortStableFunc fcompare vals) = (2 * k + 1)%nat) as Hls.
    { by rewrite (Permutation_length (SortStableFunc_Permutation fcompare vals)). }
    assert (is_Some (SortStableFunc fcompare vals !! k)) as [m Hm] by (apply lookup_lt_is_Some; lia).
    assert (consensus vals = Ok m) as Hcons.
    { unfold consensus. rewrite Hls. replace ((2 * k + 1 =? 2)%nat) with false by (symmetry; apply Nat.eqb_neq; lia).
      cbn [andb]. rewrite (proj2 (Nat.odd_spec (2 * k + 1))) by (by exists k).
      replace ((2 * k + 1) / 2)%nat with k by (rewrite Nat.mul_comm, Nat.div_add_l by done; cbn; lia).
      f_equal. by apply nth_lookup_Some. }
    assert (plausible m = true) as Hpm.
    { rewrite Forall_forall in HPl. apply HPl. rewrite <- (elem_of_SortStableFunc fcompare).
      by eapply list_elem_of_lookup_2. }
    unfold doFetch. fold vals. destruct vals as [|v0 vs] eqn:Ev; [cbn in Hk; lia|]. rewrite Hcons.
    eexists. split; [done|]. cbn [rate]. split; [|split; [done|]].
    + apply (median_within lo hi (v0 :: vs) m k); auto. lia.
    + intros t. unfold BTCUSDRate. cbn [rate fetchedAt]. by rewrite (proj1 (plausible_positive m Hpm)).
  - intros f' e t. unfold doFetch. fold vals. destruct vals as [|v0 vs]; [by intros [= <- _]|].
    destruct (consensus (v0 :: vs)); [done|]. by intros [= <- _].
Qed.

(** ** Witness, and the reading the hashrate band lets through *)

Definition price (n : Z) : result float64 * float64 := (Ok (f64_of_Z n), fzero).
Definition feed : list (result float64 * float64) :=
  [price 95000; (Err (Sentinel "HTTP 429"), f64_of_Z 2); price 9000000; price 95500; price 7].

Lemma price_feed_robust_witness :
  ∃ f', doFetch 0 feed (NewFetcher (f64_of_Z 95000)) = (f', None) ∧
    within (f64_of_Z 94000) (f64_of_Z 96000) (rate f') = true ∧ plausible (rate f') = true ∧
    ∀ t, BTCUSDRate t f' = (rate f', t - 0 <? CacheDuration).
Proof.
  apply (proj1 (price_feed_robust 0 feed (NewFetcher (f64_of_Z 95000)) (f64_of_Z 94000) (f64_of_Z 96000)));
    vm_compute; first [reflexivity | lia].
Defined.

(** A body of "NaN" parses as a number and is neither below nor above the
    plausible hashrates. *)
Lemma NaN_passes_the_band (ParseFloat : list Z → result float64) :
  ParseFloat (bytes_of_string "NaN") = Ok S754_nan →
  hashrateFetchOne (blockchainExtract ParseFloat)
    (Answer 200 (Ok (bytes_of_string "NaN")) None) = Ok S754_nan ∧
  consensus [f64_of_Z (10 ^ 21); S754_nan] = Ok S754_nan.
Proof.
  intros H. split; [|vm_compute; reflexivity]. unfold hashrateFetchOne, blockchainExtract.
  cbn [Z.eqb negb StatusOK Pos.eqb mbind result_bind]. rewrite H. vm_compute. reflexivity.
Qed.

(** * One fetch at a time

    [Fetch] called by any number of goroutines: the caller that finds no fetch in
    flight leads one, the others wait for it or for their own context. *)

Inductive caller :=
  | Outside
  | Leading (call : nat)                    (* in doFetch *)
  | Closing (call : nat) (e : option error) (* inflight reset, done not yet closed *)
  | Waiting (call : nat)
  | Returned_ (e : option error).

Record flight := {
  inflight : option nat;
  closed : gmap nat (option error);   (* the calls whose done channel is closed *)
  nextCall : nat;
  callers : gmap nat caller;
}.

Definition set_caller (c : nat) (x : caller) (s : flight) : flight :=
  {| inflight := inflight s; closed := closed s; nextCall := nextCall s; callers := <[c := x]> (callers s) |}.

Inductive fetch_step : flight → flight → Prop :=
  | fs_lead s c : callers s !! c = Some Outside → inflight s = None →
      fetch_step s {| inflight := Some (nextCall s); closed := closed s; nextCall := S (nextCall s);
                      callers := <[c := Leading (nextCall s)]> (callers s) |}
  | fs_join s c call : callers s !! c = Some Outside → inflight s = Some call →
      fetch_step s (set_caller c (Waiting call) s)
  | fs_fetched s c call e : callers s !! c = Some (Leading call) →
      fetch_step s {| inflight := None; closed := closed s; nextCall := nextCall s;
                      callers := <[c := Closing call e]> (callers s) |}
  | fs_close s c call e : callers s !! c = Some (Closing call e) →
      fetch_step s {| inflight := inflight s; closed := <[call := e]> (closed s); nextCall := nextCall s;
                      callers := <[c := Returned_ e]> (callers s) |}
  | fs_adopt s c call e : callers s !! c = Some (Waiting call) → closed s !! call = Some e →
      fetch_step s (set_caller c (Returned_ e) s)
  | fs_cancelled s c call e : callers s !! c = Some (Waiting call) →
      fetch_step s (set_caller c (Returned_ (Some e)) s)
  | fs_again s c e : callers s !! c = Some (Returned_ e) → fetch_step s (set_caller c Outside s).

Definition call_of (x : caller) : option nat :=
  match x with Leading call | Closing call _ | Waiting call => Some call | _ => None end.
Definition ends_call (x : caller) (call : nat) : Prop :=
  match x with Leading k | Closing k _ => k = call | _ => False end.

Record flight_ok (s : flight) : Prop := {
  fo_lead c call : callers s !! c = Some (Leading call) → inflight s = Some call;
  fo_fresh c x call : callers s !! c = Some x → call_of x = Some call → (call < nextCall s)%nat;
  fo_one c c' call : callers s !! c = Some (Leading call) → callers s !! c' = Some (Leading call) → c = c';
  fo_inflight call : inflight s = Some call → ∃ c, callers s !! c = Some (Leading call);
  fo_wait c call : callers s !! c = Some (Waiting call) →
    is_Some (closed s !! call) ∨ ∃ c' x, callers s !! c' = Some x ∧ ends_call x call;
}.

(** A caller that was leading nothing becomes one that leads nothing, and waits
    only for the call in flight. *)
Lemma set_caller_ok s c x y :
  flight_ok s → callers s !! c = Some x → (∀ call, ¬ ends_call x call) → (∀ call, ¬ ends_call y call) →
  (∀ call, y = Waiting call → inflight s = Some call) → flight_ok (set_caller c y s).
Proof.
  intros [H1 H2 H3 H4 H5] Hc Hx Hy Hw.
  split; cbn [set_caller inflight closed nextCall callers].
  - intros c' call [[-> ->]|[_ Hc']]%lookup_insert_Some; [by destruct (Hy call)|by eapply H1].
  - intros c' z call [[-> <-]|[_ Hc']]%lookup_insert_Some Hz; [|by eapply H2].
    destruct y as [|k|k e|k|e]; try done; injection Hz as ->; [by destruct (Hy call)..|].
    destruct (H4 call (Hw call eq_refl)) as [c0 Hc0]. by apply (H2 c0 (Leading call)).
  - intros c1 c2 call [[-> ->]|[_ Hc1]]%lookup_insert_Some; [by destruct (Hy call)|].
    intros [[-> ->]|[_ Hc2]]%lookup_insert_Some; [by destruct (Hy call)|by eapply H3].
  - intros call [c0 Hc0]%H4. exists c0. rewrite lookup_insert_ne; [done|]. intros ->.
    apply (Hx call). by simplify_eq.
  - intros c' call Hc'.
    assert (is_Some (closed s !! call) ∨ ∃ c0 z, callers s !! c0 = Some z ∧ ends_call z call) as [?|(c0 & z & Hc0 & Hz)].
    { apply lookup_insert_Some in Hc' as [[-> Hyw]|[_ Hc']]; [|by eapply H5]. right.
      destruct (H4 call (Hw call Hyw)) as [c0 Hc0]. by exists c0, (Leading call). }
    + by left.
    + right. exists c0, z. rewrite lookup_insert_ne; [done|]. intros ->. apply (Hx call). by simplify_eq.
Qed.

Lemma fetch_step_ok s s' : flight_ok s → fetch_step s s' → flight_ok s'.
Proof.
  intros HO HS. pose proof HO as [H1 H2 H3 H4 H5].
  destruct HS as [s c Hc Hi|s c call Hc Hi|s c call e Hc|s c call e Hc|s c call e Hc He|s c call e Hc|s c e Hc].
  - (* lead *) split; cbn [inflight closed nextCall callers].
    + intros c' call [[_ [= ->]]|[_ Hc']]%lookup_insert_Some; [done|]. apply H1 in Hc'. congruence.
    + intros c' z call [[_ <-]|[_ Hc']]%lookup_insert_Some Hz; [injection Hz; lia|].
      specialize (H2 _ _ _ Hc' Hz). lia.
    + intros c1 c2 call [[-> _]|[_ Hc1]]%lookup_insert_Some [[-> _]|[_ Hc2]]%lookup_insert_Some; try done;
        exfalso; [apply H1 in Hc2|apply H1 in Hc1..]; congruence.
    + intros call [= <-]. exists c. by rewrite lookup_insert_eq.
    + intros c' call [[_ ?]|[_ Hc']]%lookup_insert_Some; [done|].
      destruct (H5 _ _ Hc') as [?|(c2 & z & Hz & Hr)]; [by left|right]. exists c2, z.
      rewrite lookup_insert_ne; [done|]. intros ->. by simplify_eq.
  - by apply (set_caller_ok s c Outside); [| |naive_solver..].
  - (* fetched *) split; cbn [inflight closed nextCall callers].
    + intros c' k [[_ ?]|[Hne Hc']]%lookup_insert_Some; [done|]. exfalso. apply Hne.
      pose proof (H1 _ _ Hc). pose proof (H1 _ _ Hc'). assert (k = call) as -> by congruence. by eapply H3.
    + intros c' z k [[_ <-]|[_ Hc']]%lookup_insert_Some Hz; [|by eapply H2].
      injection Hz as <-. by apply (H2 c (Leading call)).
    + intros c1 c2 k [[_ ?]|[_ Hc1]]%lookup_insert_Some [[_ ?]|[_ Hc2]]%lookup_insert_Some; try done. by eapply H3.
    + done.
    + intros c' k [[_ ?]|[_ Hc']]%lookup_insert_Some; [done|].
      destruct (H5 _ _ Hc') as [?|(c2 & z & Hz & Hr)]; [by left|right].
      destruct (decide (c = c2)) as [<-|Hn].
      * exists c, (Closing call e). rewrite lookup_insert_eq. by simplify_eq.
      * exists c2, z. by rewrite lookup_insert_ne.
  - (* close *) split; cbn [inflight closed nextCall callers].
    + intros c' k [[_ ?]|[_ Hc']]%lookup_insert_Some; [done|by eapply H1].
    + intros c' z k [[_ <-]|[_ Hc']]%lookup_insert_Some Hz; [done|by eapply H2].
    + intros c1 c2 k [[_ ?]|[_ Hc1]]%lookup_insert_Some [[_ ?]|[_ Hc2]]%lookup_insert_Some; try done. by eapply H3.
    + intros k [c0 Hc0]%H4. exists c0. rewrite lookup_insert_ne; [done|]. intros ->. by simplify_eq.
    + intros c' k [[_ ?]|[_ Hc']]%lookup_insert_Some; [done|].
      destruct (H5 _ _ Hc') as [[e' He']|(c2 & z & Hz & Hr)].
      * left. rewrite lookup_insert_is_Some'. right. by exists e'.
      * destruct (decide (c = c2)) as [<-|Hn].
        -- simplify_eq/=. left. by rewrite lookup_insert_eq.
        -- right. exists c2, z. by rewrite lookup_insert_ne.
  - by apply (set_caller_ok s c (Waiting call)); [| |naive_solver..].
  - by apply (set_caller_ok s c (Waiting call)); [| |naive_solver..].
  - by apply (set_caller_ok s c (Returned_ e)); [| |naive_solver..].
Qed.

Definition grounded (s : flight) : Prop :=
  inflight s = None ∧ ∀ c x, callers s !! c = Some x → x = Outside.

(** However many goroutines call [Fetch], and however they are scheduled: at
    most one of them is fetching at any moment, and a caller that waits is never
    stranded — the call it waits for is either finished or still being run by a
    caller that will finish it. *)
Theorem single_flight s0 s :
  grounded s0 → rtc fetch_step s0 s →
  (∀ c c' k k', callers s !! c = Some (Leading k) → callers s !! c' = Some (Leading k') → c = c') ∧
  (∀ c k, callers s !! c = Some (Waiting k) →
     is_Some (closed s !! k) ∨ ∃ c' x, callers s !! c' = Some x ∧ ends_call x k).
Proof.
  intros [Hi Hout] HR.
  assert (flight_ok s0) as H0.
  { split; try (intros; repeat match goal with H : callers s0 !! _ = Some _ |- _ => apply Hout in H end; congruence).
    intros c x call Hc Hx. apply Hout in Hc as ->. done. }
  assert (flight_ok s) as [H1 _ H3 _ H5].
  { clear Hi Hout. induction HR; [done|]. eauto using fetch_step_ok. }
  split; [|done]. intros c c' k k' Hc Hc'. pose proof (H1 _ _ Hc). pose proof (H1 _ _ Hc').
  assert (k' = k) as -> by congruence. by eapply H3.
Qed.

Definition two_callers : flight :=
  {| inflight := None; closed := ∅; nextCall := 0;
     callers := <[0%nat := Outside]> (<[1%nat := Outside]> ∅) |}.
Definition one_waits : flight :=
  {| inflight := Some 0%nat; closed := ∅; nextCall := 1;
     callers := <[1%nat := Waiting 0]> (<[0%nat := Leading 0]> (callers two_callers)) |}.

Lemma two_callers_grounded : grounded two_callers.
Proof.
  split; [done|]. cbn [callers two_callers].
  intros c x [[_ <-]|[_ Hc]]%lookup_insert_Some; [done|].
  by apply lookup_insert_Some in Hc as [[_ <-]|[_ Hc]].
Qed.
Lemma one_waits_reached : rtc fetch_step two_callers one_waits.
Proof.
  eapply rtc_l; [by apply (fs_lead _ 0)|]. eapply rtc_l; [by apply (fs_join _ 1 0)|]. apply rtc_refl.
Qed.

Lemma single_flight_witness :
  is_Some (closed one_waits !! 0%nat) ∨ ∃ c' x, callers one_waits !! c' = Some x ∧ ends_call x 0.
Proof.
  apply (proj2 (single_flight two_callers one_waits two_callers_grounded one_waits_reached) 1%nat).
  reflexivity.
Defined.
