(* ===== verification/Quoting.v ===== *)
(** * Quoting and paths: strconv.Quote, strings and path/filepath

    [strconv.Quote] with a reader of quoted words that inverts it, splitting and
    trimming of strings, and the lexical path functions on Unix. *)
From S2P Require Import Prelude.
From S2P Require Import Utf8.
From S2P Require Import Json.
From S2P Require Import Text.
From S2P Require Import Bech32.

Open Scope Z_scope.

(** ** strings *)

(** [strings.Split] at a one-byte separator; never empty. *)
Fixpoint strings_Split (sep : Z) (s : list Z) : list (list Z) :=
  match s with
  | [] => [[]]
  | c :: s =>
      if c =? sep then [] :: strings_Split sep s
      else match strings_Split sep s with
           | w :: ws => (c :: w) :: ws
           | [] => [[c]]
           end
  end.

(** [strings.CutPrefix]. *)
Definition CutPrefix (s p : list Z) : option (list Z) :=
  if HasPrefix s p then Some (drop (length p) s) else None.

(** The runes of a string with the bytes each was decoded from. *)
Fixpoint chunks_fuel (n : nat) (s : list Z) : list (Z * list Z) :=
  match n, s with
  | S n, _ :: _ => let '(r, w) := decode_rune s in (r, take w s) :: chunks_fuel n (drop w s)
  | _, _ => []
  end.
Definition chunks (s : list Z) : list (Z * list Z) := chunks_fuel (length s) s.

(** [strings.TrimSpace]. *)
Fixpoint dropSpace (cs : list (Z * list Z)) : list (Z * list Z) :=
  match cs with
  | (r, b) :: cs' => if IsSpace r then dropSpace cs' else cs
  | [] => []
  end.
Definition TrimSpace (s : list Z) : list Z :=
  concat (map snd (reverse (dropSpace (reverse (dropSpace (chunks s)))))).

(** ** path/filepath on Unix *)

(** One element of a path, on the reversed elements kept so far. *)
Definition cleanStep (rooted : bool) (kept : list (list Z)) (e : list Z) : list (list Z) :=
  if bool_decide (e = []) || bool_decide (e = %".") then kept
  else if bool_decide (e = %"..") then
    match kept with
    | top :: rest => if bool_decide (top = %"..") then e :: kept else rest
    | [] => if rooted then [] else [e]
    end
  else e :: kept.
Definition filepath_Clean (path : list Z) : list Z :=
  let rooted := HasPrefix path [47] in
  let body := strings_Join [47] (reverse (foldl (cleanStep rooted) [] (strings_Split 47 path))) in
  if rooted then 47 :: body else if bool_decide (body = []) then %"." else body.
(** [filepath.Join]. *)
Definition filepath_Join (elems : list (list Z)) : list Z :=
  match List.filter (λ e, negb (bool_decide (e = []))) elems with
  | [] => []
  | es => filepath_Clean (strings_Join [47] es)
  end.

Example filepath_Join_examples :
  [filepath_Join [%"/home/u"; %".config"; %"systemd"]; filepath_Join [%"/a/../.."; %"b//c/."];
   filepath_Join [%"a"; %"../../b"]; filepath_Join [[]; []]; filepath_Join [%"a/.."]] =
  [%"/home/u/.config/systemd"; %"/b/c"; %"../b"; []; %"."].
Proof. vm_compute. reflexivity. Qed.
Example TrimSpace_examples :
  [TrimSpace (%"  /x y " ++ [10]); TrimSpace ([0xC2; 0xA0] ++ %"a" ++ [0xE2; 0x80; 0x83; 10]); TrimSpace [32; 0xFF; 32]] =
  [%"/x y"; %"a"; [0xFF]].
Proof. vm_compute. reflexivity. Qed.

(** ** strconv.Quote *)

Section Quote.
(** Whether a rune above Latin-1 is printable: the table of unicode/tables.go. *)
Context (unicodePrint : Z → bool).

Definition IsPrint (r : Z) : bool :=
  if r <=? 0xFF then ((0x20 <=? r) && (r <? 0x7F)) || ((0xA1 <=? r) && negb (r =? 0xAD))
  else unicodePrint r.

Definition hexN (k : nat) (v : Z) : list Z := map hex_digit (to_digits 16 k v).

Definition appendEscapedRune (r : Z) : list Z :=
  if (r =? 34) || (r =? 92) then [92; r]
  else if IsPrint r then encode_rune r
  else if r =? 7 then %"\a"
  else if r =? 8 then %"\b"
  else if r =? 12 then %"\f"
  else if r =? 10 then %"\n"
  else if r =? 13 then %"\r"
  else if r =? 9 then %"\t"
  else if r =? 11 then %"\v"
  else if (r <? 32) || (r =? 0x7f) then %"\x" ++ hexN 2 r
  else if negb (rune_ok r) then %"\u" ++ hexN 4 RuneError
  else if r <? 0x10000 then %"\u" ++ hexN 4 r
  else %"\U" ++ hexN 8 r.

Definition quoteChunk (c : Z * list Z) : list Z :=
  match c with
  | (r, [b]) => if (r =? RuneError) then %"\x" ++ hexN 2 b else appendEscapedRune r
  | (r, _) => appendEscapedRune r
  end.
Definition Quote (s : list Z) : list Z := [34] ++ concat (map quoteChunk (chunks s)) ++ [34].
End Quote.

Example Quote_examples :
  [Quote (λ _, true) (%"a b" ++ [34; 92; 10; 127; 0]); Quote (λ _, false) [0xFF; 0xE2; 0x80; 0x94; 0xC2; 0x85]] =
  [[34] ++ %"a b" ++ [92; 34; 92; 92] ++ %"\n\x7f\x00" ++ [34]; [34] ++ %"\xff\u2014\u0085" ++ [34]].
Proof. vm_compute. reflexivity. Qed.

(** ** Reading quoted words

    Words separated by spaces and tabs, in which C escapes are decoded and double
    quotes protect spaces. *)

Definition readHex (k : nat) (s : list Z) : option (Z * list Z) :=
  if (length s <? k)%nat then None
  else ds ← mapM hex_val (take k s); Some (of_digits 16 ds, drop k s).

(** The bytes an escape stands for, after its backslash. *)
Definition readEscape (s : list Z) : option (list Z * list Z) :=
  match s with
  | [] => None
  | c :: s =>
      if (c =? 34) || (c =? 92) || (c =? 39) then Some ([c], s)
      else if c =? 97 then Some ([7], s)
      else if c =? 98 then Some ([8], s)
      else if c =? 102 then Some ([12], s)
      else if c =? 110 then Some ([10], s)
      else if c =? 114 then Some ([13], s)
      else if c =? 116 then Some ([9], s)
      else if c =? 118 then Some ([11], s)
      else if c =? 120 then '(v, s) ← readHex 2 s; Some ([v], s)
      else if c =? 117 then '(v, s) ← readHex 4 s; Some (encode_rune v, s)
      else if c =? 85 then '(v, s) ← readHex 8 s; Some (encode_rune v, s)
      else None
  end.

Definition blank (c : Z) : bool := (c =? 32) || (c =? 9).

(** One word, [quoted] inside double quotes; the rest starts at a blank or is empty. *)
Fixpoint readWord (fuel : nat) (quoted : bool) (s : list Z) : option (list Z * list Z) :=
  match fuel with
  | O => None
  | S fuel =>
      match s with
      | [] => if quoted then None else Some ([], [])
      | c :: s' =>
          if c =? 34 then readWord fuel (negb quoted) s'
          else if c =? 92 then
            '(bs, s'') ← readEscape s'; '(w, rest) ← readWord fuel quoted s''; Some (bs ++ w, rest)
          else if negb quoted && blank c then Some ([], s)
          else if negb quoted && (c =? 39) then None
          else '(w, rest) ← readWord fuel quoted s'; Some (c :: w, rest)
      end
  end.
Fixpoint readWords (fuel : nat) (s : list Z) : option (list (list Z)) :=
  match fuel with
  | O => None
  | S fuel =>
      match s with
      | [] => Some []
      | c :: s' =>
          if blank c then readWords fuel s'
          else '(w, rest) ← readWord (S (length s)) false s; ws ← readWords fuel rest; Some (w :: ws)
      end
  end.
Definition splitWords (s : list Z) : option (list (list Z)) := readWords (S (length s)) s.

(** * Lemmas *)

(** ** Chunks *)

(** A chunk is one undecodable byte or the encoding of its rune. *)
Definition chunkOk (c : Z * list Z) : Prop :=
  (∃ b, c = (RuneError, [b]) ∧ 128 ≤ b < 256) ∨ (rune_ok c.1 = true ∧ c.2 = encode_rune c.1).

Lemma decode_chunk b s :
  bytes_ok (b :: s) → let '(r, w) := decode_rune (b :: s) in
  chunkOk (r, take w (b :: s)) ∧ (1 ≤ w)%nat.
Proof.
  intros Hs. destruct (decode_rune (b :: s)) as [r w] eqn:E.
  destruct (decide (w = 1%nat ∧ r = RuneError)) as [[-> ->]|Hno].
  - split; [|lia]. left. exists b. split; [done|]. apply Forall_cons in Hs as [Hb _]. unfold byte_ok in Hb.
    change (2 ^ 8) with 256 in Hb. unfold decode_rune in E. destruct (Z.ltb_spec b 0x80); [|lia].
    injection E as Eb. unfold RuneError in Eb. lia.
  - destruct (decode_take_encode _ _ _ Hs ltac:(done) E Hno) as (Ht & Hr & Hw). split; [right|lia]. by split.
Qed.

Lemma chunks_fuel_spec n s :
  bytes_ok s → (length s ≤ n)%nat →
  concat (map snd (chunks_fuel n s)) = s ∧ Forall chunkOk (chunks_fuel n s) ∧
  map fst (chunks_fuel n s) = runes_fuel n s.
Proof.
  revert s. induction n as [|n IH]; intros s Hs Hn; [by destruct s; [|cbn in Hn; lia]|].
  destruct s as [|b s]; [done|]. pose proof (decode_chunk b s Hs) as Hc. cbn [chunks_fuel runes_fuel].
  destruct (decode_rune (b :: s)) as [r w]. destruct Hc as [Hc Hw].
  destruct (IH (drop w (b :: s))) as (H1 & H2 & H3);
    [by apply Forall_drop|rewrite length_drop; cbn [length] in *; lia|].
  cbn [map concat fst snd]. rewrite H1, H3, take_drop. split_and!; [done|by constructor|done].
Qed.
Lemma chunks_spec s :
  bytes_ok s → concat (map snd (chunks s)) = s ∧ Forall chunkOk (chunks s) ∧ map fst (chunks s) = runes s.
Proof. intros Hs. by apply chunks_fuel_spec. Qed.

Lemma chunks_ascii s : Forall (λ c, 0 ≤ c < 128) s → chunks s = map (λ c, (c, [c])) s.
Proof.
  unfold chunks. induction 1 as [|c s Hc _ IH]; [done|]. cbn [length chunks_fuel].
  unfold decode_rune. rewrite (proj2 (Z.ltb_lt c 0x80)) by lia. cbn [take drop map firstn skipn]. rewrite skipn_O. by rewrite IH.
Qed.

Lemma graphic_not_space c : graphic c → IsSpace c = false.
Proof.
  unfold graphic, IsSpace. intros Hc. rewrite bool_decide_eq_false_2; [lia|].
  rewrite !not_elem_of_cons. repeat split; try lia. by apply not_elem_of_nil.
Qed.
Lemma dropSpace_graphic cs : Forall (λ c, graphic c.1) cs → dropSpace cs = cs.
Proof. intros [|[r b] cs' Hr _]; [done|]. cbn. by rewrite graphic_not_space. Qed.

(** Trimming leaves a text without blanks alone. *)
Lemma TrimSpace_graphic s : Forall graphic s → TrimSpace s = s.
Proof.
  intros Hs. unfold TrimSpace. rewrite chunks_ascii by (eapply Forall_impl; [exact Hs|unfold graphic; lia]).
  assert (Forall (λ c : Z * list Z, graphic c.1) (map (λ c, (c, [c])) s)) as HF by (by apply Forall_fmap).
  rewrite (dropSpace_graphic _ HF), dropSpace_graphic by (by apply Forall_reverse).
  rewrite reverse_involutive, map_map. cbn. clear. induction s as [|c s IH]; cbn; [done|]. by f_equal.
Qed.

Lemma encode_rune_split r :
  rune_ok r = true → (r < 128 ∧ encode_rune r = [r]) ∨ (128 ≤ r ∧ Forall (λ b, 128 ≤ b) (encode_rune r)).
Proof.
  intros Hr. unfold encode_rune. rewrite Hr. unfold encode_valid.
  destruct (Z.ltb_spec r 128); [by left|right]. split; [done|].
  assert (∀ a b, 0 < b → 0 ≤ a `mod` b) as Hm by (intros; apply Z.mod_pos_bound; lia).
  assert (∀ b, 0 < b → 0 ≤ r / b) as Hd by (intros; apply Z.div_pos; lia).
  repeat case_if; repeat constructor; try lia;
    match goal with |- _ ≤ _ + ?x => cut (0 ≤ x); [lia|] end; auto with lia.
Qed.

(** Every ASCII byte of a string is one of its runes. *)
Lemma ascii_byte_rune s b : bytes_ok s → b ∈ s → b < 128 → b ∈ runes s.
Proof.
  intros Hs Hb Hlt. destruct (chunks_spec s Hs) as (Hc & Hok & <-). rewrite <-Hc in Hb.
  apply list_elem_of_In, in_concat in Hb as (bs & Hbs & Hb). apply in_map_iff in Hbs as (c & <- & Hin).
  apply list_elem_of_In. apply in_map_iff. exists c. split; [|done].
  rewrite Forall_forall in Hok. destruct (Hok c) as [(b' & -> & Hb')|[Hr He]]; [by apply list_elem_of_In|..].
  - cbn in Hb. destruct Hb as [->|[]]. lia.
  - rewrite He in Hb. destruct (encode_rune_split _ Hr) as [[_ E]|[_ E]].
    + rewrite E in Hb. by destruct Hb as [->|[]].
    + rewrite Forall_forall in E. specialize (E b). apply list_elem_of_In in Hb. specialize (E Hb). lia.
Qed.

(** ** The reader inverts Quote *)

Lemma readHex_hexN k v rest : 0 ≤ v < 16 ^ Z.of_nat k → readHex k (hexN k v ++ rest) = Some (v, rest).
Proof.
  intros Hv. assert (length (hexN k v) = k) as Hl by (unfold hexN; by rewrite length_map, length_to_digits).
  unfold readHex. rewrite length_app, Hl. rewrite (proj2 (Nat.ltb_ge _ _)) by lia.
  rewrite take_app_exact, drop_app_exact by done.
  enough (mapM hex_val (hexN k v) = Some (to_digits 16 k v)) as ->.
  { cbn [mbind option_bind]. by rewrite of_to_digits by lia. }
  pose proof (to_digits_ok 16 k v ltac:(lia)) as Hd. unfold hexN. revert Hd. generalize (to_digits 16 k v).
  induction l as [|d l IH]; [done|]. intros [Hd Hl']%Forall_cons. cbn [map mapM].
  rewrite hex_val_digit by done. cbn [mbind option_bind]. by rewrite IH.
Qed.

Lemma readWord_mono n m q s x : readWord n q s = Some x → (n ≤ m)%nat → readWord m q s = Some x.
Proof.
  revert m q s x. induction n as [|n IH]; [done|]. intros [|m] q s x H Hm; [lia|]. cbn [readWord] in *.
  destruct s as [|c s]; [done|]. destruct (c =? 34); [by apply IH; [|lia]|].
  destruct (c =? 92).
  { destruct (readEscape s) as [[bs s']|]; [|done]. cbn [mbind option_bind] in *.
    destruct (readWord n q s') as [y|] eqn:E; [|done]. by rewrite (IH m _ _ _ E ltac:(lia)). }
  destruct (negb q && blank c); [done|]. destruct (negb q && (c =? 39)); [done|].
  destruct (readWord n q s) as [y|] eqn:E; [|done]. by rewrite (IH m _ _ _ E ltac:(lia)).
Qed.

(** Bytes that mean themselves, inside quotes and outside. *)
Definition verbatim (q : bool) (c : Z) : Prop :=
  c ≠ 34 ∧ c ≠ 92 ∧ (q = false → c ≠ 39 ∧ c ≠ 32 ∧ c ≠ 9).

Lemma readWord_verbatim n q bs rest w r :
  Forall (verbatim q) bs → readWord n q rest = Some (w, r) →
  readWord (length bs + n) q (bs ++ rest) = Some (bs ++ w, r).
Proof.
  intros Hb Hr. induction Hb as [|c bs (H1 & H2 & H3) _ IH]; [done|]. cbn [length Nat.add app readWord].
  rewrite (proj2 (Z.eqb_neq _ _) H1), (proj2 (Z.eqb_neq _ _) H2), IH.
  destruct q; [done|]. destruct (H3 eq_refl) as (H4 & H5 & H6). unfold blank.
  by rewrite (proj2 (Z.eqb_neq _ _) H4), (proj2 (Z.eqb_neq _ _) H5), (proj2 (Z.eqb_neq _ _) H6).
Qed.

Lemma readWord_escape n q e bs rest w r :
  readEscape (e ++ rest) = Some (bs, rest) → readWord n q rest = Some (w, r) →
  readWord (S n) q (92 :: e ++ rest) = Some (bs ++ w, r).
Proof. intros He Hr. cbn [readWord Z.eqb Pos.eqb]. rewrite He. cbn [mbind option_bind]. by rewrite Hr. Qed.

(** What a piece of quoted text reads as. *)
Definition readsAs (e bs : list Z) : Prop :=
  ∀ n rest w r, readWord n true rest = Some (w, r) →
    readWord (length e + n) true (e ++ rest) = Some (bs ++ w, r).

Lemma readsAs_verbatim bs : Forall (verbatim true) bs → readsAs bs bs.
Proof. intros H n rest w r. by apply readWord_verbatim. Qed.
Lemma readsAs_escape e bs : (∀ rest, readEscape (e ++ rest) = Some (bs, rest)) → readsAs (92 :: e) bs.
Proof.
  intros He n rest w r Hr. apply (readWord_mono (S n)); [|cbn [length]; lia].
  by apply (readWord_escape n true e).
Qed.
Lemma readsAs_app e1 b1 e2 b2 : readsAs e1 b1 → readsAs e2 b2 → readsAs (e1 ++ e2) (b1 ++ b2).
Proof.
  intros H1 H2 n rest w r Hr. rewrite length_app, <-Nat.add_assoc, <-!app_assoc. by apply H1, H2.
Qed.

Section Quote_reads.
Context (up : Z → bool).

Lemma IsPrint_range r : IsPrint up r = true → 0x20 ≤ r ∧ r ≠ 0x7f.
Proof. unfold IsPrint. case_if; intros H; lia. Qed.

Lemma escaped_reads r : rune_ok r = true → readsAs (appendEscapedRune up r) (encode_rune r).
Proof.
  intros Hr. pose proof (encode_rune_split r Hr) as Hs. unfold appendEscapedRune.
  destruct ((r =? 34) || (r =? 92)) eqn:E1.
  { apply orb_prop in E1 as [->%Z.eqb_eq | ->%Z.eqb_eq]; by apply (readsAs_escape [_]). }
  destruct (IsPrint up r) eqn:E2.
  { apply readsAs_verbatim. destruct Hs as [[_ ->]|[_ Hs]].
    - repeat constructor; lia.
    - eapply Forall_impl; [done|]. intros b Hb. cbn beta in Hb. repeat split; lia. }
  assert (∀ c e, encode_rune c = [c] → (∀ rest, readEscape (e ++ rest) = Some ([c], rest)) →
    readsAs (92 :: e) (encode_rune c)) as Hone by (intros c e ->; apply readsAs_escape).
  repeat match goal with |- readsAs (if r =? ?k then _ else _) _ =>
    destruct (Z.eqb_spec r k) as [->|?]; [by apply (Hone k)|] end.
  assert (0 ≤ r ≤ 0x10FFFF) as Hrange by (unfold rune_ok in Hr; lia).
  destruct ((r <? 32) || (r =? 0x7f)) eqn:E3.
  { assert (encode_rune r = [r]) as -> by (destruct Hs as [[_ ->]|[? _]]; [done|lia]).
    apply (readsAs_escape (120 :: hexN 2 r)). intros rest. unfold readEscape. cbn [app Z.eqb Pos.eqb orb].
    rewrite readHex_hexN by lia. done. }
  rewrite Hr. cbn [negb]. destruct (r <? 0x10000) eqn:E4.
  - apply (readsAs_escape (117 :: hexN 4 r)). intros rest. unfold readEscape. cbn [app Z.eqb Pos.eqb orb].
    rewrite readHex_hexN by lia. done.
  - apply (readsAs_escape (85 :: hexN 8 r)). intros rest. unfold readEscape. cbn [app Z.eqb Pos.eqb orb].
    rewrite readHex_hexN by lia. done.
Qed.

Lemma quoteChunk_reads c : chunkOk c → readsAs (quoteChunk up c) c.2.
Proof.
  intros [(b & -> & Hb)|[Hr He]].
  - cbn [quoteChunk snd]. rewrite Z.eqb_refl. apply (readsAs_escape (120 :: hexN 2 b)). intros rest.
    unfold readEscape. cbn [app Z.eqb Pos.eqb orb]. rewrite readHex_hexN by lia. done.
  - rewrite He. destruct c as [r bs]. cbn [fst snd] in *. subst bs. unfold quoteChunk.
    pose proof (encode_rune_split r Hr) as Hs. pose proof (escaped_reads r Hr) as Hok.
    destruct (encode_rune r) as [|b [|b' bs]] eqn:E; [done| |done].
    destruct (Z.eqb_spec r RuneError) as [->|?]; [by vm_compute in E|done].
Qed.

Lemma Quote_body_reads cs :
  Forall chunkOk cs → readsAs (concat (map (quoteChunk up) cs)) (concat (map snd cs)).
Proof.
  induction 1 as [|c cs Hc _ IH]; [by intros n rest w r|]. cbn [map concat].
  apply readsAs_app; [by apply quoteChunk_reads|done].
Qed.

(** A rest at which a word ends. *)
Definition ends (rest : list Z) : Prop := match rest with [] => True | c :: _ => blank c = true end.
Lemma readWord_ends rest : ends rest → readWord 1 false rest = Some ([], rest).
Proof.
  destruct rest as [|c rest]; [done|]. cbn [ends readWord negb andb]. unfold blank. intros H.
  destruct (Z.eqb_spec c 34) as [->|?]; [done|]. destruct (Z.eqb_spec c 92) as [->|?]; [done|]. by rewrite H.
Qed.

Lemma Quote_reads s rest :
  bytes_ok s → ends rest →
  readWord (S (length (Quote up s ++ rest))) false (Quote up s ++ rest) = Some (s, rest).
Proof.
  intros Hs Hr. destruct (chunks_spec s Hs) as (Hc & Hok & _).
  pose proof (Quote_body_reads _ Hok 2%nat (34 :: rest) [] rest (readWord_ends rest Hr)) as H.
  rewrite Hc, app_nil_r in H. unfold Quote. rewrite <-!app_assoc. cbn [app readWord Z.eqb Pos.eqb negb].
  eapply readWord_mono; [exact H|]. cbn [length]. rewrite !length_app. cbn [length]. lia.
Qed.
Lemma verbatim_reads s rest :
  Forall (verbatim false) s → ends rest → readWord (S (length (s ++ rest))) false (s ++ rest) = Some (s, rest).
Proof.
  intros Hs Hr. pose proof (readWord_verbatim 1%nat false s rest [] rest Hs (readWord_ends _ Hr)) as H.
  rewrite app_nil_r in H. eapply readWord_mono; [exact H|]. rewrite length_app. lia.
Qed.
End Quote_reads.

(** [x] is a text of the word [t]: read in front of a blank or the end it yields [t]. *)
Definition wordText (t x : list Z) : Prop :=
  (∃ c x', x = c :: x' ∧ blank c = false) ∧
  ∀ rest, ends rest → readWord (S (length (x ++ rest))) false (x ++ rest) = Some (t, rest).

Lemma wordText_Quote up s : bytes_ok s → wordText s (Quote up s).
Proof.
  intros Hs. split; [|intros rest; by apply Quote_reads].
  unfold Quote. cbn [app]. eauto.
Qed.
Lemma wordText_verbatim s : s ≠ [] → Forall (verbatim false) s → wordText s s.
Proof.
  intros Hne Hs. split; [|intros rest; by apply verbatim_reads]. destruct s as [|c s]; [done|].
  apply Forall_cons in Hs as [(_ & _ & H) _]. exists c, s. split; [done|]. unfold blank.
  destruct (H eq_refl) as (_ & H1 & H2). lia.
Qed.

Lemma readWords_join ts xs n :
  Forall2 wordText ts xs → (length (strings_Join [32%Z] xs) < n)%nat →
  readWords n (strings_Join [32] xs) = Some ts.
Proof.
  intros H. revert n. induction H as [|t x ts xs [(c & x' & -> & Hb) Hr] Hall IH]; intros n Hn.
  { destruct n; [cbn in Hn; lia|done]. }
  destruct n as [|n]; [lia|].
  assert (∃ rest, strings_Join [32] ((c :: x') :: xs) = (c :: x') ++ rest ∧ ends rest ∧
    (length rest < n → readWords n rest = Some ts)%nat) as (rest & E & He & IH').
  { destruct xs as [|y xs].
    - exists []. rewrite app_nil_r. inversion Hall; subst. split_and!; [done|done|]. by destruct n; [lia|].
    - exists (32 :: strings_Join [32] (y :: xs)). split_and!; [done|done|]. intros Hl.
      destruct n as [|n]; [lia|]. cbn [readWords blank Z.eqb Pos.eqb orb]. apply IH. cbn [length] in Hl. lia. }
  rewrite E in *. specialize (Hr rest He). rewrite <-app_comm_cons in *. cbn [readWords]. rewrite Hb, Hr.
  cbn [mbind option_bind]. rewrite IH'; [done|]. cbn [length] in Hn. rewrite length_app in Hn. lia.
Qed.
Lemma splitWords_join ts xs : Forall2 wordText ts xs → splitWords (strings_Join [32] xs) = Some ts.
Proof. intros H. apply readWords_join; [done|lia]. Qed.

(** ** Quoted text holds no control characters *)

Definition inline (b : Z) : Prop := 32 ≤ b ∧ b ≠ 127.

Lemma hexN_inline k v : Forall inline (hexN k v).
Proof.
  unfold hexN. apply Forall_map. eapply Forall_impl; [apply to_digits_ok; lia|]. intros d Hd. cbn in Hd.
  unfold inline, compose, hex_digit. case_if; lia.
Qed.
Lemma escaped_inline up r : rune_ok r = true → Forall inline (appendEscapedRune up r).
Proof.
  intros Hr. unfold appendEscapedRune. destruct ((r =? 34) || (r =? 92)) eqn:E; [repeat constructor; lia|].
  destruct (IsPrint up r) eqn:EP.
  { destruct (encode_rune_split r Hr) as [[_ ->]|[_ Hs]].
    - pose proof (IsPrint_range up r EP). repeat constructor; lia.
    - eapply Forall_impl; [done|]. cbn. unfold inline. intros; lia. }
  repeat case_if; try by repeat constructor.
  all: apply Forall_app; split; [by repeat constructor|apply hexN_inline].
Qed.
Lemma Quote_inline up s : bytes_ok s → Forall inline (Quote up s).
Proof.
  intros Hs. destruct (chunks_spec s Hs) as (_ & Hok & _). unfold Quote.
  apply Forall_app. split; [by repeat constructor|]. apply Forall_app. split; [|by repeat constructor].
  apply Forall_concat, Forall_map. eapply Forall_impl; [done|]. intros c [(b & -> & Hb)|[Hr He]]; unfold compose.
  - cbn [quoteChunk]. rewrite Z.eqb_refl. apply Forall_app. split; [by repeat constructor|apply hexN_inline].
  - destruct c as [r bs]. cbn [fst snd] in *. unfold quoteChunk. repeat case_match; try by apply escaped_inline.
    apply Forall_app. split; [by repeat constructor|apply hexN_inline].
Qed.

(** ** Paths hold the bytes of their elements *)

Section Join_Forall.
Context (P : Z → Prop) (H47 : P 47) (H46 : P 46).

Lemma strings_Split_Forall sep s : Forall P s → Forall (Forall P) (strings_Split sep s).
Proof using.
  induction 1 as [|c s Hc _ IH]; [by repeat constructor|]. cbn [strings_Split].
  destruct (c =? sep); [by constructor|].
  destruct (strings_Split sep s) as [|w ws]; [by repeat constructor|]. apply Forall_cons in IH as [? ?].
  by repeat constructor.
Qed.
Lemma strings_Join_Forall sep l : Forall P sep → Forall (Forall P) l → Forall P (strings_Join sep l).
Proof using.
  intros Hs. induction 1 as [|x l Hx Hl IH]; [done|]. destruct l as [|y l]; [done|].
  change (Forall P (x ++ sep ++ strings_Join sep (y :: l))). by repeat apply Forall_app_2.
Qed.
Lemma cleanStep_Forall rooted kept e : Forall (Forall P) kept → Forall P e → Forall (Forall P) (cleanStep rooted kept e).
Proof using.
  intros Hk He. unfold cleanStep. repeat case_match; try done; by repeat constructor || apply Forall_cons in Hk as [? ?].
Qed.
Lemma filepath_Clean_Forall s : Forall P s → Forall P (filepath_Clean s).
Proof using H47 H46.
  intros Hs. unfold filepath_Clean.
  assert (∀ r es kept, Forall (Forall P) kept → Forall (Forall P) es → Forall (Forall P) (foldl (cleanStep r) kept es)) as Hf.
  { intros r es. induction es as [|e es IH]; intros kept Hk He; [done|]. apply Forall_cons in He as [? ?].
    cbn [foldl]. apply IH; [by apply cleanStep_Forall|done]. }
  specialize (Hf (HasPrefix s [47]) (strings_Split 47 s) [] ltac:(constructor) (strings_Split_Forall 47 s Hs)).
  assert (Forall P (strings_Join [47] (reverse (foldl (cleanStep (HasPrefix s [47])) [] (strings_Split 47 s)))))
    by (apply strings_Join_Forall; [by repeat constructor|by apply Forall_reverse]).
  case_if; [by constructor|]. case_if; [by repeat constructor|done].
Qed.
Lemma filepath_Join_Forall es : Forall (Forall P) es → Forall P (filepath_Join es).
Proof using H47 H46.
  intros He. unfold filepath_Join.
  assert (Forall (Forall P) (List.filter (λ e, negb (bool_decide (e = []))) es)) as Hf.
  { induction He; cbn [List.filter]; [done|]. case_if; [by constructor|done]. }
  revert Hf. destruct (List.filter _ es); [done|]. intros Hf. apply filepath_Clean_Forall, strings_Join_Forall;
    [by repeat constructor|done].
Qed.
End Join_Forall.

Lemma filepath_Join_nonempty e es : e ≠ [] → filepath_Join (e :: es) ≠ [].
Proof.
  intros He. unfold filepath_Join. cbn [List.filter]. rewrite bool_decide_eq_false_2 by done. cbn [negb].
  unfold filepath_Clean. case_if; [done|]. case_bool_decide; done.
Qed.
