(* ===== verification/JsonOut.v ===== *)
(** * encoding/json output and the fmt verbs of the reports

    [json.Encoder] with [SetIndent] on the values the program prints (integers,
    booleans, strings, slices and structs), [Duration.String] and [Duration.Round],
    and the fixed-precision verbs [%.Nf] and [%.Ng].  What the encoder writes is
    read back by the parser of [Json]. *)
From S2P Require Import Prelude.
From S2P Require Import Float64.
From S2P Require Import Utf8.
From S2P Require Import Json.
From S2P Require Import Text.
From S2P Require Import Quoting.
From Stdlib Require Import SpecFloat.

Open Scope Z_scope.

(** [strconv.FormatInt(v, 10)]. *)
Definition FormatInt (v : Z) : list Z := if v <? 0 then 45 :: FormatUint (- v) else FormatUint v.

(** ** encoding/json *)

Inductive jout :=
  | OInt (v : Z)
  | OBool (b : bool)
  | OStr (s : list Z)
  | OArr (l : list jout)
  | OObj (l : list (list Z * jout)).

(** [appendString] with HTML escaping: one decoded rune of the text. *)
Definition jsonRune (c : Z * list Z) : list Z :=
  let '(r, bytes) := c in
  if r <? 128 then
    if r =? 34 then [92; 34]
    else if r =? 92 then [92; 92]
    else if r =? 8 then [92; 98]
    else if r =? 12 then [92; 102]
    else if r =? 10 then [92; 110]
    else if r =? 13 then [92; 114]
    else if r =? 9 then [92; 116]
    else if (r <? 32) || (r =? 60) || (r =? 62) || (r =? 38) then [92; 117; 48; 48] ++ hexN 2 r
    else bytes
  else if (r =? RuneError) && (length bytes =? 1)%nat then %"\ufffd"
  else if (r =? 0x2028) || (r =? 0x2029) then [92; 117] ++ hexN 4 r
  else bytes.
Definition jsonBody (s : list Z) : list Z := concat (map jsonRune (chunks s)).
Definition jsonString (s : list Z) : list Z := [34] ++ jsonBody s ++ [34].

(** A new line at nesting depth [d]. *)
Definition newline (d : nat) : list Z := 10 :: replicate (2 * d) 32.

(** The body of a compound value: items one deeper, separated by commas. *)
Definition items (d : nat) (l : list (list Z)) : list Z :=
  newline (S d) ++ strings_Join (44 :: newline (S d)) l ++ newline d.

Fixpoint encodeValue (d : nat) (v : jout) : list Z :=
  match v with
  | OInt n => FormatInt n
  | OBool b => if b then %"true" else %"false"
  | OStr s => jsonString s
  | OArr l =>
      match l with
      | [] => %"[]"
      | _ => [91] ++ items d (map (encodeValue (S d)) l) ++ [93]
      end
  | OObj l =>
      match l with
      | [] => %"{}"
      | _ => [123] ++ items d (map (λ kv, jsonString kv.1 ++ %": " ++ encodeValue (S d) kv.2) l) ++ [125]
      end
  end.
(** [enc.SetIndent("", "  "); enc.Encode(v)]. *)
Definition Encode (v : jout) : list Z := encodeValue 0 v ++ [10].

(** ** time.Duration *)

(** [fmtFrac]: the fraction [v / 10^prec] without trailing zeros. *)
Fixpoint fmtFrac (prec : nat) (print : bool) (v : Z) (acc : list Z) : list Z * Z :=
  match prec with
  | O => (if print then 46 :: acc else acc, v)
  | S prec =>
      let digit := v mod 10 in
      let print := print || negb (digit =? 0) in
      fmtFrac prec print (v / 10) (if print then digit + 48 :: acc else acc)
  end.
Definition Duration_String (d : Z) : list Z :=
  let u := Z.abs d in
  (if d <? 0 then [45] else []) ++
  (if u <? 10 ^ 9 then
     if u =? 0 then %"0s"
     else
       let '(prec, unit) := if u <? 1000 then (0%nat, %"ns")
                            else if u <? 10 ^ 6 then (3%nat, [0xC2; 0xB5; 115])
                            else (6%nat, %"ms") in
       let '(frac, u) := fmtFrac prec false u unit in
       FormatUint u ++ frac
   else
     let '(frac, u) := fmtFrac 9 false u (%"s") in
     let secs := FormatUint (u mod 60) ++ frac in
     let u := u / 60 in
     if u =? 0 then secs
     else
       let mins := FormatUint (u mod 60) ++ %"m" ++ secs in
       let u := u / 60 in
       if u =? 0 then mins else FormatUint u ++ %"h" ++ mins).
(** [d.Round(m)] for a non-negative [d]; [d.Milliseconds()]. *)
Definition Duration_Round (d m : Z) : Z :=
  let r := d mod m in if r + r <? m then d - r else d + m - r.
Definition Milliseconds (d : Z) : Z := Z.quot d (10 ^ 6).

(** ** Fixed precision *)

(** The integer nearest to [num / den], ties to even. *)
Definition roundEven (num den : Z) : Z :=
  let q := num / den in
  match 2 * (num mod den) ?= den with
  | Lt => q
  | Gt => q + 1
  | Eq => if Z.even q then q else q + 1
  end.
(** [m * 2^e * 10^k] as a fraction. *)
Definition scaled (m e k : Z) : Z * Z :=
  (m * 2 ^ Z.max 0 e * 10 ^ Z.max 0 k, 2 ^ Z.max 0 (- e) * 10 ^ Z.max 0 (- k)).
Definition signOf (neg : bool) : list Z := if neg then [45] else [].
(** The decimal digits of a natural number of any size. *)
Definition allDigits (v : Z) : list Z := formatDigits (S (Z.to_nat (Z.log2 v))) v.
(** [%.<prec>f]. *)
Definition Sprintf_f (prec : nat) (v : float64) : list Z :=
  let fixed (q : Z) :=
    let ds := allDigits q in
    let ds := replicate (S prec - length ds) 48 ++ ds in
    let int := take (length ds - prec) ds in
    if (prec =? 0)%nat then int else int ++ [46] ++ drop (length ds - prec) ds in
  match v with
  | S754_nan => %"NaN"
  | S754_infinity neg => if neg then %"-Inf" else %"+Inf"
  | S754_zero neg => signOf neg ++ fixed 0
  | S754_finite neg m e =>
      let '(num, den) := scaled (Zpos m) e (Z.of_nat prec) in
      signOf neg ++ fixed (roundEven num den)
  end.
Fixpoint trimZeros (ds : list Z) : list Z :=
  match ds with
  | [] => []
  | d :: t => match trimZeros t with
              | [] => if d =? 48 then [] else [d]
              | t => d :: t
              end
  end.
(** The decimal exponent: the least [k] with [m * 2^e < 10^k]. *)
Fixpoint decExp (fuel : nat) (k m e : Z) : Z :=
  match fuel with
  | O => k
  | S fuel => let '(num, den) := scaled m e (- k) in if num <? den then k else decExp fuel (k + 1) m e
  end.
(** [%.<prec>g], [prec > 0]. *)
Definition Sprintf_pg (prec : Z) (v : float64) : list Z :=
  match v with
  | S754_nan => %"NaN"
  | S754_infinity neg => if neg then %"-Inf" else %"+Inf"
  | S754_zero neg => signOf neg ++ [48]
  | S754_finite neg m e =>
      let dp := decExp 4 ((Z.log2 (Zpos m) + e) * 30103 / 100000 - 1) (Zpos m) e in
      let '(num, den) := scaled (Zpos m) e (prec - dp) in
      let q := roundEven num den in
      let '(q, dp) := if q =? 10 ^ prec then (q / 10, dp + 1) else (q, dp) in
      let ds := trimZeros (FormatUint q) in
      let nd := Z.of_nat (length ds) in
      let eprec := if (nd <? prec) && (dp <=? nd) then nd else prec in
      signOf neg ++ (if (dp - 1 <? -4) || (eprec <=? dp - 1) then fmtE ds dp else fmtF ds dp)
  end.

Example duration_examples :
  map Duration_String [0; 999; 1500; 42000000; 1500000000; 60000000000; 3723000000001; -2500000] =
  [%"0s"; %"999ns"; %"1.5" ++ [0xC2; 0xB5; 115]; %"42ms"; %"1.5s"; %"1m0s"; %"1h2m3.000000001s"; %"-2.5ms"].
Proof. vm_compute. reflexivity. Qed.
Example fixed_examples :
  [Sprintf_f 0 (f64_const 1201 10); Sprintf_f 0 (f64_const 5 2); Sprintf_f 1 (f64_const 1 4);
   Sprintf_f 1 (f64_const 123456 1000); Sprintf_f 1 fzero; Sprintf_f 0 (f64_const 1 3);
   Sprintf_f 2 (f64_of_Z (10 ^ 21))] =
  [%"120"; %"2"; %"0.2"; %"123.5"; %"0.0"; %"0"; %"1000000000000000000000.00"] ∧
  map (Sprintf_pg 4) [f64_const 1 2; f64_of_Z 1000; f64_of_Z 20000; f64_const 1 3; f64_of_Z 99999; f64_of_Z 100;
                      f64_const 12345678 1000; f64_const 1 100000; f64_const 25 10000; f64_of_Z (2 ^ 70)] =
  [%"0.5"; %"1000"; %"2e+04"; %"0.3333"; %"1e+05"; %"100"; %"1.235e+04"; %"1e-05"; %"0.0025"; %"1.181e+21"].
Proof. vm_compute. split; reflexivity. Qed.
Example encode_example :
  Encode (OObj [(%"a", OArr [OInt (-7); OBool true]); (%"b", OArr []); (%"c", OStr [60; 10; 34; 0xFF; 0xC3; 0xA9])]) =
  unlines [%"{"; dq "  'a': ["; %"    -7,"; %"    true"; %"  ],"; dq "  'b': [],";
           dq "  'c': '\u003c\n\" ++ [34] ++ %"\ufffd" ++ [0xC3; 0xA9; 34]; %"}"].
Proof. vm_compute. reflexivity. Qed.

(** * What the encoder writes reads back *)

(** The document a decoder sees: strings come out as valid UTF-8. *)
Definition digitsOf (v : Z) : list Z := map (λ c, c - 48) (FormatUint v).
Fixpoint decoded (v : jout) : json :=
  match v with
  | OInt n => JNum {| num_neg := n <? 0; num_int := digitsOf (Z.abs n); num_frac := None; num_exp := None |}
  | OBool b => JBool b
  | OStr s => JStr (string_of_runes (runes s))
  | OArr l => JArr (map decoded l)
  | OObj l => JObj (map (λ kv, (string_of_runes (runes kv.1), decoded kv.2)) l)
  end.

(** Values of Go's types: texts are bytes, integers are 64 bits wide, and
    encoding/json's nesting limit is not reached. *)
Fixpoint jout_ok (depth : nat) (v : jout) : Prop :=
  match v with
  | OInt n => - 2 ^ 63 ≤ n < 2 ^ 63
  | OBool _ => True
  | OStr s => bytes_ok s
  | OArr l => match depth with O => False | S d => Forall (jout_ok d) l end
  | OObj l => match depth with O => False | S d => Forall (λ kv, bytes_ok kv.1 ∧ jout_ok d kv.2) l end
  end.

Lemma jout_ok_inv n v :
  jout_ok n v →
  match v with
  | OInt k => - 2 ^ 63 ≤ k < 2 ^ 63
  | OBool _ => True
  | OStr s => bytes_ok s
  | OArr l => ∃ d, n = S d ∧ Forall (jout_ok d) l
  | OObj l => ∃ d, n = S d ∧ Forall (λ kv, bytes_ok kv.1 ∧ jout_ok d kv.2) l
  end.
Proof. destruct n, v; cbn [jout_ok]; eauto; done. Qed.

Lemma jout_ok_int n k : - 2 ^ 63 ≤ k < 2 ^ 63 → jout_ok n (OInt k).
Proof. by destruct n. Qed.
Lemma jout_ok_str n s : bytes_ok s → jout_ok n (OStr s).
Proof. by destruct n. Qed.
Lemma jout_ok_arr n l : Forall (jout_ok n) l → jout_ok (S n) (OArr l).
Proof. done. Qed.
Lemma jout_ok_obj n l : Forall (λ kv, bytes_ok kv.1 ∧ jout_ok n kv.2) l → jout_ok (S n) (OObj l).
Proof. done. Qed.

(** ** Strings *)

Lemma hex4_hexN r rest : 0 ≤ r < 0x10000 → hex4 (hexN 4 r ++ rest) = Some (r, rest).
Proof.
  intros Hr. unfold hexN. pose proof (to_digits_ok 16 4 r ltac:(lia)) as Hok.
  pose proof (mapM_hex_digits _ Hok) as Hm. pose proof (of_to_digits 16 4 r ltac:(lia)) as Hv.
  revert Hm Hv. pose proof (length_to_digits 16 4 r) as Hl. clear Hok.
  destruct (to_digits 16 4 r) as [|a [|b [|c [|d [|]]]]]; try discriminate Hl.
  intros Hm Hv. cbn [map app hex4] in *. rewrite Hm. cbn [mbind option_bind]. rewrite Hv by lia. done.
Qed.

Lemma hexN2_hex4 r : 0 ≤ r < 256 → [48; 48] ++ hexN 2 r = hexN 4 r.
Proof.
  intros Hr. unfold hexN, to_digits. cbn [app map].
  replace (r / 16 / 16) with 0 by (Z.to_euclidean_division_equations; lia). done.
Qed.

Lemma parse_escape_hex r rest :
  0 ≤ r < 0x10000 → is_surrogate r = false →
  parse_escape (117 :: hexN 4 r ++ rest) = Some (encode_rune r, rest).
Proof. intros Hr Hs. cbn [parse_escape]. rewrite hex4_hexN by done. cbn [mbind option_bind]. by rewrite Hs. Qed.

Lemma encode_ascii r : 0 ≤ r < 128 → encode_rune r = [r].
Proof. intros Hr. unfold encode_rune, rune_ok, encode_valid. do 2 if_lia. done. Qed.

(** An encoded rune that is not ASCII starts with a byte of two bits or more. *)
Lemma encode_head r : 128 ≤ r → ∃ b t, encode_rune r = b :: t ∧ 0xC2 ≤ b.
Proof.
  intros Hr. unfold encode_rune. assert (128 ≤ (if rune_ok r then r else RuneError)) as H
    by (case_match; unfold RuneError; lia).
  revert H. generalize (if rune_ok r then r else RuneError). intros v Hv. unfold encode_valid. if_lia.
  repeat case_if; do 2 eexists; (split; [done|]); Z.to_euclidean_division_equations; lia.
Qed.

Lemma parse_escaped n e b rest :
  parse_escape (e ++ rest) = Some (b, rest) →
  parse_string (S n) ((92 :: e) ++ rest) = '(t, r) ← parse_string n rest; Some (b ++ t, r).
Proof. intros H. cbn [app parse_string Z.eqb Pos.eqb]. rewrite H. done. Qed.

Lemma parse_literal n r rest :
  rune_ok r = true → 32 ≤ r → r ≠ 34 → r ≠ 92 →
  parse_string (S n) (encode_rune r ++ rest) = '(t, r') ← parse_string n rest; Some (encode_rune r ++ t, r').
Proof.
  intros Hok Hr H34 H92. pose proof (decode_encode r rest Hok) as HD.
  assert (∃ b t, encode_rune r = b :: t ∧ 32 ≤ b ∧ b ≠ 34 ∧ b ≠ 92) as (b & t & E & ? & ? & ?).
  { destruct (Z.lt_ge_cases r 128) as [Hl|Hg]; [exists r, []; rewrite encode_ascii by lia; done|].
    destruct (encode_head r Hg) as (b & t & E & Hb). exists b, t. split; [done|lia]. }
  assert (encode_rune r ++ rest = b :: t ++ rest) as Es by (by rewrite E).
  rewrite Es in *. cbn [parse_string]. do 3 if_lia. rewrite HD, <-Es. by rewrite drop_app_length.
Qed.

Lemma parse_jsonRune n c rest :
  chunkOk c →
  parse_string (S n) (jsonRune c ++ rest) = '(t, r) ← parse_string n rest; Some (encode_rune c.1 ++ t, r).
Proof.
  destruct c as [r bs]. intros [(b & [= -> ->] & Hb)|[Hr Hbs]]; cbn [fst snd] in *.
  { change (jsonRune (RuneError, [b])) with (92 :: 117 :: hexN 4 RuneError).
    rewrite (parse_escaped n (117 :: hexN 4 RuneError) (encode_rune RuneError) rest); [done|].
    by apply parse_escape_hex. }
  subst bs. unfold jsonRune. pose proof Hr as Hr0. unfold rune_ok in Hr0.
  destruct (Z.ltb_spec r 128) as [Hlt|Hge].
  - rewrite !encode_ascii by lia.
    repeat (match goal with |- context[if (r =? ?k) then _ else _] =>
      destruct (Z.eqb_spec r k) as [->|]; [by apply (parse_escaped n [_])|] end).
    destruct ((r <? 32) || (r =? 60) || (r =? 62) || (r =? 38)) eqn:E.
    + change ([92; 117; 48; 48] ++ hexN 2 r) with (92 :: 117 :: [48; 48] ++ hexN 2 r).
      rewrite hexN2_hex4 by lia.
      rewrite (parse_escaped n (117 :: hexN 4 r) [r] rest); [done|].
      cbn [app]. rewrite parse_escape_hex; [by rewrite encode_ascii by lia|lia|unfold is_surrogate; lia].
    + rewrite <-(encode_ascii r) by lia. by apply parse_literal; [| lia..].
  - destruct ((r =? RuneError) && (length (encode_rune r) =? 1)%nat) eqn:E1.
    { exfalso. apply andb_true_iff in E1 as [->%Z.eqb_eq E1]. vm_compute in E1. done. }
    destruct ((r =? 0x2028) || (r =? 0x2029)) eqn:E2; [|by apply parse_literal; [|lia..]].
    change ([92; 117] ++ hexN 4 r) with (92 :: 117 :: hexN 4 r).
    rewrite (parse_escaped n (117 :: hexN 4 r) (encode_rune r) rest); [done|].
    cbn [app]. apply parse_escape_hex; [lia|unfold is_surrogate; lia].
Qed.

Lemma parse_chunks n cs rest :
  Forall chunkOk cs → (length cs < n)%nat →
  parse_string n (concat (map jsonRune cs) ++ 34 :: rest) = Some (string_of_runes (map fst cs), rest).
Proof.
  intros H. revert n. induction H as [|c cs Hc _ IH]; intros n Hn; (destruct n as [|n]; [cbn in Hn; lia|]).
  - done.
  - cbn [map concat]. rewrite <-app_assoc, parse_jsonRune by done.
    rewrite IH by (cbn in Hn; lia). done.
Qed.

Lemma jsonRune_nonempty c : chunkOk c → (1 ≤ length (jsonRune c))%nat.
Proof.
  destruct c as [r bs]. intros Hc. assert (1 ≤ length bs)%nat.
  { destruct Hc as [(b & [= -> ->] & _)|[_ E]]; [done|]. cbn [fst snd] in E. subst bs. apply length_encode_rune. }
  unfold jsonRune. repeat case_if; cbn; lia.
Qed.

Lemma parse_jsonString s rest :
  bytes_ok s →
  parse_string (length (jsonBody s ++ 34 :: rest)) (jsonBody s ++ 34 :: rest) =
    Some (string_of_runes (runes s), rest).
Proof.
  intros Hs. destruct (chunks_spec s Hs) as (_ & Hok & <-). apply parse_chunks; [done|].
  unfold jsonBody. rewrite length_app. cbn [length].
  enough (length (chunks s) ≤ length (concat (map jsonRune (chunks s))))%nat by lia.
  induction Hok as [|c cs Hc _ IH]; [done|]. cbn [map concat length]. rewrite length_app.
  pose proof (jsonRune_nonempty c Hc). lia.
Qed.

(** ** Numbers *)

(** What may follow a number: nothing that continues it. *)
Definition stops (rest : list Z) : Prop :=
  match rest with [] => True | c :: _ => digit_val c = None ∧ c ≠ 46 ∧ c ≠ 101 ∧ c ≠ 69 end.

Lemma span_digits_app l ds rest :
  mapM digit_val l = Some ds → stops rest → span_digits (l ++ rest) = (ds, rest).
Proof.
  intros H Hr. apply mapM_Some in H. induction H as [|c d l ds Hc _ IH]; cbn [app span_digits].
  - destruct rest as [|c rest]; [done|]. cbn [stops span_digits] in *. by destruct Hr as [-> _].
  - by rewrite Hc, IH.
Qed.

Lemma formatDigits_digits fuel v :
  0 ≤ v → mapM digit_val (formatDigits fuel v) = Some (map (λ c, c - 48) (formatDigits fuel v)).
Proof.
  intros Hv. apply mapM_Some. revert v Hv. induction fuel as [|fuel IH]; intros v Hv; cbn [formatDigits map]; [done|].
  assert (∀ d, 0 ≤ d < 10 → digit_val (d + 48) = Some (d + 48 - 48)) as Hd.
  { intros d Hd. unfold digit_val. by if_lia. }
  case_if; [constructor; [apply Hd; lia|done]|]. rewrite map_app. apply Forall2_app; [apply IH; by apply Z.div_pos|].
  constructor; [|done]. apply Hd. by apply Z.mod_pos_bound.
Qed.

Lemma formatDigits_head fuel v t :
  0 ≤ v < 10 ^ Z.of_nat fuel → formatDigits fuel v = 48 :: t → t = [].
Proof.
  revert v t. induction fuel as [|fuel IH]; intros v t Hv; cbn [formatDigits]; [done|].
  rewrite Nat2Z.inj_succ, Z.pow_succ_r in Hv by lia.
  case_if; [by intros [= _ <-]|]. destruct fuel as [|fuel]; [change (10 ^ Z.of_nat 0) with 1 in Hv; lia|].
  destruct (formatDigits (S fuel) (v / 10)) as [|c l] eqn:E; [by apply formatDigits_nonempty in E|].
  intros [= -> _]. assert (0 ≤ v / 10 < 10 ^ Z.of_nat (S fuel)) as Hb by (Z.to_euclidean_division_equations; lia).
  pose proof (IH (v / 10) l Hb E) as ->. exfalso.
  destruct (formatDigits_ok (S fuel) (v / 10) Hb) as (ds & Hm & Ho & _). rewrite E in Hm.
  injection Hm as <-. cbn in Ho. Z.to_euclidean_division_equations. lia.
Qed.

Lemma digitsOf_value v : 0 ≤ v < 10 ^ 20 → of_digits 10 (digitsOf v) = v.
Proof.
  intros Hv. destruct (formatDigits_ok 20 v Hv) as (ds & Hm & Ho & _).
  rewrite formatDigits_digits in Hm by lia. apply (inj Some) in Hm. unfold digitsOf, FormatUint. by rewrite Hm.
Qed.

Lemma decoded_int n : - 2 ^ 63 ≤ n < 2 ^ 63 → as_int (decoded (OInt n)) = Some n.
Proof.
  intros Hn. cbn [decoded as_int]. unfold num_int64. cbn [num_frac num_exp num_neg num_int].
  rewrite digitsOf_value by lia. destruct (Z.ltb_spec n 0); if_lia; f_equal; lia.
Qed.

Lemma parse_number_FormatInt v rest :
  - 2 ^ 63 ≤ v < 2 ^ 63 → stops rest →
  parse_number (FormatInt v ++ rest) =
    Some ({| num_neg := v <? 0; num_int := digitsOf (Z.abs v); num_frac := None; num_exp := None |}, rest).
Proof.
  intros Hv Hr.
  assert (∃ c t, FormatUint (Z.abs v) = c :: t ∧ 48 ≤ c ≤ 57 ∧ (c = 48 → t = [])) as (c & t & E & Hc & Hz).
  { destruct (FormatUint (Z.abs v)) as [|c t] eqn:E; [by apply formatDigits_nonempty in E|]. exists c, t.
    split; [done|]. split; [|intros ->; by apply (formatDigits_head 20 (Z.abs v)); [lia|]].
    pose proof (formatDigits_digits 20 (Z.abs v) ltac:(lia)) as Hm. fold (FormatUint (Z.abs v)) in Hm.
    rewrite E in Hm. cbn [mapM] in Hm. destruct (digit_val c) eqn:Ed; [|done]. unfold digit_val in Ed.
    case_match; [lia|done]. }
  assert (span_digits (FormatUint (Z.abs v) ++ rest) = (digitsOf (Z.abs v), rest)) as Hs.
  { apply span_digits_app; [apply formatDigits_digits; lia|done]. }
  assert (parse_frac rest = Some (None, rest) ∧ parse_exp rest = Some (None, rest)) as [Hf He].
  { destruct rest as [|x rest]; [done|]. cbn [stops] in Hr. destruct Hr as (_ & H46 & H101 & H69). split.
    - unfold parse_frac. repeat case_match; done.
    - unfold parse_exp. by if_lia. }
  assert (∀ w, digitsOf (Z.abs v) = 0 :: w → w = []) as Hlead.
  { intros w. unfold digitsOf. rewrite E. cbn [map]. intros [= Hc0 <-]. by rewrite Hz by lia. }
  unfold FormatInt. destruct (Z.ltb_spec v 0) as [Hneg|Hpos].
  all: first [replace (Z.abs v) with (- v) in * by lia|replace (Z.abs v) with v in * by lia].
  all: unfold parse_number.
  - cbn [app]. rewrite Hs. destruct (digitsOf (- v)) as [|d ds] eqn:Ed; [by rewrite E in *; unfold digitsOf in Ed; rewrite E in Ed|].
    destruct d as [|p|p]; [rewrite (Hlead ds eq_refl)|..]; rewrite Hf; cbn [mbind option_bind]; rewrite He; done.
  - assert (match FormatUint v ++ rest with 45 :: t0 => (true, t0) | _ => (false, FormatUint v ++ rest) end =
            (false, FormatUint v ++ rest)) as ->.
    { rewrite E. cbn [app]. repeat case_match; subst; try done; lia. }
    rewrite Hs. destruct (digitsOf v) as [|d ds] eqn:Ed; [by unfold digitsOf in Ed; rewrite E in Ed|].
    destruct d as [|p|p]; [rewrite (Hlead ds eq_refl)|..]; rewrite Hf; cbn [mbind option_bind]; rewrite He; done.
Qed.

(** ** Documents *)

Lemma jout_ind' (P : jout → Prop) :
  (∀ n, P (OInt n)) → (∀ b, P (OBool b)) → (∀ s, P (OStr s)) →
  (∀ l, Forall P l → P (OArr l)) → (∀ l, Forall (λ kv, P kv.2) l → P (OObj l)) → ∀ v, P v.
Proof.
  intros Hn Hb Hs Ha Ho. fix IH 1. intros [n|b|s|l|l]; [apply Hn|apply Hb|apply Hs|apply Ha|apply Ho].
  - induction l; constructor; auto.
  - induction l as [|[k v] l]; constructor; auto.
Qed.

(** The fuel the parser needs for a value. *)
Fixpoint need (v : jout) : nat :=
  match v with
  | OArr l => S (foldr (λ v n, S (Nat.max (need v) n)) O l)
  | OObj l => S (foldr (λ kv n, S (Nat.max (need kv.2) n)) O l)
  | _ => 1
  end.

Lemma strings_Join_cons2 sep x y l : strings_Join sep (x :: y :: l) = x ++ sep ++ strings_Join sep (y :: l).
Proof. done. Qed.

Definition ws_ok (w : list Z) : Prop := Forall (λ c, is_ws c = true) w.

Lemma newline_ws d : ws_ok (newline d).
Proof. constructor; [done|]. by apply Forall_replicate. Qed.
Lemma skip_ws_app w s : ws_ok w → skip_ws (w ++ s) = skip_ws s.
Proof. induction 1 as [|c w Hc _ IH]; [done|]. cbn [app skip_ws]. by rewrite Hc. Qed.

(** The first byte of a value. *)
Lemma FormatInt_head n : - 2 ^ 63 ≤ n < 2 ^ 63 → ∃ c t, FormatInt n = c :: t ∧ c ∈ [45; 48; 49; 50; 51; 52; 53; 54; 55; 56; 57].
Proof.
  intros Hn. unfold FormatInt. case_if; [exists 45, (FormatUint (- n)); split; [done|set_solver]|].
  destruct (FormatUint n) as [|c t] eqn:E; [by apply formatDigits_nonempty in E|]. exists c, t. split; [done|].
  pose proof (formatDigits_digits 20 n ltac:(lia)) as Hm. fold (FormatUint n) in Hm. rewrite E in Hm.
  cbn [mapM] in Hm. destruct (digit_val c) eqn:Ed; [|done]. unfold digit_val in Ed.
  case_match; [|done]. assert (c = 48 ∨ c = 49 ∨ c = 50 ∨ c = 51 ∨ c = 52 ∨ c = 53 ∨ c = 54 ∨ c = 55 ∨ c = 56 ∨ c = 57) as Hc by lia.
  set_solver.
Qed.

Lemma encodeValue_head d n v :
  jout_ok n v → ∃ c t, encodeValue d v = c :: t ∧ is_ws c = false ∧ c ≠ 93 ∧ c ≠ 125 ∧ c ≠ 44.
Proof.
  intros Hok%jout_ok_inv. destruct v as [k|b|s|l|l].
  - destruct (FormatInt_head k Hok) as (c & t & E & Hc). exists c, t. split; [done|].
    set_unfold in Hc. by destruct_or! Hc; subst c.
  - by destruct b; do 2 eexists.
  - by do 2 eexists.
  - destruct l; by do 2 eexists.
  - destruct l; by do 2 eexists.
Qed.

Lemma skip_ws_value d n v rest :
  jout_ok n v → skip_ws (encodeValue d v ++ rest) = encodeValue d v ++ rest.
Proof.
  intros Hok. destruct (encodeValue_head d n v Hok) as (c & t & -> & Hc & _). cbn [app skip_ws]. by rewrite Hc.
Qed.

Lemma stops_newline d rest : stops (newline d ++ rest).
Proof. by cbn. Qed.
Lemma stops_comma rest : stops (44 :: rest).
Proof. by cbn. Qed.

(** The statement proved by induction on the value. *)
Definition readsBack (v : jout) : Prop :=
  ∀ n d fuel depth w rest,
    jout_ok n v → depth + Z.of_nat n ≤ maxNestingDepth → (need v ≤ fuel)%nat → ws_ok w → stops rest →
    parse_value fuel depth (w ++ encodeValue d v ++ rest) = Some (decoded v, rest).

Lemma elements_read d n l fuel depth w rest :
  Forall readsBack l → Forall (jout_ok n) l → l ≠ [] → depth + Z.of_nat n ≤ maxNestingDepth →
  (foldr (λ v n, S (Nat.max (need v) n)) O l ≤ fuel)%nat → ws_ok w →
  parse_elements fuel depth
    (w ++ strings_Join (44 :: newline (S d)) (map (encodeValue (S d)) l) ++ newline d ++ 93 :: rest) =
    Some (map decoded l, rest).
Proof.
  intros HR Hok. revert fuel w. induction HR as [|v l Hv HR IH]; intros fuel w Hne Hd Hf Hw; [done|].
  apply Forall_cons in Hok as [Hov Hol]. cbn [foldr] in Hf. destruct fuel as [|fuel]; [lia|].
  cbn [parse_elements map]. destruct l as [|v' l].
  - cbn [map strings_Join]. rewrite (Hv n); [|done..|lia|done|apply stops_newline].
    cbn [mbind option_bind]. rewrite skip_ws_app by apply newline_ws. done.
  - cbn [map]. rewrite strings_Join_cons2, <-!app_assoc. cbn [app].
    rewrite (Hv n); [|done..|lia|done|apply stops_comma]. cbn [mbind option_bind skip_ws is_ws Z.eqb Pos.eqb orb].
    pose proof (IH Hol fuel (newline (S d)) ltac:(done) Hd ltac:(lia) (newline_ws _)) as E.
    cbn [map app] in E. by rewrite E.
Qed.

Lemma members_read d n l fuel depth w rest :
  Forall (λ kv, readsBack kv.2) l → Forall (λ kv, bytes_ok kv.1 ∧ jout_ok n kv.2) l → l ≠ [] →
  depth + Z.of_nat n ≤ maxNestingDepth →
  (foldr (λ kv n, S (Nat.max (need kv.2) n)) O l ≤ fuel)%nat → ws_ok w →
  parse_members fuel depth
    (w ++ strings_Join (44 :: newline (S d))
            (map (λ kv, jsonString kv.1 ++ %": " ++ encodeValue (S d) kv.2) l) ++ newline d ++ 125 :: rest) =
    Some (map (λ kv, (string_of_runes (runes kv.1), decoded kv.2)) l, rest).
Proof.
  intros HR Hok. revert fuel w. induction HR as [|[k v] l Hv HR IH]; intros fuel w Hne Hd Hf Hw; [done|].
  apply Forall_cons in Hok as [[Hk Hov] Hol]. cbn [foldr fst snd] in *. destruct fuel as [|fuel]; [lia|].
  assert (∀ rest, stops rest →
    parse_value fuel depth (32 :: encodeValue (S d) v ++ rest) = Some (decoded v, rest)) as Hval.
  { intros r Hr. apply (Hv n _ _ _ [32]); [done..|lia| |done]. by constructor. }
  change (%": ") with [58; 32] in *.
  cbn [parse_members map fst snd]. rewrite skip_ws_app by done. destruct l as [|kv l].
  - cbn [map strings_Join]. unfold jsonString. rewrite <-!app_assoc. cbn [app skip_ws is_ws Z.eqb Pos.eqb orb].
    rewrite parse_jsonString by done. cbn [mbind option_bind app skip_ws is_ws Z.eqb Pos.eqb orb].
    rewrite Hval by apply stops_newline. cbn [mbind option_bind]. rewrite skip_ws_app by apply newline_ws. done.
  - cbn [map]. rewrite strings_Join_cons2. unfold jsonString at 1. rewrite <-!app_assoc.
    cbn [app skip_ws is_ws Z.eqb Pos.eqb orb]. rewrite parse_jsonString by done.
    cbn [mbind option_bind app skip_ws is_ws Z.eqb Pos.eqb orb].
    rewrite Hval by apply stops_comma. cbn [mbind option_bind skip_ws is_ws Z.eqb Pos.eqb orb].
    pose proof (IH Hol fuel (newline (S d)) ltac:(done) Hd ltac:(lia) (newline_ws _)) as E.
    cbn [map app] in E. by rewrite E.
Qed.

Lemma join_head sep c t l : ∃ t', strings_Join sep ((c :: t) :: l) = c :: t'.
Proof. destruct l as [|y l]; by eexists. Qed.

(** After the opening bracket of a compound value comes a value. *)
Lemma body_head d c t l tail :
  is_ws c = false →
  ∃ t', skip_ws (newline (S d) ++ strings_Join (44 :: newline (S d)) ((c :: t) :: l) ++ tail) = c :: t'.
Proof.
  intros Hc. rewrite skip_ws_app by apply newline_ws. destruct (join_head (44 :: newline (S d)) c t l) as [t' ->].
  cbn [app skip_ws]. rewrite Hc. by eexists.
Qed.

Lemma value_reads v : readsBack v.
Proof.
  induction v as [k|b|s|l HR|l HR] using jout_ind'; intros n d fuel depth w rest Hok Hd Hf Hw Hr;
    (destruct fuel as [|fuel]; [cbn in Hf; lia|]); cbn [parse_value]; rewrite skip_ws_app by done;
    rewrite (skip_ws_value d n) by done; apply jout_ok_inv in Hok.
  - destruct (FormatInt_head k Hok) as (c & t & E & Hc). cbn [encodeValue decoded].
    pose proof (parse_number_FormatInt k rest Hok Hr) as HP. rewrite E in *. cbn [app] in *.
    set_unfold in Hc. by destruct_or! Hc; subst c; rewrite HP.
  - by destruct b.
  - cbn [encodeValue]. unfold jsonString. rewrite <-!app_assoc. cbn [app].
    rewrite parse_jsonString by done. done.
  - destruct Hok as (n' & -> & Hok). destruct l as [|v l].
    { cbn. unfold maxNestingDepth in *. by if_lia. }
    cbn [encodeValue need] in *. unfold items. rewrite <-!app_assoc. cbn [app]. if_lia.
    pose proof (elements_read d n' (v :: l) fuel (depth + 1) (newline (S d)) rest HR Hok ltac:(done)
      ltac:(lia) ltac:(lia) (newline_ws _)) as HE.
    apply Forall_cons in Hok as [Hov _]. destruct (encodeValue_head (S d) n' v Hov) as (c & t & Ec & Hc & H93 & _).
    cbn [map] in *. rewrite Ec in *. destruct (body_head d c t (map (encodeValue (S d)) l)
      (newline d ++ 93 :: rest) Hc) as [t' ->]. rewrite HE. cbn [mbind option_bind decoded map]. repeat case_match; congruence.
  - destruct Hok as (n' & -> & Hok). destruct l as [|[k v] l].
    { cbn. unfold maxNestingDepth in *. by if_lia. }
    cbn [encodeValue need] in *. unfold items. rewrite <-!app_assoc. cbn [app]. if_lia.
    pose proof (members_read d n' ((k, v) :: l) fuel (depth + 1) (newline (S d)) rest HR Hok ltac:(done)
      ltac:(lia) ltac:(lia) (newline_ws _)) as HE.
    cbn [map fst snd] in *.
    change (jsonString k ++ %": " ++ encodeValue (S d) v)
      with (34 :: ((jsonBody k ++ [34]) ++ %": " ++ encodeValue (S d) v)) in *.
    destruct (body_head d 34 ((jsonBody k ++ [34]) ++ %": " ++ encodeValue (S d) v)
      (map (λ kv, jsonString kv.1 ++ %": " ++ encodeValue (S d) kv.2) l) (newline d ++ 125 :: rest) eq_refl) as [t' ->]. by rewrite HE.
Qed.

(** ** Fuel *)

Lemma length_join_ge sep (l : list (list Z)) :
  (1 ≤ length sep)%nat → l ≠ [] → (sum_list_with length l + length l ≤ S (length (strings_Join sep l)))%nat.
Proof.
  intros Hs. induction l as [|x l IH]; intros Hne; [done|]. destruct l as [|y l]; [cbn; lia|].
  specialize (IH ltac:(done)). rewrite strings_Join_cons2, !length_app. cbn [sum_list_with length] in *. lia.
Qed.

Lemma need_length v : ∀ d n, jout_ok n v → (need v ≤ length (encodeValue d v))%nat.
Proof.
  induction v as [k|b|s|l HR|l HR] using jout_ind'; intros d n Hok.
  - destruct (encodeValue_head d n _ Hok) as (c & t & -> & _). cbn; lia.
  - destruct (encodeValue_head d n _ Hok) as (c & t & -> & _). cbn; lia.
  - destruct (encodeValue_head d n _ Hok) as (c & t & -> & _). cbn; lia.
  - apply jout_ok_inv in Hok as (n' & -> & Hok). destruct l as [|v l]; [cbn; lia|].
    cbn [encodeValue need]. unfold items. rewrite !length_app. cbn [length].
    pose proof (length_join_ge (44 :: newline (S d)) (map (encodeValue (S d)) (v :: l)) ltac:(cbn; lia) ltac:(done)) as HL.
    enough (foldr (λ v n, S (Nat.max (need v) n)) O (v :: l) ≤
      sum_list_with length (map (encodeValue (S d)) (v :: l)) + length (map (encodeValue (S d)) (v :: l)))%nat by (cbn [length newline] in *; lia).
    clear HL. revert Hok HR. generalize (v :: l). clear v l. intros l Hok HR.
    induction HR as [|v l Hv _ IH]; [cbn; lia|]. apply Forall_cons in Hok as [Hov Hol].
    specialize (IH Hol). specialize (Hv (S d) n' Hov). cbn [foldr map sum_list_with length] in *. lia.
  - apply jout_ok_inv in Hok as (n' & -> & Hok). destruct l as [|kv l]; [cbn; lia|].
    cbn [encodeValue need]. unfold items. rewrite !length_app. cbn [length].
    set (f := λ kv : list Z * jout, jsonString kv.1 ++ %": " ++ encodeValue (S d) kv.2).
    pose proof (length_join_ge (44 :: newline (S d)) (map f (kv :: l)) ltac:(cbn; lia) ltac:(done)) as HL.
    enough (foldr (λ kv n, S (Nat.max (need kv.2) n)) O (kv :: l) ≤
      sum_list_with length (map f (kv :: l)) + length (map f (kv :: l)))%nat by (cbn [length newline] in *; lia).
    clear HL. revert Hok HR. generalize (kv :: l). clear kv l. intros l Hok HR.
    induction HR as [|v l Hv _ IH]; [cbn; lia|]. apply Forall_cons in Hok as [[_ Hov] Hol].
    specialize (IH Hol). specialize (Hv (S d) n' Hov). cbn [foldr map sum_list_with length] in *.
    assert (length (encodeValue (S d) v.2) ≤ length (f v))%nat by (unfold f; rewrite !length_app; lia). lia.
Qed.

(** What [Encode] writes is one JSON document, and it reads back as the value. *)
Lemma Encode_reads v : jout_ok 100 v → json_parse (Encode v) = Some (decoded v).
Proof.
  intros Hok. unfold json_parse, Encode. pose proof (need_length v 0 100 Hok).
  rewrite (value_reads v 100%nat 0%nat _ 0 [] [10]); [done|done|unfold maxNestingDepth; lia| |constructor|done].
  rewrite length_app. cbn [length]. lia.
Qed.
