(* ===== verification/WordList.v ===== *)
(** * internal/lightning/english_wordlist.go

    The BIP-39 English word list, byte for byte, with what makes it a word list:
    [NewWordList] accepts it, it is sorted, and four letters tell its words
    apart. *)
From S2P Require Import Prelude.
From S2P Require Import Sha256.
From S2P Require Import Utf8.
From S2P Require Import Json.
From S2P Require Import Text.
From S2P Require Import Bech32.
From S2P Require Import Quoting.
From S2P Require Import Seed.

Open Scope Z_scope.

(** ** The raw list, by initial letter *)

Definition words_a : string := "abandon
ability
able
about
above
absent
absorb
abstract
absurd
abuse
access
accident
account
accuse
achieve
acid
acoustic
acquire
across
act
action
actor
actress
actual
adapt
add
addict
address
adjust
admit
adult
advance
advice
aerobic
affair
afford
afraid
again
age
agent
agree
ahead
aim
air
airport
aisle
alarm
album
alcohol
alert
alien
all
alley
allow
almost
alone
alpha
already
also
alter
always
amateur
amazing
among
amount
amused
analyst
anchor
ancient
anger
angle
angry
animal
ankle
announce
annual
another
answer
antenna
antique
anxiety
any
apart
apology
appear
apple
approve
april
arch
arctic
area
arena
argue
arm
armed
armor
army
around
arrange
arrest
arrive
arrow
art
artefact
artist
artwork
ask
aspect
assault
asset
assist
assume
asthma
athlete
atom
attack
attend
attitude
attract
auction
audit
august
aunt
author
auto
autumn
average
avocado
avoid
awake
aware
away
awesome
awful
awkward
axis
"%string.
Definition words_b : string := "baby
bachelor
bacon
badge
bag
balance
balcony
ball
bamboo
banana
banner
bar
barely
bargain
barrel
base
basic
basket
battle
beach
bean
beauty
because
become
beef
before
begin
behave
behind
believe
below
belt
bench
benefit
best
betray
better
between
beyond
bicycle
bid
bike
bind
biology
bird
birth
bitter
black
blade
blame
blanket
blast
bleak
bless
blind
blood
blossom
blouse
blue
blur
blush
board
boat
body
boil
bomb
bone
bonus
book
boost
border
boring
borrow
boss
bottom
bounce
box
boy
bracket
brain
brand
brass
brave
bread
breeze
brick
bridge
brief
bright
bring
brisk
broccoli
broken
bronze
broom
brother
brown
brush
bubble
buddy
budget
buffalo
build
bulb
bulk
bullet
bundle
bunker
burden
burger
burst
bus
business
busy
butter
buyer
buzz
"%string.
Definition words_c1 : string := "cabbage
cabin
cable
cactus
cage
cake
call
calm
camera
camp
can
canal
cancel
candy
cannon
canoe
canvas
canyon
capable
capital
captain
car
carbon
card
cargo
carpet
carry
cart
case
cash
casino
castle
casual
cat
catalog
catch
category
cattle
caught
cause
caution
cave
ceiling
celery
cement
census
century
cereal
certain
chair
chalk
champion
change
chaos
chapter
charge
chase
chat
cheap
check
cheese
chef
cherry
chest
chicken
chief
child
chimney
choice
choose
chronic
chuckle
chunk
churn
cigar
cinnamon
circle
citizen
city
civil
claim
clap
clarify
claw
clay
clean
clerk
clever
click
client
cliff
climb
clinic
"%string.
Definition words_c2 : string := "clip
clock
clog
close
cloth
cloud
clown
club
clump
cluster
clutch
coach
coast
coconut
code
coffee
coil
coin
collect
color
column
combine
come
comfort
comic
common
company
concert
conduct
confirm
congress
connect
consider
control
convince
cook
cool
copper
copy
coral
core
corn
correct
cost
cotton
couch
country
couple
course
cousin
cover
coyote
crack
cradle
craft
cram
crane
crash
crater
crawl
crazy
cream
credit
creek
crew
cricket
crime
crisp
critic
crop
cross
crouch
crowd
crucial
cruel
cruise
crumble
crunch
crush
cry
crystal
cube
culture
cup
cupboard
curious
current
curtain
curve
cushion
custom
cute
cycle
"%string.
Definition words_d : string := "dad
damage
damp
dance
danger
daring
dash
daughter
dawn
day
deal
debate
debris
decade
december
decide
decline
decorate
decrease
deer
defense
define
defy
degree
delay
deliver
demand
demise
denial
dentist
deny
depart
depend
deposit
depth
deputy
derive
describe
desert
design
desk
despair
destroy
detail
detect
develop
device
devote
diagram
dial
diamond
diary
dice
diesel
diet
differ
digital
dignity
dilemma
dinner
dinosaur
direct
dirt
disagree
discover
disease
dish
dismiss
disorder
display
distance
divert
divide
divorce
dizzy
doctor
document
dog
doll
dolphin
domain
donate
donkey
donor
door
dose
double
dove
draft
dragon
drama
drastic
draw
dream
dress
drift
drill
drink
drip
drive
drop
drum
dry
duck
dumb
dune
during
dust
dutch
duty
dwarf
dynamic
"%string.
Definition words_e : string := "eager
eagle
early
earn
earth
easily
east
easy
echo
ecology
economy
edge
edit
educate
effort
egg
eight
either
elbow
elder
electric
elegant
element
elephant
elevator
elite
else
embark
embody
embrace
emerge
emotion
employ
empower
empty
enable
enact
end
endless
endorse
enemy
energy
enforce
engage
engine
enhance
enjoy
enlist
enough
enrich
enroll
ensure
enter
entire
entry
envelope
episode
equal
equip
era
erase
erode
erosion
error
erupt
escape
essay
essence
estate
eternal
ethics
evidence
evil
evoke
evolve
exact
example
excess
exchange
excite
exclude
excuse
execute
exercise
exhaust
exhibit
exile
exist
exit
exotic
expand
expect
expire
explain
expose
express
extend
extra
eye
eyebrow
"%string.
Definition words_f : string := "fabric
face
faculty
fade
faint
faith
fall
false
fame
family
famous
fan
fancy
fantasy
farm
fashion
fat
fatal
father
fatigue
fault
favorite
feature
february
federal
fee
feed
feel
female
fence
festival
fetch
fever
few
fiber
fiction
field
figure
file
film
filter
final
find
fine
finger
finish
fire
firm
first
fiscal
fish
fit
fitness
fix
flag
flame
flash
flat
flavor
flee
flight
flip
float
flock
floor
flower
fluid
flush
fly
foam
focus
fog
foil
fold
follow
food
foot
force
forest
forget
fork
fortune
forum
forward
fossil
foster
found
fox
fragile
frame
frequent
fresh
friend
fringe
frog
front
frost
frown
frozen
fruit
fuel
fun
funny
furnace
fury
future
"%string.
Definition words_g : string := "gadget
gain
galaxy
gallery
game
gap
garage
garbage
garden
garlic
garment
gas
gasp
gate
gather
gauge
gaze
general
genius
genre
gentle
genuine
gesture
ghost
giant
gift
giggle
ginger
giraffe
girl
give
glad
glance
glare
glass
glide
glimpse
globe
gloom
glory
glove
glow
glue
goat
goddess
gold
good
goose
gorilla
gospel
gossip
govern
gown
grab
grace
grain
grant
grape
grass
gravity
great
green
grid
grief
grit
grocery
group
grow
grunt
guard
guess
guide
guilt
guitar
gun
gym
"%string.
Definition words_h : string := "habit
hair
half
hammer
hamster
hand
happy
harbor
hard
harsh
harvest
hat
have
hawk
hazard
head
health
heart
heavy
hedgehog
height
hello
helmet
help
hen
hero
hidden
high
hill
hint
hip
hire
history
hobby
hockey
hold
hole
holiday
hollow
home
honey
hood
hope
horn
horror
horse
hospital
host
hotel
hour
hover
hub
huge
human
humble
humor
hundred
hungry
hunt
hurdle
hurry
hurt
husband
hybrid
"%string.
Definition words_i : string := "ice
icon
idea
identify
idle
ignore
ill
illegal
illness
image
imitate
immense
immune
impact
impose
improve
impulse
inch
include
income
increase
index
indicate
indoor
industry
infant
inflict
inform
inhale
inherit
initial
inject
injury
inmate
inner
innocent
input
inquiry
insane
insect
inside
inspire
install
intact
interest
into
invest
invite
involve
iron
island
isolate
issue
item
ivory
"%string.
Definition words_j : string := "jacket
jaguar
jar
jazz
jealous
jeans
jelly
jewel
job
join
joke
journey
joy
judge
juice
jump
jungle
junior
junk
just
"%string.
Definition words_k : string := "kangaroo
keen
keep
ketchup
key
kick
kid
kidney
kind
kingdom
kiss
kit
kitchen
kite
kitten
kiwi
knee
knife
knock
know
"%string.
Definition words_l : string := "lab
label
labor
ladder
lady
lake
lamp
language
laptop
large
later
latin
laugh
laundry
lava
law
lawn
lawsuit
layer
lazy
leader
leaf
learn
leave
lecture
left
leg
legal
legend
leisure
lemon
lend
length
lens
leopard
lesson
letter
level
liar
liberty
library
license
life
lift
light
like
limb
limit
link
lion
liquid
list
little
live
lizard
load
loan
lobster
local
lock
logic
lonely
long
loop
lottery
loud
lounge
love
loyal
lucky
luggage
lumber
lunar
lunch
luxury
lyrics
"%string.
Definition words_m : string := "machine
mad
magic
magnet
maid
mail
main
major
make
mammal
man
manage
mandate
mango
mansion
manual
maple
marble
march
margin
marine
market
marriage
mask
mass
master
match
material
math
matrix
matter
maximum
maze
meadow
mean
measure
meat
mechanic
medal
media
melody
melt
member
memory
mention
menu
mercy
merge
merit
merry
mesh
message
metal
method
middle
midnight
milk
million
mimic
mind
minimum
minor
minute
miracle
mirror
misery
miss
mistake
mix
mixed
mixture
mobile
model
modify
mom
moment
monitor
monkey
monster
month
moon
moral
more
morning
mosquito
mother
motion
motor
mountain
mouse
move
movie
much
muffin
mule
multiply
muscle
museum
mushroom
music
must
mutual
myself
mystery
myth
"%string.
Definition words_n : string := "naive
name
napkin
narrow
nasty
nation
nature
near
neck
need
negative
neglect
neither
nephew
nerve
nest
net
network
neutral
never
news
next
nice
night
noble
noise
nominee
noodle
normal
north
nose
notable
note
nothing
notice
novel
now
nuclear
number
nurse
nut
"%string.
Definition words_o : string := "oak
obey
object
oblige
obscure
observe
obtain
obvious
occur
ocean
october
odor
off
offer
office
often
oil
okay
old
olive
olympic
omit
once
one
onion
online
only
open
opera
opinion
oppose
option
orange
orbit
orchard
order
ordinary
organ
orient
original
orphan
ostrich
other
outdoor
outer
output
outside
oval
oven
over
own
owner
oxygen
oyster
ozone
"%string.
Definition words_p : string := "pact
paddle
page
pair
palace
palm
panda
panel
panic
panther
paper
parade
parent
park
parrot
party
pass
patch
path
patient
patrol
pattern
pause
pave
payment
peace
peanut
pear
peasant
pelican
pen
penalty
pencil
people
pepper
perfect
permit
person
pet
phone
photo
phrase
physical
piano
picnic
picture
piece
pig
pigeon
pill
pilot
pink
pioneer
pipe
pistol
pitch
pizza
place
planet
plastic
plate
play
please
pledge
pluck
plug
plunge
poem
poet
point
polar
pole
police
pond
pony
pool
popular
portion
position
possible
post
potato
pottery
poverty
powder
power
practice
praise
predict
prefer
prepare
present
pretty
prevent
price
pride
primary
print
priority
prison
private
prize
problem
process
produce
profit
program
project
promote
proof
property
prosper
protect
proud
provide
public
pudding
pull
pulp
pulse
pumpkin
punch
pupil
puppy
purchase
purity
purpose
purse
push
put
puzzle
pyramid
"%string.
Definition words_q : string := "quality
quantum
quarter
question
quick
quit
quiz
quote
"%string.
Definition words_r : string := "rabbit
raccoon
race
rack
radar
radio
rail
rain
raise
rally
ramp
ranch
random
range
rapid
rare
rate
rather
raven
raw
razor
ready
real
reason
rebel
rebuild
recall
receive
recipe
record
recycle
reduce
reflect
reform
refuse
region
regret
regular
reject
relax
release
relief
rely
remain
remember
remind
remove
render
renew
rent
reopen
repair
repeat
replace
report
require
rescue
resemble
resist
resource
response
result
retire
retreat
return
reunion
reveal
review
reward
rhythm
rib
ribbon
rice
rich
ride
ridge
rifle
right
rigid
ring
riot
ripple
risk
ritual
rival
river
road
roast
robot
robust
rocket
romance
roof
rookie
room
rose
rotate
rough
round
route
royal
rubber
rude
rug
rule
run
runway
rural
"%string.
Definition words_s1 : string := "sad
saddle
sadness
safe
sail
salad
salmon
salon
salt
salute
same
sample
sand
satisfy
satoshi
sauce
sausage
save
say
scale
scan
scare
scatter
scene
scheme
school
science
scissors
scorpion
scout
scrap
screen
script
scrub
sea
search
season
seat
second
secret
section
security
seed
seek
segment
select
sell
seminar
senior
sense
sentence
series
service
session
settle
setup
seven
shadow
shaft
shallow
share
shed
shell
sheriff
shield
shift
shine
ship
shiver
shock
shoe
shoot
shop
short
shoulder
shove
shrimp
shrug
shuffle
shy
sibling
sick
side
siege
sight
sign
silent
silk
silly
silver
similar
simple
since
sing
siren
sister
situate
six
size
skate
sketch
ski
skill
skin
skirt
skull
slab
slam
sleep
slender
slice
slide
slight
slim
slogan
slot
slow
slush
small
smart
smile
smoke
smooth
snack
snake
"%string.
Definition words_s2 : string := "snap
sniff
snow
soap
soccer
social
sock
soda
soft
solar
soldier
solid
solution
solve
someone
song
soon
sorry
sort
soul
sound
soup
source
south
space
spare
spatial
spawn
speak
special
speed
spell
spend
sphere
spice
spider
spike
spin
spirit
split
spoil
sponsor
spoon
sport
spot
spray
spread
spring
spy
square
squeeze
squirrel
stable
stadium
staff
stage
stairs
stamp
stand
start
state
stay
steak
steel
stem
step
stereo
stick
still
sting
stock
stomach
stone
stool
story
stove
strategy
street
strike
strong
struggle
student
stuff
stumble
style
subject
submit
subway
success
such
sudden
suffer
sugar
suggest
suit
summer
sun
sunny
sunset
super
supply
supreme
sure
surface
surge
surprise
surround
survey
suspect
sustain
swallow
swamp
swap
swarm
swear
sweet
swift
swim
swing
switch
sword
symbol
symptom
syrup
system
"%string.
Definition words_t : string := "table
tackle
tag
tail
talent
talk
tank
tape
target
task
taste
tattoo
taxi
teach
team
tell
ten
tenant
tennis
tent
term
test
text
thank
that
theme
then
theory
there
they
thing
this
thought
three
thrive
throw
thumb
thunder
ticket
tide
tiger
tilt
timber
time
tiny
tip
tired
tissue
title
toast
tobacco
today
toddler
toe
together
toilet
token
tomato
tomorrow
tone
tongue
tonight
tool
tooth
top
topic
topple
torch
tornado
tortoise
toss
total
tourist
toward
tower
town
toy
track
trade
traffic
tragic
train
transfer
trap
trash
travel
tray
treat
tree
trend
trial
tribe
trick
trigger
trim
trip
trophy
trouble
truck
true
truly
trumpet
trust
truth
try
tube
tuition
tumble
tuna
tunnel
turkey
turn
turtle
twelve
twenty
twice
twin
twist
two
type
typical
"%string.
Definition words_u : string := "ugly
umbrella
unable
unaware
uncle
uncover
under
undo
unfair
unfold
unhappy
uniform
unique
unit
universe
unknown
unlock
until
unusual
unveil
update
upgrade
uphold
upon
upper
upset
urban
urge
usage
use
used
useful
useless
usual
utility
"%string.
Definition words_v : string := "vacant
vacuum
vague
valid
valley
valve
van
vanish
vapor
various
vast
vault
vehicle
velvet
vendor
venture
venue
verb
verify
version
very
vessel
veteran
viable
vibrant
vicious
victory
video
view
village
vintage
violin
virtual
virus
visa
visit
visual
vital
vivid
vocal
voice
void
volcano
volume
vote
voyage
"%string.
Definition words_w : string := "wage
wagon
wait
walk
wall
walnut
want
warfare
warm
warrior
wash
wasp
waste
water
wave
way
wealth
weapon
wear
weasel
weather
web
wedding
weekend
weird
welcome
west
wet
whale
what
wheat
wheel
when
where
whip
whisper
wide
width
wife
wild
will
win
window
wine
wing
wink
winner
winter
wire
wisdom
wise
wish
witness
wolf
woman
wonder
wood
wool
word
work
world
worry
worth
wrap
wreck
wrestle
wrist
write
wrong
"%string.
Definition words_y : string := "yard
year
yellow
you
young
youth
"%string.
Definition words_z : string := "zebra
zero
zone
zoo
"%string.

Definition bip39EnglishRaw : list Z :=
  concat (map bytes_of_string
    [words_a; words_b; words_c1; words_c2; words_d; words_e; words_f; words_g; words_h; words_i; words_j;
     words_k; words_l; words_m; words_n; words_o; words_p; words_q; words_r; words_s1; words_s2; words_t;
     words_u; words_v; words_w; words_y; words_z]).

Definition englishWordlistSHA256 : list Z :=
  %"2f5eed53a4727b4bf8880d8f3f199efc90e58503646d9ff8eff3a2ed3b24dbda".

(** [strings.TrimSuffix] of one byte. *)
Definition TrimSuffix (s : list Z) (c : Z) : list Z :=
  if bool_decide (last s = Some c) then take (length s - 1) s else s.

(** What [init] computes, with the checks it panics on. *)
Definition EnglishWords : list (list Z) := strings_Split 10 (TrimSuffix bip39EnglishRaw 10).
Definition initChecks : bool :=
  (Z.of_nat (length EnglishWords) =? 2048) &&
  bool_decide (hex_EncodeToString (Sum256 bip39EnglishRaw) = englishWordlistSHA256).

Definition NewEnglishWordList : result WordList := NewWordList EnglishWords.

(** * The list is a word list *)

Definition lowercase (w : list Z) : bool :=
  (3 <=? length w)%nat && (length w <=? 8)%nat && forallb (λ c, (97 <=? c) && (c <=? 122)) w.
(** Words in order already by their first four letters. *)
Definition before (a b : list Z) : Prop := bytes_compare (take 4 a) (take 4 b) = Lt.
Fixpoint increasing (ws : list (list Z)) : bool :=
  match ws with
  | a :: (b :: _) as t => match bytes_compare (take 4 a) (take 4 b) with Lt => increasing t | _ => false end
  | _ => true
  end.

Lemma EnglishWords_checked :
  (length EnglishWords =? 2048)%nat && forallb lowercase EnglishWords && increasing EnglishWords = true.
Proof. vm_compute. reflexivity. Qed.

Lemma before_trans a b c : before a b → before b c → before a c.
Proof.
  unfold before. generalize (take 4 a) (take 4 b) (take 4 c). clear. intros a b c H1 H2.
  destruct (bytes_compare a c) eqn:E; [|done|].
  - apply bytes_compare_eq in E as ->. rewrite bytes_compare_antisym, H1 in H2. done.
  - exfalso. apply (bytes_compare_trans a b c); [by rewrite H1|by rewrite H2|done].
Qed.
Lemma increasing_sorted ws : increasing ws = true → StronglySorted before ws.
Proof.
  intros H. apply Sorted_StronglySorted; [intros a b c; apply before_trans|].
  induction ws as [|a [|b t] IH]; [constructor|by repeat constructor|].
  cbn [increasing] in H. destruct (bytes_compare (take 4 a) (take 4 b)) eqn:E; try done.
  constructor; [by apply IH|]. by constructor.
Qed.
Lemma sorted_lookup ws i j x y :
  StronglySorted before ws → ws !! i = Some x → ws !! j = Some y → (i < j)%nat → before x y.
Proof.
  intros Hs. revert i j. induction Hs as [|w ws _ IH Hw]; intros i j Hi Hj Hij; [done|].
  destruct j as [|j]; [lia|]. destruct i as [|i].
  - injection Hi as ->. rewrite Forall_forall in Hw. by apply Hw, (list_elem_of_lookup_2 _ j).
  - apply (IH i j Hi Hj). lia.
Qed.
Lemma before_lt a b : before a b → bytes_compare a b = Lt.
Proof.
  unfold before. generalize 4%nat. intros n. revert a b. induction n as [|n IH]; intros a b H; [done|].
  destruct a as [|x a], b as [|y b]; try done. cbn in *. destruct (x ?= y); try done. by apply IH.
Qed.

Lemma sorted_NoDup ws : StronglySorted before ws → NoDup ws.
Proof.
  induction 1 as [|w ws _ IH Hw]; constructor; [|done]. rewrite Forall_forall in Hw. intros Hin.
  specialize (Hw w Hin). unfold before in Hw. rewrite (proj2 (bytes_compare_eq _ _) eq_refl) in Hw. done.
Qed.

Lemma lowercase_valid w : lowercase w = true → w ≠ [] ∧ ValidString w = true.
Proof.
  unfold lowercase. rewrite !andb_true_iff. intros [[H3 _] Hc]. split; [by intros ->|]. clear H3.
  unfold ValidString. induction w as [|c w IH]; [done|]. cbn [forallb] in Hc. apply andb_true_iff in Hc as [Hc Hw].
  cbn [length valid_fuel]. unfold decode_rune. rewrite (proj2 (Z.ltb_lt c 0x80)) by lia. unfold RuneError.
  rewrite (proj2 (Z.eqb_neq _ _)) by lia. cbn [andb negb drop]. by apply IH.
Qed.

Lemma indexWords_complete ws i idx :
  NoDup ws → Forall (λ w, w ≠ [] ∧ ValidString w = true) ws → (∀ x, x ∈ ws → idx !! x = None) →
  ∃ idx', indexWords i ws idx = Ok idx'.
Proof.
  intros Hnd Hall. revert i idx. induction Hall as [|w ws [Hne Hv] _ IH]; intros i idx Hf; [by exists idx|].
  apply NoDup_cons in Hnd as [Hw Hnd]. cbn [indexWords]. rewrite bool_decide_eq_false_2, Hv by done. cbn [negb].
  rewrite Hf by (by left). apply IH; [done|]. intros x Hx. rewrite lookup_insert_ne by (by intros ->).
  apply Hf. by right.
Qed.

Lemma english_ok : ∃ idx, NewEnglishWordList = Ok {| words := EnglishWords; wordIndex := idx |}.
Proof.
  pose proof EnglishWords_checked as H. apply andb_true_iff in H as [[HL HW]%andb_true_iff HI].
  apply Nat.eqb_eq in HL. apply increasing_sorted in HI. unfold NewEnglishWordList, NewWordList.
  revert HL HW HI. generalize EnglishWords. intros ws HL HW HI. rewrite HL.
  change (negb (Z.of_nat 2048 =? wordlistRequired)) with false. cbn match.
  destruct (indexWords_complete ws 0 ∅) as [idx Hidx]; [by apply sorted_NoDup| |done|].
  { apply Forall_forall. intros x Hx. rewrite forallb_forall in HW. by apply lowercase_valid, HW, list_elem_of_In. }
  rewrite Hidx. by eexists.
Qed.

Lemma Word_lookup ws idx i x :
  Word {| words := ws; wordIndex := idx |} i = Ok x ↔ 0 ≤ i ∧ ws !! Z.to_nat i = Some x.
Proof.
  unfold Word. cbn [words]. rewrite nth_lookup. split.
  - case_if; [done|]. intros [= <-]. split; [lia|].
    destruct (lookup_lt_is_Some_2 ws (Z.to_nat i)) as [y ->]; [lia|done].
  - intros [Hi Hx]. pose proof (lookup_lt_Some _ _ _ Hx). if_lia. by rewrite Hx.
Qed.

Lemma english_lowercase w i x : NewEnglishWordList = Ok w → Word w i = Ok x → lowercase x = true.
Proof.
  destruct english_ok as [idx ->]. intros [= <-] [_ Hx]%Word_lookup.
  pose proof EnglishWords_checked as H. apply andb_true_iff in H as [[_ HW]%andb_true_iff _].
  rewrite forallb_forall in HW. apply HW, list_elem_of_In. by eapply list_elem_of_lookup_2.
Qed.

Lemma english_lawful w : NewEnglishWordList = Ok w → LawfulWordList w.
Proof.
  unfold NewEnglishWordList. generalize EnglishWords. intros ws Hw. apply (NewWordList_lawful ws w). by rewrite Hw.
Qed.

(** The embedded list is the word list the wallet needs: construction succeeds,
    position [i] of the 2048 has a word of three to eight lower-case letters, the
    words are in alphabetical order, and the first four letters of a word determine
    its position. *)
Theorem english_wordlist_sound :
  ∃ w, NewEnglishWordList = Ok w ∧
    (∀ i, 0 ≤ i < 2048 → ∃ x, Word w i = Ok x ∧ lowercase x = true) ∧
    (∀ i j x y, Word w i = Ok x → Word w j = Ok y →
       (i < j → bytes_compare x y = Lt) ∧ (take 4 x = take 4 y → i = j)).
Proof.
  destruct english_ok as [idx Hok]. exists {| words := EnglishWords; wordIndex := idx |}.
  pose proof (λ i x, english_lowercase _ i x Hok) as Hlow. split; [done|]. clear Hok.
  pose proof EnglishWords_checked as H. apply andb_true_iff in H as [[HL _]%andb_true_iff HI].
  apply Nat.eqb_eq in HL. apply increasing_sorted in HI. revert HL HI Hlow. generalize EnglishWords.
  intros ws HL HI Hlow. split.
  - intros i Hi. destruct (lookup_lt_is_Some_2 ws (Z.to_nat i)) as [x Hx]; [lia|]. exists x.
    assert (Word {| words := ws; wordIndex := idx |} i = Ok x) as HW by (apply Word_lookup; split; [lia|done]).
    split; [exact HW|]. by eapply Hlow.
  - intros i j x y [Hi Hx]%Word_lookup [Hj Hy]%Word_lookup. split.
    + intros Hij. apply before_lt, (sorted_lookup ws (Z.to_nat i) (Z.to_nat j)); [done..|lia].
    + intros E. destruct (Z.lt_trichotomy i j) as [Hlt|[?|Hlt]]; [|done|]; exfalso.
      * pose proof (sorted_lookup _ _ _ _ _ HI Hx Hy ltac:(lia)) as B. unfold before in B.
        by rewrite E, (proj2 (bytes_compare_eq _ _) eq_refl) in B.
      * pose proof (sorted_lookup _ _ _ _ _ HI Hy Hx ltac:(lia)) as B. unfold before in B.
        by rewrite E, (proj2 (bytes_compare_eq _ _) eq_refl) in B.
Qed.
