(* ===== verification/EngineSetup.v ===== *)
(** * internal/hal and internal/engine/setup.go: devices and workers

    Device identities, the driver registry and its detector, and the start-up of
    the engine: one worker per SHA-256d device with its share of the nonce space.
    What a driver enumerates is a parameter (the CPU driver apart). *)
From S2P Require Import Prelude.
From S2P Require Import Utf8.
From S2P Require Import Float64.
From S2P Require Import Sha256d.
From S2P Require Import Worker.
From S2P Require Import Arbitration.
From S2P Require Import Provider.

Open Scope Z_scope.

(** ** hal/device.go *)

Definition Family_Valid (f : Family) : bool :=
  String.eqb f FamilyASIC || String.eqb f FamilyGPU || String.eqb f FamilyCPU.

Definition forbiddenRune (r : Z) : bool := IsSpace r || (r =? 0x2f).

Definition Identity_Validate (i : Identity) : result unit :=
  if String.eqb (ID i) "" then Err (Sentinel "hal: Identity.ID must not be empty")
  else if negb (Family_Valid (id_Family i))
  then Err (Errorf "hal: Identity.Family %q is not a valid Family" (bytes_of_string (id_Family i)))
  else match find forbiddenRune (runes (bytes_of_string (ID i))) with
       | Some r => Err (Errorf "hal: Identity.ID contains forbidden character %q" [r])
       | None => Ok ()
       end.

(** ** hal/registry.go *)

(** What [Enumerate] returns: devices, and possibly an error as well. *)
Record Driver := { Name : string; Enumerate : list DeviceRef * option error }.
Definition Registry : Type := gmap string Driver.

Definition NewRegistry : Registry := ∅.
Definition Register (d : option Driver) (r : gmap string Driver) : result (gmap string Driver) :=
  match d with
  | None => Err (Sentinel "hal: cannot register nil driver")
  | Some d =>
      if String.eqb (Name d) "" then Err (Sentinel "hal: driver must have a non-empty name")
      else match r !! Name d with
           | Some _ => Err (Errorf "hal: driver %q is already registered" (bytes_of_string (Name d)))
           | None => Ok (<[Name d := d]> r)
           end
  end.
Definition Drivers (r : gmap string Driver) : list Driver :=
  omap (λ n, r !! n) (SortStableFunc String.compare (map_to_list r).*1).
Definition Lookup (r : gmap string Driver) (name : string) : option Driver := r !! name.
Definition Len (r : gmap string Driver) : nat := size r.

Definition acceptedDevice (d : DeviceRef) : bool :=
  match Identity_Validate (dev_Identity d) with Ok _ => true | Err _ => false end.

(** [Detect]: [arrivals] are the drivers in the order their results are received,
    [cut] how many are received before the context is done, if it ever is. *)
Definition Detect (arrivals : list Driver) (cut : option nat) : list DeviceRef * option error :=
  let got := match cut with Some k => take k arrivals | None => arrivals end in
  (got ≫= λ d, List.filter acceptedDevice (Enumerate d).1,
   match cut with Some _ => Some (Sentinel "context canceled") | None => None end).

(** ** setup.go *)

Definition cpuDriver (model : string) : Driver :=
  {| Name := "cpu";
     Enumerate := ([{| dev_Identity := {| ID := "cpu-0"; id_Family := FamilyCPU; Vendor := "generic"; Model := model |};
                       dev_Capabilities := {| cap_SHA256d := true; GeneralCompute := true |} |}], None) |}.

Definition detectDevices (found : list DeviceRef * option error) : result (list DeviceRef) :=
  match found with
  | ([], Some e) => Err (Wrapf "engine: device detection interrupted: %w" e)
  | ([], None) => Err (Sentinel "engine: no devices detected")
  | (ds, _) => Ok ds
  end.

(** [for uint64(stride) < total { stride <<= 1 }] on a uint32. *)
Fixpoint strideLoop (fuel : nat) (stride total : Z) : Z :=
  match fuel with
  | O => stride
  | S fuel => if stride <? total then strideLoop fuel (wrap 32 (Z.shiftl stride 1)) total else stride
  end.
Definition strideFor (total : Z) : Z := strideLoop 32 1 total.

Definition workerConfig (NumCPU : Z) (n : nat) (i : nat) (dev : DeviceRef) : WorkerConfig :=
  let c := DefaultWorkerConfig NumCPU in
  let total := wrap 64 (Threads c * Z.of_nat n) in
  if (1 <? n)%nat && (0 <? total) && (total <=? 2 ^ 31) then
    {| Threads := Threads c; NonceStep := strideFor total;
       NonceOffset := wrap 32 (Z.of_nat i * Threads c); cfg_DeviceID := dev_id dev |}
  else {| Threads := Threads c; NonceStep := NonceStep c; NonceOffset := NonceOffset c;
          cfg_DeviceID := dev_id dev |}.

Definition sha256dDevices (devices : list DeviceRef) : list DeviceRef :=
  List.filter (λ d, cap_SHA256d (dev_Capabilities d)) devices.

Definition startMinerWorkers (NumCPU now : Z) (devices : list DeviceRef) : result (list system) :=
  match sha256dDevices devices with
  | [] => Err (Sentinel "engine: no SHA256d-capable devices found")
  | ds => mapM (λ '(i, d), Start now (NewWorker NumCPU (workerConfig NumCPU (length ds) i d)))
            (imap pair ds)
  end.

Definition DefaultHashrates (f : Family) : float64 :=
  if String.eqb f FamilyASIC then f64_of_Z (100 * 10 ^ 12)
  else if String.eqb f FamilyGPU then f64_of_Z 1500000000
  else if String.eqb f FamilyCPU then f64_of_Z (10 * 10 ^ 6)
  else fzero.

Definition nominalMiningHashrate (devices : list DeviceRef) (ws : list Worker) : float64 :=
  let family : gmap string Family :=
    foldl (λ m d, <[dev_id d := id_Family (dev_Identity d)]> m) ∅ devices in
  foldl (λ h w, fadd h (DefaultHashrates (default "" (family !! DeviceID w)))) fzero ws.

(** * The nonce space across devices *)

Lemma strideLoop_pow2 fuel a total :
  0 ≤ a ≤ 31 → total ≤ 2 ^ 31 → 31 ≤ a + Z.of_nat fuel →
  ∃ b, strideLoop fuel (2 ^ a) total = 2 ^ b ∧ 0 ≤ b ≤ 31 ∧ total ≤ 2 ^ b.
Proof.
  revert a. induction fuel as [|fuel IH]; intros a Ha Ht Hf; cbn [strideLoop].
  { exists a. assert (a = 31) as -> by lia. lia. }
  destruct (Z.ltb_spec (2 ^ a) total) as [Hlt|Hge]; [|by exists a; split_and!; lia].
  assert (a < 31) as Ha'.
  { destruct (Z.eq_dec a 31) as [->|]; lia. }
  replace (wrap 32 (Z.shiftl (2 ^ a) 1)) with (2 ^ (a + 1)).
  { apply IH; lia. }
  rewrite Z.shiftl_mul_pow2 by lia. rewrite <- Z.pow_add_r by lia. symmetry. apply wrap_small.
  split; [apply Z.pow_nonneg; lia|]. apply Z.pow_lt_mono_r; lia.
Qed.

Lemma mod_pow2 L b : 0 ≤ b ≤ 32 → (L mod 2 ^ 32) mod 2 ^ b = L mod 2 ^ b.
Proof.
  intros Hb. replace (2 ^ 32) with (2 ^ (32 - b) * 2 ^ b) by (rewrite <- Z.pow_add_r by lia; f_equal; lia).
  assert (0 < 2 ^ b) by (apply Z.pow_pos_nonneg; lia).
  assert (0 < 2 ^ (32 - b)) by (apply Z.pow_pos_nonneg; lia).
  rewrite (Z.mul_comm (2 ^ (32 - b))), Z.rem_mul_r by lia.
  rewrite Z.mul_comm, Z.mod_add by lia. apply Z.mod_mod. lia.
Qed.

(** Every nonce a worker hashes is congruent to its offset plus a thread number,
    when its step is a power of two. *)
Lemma hashed_residue NumCPU c now s0 tr s h b :
  launched NumCPU c now s0 → steps s0 tr s → Z.of_nat (length (works_set tr)) < 2 ^ 64 →
  0 ≤ b ≤ 31 → NonceStep (cfg (shared s0)) = 2 ^ b → h ∈ hashes tr →
  ∃ t, Z.of_nat t < Threads (cfg (shared s0)) ∧
    Nonce (hashed_header h) mod 2 ^ b =
    startNonce (cfg (shared s0)) (wrap 32 (Z.of_nat t)) mod 2 ^ b.
Proof.
  intros Hl Hst Hsets Hb Hs (i & Hi)%list_elem_of_lookup.
  destruct (keyed_steps _ _ _ _ _ _ Hl Hst Hsets) as [keys [_ _ K3 _ _ _]].
  destruct (Forall2_lookup_r _ _ _ _ _ K3 Hi) as ([[t v] j] & _ & Ht & a & lw & _ & ->).
  exists t. split; [done|]. cbn [hashed_header header_at header_with_nonce Nonce].
  assert (0 < 2 ^ b < 2 ^ 32) by (split; [apply Z.pow_pos_nonneg; lia|apply Z.pow_lt_mono_r; lia]).
  rewrite pos_lin by lia. cbn [fst]. rewrite mod_pow2 by lia. unfold lin. rewrite Hs.
  apply Z.mod_add. lia.
Qed.

Lemma workerConfig_partition NumCPU n i d c :
  (1 < n)%nat → 0 < NumCPU → NumCPU * Z.of_nat n ≤ 2 ^ 31 → (i < n)%nat →
  c = cfg (NewWorker NumCPU (workerConfig NumCPU n i d)) →
  Threads c = NumCPU ∧ NonceOffset c = Z.of_nat i * NumCPU ∧
  ∃ b, NonceStep c = 2 ^ b ∧ 0 ≤ b ≤ 31 ∧ NumCPU * Z.of_nat n ≤ 2 ^ b ∧
    NonceStep c = strideFor (NumCPU * Z.of_nat n).
Proof.
  intros Hn HC Ht Hi ->. unfold workerConfig. cbn [DefaultWorkerConfig Threads].
  rewrite (wrap_small 64) by lia. rewrite (wrap_small 32) by nia.
  assert (1 < Z.of_nat n) by lia. assert (0 < NumCPU * Z.of_nat n) by nia.
  rewrite (proj2 (Nat.ltb_lt 1 n)) by done.
  rewrite (proj2 (Z.ltb_lt 0 (NumCPU * Z.of_nat n))) by done.
  rewrite (proj2 (Z.leb_le (NumCPU * Z.of_nat n) (2 ^ 31))) by done.
  cbn [andb]. destruct (strideLoop_pow2 32 0 (NumCPU * Z.of_nat n)) as (b & Hb & Hb1 & Hb2); [lia..|].
  change (2 ^ 0) with 1 in Hb. fold (strideFor (NumCPU * Z.of_nat n)) in Hb.
  unfold NewWorker. cbn [cfg Threads NonceOffset NonceStep].
  rewrite (proj2 (Z.leb_gt NumCPU 0)) by lia. rewrite Hb.
  assert (0 < 2 ^ b) by (apply Z.pow_pos_nonneg; lia).
  rewrite (proj2 (Z.eqb_neq (2 ^ b) 0)) by lia. split_and!; [done|done|]. exists b. split_and!; done || lia.
Qed.

(** C3. The workers of different devices never hash the same nonce: with two or
    more SHA-256d devices whose threads number at most [2 ^ 31], whatever jobs each
    worker is given and however its threads are scheduled, a nonce hashed by one
    device's worker is never hashed by another's, through every wrap-around of the
    32-bit nonce. *)
Theorem devices_partition_nonces NumCPU now ds i j di dj si ti si' sj tj sj' hi hj :
  (1 < length ds)%nat → 0 < NumCPU → NumCPU * Z.of_nat (length ds) ≤ 2 ^ 31 →
  ds !! i = Some di → ds !! j = Some dj → i ≠ j →
  launched NumCPU (workerConfig NumCPU (length ds) i di) now si → steps si ti si' →
  launched NumCPU (workerConfig NumCPU (length ds) j dj) now sj → steps sj tj sj' →
  Z.of_nat (length (works_set ti)) < 2 ^ 64 → Z.of_nat (length (works_set tj)) < 2 ^ 64 →
  hi ∈ hashes ti → hj ∈ hashes tj → Nonce (hashed_header hi) ≠ Nonce (hashed_header hj).
Proof.
  intros Hn HC Ht Hi Hj Hij Li Si Lj Sj Wi Wj Hhi Hhj Heq.
  pose proof (lookup_lt_Some _ _ _ Hi) as Hli. pose proof (lookup_lt_Some _ _ _ Hj) as Hlj.
  assert (∀ k d s, launched NumCPU (workerConfig NumCPU (length ds) k d) now s →
    cfg (shared s) = cfg (NewWorker NumCPU (workerConfig NumCPU (length ds) k d))) as Hcfg.
  { intros k d s. unfold launched, Start. cbn [NewWorker started]. by intros <-%Ok_inj. }
  destruct (workerConfig_partition NumCPU (length ds) i di (cfg (shared si))) as (Ti & Oi & b & Bi & Hb & Hbt & Ei);
    [lia|lia|lia|done|by apply Hcfg|].
  destruct (workerConfig_partition NumCPU (length ds) j dj (cfg (shared sj))) as (Tj & Oj & b' & Bj & _ & _ & Ej);
    [lia|lia|lia|done|by apply Hcfg|].
  assert (NonceStep (cfg (shared sj)) = 2 ^ b) as Bj' by congruence. clear b' Bj Ei Ej.
  destruct (hashed_residue _ _ _ _ _ _ _ b Li Si Wi Hb Bi Hhi) as (t & Htt & Hrt).
  destruct (hashed_residue _ _ _ _ _ _ _ b Lj Sj Wj Hb Bj' Hhj) as (u & Htu & Hru).
  rewrite Heq, Hru in Hrt. rewrite Ti in Htt. rewrite Tj in Htu. unfold startNonce in Hrt. rewrite Oi, Oj in Hrt.
  assert (2 ^ b ≤ 2 ^ 31) by (apply Z.pow_le_mono_r; lia). assert (NumCPU ≤ 2 ^ 31) by nia.
  rewrite !(wrap_small 32 (Z.of_nat _)) in Hrt by lia.
  assert (∀ k v, (k < length ds)%nat → Z.of_nat v < NumCPU →
    0 ≤ Z.of_nat k * NumCPU + Z.of_nat v < 2 ^ b) as Hk by (intros k v ? ?; nia).
  pose proof (Hk i t Hli Htt). pose proof (Hk j u Hlj Htu).
  rewrite !(wrap_small 32) in Hrt by lia. rewrite !Z.mod_small in Hrt by lia.
  apply Hij. apply Nat2Z.inj. nia.
Qed.

(** ** Detection *)

Lemma Identity_Validate_ok i :
  Identity_Validate i = Ok () ↔
  ID i ≠ "" ∧ Family_Valid (id_Family i) = true ∧
  Forall (λ r, forbiddenRune r = false) (runes (bytes_of_string (ID i))).
Proof.
  unfold Identity_Validate. destruct (String.eqb_spec (ID i) ""); [naive_solver|].
  destruct (Family_Valid _); cbn [negb]; [|naive_solver].
  destruct (find forbiddenRune _) as [r|] eqn:E.
  - apply find_some in E as [Hin Hr]. split; [done|]. intros (_ & _ & HF).
    rewrite Forall_forall in HF. apply list_elem_of_In in Hin. apply HF in Hin. congruence.
  - split; [|done]. intros _. split_and!; [done|done|]. apply Forall_forall. intros r Hr.
    apply list_elem_of_In in Hr. by apply (find_none _ _ E).
Qed.

(** The drivers of a registry, in the order of their names, whatever the map's. *)
Lemma Drivers_spec r d :
  (∀ n d, r !! n = Some d → Name d = n) → d ∈ Drivers r ↔ r !! Name d = Some d.
Proof.
  intros Hr. unfold Drivers. rewrite list_elem_of_omap. split.
  - intros (n & _ & Hn). by rewrite (Hr n d Hn).
  - intros Hd. exists (Name d). split; [|done]. apply elem_of_SortStableFunc.
    apply list_elem_of_fmap. exists (Name d, d). split; [done|]. by apply elem_of_map_to_list.
Qed.

(** Detection over the registered drivers, in whatever order they answer,
    yields exactly the devices they enumerate whose identity is sound: an ID that
    is not empty and has neither white space nor a slash, and a known family; if
    the context ends first, it yields some of them and the context's error. *)
Theorem Detect_exact r arrivals cut d :
  (∀ n d, r !! n = Some d → Name d = n) → arrivals ≡ₚ Drivers r →
  let ok := ID (dev_Identity d) ≠ "" ∧ Family_Valid (id_Family (dev_Identity d)) = true ∧
            Forall (λ c, forbiddenRune c = false) (runes (bytes_of_string (ID (dev_Identity d)))) in
  (d ∈ (Detect arrivals cut).1 →
     ok ∧ ∃ drv, r !! Name drv = Some drv ∧ d ∈ (Enumerate drv).1) ∧
  (cut = None → (ok ∧ ∃ drv, r !! Name drv = Some drv ∧ d ∈ (Enumerate drv).1) →
     d ∈ (Detect arrivals cut).1) ∧
  ((Detect arrivals cut).2 = None ↔ cut = None).
Proof.
  intros Hr Harr ok. unfold ok. rewrite <- Identity_Validate_ok.
  assert (∀ drvs, d ∈ (drvs ≫= λ x, List.filter acceptedDevice (Enumerate x).1) ↔
    Identity_Validate (dev_Identity d) = Ok () ∧ ∃ drv, drv ∈ drvs ∧ d ∈ (Enumerate drv).1) as Hin.
  { intros drvs. rewrite list_elem_of_bind. split.
    - intros (drv & Hd & Hdrv). apply list_elem_of_In, filter_In in Hd as [Hd Ha].
      unfold acceptedDevice in Ha. destruct (Identity_Validate _) as [[]|]; [|done].
      split; [done|]. exists drv. split; [done|]. by apply list_elem_of_In.
    - intros (Hv & drv & Hdrv & Hd). exists drv. split; [|done].
      apply list_elem_of_In, filter_In. split; [by apply list_elem_of_In|]. unfold acceptedDevice. by rewrite Hv. }
  assert (∀ drv, drv ∈ arrivals ↔ r !! Name drv = Some drv) as Hdrv.
  { intros drv. rewrite Harr. by apply Drivers_spec. }
  unfold Detect. cbn [fst snd]. rewrite Hin. split_and!.
  - intros (Hv & drv & Hd & He). split; [done|]. exists drv. split; [|done]. apply Hdrv.
    destruct cut as [k|]; [|done].
    apply list_elem_of_lookup in Hd as [i [Hi _]%lookup_take_Some]. by eapply list_elem_of_lookup_2.
  - intros -> (Hv & drv & Hd & He). split; [done|]. exists drv. split; [|done]. by apply Hdrv.
  - by destruct cut.
Qed.

(** ** Witnesses *)

Definition asic (id : string) : DeviceRef :=
  {| dev_Identity := {| ID := id; id_Family := FamilyASIC; Vendor := ""; Model := "" |};
     dev_Capabilities := {| cap_SHA256d := true; GeneralCompute := false |} |}.
Definition two_asics : list DeviceRef := [asic "asic-0"; asic "asic-1"].
Definition asic_worker (i : nat) (d : DeviceRef) : system :=
  let w := NewWorker 3 (workerConfig 3 2 i d) in
  match Start 1 w with Ok s => s | Err _ => {| shared := w; grinders := [] |} end.
Definition asic_trace (i : nat) (d : DeviceRef) : list event * system :=
  default ([], asic_worker i d) (acts demo_schedule (asic_worker i d)).

Lemma asic_launched i d : launched 3 (workerConfig 3 2 i d) 1 (asic_worker i d).
Proof. reflexivity. Qed.
Lemma asic_steps0 : steps (asic_worker 0 (asic "asic-0")) (asic_trace 0 (asic "asic-0")).1 (asic_trace 0 (asic "asic-0")).2.
Proof. apply (acts_steps demo_schedule). vm_compute. reflexivity. Qed.
Lemma asic_steps1 : steps (asic_worker 1 (asic "asic-1")) (asic_trace 1 (asic "asic-1")).1 (asic_trace 1 (asic "asic-1")).2.
Proof. apply (acts_steps demo_schedule). vm_compute. reflexivity. Qed.

Lemma devices_partition_nonces_witness :
  ∃ h0 h1, h0 ∈ hashes (asic_trace 0 (asic "asic-0")).1 ∧ h1 ∈ hashes (asic_trace 1 (asic "asic-1")).1 ∧
    Nonce (hashed_header h0) ≠ Nonce (hashed_header h1).
Proof.
  assert (∃ h, hashes (asic_trace 0 (asic "asic-0")).1 !! 0%nat = Some h) as [h0 H0]
    by (vm_compute; eexists; reflexivity).
  assert (∃ h, hashes (asic_trace 1 (asic "asic-1")).1 !! 0%nat = Some h) as [h1 H1]
    by (vm_compute; eexists; reflexivity).
  apply list_elem_of_lookup_2 in H0. apply list_elem_of_lookup_2 in H1.
  exists h0, h1. split; [exact H0|]. split; [exact H1|].
  apply (devices_partition_nonces 3 1 two_asics 0 1 (asic "asic-0") (asic "asic-1")
    (asic_worker 0 (asic "asic-0")) (asic_trace 0 (asic "asic-0")).1 (asic_trace 0 (asic "asic-0")).2
    (asic_worker 1 (asic "asic-1")) (asic_trace 1 (asic "asic-1")).1 (asic_trace 1 (asic "asic-1")).2 h0 h1);
    [cbn; lia|lia|cbn; lia|reflexivity|reflexivity|discriminate|apply asic_launched|exact asic_steps0|
     apply asic_launched|exact asic_steps1|vm_compute; reflexivity|vm_compute; reflexivity|exact H0|exact H1].
Defined.

Definition one_registry : gmap string Driver := <["cpu" := cpuDriver "4-core CPU"]> ∅.

Lemma Detect_exact_witness :
  ∃ d, d ∈ (Detect (Drivers one_registry) None).1 ∧ ID (dev_Identity d) = "cpu-0".
Proof.
  exists (nth 0 (Enumerate (cpuDriver "4-core CPU")).1 (asic "")). split.
  - refine (proj1 (proj2 (Detect_exact one_registry (Drivers one_registry) None _ _ _)) eq_refl _).
    + unfold one_registry; intros n d [[<- <-]|[_ Hd]]%lookup_insert_Some; [reflexivity|discriminate].
    + reflexivity.
    + split.
      * split; [|split]; [|reflexivity|]; [discriminate|]. vm_compute. repeat constructor.
      * exists (cpuDriver "4-core CPU"). split; [reflexivity|]. left.
  - reflexivity.
Defined.
