(* ===== verification/EngineMetrics.v ===== *)
(** * internal/engine/metrics.go: the engine's metrics

    The registrations of [newEngineMetrics], the metrics created on first use —
    one per reject category, device and payout address — and the share rates.  A
    handle is the registry key of its metric. *)
From S2P Require Import Prelude.
From S2P Require Import Float64.
From S2P Require Import Text.
From S2P Require Import Metrics.
From S2P Require Import EngineStats.

Open Scope Z_scope.

(** [version.Get()]. *)
Record Info := { info_Version : list Z; info_Commit : list Z; info_GoVersion : list Z }.

(** ** The registrations, in the order of the struct literal *)

Inductive registration :=
  | MetricCounter (name : string) (help : list Z) (labels : labelmap)
  | MetricGauge (name : string) (help : list Z) (labels : labelmap).

Definition registrations (info : Info) : list registration :=
  [
   (* hashrate *)
   MetricGauge "otedama_hashrate_hashes_per_second"
     (%"Current aggregate hashrate in hashes per second.") ∅;
   (* sharesFound *)
   MetricCounter "otedama_shares_found_total"
     (%"Total shares found locally by all workers.") ∅;
   (* sharesSubmitted *)
   MetricCounter "otedama_shares_submitted_total"
     (%"Total shares actually transmitted to the pool (mining.submit / " ++
      %"SubmitSharesStandard), incremented at send time regardless of " ++
      %"the pool's eventual accept/reject response. Distinct from " ++
      %"shares_found_total: a share can be found by a worker but never " ++
      %"submitted if its worker's share channel was full (a rate the " ++
      %"engine only currently logs, as " ++ [34] ++ %"dropped N found share(s)" ++ [34] ++ %").") ∅;
   (* sharesSubmitDropped *)
   MetricCounter "otedama_shares_submit_dropped_total"
     (%"Total found shares dropped by the submit rate cap before " ++
      %"reaching the wire. A non-zero value means the pool's " ++
      %"difficulty is so low that shares are produced faster " ++
      %"than 8/s — normally only under a hostile or " ++
      %"misconfigured mining.set_difficulty.") ∅;
   (* sharesWorkerDropped *)
   MetricCounter "otedama_shares_worker_dropped_total"
     (%"Total found shares dropped at the worker because the share " ++
      %"channel was full (consumer not keeping up). These shares " ++
      %"were found but never submitted; shares_found_total " ++
      %"includes them while shares_submitted_total does not. " ++
      %"Rising values mean the share consumer is the bottleneck.") ∅;
   (* sharesAccepted *)
   MetricCounter "otedama_shares_total"
     (%"Total shares reported by the pool.") {[%"status" := %"accepted"]};
   (* sharesRejected *)
   MetricCounter "otedama_shares_total"
     (%"Total shares reported by the pool.") {[%"status" := %"rejected"]};
   (* poolConnectAttempts *)
   MetricCounter "otedama_pool_connect_attempts_total"
     (%"Total pool-connection attempts, including reconnects.") ∅;
   (* poolConnectFailures *)
   MetricCounter "otedama_pool_connect_failures_total"
     (%"Total pool-connection failures.") ∅;
   (* poolYieldFailovers *)
   MetricCounter "otedama_pool_yield_failovers_total"
     (%"Deliberate failovers triggered by degraded share acceptance.") ∅;
   (* arbitrationSwitches *)
   MetricCounter "otedama_arbitration_switches_total"
     (%"Total arbitration workload switches (mining ↔ AI).") ∅;
   (* arbitrationHolds *)
   MetricCounter "otedama_arbitration_holds_total"
     (%"Total decisions where a higher-yielding stream existed but hysteresis " ++
      %"kept the current one. Rising vs switches indicates the hysteresis " ++
      %"margin may be too high (yield left on the table).") ∅;
   (* arbitrationForegoneSatsPerSec *)
   MetricGauge "otedama_arbitration_foregone_sats_per_second"
     (%"Instantaneous opportunity cost of the current allocation: raw sats/s " ++
      %"sacrificed versus routing purely by yield, summed across devices. " ++
      %"Non-zero when hysteresis holds a device or a non-earnings policy " ++
      %"prefers a lower-yield stream. The magnitude companion to " ++
      %"otedama_arbitration_holds_total.") ∅;
   (* arbitrationExpectedYieldSatsPerSec *)
   MetricGauge "otedama_arbitration_expected_yield_sats_per_second"
     (%"The engine's forecast earning rate: summed ExpectedYield of the chosen " ++
      %"allocation. Compare against realized earnings to judge whether provider " ++
      %"quotes are accurate; combine with otedama_btc_usd_rate for an expected " ++
      %"$/day.") ∅;
   (* effectiveYieldSatsPerSec *)
   MetricGauge "otedama_effective_yield_sats_per_second"
     (%"Gross-minus-losses yield: otedama_arbitration_expected_yield_sats_per_second " ++
      %"scaled by the lifetime productive fraction (otedama_productive_seconds_total " ++
      %"/ otedama_uptime_seconds). Reliability dwarfs fee differences — a few percent " ++
      %"of downtime costs more than most inter-pool fee gaps — so this single number " ++
      %"captures both effects, unlike the instantaneous expected-yield gauge which " ++
      %"reads unchanged during a stall.") ∅;
   (* activeStreams *)
   MetricGauge "otedama_active_streams"
     (%"Number of live revenue streams in arbitration after pruning stale " ++
      %"(dead-provider) quotes. A drop indicates a provider stopped quoting.") ∅;
   (* devicesIdle *)
   MetricGauge "otedama_devices_idle"
     (%"Number of devices left idle this arbitration cycle (no compatible " ++
      %"stream, or none clearing the min_yield_sats_per_sec floor).") ∅;
   (* btcUSDRate *)
   MetricGauge "otedama_btc_usd_rate"
     (%"Current BTC/USD rate from provider consensus.") ∅;
   (* uptime *)
   MetricGauge "otedama_uptime_seconds"
     (%"Seconds since engine start.") ∅;
   (* startTime *)
   MetricGauge "otedama_start_time_seconds"
     (%"Unix timestamp at which engine started.") ∅;
   (* submitLatencyP50 *)
   MetricGauge "otedama_submit_latency_milliseconds"
     (%"Share-submission round-trip latency (submit→accept).") {[%"quantile" := %"0.5"]};
   (* submitLatencyP95 *)
   MetricGauge "otedama_submit_latency_milliseconds"
     (%"Share-submission round-trip latency (submit→accept).") {[%"quantile" := %"0.95"]};
   (* submitLatencyP99 *)
   MetricGauge "otedama_submit_latency_milliseconds"
     (%"Share-submission round-trip latency (submit→accept).") {[%"quantile" := %"0.99"]};
   (* sharesSubmitInFlight *)
   MetricGauge "otedama_shares_submit_in_flight"
     (%"Shares submitted to the pool but not yet judged (in flight). " ++
      %"A sustained or growing depth means the pool is slow or not " ++
      %"acknowledging submits.") ∅;
   (* shareAcceptanceRate *)
   MetricGauge "otedama_share_acceptance_rate"
     (%"Accepted shares / total judged shares (1.0 = all accepted).") ∅;
   (* sharesUnaccounted *)
   MetricGauge "otedama_shares_unaccounted"
     (%"Shares found locally but not yet judged by the pool (found − accepted − " ++
      %"rejected, clamped at 0). A sustained or growing value means found shares " ++
      %"are not reaching the pool (submission failures or drops).") ∅;
   (* productiveSeconds *)
   MetricCounter "otedama_productive_seconds_total"
     (%"Cumulative wall-clock seconds the miner actually produced hashrate " ++
      %"(not stalled, not curtailed). Effective uptime = this / otedama_uptime_seconds.") ∅;
   (* rejectRate *)
   MetricGauge "otedama_reject_rate"
     (%"Rejected shares / total judged shares (complement of acceptance_rate). " ++
      %"<0.005 excellent, >0.03 investigate immediately.") ∅;
   (* staleRate *)
   MetricGauge "otedama_stale_rate"
     (%"Stale-rejected shares / total judged shares. " ++
      %"High values indicate network latency or a pool that is too far away.") ∅;
   (* up *)
   MetricGauge "otedama_up"
     (%"1 if the miner is healthy (hashing, or intentionally paused by " ++
      %"curtailment), 0 if it has stalled when it should be hashing. " ++
      %"Use otedama_curtailed to distinguish a deliberate pause.") ∅;
   (* curtailed *)
   MetricGauge "otedama_curtailed"
     (%"1 if hashing is paused because BTC/USD is below curtail_below_btc_usd threshold, else 0.") ∅;
   (* powerWatts *)
   MetricGauge "otedama_power_watts"
     (%"Configured total system power draw in watts (from power_watts config). 0 when not set.") ∅;
   (* joulesPerTerahash *)
   MetricGauge "otedama_joules_per_terahash"
     (%"Energy efficiency: watts × 1e12 / hashrate. 0 when power_watts is not configured.") ∅;
   (* powerCostUSDPerHour *)
   MetricGauge "otedama_power_cost_usd_per_hour"
     (%"Estimated electricity cost: power_watts/1000 × electricity_price_per_kwh. " ++
      %"Combine with the BTC/USD rate and revenue to see net profit. " ++
      %"0 when power_watts or electricity_price_per_kwh is unset.") ∅;
   (* powerBreakevenFloor *)
   MetricGauge "otedama_power_breakeven_floor_sats_per_second"
     (%"Per-device yield floor (sats/sec) derived from power_watts × " ++
      %"electricity_price_per_kwh ÷ BTC/USD, split evenly across managed " ++
      %"devices. Streams below it are treated as unprofitable (as if below " ++
      %"min_yield_sats_per_sec). 0 when power data is unconfigured.") ∅;
   (* poolConnectionState *)
   MetricGauge "otedama_pool_connection_state"
     (%"Pool connection state: 0=disconnected, 1=connecting, 2=connected.") ∅;
   (* poolActiveIndex *)
   MetricGauge "otedama_pool_active_index"
     (%"0-based index of the active pool in the configured failover list.") ∅;
   (* payoutActiveIndex *)
   MetricGauge "otedama_payout_active_index"
     (%"0-based index of the active payout address in the failover list.") ∅;
   (* buildInfo *)
   MetricGauge "otedama_build_info"
     (%"Build information (constant 1); version/commit/goversion are labels.")
     {[%"version" := info_Version info; %"commit" := info_Commit info; %"goversion" := info_GoVersion info]};
   (* lastJobReceivedAt *)
   MetricGauge "otedama_last_job_received_seconds"
     (%"Unix timestamp of the most recent mining job received from the pool. " ++
      %"Alert when this is older than 2× the pool's expected notify interval " ++
      %"(~30–60 s) to detect a stale connection that looks connected but delivers no work.") ∅;
   (* clockSkewSeconds *)
   MetricGauge "otedama_clock_skew_seconds"
     (%"Maximum absolute offset (s) between the local system clock and the " ++
      %"wall-clock reported by BTC/USD rate-source servers via HTTP Date " ++
      %"headers. 0 until the first successful fetch. Alert when >120: TLS " ++
      %"certificate validation, mining nTime, and rate freshness break.") ∅;
   (* btcRateAgeSeconds *)
   MetricGauge "otedama_btc_rate_age_seconds"
     (%"Seconds since the BTC/USD rate was last successfully fetched. 0 until " ++
      %"the first success. Rises during a price-source outage even while " ++
      %"otedama_btc_usd_rate still shows the last good value; alert when this " ++
      %"exceeds ~2× the refresh interval to catch silent staleness.") ∅;
   (* rateSourcesOK *)
   MetricGauge "otedama_rate_sources_ok"
     (%"Number of BTC/USD price sources that returned a usable in-band reading " ++
      %"in the last fetch. Compare with otedama_rate_sources_total: ok < total " ++
      %"means the median is running on degraded redundancy (alert before ok=0).") ∅;
   (* rateSourcesTotal *)
   MetricGauge "otedama_rate_sources_total"
     (%"Number of BTC/USD price sources configured. The denominator for " ++
      %"otedama_rate_sources_ok.") ∅;
   (* poolDifficulty *)
   MetricGauge "otedama_pool_difficulty"
     (%"Current share difficulty assigned by the pool (mining.set_difficulty). " ++
      %"0 until the first assignment. A sudden drop indicates lost var-diff " ++
      %"trust; a high value with near-zero shares_found indicates difficulty " ++
      %"is above what the local hashrate can serve within a reasonable interval.") ∅;
   (* estimatedShareIntervalSeconds *)
   MetricGauge "otedama_estimated_share_interval_seconds"
     (%"Expected wall-clock seconds between consecutive shares: " ++
      %"pool_difficulty × 2^32 / hashrate. 0 when difficulty or hashrate " ++
      %"is unknown. Use to distinguish 'hardware is slow' from 'difficulty " ++
      %"is too high' when shares_found drops.") ∅].

Definition register (x : registration) (r : Registry) : option Registry :=
  match x with
  | MetricCounter n h ls => fst <$> NewCounter (%n) h ls r
  | MetricGauge n h ls => fst <$> NewGauge (%n) h ls r
  end.
Definition reg_name (x : registration) : list Z :=
  match x with MetricCounter n _ _ | MetricGauge n _ _ => %n end.
Definition reg_key (x : registration) : list Z :=
  match x with MetricCounter n _ ls | MetricGauge n _ ls => metricKey (%n) ls end.

(** ** engineMetrics *)

Record engineMetrics := {
  reg : Registry;
  rejectByReason : gmap (list Z) (list Z);
  lastRejectByReason : gmap (list Z) (list Z);
  sharesFoundPerDevice : gmap (list Z) (list Z);
  payoutInfo : gmap (list Z) (list Z);
  payoutActiveMasked : list Z;
}.

Definition buildInfo (info : Info) : list Z :=
  metricKey (%"otedama_build_info")
    {[%"version" := info_Version info; %"commit" := info_Commit info; %"goversion" := info_GoVersion info]}.

Definition newEngineMetrics (info : Info) (r : Registry) : option engineMetrics :=
  r ← foldl (λ o x, o ≫= register x) (Some r) (registrations info);
  Some {| reg := gauge_Set (buildInfo info) fone r; rejectByReason := ∅; lastRejectByReason := ∅;
          sharesFoundPerDevice := ∅; payoutInfo := ∅; payoutActiveMasked := [] |}.

(** ** Metrics created on first use *)

Definition rejectName : list Z := %"otedama_shares_rejected_by_reason_total".
Definition lastRejectName : list Z := %"otedama_last_reject_seconds".
Definition deviceName : list Z := %"otedama_device_shares_found_total".
Definition payoutName : list Z := %"otedama_payout_info".

Definition rejectReason (category : list Z) (m : engineMetrics) : option (engineMetrics * list Z) :=
  match rejectByReason m !! category with
  | Some c => Some (m, c)
  | None =>
      '(r, c) ← NewCounter rejectName (%"Rejected shares broken down by inferred root cause.")
                  {[%"reason" := category]} (reg m);
      Some ({| reg := r; rejectByReason := <[category := c]> (rejectByReason m);
               lastRejectByReason := lastRejectByReason m;
               sharesFoundPerDevice := sharesFoundPerDevice m; payoutInfo := payoutInfo m;
               payoutActiveMasked := payoutActiveMasked m |}, c)
  end.

Definition with_reg (f : Registry → Registry) (m : engineMetrics) : engineMetrics :=
  {| reg := f (reg m); rejectByReason := rejectByReason m; lastRejectByReason := lastRejectByReason m;
     sharesFoundPerDevice := sharesFoundPerDevice m; payoutInfo := payoutInfo m;
     payoutActiveMasked := payoutActiveMasked m |}.

Definition touchLastReject (category : list Z) (now : Z) (m : engineMetrics) : option engineMetrics :=
  '(m, g) ←
    match lastRejectByReason m !! category with
    | Some g => Some (m, g)
    | None =>
        '(r, g) ← NewGauge lastRejectName
          (%"Unix timestamp of the most recent share rejection of this category. " ++
           %"Pairs with otedama_shares_rejected_by_reason_total to distinguish " ++
           %"an ongoing rejection problem (value near now) from a past one " ++
           %"that has since cleared (value hours old).") {[%"reason" := category]} (reg m);
        Some ({| reg := r; rejectByReason := rejectByReason m;
                 lastRejectByReason := <[category := g]> (lastRejectByReason m);
                 sharesFoundPerDevice := sharesFoundPerDevice m; payoutInfo := payoutInfo m;
                 payoutActiveMasked := payoutActiveMasked m |}, g)
    end;
  Some (with_reg (gauge_Set g (f64_of_Z now)) m).

Definition incSharesFoundForDevice (deviceID : list Z) (m : engineMetrics) : option engineMetrics :=
  if bool_decide (deviceID = []) then Some m
  else
    '(m, c) ←
      match sharesFoundPerDevice m !! deviceID with
      | Some c => Some (m, c)
      | None =>
          '(r, c) ← NewCounter deviceName
            (%"Total shares found by this device. " ++
             %"Per-device breakdown of otedama_shares_found_total.") {[%"device" := deviceID]} (reg m);
          Some ({| reg := r; rejectByReason := rejectByReason m;
                   lastRejectByReason := lastRejectByReason m;
                   sharesFoundPerDevice := <[deviceID := c]> (sharesFoundPerDevice m);
                   payoutInfo := payoutInfo m; payoutActiveMasked := payoutActiveMasked m |}, c)
      end;
    Some (with_reg (counter_Inc c) m).

Definition setActivePayout (masked : list Z) (m : engineMetrics) : option engineMetrics :=
  if bool_decide (masked = []) then Some m
  else if bool_decide (masked = payoutActiveMasked m) then Some m
  else
    let prev := payoutActiveMasked m in
    let m := if bool_decide (prev = []) then m
             else match payoutInfo m !! prev with
                  | Some g => with_reg (gauge_Set g fzero) m
                  | None => m
                  end in
    '(m, g) ←
      match payoutInfo m !! masked with
      | Some g => Some (m, g)
      | None =>
          '(r, g) ← NewGauge payoutName
            (%"Active payout destination (masked). The series valued 1 is the address " ++
             %"currently receiving rewards; tracks payout-address failover.")
            {[%"address" := masked]} (reg m);
          Some ({| reg := r; rejectByReason := rejectByReason m;
                   lastRejectByReason := lastRejectByReason m;
                   sharesFoundPerDevice := sharesFoundPerDevice m;
                   payoutInfo := <[masked := g]> (payoutInfo m);
                   payoutActiveMasked := payoutActiveMasked m |}, g)
      end;
    Some {| reg := gauge_Set g fone (reg m); rejectByReason := rejectByReason m;
            lastRejectByReason := lastRejectByReason m;
            sharesFoundPerDevice := sharesFoundPerDevice m; payoutInfo := payoutInfo m;
            payoutActiveMasked := masked |}.

(** ** Share rates *)

Definition sharesFound : list Z := %"otedama_shares_found_total".
Definition sharesAccepted : list Z := metricKey (%"otedama_shares_total") {[%"status" := %"accepted"]}.
Definition sharesRejected : list Z := metricKey (%"otedama_shares_total") {[%"status" := %"rejected"]}.
Definition shareAcceptanceRate : list Z := %"otedama_share_acceptance_rate".
Definition sharesUnaccounted : list Z := %"otedama_shares_unaccounted".
Definition rejectRate : list Z := %"otedama_reject_rate".
Definition staleRate : list Z := %"otedama_stale_rate".

Definition updateShareRates (m : engineMetrics) : engineMetrics * (float64 * Z) :=
  let accepted := counter_Value sharesAccepted (reg m) in
  let rejected := counter_Value sharesRejected (reg m) in
  let judged := wrap 64 (accepted + rejected) in
  let rate := acceptanceRate accepted rejected in
  let r := gauge_Set shareAcceptanceRate rate (reg m) in
  let found := counter_Value sharesFound r in
  let unaccounted := if judged <? found then found - judged else 0 in
  let r := gauge_Set sharesUnaccounted (f64_of_Z unaccounted) r in
  let r :=
    if judged =? 0 then gauge_Set staleRate fzero (gauge_Set rejectRate fzero r)
    else
      let r := gauge_Set rejectRate (fdiv (f64_of_Z rejected) (f64_of_Z judged)) r in
      let stale := match rejectByReason m !! (%"stale") with
                   | Some c => counter_Value c r
                   | None => 0
                   end in
      gauge_Set staleRate (fdiv (f64_of_Z stale) (f64_of_Z judged)) r in
  (with_reg (λ _, r) m, (rate, judged)).

(** * The labelled series are exact tallies *)

(** What the engine does with its metrics: a rejected share is counted and
    stamped, a found share and the active payout address are recorded, the rates
    are recomputed, and the registered metrics are updated. *)
Inductive mevent :=
  | Rejected (category : list Z) (now : Z)
  | FoundBy (device : list Z)
  | Paying (masked : list Z)
  | Rates
  | Counted (i : nat) (delta : Z)
  | Gauged (i : nat) (v : float64).

Definition handle (info : Info) (i : nat) : list Z := from_option reg_key [] (registrations info !! i).

Definition estep (info : Info) (e : mevent) (m : engineMetrics) : option engineMetrics :=
  match e with
  | Rejected c now => '(m, k) ← rejectReason c m; touchLastReject c now (with_reg (counter_Inc k) m)
  | FoundBy d => incSharesFoundForDevice d m
  | Paying a => setActivePayout a m
  | Rates => Some (updateShareRates m).1
  | Counted i d => Some (with_reg (counter_Add (handle info i) d) m)
  | Gauged i v => Some (with_reg (gauge_Set (handle info i) v) m)
  end.
Definition erun (info : Info) (es : list mevent) : option engineMetrics :=
  foldl (λ o e, o ≫= estep info e) (newEngineMetrics info NewRegistry) es.

(** The history's own tallies. *)
Definition rejections (c : list Z) (es : list mevent) : Z :=
  foldl (λ n e, match e with Rejected c' _ => if bool_decide (c' = c) then n + 1 else n | _ => n end) 0 es.
Definition lastRejection (c : list Z) (es : list mevent) : float64 :=
  foldl (λ v e, match e with Rejected c' t => if bool_decide (c' = c) then f64_of_Z t else v | _ => v end) fzero es.
Definition findings (d : list Z) (es : list mevent) : Z :=
  foldl (λ n e, match e with FoundBy d' => if bool_decide (d' = d) then n + 1 else n | _ => n end) 0 es.
Definition payee (es : list mevent) : list Z :=
  foldl (λ a e, match e with Paying a' => if bool_decide (a' = []) then a else a' | _ => a end) [] es.

(** ** Names *)

Definition counterNames (info : Info) : list (list Z) :=
  [rejectName; deviceName] ++ omap (λ x, match x with MetricCounter n _ _ => Some (%n) | _ => None end)
                                (registrations info).
Definition gaugeNames (info : Info) : list (list Z) :=
  [lastRejectName; payoutName] ++ omap (λ x, match x with MetricGauge n _ _ => Some (%n) | _ => None end)
                                    (registrations info).
Record namesOk (info : Info) (r : Registry) : Prop := {
  nm_counter k c : counters r !! k = Some c → c_name c ∈ counterNames info;
  nm_gauge k g : gauges r !! k = Some g → g_name g ∈ gaugeNames info;
}.

Lemma names_disjoint info n : n ∈ counterNames info → n ∈ gaugeNames info → False.
Proof.
  assert (forallb (λ n, negb (existsb (λ n', bool_decide (n' = n)) (gaugeNames info))) (counterNames info) = true)
    as H by (vm_compute; reflexivity).
  rewrite forallb_forall in H. intros H1%list_elem_of_In H2%list_elem_of_In. specialize (H n H1).
  apply negb_true_iff, not_true_iff_false in H. apply H, existsb_exists. exists n. split; [done|].
  by apply bool_decide_eq_true_2.
Qed.

(** ** Families with one label *)

Definition one (L v : list Z) : labelmap := {[L := v]}.

Definition CF (N L : list Z) (cache : gmap (list Z) (list Z)) (tally : list Z → Z) (r : Registry) : Prop :=
  ∀ v, match cache !! v with
       | Some k => k = metricKey N (one L v) ∧ c_value <$> counters r !! k = Some (tally v)
       | None => counters r !! metricKey N (one L v) = None ∧ tally v = 0
       end.
Definition GF (N L : list Z) (cache : gmap (list Z) (list Z)) (tally : list Z → float64) (r : Registry) : Prop :=
  ∀ v, match cache !! v with
       | Some k => k = metricKey N (one L v) ∧ g_value <$> gauges r !! k = Some (tally v)
       | None => gauges r !! metricKey N (one L v) = None ∧ tally v = fzero
       end.

Lemma CF_value N L cache tally r v : CF N L cache tally r → counter_Value (metricKey N (one L v)) r = tally v.
Proof.
  intros H. specialize (H v). unfold counter_Value. destruct (cache !! v) as [k|].
  - destruct H as [-> H]. by destruct (counters r !! _); simplify_eq/=.
  - by destruct H as [-> ->].
Qed.
Lemma GF_value N L cache tally r v : GF N L cache tally r → gauge_Value (metricKey N (one L v)) r = tally v.
Proof.
  intros H. specialize (H v). unfold gauge_Value. destruct (cache !! v) as [k|].
  - destruct H as [-> H]. by destruct (gauges r !! _); simplify_eq/=.
  - by destruct H as [-> ->].
Qed.

Lemma CF_frame N L cache tally r r' :
  (∀ v, counters r' !! metricKey N (one L v) = counters r !! metricKey N (one L v)) →
  CF N L cache tally r → CF N L cache tally r'.
Proof.
  intros HF H v. specialize (H v). specialize (HF v). destruct (cache !! v); [|by rewrite HF].
  destruct H as [-> H]. by rewrite HF.
Qed.
Lemma GF_frame N L cache tally r r' :
  (∀ v, gauges r' !! metricKey N (one L v) = gauges r !! metricKey N (one L v)) →
  GF N L cache tally r → GF N L cache tally r'.
Proof.
  intros HF H v. specialize (H v). specialize (HF v). destruct (cache !! v); [|by rewrite HF].
  destruct H as [-> H]. by rewrite HF.
Qed.

Lemma key_neq N L v N' ls :
  isValidMetricName N = true → isValidMetricName N' = true → N ≠ N' → metricKey N (one L v) ≠ metricKey N' ls.
Proof. intros H H' Hn E. by apply metricKey_name in E. Qed.

Lemma single_key_neq N L u v : u ≠ v → metricKey N (one L u) ≠ metricKey N (one L v).
Proof. intros H E. by apply metricKey_single_inj in E. Qed.

Lemma CF_add N L cache tally v d r :
  CF N L cache tally r → is_Some (cache !! v) →
  CF N L cache (λ u, if bool_decide (v = u) then wrap 64 (tally u + d) else tally u)
    (counter_Add (metricKey N (one L v)) d r).
Proof.
  intros H [k0 Hv] u. pose proof (H u) as Hu. cbn [counter_Add counters]. case_bool_decide as E.
  - subst u. rewrite Hv in *. destruct Hu as [-> Hc]. split; [done|].
    rewrite lookup_alter_eq. destruct (counters r !! _) as [c|]; [|done].
    cbn in *. by injection Hc as ->.
  - destruct (cache !! u); [destruct Hu as [-> Hu]|].
    + by rewrite lookup_alter_ne by by apply single_key_neq.
    + by rewrite lookup_alter_ne by by apply single_key_neq.
Qed.
Lemma GF_set N L cache tally v x r :
  GF N L cache tally r → is_Some (cache !! v) →
  GF N L cache (λ u, if bool_decide (v = u) then x else tally u) (gauge_Set (metricKey N (one L v)) x r).
Proof.
  intros H [k0 Hv] u. pose proof (H u) as Hu. cbn [gauge_Set gauges]. case_bool_decide as E.
  - subst u. rewrite Hv in *. destruct Hu as [-> Hc]. split; [done|].
    rewrite lookup_alter_eq. by destruct (gauges r !! _) as [c|].
  - destruct (cache !! u); [destruct Hu as [-> Hu]|].
    + by rewrite lookup_alter_ne by by apply single_key_neq.
    + by rewrite lookup_alter_ne by by apply single_key_neq.
Qed.

Lemma CF_ext N L cache t t' r : (∀ v, t v = t' v) → CF N L cache t r → CF N L cache t' r.
Proof. intros E H v. specialize (H v). rewrite <-E. done. Qed.
Lemma GF_ext N L cache t t' r : (∀ v, t v = t' v) → GF N L cache t r → GF N L cache t' r.
Proof. intros E H v. specialize (H v). rewrite <-E. done. Qed.

(** The metric for a label value, created when missing. *)
Definition counterFor (N H L v : list Z) (cache : gmap (list Z) (list Z)) (r : Registry)
    : option (Registry * gmap (list Z) (list Z) * list Z) :=
  match cache !! v with
  | Some c => Some (r, cache, c)
  | None => '(r, c) ← NewCounter N H (one L v) r; Some (r, <[v := c]> cache, c)
  end.
Definition gaugeFor (N H L v : list Z) (cache : gmap (list Z) (list Z)) (r : Registry)
    : option (Registry * gmap (list Z) (list Z) * list Z) :=
  match cache !! v with
  | Some c => Some (r, cache, c)
  | None => '(r, c) ← NewGauge N H (one L v) r; Some (r, <[v := c]> cache, c)
  end.

Lemma counterFor_spec info N H L v cache tally r :
  isValidMetricName N = true → isValidLabelName L = true → N ∈ counterNames info →
  regOk r → namesOk info r → CF N L cache tally r →
  ∃ r' cache', counterFor N H L v cache r = Some (r', cache', metricKey N (one L v)) ∧
    regOk r' ∧ namesOk info r' ∧ CF N L cache' tally r' ∧ is_Some (cache' !! v) ∧
    gauges r' = gauges r ∧
    ∀ N' ls, isValidMetricName N' = true → N' ≠ N → counters r' !! metricKey N' ls = counters r !! metricKey N' ls.
Proof.
  intros HN HL Hin HR [HC HG] HF. unfold counterFor. destruct (cache !! v) as [k|] eqn:Ev.
  { pose proof (HF v) as Hv. rewrite Ev in Hv. destruct Hv as [-> _]. exists r, cache. by split_and!. }
  destruct (NewCounter_total N H (one L v) r HN (single_label_valid _ _ HL)) as (r' & E & Eg & Ek & Ef).
  { intros k g Hg En. eapply names_disjoint; [exact Hin|]. rewrite <-En. by eapply HG. }
  destruct (NewCounter_ok _ _ _ _ _ _ HR E) as (HR' & _). rewrite E. cbn [mbind option_bind].
  pose proof (HF v) as Hv. rewrite Ev in Hv. destruct Hv as [Hk0 Ht0]. rewrite Hk0 in Ek. cbn in Ek.
  exists r', (<[v := metricKey N (one L v)]> cache). split_and!; try done.
  - split; [|intros k g; rewrite Eg; apply HG]. intros k c Hc.
    destruct (decide (k = metricKey N (one L v))) as [-> |Hne]; [|rewrite Ef in Hc by done; by eapply HC].
    rewrite Ek in Hc. by injection Hc as <-.
  - intros u. destruct (decide (u = v)) as [-> |Hne].
    + rewrite lookup_insert_eq, Ek. split; [done|]. cbn. by rewrite Ht0.
    + rewrite lookup_insert_ne by done. specialize (HF u).
      destruct (cache !! u); [destruct HF as [-> ?]|]; by rewrite Ef by by apply single_key_neq.
  - rewrite lookup_insert_eq. eauto.
  - intros N' ls HN' Hne. apply Ef. intros E'. by apply metricKey_name in E'.
Qed.
Lemma gaugeFor_spec info N H L v cache tally r :
  isValidMetricName N = true → isValidLabelName L = true → N ∈ gaugeNames info →
  regOk r → namesOk info r → GF N L cache tally r →
  ∃ r' cache', gaugeFor N H L v cache r = Some (r', cache', metricKey N (one L v)) ∧
    regOk r' ∧ namesOk info r' ∧ GF N L cache' tally r' ∧ is_Some (cache' !! v) ∧
    counters r' = counters r ∧
    ∀ N' ls, isValidMetricName N' = true → N' ≠ N → gauges r' !! metricKey N' ls = gauges r !! metricKey N' ls.
Proof.
  intros HN HL Hin HR [HC HG] HF. unfold gaugeFor. destruct (cache !! v) as [k|] eqn:Ev.
  { pose proof (HF v) as Hv. rewrite Ev in Hv. destruct Hv as [-> _]. exists r, cache. by split_and!. }
  destruct (NewGauge_total N H (one L v) r HN (single_label_valid _ _ HL)) as (r' & E & Eg & Ek & Ef).
  { intros k c Hc En. eapply names_disjoint; [|exact Hin]. rewrite <-En. by eapply HC. }
  destruct (NewGauge_ok _ _ _ _ _ _ HR E) as (HR' & _). rewrite E. cbn [mbind option_bind].
  pose proof (HF v) as Hv. rewrite Ev in Hv. destruct Hv as [Hk0 Ht0]. rewrite Hk0 in Ek. cbn in Ek.
  exists r', (<[v := metricKey N (one L v)]> cache). split_and!; try done.
  - split; [intros k c; rewrite Eg; apply HC|]. intros k c Hc.
    destruct (decide (k = metricKey N (one L v))) as [-> |Hne]; [|rewrite Ef in Hc by done; by eapply HG].
    rewrite Ek in Hc. by injection Hc as <-.
  - intros u. destruct (decide (u = v)) as [-> |Hne].
    + rewrite lookup_insert_eq, Ek. split; [done|]. cbn. by rewrite Ht0.
    + rewrite lookup_insert_ne by done. specialize (HF u).
      destruct (cache !! u); [destruct HF as [-> ?]|]; by rewrite Ef by by apply single_key_neq.
  - rewrite lookup_insert_eq. eauto.
  - intros N' ls HN' Hne. apply Ef. intros E'. by apply metricKey_name in E'.
Qed.

(** ** The static registrations *)

Definition regValid (info : Info) (x : registration) : Prop :=
  match x with
  | MetricCounter n _ ls => isValidMetricName (%n) = true ∧ validateLabelNames ls = true ∧ %n ∈ counterNames info
  | MetricGauge n _ ls => isValidMetricName (%n) = true ∧ validateLabelNames ls = true ∧ %n ∈ gaugeNames info
  end.

Lemma registrations_valid info : Forall (regValid info) (registrations info).
Proof.
  set (mem := λ (n : list Z) l, existsb (λ n', bool_decide (n' = n)) l).
  assert (∀ n l, mem n l = true → n ∈ l) as Hmem.
  { intros n l (n' & Hin & ->%bool_decide_eq_true)%existsb_exists. by apply list_elem_of_In. }
  assert (forallb (λ x, match x with
    | MetricCounter n _ ls => isValidMetricName (%n) && validateLabelNames ls && mem (%n) (counterNames info)
    | MetricGauge n _ ls => isValidMetricName (%n) && validateLabelNames ls && mem (%n) (gaugeNames info)
    end) (registrations info) = true) as H by (vm_compute; reflexivity).
  rewrite forallb_forall in H. apply Forall_forall. intros x Hx%list_elem_of_In. specialize (H x Hx).
  destruct x; cbn; rewrite !andb_true_iff in H; destruct H as [[? ?] ?]; auto.
Qed.

Lemma register_ok info x r :
  regValid info x → regOk r → namesOk info r →
  ∃ r', register x r = Some r' ∧ regOk r' ∧ namesOk info r' ∧
    ∀ N ls, isValidMetricName N = true → N ≠ reg_name x →
      counters r' !! metricKey N ls = counters r !! metricKey N ls ∧
      gauges r' !! metricKey N ls = gauges r !! metricKey N ls.
Proof.
  intros HV HR [HC HG]. destruct x as [n h ls|n h ls]; destruct HV as (Hn & Hl & Hin); cbn [register reg_name].
  - destruct (NewCounter_total (%n) h ls r Hn Hl) as (r' & E & Eg & Ek & Ef).
    { intros k g Hg En. eapply names_disjoint; [exact Hin|]. rewrite <-En. by eapply HG. }
    destruct (NewCounter_ok _ _ _ _ _ _ HR E) as (HR' & _). exists r'. rewrite E. split_and!; [done..| |].
    + split; [|intros k g; rewrite Eg; apply HG]. intros k c Hc.
      destruct (decide (k = metricKey (%n) ls)) as [-> |Hne]; [|rewrite Ef in Hc by done; by eapply HC].
      rewrite Ek in Hc. injection Hc as <-. destruct (counters r !! _) eqn:E0; [by eapply HC|done].
    + intros N ls' HN Hne. split; [|by rewrite Eg]. apply Ef. intros E'. by apply metricKey_name in E'.
  - destruct (NewGauge_total (%n) h ls r Hn Hl) as (r' & E & Eg & Ek & Ef).
    { intros k c Hc En. eapply names_disjoint; [|exact Hin]. rewrite <-En. by eapply HC. }
    destruct (NewGauge_ok _ _ _ _ _ _ HR E) as (HR' & _). exists r'. rewrite E. split_and!; [done..| |].
    + split; [intros k c; rewrite Eg; apply HC|]. intros k c Hc.
      destruct (decide (k = metricKey (%n) ls)) as [-> |Hne]; [|rewrite Ef in Hc by done; by eapply HG].
      rewrite Ek in Hc. injection Hc as <-. destruct (gauges r !! _) eqn:E0; [by eapply HG|done].
    + intros N ls' HN Hne. split; [by rewrite Eg|]. apply Ef. intros E'. by apply metricKey_name in E'.
Qed.

Lemma registers_ok info xs r :
  Forall (regValid info) xs → regOk r → namesOk info r →
  ∃ r', foldl (λ o x, o ≫= register x) (Some r) xs = Some r' ∧ regOk r' ∧ namesOk info r' ∧
    ∀ N ls, isValidMetricName N = true → N ∉ reg_name <$> xs →
      counters r' !! metricKey N ls = counters r !! metricKey N ls ∧
      gauges r' !! metricKey N ls = gauges r !! metricKey N ls.
Proof.
  intros HV. revert r. induction HV as [|x xs Hx _ IH]; intros r HR Hn; [exists r; by split_and!|].
  destruct (register_ok info x r Hx HR Hn) as (r1 & E1 & HR1 & Hn1 & F1).
  destruct (IH r1 HR1 Hn1) as (r2 & E2 & HR2 & Hn2 & F2). exists r2. cbn [foldl mbind option_bind].
  rewrite E1. split_and!; [done..|]. intros N ls HN [Hne Hni]%not_elem_of_cons.
  destruct (F1 N ls HN Hne) as [G1 G2], (F2 N ls HN Hni) as [G3 G4]. by rewrite G3, G4.
Qed.

Lemma namesOk_Set info k v r : namesOk info r → namesOk info (gauge_Set k v r).
Proof.
  intros [H1 H2]. split; cbn; [done|]. intros k' g [(_ & g0 & Hg & ->)|[_ Hg]]%lookup_alter_Some;
    exact (H2 _ _ Hg).
Qed.
Lemma namesOk_Add info k d r : namesOk info r → namesOk info (counter_Add k d r).
Proof.
  intros [H1 H2]. split; cbn; [|done]. intros k' g [(_ & g0 & Hg & ->)|[_ Hg]]%lookup_alter_Some;
    exact (H1 _ _ Hg).
Qed.

(** ** The invariant *)

Definition devTally (d : list Z) (es : list mevent) : Z :=
  if bool_decide (d = []) then 0 else wrap 64 (findings d es).
Definition payTally (a : list Z) (es : list mevent) : float64 :=
  if bool_decide (a ≠ [] ∧ a = payee es) then fone else fzero.

Record minv (info : Info) (es : list mevent) (m : engineMetrics) : Prop := {
  mi_reg : regOk (reg m);
  mi_names : namesOk info (reg m);
  mi_dev : CF deviceName (%"device") (sharesFoundPerDevice m) (λ d, devTally d es) (reg m);
  mi_rej : CF rejectName (%"reason") (rejectByReason m) (λ c, wrap 64 (rejections c es)) (reg m);
  mi_last : GF lastRejectName (%"reason") (lastRejectByReason m) (λ c, lastRejection c es) (reg m);
  mi_pay : GF payoutName (%"address") (payoutInfo m) (λ a, payTally a es) (reg m);
  mi_act : payoutActiveMasked m = payee es;
}.

Definition lazyNames : list (list Z) := [rejectName; lastRejectName; deviceName; payoutName].

Lemma in_reject : rejectName ∈ lazyNames.
Proof. unfold lazyNames. set_solver. Qed.
Lemma in_lastReject : lastRejectName ∈ lazyNames.
Proof. unfold lazyNames. set_solver. Qed.
Lemma in_device : deviceName ∈ lazyNames.
Proof. unfold lazyNames. set_solver. Qed.
Lemma in_payout : payoutName ∈ lazyNames.
Proof. unfold lazyNames. set_solver. Qed.
Ltac lazy_mem := first [exact in_reject | exact in_lastReject | exact in_device | exact in_payout].

Lemma lazy_valid N : N ∈ lazyNames → isValidMetricName N = true.
Proof.
  intros H. repeat (apply elem_of_cons in H as [-> |H]; [vm_compute; reflexivity|]). by apply elem_of_nil in H.
Qed.

Lemma lazy_not_static info N : N ∈ lazyNames → N ∉ reg_name <$> registrations info.
Proof.
  assert (forallb (λ N, negb (existsb (λ x, bool_decide (reg_name x = N)) (registrations info))) lazyNames = true)
    as H by (vm_compute; reflexivity).
  rewrite forallb_forall in H. intros HN%list_elem_of_In (x & -> & Hx)%list_elem_of_fmap. specialize (H _ HN).
  apply negb_true_iff, not_true_iff_false in H. apply H, existsb_exists. exists x.
  split; [by apply list_elem_of_In|]. by apply bool_decide_eq_true_2.
Qed.

Lemma static_key_neq info x N L v :
  N ∈ lazyNames → x ∈ registrations info → metricKey N (one L v) ≠ reg_key x.
Proof.
  intros HN Hx E. pose proof (lazy_not_static info N HN) as Hs. apply Hs, list_elem_of_fmap. exists x.
  split; [|done]. pose proof (registrations_valid info) as HV. rewrite Forall_forall in HV. specialize (HV x Hx).
  destruct x; destruct HV as (Hn & _); cbn in *; by apply metricKey_name in E; [|apply lazy_valid|].
Qed.

Lemma handle_key_neq info i N L v :
  N ∈ lazyNames → metricKey N (one L v) ≠ handle info i.
Proof.
  intros HN. unfold handle. destruct (registrations info !! i) as [x|] eqn:E; cbn.
  - eapply static_key_neq; [done|]. by eapply list_elem_of_lookup_2.
  - destruct (metricName_word N (lazy_valid N HN)) as [Hne _].
    destruct (metricKey_shape N (one L v)) as (t & -> & _). by intros [-> _]%app_nil.
Qed.

Lemma CF_add_other N L cache tally k d r :
  (∀ v, metricKey N (one L v) ≠ k) → CF N L cache tally r → CF N L cache tally (counter_Add k d r).
Proof. intros H. apply CF_frame. intros v. cbn. by rewrite lookup_alter_ne by (intros E; by apply (H v)). Qed.
Lemma GF_set_other N L cache tally k x r :
  (∀ v, metricKey N (one L v) ≠ k) → GF N L cache tally r → GF N L cache tally (gauge_Set k x r).
Proof. intros H. apply GF_frame. intros v. cbn. by rewrite lookup_alter_ne by (intros E; by apply (H v)). Qed.

Lemma lazy_keys_neq N N' L v L' v' :
  N ∈ lazyNames → N' ∈ lazyNames → N ≠ N' → metricKey N (one L v) ≠ metricKey N' (one L' v').
Proof. intros ? ? ?. by apply key_neq; [apply lazy_valid..|]. Qed.

(** Only the metrics with labels of their own matter to the tallies. *)
Lemma minv_static info es m r :
  minv info es m → regOk r → namesOk info r →
  (∀ N L v, N ∈ lazyNames →
     counters r !! metricKey N (one L v) = counters (reg m) !! metricKey N (one L v) ∧
     gauges r !! metricKey N (one L v) = gauges (reg m) !! metricKey N (one L v)) →
  minv info es (with_reg (λ _, r) m).
Proof.
  intros [_ _ H3 H4 H5 H6 H7] HR HN HF. split; cbn; try done.
  - eapply CF_frame; [|exact H3]. intros v. apply HF. lazy_mem.
  - eapply CF_frame; [|exact H4]. intros v. apply HF. lazy_mem.
  - eapply GF_frame; [|exact H5]. intros v. apply HF. lazy_mem.
  - eapply GF_frame; [|exact H6]. intros v. apply HF. lazy_mem.
Qed.

Lemma minv_Add info es m i d :
  minv info es m → minv info es (with_reg (counter_Add (handle info i) d) m).
Proof.
  intros H. apply (minv_static info es m (counter_Add (handle info i) d (reg m)) H).
  - apply counter_Add_ok, H.
  - apply namesOk_Add, H.
  - intros N L v HN. cbn. split; [|done]. rewrite lookup_alter_ne; [done|].
    intros E. by apply (handle_key_neq info i N L v).
Qed.

Lemma minv_Set info es m k v :
  minv info es m → (∀ N L v, N ∈ lazyNames → metricKey N (one L v) ≠ k) →
  minv info es (with_reg (gauge_Set k v) m).
Proof.
  intros H Hk. apply (minv_static info es m (gauge_Set k v (reg m)) H).
  - apply gauge_Set_ok, H.
  - apply namesOk_Set, H.
  - intros N L u HN. cbn. split; [done|]. rewrite lookup_alter_ne; [done|]. intros E. by apply (Hk N L u).
Qed.

Lemma minv_same info es e m :
  (∀ d, findings d (es ++ [e]) = findings d es) → (∀ c, rejections c (es ++ [e]) = rejections c es) →
  (∀ c, lastRejection c (es ++ [e]) = lastRejection c es) → payee (es ++ [e]) = payee es →
  minv info es m → minv info (es ++ [e]) m.
Proof.
  intros E1 E2 E3 E4 [H1 H2 H3 H4 H5 H6 H7]. split; try done; [..|by rewrite E4].
  - eapply CF_ext; [|exact H3]. intros d. unfold devTally. by rewrite E1.
  - eapply CF_ext; [|exact H4]. intros d. cbn. by rewrite E2.
  - eapply GF_ext; [|exact H5]. intros d. cbn. by rewrite E3.
  - eapply GF_ext; [|exact H6]. intros d. unfold payTally. by rewrite E4.
Qed.

Ltac tallies := intros; unfold findings, rejections, lastRejection, payee; rewrite foldl_app; cbn [foldl].

Lemma static_name_neq info n N L v :
  n ∈ reg_name <$> registrations info → N ∈ lazyNames → metricKey N (one L v) ≠ n.
Proof.
  intros Hn HN E. pose proof (registrations_valid info) as HV. rewrite Forall_forall in HV.
  assert (isValidMetricName n = true) as Hv.
  { apply list_elem_of_fmap in Hn as (x & -> & Hx). specialize (HV x Hx). destruct x; apply HV. }
  assert (N = n) as ->; [|by apply (lazy_not_static info n)].
  apply (metricKey_name N n (one L v) ∅); [by apply lazy_valid|done|].
  rewrite E. unfold metricKey, sortedKeys. rewrite map_to_list_empty. cbn. by rewrite app_nil_r.
Qed.

Lemma rates_inv info es m : minv info es m → minv info (es ++ [Rates]) (updateShareRates m).1.
Proof.
  intros H. apply minv_same; [tallies; done..|].
  assert (∀ n r, n ∈ [shareAcceptanceRate; sharesUnaccounted; rejectRate; staleRate] →
    minv info es (with_reg (λ _, r) m) → ∀ v, minv info es (with_reg (λ _, gauge_Set n v r) m)) as HS.
  { intros n r Hn Hr v. change (minv info es (with_reg (gauge_Set n v) (with_reg (λ _, r) m))).
    apply minv_Set; [done|]. intros N L u HN. apply (static_name_neq info); [|done].
    assert (forallb (λ n, existsb (λ n', bool_decide (n' = n)) (reg_name <$> registrations info))
      [shareAcceptanceRate; sharesUnaccounted; rejectRate; staleRate] = true) as HB by (vm_compute; reflexivity).
    rewrite forallb_forall in HB. apply list_elem_of_In, HB, existsb_exists in Hn as (n' & Hin & ->%bool_decide_eq_true).
    by apply list_elem_of_In. }
  assert (minv info es (with_reg (λ _, reg m) m)) as H0 by (by destruct m).
  unfold updateShareRates. cbn [fst]. case_if; repeat (apply HS; [set_solver|]); done.
Qed.

(** ** The labelled events *)

Definition deviceHelp : list Z :=
  %"Total shares found by this device. " ++ %"Per-device breakdown of otedama_shares_found_total.".
Definition rejectHelp : list Z := %"Rejected shares broken down by inferred root cause.".
Definition lastRejectHelp : list Z :=
  %"Unix timestamp of the most recent share rejection of this category. " ++
  %"Pairs with otedama_shares_rejected_by_reason_total to distinguish " ++
  %"an ongoing rejection problem (value near now) from a past one " ++
  %"that has since cleared (value hours old).".
Definition payoutHelp : list Z :=
  %"Active payout destination (masked). The series valued 1 is the address " ++
  %"currently receiving rewards; tracks payout-address failover.".

Lemma found_eq d m :
  incSharesFoundForDevice d m =
  if bool_decide (d = []) then Some m
  else '(r, cache, c) ← counterFor deviceName deviceHelp (%"device") d (sharesFoundPerDevice m) (reg m);
       Some {| reg := counter_Inc c r; rejectByReason := rejectByReason m;
               lastRejectByReason := lastRejectByReason m; sharesFoundPerDevice := cache;
               payoutInfo := payoutInfo m; payoutActiveMasked := payoutActiveMasked m |}.
Proof.
  unfold incSharesFoundForDevice, counterFor. case_bool_decide; [done|].
  destruct (sharesFoundPerDevice m !! d); [done|]. unfold one. fold deviceHelp.
  by destruct (NewCounter _ _ _ _) as [[r k]|].
Qed.

Lemma rejected_eq c now m :
  ('(m, k) ← rejectReason c m; touchLastReject c now (with_reg (counter_Inc k) m)) =
  ('(r, cache, k) ← counterFor rejectName rejectHelp (%"reason") c (rejectByReason m) (reg m);
   '(r, cache', g) ← gaugeFor lastRejectName lastRejectHelp (%"reason") c (lastRejectByReason m) (counter_Inc k r);
   Some {| reg := gauge_Set g (f64_of_Z now) r; rejectByReason := cache; lastRejectByReason := cache';
           sharesFoundPerDevice := sharesFoundPerDevice m; payoutInfo := payoutInfo m;
           payoutActiveMasked := payoutActiveMasked m |}).
Proof.
  unfold rejectReason, counterFor, touchLastReject, gaugeFor, one. fold rejectHelp lastRejectHelp.
  destruct (rejectByReason m !! c); [|destruct (NewCounter _ _ _ _) as [[r k]|]; [|done]];
    cbn [mbind option_bind lastRejectByReason with_reg reg];
    (destruct (lastRejectByReason m !! c); [done|]); by destruct (NewGauge _ _ _ _) as [[r' k']|].
Qed.

Lemma paying_eq a m :
  setActivePayout a m =
  if bool_decide (a = []) then Some m
  else if bool_decide (a = payoutActiveMasked m) then Some m
  else
    let r := match payoutInfo m !! payoutActiveMasked m with
             | Some g => if bool_decide (payoutActiveMasked m = []) then reg m else gauge_Set g fzero (reg m)
             | None => reg m
             end in
    '(r, cache, g) ← gaugeFor payoutName payoutHelp (%"address") a (payoutInfo m) r;
    Some {| reg := gauge_Set g fone r; rejectByReason := rejectByReason m;
            lastRejectByReason := lastRejectByReason m; sharesFoundPerDevice := sharesFoundPerDevice m;
            payoutInfo := cache; payoutActiveMasked := a |}.
Proof.
  unfold setActivePayout, gaugeFor, one. fold payoutHelp. case_bool_decide; [done|]. case_bool_decide; [done|].
  destruct (payoutInfo m !! payoutActiveMasked m); case_bool_decide; cbv zeta; cbn [payoutInfo with_reg reg];
    (destruct (payoutInfo m !! a); [done|]); by destruct (NewGauge _ _ _ _) as [[r' k']|].
Qed.

Ltac lazy_neq := intros; apply lazy_keys_neq; [lazy_mem..|vm_compute; discriminate].

Lemma found_inv info es d m :
  minv info es m → ∃ m', incSharesFoundForDevice d m = Some m' ∧ minv info (es ++ [FoundBy d]) m'.
Proof.
  intros H. rewrite found_eq. case_bool_decide as Ed.
  { exists m. split; [done|]. subst d. destruct H as [H1 H2 H3 H4 H5 H6 H7]. split; try done.
    - eapply CF_ext; [|exact H3]. intros d. unfold devTally. case_bool_decide; [done|]. tallies.
      by rewrite bool_decide_eq_false_2 by done.
    - eapply CF_ext; [|exact H4]. cbv beta. by tallies.
    - eapply GF_ext; [|exact H5]. cbv beta. by tallies.
    - eapply GF_ext; [|exact H6]. intros a. unfold payTally. by tallies.
    - rewrite H7. by tallies. }
  destruct H as [H1 H2 H3 H4 H5 H6 H7].
  destruct (counterFor_spec info deviceName deviceHelp (%"device") d _ _ _ ltac:(apply lazy_valid; lazy_mem)
    ltac:(vm_compute; reflexivity) ltac:(unfold counterNames; set_solver) H1 H2 H3)
    as (r & cache & E & HR & HN & HC & Hv & Hg & HF).
  rewrite E. cbn [mbind option_bind]. eexists. split; [done|]. split;
    cbn [reg rejectByReason lastRejectByReason sharesFoundPerDevice payoutInfo payoutActiveMasked].
  - by apply counter_Add_ok.
  - by apply namesOk_Add.
  - eapply CF_ext; [|by apply CF_add]. intros u. cbv beta. unfold devTally.
    case_bool_decide as Eu; [subst u; rewrite bool_decide_eq_false_2 by done|case_bool_decide; [done|]]; tallies.
    + rewrite bool_decide_eq_true_2 by done. unfold wrap. by rewrite Zplus_mod_idemp_l.
    + by rewrite bool_decide_eq_false_2 by done.
  - apply CF_add_other; [lazy_neq|]. eapply CF_ext; [|eapply CF_frame; [|exact H4]]; [by tallies|].
    intros v. apply HF; [apply lazy_valid; lazy_mem|vm_compute; discriminate].
  - eapply GF_ext; [|eapply GF_frame; [|exact H5]]; [by tallies|]. cbn [counter_Inc counter_Add gauges]. by rewrite Hg.
  - eapply GF_ext; [|eapply GF_frame; [|exact H6]]; [|cbn [counter_Inc counter_Add gauges]; by rewrite Hg]. intros a. unfold payTally. by tallies.
  - rewrite H7. by tallies.
Qed.

Lemma rejected_inv info es c now m :
  minv info es m →
  ∃ m', ('(m, k) ← rejectReason c m; touchLastReject c now (with_reg (counter_Inc k) m)) = Some m' ∧
        minv info (es ++ [Rejected c now]) m'.
Proof.
  intros [H1 H2 H3 H4 H5 H6 H7]. rewrite rejected_eq.
  destruct (counterFor_spec info rejectName rejectHelp (%"reason") c _ _ _ ltac:(apply lazy_valid; lazy_mem)
    ltac:(vm_compute; reflexivity) ltac:(unfold counterNames; set_solver) H1 H2 H4)
    as (r & cache & E & HR & HN & HC & Hv & Hg & HF).
  rewrite E. cbn [mbind option_bind]. clear E.
  set (r1 := counter_Inc (metricKey rejectName (one (%"reason") c)) r).
  assert (GF lastRejectName (%"reason") (lastRejectByReason m) (λ c, lastRejection c es) r1) as H5'.
  { eapply GF_frame; [|exact H5]. unfold r1. cbn [counter_Inc counter_Add gauges]. by rewrite Hg. }
  destruct (gaugeFor_spec info lastRejectName lastRejectHelp (%"reason") c _ _ r1 ltac:(apply lazy_valid; lazy_mem)
    ltac:(vm_compute; reflexivity) ltac:(unfold gaugeNames; set_solver) ltac:(by apply counter_Add_ok)
    ltac:(by apply namesOk_Add) H5')
    as (r2 & cache2 & E & HR2 & HN2 & HC2 & Hv2 & Hg2 & HF2).
  rewrite E. cbn [mbind option_bind]. eexists. split; [done|]. split;
    cbn [reg rejectByReason lastRejectByReason sharesFoundPerDevice payoutInfo payoutActiveMasked].
  - by apply gauge_Set_ok.
  - by apply namesOk_Set.
  - eapply (CF_frame _ _ _ _ r1); [by cbn [gauge_Set counters]; rewrite Hg2|]. apply CF_add_other; [lazy_neq|].
    eapply CF_ext; [|eapply CF_frame; [|exact H3]]; [intros d; unfold devTally; by tallies|].
    intros v. apply HF; [apply lazy_valid; lazy_mem|vm_compute; discriminate].
  - eapply (CF_frame _ _ _ _ r1); [by cbn [gauge_Set counters]; rewrite Hg2|]. eapply CF_ext; [|by apply CF_add]. intros u. cbv beta.
    tallies. case_bool_decide; [|done]. unfold wrap. by rewrite Zplus_mod_idemp_l.
  - eapply GF_ext; [|by apply GF_set]. intros u. cbv beta. by tallies.
  - apply GF_set_other; [lazy_neq|]. eapply (GF_frame _ _ _ _ r1).
    { intros v. apply HF2; [apply lazy_valid; lazy_mem|vm_compute; discriminate]. }
    eapply GF_ext; [|eapply GF_frame; [|exact H6]]; [intros a; unfold payTally; by tallies|].
    unfold r1. cbn [counter_Inc counter_Add gauges]. by rewrite Hg.
  - rewrite H7. by tallies.
Qed.

(** Resetting the active payout series leaves every series at 0. *)
Lemma reset_payout info es m :
  minv info es m →
  let r := match payoutInfo m !! payoutActiveMasked m with
           | Some g => if bool_decide (payoutActiveMasked m = []) then reg m else gauge_Set g fzero (reg m)
           | None => reg m
           end in
  minv info es m ∧ regOk r ∧ namesOk info r ∧ counters r = counters (reg m) ∧
  (∀ N L v, N ∈ lazyNames → N ≠ payoutName →
     gauges r !! metricKey N (one L v) = gauges (reg m) !! metricKey N (one L v)) ∧
  GF payoutName (%"address") (payoutInfo m) (λ _, fzero) r.
Proof.
  intros H r. split; [done|]. destruct H as [H1 H2 _ _ _ H6 H7]. unfold r. clear r.
  pose proof (H6 (payoutActiveMasked m)) as Hp.
  assert (payoutActiveMasked m = [] → GF payoutName (%"address") (payoutInfo m) (λ _, fzero) (reg m)) as H0.
  { intros E. eapply GF_ext; [|exact H6]. intros u. unfold payTally. rewrite <-H7, E.
    by rewrite bool_decide_eq_false_2 by tauto. }
  destruct (payoutInfo m !! payoutActiveMasked m) as [g|] eqn:E; [destruct Hp as [-> _]|destruct Hp as [_ Hp]].
  - case_bool_decide as En; [split_and!; auto|]. split_and!.
    + by apply gauge_Set_ok.
    + by apply namesOk_Set.
    + done.
    + intros N L v HN Hne. cbn [gauge_Set gauges]. apply lookup_alter_ne.
      apply not_eq_sym, lazy_keys_neq; [done|lazy_mem|done].
    + eapply GF_ext; [|apply GF_set; [exact H6|by rewrite E]]. intros u. cbv beta. case_bool_decide as Eu; [done|].
      unfold payTally. rewrite bool_decide_eq_false_2; [done|]. rewrite <-H7. naive_solver.
  - split_and!; auto. apply H0. unfold payTally in Hp. case_bool_decide as En; [vm_compute in Hp; discriminate|].
    rewrite H7 in *. destruct (decide (payee es = [])); [done|]. tauto.
Qed.

Lemma paying_inv info es a m :
  minv info es m → ∃ m', setActivePayout a m = Some m' ∧ minv info (es ++ [Paying a]) m'.
Proof.
  intros H. rewrite paying_eq. case_bool_decide as Ea.
  { subst a. exists m. split; [done|]. apply minv_same; [by tallies..|done]. }
  case_bool_decide as Ep.
  { exists m. split; [done|]. apply minv_same; [by tallies..| |done]. tallies.
    rewrite bool_decide_eq_false_2 by done. rewrite Ep. apply H. }
  cbv zeta. destruct (reset_payout info es m H) as (_ & HR & HN & Hc & Ho & HG).
  revert HR HN Hc Ho HG. generalize (match payoutInfo m !! payoutActiveMasked m with
     | Some g => if bool_decide (payoutActiveMasked m = []) then reg m else gauge_Set g fzero (reg m)
     | None => reg m end). intros r HR HN Hc Ho HG.
  destruct (gaugeFor_spec info payoutName payoutHelp (%"address") a _ _ r ltac:(apply lazy_valid; lazy_mem)
    ltac:(vm_compute; reflexivity) ltac:(unfold gaugeNames; set_solver) HR HN HG)
    as (r2 & cache2 & E & HR2 & HN2 & HC2 & Hv2 & Hg2 & HF2).
  rewrite E. cbn [mbind option_bind]. eexists. split; [done|]. destruct H as [H1 H2 H3 H4 H5 H6 H7]. split;
    cbn [reg rejectByReason lastRejectByReason sharesFoundPerDevice payoutInfo payoutActiveMasked].
  - by apply gauge_Set_ok.
  - by apply namesOk_Set.
  - eapply CF_ext; [|eapply CF_frame; [|exact H3]]; [intros d; unfold devTally; by tallies|].
    cbn [gauge_Set counters]. by rewrite Hg2, Hc.
  - eapply CF_ext; [|eapply CF_frame; [|exact H4]]; [by tallies|]. cbn [gauge_Set counters]. by rewrite Hg2, Hc.
  - apply GF_set_other; [lazy_neq|].
    eapply GF_ext; [|eapply GF_frame; [|exact H5]]; [by tallies|]. intros v.
    rewrite HF2; [|apply lazy_valid; lazy_mem|vm_compute; discriminate].
    apply Ho; [lazy_mem|vm_compute; discriminate].
  - eapply GF_ext; [|by apply GF_set]. intros u. cbv beta. unfold payTally. tallies.
    rewrite (bool_decide_eq_false_2 (a = [])) by done.
    case_bool_decide as Eu; case_bool_decide as Eu'; naive_solver.
  - tallies. by rewrite bool_decide_eq_false_2 by done.
Qed.

Lemma new_inv info : ∃ m, newEngineMetrics info NewRegistry = Some m ∧ minv info [] m.
Proof.
  unfold newEngineMetrics.
  destruct (registers_ok info (registrations info) NewRegistry (registrations_valid info) NewRegistry_ok)
    as (r & E & HR & HN & HF); [by split|].
  rewrite E. cbn [mbind option_bind]. eexists. split; [done|].
  assert (∀ N L v, N ∈ lazyNames →
    counters r !! metricKey N (one L v) = None ∧ gauges (gauge_Set (buildInfo info) fone r) !! metricKey N (one L v) = None)
    as HF0.
  { intros N L v HN'. destruct (HF N (one L v)) as [E1 E2]; [by apply lazy_valid|by apply lazy_not_static|].
    split; [rewrite E1; apply lookup_empty|]. cbn [gauge_Set gauges].
    rewrite lookup_alter_ne; [rewrite E2; apply lookup_empty|].
    intros Eb. unfold buildInfo in Eb. apply metricKey_name in Eb; [|vm_compute; reflexivity|by apply lazy_valid].
    apply (lazy_not_static info N HN'). rewrite <-Eb.
    assert (existsb (λ n, bool_decide (n = %"otedama_build_info")) (reg_name <$> registrations info) = true) as HB
      by (vm_compute; reflexivity).
    apply existsb_exists in HB as (n & Hn & ->%bool_decide_eq_true). by apply list_elem_of_In. }
  split; cbn [reg rejectByReason lastRejectByReason sharesFoundPerDevice payoutInfo payoutActiveMasked].
  - by apply gauge_Set_ok.
  - by apply namesOk_Set.
  - intros v. rewrite lookup_empty. cbn [gauge_Set counters].
    destruct (HF0 deviceName (%"device") v ltac:(lazy_mem)) as [Hc _]. split; [exact Hc|].
    unfold devTally. by case_bool_decide.
  - intros v. rewrite lookup_empty. cbn [gauge_Set counters].
    destruct (HF0 rejectName (%"reason") v ltac:(lazy_mem)) as [Hc _]. by split; [exact Hc|].
  - intros v. rewrite lookup_empty.
    destruct (HF0 lastRejectName (%"reason") v ltac:(lazy_mem)) as [_ Hg]. by split; [exact Hg|].
  - intros v. rewrite lookup_empty.
    destruct (HF0 payoutName (%"address") v ltac:(lazy_mem)) as [_ Hg]. split; [exact Hg|].
    unfold payTally. rewrite bool_decide_eq_false_2; [reflexivity|]. intros [Hne Heq]. exact (Hne Heq).
  - done.
Qed.

Lemma erun_inv info es : ∃ m, erun info es = Some m ∧ minv info es m.
Proof.
  induction es as [|e es IH] using rev_ind; [apply new_inv|].
  destruct IH as (m & E & HM). unfold erun in *. rewrite foldl_app. cbn [foldl]. rewrite E.
  cbn [mbind option_bind]. destruct e as [c now|d|a| |i d|i v]; cbn [estep].
  - by apply rejected_inv.
  - by apply found_inv.
  - by apply paying_inv.
  - eexists. split; [done|]. by apply rates_inv.
  - eexists. split; [done|]. apply minv_same; [by tallies..|]. by apply minv_Add.
  - eexists. split; [done|]. apply minv_same; [by tallies..|]. apply minv_Set; [done|].
    intros. by apply handle_key_neq.
Qed.

(** The engine's metrics never panic and never lie about what happened.
    Whatever categories, devices and payout addresses occur, in any order, the
    registrations succeed; every category's counter is the number of rejections
    of that category and its timestamp that of the last one; every device's
    counter is the number of shares it found (counters wrap at 2^64); and of the
    payout series exactly that of the address paid last reads 1. *)
Theorem labelled_series_exact info es :
  ∃ m, erun info es = Some m ∧ regOk (reg m) ∧
    (∀ c, counter_Value (metricKey rejectName {[%"reason" := c]}) (reg m) = wrap 64 (rejections c es)) ∧
    (∀ c, gauge_Value (metricKey lastRejectName {[%"reason" := c]}) (reg m) = lastRejection c es) ∧
    (∀ d, d ≠ [] → counter_Value (metricKey deviceName {[%"device" := d]}) (reg m) = wrap 64 (findings d es)) ∧
    (∀ a, gauge_Value (metricKey payoutName {[%"address" := a]}) (reg m) =
            if bool_decide (a ≠ [] ∧ a = payee es) then fone else fzero).
Proof.
  destruct (erun_inv info es) as (m & E & [H1 _ H3 H4 H5 H6 _]). exists m. split_and!; [done..| | | |].
  - intros c. apply (CF_value _ _ _ _ _ _ H4).
  - intros c. apply (GF_value _ _ _ _ _ _ H5).
  - intros d Hd. pose proof (CF_value _ _ _ _ _ d H3) as Hv. unfold devTally in Hv.
    by rewrite bool_decide_eq_false_2 in Hv.
  - intros a. apply (GF_value _ _ _ _ _ _ H6).
Qed.
