(* ===== verification/EngineTick.v ===== *)
(** * internal/engine: the stats tick

    The periodic arm of both session loops: hashrate, dropped shares, liveness,
    estimated earnings, gauges and warnings, over the engine's metrics and the
    session's own variables.  Every reading of the clock and of the shared flags
    is an argument of its own, since other goroutines run in between.  Log lines
    are values; the dashboard receives a [tuiStats]. *)
From S2P Require Import Prelude.
From S2P Require Import Float64.
From S2P Require Import Text.
From S2P Require Import Sha256d.
From S2P Require Import Worker.
From S2P Require Import Poolproto.
From S2P Require Import Metrics.
From S2P Require Import EngineStats.
From S2P Require Import EngineMetrics.
From S2P Require Import Reconnect.

Open Scope Z_scope.

(** ** Handles *)

Definition h_up : list Z := %"otedama_up".
Definition h_hashrate : list Z := %"otedama_hashrate_hashes_per_second".
Definition h_uptime : list Z := %"otedama_uptime_seconds".
Definition h_sharesSubmitted : list Z := %"otedama_shares_submitted_total".
Definition h_workerDropped : list Z := %"otedama_shares_worker_dropped_total".
Definition h_expectedYield : list Z := %"otedama_arbitration_expected_yield_sats_per_second".
Definition h_effectiveYield : list Z := %"otedama_effective_yield_sats_per_second".
Definition h_productive : list Z := %"otedama_productive_seconds_total".
Definition h_powerWatts : list Z := %"otedama_power_watts".
Definition h_joules : list Z := %"otedama_joules_per_terahash".
Definition h_inFlight : list Z := %"otedama_shares_submit_in_flight".
Definition h_poolDifficulty : list Z := %"otedama_pool_difficulty".
Definition h_shareInterval : list Z := %"otedama_estimated_share_interval_seconds".
Definition h_latency (q : string) : list Z :=
  metricKey (%"otedama_submit_latency_milliseconds") {[%"quantile" := %q]}.
Definition h_btcUSDRate : list Z := %"otedama_btc_usd_rate".
Definition h_clockSkew : list Z := %"otedama_clock_skew_seconds".
Definition h_rateAge : list Z := %"otedama_btc_rate_age_seconds".
Definition h_sourcesOK : list Z := %"otedama_rate_sources_ok".
Definition h_sourcesTotal : list Z := %"otedama_rate_sources_total".

Definition setG (k : list Z) (v : float64) : engineMetrics → engineMetrics := with_reg (gauge_Set k v).
Definition addC (k : list Z) (d : Z) : engineMetrics → engineMetrics := with_reg (counter_Add k d).

(** ** Publishing *)

(** What [rateStats] answered: the rate, the skew, the age if ever fetched, and
    the sources if ever fetched. *)
Record rateView := {
  rv_rate : float64; rv_skew : float64; rv_age : option Z; rv_sources : option (Z * Z) }.
Definition publishBTCRate (f : rateView) (m : engineMetrics) : engineMetrics :=
  let m := if flt fzero (rv_rate f) then setG h_btcUSDRate (rv_rate f) m else m in
  let m := if flt fzero (rv_skew f) then setG h_clockSkew (rv_skew f) m else m in
  let m := match rv_age f with Some age => setG h_rateAge (durSeconds age) m | None => m end in
  match rv_sources f with
  | Some (ok, total) => setG h_sourcesTotal (f64_of_Z total) (setG h_sourcesOK (f64_of_Z ok) m)
  | None => m
  end.

Definition publishDifficulty (diff hashrate : float64) (m : engineMetrics) : engineMetrics :=
  if fle diff fzero then m
  else
    let m := setG h_poolDifficulty diff m in
    if flt fzero hashrate
    then setG h_shareInterval (fdiv (fmul diff (f64_of_Z 4294967296)) hashrate) m
    else setG h_shareInterval fzero m.

(** ** Liveness *)

Definition allArbPaused (paused : gset string) (ws : list Worker) : bool :=
  match ws with
  | [] => false
  | _ => forallb (λ w, bool_decide (DeviceID w ∈ paused)) ws
  end.

Inductive tick_log :=
  | DroppedShares (n : Z)
  | Monitor (l : monitor_log)
  | LowAcceptance
  | DifficultyTooHigh
  | NoJobs
  | YieldFailover
  | SubmitLatency.

Definition updateLiveness (curtailed : bool) (paused : gset string) (ws : list Worker) (rate : float64)
    (mon : HashrateMonitor) (m : engineMetrics) : HashrateMonitor * engineMetrics * bool * list tick_log :=
  if curtailed || allArbPaused paused ws then (mon, setG h_up fone m, false, [])
  else
    let '(mon, logs) := Observe rate mon in
    let stalled := Stalled mon in
    (mon, setG h_up (if stalled then fzero else fone) m, stalled, Monitor <$> logs).

(** ** The dashboard snapshot *)

Record ProviderStats := { ps_Name : list Z; ps_Active : bool; ps_SatsPerSecond : float64 }.
Record tuiStats := {
  ts_HashRate : float64; ts_SharesFound : Z; ts_SharesSent : Z; ts_PoolURL : list Z; ts_PoolLatency : Z;
  ts_Connected : bool; ts_Stalled : bool; ts_Curtailed : bool; ts_EstSatsEarned : Z;
  ts_Wallet : list Z; ts_Uptime : Z; ts_Devices : Z; ts_Providers : list ProviderStats }.

(** What the session knows besides its own variables. *)
Record sessionEnv := {
  se_poolURL : list Z; se_wallet : list Z; se_startTime : Z; se_devices : Z;
  se_providers : list (list Z * list Z);       (* the identifier and name of each *)
  se_activity : gmap (list Z) float64;         (* the arbitration loop's snapshot *)
  se_powerWatts : float64; se_yieldFailover : bool; se_dashboard : bool }.

Section Tick.
(** Go's conversions of a float64 to int, int64 and uint64, which the language
    fixes only for values in range. *)
Context (int_of_float : float64 → Z) (uint64_of_float : float64 → Z).

Definition buildStats (o : sessionEnv) (now : Z) (curtailed : bool) (ws : list Worker) (hashRate : float64)
    (estSats : Z) (lat : LatencyTracker) (stalled : bool) (m : engineMetrics) : engineMetrics * tuiStats :=
  let found := sum64 ((λ w, SharesFound (Worker_Stats now w)) <$> ws) in
  let p50 := Quantile int_of_float (f64_const 1 2) lat in
  (setG h_uptime (durSeconds (now - se_startTime o)) m,
   {| ts_HashRate := hashRate; ts_SharesFound := found;
      ts_SharesSent := counter_Value h_sharesSubmitted (reg m);
      ts_PoolURL := StripUserinfo (se_poolURL o);
      ts_PoolLatency := if flt fzero p50 then int_of_float (fmul p50 (f64_of_Z 1000000)) else 0;
      ts_Connected := true; ts_Stalled := stalled; ts_Curtailed := curtailed;
      ts_EstSatsEarned := estSats; ts_Wallet := se_wallet o; ts_Uptime := now - se_startTime o;
      ts_Devices := se_devices o;
      ts_Providers := (λ p, {| ps_Name := p.2; ps_Active := bool_decide (is_Some (se_activity o !! p.1));
                               ps_SatsPerSecond := default fzero (se_activity o !! p.1) |})
                      <$> se_providers o |}).

Definition disconnectedStats (poolURL wallet : list Z) (startTime now devices : Z) : tuiStats :=
  {| ts_HashRate := fzero; ts_SharesFound := 0; ts_SharesSent := 0; ts_PoolURL := StripUserinfo poolURL;
     ts_PoolLatency := 0; ts_Connected := false; ts_Stalled := false; ts_Curtailed := false;
     ts_EstSatsEarned := 0; ts_Wallet := wallet; ts_Uptime := now - startTime; ts_Devices := devices;
     ts_Providers := [] |}.

(** ** One tick *)

(** The variables of a session that only the tick uses. *)
Record tickVars := {
  satsAcc : satsAccountant; estSats : Z; hashMon : HashrateMonitor; hashWindow : hashrateWindow;
  uptime : uptimeAccountant; lastJobAt : Z; jobStarvedWarned : bool; starvedWarned : bool;
  lastDropped : Z }.
Definition newTickVars (now : Z) : tickVars :=
  {| satsAcc := {| sa_lastTick := None; total := fzero |}; estSats := 0;
     hashMon := NewHashrateMonitor fzero 3;
     hashWindow := {| lastTotal := 0; lastTime := 0; primed := false |};
     uptime := {| up_lastTick := None; accum := fzero |}; lastJobAt := now;
     jobStarvedWarned := false; starvedWarned := false; lastDropped := 0 |}.

Inductive protocol := SV1 | SV2.

(** What a tick reads: the clock at its four readings, the gate and the pause set
    when liveness is updated, the gate at the dashboard and at the job-silence
    check, the workers, the session's latencies, its pending submissions, the
    pool's difficulty and whether the session's acceptance is degraded. *)
Record tickIn := {
  ti_windowAt : Z; ti_satsAt : Z; ti_uptimeAt : Z; ti_jobAt : Z;
  ti_curtailed : bool; ti_paused : gset string; ti_curtailedDash : bool; ti_curtailedJobs : bool;
  ti_workers : list Worker; ti_latency : LatencyTracker; ti_inFlight : Z; ti_difficulty : float64;
  ti_degraded : bool }.

Definition jobStallWarnAfter : Z := 10 * 60 * 10 ^ 9.

(** What is added to the counter of shares dropped at the workers. *)
Definition dropDelta (dropped last : Z) : Z :=
  if dropped =? last then 0 else if last <? dropped then dropped - last else dropped.
Definition dropLog (dropped last : Z) : list tick_log :=
  if last <? dropped then [DroppedShares (dropped - last)] else [].

(** A warning flag: set with a log line when the condition begins, cleared when
    it ends. *)
Definition onceWhile (cond : bool) (l : tick_log) (warned : bool) : bool * list tick_log :=
  if cond then (true, if warned then [] else [l]) else (false, []).

Definition publishLatency (lat : LatencyTracker) (m : engineMetrics) : engineMetrics * list tick_log :=
  let q x := Quantile int_of_float x lat in
  if flt fzero (q (f64_const 95 100))
  then (setG (h_latency "0.99") (q (f64_const 99 100))
          (setG (h_latency "0.95") (q (f64_const 95 100))
             (setG (h_latency "0.5") (q (f64_const 1 2)) m)), [SubmitLatency])
  else (m, []).

(** The gauges of the tick up to the share rates. *)
Definition tickGauges (o : sessionEnv) (i : tickIn) (rate : float64) (productive : bool)
    (u : uptimeAccountant) (m : engineMetrics) : uptimeAccountant * engineMetrics :=
  let m := setG h_hashrate rate m in
  let '(u, whole) := uptimeAccountant_observe (ti_uptimeAt i) productive u in
  let m := addC h_productive whole m in
  let m := setG h_effectiveYield
             (effectiveYield (gauge_Value h_expectedYield (reg m))
                (f64_of_Z (counter_Value h_productive (reg m))) (gauge_Value h_uptime (reg m))) m in
  let m := if flt fzero (se_powerWatts o) then
             let m := setG h_powerWatts (se_powerWatts o) m in
             if flt fzero rate
             then setG h_joules (fdiv (fmul (se_powerWatts o) (f64_of_Z 1000000000000)) rate) m else m
           else m in
  (u, m).

(** The tick after the yield check. *)
Definition tickRest (p : protocol) (i : tickIn) (rate : float64) (acceptance : float64) (judged : Z)
    (v : tickVars) (m : engineMetrics) : tickVars * engineMetrics * list tick_log :=
  let m := match p with SV2 => setG h_inFlight (f64_of_Z (ti_inFlight i)) m | SV1 => m end in
  let low := if (20 <=? judged) && flt acceptance (f64_const 97 100) then [LowAcceptance] else [] in
  let m := publishDifficulty (ti_difficulty i) rate m in
  let starving := flt (f64_of_Z 3600) (gauge_Value h_shareInterval (reg m)) in
  let silent := negb (ti_curtailedJobs i) && (jobStallWarnAfter <? ti_jobAt i - lastJobAt v) in
  let '(sw, l1) := onceWhile starving DifficultyTooHigh (starvedWarned v) in
  let '(jw, l2) := onceWhile silent NoJobs (jobStarvedWarned v) in
  let '(m, l3) := publishLatency (ti_latency i) m in
  ({| satsAcc := satsAcc v; estSats := estSats v; hashMon := hashMon v; hashWindow := hashWindow v;
      uptime := uptime v; lastJobAt := lastJobAt v; jobStarvedWarned := jw; starvedWarned := sw;
      lastDropped := lastDropped v |},
   m, low ++ match p with SV2 => l1 ++ l2 | SV1 => l2 ++ l1 end ++ l3).

Record tickOut := {
  to_vars : tickVars; to_metrics : engineMetrics; to_logs : list tick_log;
  to_stats : option tuiStats; to_end : option error }.

Definition statsTick (p : protocol) (o : sessionEnv) (i : tickIn) (v : tickVars) (m : engineMetrics) : tickOut :=
  let ws := ti_workers i in
  let '(win, rate) := hashrateWindow_observe (totalHashes ws) (ti_windowAt i) (hashWindow v) in
  let dropped := totalDropped ws in
  let m := addC h_workerDropped (dropDelta dropped (lastDropped v)) m in
  let logs0 := dropLog dropped (lastDropped v) in
  let '(mon, m, stalled, logs1) := updateLiveness (ti_curtailed i) (ti_paused i) ws rate (hashMon v) m in
  let productive := flt fzero rate && negb stalled in
  let '(sats, earned) := satsAccountant_observe (ti_satsAt i) (gauge_Value h_expectedYield (reg m)) productive
                           (satsAcc v) in
  let est := uint64_of_float earned in
  let '(m, shown) :=
    if se_dashboard o
    then let '(m, s) := buildStats o (ti_satsAt i) (ti_curtailedDash i) ws rate est (ti_latency i) stalled m in
         (m, Some s)
    else (m, None) in
  let '(up, m) := tickGauges o i rate productive (uptime v) m in
  let '(m, (acceptance, judged)) := updateShareRates m in
  let v := {| satsAcc := sats; estSats := est; hashMon := mon; hashWindow := win; uptime := up;
              lastJobAt := lastJobAt v; jobStarvedWarned := jobStarvedWarned v;
              starvedWarned := starvedWarned v; lastDropped := dropped |} in
  if se_yieldFailover o && ti_degraded i
  then {| to_vars := v; to_metrics := m; to_logs := logs0 ++ logs1 ++ [YieldFailover]; to_stats := shown;
          to_end := Some errYieldDegraded |}
  else
    let '(v, m, logs2) := tickRest p i rate acceptance judged v m in
    {| to_vars := v; to_metrics := m; to_logs := logs0 ++ logs1 ++ logs2; to_stats := shown; to_end := None |}.

(** The stats arms of the two sessions. *)
Definition statsTickV1 := statsTick SV1.
Definition statsTickV2 := statsTick SV2.

(** * What a tick leaves alone *)

Lemma setG_gauge k k' v m : k ≠ k' → gauges (reg (setG k' v m)) !! k = gauges (reg m) !! k.
Proof. intros H. cbn. by apply lookup_alter_ne. Qed.
Lemma addC_counter k k' d m : k ≠ k' → counters (reg (addC k' d m)) !! k = counters (reg m) !! k.
Proof. intros H. cbn. by apply lookup_alter_ne. Qed.

(** The gauge [h_up] and the counter of dropped shares. *)
Definition tracked (m m' : engineMetrics) : Prop :=
  gauges (reg m') !! h_up = gauges (reg m) !! h_up ∧
  counters (reg m') !! h_workerDropped = counters (reg m) !! h_workerDropped.

#[local] Instance tracked_refl : Reflexive tracked.
Proof. done. Qed.
#[local] Instance tracked_trans : Transitive tracked.
Proof. intros a b c [H1 H2] [H3 H4]. split; congruence. Qed.

Lemma tracked_setG k v m : h_up ≠ k → tracked m (setG k v m).
Proof. intros H. split; [by apply setG_gauge|done]. Qed.
Lemma tracked_addC k d m : h_workerDropped ≠ k → tracked m (addC k d m).
Proof. intros H. split; [done|by apply addC_counter]. Qed.

Ltac keep :=
  repeat first
    [ reflexivity
    | etransitivity; [|apply tracked_setG; vm_compute; discriminate]
    | etransitivity; [|apply tracked_addC; vm_compute; discriminate] ].

Lemma tracked_gauges o i rate b u m : tracked m (tickGauges o i rate b u m).2.
Proof.
  unfold tickGauges. destruct (uptimeAccountant_observe _ _ _) as [u' w]. cbn [snd].
  destruct (flt fzero (se_powerWatts o)); [destruct (flt fzero rate)|]; keep.
Qed.

Lemma tracked_rates m : tracked m (updateShareRates m).1.
Proof.
  assert (∀ r, (gauges r !! h_up = gauges (reg m) !! h_up ∧
    counters r !! h_workerDropped = counters (reg m) !! h_workerDropped) → tracked m (with_reg (λ _, r) m)) as H by done.
  unfold updateShareRates. cbn [fst]. apply H. destruct (_ =? 0); cbn [gauge_Set gauges counters];
    (split; [|done]); repeat (rewrite lookup_alter_ne by (vm_compute; discriminate)); done.
Qed.

Lemma tracked_difficulty d r m : tracked m (publishDifficulty d r m).
Proof. unfold publishDifficulty. destruct (fle d fzero); [done|]. destruct (flt fzero r); keep. Qed.

Lemma tracked_latency l m : tracked m (publishLatency l m).1.
Proof. unfold publishLatency. destruct (flt fzero _); cbn [fst]; keep. Qed.

Lemma tracked_rest p i rate a j v m : tracked m (tickRest p i rate a j v m).1.2.
Proof.
  unfold tickRest. destruct (onceWhile _ _ _) as [sw l1]. destruct (onceWhile _ _ _) as [jw l2].
  set (m1 := match p with SV2 => _ | SV1 => _ end).
  assert (tracked m m1) as H1 by (unfold m1; destruct p; keep).
  pose proof (tracked_latency (ti_latency i) (publishDifficulty (ti_difficulty i) rate m1)) as H2.
  destruct (publishLatency _ _) as [m2 l3]. cbn [fst snd] in *.
  etransitivity; [exact H1|]. etransitivity; [apply tracked_difficulty|exact H2].
Qed.

(** ** What a tick does *)

Definition idle (i : tickIn) : bool := ti_curtailed i || allArbPaused (ti_paused i) (ti_workers i).
Definition measured (i : tickIn) (v : tickVars) : float64 :=
  (hashrateWindow_observe (totalHashes (ti_workers i)) (ti_windowAt i) (hashWindow v)).2.
Definition monitorLogs (ls : list tick_log) : list monitor_log :=
  omap (λ l, match l with Monitor x => Some x | _ => None end) ls.

Lemma monitorLogs_app l1 l2 : monitorLogs (l1 ++ l2) = monitorLogs l1 ++ monitorLogs l2.
Proof. apply omap_app. Qed.
Lemma monitorLogs_monitor l : monitorLogs (Monitor <$> l) = l.
Proof. induction l as [|x l IH]; [done|]. cbn. f_equal. exact IH. Qed.

Lemma monitorLogs_rest p i rate a j v m : monitorLogs (tickRest p i rate a j v m).2 = [].
Proof.
  unfold tickRest, onceWhile. destruct (publishLatency _ _) as [m2 l3] eqn:E.
  assert (monitorLogs l3 = []) as H3.
  { unfold publishLatency in E. destruct (flt fzero _); by injection E as <- <-. }
  repeat match goal with |- context [if ?b then _ else _] => destruct b end;
    cbn [snd app]; rewrite ?monitorLogs_app, ?H3; try done; cbn; by rewrite ?H3.
Qed.

Lemma tickRest_vars p i rate a j v m :
  let v' := (tickRest p i rate a j v m).1.1 in
  hashWindow v' = hashWindow v ∧ hashMon v' = hashMon v ∧ lastDropped v' = lastDropped v.
Proof.
  unfold tickRest. destruct (onceWhile _ _ _) as [sw l1]. destruct (onceWhile _ _ _) as [jw l2].
  by destruct (publishLatency _ _) as [m2 l3].
Qed.

(** The monitor sees the tick's rate unless the miner is meant to be idle. *)
Lemma statsTick_effect p o i v m :
  let out := statsTick p o i v m in
  let rate := measured i v in
  hashWindow (to_vars out) = (hashrateWindow_observe (totalHashes (ti_workers i)) (ti_windowAt i) (hashWindow v)).1 ∧
  hashMon (to_vars out) = (if idle i then hashMon v else (Observe rate (hashMon v)).1) ∧
  lastDropped (to_vars out) = totalDropped (ti_workers i) ∧
  monitorLogs (to_logs out) = (if idle i then [] else (Observe rate (hashMon v)).2) ∧
  tracked (setG h_up (if negb (idle i) && Stalled (Observe rate (hashMon v)).1 then fzero else fone)
             (addC h_workerDropped (dropDelta (totalDropped (ti_workers i)) (lastDropped v)) m)) (to_metrics out).
Proof.
  unfold statsTick, measured, idle. destruct (hashrateWindow_observe _ _ _) as [win rate]. cbn [fst snd].
  unfold updateLiveness. destruct (Observe rate (hashMon v)) as [mon logs] eqn:EO. cbn [fst snd].
  set (m0 := addC h_workerDropped _ m). set (logs0 := dropLog _ _).
  assert (monitorLogs logs0 = []) as HL0 by (unfold logs0, dropLog; by destruct (_ <? _)).
  set (S := if ti_curtailed i || _ then _ else _).
  assert (∃ mon' st l1, S = (mon', setG h_up (if negb (idle i) && Stalled mon then fzero else fone) m0, st, l1) ∧
    mon' = (if idle i then hashMon v else mon) ∧ monitorLogs l1 = (if idle i then [] else logs)) as (mon' & st & l1 & -> & Hm & Hl).
  { unfold S, idle. destruct (ti_curtailed i || allArbPaused (ti_paused i) (ti_workers i)); cbn [negb andb].
    - by eexists _, _, _.
    - eexists _, _, _. split_and!; [done..|]. apply monitorLogs_monitor. }
  unfold idle in *. set (up := setG h_up _ m0).
  destruct (satsAccountant_observe _ _ _ _) as [sats earned].
  set (B := if se_dashboard o then _ else _).
  assert (∃ m1 sh, B = (m1, sh) ∧ tracked up m1) as (m1 & sh & -> & T1).
  { unfold B, buildStats. destruct (se_dashboard o); eexists _, _; (split; [done|]); keep. }
  pose proof (tracked_gauges o i rate (flt fzero rate && negb st) (uptime v) m1) as T2.
  destruct (tickGauges _ _ _ _ _ _) as [u m2]. cbn [snd] in T2.
  pose proof (tracked_rates m2) as T3. destruct (updateShareRates m2) as [m3 [acc jd]]. cbn [fst] in T3.
  assert (tracked up m3) as T by (etransitivity; [exact T1|]; etransitivity; [exact T2|exact T3]).
  destruct (se_yieldFailover o && ti_degraded i).
  - cbn [to_vars to_metrics to_logs hashWindow hashMon lastDropped]. split_and!; try done.
    rewrite !monitorLogs_app, HL0, Hl. cbn. by rewrite app_nil_r.
  - set (v1 := Build_tickVars _ _ _ _ _ _ _ _ _).
    pose proof (tracked_rest p i rate acc jd v1 m3) as T4. pose proof (monitorLogs_rest p i rate acc jd v1 m3) as L4.
    pose proof (tickRest_vars p i rate acc jd v1 m3) as V4.
    destruct (tickRest _ _ _ _ _ _ _) as [[v2 m4] l2]. cbn [fst snd] in *. destruct V4 as (V1 & V2 & V3).
    cbn [to_vars to_metrics to_logs]. split_and!; [by rewrite V1|by rewrite V2|by rewrite V3| |].
    + by rewrite !monitorLogs_app, HL0, Hl, L4, app_nil_r.
    + etransitivity; [exact T|exact T4].
Qed.

(** * The ticks of a session

    Before each tick the other goroutines may have changed the metrics, and jobs
    may have arrived. *)
Record tickCase := { tc_in : tickIn; tc_jobAt : Z; tc_others : engineMetrics → engineMetrics }.
Definition withJobAt (at_ : Z) (v : tickVars) : tickVars :=
  {| satsAcc := satsAcc v; estSats := estSats v; hashMon := hashMon v; hashWindow := hashWindow v;
     uptime := uptime v; lastJobAt := at_; jobStarvedWarned := jobStarvedWarned v;
     starvedWarned := starvedWarned v; lastDropped := lastDropped v |}.
Definition tickCaseOut (p : protocol) (o : sessionEnv) (vm : tickVars * engineMetrics) (x : tickCase) : tickOut :=
  statsTick p o (tc_in x) (withJobAt (tc_jobAt x) vm.1) (tc_others x vm.2).
Definition tickStep (p : protocol) (o : sessionEnv) (vm : tickVars * engineMetrics) (x : tickCase)
    : tickVars * engineMetrics :=
  let out := tickCaseOut p o vm x in (to_vars out, to_metrics out).
Definition tickRun (p : protocol) (o : sessionEnv) (xs : list tickCase) (vm : tickVars * engineMetrics)
    : tickVars * engineMetrics := foldl (tickStep p o) vm xs.

(** The hashrate over the interval since the previous tick. *)
Definition rateSince (prev : option tickIn) (i : tickIn) : float64 :=
  match prev with
  | None => fzero
  | Some j =>
      let dt := durSeconds (ti_windowAt i - ti_windowAt j) in
      let n := totalHashes (ti_workers j) in
      let n' := totalHashes (ti_workers i) in
      if flt fzero dt && (n <=? n') then fdiv (f64_of_Z (n' - n)) dt else fzero
  end.
(** The rates of the ticks at which the miner was meant to hash. *)
Definition busyStep (s : option tickIn * list float64) (i : tickIn) : option tickIn * list float64 :=
  (Some i, if idle i then s.2 else s.2 ++ [rateSince s.1 i]).
Definition busyRates (ins : list tickIn) : list float64 := (foldl busyStep (None, []) ins).2.

Definition windowOf (prev : option tickIn) : hashrateWindow :=
  match prev with
  | None => {| lastTotal := 0; lastTime := 0; primed := false |}
  | Some j => {| lastTotal := totalHashes (ti_workers j); lastTime := ti_windowAt j; primed := true |}
  end.

Lemma observe_window i prev :
  hashrateWindow_observe (totalHashes (ti_workers i)) (ti_windowAt i) (windowOf prev) =
  (windowOf (Some i), rateSince prev i).
Proof. by destruct prev. Qed.

Lemma tickRun_monitor p o start xs m :
  let s := foldl busyStep (None, []) (tc_in <$> xs) in
  let v := (tickRun p o xs (newTickVars start, m)).1 in
  hashWindow v = windowOf s.1 ∧ hashMon v = observes fzero 3 s.2.
Proof.
  induction xs as [|x xs IH] using rev_ind; [done|].
  unfold tickRun. rewrite fmap_app, !foldl_app. cbn [foldl fmap list_fmap]. fold (tickRun p o xs (newTickVars start, m)).
  destruct (foldl busyStep (None, []) (tc_in <$> xs)) as [prev h].
  destruct (tickRun p o xs (newTickVars start, m)) as [v m']. cbn [fst snd] in IH. destruct IH as [HW HM].
  unfold tickStep, tickCaseOut. cbn [fst snd].
  destruct (statsTick_effect p o (tc_in x) (withJobAt (tc_jobAt x) v) (tc_others x m')) as (E1 & E2 & _).
  unfold measured in E2. cbn [withJobAt hashWindow hashMon] in E1, E2. rewrite HW, observe_window in E1, E2.
  cbn [fst snd] in E1, E2. rewrite E1, E2, HM. unfold busyStep. cbn [fst snd]. split; [done|].
  destruct (idle (tc_in x)); [done|]. unfold observes. by rewrite foldl_app.
Qed.

(** C33. The liveness gauge tells a stall from a pause.  After every tick of a
    session, whatever the other goroutines did to the metrics, otedama_up reads 1
    while hashing is curtailed or every worker is paused by arbitration, and
    otherwise 0 exactly when at least three ticks in a row at which the miner
    was meant to hash measured no hashing; a warning is logged once per stall,
    and a recovery once after it. *)
Theorem liveness_exact p o start xs x m0 :
  let vm := tickRun p o xs (newTickVars start, m0) in
  is_Some (gauges (reg (tc_others x vm.2)) !! h_up) →
  let out := tickCaseOut p o vm x in
  let h := busyRates (tc_in <$> xs) in
  let h' := busyRates (tc_in <$> xs ++ [x]) in
  gauge_Value h_up (reg (to_metrics out)) =
    (if idle (tc_in x) then fone else if 3 <=? trailing fzero h' then fzero else fone) ∧
  monitorLogs (to_logs out) =
    if idle (tc_in x) then []
    else if bool_decide (trailing fzero h' = 3 ∧ trailing fzero h = 2) then [StallWarning 3]
    else if bool_decide (trailing fzero h' = 0 ∧ 3 ≤ trailing fzero h) then [Recovered] else [].
Proof.
  intros vm Hup out h h'.
  destruct (tickRun_monitor p o start xs m0) as [HW HM]. fold vm in HW, HM.
  destruct (statsTick_effect p o (tc_in x) (withJobAt (tc_jobAt x) vm.1) (tc_others x vm.2)) as (_ & _ & _ & EL & EU & _).
  change (statsTick _ _ _ _ _) with out in EL, EU. unfold measured in EL, EU.
  cbn [withJobAt hashWindow hashMon] in EL, EU. rewrite HW, observe_window, HM in EL, EU. cbn [snd] in EL, EU.
  unfold h', busyRates. rewrite fmap_app, foldl_app. cbn [foldl fmap list_fmap]. unfold h, busyRates in *.
  destruct (foldl busyStep (None, []) (tc_in <$> xs)) as [prev hs]. cbn [fst snd] in *. unfold busyStep. cbn [fst snd].
  unfold gauge_Value. rewrite EU, EL. unfold setG, with_reg, gauge_Set. cbn [reg gauges]. rewrite lookup_alter_eq.
  destruct Hup as [g Hg]. change (gauges (reg (addC _ _ _))) with (gauges (reg (tc_others x vm.2))). rewrite Hg. cbn.
  destruct (idle (tc_in x)); cbn [negb andb]; [done|].
  pose proof (monitor_exact fzero 3 hs (rateSince prev (tc_in x))) as [_ HL].
  pose proof (monitor_exact fzero 3 (hs ++ [rateSince prev (tc_in x)]) fzero) as [HS _].
  unfold observes in HS. rewrite foldl_app in HS. cbn [foldl] in HS. fold (observes fzero 3 hs) in HS.
  change (effective_max 3) with 3 in *. split.
  - destruct (Stalled _), (Z.leb_spec 3 (trailing fzero (hs ++ [rateSince prev (tc_in x)]))); try done.
    + exfalso. pose proof (proj1 HS eq_refl). lia.
    + exfalso. by apply HS in H.
  - rewrite HL. rewrite trailing_snoc. pose proof (stalled_run_nonneg fzero (reverse hs)) as Hn.
    fold (trailing fzero hs) in Hn. destruct (fle _ fzero).
    + repeat case_bool_decide; try (by repeat case_if; lia || done).
      all: destruct (Z.eqb_spec (trailing fzero hs + 1) 3); try done; lia.
    + repeat case_bool_decide; try lia; destruct (Z.leb_spec 3 (trailing fzero hs)); try done; lia.
Qed.

(** ** Shares dropped at the workers *)

Definition dropsOf (x : tickCase) : Z := totalDropped (ti_workers (tc_in x)).
Definition respects (x : tickCase) : Prop :=
  ∀ m, counters (reg (tc_others x m)) !! h_workerDropped = counters (reg m) !! h_workerDropped.

(** The totals the workers report never go down. *)
Fixpoint rising (d : Z) (xs : list tickCase) : Prop :=
  match xs with [] => True | x :: xs => d ≤ dropsOf x ∧ rising (dropsOf x) xs end.

Lemma tick_drops p o vm x :
  respects x → is_Some (counters (reg vm.2) !! h_workerDropped) → lastDropped vm.1 ≤ dropsOf x →
  let vm' := tickStep p o vm x in
  lastDropped vm'.1 = dropsOf x ∧ is_Some (counters (reg vm'.2) !! h_workerDropped) ∧
  counter_Value h_workerDropped (reg vm'.2) =
    wrap 64 (counter_Value h_workerDropped (reg vm.2) + (dropsOf x - lastDropped vm.1)).
Proof.
  intros Hr [c Hc] Hd vm'. unfold vm', tickStep, tickCaseOut. cbn [fst snd].
  destruct (statsTick_effect p o (tc_in x) (withJobAt (tc_jobAt x) vm.1) (tc_others x vm.2))
    as (_ & _ & E3 & _ & _ & EC).
  cbn [withJobAt lastDropped] in *. split; [exact E3|]. unfold counter_Value. rewrite EC.
  unfold setG, addC, with_reg, gauge_Set, counter_Add. cbn [reg counters].
  rewrite lookup_alter_eq, Hr, Hc. cbn. split; [eauto|].
  unfold dropDelta. fold (dropsOf x). f_equal. repeat case_if; lia.
Qed.

Lemma session_drops p o xs vm :
  Forall respects xs → is_Some (counters (reg vm.2) !! h_workerDropped) →
  counter_Value h_workerDropped (reg vm.2) ∈u 64 → rising (lastDropped vm.1) xs →
  let vm' := tickRun p o xs vm in
  is_Some (counters (reg vm'.2) !! h_workerDropped) ∧
  counter_Value h_workerDropped (reg vm'.2) =
    wrap 64 (counter_Value h_workerDropped (reg vm.2) +
             (from_option dropsOf (lastDropped vm.1) (last xs) - lastDropped vm.1)).
Proof.
  revert vm. induction xs as [|x xs IH]; intros vm HR HS HC HD.
  { cbn. split; [done|]. rewrite Z.sub_diag, Z.add_0_r. symmetry. by apply wrap_small. }
  apply Forall_cons in HR as [Hx HR]. destruct HD as [Hd HD].
  destruct (tick_drops p o vm x Hx HS Hd) as (E1 & E2 & E3).
  cbn [tickRun foldl]. fold (tickRun p o xs (tickStep p o vm x)).
  destruct (IH (tickStep p o vm x)) as [H1 H2]; [done|done| |by rewrite E1|].
  { rewrite E3. apply wrap_range. lia. }
  split; [done|]. rewrite H2, E3, E1. unfold wrap. rewrite Zplus_mod_idemp_l. f_equal.
  rewrite last_cons. destruct (last xs); cbn; lia.
Qed.

(** A session starts counting from zero although the workers keep their totals,
    so every session adds again what earlier ones have counted. *)
Lemma drops_recounted p o t1 t2 x1 x2 m :
  respects x1 → respects x2 → is_Some (counters (reg m) !! h_workerDropped) →
  counter_Value h_workerDropped (reg m) = 0 → 0 ≤ dropsOf x1 → 0 ≤ dropsOf x2 →
  let m1 := (tickRun p o [x1] (newTickVars t1, m)).2 in
  let m2 := (tickRun p o [x2] (newTickVars t2, m1)).2 in
  counter_Value h_workerDropped (reg m2) = wrap 64 (dropsOf x1 + dropsOf x2).
Proof.
  intros H1 H2 HS H0 D1 D2 m1 m2.
  destruct (session_drops p o [x1] (newTickVars t1, m)) as [S1 E1]; [by constructor|done|by cbn [snd]; rewrite H0|done|].
  destruct (session_drops p o [x2] (newTickVars t2, m1)) as [S2 E2]; [by constructor|done| |done|].
  { cbn [snd]. unfold m1. rewrite E1. apply wrap_range. lia. }
  unfold m2. rewrite E2. cbn [snd]. unfold m1. rewrite E1. cbn [snd fst newTickVars lastDropped last from_option].
  rewrite H0. unfold wrap. rewrite Zplus_mod_idemp_l. f_equal. lia.
Qed.
End Tick.

(** ** Witness: three ticks without a hash *)

Definition tick_worker : Worker :=
  {| cfg := {| Threads := 1; NonceStep := 0; NonceOffset := 0; cfg_DeviceID := "cpu0" |};
     work := None; workVer := 0; hashCount := 7; shareCount := 0; dropCount := 0; startTime := 1;
     started := true; cancelled := false; chan_buf := []; chan_closed := false; done := false |}.
Definition tick_at (t : Z) (curt : bool) : tickCase :=
  {| tc_in := {| ti_windowAt := t; ti_satsAt := t; ti_uptimeAt := t; ti_jobAt := t; ti_curtailed := curt;
                 ti_paused := ∅; ti_curtailedDash := curt; ti_curtailedJobs := curt;
                 ti_workers := [tick_worker]; ti_latency := NewLatencyTracker 4; ti_inFlight := 0;
                 ti_difficulty := fone; ti_degraded := false |};
     tc_jobAt := 0; tc_others := id |}.
Definition tick_env : sessionEnv :=
  {| se_poolURL := []; se_wallet := []; se_startTime := 0; se_devices := 1; se_providers := [];
     se_activity := ∅; se_powerWatts := fzero; se_yieldFailover := true; se_dashboard := false |}.
Definition tick_metrics : engineMetrics :=
  {| reg := {| counters := ∅; collectors := [];
               gauges := {[h_up := {| g_name := h_up; g_help := []; g_labels := ∅; g_value := fzero |}]} |};
     rejectByReason := ∅; lastRejectByReason := ∅; sharesFoundPerDevice := ∅;
     payoutInfo := ∅; payoutActiveMasked := [] |}.
Definition tick_past : list tickCase := [tick_at (10 ^ 10) false; tick_at (2 * 10 ^ 10) true; tick_at (3 * 10 ^ 10) false].

Lemma liveness_exact_witness :
  let vm := tickRun big_Int big_Int SV2 tick_env tick_past (newTickVars 0, tick_metrics) in
  let out := tickCaseOut big_Int big_Int SV2 tick_env vm (tick_at (4 * 10 ^ 10) false) in
  gauge_Value h_up (reg (to_metrics out)) = fzero ∧ monitorLogs (to_logs out) = [StallWarning 3].
Proof.
  intros vm out.
  destruct (liveness_exact big_Int big_Int SV2 tick_env 0 tick_past (tick_at (4 * 10 ^ 10) false) tick_metrics)
    as [H1 H2]; [eexists; vm_compute; reflexivity|].
  split; [etransitivity; [exact H1|]|etransitivity; [exact H2|]]; vm_compute; reflexivity.
Defined.
