(* ===== verification/EngineDial.v ===== *)
(** * internal/engine: connecting to a pool

    How a session gets its transport: the first part of [runSession] and of
    [runSessionV1], the V1 dialer, and the TLS settings of both protocol packages.
    The network is a parameter: what reading a CA bundle yields, whether a bundle
    holds certificates, and what each dial answers. *)
From S2P Require Import Prelude.
From S2P Require Import Text.
From S2P Require Import Poolproto.
From S2P Require Import StratumV1.
From S2P Require Import StratumV2.
From S2P Require Import Script.
From S2P Require Import EngineV2.

Open Scope Z_scope.

(** ** TLS settings *)

Definition VersionTLS12 : Z := 0x0303.

(** The fields of [tls.Config] in use; certificates are always verified, against
    the system roots and [extraRoots]. *)
Record tlsConfig := { extraRoots : option (list Z); MinVersion : Z }.
Inductive transport := Plain | TLS (c : tlsConfig).

Section Dial.
Context {Raw Sess : Type}.

Record network := {
  readFile : list Z → result (list Z);
  hasCerts : list Z → bool;                     (* CertPool.AppendCertsFromPEM *)
  dial : transport → list Z → result Raw;       (* DialContext within its timeout *)
}.
Context (n : network) (negotiate : Raw → Credentials → result Sess).

Definition defaultTLSConfig : tlsConfig := {| extraRoots := None; MinVersion := VersionTLS12 |}.

Definition TLSConfigWithExtraCAs (pem : list Z) : result (option tlsConfig) :=
  if bool_decide (pem = []) then Ok None
  else if negb (hasCerts n pem) then Err (Sentinel "stratum: tls_ca_file contains no valid PEM certificates")
  else Ok (Some {| extraRoots := Some pem; MinVersion := VersionTLS12 |}).

Definition DialTLS (address : list Z) (cfg : option tlsConfig) : result Raw :=
  dial n (TLS (default defaultTLSConfig cfg)) address.

(** ** The V1 dialer *)

Record v1connection := {
  v1_raw : Raw; v1_transport : transport; v1_addr : list Z; v1_protocol : ProtocolID; v1_creds : Credentials }.

Definition V1Dialer_Protocol (useTLS : bool) : ProtocolID :=
  if useTLS then ProtocolStratumV1TLS else ProtocolStratumV1.

Definition V1Dialer_Dial (useTLS : bool) (url : list Z) (creds : Credentials) : result v1connection :=
  address ← parseAddress url;
  tr ← (if useTLS
        then cfg ← TLSConfigWithExtraCAs (TLSRootCAsPEM creds); Ok (TLS (default defaultTLSConfig cfg))
        else Ok Plain);
  match dial n tr address with
  | Err e => Err (Wrapf "stratumv1: dial %s: %w"
                    (if errors_Is e DeadlineExceeded then Sentinel "dial timeout after %s" else e))
  | Ok raw => Ok {| v1_raw := raw; v1_transport := tr; v1_addr := address;
                    v1_protocol := V1Dialer_Protocol useTLS; v1_creds := creds |}
  end.

Definition v1Dialer (useTLS : bool) : Dialer v1connection (v1connection * Sess) :=
  {| Poolproto.Protocol := V1Dialer_Protocol useTLS;
     Poolproto.Dial := V1Dialer_Dial useTLS;
     Poolproto.Negotiate := λ c, s ← negotiate (v1_raw c) (v1_creds c); Ok (c, s) |}.

(** [init] registers both variants. *)
Definition v1init : result (gmap string (Dialer v1connection (v1connection * Sess))) :=
  r ← Register (Some (v1Dialer false)) ∅;
  Register (Some (v1Dialer true)) r.

(** ** The engine *)

Record poolOpts := { po_url : list Z; po_user : list Z; po_password : list Z; po_caFile : list Z }.

Definition parseHost (url : list Z) : result (list Z) :=
  match StripScheme url with
  | Err e => Err (Wrapf "engine: %w" e)
  | Ok h => Ok h
  end.

Inductive established :=
  | V1Session (c : v1connection) (s : Sess)
  | V2Transport (t : transport) (r : Raw).

(** [runSessionV1] up to the established session. *)
Definition v1Creds (o : poolOpts) : Credentials :=
  {| User := po_user o;
     Password := if bool_decide (po_password o = []) then %"x" else po_password o;
     PoolPubKey := [];
     TLSRootCAsPEM := if bool_decide (po_caFile o = []) then []
                      else match readFile n (po_caFile o) with Ok pem => pem | Err _ => [] end |}.
Definition connectV1 (o : poolOpts) : result established :=
  r ← v1init;
  match (DialURL r (po_url o) (v1Creds o)).1 with
  | Err e => Err (Wrapf "engine: %w" e)
  | Ok (c, s) => Ok (V1Session c s)
  end.

(** The TLS settings of a V2 pool: an unreadable bundle leaves the system roots. *)
Definition v2TLSConfig (caFile : list Z) : result (option tlsConfig) :=
  if bool_decide (caFile = []) then Ok None
  else match readFile n caFile with
  | Err _ => Ok None
  | Ok pem => match TLSConfigWithExtraCAs pem with
              | Err e => Err (Wrapf "engine: %w" e)
              | Ok cfg => Ok cfg
              end
  end.

(** [runSession] up to the connection the handshake runs over. *)
Definition connect (o : poolOpts) : result established :=
  let proto := FromURL (po_url o) in
  if String.eqb proto ProtocolStratumV1 || String.eqb proto ProtocolStratumV1TLS then connectV1 o
  else if negb (String.eqb proto ProtocolStratumV2) && negb (String.eqb proto ProtocolStratumV2TLS)
  then Err (Sentinel "engine: pool URL %q has unsupported protocol %q")
  else match parseHost (po_url o) with
  | Err e => Err (Wrapf "engine: bad pool URL %q: %w" e)
  | Ok host =>
      if String.eqb proto ProtocolStratumV2TLS then
        cfg ← v2TLSConfig (po_caFile o);
        match DialTLS host cfg with
        | Err e => Err (Wrapf "engine: TLS dial %s: %w" e)
        | Ok c => Ok (V2Transport (TLS (default defaultTLSConfig cfg)) c)
        end
      else
        match dial n Plain host with
        | Err e => Err (Wrapf "engine: dial %s: %w" e)
        | Ok c => Ok (V2Transport Plain c)
        end
  end.

Definition transportOf (e : established) : transport :=
  match e with V1Session c _ => v1_transport c | V2Transport t _ => t end.
End Dial.
Arguments network : clear implicits.
Arguments established : clear implicits.

(** ** The direct-payout script *)

(** The script a tides or solo pool has to pay in every coinbase; an address
    without one is reported and not checked. *)
Definition payoutScriptOf (unicodeToLower unicodeToUpper : list Z → list Z) (scheme addr : list Z) : list Z :=
  if (bool_decide (scheme = %"tides") || bool_decide (scheme = %"solo")) && negb (bool_decide (addr = [])) then
    match ScriptForAddress unicodeToLower unicodeToUpper addr with Ok s => s | Err _ => [] end
  else [].

(** ** The submit limiter *)

Record submitLimiter := { lim_tokens : nat }.
Definition newSubmitLimiter : submitLimiter := {| lim_tokens := submitBurst |}.
Definition refill (l : submitLimiter) : submitLimiter :=
  {| lim_tokens := Nat.min submitBurst (S (lim_tokens l)) |}.
Definition take_ (l : submitLimiter) : submitLimiter * bool :=
  match lim_tokens l with O => (l, false) | S k => ({| lim_tokens := k |}, true) end.

(** In any run the shares let through are at most the burst and the refills. *)
Inductive limiterOp := Refill | Take.
Definition limiterStep (s : submitLimiter * nat) (op : limiterOp) : submitLimiter * nat :=
  match op with
  | Refill => (refill s.1, s.2)
  | Take => let '(l, ok) := take_ s.1 in (l, if ok then S s.2 else s.2)
  end.
Definition refills (ops : list limiterOp) : nat :=
  length (List.filter (λ op, match op with Refill => true | Take => false end) ops).

Lemma limiter_bound ops :
  let '(l, taken) := foldl limiterStep (newSubmitLimiter, 0%nat) ops in
  (lim_tokens l ≤ submitBurst ∧ taken + lim_tokens l ≤ submitBurst + refills ops)%nat.
Proof.
  induction ops as [|op ops IH] using rev_ind; [done|]. rewrite foldl_app. cbn [foldl].
  unfold refills in *. rewrite List.filter_app, length_app.
  destruct (foldl limiterStep _ ops) as [[k] t]. cbn [lim_tokens] in IH.
  destruct op; cbn [limiterStep refill take_ lim_tokens fst snd List.filter length].
  - split; lia.
  - destruct k; cbn -[submitBurst] in *; lia.
Qed.

(** * No downgrade *)

Section Downgrade.
Context {Raw Sess : Type}.

Definition tlsURL (url : list Z) : Prop :=
  FromURL url = ProtocolStratumV1TLS ∨ FromURL url = ProtocolStratumV2TLS.

(** Networks that differ only in what plaintext dials answer. *)
Definition sameButPlain (n1 n2 : network Raw) : Prop :=
  readFile n1 = readFile n2 ∧ hasCerts n1 = hasCerts n2 ∧ ∀ c a, dial n1 (TLS c) a = dial n2 (TLS c) a.

(** Certificates are verified, from TLS 1.2 on, against the system roots and at
    most the bundle configured for the pool. *)
Definition secure (n : network Raw) (caFile : list Z) (t : transport) : Prop :=
  ∃ c, t = TLS c ∧ MinVersion c = VersionTLS12 ∧
    (extraRoots c = None ∨ ∃ pem, extraRoots c = Some pem ∧ readFile n caFile = Ok pem ∧ hasCerts n pem = true).

Lemma config_secure n pem caFile cfg :
  (pem = [] ∨ readFile n caFile = Ok pem) → TLSConfigWithExtraCAs n pem = Ok cfg →
  secure n caFile (TLS (default defaultTLSConfig cfg)).
Proof.
  unfold TLSConfigWithExtraCAs. intros HP H. case_bool_decide as E; [injection H as <-; eexists; eauto|].
  destruct (hasCerts n pem) eqn:EC; [|done]. injection H as <-. eexists. split_and!; [done..|].
  right. exists pem. split_and!; [done| |done]. by destruct HP.
Qed.

Lemma v1init_lookup (n : network Raw) (neg : Raw → Credentials → result Sess) :
  ∃ r, v1init n neg = Ok r ∧ r !! ProtocolStratumV1 = Some (v1Dialer n neg false) ∧
    r !! ProtocolStratumV1TLS = Some (v1Dialer n neg true).
Proof.
  unfold v1init, Register. cbn [Poolproto.Protocol v1Dialer V1Dialer_Protocol].
  change (String.eqb ProtocolStratumV1 ProtocolUnknown) with false.
  change (String.eqb ProtocolStratumV1TLS ProtocolUnknown) with false.
  rewrite lookup_empty. cbn [mbind result_bind]. rewrite lookup_insert_ne, lookup_empty by done.
  eexists. split; [done|]. split; [by rewrite lookup_insert_ne, lookup_insert_eq|by rewrite lookup_insert_eq].
Qed.

(** The session of a V1 TLS URL is the one negotiated over the TLS dial. *)
Lemma connectV1_tls (n : network Raw) (neg : Raw → Credentials → result Sess) o :
  FromURL (po_url o) = ProtocolStratumV1TLS →
  connect n neg o =
  match V1Dialer_Dial n true (po_url o) (v1Creds n o) with
  | Err e => Err (Wrapf "engine: %w" (Wrapf "dial %s: %w" e))
  | Ok c => match neg (v1_raw c) (v1_creds c) with
            | Err e => Err (Wrapf "engine: %w" (Wrapf "negotiate %s: %w" e))
            | Ok s => Ok (V1Session c s)
            end
  end.
Proof.
  intros HU. unfold connect, connectV1, DialURL, Lookup. rewrite HU.
  destruct (v1init_lookup n neg) as (r & Er & _ & El). rewrite Er.
  cbn -[V1Dialer_Dial v1Creds]. rewrite El. cbn -[V1Dialer_Dial v1Creds].
  destruct (V1Dialer_Dial n true _ _) as [c|e]; [|reflexivity].
  cbn -[V1Dialer_Dial v1Creds]. by destruct (neg (v1_raw c) (v1_creds c)).
Qed.

Lemma downgrade_v1 (n : network Raw) (neg : Raw → Credentials → result Sess) o :
  FromURL (po_url o) = ProtocolStratumV1TLS →
  (∀ n', sameButPlain n n' → connect n' neg o = connect n neg o) ∧
  (∀ e, connect n neg o = Ok e → secure n (po_caFile o) (transportOf e)).
Proof.
  intros HU. split.
  - intros n' (H1 & H2 & H3). rewrite !connectV1_tls by done.
    assert (v1Creds n' o = v1Creds n o) as -> by (unfold v1Creds; by rewrite H1).
    assert (V1Dialer_Dial n' true (po_url o) (v1Creds n o) = V1Dialer_Dial n true (po_url o) (v1Creds n o)) as ->; [|done].
    unfold V1Dialer_Dial, TLSConfigWithExtraCAs. rewrite <-H2.
    destruct (parseAddress _); [|done]. cbn [mbind result_bind].
    case_bool_decide; cbn [mbind result_bind]; [by rewrite H3|]. destruct (hasCerts n _); [|done].
    cbn [negb mbind result_bind]. by rewrite H3.
  - intros e He. rewrite connectV1_tls in He by done. unfold V1Dialer_Dial in He.
    destruct (parseAddress _); [|done]. cbn [mbind result_bind] in He.
    destruct (TLSConfigWithExtraCAs n _) as [cfg|] eqn:EC; [|done]. cbn [mbind result_bind] in He.
    destruct (dial n _ _); [|done]. cbn [v1_raw v1_creds] in He. destruct (neg _ _); [|done].
    injection He as <-. eapply config_secure; [|exact EC]. cbn. case_bool_decide; [by left|].
    destruct (readFile n (po_caFile o)) eqn:E; [by right|by left].
Qed.

Lemma downgrade_v2 (n : network Raw) (neg : Raw → Credentials → result Sess) o :
  FromURL (po_url o) = ProtocolStratumV2TLS →
  (∀ n', sameButPlain n n' → connect n' neg o = connect n neg o) ∧
  (∀ e, connect n neg o = Ok e → secure n (po_caFile o) (transportOf e)).
Proof.
  intros HU.
  assert (∀ n' : network Raw, connect n' neg o = match parseHost (po_url o) with
    | Err e => Err (Wrapf "engine: bad pool URL %q: %w" e)
    | Ok host => cfg ← v2TLSConfig n' (po_caFile o);
        match DialTLS n' host cfg with
        | Err e => Err (Wrapf "engine: TLS dial %s: %w" e)
        | Ok c => Ok (V2Transport (TLS (default defaultTLSConfig cfg)) c)
        end
    end) as HE by (intros n'; unfold connect; by rewrite HU).
  split.
  - intros n' (H1 & H2 & H3). rewrite !HE. destruct (parseHost _); [|done].
    unfold v2TLSConfig, DialTLS, TLSConfigWithExtraCAs. rewrite <-H1, <-H2.
    repeat (case_bool_decide || case_match); cbn [mbind result_bind]; rewrite ?H3; done.
  - intros e He. rewrite HE in He. destruct (parseHost _); [|done].
    destruct (v2TLSConfig n (po_caFile o)) as [cfg|] eqn:EC; [|done]. cbn [mbind result_bind] in He.
    destruct (DialTLS n _ _); [|done]. injection He as <-. unfold v2TLSConfig in EC. cbn [transportOf].
    case_bool_decide; [injection EC as <-; eexists; eauto|].
    destruct (readFile n (po_caFile o)) as [pem|] eqn:ER; [|injection EC as <-; eexists; eauto].
    destruct (TLSConfigWithExtraCAs n pem) eqn:ET; [|done]. injection EC as <-. eapply config_secure; eauto.
Qed.

End Downgrade.

(** A network on which every dial is answered and the CA bundle is readable. *)
Definition openNetwork : network nat :=
  {| readFile := λ _, Ok (%"PEM"); hasCerts := λ _, true; dial := λ t _, Ok (match t with Plain => 0%nat | TLS _ => 1%nat end) |}.
Definition tlsPool : poolOpts :=
  {| po_url := %"stratum+v2tls://pool:3336"; po_user := %"u"; po_password := []; po_caFile := %"ca.pem" |}.
Definition unknownPool : poolOpts :=
  {| po_url := %"http://pool:80"; po_user := []; po_password := []; po_caFile := [] |}.

