(* ===== verification/Daemon.v ===== *)
(** * internal/daemon: installing the background service

    The service definitions written for systemd and launchd, the command line of
    the Windows service, and Install, Uninstall and Status of each platform as
    programs over the actions they perform on the host. *)
From S2P Require Import Prelude.
From S2P Require Import Utf8.
From S2P Require Import Text.
From S2P Require Import Bech32.
From S2P Require Import Poolproto.
From S2P Require Import Config.
From S2P Require Import EngineStats.
From S2P Require Import Metrics.
From S2P Require Import Quoting.

Open Scope Z_scope.

Definition goosLinux : list Z := %"linux".
Definition goosDarwin : list Z := %"darwin".
Definition goosWindows : list Z := %"windows".

Record ServiceStatus := { Installed : bool; Running : bool; PID : Z; Details : list Z }.
Record ServiceFlags := {
  BitcoinAddress : list Z; sf_LogLevel : list Z; sf_LogFormat : list Z; sf_Language : list Z }.
Record Manager := {
  binaryPath : list Z; configPath : list Z; dataDir : list Z; serviceFlags : ServiceFlags }.

(** A text in which single quotes stand for double quotes. *)
Definition dq (s : list Z) : list Z := map (λ c, if c =? 39 then 34 else c) s.

(** ** The host *)

(** What a manager does to the host. *)
Inductive act :=
  | MkdirAll (dir : list Z)
  | WriteFile (path data : list Z) (perm : Z)
  | Remove (path : list Z)
  | Run (argv : list (list Z)).

Record host := {
  GOOS : list Z;
  Executable : result (list Z);
  EvalSymlinks : list Z → result (list Z);
  UserHomeDir : result (list Z);
  Getenv : list Z → list Z;
  systemctlShowEnvironment : result (list Z);
  windowsJoin : list (list Z) → list Z;            (* filepath.Join on Windows *)
  perform : act → result unit;
  Stat : list Z → bool;
  Output : list (list Z) → list Z * bool;          (* standard output; whether the command succeeded *)
}.

(** Files are written with mode 0600. *)
Definition ownerOnly : Z := 0x180.

(** Programs: a result and the actions attempted so far. *)
Definition prog (A : Type) : Type := list act → result A * list act.
#[export] Instance prog_ret : MRet prog := λ A a tr, (Ok a, tr).
#[export] Instance prog_bind : MBind prog := λ A B k p tr,
  match p tr with (Ok a, tr) => k a tr | (Err e, tr) => (Err e, tr) end.
Definition lift {A} (r : result A) : prog A := λ tr, (r, tr).
Definition wrapWith {A} (fmt : string) (p : prog A) : prog A := λ tr, let '(r, tr) := p tr in (wrapping fmt r, tr).
(** [_ = p()] and [x, _ := p()]. *)
Definition ignoring {A} (d : A) (p : prog A) : prog A := λ tr,
  match p tr with (Ok a, tr) => (Ok a, tr) | (Err _, tr) => (Ok d, tr) end.

Section Manager.
Context (unicodePrint : Z → bool) (h : host).

Definition attempt (a : act) : prog unit := λ tr, (perform h a, tr ++ [a]).
Definition runCmd (argv : list (list Z)) : prog unit := wrapWith "%s %v: %w: %s" (attempt (Run argv)).

Definition NewManager (configPath dataDir : list Z) (flags : ServiceFlags) : result Manager :=
  binary ← wrapping "daemon: cannot determine executable path: %w" (Executable h);
  binary ← wrapping "daemon: resolve symlink: %w" (EvalSymlinks h binary);
  Ok {| binaryPath := binary; configPath := configPath; dataDir := dataDir; serviceFlags := flags |}.

(** ** Command lines *)

Definition flagPair (name value : list Z) : list (list Z) :=
  if bool_decide (value = []) then [] else [name; value].
Definition serviceArgv (m : Manager) : list (list Z) :=
  [%"run"] ++ flagPair (%"--config") (configPath m) ++ flagPair (%"--data-dir") (dataDir m) ++
  flagPair (%"--bitcoin-address") (BitcoinAddress (serviceFlags m)) ++
  flagPair (%"--log-level") (sf_LogLevel (serviceFlags m)) ++
  flagPair (%"--log-format") (sf_LogFormat (serviceFlags m)) ++
  flagPair (%"--language") (sf_Language (serviceFlags m)).

Definition needsQuote (s : list Z) : bool := ContainsAny s [32; 9; 34] || existsb IsControl (runes s).
Definition quoteToken (s : list Z) : list Z := if needsQuote s then Quote unicodePrint s else s.
Definition serviceArgs (m : Manager) : list Z := strings_Join [32] (map quoteToken (serviceArgv m)).

(** ** systemd *)

Definition systemdUnitName : list Z := %"otedama.service".

(** The first [XDG_CONFIG_HOME=] of the manager's environment; [None] when the
    manager cannot be queried. *)
Fixpoint findConfigHome (ls : list (list Z)) : list Z :=
  match ls with
  | [] => []
  | l :: ls => match CutPrefix l (%"XDG_CONFIG_HOME=") with Some v => TrimSpace v | None => findConfigHome ls end
  end.
Definition systemdManagerConfigHome : option (list Z) :=
  match systemctlShowEnvironment h with
  | Err _ => None
  | Ok out => Some (findConfigHome (strings_Split 10 out))
  end.

Definition systemdUnitPath : prog (list Z) :=
  let configHome := match systemdManagerConfigHome with
                    | Some c => c
                    | None => Getenv h (%"XDG_CONFIG_HOME")
                    end in
  configHome ← (if bool_decide (configHome = [])
                then home ← lift (UserHomeDir h); mret (filepath_Join [home; %".config"])
                else mret configHome);
  let dir := filepath_Join [configHome; %"systemd"; %"user"] in
  _ ← attempt (MkdirAll dir);
  mret (filepath_Join [dir; systemdUnitName]).

(** config.DefaultDataDir. *)
Definition DefaultDataDir : list Z :=
  if bool_decide (GOOS h = goosWindows) then
    let appData := Getenv h (%"APPDATA") in
    if bool_decide (appData = []) then [] else windowsJoin h [appData; %"Otedama"]
  else if bool_decide (GOOS h = goosDarwin) then
    match UserHomeDir h with
    | Err _ => []
    | Ok home => filepath_Join [home; %"Library"; %"Application Support"; %"Otedama"]
    end
  else
    let xdg := Getenv h (%"XDG_DATA_HOME") in
    if bool_decide (xdg = []) then
      match UserHomeDir h with
      | Err _ => []
      | Ok home => filepath_Join [home; %".local"; %"share"; %"otedama"]
      end
    else filepath_Join [xdg; %"otedama"].
Definition effectiveDataDir (m : Manager) : list Z :=
  if bool_decide (dataDir m = []) then DefaultDataDir else dataDir m.

Definition systemdUnit (m : Manager) : list Z :=
  let readWritePaths :=
    if bool_decide (effectiveDataDir m = []) then []
    else %"ReadWritePaths=" ++ quoteToken (effectiveDataDir m) ++ [10] in
  %"[Unit]
Description=Otedama — non-custodial compute arbitration
After=network-online.target
Wants=network-online.target

[Service]
Type=simple
ExecStart=" ++ quoteToken (binaryPath m) ++ [32] ++ serviceArgs m ++ %"
Restart=on-failure
RestartSec=10s
StandardOutput=journal
StandardError=journal
SyslogIdentifier=otedama

# Security hardening
NoNewPrivileges=true
ProtectHome=read-only
PrivateTmp=true
" ++ readWritePaths ++ %"
[Install]
WantedBy=default.target
".

Definition installSystemd (m : Manager) : prog unit :=
  path ← wrapWith "daemon: systemd unit dir: %w" systemdUnitPath;
  _ ← wrapWith "daemon: write systemd unit: %w" (attempt (WriteFile path (systemdUnit m) ownerOnly));
  _ ← wrapWith "daemon: systemctl daemon-reload: %w" (runCmd [%"systemctl"; %"--user"; %"daemon-reload"]);
  wrapWith "daemon: systemctl enable: %w"
    (runCmd [%"systemctl"; %"--user"; %"enable"; %"--now"; systemdUnitName]).
Definition uninstallSystemd : prog unit :=
  _ ← ignoring tt (runCmd [%"systemctl"; %"--user"; %"disable"; %"--now"; systemdUnitName]);
  path ← systemdUnitPath;
  attempt (Remove path).
Definition statusSystemd : prog ServiceStatus :=
  path ← ignoring [] systemdUnitPath;
  let installed := Stat h path in
  let '(out, ok) := Output h [%"systemctl"; %"--user"; %"is-active"; systemdUnitName] in
  mret {| Installed := installed; Running := ok && bool_decide (TrimSpace out = %"active"); PID := 0; Details := out |}.

(** ** launchd *)

Definition launchdLabel : list Z := %"com.otedama.daemon".

Definition launchdPlistPath : prog (list Z) :=
  home ← lift (UserHomeDir h);
  let dir := filepath_Join [home; %"Library"; %"LaunchAgents"] in
  _ ← attempt (MkdirAll dir);
  mret (filepath_Join [dir; launchdLabel ++ %".plist"]).

Definition launchdLogPath (name : list Z) : prog (list Z) :=
  match UserHomeDir h with
  | Err _ => mret (filepath_Join [%"/"; %"tmp"; name])
  | Ok home =>
      let dir := filepath_Join [home; %"Library"; %"Logs"] in
      ok ← ignoring false (_ ← attempt (MkdirAll dir); mret true);
      mret (if ok : bool then filepath_Join [dir; name] else filepath_Join [%"/"; %"tmp"; name])
  end.

Definition xmlEscape (s : list Z) : list Z :=
  replaceBytes (λ c, if c =? 38 then Some (%"&amp;") else if c =? 60 then Some (%"&lt;")
                     else if c =? 62 then Some (%"&gt;") else if c =? 34 then Some (%"&quot;")
                     else if c =? 39 then Some (%"&apos;") else None) s.

Definition argEntries (argv : list (list Z)) : list Z :=
  concat (map (λ a, if bool_decide (a = []) then [] else [9; 9] ++ %"<string>" ++ xmlEscape a ++ %"</string>" ++ [10])
              argv).
Definition plistText (argv : list (list Z)) (out err : list Z) : list Z :=
  dq (%"<?xml version='1.0' encoding='UTF-8'?>
<!DOCTYPE plist PUBLIC '-//Apple//DTD PLIST 1.0//EN'
    'http://www.apple.com/DTDs/PropertyList-1.0.dtd'>
<plist version='1.0'>
<dict>
    <key>Label</key>
    <string>") ++ launchdLabel ++ %"</string>
    <key>ProgramArguments</key>
    <array>
" ++ argEntries argv ++ %"    </array>
    <key>RunAtLoad</key>
    <true/>
    <key>KeepAlive</key>
    <true/>
    <key>StandardOutPath</key>
    <string>" ++ out ++ %"</string>
    <key>StandardErrorPath</key>
    <string>" ++ err ++ %"</string>
</dict>
</plist>
".
Definition launchdPlist (m : Manager) : prog (list Z) :=
  out ← launchdLogPath (%"otedama.log");
  err ← launchdLogPath (%"otedama.err");
  mret (plistText (binaryPath m :: serviceArgv m) out err).

Definition installLaunchd (m : Manager) : prog unit :=
  path ← launchdPlistPath;
  plist ← launchdPlist m;
  _ ← wrapWith "daemon: write plist: %w" (attempt (WriteFile path plist ownerOnly));
  runCmd [%"launchctl"; %"load"; %"-w"; path].
Definition uninstallLaunchd : prog unit :=
  path ← launchdPlistPath;
  _ ← ignoring tt (runCmd [%"launchctl"; %"unload"; %"-w"; path]);
  attempt (Remove path).
Definition statusLaunchd : prog ServiceStatus :=
  path ← ignoring [] launchdPlistPath;
  let installed := Stat h path in
  let '(out, ok) := Output h [%"launchctl"; %"list"; launchdLabel] in
  mret {| Installed := installed; Running := ok && negb (Contains out (%"Could not find")); PID := 0; Details := out |}.

(** ** Windows *)

Definition installWindowsService (m : Manager) : prog unit :=
  runCmd [%"sc.exe"; %"create"; %"Otedama"; %"binPath="; [34] ++ binaryPath m ++ [34; 32] ++ serviceArgs m;
          %"start="; %"auto"; %"DisplayName="; %"Otedama Mining Service"].
Definition uninstallWindowsService : prog unit :=
  _ ← ignoring tt (runCmd [%"sc.exe"; %"stop"; %"Otedama"]);
  runCmd [%"sc.exe"; %"delete"; %"Otedama"].
Definition statusWindowsService : prog ServiceStatus :=
  let '(out, ok) := Output h [%"sc.exe"; %"query"; %"Otedama"] in
  mret (if ok then {| Installed := true; Running := Contains out (%"RUNNING"); PID := 0; Details := out |}
        else {| Installed := false; Running := false; PID := 0; Details := [] |}).

(** ** Dispatch *)

Definition unsupported {A} : prog A := lift (Err (Sentinel "daemon: unsupported platform %q")).
Definition byPlatform {A} (linux darwin windows : prog A) : prog A :=
  if bool_decide (GOOS h = goosLinux) then linux
  else if bool_decide (GOOS h = goosDarwin) then darwin
  else if bool_decide (GOOS h = goosWindows) then windows
  else unsupported.
Definition Install (m : Manager) : prog unit :=
  byPlatform (installSystemd m) (installLaunchd m) (installWindowsService m).
Definition Uninstall : prog unit := byPlatform uninstallSystemd uninstallLaunchd uninstallWindowsService.
Definition Status : prog ServiceStatus := byPlatform statusSystemd statusLaunchd statusWindowsService.
End Manager.

(** * Reading the definitions back *)

(** ** Unit files

    Lines ending in a backslash continue on the next one; empty lines and comments
    are skipped; a directive belongs to the section above it. *)
Fixpoint joinLines (ls : list (list Z)) : list (list Z) :=
  match ls with
  | [] => []
  | l :: ls =>
      match joinLines ls with
      | next :: rest => if bool_decide (last l = Some 92) then (removelast l ++ 32 :: next) :: rest
                        else l :: next :: rest
      | [] => [l]
      end
  end.
Definition unitStep (s : list Z * list (list Z * list Z * list Z)) (l : list Z)
    : list Z * list (list Z * list Z * list Z) :=
  match l with
  | [] => s
  | c :: t =>
      if c =? 35 then s
      else if c =? 91 then ((span (λ b, negb (b =? 93)) t).1, s.2)
      else let '(key, value) := span (λ b, negb (b =? 61)) l in (s.1, s.2 ++ [(s.1, key, drop 1 value)])
  end.
(** The directives of a unit file: section, key and value. *)
Definition parseUnit (s : list Z) : list (list Z * list Z * list Z) :=
  (foldl unitStep ([], []) (joinLines (lines s))).2.

(** ** Property lists *)

Inductive xtok := Tag (t : list Z) | Txt (t : list Z).
Definition entities : list (list Z * Z) :=
  [(%"amp;", 38); (%"lt;", 60); (%"gt;", 62); (%"quot;", 34); (%"apos;", 39)].
Fixpoint xmlUnescape (fuel : nat) (s : list Z) : option (list Z) :=
  match fuel, s with
  | _, [] => Some []
  | O, _ => None
  | S fuel, c :: s' =>
      if c =? 38 then
        match List.find (λ e, HasPrefix s' e.1) entities with
        | Some (e, b) => cons b <$> xmlUnescape fuel (drop (length e) s')
        | None => None
        end
      else cons c <$> xmlUnescape fuel s'
  end.
Fixpoint xmlTokens (fuel : nat) (s : list Z) : option (list xtok) :=
  match fuel, s with
  | _, [] => Some []
  | O, _ => None
  | S fuel, c :: s' =>
      if c =? 60 then
        let '(tag, rest) := span (λ b, negb (b =? 62)) s' in
        match rest with
        | _ :: rest => cons (Tag tag) <$> xmlTokens fuel rest
        | [] => None
        end
      else
        let '(text, rest) := span (λ b, negb (b =? 60)) s in
        t ← xmlUnescape (length text) text; cons (Txt t) <$> xmlTokens fuel rest
  end.
(** Elements that hold text, and other tags; white space between tags is dropped. *)
Inductive xitem := Elem (name text : list Z) | Mark (tag : list Z).
Fixpoint xmlItems (ts : list xtok) : option (list xitem) :=
  match ts with
  | [] => Some []
  | Tag n :: ((Txt t :: Tag e :: ts'') as ts') =>
      if bool_decide (e = 47 :: n) then cons (Elem n t) <$> xmlItems ts''
      else cons (Mark n) <$> xmlItems ts'
  | Tag n :: ts => cons (Mark n) <$> xmlItems ts
  | Txt t :: ts => if forallb (λ c, blank c || (c =? 10)) t then xmlItems ts else None
  end.
Definition parsePlist (s : list Z) : option (list xitem) :=
  ts ← xmlTokens (length s) s; xmlItems ts.

(** * The unit file *)

Section Unit_file.
Context (up : Z → bool) (h : host).

(** A token the unit file can carry: non-empty, and if it needs no quoting free of
    the backslash and the apostrophe, which have a meaning there. *)
Definition quotable (t : list Z) : Prop :=
  t ≠ [] ∧ bytes_ok t ∧ (needsQuote t = true ∨ Forall (λ c, c ≠ 92 ∧ c ≠ 39) t).

Lemma ContainsAny_false s cs : ContainsAny s cs = false → ∀ c, c ∈ s → c ∉ cs.
Proof.
  unfold ContainsAny. intros H c Hc Hin. apply not_true_iff_false in H. apply H, existsb_exists.
  exists c. split; [by apply list_elem_of_In|by apply bool_decide_eq_true].
Qed.

Lemma quoteToken_word t : quotable t → wordText t (quoteToken up t).
Proof.
  intros (Hne & Hb & Hq). unfold quoteToken. destruct (needsQuote t) eqn:E; [by apply wordText_Quote|].
  destruct Hq as [?|Hq]; [done|]. unfold needsQuote in E. apply orb_false_iff in E as [E _].
  apply wordText_verbatim; [done|]. rewrite Forall_forall in *. intros c Hc. destruct (Hq c Hc) as [H1 H2].
  pose proof (ContainsAny_false _ _ E c Hc) as H3. rewrite !not_elem_of_cons in H3.
  unfold verbatim. tauto.
Qed.

Lemma quoteToken_inline t : bytes_ok t → Forall inline (quoteToken up t).
Proof.
  intros Hb. unfold quoteToken. destruct (needsQuote t) eqn:E; [by apply Quote_inline|].
  unfold needsQuote in E. apply orb_false_iff in E as [_ E]. rewrite Forall_forall in *. intros c Hc.
  pose proof (Hb c Hc) as Hc'. unfold byte_ok in Hc'. change (2 ^ 8) with 256 in Hc'.
  destruct (decide (inline c)) as [|Hn]; [done|exfalso]. apply not_true_iff_false in E. apply E, existsb_exists.
  exists c. unfold inline, IsControl in *. split; [|lia].
  apply list_elem_of_In, ascii_byte_rune; [by apply Forall_forall|done|lia].
Qed.
Lemma quoteToken_last t : quotable t → last (quoteToken up t) ≠ Some 92.
Proof.
  intros (_ & _ & Hq) H. unfold quoteToken in H. destruct (needsQuote t) eqn:E.
  - unfold Quote in H. by rewrite app_assoc, last_snoc in H.
  - destruct Hq as [?|Hq]; [done|]. apply last_Some_elem_of in H. rewrite Forall_forall in Hq.
    by destruct (Hq _ H).
Qed.

(** The lines of the unit, for an ExecStart value and the lines of the carve-out. *)
Definition unitLines (exec : list Z) (carve : list (list Z)) : list (list Z) :=
  [%"[Unit]"; %"Description=Otedama — non-custodial compute arbitration"; %"After=network-online.target";
   %"Wants=network-online.target"; []; %"[Service]"; %"Type=simple"; %"ExecStart=" ++ exec;
   %"Restart=on-failure"; %"RestartSec=10s"; %"StandardOutput=journal"; %"StandardError=journal";
   %"SyslogIdentifier=otedama"; []; %"# Security hardening"; %"NoNewPrivileges=true"; %"ProtectHome=read-only";
   %"PrivateTmp=true"] ++ carve ++ [[]; %"[Install]"; %"WantedBy=default.target"].
Definition serviceDirectives (exec : list Z) (carve : list (list Z * list Z * list Z))
    : list (list Z * list Z * list Z) :=
  [(%"Unit", %"Description", %"Otedama — non-custodial compute arbitration");
   (%"Unit", %"After", %"network-online.target"); (%"Unit", %"Wants", %"network-online.target");
   (%"Service", %"Type", %"simple"); (%"Service", %"ExecStart", exec);
   (%"Service", %"Restart", %"on-failure"); (%"Service", %"RestartSec", %"10s");
   (%"Service", %"StandardOutput", %"journal"); (%"Service", %"StandardError", %"journal");
   (%"Service", %"SyslogIdentifier", %"otedama"); (%"Service", %"NoNewPrivileges", %"true");
   (%"Service", %"ProtectHome", %"read-only"); (%"Service", %"PrivateTmp", %"true")] ++ carve ++
  [(%"Install", %"WantedBy", %"default.target")].

(** A single logical line. *)
Definition oneLine (l : list Z) : Prop := 10 ∉ l ∧ last l ≠ Some 92.

Lemma joinLines_id ls : Forall oneLine ls → joinLines ls = ls.
Proof.
  induction 1 as [|l ls [_ Hl] _ IH]; [done|]. cbn [joinLines]. rewrite IH. destruct ls; [done|].
  by rewrite bool_decide_eq_false_2.
Qed.
Lemma parse_unlines ls : Forall oneLine ls → parseUnit (unlines ls) = (foldl unitStep ([], []) ls).2.
Proof.
  intros H. unfold parseUnit. rewrite lines_unlines; [by rewrite joinLines_id|].
  eapply Forall_impl; [done|]. by intros ? [].
Qed.

Lemma unitLines_one exec carve :
  oneLine (%"ExecStart=" ++ exec) → Forall oneLine carve → Forall oneLine (unitLines exec carve).
Proof.
  intros He Hc. assert (∀ l, bool_decide (10 ∉ l) && bool_decide (last l ≠ Some 92) = true → oneLine l) as Hk.
  { intros l [H1%bool_decide_eq_true H2%bool_decide_eq_true]%andb_prop. done. }
  unfold unitLines. repeat apply Forall_app_2; [|done|].
  - do 7 (apply Forall_cons_2; [apply Hk; vm_compute; reflexivity|]). apply Forall_cons_2; [exact He|].
    do 10 (apply Forall_cons_2; [apply Hk; vm_compute; reflexivity|]). apply Forall_nil_2.
  - do 3 (apply Forall_cons_2; [apply Hk; vm_compute; reflexivity|]). apply Forall_nil_2.
Qed.
Lemma unit_directives exec carve :
  oneLine (%"ExecStart=" ++ exec) → oneLine (%"ReadWritePaths=" ++ carve) →
  parseUnit (unlines (unitLines exec [])) = serviceDirectives exec [] ∧
  parseUnit (unlines (unitLines exec [%"ReadWritePaths=" ++ carve])) =
    serviceDirectives exec [(%"Service", %"ReadWritePaths", carve)].
Proof.
  intros He Hc. split; rewrite parse_unlines; try (vm_compute; reflexivity); apply unitLines_one;
    [exact He|apply Forall_nil_2|exact He|apply Forall_cons_2; [exact Hc|apply Forall_nil_2]].
Qed.

Lemma oneLine_prefix p s :
  10 ∉ p → s ≠ [] → Forall inline s → last s ≠ Some 92 → oneLine (p ++ s).
Proof.
  intros Hp Hne Hs Hl. split.
  - rewrite elem_of_app. intros [?|H]; [done|]. rewrite Forall_forall in Hs. destruct (Hs _ H). lia.
  - rewrite last_app. destruct (last s) eqn:E; [done|]. by apply last_None in E.
Qed.

Lemma strings_Join_last sep l x : l ≠ [] → last l = Some x → x ≠ [] → last (strings_Join sep l) = last x.
Proof.
  intros _. induction l as [|y l IH]; [done|]. destruct l as [|z l]; [by intros [= ->]|].
  intros Hl Hx. rewrite strings_Join_cons by done.
  rewrite !last_app, (IH Hl Hx). destruct (last x) eqn:E; [done|]. by apply last_None in E.
Qed.
Definition execLine (m : Manager) : list Z := quoteToken up (binaryPath m) ++ [32] ++ serviceArgs up m.
Lemma execLine_join m : execLine m = strings_Join [32] (map (quoteToken up) (binaryPath m :: serviceArgv m)).
Proof. done. Qed.

Lemma quoted_nonempty t : quotable t → quoteToken up t ≠ [].
Proof. intros Hq. destruct (quoteToken_word t Hq) as [(c & x & -> & _) _]. done. Qed.

Lemma quoted_oneLine p toks :
  10 ∉ p → toks ≠ [] → Forall quotable toks → oneLine (p ++ strings_Join [32] (map (quoteToken up) toks)).
Proof.
  intros Hp Hne Hq. destruct (last toks) as [t|] eqn:El; [|by apply last_None in El].
  assert (quotable t) as Ht by (rewrite Forall_forall in Hq; by apply Hq, last_Some_elem_of).
  assert (last (strings_Join [32] (map (quoteToken up) toks)) = last (quoteToken up t)) as Hl.
  { apply strings_Join_last; [by destruct toks|by rewrite fmap_last, El|by apply quoted_nonempty]. }
  apply oneLine_prefix; [done|..].
  - intros E. rewrite E in Hl. symmetry in Hl. apply last_None in Hl. by apply quoted_nonempty in Hl.
  - apply strings_Join_Forall; [by repeat constructor|]. apply Forall_map. eapply Forall_impl; [done|].
    intros x (_ & Hb & _). by apply quoteToken_inline.
  - rewrite Hl. by apply quoteToken_last.
Qed.
Lemma quoted_words toks :
  Forall quotable toks → splitWords (strings_Join [32] (map (quoteToken up) toks)) = Some toks.
Proof.
  intros Hq. apply splitWords_join. induction Hq; constructor; [by apply quoteToken_word|done].
Qed.

Definition carveLines (m : Manager) : list (list Z) :=
  if bool_decide (effectiveDataDir h m = []) then [] else [%"ReadWritePaths=" ++ quoteToken up (effectiveDataDir h m)].
Lemma systemdUnit_lines m : systemdUnit up h m = unlines (unitLines (execLine m) (carveLines m)).
Proof.
  unfold systemdUnit, carveLines, unitLines, execLine. generalize (serviceArgs up m) (quoteToken up (binaryPath m)).
  intros args bin. case_bool_decide.
  - cbn [app]. rewrite !unlines_cons, <-!app_assoc. vm_compute. reflexivity.
  - generalize (quoteToken up (effectiveDataDir h m)). intros d. cbn [app].
    rewrite !unlines_cons, <-!app_assoc. vm_compute. reflexivity.
Qed.

(** The unit file says what was asked for and nothing else.  For any binary
    path, settings and data directory — with blanks, quotes, newlines or bytes
    that are not UTF-8, but see [quotable] — reading the file yields exactly the
    intended directives: no value can add or alter one.  The words of ExecStart
    are the binary and the service's arguments, and the data directory is the one
    path excepted from ProtectHome. *)
Theorem unit_file_exact m :
  Forall quotable (binaryPath m :: serviceArgv m) →
  (effectiveDataDir h m = [] ∨ quotable (effectiveDataDir h m)) →
  ∃ exec carve,
    parseUnit (systemdUnit up h m) = serviceDirectives exec carve ∧
    splitWords exec = Some (binaryPath m :: serviceArgv m) ∧
    (effectiveDataDir h m = [] → carve = []) ∧
    (effectiveDataDir h m ≠ [] → ∃ paths, carve = [(%"Service", %"ReadWritePaths", paths)] ∧
                                   splitWords paths = Some [effectiveDataDir h m]).
Proof.
  intros Hq Hd. assert (10 ∉ %"ExecStart=" ∧ 10 ∉ %"ReadWritePaths=") as [N1 N2]
    by (split; apply (bool_decide_unpack _); vm_compute; exact I).
  assert (oneLine (%"ExecStart=" ++ execLine m)) as He by (rewrite execLine_join; by apply quoted_oneLine).
  rewrite systemdUnit_lines. exists (execLine m). unfold carveLines. case_bool_decide as Ed.
  - exists []. split_and!; [|by rewrite execLine_join; apply quoted_words|done|done].
    apply (unit_directives _ (%"x") He). split; [|done]. apply (bool_decide_unpack _). vm_compute. exact I.
  - destruct Hd as [?|Hd]; [done|].
    exists [(%"Service", %"ReadWritePaths", quoteToken up (effectiveDataDir h m))].
    split_and!; [|by rewrite execLine_join; apply quoted_words|done|intros _; eexists; split; [done|]].
    + apply unit_directives; [done|]. apply (quoted_oneLine _ [_]); [done|done|]. by apply Forall_singleton.
    + apply (quoted_words [_]). by apply Forall_singleton.
Qed.
End Unit_file.

(** ** Concrete managers *)

Definition linuxHost : host :=
  {| GOOS := goosLinux; Executable := Ok (%"/usr/bin/otedama"); EvalSymlinks := Ok; UserHomeDir := Ok (%"/home/John Doe");
     Getenv := λ _, []; systemctlShowEnvironment := Ok (%"LANG=C" ++ [10]); windowsJoin := strings_Join [92];
     perform := λ _, Ok tt; Stat := λ _, true; Output := λ _, (%"active" ++ [10], true) |}.
Definition noFlags : ServiceFlags := {| BitcoinAddress := []; sf_LogLevel := []; sf_LogFormat := []; sf_Language := [] |}.
(** A configuration path that tries to smuggle a directive in. *)
Definition hostile : Manager :=
  {| binaryPath := %"/home/John Doe/otedama"; configPath := %"c.yaml" ++ [10] ++ %"ProtectHome=false"; dataDir := [];
     serviceFlags := noFlags |}.

Lemma unit_file_exact_witness :
  ∃ exec carve,
    parseUnit (systemdUnit (λ _, true) linuxHost hostile) = serviceDirectives exec carve ∧
    splitWords exec = Some [%"/home/John Doe/otedama"; %"run"; %"--config"; %"c.yaml" ++ [10] ++ %"ProtectHome=false"] ∧
    ∃ paths, carve = [(%"Service", %"ReadWritePaths", paths)] ∧
      splitWords paths = Some [%"/home/John Doe/.local/share/otedama"].
Proof.
  assert (∀ t, bool_decide (t ≠ [] ∧ (needsQuote t = true ∨ Forall (λ c, c ≠ 92 ∧ c ≠ 39) t) ∧
    Forall (λ c, 0 ≤ c < 256) t) = true → quotable t) as Hq.
  { intros t (H1 & H2 & H3)%bool_decide_eq_true. split_and!; [done| |done].
    eapply Forall_impl; [done|]. intros c Hc. cbn beta in Hc. unfold byte_ok. change (2 ^ 8) with 256. lia. }
  destruct (unit_file_exact (λ _, true) linuxHost hostile) as (exec & carve & H1 & H2 & _ & H3).
  - change (binaryPath hostile :: serviceArgv hostile) with
      [%"/home/John Doe/otedama"; %"run"; %"--config"; %"c.yaml" ++ [10] ++ %"ProtectHome=false"].
    repeat (apply Forall_cons_2; [apply Hq; vm_compute; reflexivity|]). apply Forall_nil_2.
  - right. apply Hq. vm_compute. reflexivity.
  - exists exec, carve. split; [exact H1|]. split; [exact H2|].
    destruct H3 as (paths & H4 & H5); [apply (bool_decide_unpack _); vm_compute; exact I|].
    exists paths. split; [exact H4|]. rewrite H5. vm_compute. reflexivity.
Defined.

(** Outside [quotable]: a backslash alone does not make [quoteToken] quote, so the
    reader decodes it as an escape, and at the end of the line it swallows the next
    directive. *)
Definition withLanguage (l : list Z) : Manager :=
  {| binaryPath := %"/usr/bin/otedama"; configPath := []; dataDir := %"/d";
     serviceFlags := {| BitcoinAddress := []; sf_LogLevel := []; sf_LogFormat := []; sf_Language := l |} |}.
Lemma backslash_unquoted :
  splitWords (quoteToken (λ _, true) (%"/data/a\tb")) = Some [%"/data/a" ++ [9] ++ %"b"] ∧
  (%"Service", %"Restart", %"on-failure") ∉ parseUnit (systemdUnit (λ _, true) linuxHost (withLanguage (%"en\"))).
Proof. split; [vm_compute; reflexivity|]. apply (bool_decide_unpack _). vm_compute. exact I. Qed.

(** * The property list *)

Section Plist.

Definition xmlEscapeByte (c : Z) : list Z :=
  if c =? 38 then %"&amp;" else if c =? 60 then %"&lt;" else if c =? 62 then %"&gt;"
  else if c =? 34 then %"&quot;" else if c =? 39 then %"&apos;" else [c].
Lemma xmlEscape_cons c s :
  xmlEscape (c :: s) = xmlEscapeByte c ++ xmlEscape s.
Proof. unfold xmlEscape, replaceBytes, xmlEscapeByte. cbn [map concat]. f_equal. by repeat case_if. Qed.

Lemma xmlUnescape_escape s n : (length (xmlEscape s) ≤ n)%nat → xmlUnescape n (xmlEscape s) = Some s.
Proof.
  revert n. induction s as [|c s IH]; intros n Hn; [by destruct n|].
  rewrite xmlEscape_cons in *. unfold xmlEscapeByte in *. revert IH Hn. generalize (xmlEscape s). intros t IH Hn.
  destruct n as [|n]; [repeat case_if; cbn in Hn; lia|].
  assert (∀ k, (S k + length t ≤ S n)%nat → xmlUnescape n t = Some s) as IHk by (intros k Hk; apply IH; lia).
  repeat match goal with |- context [if c =? ?k then _ else _] =>
    destruct (Z.eqb_spec c k) as [->|?]; [cbn in Hn; transitivity (cons k <$> xmlUnescape n t);
       [vm_compute; reflexivity|by rewrite (IHk 0%nat) by lia]|] end.
  cbn [app xmlUnescape length] in *.
  rewrite (proj2 (Z.eqb_neq c 38)) by done.
  by rewrite (IHk 0%nat) by lia.
Qed.

Lemma xmlEscape_text s : Forall (λ c, negb (c =? 60) = true) (xmlEscape s).
Proof.
  induction s as [|c s IH]; [constructor|]. rewrite xmlEscape_cons. apply Forall_app. split; [|done].
  unfold xmlEscapeByte. repeat case_if; try (vm_compute; by repeat constructor). repeat constructor. lia.
Qed.
Lemma xmlEscape_nonempty s : s ≠ [] → xmlEscape s ≠ [].
Proof. destruct s; [done|]. rewrite xmlEscape_cons. unfold xmlEscapeByte. by repeat case_if. Qed.
(** Text without markup characters stands for itself. *)
Definition markupFree (s : list Z) : Prop := Forall (λ c, c ∉ [38; 60; 62; 34; 39]) s.
Lemma xmlEscape_id s : markupFree s → xmlEscape s = s.
Proof.
  induction 1 as [|c s Hc _ IH]; [done|]. rewrite xmlEscape_cons, IH. unfold xmlEscapeByte.
  rewrite !not_elem_of_cons in Hc. destruct Hc as (H1 & H2 & H3 & H4 & H5 & _).
  by rewrite !(proj2 (Z.eqb_neq _ _)) by done.
Qed.

Definition renderTok (x : xtok) : list Z := match x with Tag t => 60 :: t ++ [62] | Txt t => xmlEscape t end.
(** Documents whose tokens can be told apart. *)
Fixpoint wellFormed (ts : list xtok) : Prop :=
  match ts with
  | [] => True
  | Tag t :: ts => 62 ∉ t ∧ wellFormed ts
  | Txt t :: ts => t ≠ [] ∧ match ts with Txt _ :: _ => False | _ => True end ∧ wellFormed ts
  end.

Lemma span_all f a : Forall (λ x, f x = true) a → span f a = (a, []).
Proof. induction 1 as [|x a Hx _ IH]; [done|]. cbn [span]. by rewrite Hx, IH. Qed.

Lemma xmlTokens_render ts n :
  wellFormed ts → (length ts ≤ n)%nat → xmlTokens n (concat (map renderTok ts)) = Some ts.
Proof.
  revert n. induction ts as [|x ts IH]; intros n Hw Hn; [by destruct n|].
  destruct n as [|n]; [cbn in Hn; lia|]. cbn [length] in Hn. cbn [map concat].
  destruct x as [t|t]; cbn [renderTok wellFormed] in *.
  - destruct Hw as [H62 Hw]. cbn [app xmlTokens Z.eqb Pos.eqb]. rewrite <-app_assoc. cbn [app].
    rewrite span_stop; [by rewrite IH by (done || lia)| |done].
    apply Forall_forall. intros c Hc. destruct (Z.eqb_spec c 62) as [->|]; done.
  - destruct Hw as (Hne & Hadj & Hw). pose proof (xmlEscape_text t) as Ht.
    assert (span (λ b, negb (b =? 60)) (xmlEscape t ++ concat (map renderTok ts)) =
      (xmlEscape t, concat (map renderTok ts))) as Hs.
    { destruct ts as [|[u|u] ts]; [by rewrite app_nil_r; apply span_all| |done].
      cbn [map concat renderTok app]. by apply span_stop. }
    destruct (xmlEscape t) as [|c e] eqn:Ee; [by apply xmlEscape_nonempty in Ee|].
    assert (c =? 60 = false) as Hc by (apply Forall_cons in Ht as [Hc _]; by destruct (c =? 60)).
    rewrite <-app_comm_cons in *. cbn [xmlTokens]. rewrite Hc, Hs, <-Ee, xmlUnescape_escape by done.
    cbn [mbind option_bind]. by rewrite IH by (done || lia).
Qed.
Lemma render_length ts : wellFormed ts → (length ts ≤ length (concat (map renderTok ts)))%nat.
Proof.
  induction ts as [|[t|t] ts IH]; [done|..]; cbn [wellFormed map concat length renderTok]; rewrite length_app.
  - intros [_ Hw]. specialize (IH Hw). cbn. lia.
  - intros (Hne & _ & Hw). specialize (IH Hw). apply xmlEscape_nonempty in Hne. destruct (xmlEscape t); [done|cbn; lia].
Qed.
Lemma plist_parse_render ts : wellFormed ts → parsePlist (concat (map renderTok ts)) = xmlItems ts.
Proof. intros Hw. unfold parsePlist. by rewrite xmlTokens_render by (done || by apply render_length). Qed.

(** ** The tokens of the property list *)

Definition indent : list Z := 10 :: %"    ".
Definition keyToks (k : list Z) : list xtok := [Tag (%"key"); Txt k; Tag (%"/key"); Txt indent].
Definition argToks (a : list Z) : list xtok := [Txt [10; 9; 9]; Tag (%"string"); Txt a; Tag (%"/string")].
Definition headToks : list xtok :=
  [Tag (dq (%"?xml version='1.0' encoding='UTF-8'?")); Txt [10];
   Tag (dq (%"!DOCTYPE plist PUBLIC '-//Apple//DTD PLIST 1.0//EN'" ++ indent ++
            %"'http://www.apple.com/DTDs/PropertyList-1.0.dtd'")); Txt [10];
   Tag (dq (%"plist version='1.0'")); Txt [10]; Tag (%"dict"); Txt indent] ++
  keyToks (%"Label") ++ [Tag (%"string"); Txt launchdLabel; Tag (%"/string"); Txt indent] ++
  keyToks (%"ProgramArguments") ++ [Tag (%"array")].
Definition tailToks (out err : list Z) : list xtok :=
  [Txt indent; Tag (%"/array"); Txt indent] ++ keyToks (%"RunAtLoad") ++ [Tag (%"true/"); Txt indent] ++
  keyToks (%"KeepAlive") ++ [Tag (%"true/"); Txt indent] ++
  keyToks (%"StandardOutPath") ++ [Tag (%"string"); Txt out; Tag (%"/string"); Txt indent] ++
  keyToks (%"StandardErrorPath") ++ [Tag (%"string"); Txt err; Tag (%"/string"); Txt [10]; Tag (%"/dict");
  Txt [10]; Tag (%"/plist"); Txt [10]].
Definition plistToks (argv : list (list Z)) (out err : list Z) : list xtok :=
  headToks ++ concat (map argToks argv) ++ tailToks out err.

(** What the property list says. *)
Definition plistItems (argv : list (list Z)) (out err : list Z) : list xitem :=
  [Mark (dq (%"?xml version='1.0' encoding='UTF-8'?"));
   Mark (dq (%"!DOCTYPE plist PUBLIC '-//Apple//DTD PLIST 1.0//EN'" ++ indent ++
             %"'http://www.apple.com/DTDs/PropertyList-1.0.dtd'"));
   Mark (dq (%"plist version='1.0'")); Mark (%"dict");
   Elem (%"key") (%"Label"); Elem (%"string") launchdLabel;
   Elem (%"key") (%"ProgramArguments"); Mark (%"array")] ++
  map (Elem (%"string")) argv ++
  [Mark (%"/array"); Elem (%"key") (%"RunAtLoad"); Mark (%"true/"); Elem (%"key") (%"KeepAlive"); Mark (%"true/");
   Elem (%"key") (%"StandardOutPath"); Elem (%"string") out;
   Elem (%"key") (%"StandardErrorPath"); Elem (%"string") err; Mark (%"/dict"); Mark (%"/plist")].

Lemma argEntries_tokens argv :
  Forall (λ a, a ≠ []) argv → 10 :: argEntries argv = concat (map renderTok (concat (map argToks argv))) ++ [10].
Proof.
  induction 1 as [|a argv Ha _ IH]; [done|]. unfold argEntries in *. cbn [map concat]. rewrite bool_decide_eq_false_2 by done.
  rewrite map_app, concat_app, <-!app_assoc, <-IH. generalize (concat (map (λ a0 : list Z, if bool_decide (a0 = []) then [] else
    [9; 9] ++ %"<string>" ++ xmlEscape a0 ++ %"</string>" ++ [10]) argv)). intros rest.
  unfold argToks. cbn [map concat renderTok]. change (xmlEscape [10; 9; 9]) with [10; 9; 9].
  generalize (xmlEscape a). intros x. rewrite <-!app_assoc. reflexivity.
Qed.

Lemma wellFormed_app ts us :
  wellFormed ts → (∃ t ts', ts = ts' ++ [Tag t]) → wellFormed us → wellFormed (ts ++ us).
Proof.
  intros Hw (t & ts' & ->) Hu. induction ts' as [|x ts' IH]; [by destruct Hw|].
  rewrite <-!app_comm_cons in *. destruct x as [v|v]; cbn [wellFormed] in *.
  - destruct Hw as [Hv Hw]. split; [done|by apply IH].
  - destruct Hw as (Hne & Hadj & Hw). split_and!; [done| |by apply IH]. by destruct ts' as [|[]].
Qed.

Lemma args_wellFormed argv out err :
  Forall (λ a, a ≠ []) argv → out ≠ [] → err ≠ [] →
  wellFormed (concat (map argToks argv) ++ tailToks out err).
Proof.
  intros Ha Ho He. induction Ha as [|a argv Ha _ IH].
  - cbn [map concat app]. unfold tailToks, keyToks. cbn [app wellFormed].
    repeat match goal with |- _ ∧ _ => split end; try exact I; try done;
      apply (bool_decide_unpack _); vm_compute; exact I.
  - cbn [map concat]. rewrite <-app_assoc. unfold argToks at 1. cbn [app wellFormed].
    repeat match goal with |- _ ∧ _ => split end; try exact I; try done;
      apply (bool_decide_unpack _); vm_compute; exact I.
Qed.
Lemma plist_wellFormed argv out err :
  Forall (λ a, a ≠ []) argv → out ≠ [] → err ≠ [] → wellFormed (plistToks argv out err).
Proof.
  intros Ha Ho He. apply wellFormed_app; [|exists (%"array"), (removelast headToks); vm_compute; reflexivity|by apply args_wellFormed].
  unfold headToks, keyToks. cbn [app wellFormed]. repeat match goal with |- _ ∧ _ => split end; try exact I; try done;
    apply (bool_decide_unpack _); vm_compute; exact I.
Qed.

Lemma items_elem n t e ts :
  e = 47 :: n → xmlItems (Tag n :: Txt t :: Tag e :: ts) = cons (Elem n t) <$> xmlItems ts.
Proof. intros ->. cbn [xmlItems]. by rewrite bool_decide_eq_true_2. Qed.
Lemma items_mark n t e ts :
  e ≠ 47 :: n → xmlItems (Tag n :: Txt t :: Tag e :: ts) = cons (Mark n) <$> xmlItems (Txt t :: Tag e :: ts).
Proof.
  intros H. change (xmlItems (Tag n :: Txt t :: Tag e :: ts)) with
    (if bool_decide (e = 47 :: n) then cons (Elem n t) <$> xmlItems ts
     else cons (Mark n) <$> xmlItems (Txt t :: Tag e :: ts)).
  by rewrite bool_decide_eq_false_2.
Qed.
Lemma items_space t ts :
  forallb (λ c, blank c || (c =? 10)) t = true → xmlItems (Txt t :: ts) = xmlItems ts.
Proof. intros H. cbn [xmlItems]. by rewrite H. Qed.
Ltac xml_items :=
  repeat match goal with
  | |- context [xmlItems (Tag ?n :: Txt ?t :: Tag ?e :: ?ts)] =>
      (rewrite (items_elem n t e ts) by (vm_compute; reflexivity))
      || (rewrite (items_mark n t e ts) by (vm_compute; discriminate))
  | |- context [xmlItems (Txt ?t :: ?ts)] => rewrite (items_space t ts) by (vm_compute; reflexivity)
  end.

Lemma plist_items a argv out err :
  xmlItems (plistToks (a :: argv) out err) = Some (plistItems (a :: argv) out err).
Proof.
  assert (xmlItems (Tag (%"array") :: concat (map argToks (a :: argv)) ++ tailToks out err) =
    cons (Mark (%"array")) <$> xmlItems (concat (map argToks (a :: argv)) ++ tailToks out err)) as H1.
  { cbn [map concat]. unfold argToks at 1 3. cbn [app]. by rewrite items_mark by (vm_compute; discriminate). }
  assert (∀ l, xmlItems (concat (map argToks l) ++ tailToks out err) =
    app (map (Elem (%"string")) l) <$> xmlItems (tailToks out err)) as H2.
  { induction l as [|x l IH]; [cbn [map concat app]; by destruct (xmlItems _)|].
    cbn [map concat]. rewrite <-app_assoc. unfold argToks at 1. cbn [app]. xml_items. rewrite IH.
    by destruct (xmlItems (tailToks out err)). }
  assert (xmlItems (tailToks out err) = Some [Mark (%"/array"); Elem (%"key") (%"RunAtLoad"); Mark (%"true/");
    Elem (%"key") (%"KeepAlive"); Mark (%"true/"); Elem (%"key") (%"StandardOutPath"); Elem (%"string") out;
    Elem (%"key") (%"StandardErrorPath"); Elem (%"string") err; Mark (%"/dict"); Mark (%"/plist")]) as H3.
  { unfold tailToks, keyToks. cbn [app]. xml_items. reflexivity. }
  unfold plistToks, headToks, keyToks. rewrite <-!app_assoc. cbn [app]. xml_items.
  rewrite H1, H2, H3. reflexivity.
Qed.

Lemma plistText_tokens argv out err :
  Forall (λ a, a ≠ []) argv → markupFree out → markupFree err →
  plistText argv out err = concat (map renderTok (plistToks argv out err)).
Proof.
  intros Ha Ho He. unfold plistToks. rewrite !map_app, !concat_app.
  pose proof (argEntries_tokens argv Ha) as HA. revert HA.
  unfold plistText. generalize (argEntries argv) (concat (map renderTok (concat (map argToks argv)))). intros x y HA.
  assert (concat (map renderTok (tailToks out err)) = [10] ++ %"    </array>
    <key>RunAtLoad</key>
    <true/>
    <key>KeepAlive</key>
    <true/>
    <key>StandardOutPath</key>
    <string>" ++ out ++ %"</string>
    <key>StandardErrorPath</key>
    <string>" ++ err ++ %"</string>
</dict>
</plist>
") as ->.
  { unfold tailToks, keyToks. cbn [app map concat renderTok]. rewrite (xmlEscape_id out), (xmlEscape_id err) by done.
    vm_compute. reflexivity. }
  rewrite (app_assoc y), <-HA. vm_compute. reflexivity.
Qed.
End Plist.

(** ** The property list reads back *)

Section Plist_file.
Context (h : host).

Definition logDir (home : list Z) : list Z := filepath_Join [home; %"Library"; %"Logs"].
Definition logFile (name : list Z) : list Z :=
  match UserHomeDir h with
  | Ok home => if is_ok (perform h (MkdirAll (logDir home))) then filepath_Join [logDir home; name]
               else filepath_Join [%"/"; %"tmp"; name]
  | Err _ => filepath_Join [%"/"; %"tmp"; name]
  end.
Definition logActs : list act :=
  match UserHomeDir h with Ok home => [MkdirAll (logDir home)] | Err _ => [] end.

Lemma launchdLogPath_eq name tr : launchdLogPath h name tr = (Ok (logFile name), tr ++ logActs).
Proof.
  unfold launchdLogPath, logFile, logActs. destruct (UserHomeDir h) as [home|e].
  - unfold mbind, prog_bind, ignoring, attempt, mret, prog_ret. fold (logDir home).
    by destruct (perform h (MkdirAll (logDir home))).
  - by rewrite app_nil_r.
Qed.
Lemma launchdPlist_eq m tr :
  launchdPlist h m tr = (Ok (plistText (binaryPath m :: serviceArgv m) (logFile (%"otedama.log")) (logFile (%"otedama.err"))),
                         tr ++ logActs ++ logActs).
Proof.
  unfold launchdPlist. unfold mbind, prog_bind. rewrite launchdLogPath_eq, launchdLogPath_eq. by rewrite <-app_assoc.
Qed.

Lemma logFile_sound name :
  name ≠ [] → markupFree name → (∀ home, UserHomeDir h = Ok home → markupFree home) →
  logFile name ≠ [] ∧ markupFree (logFile name).
Proof.
  intros Hn Hm Hh. assert (∀ l, bool_decide (markupFree l) = true → markupFree l) as Hk
    by (intros l H; by apply bool_decide_eq_true in H).
  assert (∀ es, Forall markupFree es → markupFree (filepath_Join es)) as HJ.
  { intros es He. apply filepath_Join_Forall; [..|done]; by apply (bool_decide_unpack _). }
  unfold logFile. destruct (UserHomeDir h) as [home|e] eqn:E; [case_if|].
  - assert (markupFree (logDir home)) as Hd.
    { apply HJ. apply Forall_cons_2; [by apply Hh|]. repeat (apply Forall_cons_2; [apply Hk; vm_compute; reflexivity|]).
      apply Forall_nil_2. }
    split; [|apply HJ; by repeat (apply Forall_cons_2; [done|])].
    apply filepath_Join_nonempty. unfold logDir. destruct home; [by vm_compute|by apply filepath_Join_nonempty].
  - split; [by apply filepath_Join_nonempty|apply HJ].
    do 2 (apply Forall_cons_2; [apply Hk; vm_compute; reflexivity|]). by apply Forall_cons_2.
  - split; [by apply filepath_Join_nonempty|apply HJ].
    do 2 (apply Forall_cons_2; [apply Hk; vm_compute; reflexivity|]). by apply Forall_cons_2.
Qed.

Lemma serviceArgv_nonempty m : Forall (λ a, a ≠ []) (serviceArgv m).
Proof.
  assert (∀ n v, n ≠ [] → Forall (λ a, a ≠ []) (flagPair n v)) as Hf.
  { intros n v Hn. unfold flagPair. case_bool_decide; by repeat constructor. }
  unfold serviceArgv. repeat apply Forall_app_2; try (by apply Hf). by repeat constructor.
Qed.

(** The launchd property list reads back as what was asked for.  Whatever the
    binary path and the settings contain — markup, quotes, blanks, newlines — a
    reader of the file that decodes entities finds exactly the fixed keys, the
    binary and the service's arguments one element each, in order, and the two log
    files.  (The log paths are not escaped, so the home directory must be free of
    markup.) *)
Theorem plist_exact m tr :
  binaryPath m ≠ [] → (∀ home, UserHomeDir h = Ok home → markupFree home) →
  ∃ text, (launchdPlist h m tr).1 = Ok text ∧
    parsePlist text = Some (plistItems (binaryPath m :: serviceArgv m) (logFile (%"otedama.log")) (logFile (%"otedama.err"))).
Proof.
  intros Hb Hh. rewrite launchdPlist_eq. eexists. split; [done|].
  destruct (logFile_sound (%"otedama.log")) as [O1 O2]; [done|by apply (bool_decide_unpack _)|done|].
  destruct (logFile_sound (%"otedama.err")) as [E1 E2]; [done|by apply (bool_decide_unpack _)|done|].
  assert (Forall (λ a, a ≠ []) (binaryPath m :: serviceArgv m)) as Ha
    by (constructor; [done|apply serviceArgv_nonempty]).
  rewrite plistText_tokens by done. rewrite plist_parse_render by (by apply plist_wellFormed). apply plist_items.
Qed.
End Plist_file.

Definition macHost (home : list Z) : host :=
  {| GOOS := goosDarwin; Executable := Ok (%"/opt/otedama"); EvalSymlinks := Ok; UserHomeDir := Ok home;
     Getenv := λ _, []; systemctlShowEnvironment := Err (Sentinel "no systemctl"); windowsJoin := strings_Join [92];
     perform := λ _, Ok tt; Stat := λ _, true; Output := λ _, ([], true) |}.
Definition markupManager : Manager :=
  {| binaryPath := %"/Applications/R&D/otedama"; configPath := %"</array>"; dataDir := %"a'b c"; serviceFlags := noFlags |}.

Lemma plist_exact_witness :
  ∃ text, (launchdPlist (macHost (%"/Users/John Doe")) markupManager []).1 = Ok text ∧
    parsePlist text = Some (plistItems
      [%"/Applications/R&D/otedama"; %"run"; %"--config"; %"</array>"; %"--data-dir"; %"a'b c"]
      (%"/Users/John Doe/Library/Logs/otedama.log") (%"/Users/John Doe/Library/Logs/otedama.err")).
Proof.
  destruct (plist_exact (macHost (%"/Users/John Doe")) markupManager []) as (text & H1 & H2).
  - discriminate.
  - intros home [= <-]. apply (bool_decide_unpack _). vm_compute. exact I.
  - exists text. split; [exact H1|]. rewrite H2. vm_compute. reflexivity.
Defined.

(** The log paths are inserted as they are: a home directory with an ampersand
    makes the file unreadable. *)
Lemma home_markup_breaks_plist :
  match (launchdPlist (macHost (%"/Users/R&D")) markupManager []).1 with
  | Ok text => parsePlist text = None
  | Err _ => False
  end.
Proof. vm_compute. reflexivity. Qed.

(** * What Install and Uninstall do to the host *)

Section Plans.
Context (up : Z → bool) (h : host).

(** A plan: actions in order, each with whether its failure ends the run, and
    whether the run succeeds when it gets through. *)
Definition plan : Type := list (bool * act) * bool.
Fixpoint carryOut (p : list (bool * act)) (final : bool) : list act * bool :=
  match p with
  | [] => ([], final)
  | (required, a) :: p =>
      if required && negb (is_ok (perform h a)) then ([a], false)
      else let '(tr, ok) := carryOut p final in (a :: tr, ok)
  end.
Definition carriesOut {A} (q : prog A) (p : plan) : Prop :=
  ∀ tr, (q tr).2 = tr ++ (carryOut p.1 p.2).1 ∧ is_ok (q tr).1 = (carryOut p.1 p.2).2.

Definition configHome : result (list Z) :=
  let c := match systemdManagerConfigHome h with Some c => c | None => Getenv h (%"XDG_CONFIG_HOME") end in
  if bool_decide (c = []) then home ← UserHomeDir h; Ok (filepath_Join [home; %".config"]) else Ok c.
Definition unitDir (c : list Z) : list Z := filepath_Join [c; %"systemd"; %"user"].
Definition unitFile (c : list Z) : list Z := filepath_Join [unitDir c; systemdUnitName].
Definition agentDir (home : list Z) : list Z := filepath_Join [home; %"Library"; %"LaunchAgents"].
Definition agentFile (home : list Z) : list Z := filepath_Join [agentDir home; launchdLabel ++ %".plist"].
Definition systemctl (args : list (list Z)) : act := Run (%"systemctl" :: %"--user" :: args).

Definition installPlan (m : Manager) : plan :=
  if bool_decide (GOOS h = goosLinux) then
    match configHome with
    | Err _ => ([], false)
    | Ok c => ([(true, MkdirAll (unitDir c)); (true, WriteFile (unitFile c) (systemdUnit up h m) ownerOnly);
                (true, systemctl [%"daemon-reload"]); (true, systemctl [%"enable"; %"--now"; systemdUnitName])], true)
    end
  else if bool_decide (GOOS h = goosDarwin) then
    match UserHomeDir h with
    | Err _ => ([], false)
    | Ok home => ([(true, MkdirAll (agentDir home)); (false, MkdirAll (logDir home)); (false, MkdirAll (logDir home));
                   (true, WriteFile (agentFile home) (plistText (binaryPath m :: serviceArgv m)
                            (logFile h (%"otedama.log")) (logFile h (%"otedama.err"))) ownerOnly);
                   (true, Run [%"launchctl"; %"load"; %"-w"; agentFile home])], true)
    end
  else if bool_decide (GOOS h = goosWindows) then
    ([(true, Run [%"sc.exe"; %"create"; %"Otedama"; %"binPath="; [34] ++ binaryPath m ++ [34; 32] ++ serviceArgs up m;
                  %"start="; %"auto"; %"DisplayName="; %"Otedama Mining Service"])], true)
  else ([], false).
Definition uninstallPlan : plan :=
  if bool_decide (GOOS h = goosLinux) then
    match configHome with
    | Err _ => ([(false, systemctl [%"disable"; %"--now"; systemdUnitName])], false)
    | Ok c => ([(false, systemctl [%"disable"; %"--now"; systemdUnitName]); (true, MkdirAll (unitDir c));
                (true, Remove (unitFile c))], true)
    end
  else if bool_decide (GOOS h = goosDarwin) then
    match UserHomeDir h with
    | Err _ => ([], false)
    | Ok home => ([(true, MkdirAll (agentDir home)); (false, Run [%"launchctl"; %"unload"; %"-w"; agentFile home]);
                   (true, Remove (agentFile home))], true)
    end
  else if bool_decide (GOOS h = goosWindows) then
    ([(false, Run [%"sc.exe"; %"stop"; %"Otedama"]); (true, Run [%"sc.exe"; %"delete"; %"Otedama"])], true)
  else ([], false).

Lemma prog_bind_eq {A B} (q : prog A) (k : A → prog B) tr :
  (q ≫= k) tr = match q tr with (Ok a, tr) => k a tr | (Err e, tr) => (Err e, tr) end.
Proof. done. Qed.
Lemma wrapWith_eq {A} fmt (q : prog A) tr :
  wrapWith fmt q tr = let '(r, tr) := q tr in (wrapping fmt r, tr).
Proof. done. Qed.
Lemma ignoring_eq {A} (d : A) (q : prog A) tr :
  ignoring d q tr = match q tr with (Ok a, tr) => (Ok a, tr) | (Err _, tr) => (Ok d, tr) end.
Proof. done. Qed.
Lemma attempt_eq a tr : attempt h a tr = (perform h a, tr ++ [a]).
Proof. done. Qed.
Lemma runCmd_eq argv tr :
  runCmd h argv tr = (wrapping "%s %v: %w: %s" (perform h (Run argv)), tr ++ [Run argv]).
Proof. done. Qed.
Ltac progs :=
  repeat first [rewrite prog_bind_eq | rewrite wrapWith_eq | rewrite ignoring_eq | rewrite runCmd_eq | rewrite attempt_eq
               | progress cbn [lift attempt mret prog_ret wrapping]].
(** Every outcome of the actions of a program, one at a time. *)
Ltac outcomes :=
  progs;
  repeat match goal with |- context [perform h ?a] =>
    destruct (perform h a) eqn:?; progs; cbn [wrapping is_ok carryOut andb negb] end;
  rewrite <-?app_assoc, ?app_nil_r; try (split; reflexivity).

Lemma systemdUnitPath_eq tr :
  systemdUnitPath h tr =
  match configHome with
  | Err e => (Err e, tr)
  | Ok c => (match perform h (MkdirAll (unitDir c)) with Ok _ => Ok (unitFile c) | Err e => Err e end,
             tr ++ [MkdirAll (unitDir c)])
  end.
Proof.
  unfold systemdUnitPath, configHome, unitFile, unitDir. progs. case_bool_decide; progs.
  - destruct (UserHomeDir h) as [home|e]; [|done]. progs. cbn [mbind result_bind]. by destruct (perform h _).
  - by destruct (perform h _).
Qed.
Lemma launchdPlistPath_eq tr :
  launchdPlistPath h tr =
  match UserHomeDir h with
  | Err e => (Err e, tr)
  | Ok home => (match perform h (MkdirAll (agentDir home)) with Ok _ => Ok (agentFile home) | Err e => Err e end,
                tr ++ [MkdirAll (agentDir home)])
  end.
Proof.
  unfold launchdPlistPath, agentFile, agentDir. progs. destruct (UserHomeDir h) as [home|e]; [|done].
  progs. by destruct (perform h _).
Qed.

Lemma install_carries m : carriesOut (Install up h m) (installPlan m).
Proof.
  intros tr. unfold Install, byPlatform, installPlan.
  case_bool_decide; [|case_bool_decide; [|case_bool_decide]].
  - unfold installSystemd, systemctl. progs. rewrite systemdUnitPath_eq. destruct configHome as [c|e].
    + cbn [fst snd carryOut]. outcomes.
    + cbn. by rewrite app_nil_r.
  - unfold installLaunchd. progs. rewrite launchdPlistPath_eq. destruct (UserHomeDir h) as [home|e] eqn:EH.
    + cbn [fst snd carryOut andb]. destruct (perform h (MkdirAll (agentDir home))); cbn [is_ok negb]; [|done].
      progs. rewrite launchdPlist_eq. unfold logActs. rewrite EH. outcomes.
    + cbn. by rewrite app_nil_r.
  - unfold installWindowsService. cbn [fst snd carryOut]. outcomes.
  - cbn. by rewrite app_nil_r.
Qed.
Lemma uninstall_carries : carriesOut (Uninstall h) uninstallPlan.
Proof.
  intros tr. unfold Uninstall, byPlatform, uninstallPlan.
  case_bool_decide; [|case_bool_decide; [|case_bool_decide]].
  - unfold uninstallSystemd, systemctl. progs.
    destruct (perform h (Run _)); progs; rewrite systemdUnitPath_eq; destruct configHome;
      cbn [fst snd carryOut andb]; outcomes.
  - unfold uninstallLaunchd. progs. rewrite launchdPlistPath_eq. destruct (UserHomeDir h) as [home|e].
    + cbn [fst snd carryOut andb]. outcomes.
    + cbn. by rewrite app_nil_r.
  - unfold uninstallWindowsService. cbn [fst snd carryOut andb]. outcomes.
  - cbn. by rewrite app_nil_r.
Qed.

(** Install and Uninstall do exactly what their plans say, on every platform
    and whatever the host answers: the actions are attempted in order, the first
    failing required one ends the run, and the run succeeds just when it gets
    through.  The only file written is private to its owner and is the one that
    Uninstall removes; on an unknown platform nothing is touched. *)
Theorem service_plans m :
  carriesOut (Install up h m) (installPlan m) ∧ carriesOut (Uninstall h) uninstallPlan ∧
  ∀ path data mode, (true, WriteFile path data mode) ∈ (installPlan m).1 →
    mode = ownerOnly ∧ (true, Remove path) ∈ uninstallPlan.1.
Proof.
  split; [apply install_carries|split; [apply uninstall_carries|]].
  intros path data mode. unfold installPlan, uninstallPlan.
  case_bool_decide; [|case_bool_decide; [|case_bool_decide]].
  - destruct configHome; cbn [fst]; rewrite ?list_elem_of_In; cbn [In]; [|done].
    intros [?|[[= -> _ ->]|[?|[?|[]]]]]; try discriminate. auto.
  - destruct (UserHomeDir h); cbn [fst]; rewrite ?list_elem_of_In; cbn [In]; [|done].
    intros [?|[?|[?|[[= -> _ ->]|[?|[]]]]]]; try discriminate. auto.
  - cbn [fst]. rewrite !list_elem_of_In. cbn [In]. intros [?|[]]. discriminate.
  - cbn [fst]. by rewrite elem_of_nil.
Qed.
End Plans.
