(* ===== verification/Suggest.v ===== *)
(** * cmd/otedama/main.go: suggesting a subcommand

    [levenshtein] with its two rolling rows, the choice of the closest known
    subcommand, and the edit distance they are to compute. *)
From S2P Require Import Prelude.
From S2P Require Import Utf8.
From S2P Require Import Text.

Open Scope nat_scope.

(** ** The code *)

(** The rest of a row: [left] is [cur[j]], [diag] is [prev[j]], [ups] is [prev[j+1:]]. *)
Fixpoint rowLoop (ca : Z) (left diag : nat) (ups : list nat) (br : list Z) : list nat :=
  match br, ups with
  | cb :: br, up :: ups =>
      let cost := if (ca =? cb)%Z then 0 else 1 in
      let v := (left + 1) `min` (up + 1) `min` (diag + cost) in
      v :: rowLoop ca v up ups br
  | _, _ => []
  end.
Definition levRow (ca : Z) (i : nat) (prev : list nat) (br : list Z) : list nat :=
  (i + 1) :: rowLoop ca (i + 1) (nth 0 prev 0) (tail prev) br.
Fixpoint levLoop (i : nat) (ar br : list Z) (prev : list nat) : list nat :=
  match ar with
  | [] => prev
  | ca :: ar => levLoop (S i) ar br (levRow ca i prev br)
  end.
Definition levenshtein (a b : list Z) : nat :=
  let ar := runes a in
  let br := runes b in
  nth (length br) (levLoop 0 ar br (seq 0 (length br + 1))) 0.

Definition helpSubcommand : list Z := %"help".
Definition knownSubcommands : list (list Z) :=
  [%"run"; %"version"; %"config"; %"service"; %"doctor"; %"wallet"; %"completion"; helpSubcommand].

(** [strings.TrimLeft(typed, "-")]. *)
Fixpoint trimDashes (s : list Z) : list Z :=
  match s with
  | c :: s' => if (c =? 45)%Z then trimDashes s' else s
  | [] => []
  end.
Definition suggestSubcommand (typed : list Z) : list Z :=
  let t := trimDashes typed in
  (foldl (λ best c, let d := levenshtein t c in if d <? snd best then (c, d) else best) ([], 3) knownSubcommands).1.

Example suggest_examples :
  map suggestSubcommand [%"rnu"; %"--versio"; %"confg"; %"xyzzy"; %"walet"; []] =
  [%"run"; %"version"; %"config"; []; %"wallet"; []].
Proof. vm_compute. reflexivity. Qed.

(** * Edit distance *)

(** One insertion, deletion or substitution. *)
Inductive edit : list Z → list Z → Prop :=
  | edit_insert l r c : edit (l ++ r) (l ++ c :: r)
  | edit_delete l r c : edit (l ++ c :: r) (l ++ r)
  | edit_replace l r c d : edit (l ++ c :: r) (l ++ d :: r).

(** The distance by recursion on both strings. *)
Fixpoint lev (a : list Z) : list Z → nat :=
  fix levb (b : list Z) : nat :=
    match a, b with
    | [], _ => length b
    | _, [] => length a
    | x :: a', y :: b' =>
        (levb b' + 1) `min` (lev a' b + 1) `min` (lev a' b' + if (x =? y)%Z then 0 else 1)
    end.

Lemma lev_nil_l b : lev [] b = length b.
Proof. by destruct b. Qed.
Lemma lev_nil_r a : lev a [] = length a.
Proof. by destruct a. Qed.
Lemma lev_cons x a y b :
  lev (x :: a) (y :: b) =
  (lev (x :: a) b + 1) `min` (lev a (y :: b) + 1) `min` (lev a b + if (x =? y)%Z then 0 else 1).
Proof. done. Qed.

(** ** The distance is the least number of edits *)

Lemma edit_cons c a b : edit a b → edit (c :: a) (c :: b).
Proof. intros []; [apply (edit_insert (c :: l))|apply (edit_delete (c :: l))|apply (edit_replace (c :: l))]. Qed.
Lemma edits_cons c n a b : nsteps edit n a b → nsteps edit n (c :: a) (c :: b).
Proof. induction 1; econstructor; [by apply edit_cons|done]. Qed.
Lemma edits_app n m a b c : nsteps edit n a b → nsteps edit m b c → nsteps edit (n + m) a c.
Proof. intros. by eapply nsteps_trans. Qed.

Lemma lev_edits a b : nsteps edit (lev a b) a b.
Proof.
  revert b. induction a as [|x a IHa]; intros b.
  { rewrite lev_nil_l. induction b as [|y b IH]; [constructor|]. cbn [length].
    eapply nsteps_l; [apply (edit_insert [] [] y)|]. cbn [app]. by apply edits_cons. }
  induction b as [|y b IHb].
  { rewrite lev_nil_r. clear IHa. generalize (x :: a). clear. induction l as [|x l IH]; [constructor|]. cbn [length].
    eapply nsteps_l; [apply (edit_delete [] l x)|done]. }
  rewrite lev_cons. destruct (Nat.min_spec ((lev (x :: a) b + 1) `min` (lev a (y :: b) + 1))
    (lev a b + if (x =? y)%Z then 0 else 1)) as [[_ ->]|[_ ->]].
  - destruct (Nat.min_spec (lev (x :: a) b + 1) (lev a (y :: b) + 1)) as [[_ ->]|[_ ->]].
    + rewrite Nat.add_1_r. eapply nsteps_r; [exact IHb|]. apply (edit_insert [] b y).
    + rewrite Nat.add_comm. eapply nsteps_l; [apply (edit_delete [] a x)|]. apply IHa.
  - destruct (Z.eqb_spec x y) as [->|Hne].
    + rewrite Nat.add_0_r. apply edits_cons, IHa.
    + rewrite Nat.add_comm. eapply nsteps_l; [apply (edit_replace [] a x y)|]. cbn [app]. apply edits_cons, IHa.
Qed.

(** One more or one less rune at the front moves the distance by at most one. *)
Lemma lev_drop_l x a b : lev a b ≤ lev (x :: a) b + 1 ∧ lev (x :: a) b ≤ lev a b + 1.
Proof.
  revert x b. induction a as [|z a IHa]; intros x b.
  - rewrite lev_nil_l. induction b as [|y b IHb]; [cbn; lia|]. rewrite lev_cons, !lev_nil_l in *. cbn [length] in *.
    destruct (x =? y)%Z; lia.
  - induction b as [|y b IHb]; [rewrite !lev_nil_r; cbn [length]; lia|].
    rewrite (lev_cons x), (lev_cons z a y b). destruct (IHa z b), (IHa z (y :: b)).
    rewrite (lev_cons z a y b) in *.
    destruct (z =? y)%Z, (x =? y)%Z; lia.
Qed.
Lemma lev_sub_l x z a b : lev (x :: a) b ≤ lev (z :: a) b + 1.
Proof.
  revert x z. induction b as [|y b IHb]; intros x z; [by rewrite !lev_nil_r; cbn; lia|].
  rewrite (lev_cons x), (lev_cons z). pose proof (IHb x z). destruct (x =? y)%Z, (z =? y)%Z; lia.
Qed.
Lemma lev_cons_l c a a' b :
  (∀ b, lev a b ≤ lev a' b + 1) → lev (c :: a) b ≤ lev (c :: a') b + 1.
Proof.
  intros H. induction b as [|y b IHb]; [rewrite !lev_nil_r; specialize (H []); rewrite !lev_nil_r in H; cbn; lia|].
  rewrite !lev_cons. pose proof (H (y :: b)). pose proof (H b). lia.
Qed.
Lemma edit_lev a a' b : edit a a' → lev a b ≤ lev a' b + 1.
Proof.
  intros He. revert b. destruct He as [l r c|l r c|l r c d]; induction l as [|x l IH]; intros b; cbn [app];
    try (by apply lev_cons_l).
  - apply lev_drop_l.
  - apply lev_drop_l.
  - apply lev_sub_l.
Qed.
Lemma lev_refl a : lev a a = 0.
Proof. induction a as [|x a IH]; [done|]. rewrite lev_cons, Z.eqb_refl, IH. lia. Qed.
Lemma lev_least n a b : nsteps edit n a b → lev a b ≤ n.
Proof.
  induction 1 as [a|n a a' b He _ IH]; [by rewrite lev_refl|]. pose proof (edit_lev a a' b He). lia.
Qed.

(** ** The rows compute it *)

(** The row of the prefix with reverse [p], after the columns of [b1] (reversed). *)
Fixpoint rowOf (p b1 b2 : list Z) : list nat :=
  match b2 with
  | [] => []
  | c :: b2 => lev p (c :: b1) :: rowOf p (c :: b1) b2
  end.
Definition fullRow (p b : list Z) : list nat := lev p [] :: rowOf p [] b.

Lemma rowLoop_rowOf ca p b1 b2 :
  rowLoop ca (lev (ca :: p) b1) (lev p b1) (rowOf p b1 b2) b2 = rowOf (ca :: p) b1 b2.
Proof.
  revert b1. induction b2 as [|cb b2 IH]; intros b1; [done|]. cbn [rowOf rowLoop].
  change ((lev (ca :: p) b1 + 1) `min` (lev p (cb :: b1) + 1) `min`
    (lev p b1 + (if (ca =? cb)%Z then 0 else 1))) with (lev (ca :: p) (cb :: b1)).
  f_equal. apply IH.
Qed.
Lemma levLoop_fullRow ar br p : levLoop (length p) ar br (fullRow p br) = fullRow (reverse ar ++ p) br.
Proof.
  revert p. induction ar as [|ca ar IH]; intros p; [done|]. cbn [levLoop].
  rewrite reverse_cons, <-app_assoc. cbn [app]. change (S (length p)) with (length (ca :: p)). rewrite <-IH. f_equal.
  unfold levRow, fullRow. cbn [nth tail]. rewrite lev_nil_r. cbn [length]. rewrite Nat.add_1_r. f_equal.
  rewrite <-(rowLoop_rowOf ca p [] br), !lev_nil_r. done.
Qed.
Lemma seq_fullRow b : seq 0 (length b + 1) = fullRow [] b.
Proof.
  unfold fullRow. rewrite Nat.add_1_r. cbn [seq]. f_equal.
  assert (∀ b1, seq (S (length b1)) (length b) = rowOf [] b1 b) as H; [|apply (H [])].
  induction b as [|c b IH]; intros b1; [done|]. cbn [length seq rowOf]. rewrite lev_nil_l. f_equal. apply (IH (c :: b1)).
Qed.
Lemma fullRow_last p b : nth (length b) (fullRow p b) 0 = lev p (reverse b).
Proof.
  assert (∀ b b1, nth (length b) (lev p b1 :: rowOf p b1 b) 0 = lev p (reverse b ++ b1)) as H.
  { clear b. induction b as [|c b IH]; intros b1; [done|]. cbn [length nth rowOf].
    rewrite reverse_cons, <-app_assoc. apply IH. }
  unfold fullRow. rewrite H. by rewrite app_nil_r.
Qed.
Lemma levenshtein_lev a b : levenshtein a b = lev (reverse (runes a)) (reverse (runes b)).
Proof.
  unfold levenshtein. rewrite seq_fullRow. pose proof (levLoop_fullRow (runes a) (runes b) []) as H.
  cbn [length] in H. rewrite H, app_nil_r. apply fullRow_last.
Qed.

Lemma edit_reverse a b : edit a b → edit (reverse a) (reverse b).
Proof.
  intros []; rewrite ?reverse_app, ?reverse_cons, <-?app_assoc; cbn [app].
  - apply (edit_insert (reverse r) (reverse l) c).
  - apply (edit_delete (reverse r) (reverse l) c).
  - apply (edit_replace (reverse r) (reverse l) c d).
Qed.
Lemma edits_reverse n a b : nsteps edit n a b → nsteps edit n (reverse a) (reverse b).
Proof. induction 1; econstructor; [by apply edit_reverse|done]. Qed.

Lemma levenshtein_exact a b :
  nsteps edit (levenshtein a b) (runes a) (runes b) ∧
  ∀ n, nsteps edit n (runes a) (runes b) → levenshtein a b ≤ n.
Proof.
  rewrite levenshtein_lev. split.
  - rewrite <-(reverse_involutive (runes a)), <-(reverse_involutive (runes b)) at 2.
    apply edits_reverse, lev_edits.
  - intros n H. by apply lev_least, edits_reverse.
Qed.

(** ** The closest subcommand *)

Lemma foldl_closest (d : list Z → nat) cs best :
  let r := foldl (λ best c, if d c <? snd best then (c, d c) else best) best cs in
  (r = best ∨ (r.1 ∈ cs ∧ r.2 = d r.1 ∧ r.2 < best.2)) ∧ r.2 ≤ best.2 ∧ ∀ c, c ∈ cs → r.2 ≤ d c.
Proof.
  revert best. induction cs as [|c cs IH]; intros best; cbn [foldl].
  { split_and!; [by left|done|]. intros c Hc. by apply elem_of_nil in Hc. }
  destruct (IH (if d c <? best.2 then (c, d c) else best)) as (H1 & H2 & H3).
  set (r := foldl _ _ cs) in *. clearbody r. destruct (Nat.ltb_spec (d c) best.2); cbn [fst snd] in *.
  - split_and!; [right|lia|].
    + destruct H1 as [->|(Hin & Hd & Hlt)]; cbn [fst snd].
      * split_and!; [apply elem_of_cons; by left|done|lia].
      * split_and!; [apply elem_of_cons; by right|done|lia].
    + intros c' [->|Hc']%elem_of_cons; [lia|by apply H3].
  - split_and!; [|done|].
    + destruct H1 as [->|(Hin & Hd & Hlt)]; [by left|right]. split_and!; [apply elem_of_cons; by right|done|done].
    + intros c' [->|Hc']%elem_of_cons; [lia|by apply H3].
Qed.

(** A mistyped subcommand is answered with the nearest one.  The two-row
    computation is the edit distance: the least number of insertions, deletions
    and substitutions of runes between the two words.  If some known subcommand
    is within two edits of what was typed (leading dashes apart), the suggestion
    is one at the least distance, otherwise there is none. *)
Theorem suggestion_nearest typed :
  let t := trimDashes typed in
  let s := suggestSubcommand typed in
  (∀ c, nsteps edit (levenshtein t c) (runes t) (runes c) ∧
        ∀ n, nsteps edit n (runes t) (runes c) → levenshtein t c ≤ n) ∧
  ((s ∈ knownSubcommands ∧ levenshtein t s ≤ 2 ∧ ∀ c, c ∈ knownSubcommands → levenshtein t s ≤ levenshtein t c) ∨
   (s = [] ∧ ∀ c, c ∈ knownSubcommands → 2 < levenshtein t c)).
Proof.
  intros t s. split; [intros c; apply levenshtein_exact|].
  subst s. unfold suggestSubcommand. fold t.
  destruct (foldl_closest (levenshtein t) knownSubcommands ([], 3)) as (H1 & H2 & H3).
  destruct (foldl _ ([], 3) knownSubcommands) as [s n]. cbn [fst snd] in *.
  destruct H1 as [[= -> ->]|(Hin & -> & Hlt)].
  - right. split; [done|]. intros c Hc. specialize (H3 c Hc). lia.
  - left. split_and!; [done|lia|done].
Qed.
