(* ===== verification/LogFile.v ===== *)
(** * cmd/otedama/logfile.go: the size-capped log file

    The writer behind --log-file over the two files it keeps, the active one and
    a single backup.  What the operating system answers to each call is an
    argument of a write. *)
From S2P Require Import Prelude.
From S2P Require Import Text.

Open Scope Z_scope.

Definition maxLogFileBytes : Z := Z.shiftl 32 20.

(** The files at [path] and at [path + ".old"]. *)
Record logFiles := { active : option (list Z); backup : option (list Z) }.
Record cappedLogFile := { isOpen : bool; c_size : Z }.
Definition logState : Type := logFiles * cappedLogFile.

(** The answers to the calls of one [Write]: whether opening, Stat, Remove and
    Rename succeed, and after how many bytes a write of the marker or of the
    caller's bytes fails, if it does. *)
Record answers := {
  open_ok : bool; stat_ok : bool; remove_ok : bool; rename_ok : bool;
  marker_fails : option nat; write_fails : option nat }.

Definition sizeOf (f : logFiles) : Z := Z.of_nat (length (default [] (active f))).

Definition openLocked (a : answers) (s : logState) : logState * bool :=
  let '(f, c) := s in
  if open_ok a then
    let f := {| active := Some (default [] (active f)); backup := backup f |} in
    ((f, {| isOpen := true; c_size := if stat_ok a then sizeOf f else c_size c |}), true)
  else (s, false).

Definition openCappedLogFile (a : answers) (f : logFiles) : option logState :=
  let '(s, ok) := openLocked a (f, {| isOpen := false; c_size := 0 |}) in if ok then Some s else None.

(** A write through the file handle: the bytes written, and whether all were. *)
Definition handleWrite (fails : option nat) (p : list Z) (s : logState) : logState * (Z * bool) :=
  let '(f, c) := s in
  if isOpen c then
    let n := match fails with None => length p | Some n => Nat.min n (length p) end in
    (({| active := Some (default [] (active f) ++ take n p); backup := backup f |}, c),
     (Z.of_nat n, bool_decide (fails = None)))
  else (s, (0, false)).

Definition rotationMarker (oldSize : Z) : list Z := %"[info] log rotated at " ++ FormatUint oldSize ++ %" bytes" ++ [10].

Definition rotateLocked (a : answers) (s : logState) : logState * bool :=
  let '(f, c) := s in
  let oldSize := c_size c in
  let c := {| isOpen := false; c_size := c_size c |} in
  let f := if remove_ok a then {| active := active f; backup := None |} else f in
  match active f, rename_ok a with
  | Some _, false => openLocked a (f, c)
  | cur, _ =>
      let f := match cur with Some x => {| active := None; backup := Some x |} | None => f end in
      let c := {| isOpen := false; c_size := 0 |} in
      let '(s, ok) := openLocked a (f, c) in
      if ok then
        let '(s, (_, ok)) := handleWrite (marker_fails a) (rotationMarker oldSize) s in
        let '(f, c) := s in
        ((f, {| isOpen := isOpen c; c_size := if ok && stat_ok a then sizeOf f else c_size c |}), ok)
      else (s, false)
  end.

Definition needsRotation (c : cappedLogFile) (p : list Z) : bool :=
  (0 <? c_size c) && (maxLogFileBytes <? c_size c + Z.of_nat (length p)).
Definition log_Write (a : answers) (p : list Z) (s : logState) : logState * (Z * bool) :=
  let '(s, ok) := if needsRotation (snd s) p then rotateLocked a s else (s, true) in
  if ok then
    let '((f, c), (n, ok)) := handleWrite (write_fails a) p s in
    ((f, {| isOpen := isOpen c; c_size := c_size c + n |}), (n, ok))
  else (s, (0, false)).

(** * What a write does *)

(** The writer knows the size of its open file. *)
Definition inSync (s : logState) : Prop :=
  isOpen s.2 = true → is_Some (active s.1) ∧ c_size s.2 = sizeOf s.1.
Definition calm (a : answers) : Prop := stat_ok a = true ∧ marker_fails a = None.

Definition activeBytes (s : logState) : list Z := default [] (active s.1).
Definition backupBytes (s : logState) : list Z := default [] (backup s.1).
Definition markerMax : nat := 49.

Lemma formatDigits_length fuel v : (length (formatDigits fuel v) ≤ fuel)%nat.
Proof.
  revert v. induction fuel as [|fuel IH]; intros v; [done|]. cbn [formatDigits]. case_if; [cbn; lia|].
  rewrite length_app. specialize (IH (v / 10)). cbn [length]. lia.
Qed.
Lemma marker_length n : (length (rotationMarker n) ≤ markerMax)%nat.
Proof.
  unfold rotationMarker, markerMax, FormatUint. rewrite !length_app. pose proof (formatDigits_length 20 n).
  change (length (%"[info] log rotated at ")) with 22%nat. change (length (%" bytes")) with 6%nat. cbn [length]. lia.
Qed.

(** The cases of a rotation in which Stat and the marker succeed. *)
Lemma rotate_cases a s :
  calm a →
  let r := rotateLocked a s in
  inSync r.1 ∧
  ((r.2 = true ∧ isOpen r.1.2 = true ∧ rename_ok a = true ∧ active s.1 ≠ None ∧
      activeBytes r.1 = rotationMarker (c_size s.2) ∧ backup r.1.1 = Some (activeBytes s)) ∨
   (r.2 = true ∧ isOpen r.1.2 = true ∧ active s.1 = None ∧ activeBytes r.1 = rotationMarker (c_size s.2) ∧
      backup r.1.1 = (if remove_ok a then None else backup s.1)) ∨
   (r.2 = true ∧ isOpen r.1.2 = true ∧ rename_ok a = false ∧ activeBytes r.1 = activeBytes s ∧
      backup r.1.1 = (if remove_ok a then None else backup s.1)) ∨
   (r.2 = false ∧ isOpen r.1.2 = false ∧
      (activeBytes r.1 = activeBytes s ∧ backup r.1.1 = (if remove_ok a then None else backup s.1) ∨
       activeBytes r.1 = [] ∧ backup r.1.1 = Some (activeBytes s)))).
Proof.
  intros [Hs Hm]. destruct s as [[act bak] [o sz]]. unfold rotateLocked, openLocked, inSync, activeBytes, sizeOf.
  rewrite Hs. cbn [active backup fst snd isOpen c_size].
  destruct (remove_ok a); cbn [active backup]; (destruct act as [x|]; [destruct (rename_ok a) eqn:Er|]);
    cbn [active backup]; destruct (open_ok a) eqn:Eo; cbn [active backup default isOpen c_size fst snd].
  all: unfold handleWrite; rewrite ?Hm; cbn [active backup default isOpen c_size fst snd andb app id].
  all: rewrite ?bool_decide_eq_true_2, ?firstn_all by done; cbn [active backup default isOpen c_size fst snd andb app id].
  all: split; [intros H; first [done|split; [by eexists|done]]|].
  all: try (left; by split_and!).
  all: try (right; left; by split_and!).
  all: try (right; right; left; by split_and!).
  all: right; right; right; (split_and!; [done|done|]); try (by left); by right.
Qed.

Lemma handleWrite_spec fails p s :
  inSync s → let '((f, c), (n, ok)) := handleWrite fails p s in
  (isOpen c = isOpen s.2) ∧ backup f = backup s.1 ∧ c_size c = c_size s.2 ∧
  (isOpen s.2 = false → ok = false ∧ n = 0 ∧ f = s.1) ∧
  (isOpen s.2 = true → ∃ k, (k ≤ length p)%nat ∧ n = Z.of_nat k ∧ is_Some (active f) ∧
     activeBytes (f, c) = activeBytes s ++ take k p ∧ (ok = true → k = length p)).
Proof.
  intros Hs. destruct s as [f [o sz]]. unfold handleWrite, activeBytes. cbn [isOpen]. destruct o; cbn [fst snd isOpen c_size].
  - split_and!; try done. intros _. exists (match fails with None => length p | Some n => Nat.min n (length p) end).
    split_and!; [destruct fails; lia|done|by eexists|done|]. destruct fails; [|done].
    intros H. by apply bool_decide_eq_true in H.
  - split_and!; done.
Qed.

Lemma write_inSync a p s : calm a → inSync s → inSync (log_Write a p s).1.
Proof.
  intros Ha Hs. unfold log_Write. pose proof (rotate_cases a s Ha) as [Hr _].
  assert (∀ s1, inSync s1 → inSync (let '((f, c), (n, ok)) := handleWrite (write_fails a) p s1 in
    ((f, {| isOpen := isOpen c; c_size := c_size c + n |}), (n, ok))).1) as HW.
  { intros s1 H1. pose proof (handleWrite_spec (write_fails a) p s1 H1) as H.
    destruct (handleWrite _ p s1) as [[f c] [n ok]]. destruct H as (E1 & E2 & E3 & E4 & E5).
    unfold inSync. cbn [fst snd isOpen c_size]. rewrite E1, E3. intros Ho.
    destruct (E5 Ho) as (k & Hk & -> & Hsome & Hb & _). destruct (H1 Ho) as [_ H2]. split; [done|].
    unfold sizeOf, activeBytes in *. cbn [fst] in Hb. rewrite H2, Hb, length_app, length_take. lia. }
  destruct (needsRotation s.2 p); [|by apply HW].
  destruct (rotateLocked a s) as [s1 ok]. cbn [fst] in Hr. destruct ok; [by apply HW|done].
Qed.

(** A successful write is in the log.  With an open file of which the writer
    knows the size, a write that reports success has appended its bytes: to the
    file as it was, or — past 32 MiB — to a fresh file that holds the rotation
    marker, the previous file being the backup; a rotation the file system
    refuses is skipped.  Whatever fails, what the active file held before is
    still there, in place or as the backup. *)
Theorem log_write_exact a p s :
  calm a → inSync s → isOpen s.2 = true →
  let '(s', (n, ok)) := log_Write a p s in
  inSync s' ∧
  (ok = true → n = Z.of_nat (length p) ∧
     if needsRotation s.2 p && rename_ok a
     then activeBytes s' = rotationMarker (c_size s.2) ++ p ∧ backup s'.1 = Some (activeBytes s)
     else activeBytes s' = activeBytes s ++ p) ∧
  (activeBytes s `prefix_of` activeBytes s' ∨ backup s'.1 = Some (activeBytes s)).
Proof.
  intros Ha Hs Ho. pose proof (write_inSync a p s Ha Hs) as HI. destruct (Hs Ho) as [[x Hx] _]. revert HI.
  unfold log_Write. pose proof (rotate_cases a s Ha) as [HR Hcases]. destruct (needsRotation s.2 p) eqn:EN; cbn [andb].
  - destruct (rotateLocked a s) as [s1 ok1]. cbn [fst snd] in *.
    destruct Hcases as [(-> & Ho1 & -> & _ & Hact & Hbak)|[(_ & _ & E & _)|[(-> & Ho1 & -> & Hact & _)|(-> & _ & Hc)]]];
      [|by rewrite Hx in E| |].
    + pose proof (handleWrite_spec (write_fails a) p s1 HR) as H.
      destruct (handleWrite _ p s1) as [[f c] [n ok]]. destruct H as (_ & E2 & _ & _ & E5).
      destruct (E5 Ho1) as (k & Hk & -> & _ & Hb & Hok). intros HI. split; [exact HI|]. cbn [fst snd] in *.
      split; [|right; by rewrite E2]. intros ->. specialize (Hok eq_refl). subst k. split; [done|].
      unfold activeBytes in *. cbn [fst] in *. by rewrite Hb, Hact, firstn_all, E2.
    + pose proof (handleWrite_spec (write_fails a) p s1 HR) as H.
      destruct (handleWrite _ p s1) as [[f c] [n ok]]. destruct H as (_ & E2 & _ & _ & E5).
      destruct (E5 Ho1) as (k & Hk & -> & _ & Hb & Hok). intros HI. split; [exact HI|]. cbn [fst snd] in *.
      unfold activeBytes in *. cbn [fst] in *. rewrite Hact in Hb. split; [|left; rewrite Hb; by eexists].
      intros ->. specialize (Hok eq_refl). subst k. by rewrite Hb, firstn_all.
    + intros HI. split; [exact HI|]. split; [done|]. cbn [fst snd].
      destruct Hc as [[-> _]|[_ ->]]; [by left|by right].
  - pose proof (handleWrite_spec (write_fails a) p s Hs) as H.
    destruct (handleWrite _ p s) as [[f c] [n ok]]. destruct H as (_ & E2 & _ & _ & E5).
    destruct (E5 Ho) as (k & Hk & -> & _ & Hb & Hok). intros HI. split; [exact HI|]. cbn [fst snd] in *.
    unfold activeBytes in *. cbn [fst] in *. split; [|left; rewrite Hb; by eexists].
    intros ->. specialize (Hok eq_refl). subst k. by rewrite Hb, firstn_all.
Qed.

(** ** Disk use *)

Definition logLimit (L : Z) : Z := Z.max maxLogFileBytes (Z.of_nat markerMax + L).
Definition withinLimit (L : Z) (s : logState) : Prop :=
  inSync s ∧ Z.of_nat (length (activeBytes s)) ≤ logLimit L ∧ Z.of_nat (length (backupBytes s)) ≤ logLimit L.

Lemma write_within L a p s :
  calm a → rename_ok a = true → Z.of_nat (length p) ≤ L → withinLimit L s → withinLimit L (log_Write a p s).1.
Proof.
  intros Ha Hre Hp (Hs & HA & HB). split; [by apply write_inSync|].
  assert (0 ≤ logLimit L ∧ Z.of_nat markerMax + L ≤ logLimit L ∧ maxLogFileBytes ≤ logLimit L) as (G0 & G1 & G2)
    by (unfold logLimit, maxLogFileBytes; change (Z.shiftl 32 20) with 33554432; lia).
  assert (∀ s1, inSync s1 → (isOpen s1.2 = true → Z.of_nat (length (activeBytes s1)) + Z.of_nat (length p) ≤ logLimit L) →
    Z.of_nat (length (activeBytes s1)) ≤ logLimit L → Z.of_nat (length (backupBytes s1)) ≤ logLimit L →
    let s2 := (let '((f, c), (n, ok)) := handleWrite (write_fails a) p s1 in
      ((f, {| isOpen := isOpen c; c_size := c_size c + n |}), (n, ok))).1 in
    Z.of_nat (length (activeBytes s2)) ≤ logLimit L ∧ Z.of_nat (length (backupBytes s2)) ≤ logLimit L) as HW.
  { intros s1 H1 Hroom HA1 HB1. pose proof (handleWrite_spec (write_fails a) p s1 H1) as H.
    destruct (handleWrite _ p s1) as [[f c] [n ok]]. destruct H as (_ & E2 & _ & E4 & E5).
    unfold activeBytes, backupBytes in *. cbn [fst snd] in *. rewrite E2. split; [|done].
    destruct (isOpen s1.2) eqn:Eo; [|by destruct (E4 eq_refl) as (_ & _ & ->)].
    destruct (E5 eq_refl) as (k & Hk & _ & _ & -> & _). rewrite length_app, length_take. specialize (Hroom eq_refl). lia. }
  unfold log_Write. destruct (needsRotation s.2 p) eqn:EN.
  - pose proof (rotate_cases a s Ha) as [HR Hc]. pose proof (marker_length (c_size s.2)) as Hm.
    assert (length (default [] (if remove_ok a then None else backup s.1)) ≤ length (backupBytes s))%nat as Hbk
      by (unfold backupBytes; destruct (remove_ok a); cbn; lia).
    destruct (rotateLocked a s) as [s1 ok1]. cbn [fst snd] in *.
    destruct Hc as [(-> & _ & _ & _ & E1 & E2)|[(-> & _ & _ & E1 & E2)|[(_ & _ & E & _)|(-> & _ & [[E1 E2]|[E1 E2]])]]];
      [| |by rewrite Hre in E| |].
    + apply HW; [done|rewrite E1; lia|rewrite E1; lia|unfold backupBytes; rewrite E2; cbn; lia].
    + apply HW; [done|rewrite E1; lia|rewrite E1; lia|unfold backupBytes in *; rewrite E2; lia].
    + cbn [fst]. unfold backupBytes in *. rewrite E1, E2. lia.
    + cbn [fst]. unfold backupBytes in *. rewrite E1, E2. cbn [default length id]. lia.
  - apply HW; [done| |done|done]. intros Ho. destruct (Hs Ho) as [_ E]. unfold needsRotation in EN.
    assert (c_size s.2 = Z.of_nat (length (activeBytes s))) as E' by exact E. lia.
Qed.


Definition allWell : answers :=
  {| open_ok := true; stat_ok := true; remove_ok := true; rename_ok := true; marker_fails := None; write_fails := None |}.
Definition freshLog : logState := ({| active := Some []; backup := None |}, {| isOpen := true; c_size := 0 |}).

Lemma log_write_exact_witness :
  let '(s', (n, ok)) := log_Write allWell (%"hello") freshLog in
  ok = true ∧ n = 5 ∧ activeBytes s' = %"hello".
Proof.
  pose proof (log_write_exact allWell (%"hello") freshLog ltac:(by split) ltac:(intros _; split; [by eexists|done]) eq_refl) as H.
  destruct (log_Write allWell (%"hello") freshLog) as [s' [n ok]] eqn:E.
  assert (ok = true) as -> by (vm_compute in E; congruence). destruct H as (_ & H & _). destruct (H eq_refl) as [Hn Hb].
  split_and!; [reflexivity|rewrite Hn; reflexivity|exact Hb].
Defined.

(** A reopening that fails once leaves the writer dead: the size is reset but the
    handle stays closed, so every later write fails although the disk is fine. *)
Lemma failed_reopen_is_final a p s :
  active s.1 ≠ None → needsRotation s.2 p = true → rename_ok a = true → open_ok a = false →
  let s' := (log_Write a p s).1 in
  ∀ b q, log_Write b q s' = (s', (0, false)).
Proof.
  intros Hx HN Hr Ho. destruct s as [[[x|] bak] [o sz]]; [|done]. unfold log_Write. cbn [fst snd] in *. rewrite HN.
  assert (rotateLocked a ({| active := Some x; backup := bak |}, {| isOpen := o; c_size := sz |}) =
    (({| active := None; backup := Some x |}, {| isOpen := false; c_size := 0 |}), false)) as ->.
  { unfold rotateLocked, openLocked. rewrite Hr, Ho. by destruct (remove_ok a). }
  intros b q. done.
Qed.
