(* ===== verification/WalletCmd.v ===== *)
(** * Showing, checking and using the recovery phrase

    The wallet part of internal/engine/setup.go — printing the phrase of a new
    wallet and quizzing the user on it — and the commands of
    cmd/otedama/wallet.go, over the wallet directory of [Wallet]. *)
From S2P Require Import Prelude.
From S2P Require Import Utf8.
From S2P Require Import Json.
From S2P Require Import Text.
From S2P Require Import Wire.
From S2P Require Import Bech32.
From S2P Require Import Quoting.
From S2P Require Import Seed.
From S2P Require Import Wallet.
From S2P Require Import WordList.

Open Scope Z_scope.

(** ** strings and bufio *)

(** [bufio.Reader.ReadString]: up to and with the newline; at the end of the input
    what is left, with an error. *)
Fixpoint ReadString (s : list Z) : list Z * bool * list Z :=
  match s with
  | [] => ([], false, [])
  | c :: s' =>
      if c =? 10 then ([c], true, s')
      else let '(line, ok, rest) := ReadString s' in (c :: line, ok, rest)
  end.

(** [strings.Fields]: the maximal runs of runes that are not white space. *)
Fixpoint fieldsOf (cs : list (Z * list Z)) (cur : list Z) : list (list Z) :=
  match cs with
  | [] => match cur with [] => [] | _ => [cur] end
  | (r, b) :: cs =>
      if IsSpace r then match cur with [] => fieldsOf cs [] | _ => cur :: fieldsOf cs [] end
      else fieldsOf cs (cur ++ b)
  end.
Definition strings_Fields (s : list Z) : list (list Z) := fieldsOf (chunks s) [].

(** [strings.EqualFold]: simple folding; [unicodeFold] is the table for runes that
    do not fold to ASCII (the Kelvin sign and the long s do). *)
Section EqualFold.
Context (unicodeFold : Z → Z).
Definition foldRune (r : Z) : Z :=
  if (65 <=? r) && (r <=? 90) then r + 32
  else if r <? 128 then r
  else if r =? 0x212A then 107 else if r =? 0x17F then 115 else unicodeFold r.
Definition EqualFold (s t : list Z) : bool := bool_decide (map foldRune (runes s) = map foldRune (runes t)).

(** ** setup.go: the recovery phrase *)

Definition printRecoveryPhrase (w : option (list Z)) (mnemonic : Mnemonic) (fingerprint : list Z) : option (list Z) :=
  match w, mnemonic with
  | None, _ | _, [] => w
  | Some out, _ => Some (out ++ %"
========================================================================
  WALLET RECOVERY PHRASE — SHOWN ONCE, NEVER AGAIN
========================================================================

  " ++ Mnemonic_String mnemonic ++ %"

  Fingerprint: " ++ fingerprint ++ %"

  Write these " ++ FormatUint (Z.of_nat (length mnemonic)) ++ %" words on paper, in order, and store them somewhere
  safe and offline. They are the ONLY way to recover your funds if
  wallet.dat is lost or the disk fails.

  This phrase is not saved to disk and is not written to any log.
  Otedama cannot show it to you again.

  After writing it down, verify your backup with:
      otedama wallet verify
========================================================================

")
  end.

Definition backupCheckCount : Z := 3.

(** The answers of [rand.Int], [None] for an error; [None] as a result stands for a
    run that needs more of them. *)
Fixpoint pickLoop (n : Z) (k : nat) (out : list Z) (draws : list (option Z)) : option (list Z) :=
  if (length out <? k)%nat then
    match draws with
    | [] => None
    | None :: _ => Some (map (λ i, Z.of_nat i * n / Z.of_nat k) (seq 0 k))
    | Some i :: draws => if bool_decide (i ∈ out) then pickLoop n k out draws else pickLoop n k (out ++ [i]) draws
    end
  else Some (SortStableFunc Z.compare out).
Definition pickWordPositions (n k : Z) (draws : list (option Z)) : option (list Z) :=
  if (n <=? 0) || (k <=? 0) then Some []
  else pickLoop n (Z.to_nat (if n <=? k then n else k)) [] draws.

(** The loop over the positions: whether all answers so far were right, what was
    written, and the input left. *)
Fixpoint askWords (mnemonic : Mnemonic) (positions : list Z) (input : list Z) : bool * list Z * list Z :=
  match positions with
  | [] => (true, [], input)
  | pos :: positions =>
      if (pos <? 0) || (Z.of_nat (length mnemonic) <=? pos) then
        let '(_, out, rest) := askWords mnemonic positions input in (false, out, rest)
      else
        let prompt := %"  Word #" ++ FormatUint (pos + 1) ++ %": " in
        let '(line, ok, input) := ReadString input in
        let right := negb (negb ok && bool_decide (line = [])) &&
                     EqualFold (TrimSpace line) (nth (Z.to_nat pos) mnemonic []) in
        let '(v, out, rest) := askWords mnemonic positions input in
        (right && v, prompt ++ out, rest)
  end.

Definition quizHeader (asked words : nat) : list Z :=
  map (λ c, if c =? 39 then 34 else c) (%"
------------------------------------------------------------------------
  BACKUP VERIFICATION — re-enter " ++ FormatUint (Z.of_nat asked) ++ %" of the " ++ FormatUint (Z.of_nat words) ++ %" words to confirm you
  wrote them down. An empty answer counts as 'not backed up'.
------------------------------------------------------------------------
").
Definition quizFooter (verified : bool) : list Z :=
  if verified then %"  Backup verified." ++ [10]
  else %"
  Backup NOT verified. The phrase above is the ONLY recovery path —
  it is not stored on disk and cannot be shown again. If your written
  copy is wrong or missing, your funds are unrecoverable when
  wallet.dat is lost.
------------------------------------------------------------------------

".
Definition verifyBackupPositions (input : list Z) (out : option (list Z)) (mnemonic : Mnemonic) (positions : list Z)
    : bool * option (list Z) :=
  match out, mnemonic, positions with
  | Some o, _ :: _, _ :: _ =>
      let '(verified, asked, _) := askWords mnemonic positions input in
      (verified, Some (o ++ quizHeader (length positions) (length mnemonic) ++ asked ++ quizFooter verified))
  | _, _, _ => (false, out)
  end.
Definition verifyBackupPhrase (draws : list (option Z)) (input : list Z) (out : option (list Z)) (mnemonic : Mnemonic)
    : option (bool * option (list Z)) :=
  positions ← pickWordPositions (Z.of_nat (length mnemonic)) backupCheckCount draws;
  Some (verifyBackupPositions input out mnemonic positions).
End EqualFold.

(** ** cmd/otedama/wallet.go *)

Definition exitOK : Z := 0.
Definition exitRuntime : Z := 1.
Definition exitUsage : Z := 64.

(** The commands call [NewEnglishWordList]; [english] is what it returned. *)
Section Commands.
Context `{SeedCrypto} (english : result WordList).
Notation fs := (gmap string file).

(** The stored fingerprint, and the directory states gone through to get it. *)
Definition walletFingerprint `{Reader R} (v : env) (dataDir passphrase : list Z) (wl : WordList) (d : fs) (r : R)
    : list fs * result (list Z) :=
  match d !! fingerprintFile, read_ok v with
  | Some f, true => ([], Ok (content f))
  | _, _ =>
      if negb (stat_ok v) || bool_decide (d !! walletFile = None)
      then ([], Err (Sentinel "no wallet found under %s"))
      else if bool_decide (passphrase = [])
      then ([], Err (Sentinel "wallet.fingerprint is missing under %s; set OTEDAMA_WALLET_PASSPHRASE to verify against wallet.dat directly"))
      else match NewWalletManager v dataDir passphrase (Some wl) [] d r with
           | (hist, Err e, _) => (hist, Err e)
           | (hist, Ok wm, _) => (hist, Ok (Fingerprint (wm_seed wm)))
           end
  end.

(** [otedama wallet verify], once the data directory is known. *)
Definition cmdWalletVerify `{Reader R} (v : env) (dataDir passphrase mnemonicPassphrase stdin : list Z) (d : fs) (r : R)
    : list fs * Z :=
  match english with
  | Err _ => ([], exitRuntime)
  | Ok wl =>
      match walletFingerprint v dataDir passphrase wl d r with
      | (hist, Err _) => (hist, exitRuntime)
      | (hist, Ok wantFP) =>
          let '(line, ok, _) := ReadString stdin in
          if negb ok then (hist, exitRuntime)
          else
            let m := strings_Fields line in
            match MnemonicToEntropy m (Some wl) with
            | Err _ => (hist, exitRuntime)
            | Ok _ =>
                let gotFP := Fingerprint (MnemonicToSeed pbkdf2_Key m mnemonicPassphrase) in
                (hist, if bool_decide (gotFP = wantFP) then exitOK else exitRuntime)
            end
      end
  end.

(** [otedama wallet change-passphrase], once the data directory is known; opening
    and re-encrypting are separate calls to the operating system. *)
Definition cmdWalletChangePassphrase `{Reader R} (v v' : env) (dataDir old new : list Z) (d : fs) (r r' : R)
    : list fs * Z :=
  if negb (stat_ok v) || bool_decide (d !! walletFile = None) then ([], exitRuntime)
  else if bool_decide (old = []) then ([], exitUsage)
  else if bool_decide (new = []) then ([], exitUsage)
  else match english with
  | Err _ => ([], exitRuntime)
  | Ok wl =>
      match NewWalletManager v dataDir old (Some wl) [] d r with
      | (hist, Err _, _) => (hist, exitRuntime)
      | (hist, Ok _, _) =>
          let '(hist', res, _) := ChangePassphrase v' old new (final d hist) r' in
          (hist ++ hist', match res with Ok _ => exitOK | Err _ => exitRuntime end)
      end
  end.

(** [setupWallet]: the fingerprint, and what is printed on a first run; [stdin] is
    the input if it is a terminal. *)
Definition setupWallet `{Reader R} (unicodeFold : Z → Z) (v : env) (dataDir passphrase mnemonicPassphrase : list Z)
    (out : option (list Z)) (stdin : option (list Z)) (draws : list (option Z)) (d : fs) (r : R)
    : list fs * option (list Z * option (list Z)) :=
  if bool_decide (passphrase = []) || bool_decide (dataDir = []) then ([], Some ([], out))
  else match english with
  | Err _ => ([], Some ([], out))
  | Ok wl =>
      match NewWalletManager v dataDir passphrase (Some wl) mnemonicPassphrase d r with
      | (hist, Err _, _) => (hist, Some ([], out))
      | (hist, Ok wm, _) =>
          let fingerprint := Fingerprint (wm_seed wm) in
          match wm_mnemonic wm with
          | None => (hist, Some (fingerprint, out))
          | Some m =>
              let out := printRecoveryPhrase out m fingerprint in
              match stdin with
              | None => (hist, Some (fingerprint, out))
              | Some input =>
                  (hist, '(_, out) ← verifyBackupPhrase unicodeFold draws input out m; Some (fingerprint, out))
              end
          end
      end
  end.
End Commands.

(** * The quiz *)

(** ** Positions *)

(** Strictly ascending positions below [n]. *)
Definition ascending (n : Z) (l : list Z) : Prop := StronglySorted Z.lt l ∧ Forall (λ i, 0 ≤ i < n) l.

Lemma sort_ascending n l : NoDup l → Forall (λ i, 0 ≤ i < n) l → ascending n (SortStableFunc Z.compare l).
Proof.
  intros Hnd Hr. split.
  - assert (NoDup (SortStableFunc Z.compare l)) as Hnd' by (by rewrite SortStableFunc_Permutation).
    assert (StronglySorted (cmp_le Z.compare) (SortStableFunc Z.compare l)) as Hs.
    { apply (SortStableFunc_sorted _ (λ _, True)); [| |by apply Forall_true]; unfold cmp_le.
      - intros x y _ _ E. apply Z.compare_gt_iff in E. rewrite Z.compare_gt_iff. lia.
      - intros x y z _ _ _. rewrite !Z.compare_gt_iff. lia. }
    revert Hs Hnd'. generalize (SortStableFunc Z.compare l). clear. intros l Hs.
    induction Hs as [|x l _ IH Hx]; intros [Hn Hd]%NoDup_cons || intros _; [constructor|].
    constructor; [by apply IH|]. rewrite Forall_forall in *. intros y Hy. specialize (Hx y Hy). unfold cmp_le in Hx.
    rewrite Z.compare_gt_iff in Hx. assert (x ≠ y) by (by intros ->). lia.
  - by rewrite SortStableFunc_Permutation.
Qed.

(** Evenly spread positions. *)
Lemma spread_ascending n k :
  0 < Z.of_nat k ≤ n → ascending n (map (λ i, Z.of_nat i * n / Z.of_nat k) (seq 0 k)).
Proof.
  intros Hk.
  assert (∀ i, Z.of_nat i * n / Z.of_nat k < (Z.of_nat i + 1) * n / Z.of_nat k) as Hstep.
  { intros i. replace ((Z.of_nat i + 1) * n) with (Z.of_nat i * n + (n - Z.of_nat k) + 1 * Z.of_nat k) by lia.
    rewrite Z.div_add by lia. pose proof (Z.div_le_mono (Z.of_nat i * n) (Z.of_nat i * n + (n - Z.of_nat k)) (Z.of_nat k)).
    lia. }
  split.
  - assert (∀ m j, StronglySorted Z.lt (map (λ i, Z.of_nat i * n / Z.of_nat k) (seq j m)) ∧
      ∀ i, (j ≤ i)%nat → Forall (λ x, Z.of_nat i * n / Z.of_nat k < x) (map (λ i, Z.of_nat i * n / Z.of_nat k) (seq (S i) m))) as H;
      [|apply H].
    intros m. induction m as [|m IH]; intros j; [split; [constructor|intros; constructor]|]. cbn [seq map]. split.
    + constructor; [apply IH|]. by apply (IH j).
    + intros i Hi. pose proof (Hstep i) as H1. constructor; [by replace (Z.of_nat (S i)) with (Z.of_nat i + 1) by lia|].
      destruct (IH (S i)) as [_ H2]. specialize (H2 (S i) ltac:(lia)). eapply Forall_impl; [exact H2|].
      intros x Hx. cbn beta in Hx. replace (Z.of_nat (S i)) with (Z.of_nat i + 1) in Hx by lia. lia.
  - apply Forall_map, Forall_forall. intros i Hi%elem_of_seq. cbn. split; [apply Z.div_pos; [nia|lia]|].
    apply Z.div_lt_upper_bound; [lia|]. apply Z.mul_lt_mono_pos_r; lia.
Qed.

Lemma pickLoop_sound n k out draws l :
  0 < Z.of_nat k ≤ n → NoDup out → Forall (λ i, 0 ≤ i < n) out → (length out ≤ k)%nat →
  Forall (λ d, ∀ i, d = Some i → 0 ≤ i < n) draws → pickLoop n k out draws = Some l →
  ascending n l ∧ length l = k.
Proof.
  intros Hk Hnd Hr Hl Hd. revert out Hnd Hr Hl. induction Hd as [|d draws Hd _ IH]; intros out Hnd Hr Hl; cbn [pickLoop];
    destruct (Nat.ltb_spec (length out) k).
  - done.
  - intros [= <-]. split; [by apply sort_ascending|]. rewrite SortStableFunc_Permutation. lia.
  - destruct d as [i|].
    + case_bool_decide; [by apply IH|]. apply IH; [|apply Forall_app; split; [done|by repeat constructor; apply Hd]|rewrite length_app; cbn; lia].
      apply NoDup_app. split; [done|]. split; [set_solver|apply NoDup_singleton].
    + intros [= <-]. split; [by apply spread_ascending|]. by rewrite length_map, length_seq.
  - intros [= <-]. split; [by apply sort_ascending|]. rewrite SortStableFunc_Permutation. lia.
Qed.

(** With enough distinct draws, or a failing source, the choice is made. *)
Lemma pickLoop_total n k out draws :
  (∃ ds rest, draws = map Some ds ++ rest ∧
     ((∃ rest', rest = None :: rest') ∨ (k ≤ size (list_to_set (C := gset Z) (out ++ ds)))%nat)) →
  NoDup out → is_Some (pickLoop n k out draws).
Proof.
  intros (ds & rest & -> & Hok). revert out Hok. induction ds as [|i ds IH]; intros out Hok Hnd; cbn [map app].
  - destruct Hok as [[rest' ->]|Hs]; cbn [pickLoop].
    + destruct (length out <? k)%nat; by eexists.
    + rewrite app_nil_r in Hs. rewrite size_list_to_set in Hs by done.
      destruct rest; cbn [pickLoop]; rewrite (proj2 (Nat.ltb_ge _ _)) by lia; by eexists.
  - cbn [pickLoop]. destruct (length out <? k)%nat; [|by eexists]. case_bool_decide as Hi.
    + apply IH; [|done]. destruct Hok as [?|Hs]; [by left|right].
      replace (list_to_set (C := gset Z) (out ++ ds)) with (list_to_set (C := gset Z) (out ++ i :: ds)); [done|]. set_solver.
    + apply IH.
      * destruct Hok as [?|Hs]; [by left|right]. by rewrite <-app_assoc.
      * apply NoDup_app. split; [done|]. split; [set_solver|apply NoDup_singleton].
Qed.

(** ** Answers *)

Fixpoint readLines (n : nat) (s : list Z) : list (list Z) :=
  match n with
  | O => []
  | S n => let '(line, _, rest) := ReadString s in line :: readLines n rest
  end.

Section Quiz.
Context (unicodeFold : Z → Z).
Definition rightAnswer (m : Mnemonic) (pos : Z) (line : list Z) : Prop :=
  EqualFold unicodeFold (TrimSpace line) (nth (Z.to_nat pos) m []) = true.

Lemma runes_nonempty w : w ≠ [] → runes w ≠ [].
Proof. destruct w as [|b w]; [done|]. intros _. unfold runes. cbn [length runes_fuel]. by destruct (decode_rune (b :: w)). Qed.
Lemma EqualFold_nil w : w ≠ [] → EqualFold unicodeFold [] w = false.
Proof.
  intros Hw. apply bool_decide_eq_false. apply runes_nonempty in Hw. destruct (runes w); [done|]. done.
Qed.

Lemma askWords_exact m ps input :
  Forall (λ w, w ≠ []) m → Forall (λ i, 0 ≤ i < Z.of_nat (length m)) ps →
  (askWords unicodeFold m ps input).1.1 = true ↔ Forall2 (rightAnswer m) ps (readLines (length ps) input).
Proof.
  intros Hm Hps. revert input. induction Hps as [|pos ps Hpos _ IH]; intros input; cbn [askWords readLines length].
  { split; [constructor|done]. }
  rewrite (proj2 (Z.ltb_ge pos 0)), (proj2 (Z.leb_gt _ _)) by lia. cbn [orb].
  destruct (ReadString input) as [[line ok] rest]. specialize (IH rest).
  destruct (askWords unicodeFold m ps rest) as [[v out] rest']. cbn [fst] in *.
  rewrite andb_true_iff, IH, Forall2_cons. apply and_iff_compat_r. unfold rightAnswer.
  destruct (EqualFold unicodeFold (TrimSpace line) (nth (Z.to_nat pos) m [])) eqn:E; [|by rewrite andb_false_r].
  rewrite andb_true_r. split; [done|]. intros _. destruct ok; [done|]. cbn [negb andb].
  rewrite bool_decide_eq_false_2; [done|]. intros ->. change (TrimSpace []) with (@nil Z) in E.
  rewrite EqualFold_nil in E; [done|]. rewrite Forall_forall in Hm. apply Hm.
  apply list_elem_of_In, nth_In. lia.
Qed.

(** The first-run quiz is fair and exact.  It asks for the smaller of three and
    the number of words, at distinct positions of the phrase in ascending order,
    whatever the random source yields, even when it fails; it needs only as many
    draws as it takes to see that many distinct ones; and it reports the backup as
    verified just when each line entered, trimmed, is the word asked for up to
    letter case. *)
Theorem quiz_exact draws input o m :
  m ≠ [] → Forall (λ w, w ≠ []) m →
  Forall (λ d, ∀ i, d = Some i → 0 ≤ i < Z.of_nat (length m)) draws →
  (∀ v out, verifyBackupPhrase unicodeFold draws input (Some o) m = Some (v, out) →
     ∃ ps, pickWordPositions (Z.of_nat (length m)) backupCheckCount draws = Some ps ∧
       ascending (Z.of_nat (length m)) ps ∧ length ps = Nat.min 3 (length m) ∧
       (v = true ↔ Forall2 (rightAnswer m) ps (readLines (length ps) input))) ∧
  (∀ ds rest, draws = map Some ds ++ rest →
     (∃ rest', rest = None :: rest') ∨ (Nat.min 3 (length m) ≤ size (list_to_set (C := gset Z) ds))%nat →
     is_Some (verifyBackupPhrase unicodeFold draws input (Some o) m)).
Proof.
  intros Hne Hm Hd. assert (0 < length m)%nat as Hlen by (destruct m; [done|cbn; lia]).
  assert (pickWordPositions (Z.of_nat (length m)) backupCheckCount draws =
    pickLoop (Z.of_nat (length m)) (Nat.min 3 (length m)) [] draws) as HP.
  { unfold pickWordPositions, backupCheckCount. rewrite (proj2 (Z.leb_gt (Z.of_nat (length m)) 0)) by lia. cbn [orb Z.leb Z.compare].
    f_equal. case_if; lia. }
  unfold verifyBackupPhrase. rewrite HP. split.
  - intros v out Hv. destruct (pickLoop _ _ [] draws) as [ps|] eqn:E; [|done]. cbn [mbind option_bind] in Hv.
    apply pickLoop_sound in E as [[Hs Hr] Hl]; [|lia|constructor|constructor|cbn; lia|done].
    exists ps. split; [done|]. split; [done|]. split; [done|]. destruct m as [|w m']; [done|].
    destruct ps as [|p ps']; [cbn [length] in *; lia|]. unfold verifyBackupPositions in Hv.
    pose proof (askWords_exact (w :: m') (p :: ps') input Hm Hr) as HA.
    destruct (askWords unicodeFold (w :: m') (p :: ps') input) as [[v' asked] rest]. injection Hv as -> _. exact HA.
  - intros ds rest -> Hok. destruct (pickLoop_total (Z.of_nat (length m)) (Nat.min 3 (length m)) [] (map Some ds ++ rest)) as [ps ->].
    + exists ds, rest. split; [done|]. by destruct Hok; [left|right].
    + constructor.
    + by eexists.
Qed.
End Quiz.

Lemma quiz_exact_witness :
  let m := [%"abandon"; %"ability"; %"zoo"] in
  let draws := [Some 2; Some 2; Some 0; Some 1] in
  let input := %"abandon" ++ [10] ++ %" Ability " ++ [10] ++ %"zoo" in
  ∃ ps, ascending 3 ps ∧ length ps = 3%nat ∧ Forall2 (rightAnswer (λ r, r) m) ps (readLines 3 input).
Proof.
  intros m draws input.
  destruct (quiz_exact (λ r, r) draws input [] m) as [H _].
  - discriminate.
  - repeat (apply Forall_cons_2; [discriminate|]). apply Forall_nil_2.
  - repeat (apply Forall_cons_2; [intros i [= <-]; vm_compute; split; congruence|]). apply Forall_nil_2.
  - destruct (verifyBackupPhrase (λ r, r) draws input (Some []) m) as [[v out]|] eqn:E.
    + destruct (H v out eq_refl) as (ps & _ & H2 & H3 & H4). exists ps. split; [exact H2|]. split; [exact H3|].
      assert (v = true) as Hv by (apply (f_equal (fmap fst)) in E; vm_compute in E; congruence).
      apply H4 in Hv. rewrite H3 in Hv. exact Hv.
    + exfalso. apply (f_equal (λ x, bool_decide (is_Some x))) in E. vm_compute in E. discriminate.
Defined.

(** * The phrase shown is the phrase that verifies *)

Lemma lowercase_facts w : lowercase w = true → w ≠ [] ∧ Forall (λ c, 97 ≤ c ≤ 122) w.
Proof.
  unfold lowercase. rewrite !andb_true_iff. intros [[H3 _] Hc]. split; [by intros ->|].
  apply Forall_forall. intros c Hin. rewrite forallb_forall in Hc. apply list_elem_of_In in Hin.
  specialize (Hc c Hin). lia.
Qed.

Lemma fieldsOf_word w cs cur :
  Forall (λ c, 97 ≤ c ≤ 122) w → fieldsOf (map (λ c, (c, [c])) w ++ cs) cur = fieldsOf cs (cur ++ w).
Proof.
  intros Hw. revert cur. induction Hw as [|c w Hc _ IH]; intros cur; [by rewrite app_nil_r|].
  cbn [map app fieldsOf]. assert (IsSpace c = false) as ->.
  { unfold IsSpace. rewrite bool_decide_eq_false_2; [lia|]. rewrite !not_elem_of_cons. repeat split; try lia. by apply not_elem_of_nil. }
  rewrite IH. by rewrite <-app_assoc.
Qed.

Lemma fields_phrase m :
  Forall (λ w, lowercase w = true) m → strings_Fields (Mnemonic_String m ++ [10]) = m.
Proof.
  intros Hm. assert (Forall (λ w, w ≠ [] ∧ Forall (λ c, 97 ≤ c ≤ 122) w) m) as Hw
    by (eapply Forall_impl; [done|]; apply lowercase_facts). clear Hm.
  unfold strings_Fields. rewrite chunks_ascii.
  - rewrite map_app. induction Hw as [|w m [Hne Hw] Hall IH]; [done|]. destruct m as [|w' m].
    + cbn [Mnemonic_String]. rewrite fieldsOf_word by done. cbn. by destruct w.
    + change (Mnemonic_String (w :: w' :: m)) with (w ++ 32 :: Mnemonic_String (w' :: m)).
      rewrite map_app, <-app_assoc, fieldsOf_word by done. rewrite map_cons, <-app_comm_cons. cbn [fieldsOf app].
      change (IsSpace 32) with true. cbn match. destruct w as [|c w]; [done|]. by rewrite IH.
  - apply Forall_app. split; [|by repeat constructor]. induction Hw as [|w m [Hne Hw] Hall IH]; [constructor|].
    assert (Forall (λ c, 0 ≤ c < 128) w) as Hw' by (eapply Forall_impl; [done|]; cbn; lia).
    destruct m as [|w' m]; [done|]. apply Forall_app. split; [done|]. by constructor.
Qed.

Lemma phrase_no_newline m : Forall (λ w, lowercase w = true) m → 10 ∉ Mnemonic_String m.
Proof.
  induction 1 as [|w m Hw _ IH]; [by apply not_elem_of_nil|]. apply lowercase_facts in Hw as [_ Hw].
  assert (10 ∉ w) as H10 by (intros Hin; rewrite Forall_forall in Hw; specialize (Hw 10 Hin); lia).
  destruct m as [|w' m]; [done|]. change (Mnemonic_String (w :: w' :: m)) with (w ++ 32 :: Mnemonic_String (w' :: m)).
  rewrite elem_of_app, elem_of_cons. intros [?|[?|?]]; done.
Qed.
Lemma ReadString_line l rest : 10 ∉ l → ReadString (l ++ 10 :: rest) = (l ++ [10], true, rest).
Proof.
  induction l as [|c l IH]; [done|]. rewrite not_elem_of_cons. intros [Hc Hl]. cbn [app ReadString].
  rewrite (proj2 (Z.eqb_neq c 10)) by done. by rewrite IH.
Qed.

Lemma english_phrase wl e m :
  NewEnglishWordList = Ok wl → length e = 32%nat → EntropyToMnemonic e (Some wl) = Ok m →
  Forall (λ w, lowercase w = true) m.
Proof.
  intros Hwl He. rewrite (EntropyToMnemonic_sized e wl 8) by lia. intros Hm%lookupWords_spec.
  induction Hm as [|i x is_ m Hx _ IH]; constructor; [|done]. by eapply english_lowercase.
Qed.

Section End_to_end.
Context {R : Type} `{HC : SeedCrypto, HL : !SeedCryptoLaws, HRd : Reader R, HS : !StreamReader R}.
Notation fs := (gmap string file).

Lemma GenerateEntropy_bytes (r r' : R) e :
  bytes_ok (stream r) → GenerateEntropy DefaultEntropyBits r = (Ok e, r') → length e = 32%nat ∧ bytes_ok e.
Proof.
  intros Hb Eg. change (GenerateEntropy DefaultEntropyBits r) with
    (rd_wrap "lightning: entropy generation failed: %w" (ReadFull 32) r) in Eg.
  unfold rd_wrap in Eg. destruct (ReadFull_spec 32 r) as (r2 & E & _). rewrite E in Eg.
  unfold read_outcome in Eg. destruct (Nat.leb_spec 32 (length (stream r))); [|done].
  injection Eg as <- <-. split; [rewrite length_take; lia|by apply Forall_take].
Qed.

Lemma saveFile_keeps v raw (d : fs) hist res n :
  saveFile v raw d = (hist, res) → n ≠ tmp v → n ≠ walletFile → final d hist !! n = d !! n.
Proof.
  intros E Hn Hw. unfold saveFile in E. destruct (failing v); injection E as <- <-; cbn [final foldl]; try done.
  all: rewrite ?lookup_insert_ne, ?lookup_delete_ne by done; done.
Qed.

Lemma createNew_phrase v wl p mp (d : fs) (r r' : R) hist s m :
  bytes_ok (stream r) → is_temp (tmp v) = true → createNew v wl p mp d r = (hist, Ok (s, m), r') →
  (∃ e, length e = 32%nat ∧ bytes_ok e ∧ EntropyToMnemonic e (Some wl) = Ok m) ∧
  content <$> final d hist !! fingerprintFile =
    if fp_ok v then Some (Fingerprint s) else content <$> d !! fingerprintFile.
Proof.
  intros Hb Ht. unfold createNew. destruct (GenerateEntropy DefaultEntropyBits r) as [[e|] r1] eqn:Eg; [|done].
  destruct (GenerateEntropy_bytes _ _ _ Hb Eg) as [He1 He2].
  destruct (EntropyToMnemonic e (Some wl)) as [m'|] eqn:Em; [|done].
  unfold save. destruct (EncryptSeed _ p r1) as [[es|] r2]; [|done]. destruct (Marshal es) as [raw|]; [|done].
  destruct (saveFile v raw d) as [h rs] eqn:Es. destruct rs as [[]|]; [|done]. intros [= <- <- <- <-].
  split; [by exists e|]. rewrite final_app. unfold writeFingerprint.
  assert (final d h !! fingerprintFile = d !! fingerprintFile) as Hk.
  { eapply saveFile_keeps; [done| |done]. intros E. rewrite <-E in Ht. done. }
  destruct (fp_ok v); cbn [final foldl]; [by rewrite lookup_insert_eq|by rewrite Hk].
Qed.

(** Opening an existing wallet leaves its file alone. *)
Lemma open_keeps v dir p wl mp (d : fs) (r : R) f :
  d !! walletFile = Some f →
  ∀ d', d' ∈ (NewWalletManager v dir p wl mp d r).1.1 → d' !! walletFile = Some f.
Proof.
  intros Hf d'. unfold NewWalletManager. repeat (case_bool_decide; [by intros ?%elem_of_nil|]).
  destruct wl as [wl|]; [|by intros ?%elem_of_nil]. destruct (mkdir_ok v); [|by intros ?%elem_of_nil]. cbn [negb].
  assert (sweepStaleTempFiles v d !! walletFile = Some f) as Hsw by (by rewrite sweep_keeps).
  destruct (stat_ok v); cbn [negb fst]; [|by intros ->%list_elem_of_singleton].
  rewrite Hsw. destruct (loadExisting v p _); cbn [fst]; [|by intros ->%list_elem_of_singleton].
  intros [->|Hd]%elem_of_cons; [done|]. destruct (sweepStaleTempFiles v d !! fingerprintFile); [by apply elem_of_nil in Hd|].
  by rewrite (writeFingerprint_keeps _ _ _ _ Hd).
Qed.

Lemma create_manager v dir p wl mp (d : fs) (r r' : R) hist wm :
  d !! walletFile = None → NewWalletManager v dir p (Some wl) mp d r = (hist, Ok wm, r') →
  dir ≠ [] ∧ p ≠ [] ∧ ∃ h m, hist = sweepStaleTempFiles v d :: h ∧ wm_mnemonic wm = Some m ∧
    createNew v wl p mp (sweepStaleTempFiles v d) r = (h, Ok (wm_seed wm, m), r').
Proof.
  intros Hn. unfold NewWalletManager. do 2 (case_bool_decide; [done|]). destruct (mkdir_ok v); [|done]. cbn [negb].
  destruct (stat_ok v); [|done]. cbn [negb]. rewrite sweep_keeps, Hn by done.
  destruct (createNew v wl p mp _ r) as [[h [[s m]|]] r1]; [|done]. intros [= <- <- <-]. split; [done|]. split; [done|].
  exists h, m. done.
Qed.

End End_to_end.

#[local] Existing Instances toy_crypto toy_laws.

