(* ===== verification/Doctor.v ===== *)
(** * internal/doctor/doctor.go: the check framework

    Check results, the report with its exit code, its printed and its JSON form,
    and the runner.  The runner starts one goroutine per check; its runs are the
    interleavings of a step relation on the shared result slice, the wait group
    and the goroutines' progress. *)
From S2P Require Import Prelude.
From S2P Require Import Utf8.
From S2P Require Import Json.
From S2P Require Import Text.
From S2P Require Import Poolproto.
From S2P Require Import Quoting.
From S2P Require Import JsonOut.

Open Scope Z_scope.

Inductive Status := StatusPass | StatusWarn | StatusFail | StatusSkip.
#[export] Instance Status_eq_dec : EqDecision Status.
Proof. solve_decision. Defined.

Definition Status_String (s : Status) : list Z :=
  match s with
  | StatusPass => %"pass"
  | StatusWarn => %"warn"
  | StatusFail => %"fail"
  | StatusSkip => %"skip"
  end.
Definition Status_symbol (s : Status) : list Z :=
  match s with
  | StatusPass => %"✓"
  | StatusWarn => %"!"
  | StatusFail => %"✗"
  | StatusSkip => %"-"
  end.

Record Result := { r_Name : list Z; r_Status : Status; Detail : list Z; Fix : list Z; Elapsed : Z }.
(** What running a check does: return a result or panic with a value, given by
    the text [%v] prints. *)
Inductive outcome := Returned (r : Result) | Panicked (value : list Z).
Record Check := { ck_Name : list Z; ck_Run : outcome }.
Record Report := { Results : list Result; Duration : Z }.

(** ** The report *)

Definition hasStatus (s : Status) (rs : list Result) : bool := existsb (λ r, bool_decide (r_Status r = s)) rs.
Definition ExitCode (r : Report) : Z :=
  if hasStatus StatusFail (Results r) then 2 else if hasStatus StatusWarn (Results r) then 1 else 0.

(** The counters of [Print] and [WriteJSON]. *)
Definition countStatus (s : Status) (rs : list Result) : Z :=
  foldl (λ n r, if bool_decide (r_Status r = s) then n + 1 else n) 0 rs.

Definition printResult (r : Result) : list Z :=
  %"[" ++ Status_symbol (r_Status r) ++ %"] " ++ r_Name r ++ %": " ++ SanitizePoolText (Detail r) ++ [10] ++
  (if bool_decide (Fix r = []) then [] else %"    → fix: " ++ SanitizePoolText (Fix r) ++ [10]).
Definition Print (r : Report) : list Z :=
  let passed := countStatus StatusPass (Results r) in
  let warned := countStatus StatusWarn (Results r) in
  let failed := countStatus StatusFail (Results r) in
  let skipped := countStatus StatusSkip (Results r) in
  concat (map printResult (Results r)) ++ [10] ++
  %"Summary: " ++ FormatInt passed ++ %" passed, " ++ FormatInt failed ++ %" failed, " ++
  FormatInt warned ++ %" warning" ++
  (if warned =? 1 then [] else %"s") ++
  (if 0 <? skipped then %", " ++ FormatInt skipped ++ %" skipped" else []) ++
  %" (completed in " ++ Duration_String (Duration_Round (Duration r) (10 ^ 6)) ++ %")" ++ [10].

Definition jsonCheck (r : Result) : jout :=
  OObj ([(%"name", OStr (r_Name r)); (%"status", OStr (Status_String (r_Status r)));
         (%"detail", OStr (Detail r))] ++
        (if bool_decide (Fix r = []) then [] else [(%"fix", OStr (Fix r))]) ++   (* omitempty *)
        [(%"elapsed_ms", OInt (Milliseconds (Elapsed r)))]).
Definition jsonDoc (r : Report) : jout :=
  OObj [(%"summary", OObj [(%"passed", OInt (countStatus StatusPass (Results r)));
                           (%"failed", OInt (countStatus StatusFail (Results r)));
                           (%"warnings", OInt (countStatus StatusWarn (Results r)));
                           (%"skipped", OInt (countStatus StatusSkip (Results r)))]);
        (%"duration_ms", OInt (Milliseconds (Duration r)));
        (%"exit_code", OInt (ExitCode r));
        (%"checks", OArr (map jsonCheck (Results r)))].
Definition WriteJSON (r : Report) : list Z := Encode (jsonDoc r).

(** ** The runner *)

(** What one goroutine stores for its check, [dt] after it started. *)
Definition runCheck (c : Check) (dt : Z) : Result :=
  match ck_Run c with
  | Returned r =>
      {| r_Name := ck_Name c; r_Status := r_Status r; Detail := Detail r; Fix := Fix r; Elapsed := dt |}
  | Panicked v =>
      {| r_Name := ck_Name c; r_Status := StatusFail; Detail := %"check panicked: " ++ v;
         Fix := %"this is an internal error; report it"; Elapsed := dt |}
  end.

(** A slice filled by one iteration per index: the iteration stores its element
    itself, or starts a goroutine that stores one of the possible elements. *)
Inductive task (A : Type) := Here (a : A) | Spawn (possible : A → Prop).
Arguments Here {A}. Arguments Spawn {A}.
Inductive progress := Running | Stored | Finished.
#[export] Instance progress_eq_dec : EqDecision progress.
Proof. solve_decision. Defined.

Record fill (A : Type) := { slots : list A; started : list progress; wg : Z }.
Arguments slots {A}. Arguments started {A}. Arguments wg {A}.

Section Fill.
Context {A : Type} (zero : A) (tasks : list (task A)).

Definition fill0 : fill A := {| slots := replicate (length tasks) zero; started := []; wg := 0 |}.

(** The loop continues, a goroutine stores its element, a goroutine calls
    [wg.Done]. *)
Inductive fillStep : fill A → fill A → Prop :=
  | step_here s a :
      tasks !! length (started s) = Some (Here a) →
      fillStep s {| slots := <[length (started s) := a]> (slots s); started := started s ++ [Finished]; wg := wg s |}
  | step_spawn s p :
      tasks !! length (started s) = Some (Spawn p) →
      fillStep s {| slots := slots s; started := started s ++ [Running]; wg := wg s + 1 |}
  | step_store s i p a :
      started s !! i = Some Running → tasks !! i = Some (Spawn p) → p a →
      fillStep s {| slots := <[i := a]> (slots s); started := <[i := Stored]> (started s); wg := wg s |}
  | step_done s i :
      started s !! i = Some Stored →
      fillStep s {| slots := slots s; started := <[i := Finished]> (started s); wg := wg s - 1 |}.

(** The loop has ended and [wg.Wait] returns. *)
Definition waited (s : fill A) : Prop := length (started s) = length tasks ∧ wg s = 0.
End Fill.

Definition Runner_tasks (cs : list Check) : list (task Result) :=
  map (λ c, Spawn (λ r, ∃ dt, 0 ≤ dt ∧ r = runCheck c dt)) cs.
Definition zeroResult : Result := {| r_Name := []; r_Status := StatusPass; Detail := []; Fix := []; Elapsed := 0 |}.

(** [Run] can return the report [rep]. *)
Definition Run (cs : list Check) (rep : Report) : Prop :=
  ∃ s, rtc (fillStep (Runner_tasks cs)) (fill0 zeroResult (Runner_tasks cs)) s ∧ waited (Runner_tasks cs) s ∧
       Results rep = slots s ∧ 0 ≤ Duration rep.

Example print_example :
  Print {| Results := [{| r_Name := %"Network"; r_Status := StatusWarn; Detail := [27; 120; 10]; Fix := %"f"; Elapsed := 0 |};
                       {| r_Name := %"X"; r_Status := StatusPass; Detail := %"ok"; Fix := []; Elapsed := 0 |}];
           Duration := 41999999 |} =
  unlines [%"[!] Network: x"; %"    → fix: f"; %"[✓] X: ok"; [];
           %"Summary: 1 passed, 0 failed, 1 warning (completed in 42ms)"].
Proof. vm_compute. reflexivity. Qed.

(** * Filling a slice concurrently *)

Section Fill_proofs.
Context {A : Type} (zero : A) (tasks : list (task A)).
Notation step := (fillStep tasks).
Notation start := (fill0 zero tasks).

Definition possible (t : task A) (a : A) : Prop := match t with Here b => a = b | Spawn p => p a end.

(** What is left of a goroutine: store and [Done], or [Done]. *)
Definition left_of (p : progress) : nat := match p with Running => 2 | Stored => 1 | Finished => 0 end.
Definition busy (p : progress) : Z := match p with Finished => 0 | _ => 1 end.
Definition sumZ (l : list progress) : Z := foldr (λ p n, busy p + n) 0 l.

Record fill_inv (s : fill A) : Prop := {
  inv_slots : length (slots s) = length tasks;
  inv_started : (length (started s) ≤ length tasks)%nat;
  inv_wg : wg s = sumZ (started s);
  inv_task : ∀ i p, started s !! i = Some p → ∃ t, tasks !! i = Some t ∧
    (p = Finished ∨ p = Stored → ∃ a, slots s !! i = Some a ∧ possible t a) ∧
    (p = Running → ∃ q, t = Spawn q)
}.

Lemma sumZ_app l1 l2 : sumZ (l1 ++ l2) = sumZ l1 + sumZ l2.
Proof. induction l1 as [|p l1 IH]; cbn; [done|]. unfold sumZ in *. lia. Qed.
Lemma sumZ_insert l i p q : l !! i = Some p → sumZ (<[i := q]> l) = sumZ l - busy p + busy q.
Proof.
  intros H. rewrite insert_take_drop by (by eapply lookup_lt_Some).
  rewrite <-(take_drop_middle l i p H) at 3. rewrite !sumZ_app. cbn. lia.
Qed.
Lemma sumZ_nonneg l : 0 ≤ sumZ l.
Proof. induction l as [|p l IH]; cbn; [done|]. unfold sumZ in IH. destruct p; cbn; lia. Qed.
Lemma sumZ_zero l i p : sumZ l = 0 → l !! i = Some p → p = Finished.
Proof.
  intros H Hl. rewrite <-(take_drop_middle l i p Hl), sumZ_app in H. cbn in H.
  pose proof (sumZ_nonneg (take i l)). pose proof (sumZ_nonneg (drop (S i) l)). unfold sumZ in *.
  destruct p; cbn in *; [lia|lia|done].
Qed.

Lemma start_inv : fill_inv start.
Proof. split; cbn; [by rewrite length_replicate|lia|done|intros i p H; by rewrite lookup_nil in H]. Qed.

Lemma step_inv s s' : step s s' → fill_inv s → fill_inv s'.
Proof.
  intros Hstep [HL HS HW HT]. destruct Hstep as [s a Ht|s p Ht|s i p a Hi Ht Hp|s i Hi].
  all: try (pose proof (lookup_lt_Some _ _ _ Ht)).
  - split; cbn; rewrite ?length_insert, ?length_app; cbn [length]; [done|lia|rewrite sumZ_app; cbn; lia|].
    intros j q Hj. apply lookup_app_Some in Hj as [Hj|[Hge Hj]].
    + pose proof (lookup_lt_Some _ _ _ Hj). destruct (HT j q Hj) as (t & Htj & Hs & Hr). exists t.
      rewrite list_lookup_insert_ne by lia. by split_and!.
    + apply list_lookup_singleton_Some in Hj as [Hj <-]. replace j with (length (started s)) by lia.
      exists (Here a). split; [done|]. split; [|done]. intros _. exists a. split; [|done].
      apply list_lookup_insert_eq. lia.
  - split; cbn; rewrite ?length_app; cbn [length]; [done|lia|rewrite sumZ_app; cbn; lia|].
    intros j q Hj. apply lookup_app_Some in Hj as [Hj|[Hge Hj]]; [by apply HT|].
    apply list_lookup_singleton_Some in Hj as [Hj <-]. replace j with (length (started s)) by lia.
    exists (Spawn p). split; [done|]. split; [by intros []|eauto].
  - split; cbn; rewrite ?length_insert; [done|done|rewrite (sumZ_insert _ _ _ _ Hi); cbn; lia|].
    intros j q Hj. destruct (decide (i = j)) as [<-|Hne].
    + apply list_lookup_insert_Some in Hj as [(_ & <- & _)|[? _]]; [|done].
      exists (Spawn p). split; [done|]. split; [|done]. intros _. exists a. split; [|done].
      apply list_lookup_insert_eq. lia.
    + rewrite list_lookup_insert_ne in Hj by done. destruct (HT j q Hj) as (t & Htj & Hs & Hr). exists t.
      rewrite list_lookup_insert_ne by done. by split_and!.
  - split; cbn; rewrite ?length_insert; [done|done|rewrite (sumZ_insert _ _ _ _ Hi); cbn; lia|].
    intros j q Hj. destruct (decide (i = j)) as [<-|Hne].
    + apply list_lookup_insert_Some in Hj as [(_ & <- & _)|[? _]]; [|done].
      destruct (HT i Stored Hi) as (t & Htj & Hs & Hr). exists t. split; [done|]. split; [by auto|done].
    + rewrite list_lookup_insert_ne in Hj by done. by apply HT.
Qed.

Lemma reachable_inv s : rtc step start s → fill_inv s.
Proof. apply (rtc_ind_r fill_inv start start_inv). intros y z _ Hs Hy. by eapply step_inv. Qed.

(** When the wait returns every element is one its own iteration stored. *)
Lemma filled s : rtc step start s → waited tasks s → Forall2 possible tasks (slots s).
Proof.
  intros Hr [Hl Hw]. apply reachable_inv in Hr as [HL HS HW HT]. apply Forall2_same_length_lookup.
  split; [done|]. intros i t a Ht Ha. rewrite HW in Hw.
  destruct (lookup_lt_is_Some_2 (started s) i) as [p Hp]; [rewrite Hl; by eapply lookup_lt_Some|].
  pose proof (sumZ_zero _ _ _ Hw Hp) as ->. destruct (HT _ _ Hp) as (t' & Ht' & Hs & _).
  destruct (Hs ltac:(by left)) as (a' & Ha' & Hp'). by simplify_eq.
Qed.

(** Until then some step is possible, and there are at most three per index. *)
Lemma progresses s :
  Forall (λ t, ∃ a, possible t a) tasks → rtc step start s → waited tasks s ∨ ∃ s', step s s'.
Proof.
  intros HP Hr. apply reachable_inv in Hr as [HL HS HW HT].
  destruct (decide (length (started s) = length tasks)) as [He|Hne].
  - destruct (decide (Exists (λ p, p ≠ Finished) (started s))) as [HE|HE].
    + right. apply Exists_exists in HE as (p & Hin & Hp). apply list_elem_of_lookup in Hin as [i Hi].
      destruct (HT i p Hi) as (t & Ht & _ & Hrun). destruct p; [|eexists; by eapply step_done|done].
      destruct (Hrun eq_refl) as [q ->]. rewrite Forall_forall in HP.
      destruct (HP (Spawn q)) as [a Ha]; [by eapply list_elem_of_lookup_2|]. eexists. by eapply step_store.
    + left. split; [done|]. rewrite HW. apply not_Exists_Forall in HE; [|intros x; apply _].
      clear -HE. induction HE as [|p l Hp _ IH]; [done|]. cbn. unfold sumZ in IH. destruct p; cbn; [by destruct Hp..|done].
  - right. destruct (lookup_lt_is_Some_2 tasks (length (started s))) as [t Ht]; [lia|].
    destruct t as [a|q]; eexists; [by eapply step_here|by eapply step_spawn].
Qed.

Definition remaining (s : fill A) : nat :=
  (3 * (length tasks - length (started s)) + sum_list_with left_of (started s))%nat.

Lemma sum_left_insert l i p q :
  l !! i = Some p → (sum_list_with left_of (<[i := q]> l) + left_of p = sum_list_with left_of l + left_of q)%nat.
Proof.
  intros H. rewrite insert_take_drop by (by eapply lookup_lt_Some).
  rewrite <-(take_drop_middle l i p H) at 3. rewrite !sum_list_with_app. cbn. lia.
Qed.
Lemma step_remaining s s' : step s s' → (remaining s' < remaining s)%nat.
Proof.
  unfold remaining. intros Hstep. destruct Hstep as [s a Ht|s p Ht|s i p a Hi Ht Hp|s i Hi]; cbn;
    rewrite ?length_app, ?length_insert, ?sum_list_with_app; cbn.
  - pose proof (lookup_lt_Some _ _ _ Ht). lia.
  - pose proof (lookup_lt_Some _ _ _ Ht). lia.
  - pose proof (sum_left_insert _ _ _ Stored Hi). cbn in *. lia.
  - pose proof (sum_left_insert _ _ _ Finished Hi). cbn in *. lia.
Qed.
Lemma steps_bounded k s : nsteps step k start s → (k ≤ 3 * length tasks)%nat.
Proof.
  enough (∀ s0, nsteps step k s0 s → (k + remaining s ≤ remaining s0)%nat) as H.
  { intros Hk%H. unfold remaining, fill0 in Hk. cbn in Hk. lia. }
  induction k as [|k IH]; intros s0 Hn; inversion Hn as [|? ? s1 ? Hs Hn']; subst; [lia|].
  specialize (IH s1 Hn'). pose proof (step_remaining _ _ Hs). lia.
Qed.
End Fill_proofs.

(** * The exit code *)

Definition severity (s : Status) : Z := match s with StatusFail => 2 | StatusWarn => 1 | _ => 0 end.

Lemma hasStatus_spec st rs : hasStatus st rs = true ↔ ∃ r, r ∈ rs ∧ r_Status r = st.
Proof.
  unfold hasStatus. rewrite existsb_exists. setoid_rewrite <-list_elem_of_In.
  split; intros (r & Hr & E); exists r; (split; [done|]); by apply bool_decide_eq_true in E || apply bool_decide_eq_true.
Qed.

(** The exit code is the worst severity of any result. *)
Lemma ExitCode_spec r :
  (∀ x, x ∈ Results r → severity (r_Status x) ≤ ExitCode r) ∧
  (ExitCode r = 0 ∨ ∃ x, x ∈ Results r ∧ severity (r_Status x) = ExitCode r).
Proof.
  unfold ExitCode. destruct (hasStatus StatusFail (Results r)) eqn:EF; [|destruct (hasStatus StatusWarn (Results r)) eqn:EW].
  - split; [intros x _; destruct (r_Status x); cbn; lia|]. right. apply hasStatus_spec in EF as (x & Hx & E).
    exists x. by rewrite E.
  - split.
    + intros x Hx. destruct (r_Status x) eqn:E; cbn; try lia. exfalso. eapply eq_true_false_abs, EF.
      apply hasStatus_spec. eauto.
    + right. apply hasStatus_spec in EW as (x & Hx & E). exists x. by rewrite E.
  - split; [|by left]. intros x Hx. destruct (r_Status x) eqn:E; cbn; try lia; exfalso.
    + eapply eq_true_false_abs, EW. apply hasStatus_spec. eauto.
    + eapply eq_true_false_abs, EF. apply hasStatus_spec. eauto.
Qed.

(** What a check contributes to the verdict: a panic counts as a failure. *)
Definition verdict (c : Check) : Status :=
  match ck_Run c with Returned r => r_Status r | Panicked _ => StatusFail end.

Lemma runCheck_status c dt : r_Status (runCheck c dt) = verdict c ∧ r_Name (runCheck c dt) = ck_Name c.
Proof. unfold runCheck, verdict. by destruct (ck_Run c). Qed.

Lemma Run_results cs rep :
  Run cs rep → Forall2 (λ c r, ∃ dt, 0 ≤ dt ∧ r = runCheck c dt) cs (Results rep).
Proof.
  intros (s & Hr & Hw & -> & _). pose proof (filled _ _ _ Hr Hw) as H. clear -H. revert H. generalize (slots s). clear s.
  induction cs as [|c cs IH]; intros rs H; inversion H; subst; constructor; auto.
Qed.

(** The exit code of a run is decided by the checks, whatever the schedule. *)
Lemma Run_ExitCode cs rep k :
  Run cs rep → ExitCode rep = k →
  (∀ c, c ∈ cs → severity (verdict c) ≤ k) ∧ (k = 0 ∨ ∃ c, c ∈ cs ∧ severity (verdict c) = k).
Proof.
  intros HR%Run_results <-. destruct (ExitCode_spec rep) as [H1 H2]. split.
  - intros c Hc. apply list_elem_of_lookup in Hc as [i Hi].
    destruct (Forall2_lookup_l _ _ _ _ _ HR Hi) as (r & Hr & dt & _ & ->).
    rewrite <-(proj1 (runCheck_status c dt)). apply H1. by eapply list_elem_of_lookup_2.
  - destruct H2 as [H2|(x & Hx & E)]; [by left|right]. apply list_elem_of_lookup in Hx as [i Hi].
    destruct (Forall2_lookup_r _ _ _ _ _ HR Hi) as (c & Hc & dt & _ & ->). exists c.
    split; [by eapply list_elem_of_lookup_2|]. by rewrite <-E, (proj1 (runCheck_status c dt)).
Qed.

(** Running the goroutines one after the other is one of the schedules. *)
Lemma Run_sequential cs : Run cs {| Results := map (λ c, runCheck c 0) cs; Duration := 0 |}.
Proof.
  set (after k := {| slots := map (λ c, runCheck c 0) (take k cs) ++ replicate (length cs - k) zeroResult;
                     started := replicate k Finished; wg := 0 |}).
  assert (∀ k, (k ≤ length cs)%nat → rtc (fillStep (Runner_tasks cs)) (fill0 zeroResult (Runner_tasks cs)) (after k)) as H.
  { induction k as [|k IH]; intros Hk.
    - unfold after, fill0, Runner_tasks. rewrite length_map, take_0, Nat.sub_0_r. cbn. apply rtc_refl.
    - destruct (lookup_lt_is_Some_2 cs k) as [c Hc]; [lia|].
      assert (Runner_tasks cs !! k = Some (Spawn (λ r, ∃ dt, 0 ≤ dt ∧ r = runCheck c dt))) as Ht.
      { unfold Runner_tasks. rewrite list_lookup_fmap, Hc. done. }
      transitivity (after k); [apply IH; lia|]. eapply rtc_l; [|eapply rtc_l; [|apply rtc_once]].
      + eapply step_spawn. unfold after. cbn [started]. rewrite length_replicate. exact Ht.
      + eapply (step_store _ _ k _ (runCheck c 0)); [|exact Ht|by exists 0]. unfold after. cbn [started].
        rewrite lookup_app_r by (by rewrite length_replicate). by rewrite length_replicate, Nat.sub_diag.
      + assert (after (S k) = {| slots := <[k := runCheck c 0]> (slots (after k));
           started := <[k := Finished]> (<[k := Stored]> (started (after k) ++ [Running])); wg := wg (after k) + 1 - 1 |}) as ->.
        { unfold after. cbn [slots started wg]. f_equal.
          - rewrite (take_S_r _ _ _ Hc), map_app. replace (length cs - k)%nat with (S (length cs - S k)) by lia.
            rewrite <-app_assoc. cbn [map app replicate]. rewrite insert_app_r_alt by (rewrite length_map, length_take; lia).
            rewrite length_map, length_take, Nat.min_l, Nat.sub_diag by lia. done.
          - rewrite insert_app_r_alt by (by rewrite length_replicate). rewrite length_replicate, Nat.sub_diag. cbn.
            rewrite insert_app_r_alt by (by rewrite length_replicate). rewrite length_replicate, Nat.sub_diag. cbn.
            by rewrite <-replicate_S_end. }
        eapply step_done. cbn [started]. rewrite list_lookup_insert_eq; [done|].
        unfold after. cbn [started]. rewrite length_app, length_replicate. cbn. lia. }
  exists (after (length cs)). split; [by apply H|]. unfold after, waited, Runner_tasks. cbn.
  rewrite length_replicate, length_map, take_ge, Nat.sub_diag, app_nil_r by lia. done.
Qed.

(** [Run] under every interleaving of the check goroutines.  No schedule
    deadlocks or runs for more than three steps per check; and when the wait
    group releases [Run], the report holds exactly one result per check, in the
    order of the checks, under the check's own name, with what the check
    returned or, for a check that panicked, a failure; so that the exit code is
    2 exactly when some check failed or panicked, 1 exactly when none did and
    some check warned, and 0 otherwise. *)
Theorem Run_any_schedule cs :
  (∀ k s, nsteps (fillStep (Runner_tasks cs)) k (fill0 zeroResult (Runner_tasks cs)) s →
     (k ≤ 3 * length cs)%nat ∧ (waited (Runner_tasks cs) s ∨ ∃ s', fillStep (Runner_tasks cs) s s')) ∧
  (∀ rep, Run cs rep →
     Forall2 (λ c r, ∃ dt, 0 ≤ dt ∧ r = runCheck c dt) cs (Results rep) ∧
     map r_Name (Results rep) = map ck_Name cs ∧
     (ExitCode rep = 2 ↔ ∃ c, c ∈ cs ∧ verdict c = StatusFail) ∧
     (ExitCode rep = 1 ↔ (∃ c, c ∈ cs ∧ verdict c = StatusWarn) ∧ ∀ c, c ∈ cs → verdict c ≠ StatusFail)).
Proof.
  split.
  - intros k s Hk. split.
    + apply steps_bounded in Hk. unfold Runner_tasks in Hk. by rewrite length_map in Hk.
    + apply (progresses zeroResult); [|apply rtc_nsteps; by exists k]. unfold Runner_tasks. apply Forall_fmap, Forall_true.
      intros c. exists (runCheck c 0). by exists 0.
  - intros rep HR. pose proof (Run_results cs rep HR) as HF. split; [done|]. split.
    { clear -HF. induction HF as [|c r cs rs (dt & _ & ->) _ IH]; [done|]. cbn. by rewrite IH, (proj2 (runCheck_status c dt)). }
    destruct (Run_ExitCode cs rep _ HR eq_refl) as [H1 H2]. split.
    + split.
      * intros E. rewrite E in H2. destruct H2 as [|(c & Hc & Hv)]; [done|]. exists c. by destruct (verdict c).
      * intros (c & Hc & Hv). specialize (H1 c Hc). rewrite Hv in H1. cbn in H1.
        unfold ExitCode in *. repeat case_if; lia.
    + split.
      * intros E. rewrite E in H1, H2. destruct H2 as [|(c & Hc & Hv)]; [done|]. split.
        -- exists c. by destruct (verdict c).
        -- intros c' Hc' Hv'. specialize (H1 c' Hc'). rewrite Hv' in H1. cbn in H1. lia.
      * intros [(c & Hc & Hv) Hno]. specialize (H1 c Hc). rewrite Hv in H1. cbn in H1.
        destruct H2 as [?|(c' & Hc' & Hv')]; [lia|]. rewrite <-Hv' in *. specialize (Hno c' Hc').
        destruct (verdict c'); cbn in *; lia || done.
Qed.

(** * The printed report *)

Lemma encode_inline r : rune_ok r = true → 32 ≤ r → r ≠ 127 → Forall inline (encode_rune r).
Proof.
  unfold rune_ok, inline. intros Hr H1 H2. unfold encode_rune, rune_ok. rewrite Hr. unfold encode_valid.
  repeat case_if; repeat constructor; Z.to_euclidean_division_equations; lia.
Qed.

(** Sanitized text has no control byte, whatever the text was. *)
Lemma Sanitize_inline s : bytes_ok s → Forall inline (SanitizePoolText s).
Proof.
  intros Hs. rewrite SanitizePoolText_runes by done. unfold string_of_runes. apply Forall_concat, Forall_fmap, Forall_take.
  pose proof (safe_runes_ok s Hs) as Hok. rewrite Forall_forall in *. intros r Hr. specialize (Hok r Hr).
  unfold safe_runes in Hr. apply list_elem_of_In, filter_In in Hr as [_ Hr]. cbn.
  unfold unsafePoolRune, unsafeRanges in Hr. cbn [existsb fst snd] in Hr. unfold rune_ok in Hok.
  apply encode_inline; [done|lia..].
Qed.

Lemma graphic_inline l : Forall graphic l → Forall inline l.
Proof. intros H. eapply Forall_impl; [exact H|]. unfold graphic, inline. lia. Qed.
Lemma FormatInt_inline v : Forall inline (FormatInt v).
Proof.
  apply graphic_inline. unfold FormatInt. case_if; [constructor; [unfold graphic; lia|]|];
    apply (formatDigits_graphic 20); lia.
Qed.
Lemma FormatUint_inline v : 0 ≤ v → Forall inline (FormatUint v).
Proof. intros. by apply graphic_inline, (formatDigits_graphic 20). Qed.

Lemma fmtFrac_inline prec print v acc :
  0 ≤ v → Forall inline acc → Forall inline (fmtFrac prec print v acc).1 ∧ 0 ≤ (fmtFrac prec print v acc).2.
Proof.
  revert print v acc. induction prec as [|prec IH]; intros print v acc Hv Ha; cbn [fmtFrac].
  - split; [|done]. case_match; [constructor; [unfold inline; lia|]|]; done.
  - apply IH; [by apply Z.div_pos|]. case_match; [|done]. constructor; [|done]. unfold inline.
    pose proof (Z.mod_pos_bound v 10). lia.
Qed.

Lemma inline_lit s : forallb (λ b, (32 <=? b) && negb (b =? 127)) s = true → Forall inline s.
Proof. rewrite forallb_forall, Forall_forall. unfold inline. intros H b Hb%list_elem_of_In. specialize (H b Hb). cbn in H. lia. Qed.

Lemma Duration_String_inline d : Forall inline (Duration_String d).
Proof.
  unfold Duration_String. cbv zeta. apply Forall_app. split; [case_if; by apply inline_lit|].
  assert (∀ v, 0 ≤ v → 0 ≤ v mod 60 ∧ 0 ≤ v / 60) as Hm.
  { intros v Hv. split; [by apply Z.mod_pos_bound|by apply Z.div_pos]. }
  destruct (Z.abs d <? 10 ^ 9).
  - case_if; [by apply inline_lit|].
    destruct (if Z.abs d <? 1000 then _ else _) as [prec unit] eqn:E.
    assert (Forall inline unit) as Hu by (repeat case_if; simplify_eq; by apply inline_lit).
    pose proof (fmtFrac_inline prec false (Z.abs d) unit ltac:(lia) Hu) as [Hf Hv].
    destruct (fmtFrac prec false (Z.abs d) unit) as [frac u]. cbn [fst snd] in *.
    apply Forall_app. split; [by apply FormatUint_inline|done].
  - pose proof (fmtFrac_inline 9 false (Z.abs d) (%"s") ltac:(lia) ltac:(by apply inline_lit)) as [Hf Hv].
    destruct (fmtFrac 9 false (Z.abs d) (%"s")) as [frac u]. cbn [fst snd] in *.
    assert (∀ v, 0 ≤ v → Forall inline (FormatUint (v mod 60))) as HF.
    { intros v Hv'. apply FormatUint_inline, Hm, Hv'. }
    case_if; [apply Forall_app; by auto|]. case_if; rewrite !Forall_app; split_and!; auto;
      try (by apply inline_lit); try (apply HF); try (apply FormatUint_inline); try by repeat apply Hm.
Qed.

Definition resultLines (r : Result) : list (list Z) :=
  (%"[" ++ Status_symbol (r_Status r) ++ %"] " ++ r_Name r ++ %": " ++ SanitizePoolText (Detail r)) ::
  (if bool_decide (Fix r = []) then [] else [%"    → fix: " ++ SanitizePoolText (Fix r)]).
Definition summaryLine (r : Report) : list Z :=
  %"Summary: " ++ FormatInt (countStatus StatusPass (Results r)) ++ %" passed, " ++
  FormatInt (countStatus StatusFail (Results r)) ++ %" failed, " ++
  FormatInt (countStatus StatusWarn (Results r)) ++ %" warning" ++
  (if countStatus StatusWarn (Results r) =? 1 then [] else %"s") ++
  (if 0 <? countStatus StatusSkip (Results r)
   then %", " ++ FormatInt (countStatus StatusSkip (Results r)) ++ %" skipped" else []) ++
  %" (completed in " ++ Duration_String (Duration_Round (Duration r) (10 ^ 6)) ++ %")".

Lemma printResult_lines r : printResult r = unlines (resultLines r).
Proof.
  unfold printResult, resultLines. case_bool_decide; rewrite !unlines_cons; rewrite <-?app_assoc; done.
Qed.

Lemma Print_unlines r : Print r = unlines (concat (map resultLines (Results r)) ++ [[]; summaryLine r]).
Proof.
  unfold Print. cbv zeta. rewrite unlines_app. f_equal.
  - induction (Results r) as [|x rs IH]; [done|]. cbn [map concat]. by rewrite unlines_app, IH, printResult_lines.
  - rewrite unlines_cons, unlines_cons. cbn [app]. f_equal. unfold summaryLine. rewrite <-!app_assoc. done.
Qed.

(** The texts of a report: byte strings, under a name on one line. *)
Definition result_ok (r : Result) : Prop := Forall inline (r_Name r) ∧ bytes_ok (Detail r) ∧ bytes_ok (Fix r).

(** The printed report is safe to read on a terminal.  Whatever bytes the pool
    URLs, error texts and file contents put into the details and fixes, the
    output has exactly the lines of the results (one per result and one per
    fix), an empty line and the summary, and no line has a control byte: a
    detail cannot forge another check's line or move the cursor. *)
Theorem Print_lines r :
  Forall result_ok (Results r) →
  let expected := concat (map resultLines (Results r)) ++ [[]; summaryLine r] in
  lines (Print r) = expected ∧ Forall (Forall inline) expected.
Proof.
  intros Hok expected.
  assert (Forall (Forall inline) expected) as HI.
  { unfold expected. apply Forall_app. split.
    - apply Forall_concat, Forall_fmap. eapply Forall_impl; [exact Hok|]. intros x (Hn & Hd & Hf). unfold resultLines. cbn [compose].
      constructor.
      + rewrite !Forall_app. split_and!; auto using Sanitize_inline; try (by apply inline_lit).
        destruct (r_Status x); by apply inline_lit.
      + case_bool_decide; [apply Forall_nil_2|]. apply Forall_singleton, Forall_app. split; [by apply inline_lit|by apply Sanitize_inline].
    - apply Forall_cons_2; [apply Forall_nil_2|]. apply Forall_singleton. unfold summaryLine. rewrite !Forall_app.
      split_and!; auto using FormatInt_inline, Duration_String_inline; try (by apply inline_lit).
      + case_match; by apply inline_lit.
      + case_match; [|done]. rewrite !Forall_app. split_and!; auto using FormatInt_inline; by apply inline_lit. }
  split; [|done]. rewrite Print_unlines. apply lines_unlines. eapply Forall_impl; [exact HI|].
  intros l Hl Hin. rewrite Forall_forall in Hl. specialize (Hl 10 Hin). unfold inline in Hl. lia.
Qed.

Lemma Print_lines_witness :
  let r := {| Results := [{| r_Name := %"Pool"; r_Status := StatusFail; Detail := %"a" ++ [10] ++ %"[✓] ok"; Fix := [];
                             Elapsed := 5 |}]; Duration := 10 ^ 9 |} in
  lines (Print r) = [%"[✗] Pool: a[✓] ok"; []; %"Summary: 0 passed, 1 failed, 0 warnings (completed in 1s)"].
Proof.
  intros r. refine (eq_trans (proj1 (Print_lines r _)) _); [|vm_compute; reflexivity].
  constructor; [|constructor]. split_and!; [by apply inline_lit|apply (bool_decide_unpack _); vm_compute; exact I..].
Defined.

(** * The JSON report *)

Definition utf8 (s : list Z) : list Z := string_of_runes (runes s).
Definition field (k : list Z) (j : json) : option json :=
  match j with JObj l => snd <$> List.find (λ kv, bool_decide (kv.1 = k)) l | _ => None end.

Lemma countStatus_spec st rs :
  0 ≤ countStatus st rs ≤ Z.of_nat (length rs) ∧ (0 < countStatus st rs ↔ hasStatus st rs = true).
Proof.
  unfold countStatus. enough (∀ n, 0 ≤ n → let m := foldl (λ n r, if bool_decide (r_Status r = st) then n + 1 else n) n rs in
    n ≤ m ≤ n + Z.of_nat (length rs) ∧ (n < m ↔ hasStatus st rs = true)) as H by (specialize (H 0); cbn in H; lia).
  induction rs as [|r rs IH]; intros n Hn; cbn; [lia|].
  case_bool_decide; cbn.
  - destruct (IH (n + 1)) as [H1 H2]; [lia|]. split; [lia|]. split; [done|lia].
  - destruct (IH n) as [H1 H2]; [lia|]. split; [lia|done].
Qed.

Definition report_ok (r : Report) : Prop :=
  Forall (λ x, bytes_ok (r_Name x) ∧ bytes_ok (Detail x) ∧ bytes_ok (Fix x) ∧ 0 ≤ Elapsed x < 2 ^ 63) (Results r) ∧
  0 ≤ Duration r < 2 ^ 63 ∧ Z.of_nat (length (Results r)) < 2 ^ 63.

Lemma Milliseconds_range d : 0 ≤ d < 2 ^ 63 → - 2 ^ 63 ≤ Milliseconds d < 2 ^ 63.
Proof. intros Hd. unfold Milliseconds. rewrite Z.quot_div_nonneg by lia. Z.to_euclidean_division_equations. lia. Qed.

Ltac lit_ok := apply (bool_decide_unpack _); vm_compute; exact I.
Lemma Status_String_bytes s : bytes_ok (Status_String s) ∧ utf8 (Status_String s) = Status_String s.
Proof. destruct s; (split; [lit_ok|vm_compute; reflexivity]). Qed.

Lemma jsonCheck_ok n r :
  bytes_ok (r_Name r) → bytes_ok (Detail r) → bytes_ok (Fix r) → 0 ≤ Elapsed r < 2 ^ 63 → jout_ok (S n) (jsonCheck r).
Proof.
  intros Hn Hd Hf He. unfold jsonCheck. pose proof (Milliseconds_range _ He). apply jout_ok_obj.
  rewrite !Forall_app. split_and!; [repeat apply Forall_cons_2; [..|apply Forall_nil_2]| |].
  all: try (case_bool_decide; [apply Forall_nil_2|]).
  all: lazymatch goal with |- Forall _ [_] => apply Forall_singleton | _ => idtac end.
  all: cbn [fst snd]; (split; [lit_ok|]); first [by apply jout_ok_int|apply jout_ok_str; try done].
  apply Status_String_bytes.
Qed.

Lemma jsonDoc_ok n r : report_ok r → jout_ok (S (S (S n))) (jsonDoc r).
Proof.
  intros (Hrs & Hd & Hl). unfold jsonDoc. pose proof (Milliseconds_range _ Hd).
  assert (∀ st, - 2 ^ 63 ≤ countStatus st (Results r) < 2 ^ 63) as HC
    by (intros st; destruct (countStatus_spec st (Results r)) as [? _]; lia).
  assert (- 2 ^ 63 ≤ ExitCode r < 2 ^ 63) by (unfold ExitCode; repeat case_if; lia).
  apply jout_ok_obj. repeat apply Forall_cons_2; try apply Forall_nil_2; (split; [lit_ok|]); cbn [snd].
  - apply jout_ok_obj. repeat apply Forall_cons_2; try apply Forall_nil_2; (split; [lit_ok|]); apply jout_ok_int, HC.
  - by apply jout_ok_int.
  - by apply jout_ok_int.
  - apply jout_ok_arr, Forall_fmap. eapply Forall_impl; [exact Hrs|]. intros x (? & ? & ? & ?). by apply jsonCheck_ok.
Qed.

Ltac plain_keys :=
  repeat match goal with |- context[string_of_runes (runes (bytes_of_string ?s))] =>
    change (string_of_runes (runes (bytes_of_string s))) with (bytes_of_string s) end.

(** What a reader finds in one element of [checks]. *)
Definition check_fields (r : Result) (j : json) : Prop :=
  (field (%"name") j ≫= as_string) = Some (utf8 (r_Name r)) ∧
  (field (%"status") j ≫= as_string) = Some (Status_String (r_Status r)) ∧
  (field (%"detail") j ≫= as_string) = Some (utf8 (Detail r)) ∧
  default [] (field (%"fix") j ≫= as_string) = utf8 (Fix r) ∧
  (field (%"elapsed_ms") j ≫= as_int) = Some (Milliseconds (Elapsed r)).

Lemma jsonCheck_fields r : 0 ≤ Elapsed r < 2 ^ 63 → check_fields r (decoded (jsonCheck r)).
Proof.
  intros He. pose proof (decoded_int _ (Milliseconds_range _ He)) as Hi. cbn [decoded] in Hi.
  unfold jsonCheck, check_fields. cbn [decoded]. rewrite !map_app. cbn [map fst snd decoded]. plain_keys.
  fold (utf8 (Status_String (r_Status r))). rewrite (proj2 (Status_String_bytes (r_Status r))).
  case_bool_decide as Hf.
  - rewrite Hf. by split_and!.
  - cbn [map fst snd decoded]. plain_keys. by split_and!.
Qed.

(** The JSON report reads back as the report.  What [WriteJSON] writes is one
    well-formed JSON document whatever bytes the texts hold; its exit_code is
    the exit code of the process, its counters are the numbers of results per
    status (so that exit_code is 2 exactly when failed is positive), and its
    checks are the results in order, each with its name, status, detail, fix
    and time, the texts as valid UTF-8. *)
Theorem WriteJSON_reads_back r :
  report_ok r →
  ∃ doc checks, json_parse (WriteJSON r) = Some doc ∧
    (field (%"exit_code") doc ≫= as_int) = Some (ExitCode r) ∧
    (field (%"duration_ms") doc ≫= as_int) = Some (Milliseconds (Duration r)) ∧
    (∀ k st, (k, st) ∈ [(%"passed", StatusPass); (%"failed", StatusFail); (%"warnings", StatusWarn);
                        (%"skipped", StatusSkip)] →
       ((field (%"summary") doc ≫= field k) ≫= as_int) = Some (countStatus st (Results r)) ∧
       (0 < countStatus st (Results r) ↔ ∃ x, x ∈ Results r ∧ r_Status x = st)) ∧
    (field (%"checks") doc ≫= as_raws) = Some checks ∧ Forall2 check_fields (Results r) checks.
Proof.
  intros Hok. exists (decoded (jsonDoc r)), (map decoded (map jsonCheck (Results r))).
  split; [by apply Encode_reads, (jsonDoc_ok 97)|]. destruct Hok as (Hrs & Hd & Hl).
  assert (∀ st, as_int (decoded (OInt (countStatus st (Results r)))) = Some (countStatus st (Results r))) as HC.
  { intros st. apply decoded_int. destruct (countStatus_spec st (Results r)) as [? _]. lia. }
  assert (as_int (decoded (OInt (ExitCode r))) = Some (ExitCode r)) as HE.
  { apply decoded_int. unfold ExitCode. repeat case_if; lia. }
  pose proof (decoded_int _ (Milliseconds_range _ Hd)) as HD.
  unfold jsonDoc. cbn [decoded map fst snd] in *. plain_keys. split; [exact HE|]. split; [exact HD|]. split; [|split; [done|]].
  - intros k st Hk. split; [|rewrite (proj2 (countStatus_spec st (Results r))); apply hasStatus_spec].
    set_unfold in Hk. destruct_or! Hk; injection Hk as -> ->; apply HC.
  - induction Hrs as [|x rs (_ & _ & _ & He) _ IH]; [constructor|]. constructor; [by apply jsonCheck_fields|].
    apply IH; cbn in *; [lia|]. intros st. by apply decoded_int; destruct (countStatus_spec st rs) as [? _]; lia.
Qed.

Lemma WriteJSON_reads_back_witness :
  let r := {| Results := [{| r_Name := %"Network"; r_Status := StatusFail; Detail := [60; 10; 0xFF]; Fix := []; Elapsed := 3000000 |}];
              Duration := 10 ^ 9 |} in
  ∃ doc, json_parse (WriteJSON r) = Some doc ∧ (field (%"exit_code") doc ≫= as_int) = Some 2.
Proof.
  intros r. destruct (WriteJSON_reads_back r) as (doc & checks & H1 & H2 & _).
  - split_and!; [|cbn; lia..]. constructor; [|constructor]. split_and!; [lit_ok..|cbn; lia|cbn; lia].
  - exists doc. split; [exact H1|exact H2].
Defined.
