(* ===== verification/DoctorChecks.v ===== *)
(** * internal/doctor/checks.go: the built-in checks

    Each check as the result it returns, a function of the configuration and of
    what the host answers: files, directories, the resolver, TCP and HTTP probes,
    the environment and the clock. *)
From S2P Require Import Prelude.
From S2P Require Import Float64.
From S2P Require Import Utf8.
From S2P Require Import Text.
From S2P Require Import Bech32.
From S2P Require Import Base58.
From S2P Require Import Poolproto.
From S2P Require Import Config.
From S2P Require Import EngineStats.
From S2P Require Import Quoting.
From S2P Require Import JsonOut.
From S2P Require Import EngineDial.
From S2P Require Import Daemon.
From S2P Require Import Doctor.
From Stdlib Require Import SpecFloat.

Open Scope Z_scope.

(** ** The host *)

Inductive statResult := StatNotExist | StatErr (e : error) | StatInfo (isDir : bool) (perm : Z).

Record machine := {
  w_host : host;                                         (* GOOS, home directory, environment for paths *)
  os_Stat : list Z → statResult;
  os_ReadFile : list Z → result (list Z);
  os_ReadDir : list Z → result (list (list Z));          (* names of the entries *)
  NumCPU : Z;
  AppendCertsFromPEM : list Z → bool;
  tcpDial : list Z → result Z;                           (* the time the connection took *)
  LookupHost : list Z → result (list (list Z));
  newRequest : result unit;
  clockProbe : result (list Z);                          (* the Date header of the answer *)
  ParseTime : list Z → result Z;
  now : Z;
  os_Getenv : string → list Z;
  ParseFloat : list Z → option float64;
  errText : error → list Z;                              (* err.Error() *)
  issuesText : list error → list Z;                      (* the error of Validate *)
  rangeMap : gmap (list Z) (list (list Z)) → list (list Z * list (list Z));
  uLower : list Z → list Z; uUpper : list Z → list Z; uPrint : Z → bool;
}.

(** ** Helpers *)

Definition isBech32Char (c : Z) : bool := bool_decide (c ∈ bech32Charset).
Definition isBase58Char (c : Z) : bool := bool_decide (c ∈ base58Alphabet).
Definition isLikelyBitcoinAddress (s : list Z) : bool :=
  let s := TrimSpace s in
  if (length s <? 26)%nat || (90 <? length s)%nat then false
  else if HasPrefix s (%"bc1") then forallb isBech32Char (runes (drop 3 s))
  else if HasPrefix s (%"1") || HasPrefix s (%"3") then forallb isBase58Char (runes (drop 1 s))
  else false.
Definition isFingerprint (s : list Z) : bool :=
  if negb (length s =? 8)%nat then false
  else forallb (λ c, ((48 <=? c) && (c <=? 57)) || ((97 <=? c) && (c <=? 102))) (runes s).
Definition maskAddress (s : list Z) : list Z :=
  if (length s <=? 10)%nat then s
  else take 6 s ++ concat (replicate 3 (%"·")) ++ drop (length s - 4) s.
Fixpoint firstCut (url : list Z) (ps : list (list Z)) : list Z :=
  match ps with
  | [] => []
  | p :: ps => match CutPrefix url p with Some rest => rest | None => firstCut url ps end
  end.
Definition stripScheme (url : list Z) : list Z :=
  firstCut url [%"stratum+v2tls://"; %"stratum+v2://"; %"stratum+tls://"; %"stratum+tcp://"].
Definition appendUnique (xs : list (list Z)) (s : list Z) : list (list Z) :=
  if bool_decide (s ∈ xs) then xs else xs ++ [s].

Definition res (st : Status) (detail fix_ : list Z) : Result :=
  {| r_Name := []; r_Status := st; Detail := detail; Fix := fix_; Elapsed := 0 |}.
Definition check (name : list Z) (r : Result) : Check := {| ck_Name := name; ck_Run := Returned r |}.
Definition ofNat (n : nat) : list Z := FormatInt (Z.of_nat n).

(** [%04o] of permission bits. *)
Definition octal4 (v : Z) : list Z := map (λ d, d + 48) (to_digits 8 4 v).

Notation ipMap := (gmap (list Z) (list (list Z))).

Section Checks.
Context (w : machine).
Notation q := (Quote (uPrint w)).

Definition checkConfig (cfg : Config) (path : list Z) : Result :=
  if bool_decide (path = []) then
    res StatusWarn (%"no config file found; using defaults and env vars")
      (%"create ~/.config/otedama/config.yaml (see config.yaml.example)")
  else match os_Stat w path with
  | StatNotExist | StatErr _ =>
      res StatusWarn (%"config file " ++ q path ++ %" not found")
        (%"pass --config /path/to/config.yaml or create the default file")
  | StatInfo _ _ =>
      match Validate (uLower w) (uUpper w) cfg with
      | [] => res StatusPass (%"loaded from " ++ path) []
      | issues => res StatusFail (%"config invalid: " ++ issuesText w issues)
                    (%"edit the config file or pass missing flags on the command line")
      end
  end.

Definition addressKind (addr : list Z) : list Z :=
  match ClassifyAddress (TrimSpace addr) with
  | AddressP2PKH => %"P2PKH legacy"
  | AddressP2SH => %"P2SH"
  | AddressP2WPKH => %"P2WPKH SegWit v0"
  | AddressP2WSH => %"P2WSH SegWit v0"
  | AddressP2TR => %"P2TR Taproot"
  | _ => %"unrecognized type"
  end.
Definition checkBitcoinAddress (addr : list Z) : Result :=
  if bool_decide (addr = []) then
    res StatusFail (%"no address configured") (%"pass --bitcoin-address bc1q... or set OTEDAMA_BITCOIN_ADDRESS")
  else if negb (isLikelyBitcoinAddress addr) then
    res StatusFail (q addr ++ %" does not look like a valid address")
      (%"verify the address — typos here would send your earnings to strangers")
  else match ValidateAddress (uLower w) (uUpper w) (TrimSpace addr) with
  | Err e =>
      res StatusFail (maskAddress addr ++ %": " ++ errText w e)
        (%"re-check the address character by character; the checksum does not match (likely a typo)")
  | Ok _ => res StatusPass (maskAddress addr ++ %" (" ++ addressKind addr ++ %", likely valid)") []
  end.

(** The loop of [checkFailoverAddresses], from index [i]. *)
Fixpoint failoverLoop (i : nat) (addrs : list (list Z)) : option Result :=
  match addrs with
  | [] => None
  | a :: rest =>
      if bool_decide (a = []) || negb (isLikelyBitcoinAddress a) then
        Some (res StatusFail (%"bitcoin_addresses[" ++ ofNat i ++ %"] " ++ q a ++ %" does not look valid")
                (%"verify every failover address — a typo would send earnings to strangers"))
      else match ValidateAddress (uLower w) (uUpper w) (TrimSpace a) with
      | Err e =>
          Some (res StatusFail (%"bitcoin_addresses[" ++ ofNat i ++ %"] " ++ maskAddress a ++ %": " ++ errText w e)
                  (%"re-check the failover address; its checksum does not match (likely a typo)"))
      | Ok _ => failoverLoop (S i) rest
      end
  end.
Definition checkFailoverAddresses (addrs : list (list Z)) : Result :=
  if bool_decide (addrs = []) then res StatusSkip (%"none configured") []
  else match failoverLoop 0 addrs with
  | Some r => r
  | None => res StatusPass (ofNat (length addrs) ++ %" failover address(es), all likely valid") []
  end.

(** Group or other may access the file. *)
Definition openPerm (perm : Z) : bool :=
  negb (bool_decide (GOOS (w_host w) = goosWindows)) && negb (Z.land perm 0x3F =? 0).

Definition checkDataDir (dir : list Z) : Result :=
  let dir := if bool_decide (dir = []) then DefaultDataDir (w_host w) else dir in
  if bool_decide (dir = []) then res StatusSkip (%"no home directory") []
  else match os_Stat w dir with
  | StatNotExist => res StatusWarn (dir ++ %" does not exist (will be created on first run)") []
  | StatErr e => res StatusFail (%"cannot stat " ++ dir ++ %": " ++ errText w e) (%"check filesystem permissions")
  | StatInfo isDir perm =>
      if negb isDir then res StatusFail (dir ++ %" is not a directory") (%"remove the file and restart Otedama")
      else if openPerm perm then
        res StatusWarn (dir ++ %" has permissions " ++ octal4 perm ++ %" (world/group readable)")
          (%"run: chmod 0700 " ++ dir)
      else res StatusPass (dir ++ %" (exists, writable)") []
  end.

Definition walletDatFile : list Z := %"wallet.dat".
Definition walletFingerprintFile : list Z := %"wallet.fingerprint".
Definition joinPath (elems : list (list Z)) : list Z :=
  if bool_decide (GOOS (w_host w) = goosWindows) then windowsJoin (w_host w) elems else filepath_Join elems.

Definition checkWallet (dataDir : list Z) : Result :=
  let dir := if bool_decide (dataDir = []) then DefaultDataDir (w_host w) else dataDir in
  if bool_decide (dir = []) then res StatusSkip (%"no home directory; cannot locate wallet") []
  else
    let walletPath := joinPath [dir; walletDatFile] in
    match os_Stat w walletPath with
    | StatNotExist =>
        res StatusWarn (%"no wallet found in " ++ dir)
          (%"set --wallet-passphrase or OTEDAMA_WALLET_PASSPHRASE to create a wallet on next run")
    | StatErr e =>
        res StatusFail (%"cannot stat " ++ walletPath ++ %": " ++ errText w e) (%"check filesystem permissions")
    | StatInfo _ perm =>
        if openPerm perm then
          res StatusWarn (walletPath ++ %" has permissions " ++ octal4 perm ++ %" (group/other readable)")
            (%"run: chmod 0600 " ++ walletPath)
        else match os_ReadFile w (joinPath [dir; walletFingerprintFile]) with
        | Err _ => res StatusPass (%"initialized (fingerprint file missing; re-run to regenerate)") []
        | Ok fp =>
            let fingerprint := TrimSpace fp in
            if negb (isFingerprint fingerprint)
            then res StatusPass (%"initialized (fingerprint file malformed; re-run to regenerate)") []
            else res StatusPass (%"initialized, fingerprint: " ++ fingerprint) []
        end
    end.

(** ** Pool reachability *)

Definition maxReachabilityProbes : nat := 8.
Record reachProbe := { p_host : list Z; latency : Z; p_err : option error; badURL : list Z }.
Definition zeroProbe : reachProbe := {| p_host := []; latency := 0; p_err := None; badURL := [] |}.

Definition dialProbe (host : list Z) : reachProbe :=
  match tcpDial w host with
  | Err e => {| p_host := host; latency := 0; p_err := Some e; badURL := [] |}
  | Ok d => {| p_host := host; latency := Duration_Round d (10 ^ 6); p_err := None; badURL := [] |}
  end.
Definition probe (u : list Z) : reachProbe :=
  let host := stripScheme (StripUserinfo u) in
  if bool_decide (host = []) then {| p_host := []; latency := 0; p_err := None; badURL := StripUserinfo u |}
  else dialProbe host.
(** The goroutines of [probePools]: one per URL with a host. *)
Definition probe_tasks (urls : list (list Z)) : list (task reachProbe) :=
  map (λ u, if bool_decide (stripScheme (StripUserinfo u) = []) then Here (probe u)
            else Spawn (λ r, r = probe u)) urls.
Definition probePools (urls : list (list Z)) : list reachProbe := map probe urls.

Definition classifyStep (acc : list (list Z) * list (list Z) * list (list Z)) (r : reachProbe) :=
  let '(reachable, unreachable, unparseable) := acc in
  if negb (bool_decide (badURL r = [])) then (reachable, unreachable, unparseable ++ [badURL r])
  else match p_err r with
  | Some e => (reachable, unreachable ++ [p_host r ++ %" (" ++ errText w e ++ %")"], unparseable)
  | None => (reachable ++ [p_host r ++ %" (" ++ Duration_String (latency r) ++ %")"], unreachable, unparseable)
  end.
Definition classifyProbes (results : list reachProbe) : list (list Z) * list (list Z) * list (list Z) :=
  foldl classifyStep ([], [], []) results.

Definition reachabilityResult (total : nat) (reachable unreachable unparseable : list (list Z)) : Result :=
  if bool_decide (reachable = []) && bool_decide (unreachable = []) then
    res StatusFail (%"cannot parse pool URL(s) " ++ q (strings_Join (%", ") unparseable))
      (%"check the pool URL in config.yaml")
  else if bool_decide (reachable = []) then
    res StatusFail (%"no pool reachable: " ++ strings_Join (%"; ") unreachable)
      (%"check internet connection or try a different pool")
  else if negb (bool_decide (unreachable = [])) || negb (bool_decide (unparseable = [])) then
    let parts :=
      (if bool_decide (unreachable = []) then [] else [%"unreachable: " ++ strings_Join (%"; ") unreachable]) ++
      (if bool_decide (unparseable = []) then [] else [%"unparseable: " ++ strings_Join (%", ") unparseable]) in
    res StatusWarn (ofNat (length reachable) ++ %"/" ++ ofNat total ++ %" pool(s) reachable (" ++
                    strings_Join (%", ") reachable ++ %") — " ++ strings_Join (%"; ") parts)
      (%"a dead failover pool is invisible until the primary fails; fix or remove the listed pool(s)")
  else res StatusPass (strings_Join (%", ") reachable) [].

Definition probedURLs (cfg : Config) : list (list Z) :=
  let urls := map URL (Pools cfg) in
  let urls := if bool_decide (urls = []) then [DefaultPoolURL] else urls in
  if (maxReachabilityProbes <? length urls)%nat then take maxReachabilityProbes urls else urls.
Definition checkPoolReachability (cfg : Config) : Result :=
  let urls := probedURLs cfg in
  let '(reachable, unreachable, unparseable) := classifyProbes (probePools urls) in
  reachabilityResult (length urls) reachable unreachable unparseable.

Definition checkPoolDiversity (cfg : Config) : Result :=
  match Pools cfg with
  | [] => res StatusWarn (%"using built-in default pool (no failover configured)")
            (%"add at least two pools under 'pools:' in config.yaml for automatic failover")
  | [p] => res StatusWarn (%"only one pool configured (" ++ StripUserinfo (URL p) ++ %") — no automatic failover")
             (%"add a second pool under 'pools:' in config.yaml; mining stops if this pool goes down")
  | ps => res StatusPass (ofNat (length ps) ++ %" pools configured; failover available") []
  end.

(** ** Pool endpoints *)

Definition poolIPResolver (host : list Z) : result (list (list Z)) :=
  LookupHost w (match SplitHostPort host with Ok hp => hp.1 | Err _ => host end).

Definition addIP (url : list Z) (m : ipMap) (ip : list Z) : ipMap :=
  <[ip := appendUnique (default [] (m !! ip)) (StripUserinfo url)]> m.
Definition resolveStep (acc : ipMap * nat) (p : PoolConfig) : ipMap * nat :=
  let '(m, resolved) := acc in
  let host := stripScheme (URL p) in
  if bool_decide (host = []) then (m, resolved)
  else match poolIPResolver host with
  | Err _ => (m, resolved)
  | Ok ips => (foldl (addIP (URL p)) m ips, S resolved)
  end.
Definition checkPoolEndpointDiversity (cfg : Config) : Result :=
  if (length (Pools cfg) <? 2)%nat then res StatusSkip (%"fewer than two pools configured") []
  else
    let '(ipToPools, resolved) := foldl resolveStep (∅, 0%nat) (Pools cfg) in
    if (resolved <? 2)%nat then res StatusSkip (%"could not resolve enough pool endpoints to compare") []
    else match List.find (λ e, (2 <=? length e.2)%nat) (rangeMap w ipToPools) with
    | Some (ip, urls) =>
        res StatusWarn (%"pools " ++ strings_Join (%", ") urls ++ %" resolve to the same endpoint " ++ ip ++
                        %" — failover is illusory")
          (%"configure pools run by different operators so one outage cannot take down both")
    | None => res StatusPass (ofNat resolved ++ %" pools resolve to distinct endpoints") []
    end.

Definition checkPoolEncryption (cfg : Config) : Result :=
  if bool_decide (Pools cfg = []) then res StatusSkip (%"using built-in default pool (encrypted)") []
  else
    let plaintext := map (λ p, stripScheme (StripUserinfo (URL p)))
                       (List.filter (λ p, HasPrefix (URL p) (%"stratum+tcp://")) (Pools cfg)) in
    if bool_decide (plaintext = []) then
      res StatusPass (%"all " ++ ofNat (length (Pools cfg)) ++ %" pool(s) use an encrypted transport") []
    else
      res StatusWarn (ofNat (length plaintext) ++ %" pool(s) use plaintext stratum+tcp:// (" ++
                      strings_Join (%", ") plaintext ++
                      %") — a network attacker can rewrite your payout address and steal earnings")
        (%"switch to stratum+tls:// (V1 over TLS), stratum+v2:// (encrypted), or stratum+v2tls://").

(** The loop of [checkPoolTLSCA]: the first problem, or the number of CA files. *)
Fixpoint tlsCALoop (configured : nat) (ps : list PoolConfig) : Result + nat :=
  match ps with
  | [] => inr configured
  | p :: ps =>
      if bool_decide (TLSCAFile p = []) then tlsCALoop configured ps
      else if negb (HasPrefix (URL p) (%"stratum+tls://")) && negb (HasPrefix (URL p) (%"stratum+v2tls://")) then
        inl (res StatusWarn (%"tls_ca_file set on " ++ stripScheme (StripUserinfo (URL p)) ++
               %" but only stratum+tls:// and stratum+v2tls:// honor it; it will be ignored")
               (%"remove tls_ca_file, or use a stratum+tls:// or stratum+v2tls:// URL for this pool"))
      else match os_ReadFile w (TLSCAFile p) with
      | Err e =>
          inl (res StatusFail (%"cannot read tls_ca_file " ++ q (TLSCAFile p) ++ %": " ++ errText w e)
                 (%"fix the path, or remove tls_ca_file to use the system root store"))
      | Ok pem =>
          if negb (AppendCertsFromPEM w pem) then
            inl (res StatusFail (%"tls_ca_file " ++ q (TLSCAFile p) ++ %" contains no valid PEM certificates")
                   (%"ensure the file is a PEM-encoded certificate bundle"))
          else tlsCALoop (S configured) ps
      end
  end.
Definition checkPoolTLSCA (cfg : Config) : Result :=
  match tlsCALoop 0 (Pools cfg) with
  | inl r => r
  | inr 0%nat => res StatusSkip (%"no pool sets tls_ca_file") []
  | inr n => res StatusPass (ofNat n ++ %" pool CA file(s) valid") []
  end.

(** ** Settings *)

Definition checkPowerEconomics (cfg : Config) : Result :=
  let hasW := flt fzero (PowerWatts cfg) in
  let hasP := flt fzero (ElectricityPricePerKWh cfg) in
  if negb hasW && negb hasP then
    res StatusSkip (%"power_watts and electricity_price_per_kwh unset (efficiency/cost metrics off)") []
  else if hasW && hasP then
    res StatusPass (%"power_watts and electricity_price_per_kwh both set; J/TH and power-cost metrics available") []
  else if hasW then
    res StatusWarn (%"power_watts is set but electricity_price_per_kwh is not — otedama_power_cost_usd_per_hour cannot be computed (J/TH still works)")
      (%"set electricity_price_per_kwh to see power cost and net profit")
  else
    res StatusWarn (%"electricity_price_per_kwh is set but power_watts is not — it has no effect (no J/TH, no power cost)")
      (%"set power_watts (your measured wattage) to enable the efficiency and cost metrics").

(** The texts of [config.EnvWarnings]. *)
Definition envWarning (key : string) : list Z :=
  bytes_of_string key ++ %"=" ++ q (os_Getenv w key) ++ %" is not a valid number; ignoring it and using the default".
Definition checkEnvVars : Result :=
  match EnvWarnings (os_Getenv w) (ParseFloat w) with
  | [] => res StatusPass (%"no malformed OTEDAMA_* numeric environment variables") []
  | keys => res StatusWarn (strings_Join (%"; ") (map envWarning keys))
              (%"correct or unset the listed variable(s); a malformed value is ignored and the default is used")
  end.

Definition checkProfitabilityFloor (cfg : Config) : Result :=
  if feq (cfg_MinYieldSatsPerSec cfg) fzero then
    res StatusSkip (%"min_yield_sats_per_sec unset (0); every positive-yield stream qualifies") []
  else
    res StatusPass (%"min_yield_sats_per_sec = " ++ Sprintf_pg 4 (cfg_MinYieldSatsPerSec cfg) ++
                    %" sat/s; devices whose best stream yields less will idle")
      (%"if more devices idle than you expect, watch the otedama_devices_idle metric and lower the floor").

Definition schemeLine (p : PoolConfig) : list Z * bool :=
  let host := stripScheme (URL p) in
  let host := if bool_decide (host = []) then StripUserinfo (URL p) else host in
  if bool_decide (PayoutScheme p = %"fpps") then
    (host ++ %": FPPS — smooth payouts, pool absorbs variance (typically higher fee)", false)
  else if bool_decide (PayoutScheme p = %"pplns") then
    (host ++ %": PPLNS — lower fee, miner absorbs variance; expect payout variability", false)
  else if bool_decide (PayoutScheme p = %"tides") then
    (host ++ %": TIDES — non-custodial coinbase payouts (OCEAN); best alignment with Otedama's sovereignty stance", false)
  else if bool_decide (PayoutScheme p = %"solo") then
    (host ++ %": Solo — full block reward or nothing; only viable for large miners", false)
  else (host ++ %": scheme not set", true).
Definition checkPayoutScheme (cfg : Config) : Result :=
  if bool_decide (Pools cfg = []) then res StatusSkip (%"no pools configured; using built-in default") []
  else
    let ls := map schemeLine (Pools cfg) in
    res StatusPass (strings_Join (%"; ") (map fst ls))
      (if existsb snd ls then %"set payout_scheme: fpps/pplns/tides/solo in config.yaml for variance/custody context"
       else []).

(** ** Hardware, network, clock *)

Definition gpuDRMPath : list Z := %"/sys/class/drm".
Definition checkHardware : Result :=
  let detail := FormatInt (NumCPU w) ++ %"-core CPU" in
  if bool_decide (GOOS (w_host w) = goosLinux) then
    match os_ReadDir w gpuDRMPath with
    | Err _ => res StatusPass detail []
    | Ok entries =>
        let gpus := length (List.filter (λ e, HasPrefix e (%"renderD")) entries) in
        if (0 <? gpus)%nat then res StatusPass (detail ++ %", " ++ ofNat gpus ++ %" GPU(s) detected") []
        else res StatusPass (detail ++ %", no GPU detected")
               (%"hashrate today comes entirely from the CPU; a GPU would not increase it (no compute dispatch is implemented yet — see docs/KNOWN_LIMITATIONS.md)")
    end
  else res StatusPass detail [].

Definition networkCheckEndpoint : list Z := %"1.1.1.1:53".
Definition checkNetwork : Result :=
  match tcpDial w networkCheckEndpoint with
  | Err e => res StatusFail (%"cannot reach " ++ networkCheckEndpoint ++ %": " ++ errText w e)
               (%"check your firewall, proxy, or VPN")
  | Ok _ => res StatusPass (%"IPv4 OK") []
  end.

Definition clockSkewWarnSecs : float64 := f64_of_Z 120.
Definition clockSkewFailSecs : float64 := f64_of_Z 300.
(** [time.Since(t)], which saturates. *)
Definition timeSince (t : Z) : Z := Z.max (- 2 ^ 63) (Z.min (2 ^ 63 - 1) (now w - t)).
Definition checkClockSkew : Result :=
  match newRequest w with
  | Err e => res StatusWarn (%"could not build request: " ++ errText w e) (%"this is an internal error; report it")
  | Ok _ =>
      match clockProbe w with
      | Err e => res StatusWarn (%"cannot reach clock probe endpoint: " ++ errText w e)
                   (%"check internet connectivity; re-run when online to verify clock accuracy")
      | Ok dateHdr =>
          if bool_decide (dateHdr = []) then
            res StatusWarn (%"server returned no Date header; cannot measure clock skew")
              (%"try again; if persistent, the probe endpoint may have changed")
          else match ParseTime w dateHdr with
          | Err e => res StatusWarn (%"cannot parse server Date header " ++ q dateHdr ++ %": " ++ errText w e)
                       (%"try again; if persistent, the probe endpoint date format may have changed")
          | Ok serverTime =>
              let skew := SFabs (durSeconds (timeSince serverTime)) in
              let f0 := Sprintf_f 0 in
              if flt clockSkewFailSecs skew then
                res StatusFail (%"local clock is " ++ f0 skew ++ %" s off server time (threshold " ++ f0 clockSkewFailSecs ++ %" s)")
                  (%"synchronize your system clock (e.g. `timedatectl set-ntp true` on Linux, " ++
                   %"`w32tm /resync` on Windows). Skew >" ++ f0 clockSkewFailSecs ++ %" s breaks TLS certificate " ++
                   %"validation and mining nTime checks.")
              else if flt clockSkewWarnSecs skew then
                res StatusWarn (%"local clock is " ++ f0 skew ++ %" s off server time (warn threshold " ++ f0 clockSkewWarnSecs ++ %" s)")
                  (%"synchronize your system clock; skew above 120 s may cause TLS errors or stale rate judgements")
              else res StatusPass (%"clock skew " ++ Sprintf_f 1 skew ++ %" s (within " ++ f0 clockSkewWarnSecs ++ %" s threshold)") []
          end
      end
  end.

Definition DefaultChecks (cfg : Config) (configPath : list Z) : list Check :=
  [check (%"Configuration") (checkConfig cfg configPath);
   check (%"Bitcoin address") (checkBitcoinAddress (Config.BitcoinAddress cfg));
   check (%"Failover payout addresses") (checkFailoverAddresses (BitcoinAddresses cfg));
   check (%"Data directory") (checkDataDir (DataDir cfg));
   check (%"Lightning wallet") (checkWallet (DataDir cfg));
   check (%"Pool reachability") (checkPoolReachability cfg);
   check (%"Pool diversity") (checkPoolDiversity cfg);
   check (%"Pool endpoint diversity") (checkPoolEndpointDiversity cfg);
   check (%"Pool connection encryption") (checkPoolEncryption cfg);
   check (%"Pool TLS CA files") (checkPoolTLSCA cfg);
   check (%"Pool payout schemes") (checkPayoutScheme cfg);
   check (%"Power & cost config") (checkPowerEconomics cfg);
   check (%"Profitability floor") (checkProfitabilityFloor cfg);
   check (%"Hardware") checkHardware;
   check (%"Network") checkNetwork;
   check (%"System clock accuracy") checkClockSkew;
   check (%"Environment variables") checkEnvVars].
End Checks.

(** * Addresses *)

(** [strings.ToUpper] does not return a text with a lower-case prefix unchanged. *)
Definition upper_law (up : list Z → list Z) : Prop := ∀ s, HasPrefix s (%"bc1") = true → up s ≠ s.

Lemma symbol_in_charset v : sym_ok v → symbol v ∈ bech32Charset ∧ graphic (symbol v).
Proof.
  intros Hv. pose proof (forallb_words 32
    (λ v, bool_decide (symbol v ∈ bech32Charset) && (32 <? symbol v) && (symbol v <? 127)) ltac:(vm_compute; done) v Hv) as H.
  cbv beta in H. rewrite !andb_true_iff, bool_decide_eq_true in H. unfold graphic. destruct H as [[? ?] ?]. split; [done|lia].
Qed.
Lemma b58char_in_alphabet v : 0 ≤ v < 58 → b58char v ∈ base58Alphabet ∧ graphic (b58char v).
Proof.
  intros Hv. pose proof (forallb_words 58
    (λ v, bool_decide (b58char v ∈ base58Alphabet) && (32 <? b58char v) && (b58char v <? 127)) ltac:(vm_compute; done) v Hv) as H.
  cbv beta in H. rewrite !andb_true_iff, bool_decide_eq_true in H. unfold graphic. destruct H as [[? ?] ?]. split; [done|lia].
Qed.

(** An accepted address consists of characters of its alphabet. *)
Lemma bech32_chars lo up s t :
  upper_law up → HasPrefix s (%"bc1") = true → ValidateBech32Address lo up s = Ok t →
  ∃ data, Forall sym_ok data ∧ s = %"bc1" ++ map symbol data.
Proof.
  intros Hup Hp Hv. unfold ValidateBech32Address in Hv.
  destruct (decodeBech32String lo up s) as [data|] eqn:E; [|done].
  apply decodeBech32String_spec in E as ((_ & Hcase) & _ & _ & Hok & Hl).
  assert (s = ToLower lo s) as Hs.
  { destruct Hcase as [?|Hu]; [done|]. exfalso. unfold ToUpper in Hu. destruct (is_ascii s); [|by eapply Hup].
    rewrite (HasPrefix_app _ _ Hp) in Hu. by vm_compute in Hu. }
  exists data. split; [done|]. congruence.
Qed.
Lemma base58_chars s t :
  ValidateBase58Address s = Ok t → ∃ ds, digits_ok 58 ds ∧ s = map b58char ds.
Proof.
  unfold ValidateBase58Address. destruct (_ || _); [done|]. unfold base58Decode.
  destruct (base58_value s 0) as [v|] eqn:E; [|done]. intros _.
  apply base58_value_spec in E as (ds & Hd & -> & _). by exists ds.
Qed.

Lemma runes_graphic s : Forall graphic s → runes s = s.
Proof.
  intros Hs. destruct (chunks_spec s) as (_ & _ & <-).
  - eapply Forall_impl; [exact Hs|]. unfold graphic, byte_ok. change (2 ^ 8) with 256. lia.
  - rewrite chunks_ascii by (eapply Forall_impl; [exact Hs|unfold graphic; lia]). rewrite map_map. apply map_id.
Qed.

(** The configuration's validator accepts only what the cheap check of the
    doctor lets through, and nothing with blanks around it. *)
Lemma validated_likely lo up s :
  upper_law up → validateBitcoinAddress lo up s = Ok () →
  TrimSpace s = s ∧ isLikelyBitcoinAddress s = true ∧ ∃ t, ValidateAddress lo up s = Ok t.
Proof.
  intros Hup. unfold validateBitcoinAddress.
  destruct (length s <? 26)%nat eqn:E1; [done|]. destruct (90 <? length s)%nat eqn:E2; [done|].
  destruct (_ || _) eqn:Ep; [|done]. destruct (ValidateAddress lo up s) as [t|] eqn:Ev; [|done]. intros _.
  apply ValidateAddress_spec in Ev as [Hb|Hb].
  - destruct (HasPrefix s (%"bc1")) eqn:Ebc.
    + destruct (bech32_chars lo up s t Hup Ebc Hb) as (data & Hok & Hs).
      assert (Forall graphic (map symbol data)) as Hg.
      { apply Forall_fmap. eapply Forall_impl; [exact Hok|]. intros v Hv. by apply symbol_in_charset. }
      assert (TrimSpace s = s) as Ht.
      { apply TrimSpace_graphic. rewrite Hs. apply Forall_app. split; [|done]. vm_compute. repeat constructor. }
      split; [done|]. split; [|eauto]. unfold isLikelyBitcoinAddress. rewrite Ht, E1, E2, Ebc. cbn [orb].
      rewrite Hs. change (drop 3 (%"bc1" ++ map symbol data)) with (map symbol data). rewrite runes_graphic by done.
      apply forallb_forall. intros c Hc. apply in_map_iff in Hc as (v & <- & Hv%list_elem_of_In).
      rewrite Forall_forall in Hok. apply bool_decide_eq_true. by apply symbol_in_charset, Hok.
    + exfalso. unfold ValidateBech32Address, decodeBech32String in Hb. rewrite Ebc in Hb.
      assert (HasPrefix s (%"BC1") = false) as E.
      { rewrite orb_false_r in Ep. apply orb_true_iff in Ep as [E|E]; by rewrite (HasPrefix_app _ _ E). }
      by rewrite E in Hb.
  - destruct (base58_chars s t Hb) as (ds & Hok & Hs). destruct (ValidateBase58Address_prefix _ _ Hb) as (c & rest & Ec & Hc).
    assert (Forall graphic s ∧ Forall (λ c, c ∈ base58Alphabet) s) as [Hg Hin].
    { rewrite Hs. split; apply Forall_fmap; (eapply Forall_impl; [exact Hok|]); intros v Hv; by apply b58char_in_alphabet. }
    split; [by apply TrimSpace_graphic|]. split; [|eauto]. unfold isLikelyBitcoinAddress.
    rewrite TrimSpace_graphic, E1, E2 by done. cbn [orb].
    assert (HasPrefix s (%"bc1") = false ∧ HasPrefix s (%"1") || HasPrefix s (%"3") = true) as [-> ->].
    { rewrite Ec. by destruct Hc as [-> | ->]. }
    rewrite runes_graphic by (by apply Forall_drop). apply forallb_forall. intros x Hx%list_elem_of_In.
    apply bool_decide_eq_true. pose proof (Forall_drop _ 1 _ Hin) as HD. rewrite Forall_forall in HD. by apply HD.
Qed.

Lemma likely_valid_validated lo up s t :
  isLikelyBitcoinAddress s = true → ValidateAddress lo up (TrimSpace s) = Ok t →
  validateBitcoinAddress lo up (TrimSpace s) = Ok ().
Proof.
  unfold isLikelyBitcoinAddress, validateBitcoinAddress. intros Hl ->.
  destruct (length (TrimSpace s) <? 26)%nat; [done|]. destruct (90 <? length (TrimSpace s))%nat; [done|]. cbn [orb] in Hl.
  by destruct (HasPrefix (TrimSpace s) (%"bc1")), (HasPrefix (TrimSpace s) (%"1")), (HasPrefix (TrimSpace s) (%"3")).
Qed.

Lemma TrimSpace_nil : TrimSpace [] = [].
Proof. done. Qed.

(** The doctor on one address, in terms of the configuration's validator. *)
Lemma address_pass w addr :
  upper_law (uUpper w) →
  r_Status (checkBitcoinAddress w addr) = StatusPass ↔
  validateBitcoinAddress (uLower w) (uUpper w) (TrimSpace addr) = Ok ().
Proof.
  intros Hup. unfold checkBitcoinAddress. split.
  - case_bool_decide; [done|]. destruct (isLikelyBitcoinAddress addr) eqn:El; [|done]. cbn [negb].
    destruct (ValidateAddress _ _ _) as [t|] eqn:Ev; [|done]. intros _. by eapply likely_valid_validated.
  - intros Hv. case_bool_decide as Ha; [subst; done|].
    destruct (validated_likely _ _ _ Hup Hv) as (Ht & Hl & t & Hva).
    assert (isLikelyBitcoinAddress addr = true) as ->.
    { unfold isLikelyBitcoinAddress in *. by rewrite Ht in Hl. }
    cbn [negb]. by rewrite Hva.
Qed.

Lemma address_fails w addr : r_Status (checkBitcoinAddress w addr) ≠ StatusPass → r_Status (checkBitcoinAddress w addr) = StatusFail.
Proof. unfold checkBitcoinAddress. repeat case_match; done. Qed.

Lemma failoverLoop_spec w i addrs :
  upper_law (uUpper w) →
  match failoverLoop w i addrs with
  | Some r => r_Status r = StatusFail ∧
      ¬ Forall (λ a, validateBitcoinAddress (uLower w) (uUpper w) (TrimSpace a) = Ok ()) addrs
  | None => Forall (λ a, validateBitcoinAddress (uLower w) (uUpper w) (TrimSpace a) = Ok ()) addrs
  end.
Proof.
  intros Hup. revert i. induction addrs as [|a addrs IH]; intros i; cbn [failoverLoop]; [done|].
  pose proof (address_pass w a Hup) as HA. unfold checkBitcoinAddress in HA.
  destruct (bool_decide (a = [])); [|destruct (isLikelyBitcoinAddress a)]; cbn [orb negb] in *.
  - split; [done|]. intros [Ha _]%Forall_cons. by apply HA in Ha.
  - destruct (ValidateAddress _ _ (TrimSpace a)) as [t|e].
    + specialize (IH (S i)). pose proof (proj1 HA eq_refl). destruct (failoverLoop w (S i) addrs).
      * destruct IH as [? Hno]. split; [done|]. by intros [_ ?]%Forall_cons.
      * by constructor.
    + split; [done|]. intros [Ha _]%Forall_cons. by apply HA in Ha.
  - split; [done|]. intros [Ha _]%Forall_cons. by apply HA in Ha.
Qed.

(** The failover check passes, skips or fails, and fails exactly when some
    failover address would be refused. *)
Lemma failover_fail w addrs :
  upper_law (uUpper w) →
  r_Status (checkFailoverAddresses w addrs) ≠ StatusFail ↔
  Forall (λ a, validateBitcoinAddress (uLower w) (uUpper w) (TrimSpace a) = Ok ()) addrs.
Proof.
  intros Hup. unfold checkFailoverAddresses. case_bool_decide as E; [subst; done|].
  pose proof (failoverLoop_spec w 0 addrs Hup) as H. destruct (failoverLoop w 0 addrs) as [r|]; [|done].
  destruct H as [-> H]. split; done.
Qed.

(** * Reachability *)

Section Reachability.
Context (w : machine).

Definition answers (u : list Z) : Prop :=
  stripScheme (StripUserinfo u) ≠ [] ∧ ∃ d, tcpDial w (stripScheme (StripUserinfo u)) = Ok d.

(** The concurrent prober stores one probe per URL, in order, whatever the
    schedule. *)
Lemma probePools_any_schedule urls s :
  rtc (fillStep (probe_tasks w urls)) (fill0 zeroProbe (probe_tasks w urls)) s → waited (probe_tasks w urls) s →
  slots s = probePools w urls.
Proof.
  intros Hr Hw. pose proof (filled _ _ _ Hr Hw) as H. clear -H. revert H. generalize (slots s). clear s.
  unfold probe_tasks, probePools. induction urls as [|u urls IH]; intros rs H; inversion H as [|? r ? rs' Hp HR]; subst; [done|].
  cbn [map]. f_equal; [|by apply IH]. by case_bool_decide.
Qed.

Definition isBad (r : reachProbe) : bool := negb (bool_decide (badURL r = [])).
Definition isDown (r : reachProbe) : bool := negb (isBad r) && bool_decide (is_Some (p_err r)).
Definition isUp (r : reachProbe) : bool := negb (isBad r) && negb (bool_decide (is_Some (p_err r))).

Lemma classify_empty rs a b c reach unreach unparse :
  foldl (classifyStep w) (a, b, c) rs = (reach, unreach, unparse) →
  (reach = [] ↔ a = [] ∧ Forall (λ r, isUp r = false) rs) ∧
  (unreach = [] ↔ b = [] ∧ Forall (λ r, isDown r = false) rs) ∧
  (unparse = [] ↔ c = [] ∧ Forall (λ r, isBad r = false) rs).
Proof.
  revert a b c. induction rs as [|r rs IH]; intros a b c; cbn [foldl].
  - intros [= -> -> ->]. split_and!; rewrite Forall_nil; tauto.
  - unfold classifyStep at 2. unfold isUp, isDown, isBad in *. rewrite !Forall_cons.
    destruct (bool_decide (badURL r = [])) eqn:Eb; cbn [negb andb].
    + destruct (p_err r) as [e|]; intros (H1 & H2 & H3)%IH; rewrite H1, H2, H3, ?app_nil; cbn; naive_solver.
    + intros (H1 & H2 & H3)%IH; rewrite H1, H2, H3, ?app_nil; cbn; naive_solver.
Qed.

Lemma StripUserinfo_nil u : StripUserinfo u = [] → u = [].
Proof.
  unfold StripUserinfo. destruct (Index u _) as [i|] eqn:E; [|done]. cbv zeta.
  assert (∀ x, take (i + 3) u ++ x = [] → u = []) as H.
  { intros x Hx. apply app_nil in Hx as [Hx _]. apply (f_equal length) in Hx. rewrite length_take in Hx.
    cbn in Hx. destruct u; [done|]. cbn in Hx. lia. }
  repeat case_match; eauto.
Qed.

Lemma probe_kind u :
  (isUp (probe w u) = true ↔ answers u ∨ u = []) ∧
  (isBad (probe w u) = true ↔ u ≠ [] ∧ stripScheme (StripUserinfo u) = []).
Proof.
  unfold probe, answers, isUp, isBad, dialProbe.
  destruct (bool_decide_reflect (stripScheme (StripUserinfo u) = [])) as [E|E].
  - cbn. destruct (bool_decide_reflect (StripUserinfo u = [])) as [E2|E2].
    + apply StripUserinfo_nil in E2. cbn. split; [split; [by right|done]|split; [done|tauto]].
    + cbn. assert (u ≠ []) by (intros ->; done). naive_solver.
  - assert (u ≠ []) by (intros ->; by apply E).
    destruct (tcpDial w _) as [d|e]; cbn.
    + split; [split; [left; eauto|done]|split; [done|tauto]].
    + split; [split; [done|intros [[_ [? ?]]|?]; done]|split; [done|tauto]].
Qed.

(** The verdict on reachability: a pass when every probed pool answered, a
    failure when none did, a warning otherwise.  A pool with an empty URL
    counts as reachable. *)
Lemma reachability_status cfg :
  let up u := answers u ∨ u = [] in
  let st := r_Status (checkPoolReachability w cfg) in
  (st = StatusPass ↔ ∀ u, u ∈ probedURLs cfg → up u) ∧
  (st = StatusFail ↔ ∀ u, u ∈ probedURLs cfg → ¬ up u) ∧ st ≠ StatusSkip.
Proof.
  cbv zeta. unfold checkPoolReachability, classifyProbes, probePools.
  assert (probedURLs cfg ≠ []) as Hne.
  { unfold probedURLs. case_bool_decide as E; [done|]. destruct (map URL (Pools cfg)); [done|]. by case_if. }
  destruct (foldl _ _ _) as [[reach unreach] unparse] eqn:EC. apply classify_empty in EC as (H1 & H2 & H3).
  rewrite !Forall_map, !Forall_forall in *. cbn in *.
  assert (reach = [] ↔ ∀ u, u ∈ probedURLs cfg → ¬ (answers u ∨ u = [])) as R1.
  { rewrite H1. split.
    - intros [_ H] u Hu Ha. specialize (H u Hu). by rewrite (proj2 (proj1 (probe_kind u)) Ha) in H.
    - intros H. split; [done|]. intros u Hu. apply not_true_is_false. intros Hb. by apply (H u Hu), probe_kind. }
  assert (unreach = [] ∧ unparse = [] ↔ ∀ u, u ∈ probedURLs cfg → answers u ∨ u = []) as R2.
  { rewrite H2, H3. split.
    - intros [[_ Hd] [_ Hb]] u Hu. specialize (Hd u Hu). specialize (Hb u Hu). apply probe_kind. unfold isUp, isDown in *.
      rewrite Hb in *. cbn in *. by rewrite Hd.
    - intros H. split; (split; [done|]); intros u Hu; specialize (H u Hu); apply probe_kind in H; unfold isUp, isDown in *;
        destruct (isBad (probe w u)), (bool_decide _); done. }
  assert (reach = [] → unreach = [] → unparse = [] → False) as R3.
  { intros E1 E2 E3. destruct (probedURLs cfg) as [|u us]; [done|].
    eapply (proj1 R1 E1 u), (proj1 R2 (conj E2 E3) u); by left. }
  unfold reachabilityResult. rewrite <-R1, <-R2.
  destruct (bool_decide_reflect (reach = [])), (bool_decide_reflect (unreach = [])), (bool_decide_reflect (unparse = []));
    cbn; split_and!; try done; split; try done; try tauto; naive_solver.
Qed.
End Reachability.

(** * Endpoints *)

Section Endpoints.
Context (w : machine) (Hrange : ∀ m, rangeMap w m ≡ₚ map_to_list m).

Definition resolvesTo (p : PoolConfig) (ip : list Z) : Prop :=
  stripScheme (URL p) ≠ [] ∧ ∃ ips, poolIPResolver w (stripScheme (URL p)) = Ok ips ∧ ip ∈ ips.
Definition resolves (p : PoolConfig) : bool :=
  negb (bool_decide (stripScheme (URL p) = [])) &&
  match poolIPResolver w (stripScheme (URL p)) with Ok _ => true | Err _ => false end.
Definition poolsAt (m : ipMap) (ip : list Z) : list (list Z) := default [] (m !! ip).

Lemma addIP_spec url ips m ip :
  let m' := foldl (addIP url) m ips in
  (∀ u, u ∈ poolsAt m' ip ↔ u ∈ poolsAt m ip ∨ (ip ∈ ips ∧ u = StripUserinfo url)) ∧
  (NoDup (poolsAt m ip) → NoDup (poolsAt m' ip)).
Proof.
  cbv zeta. revert m. induction ips as [|i ips IH]; intros m; cbn [foldl]; [set_solver|].
  destruct (IH (addIP url m i)) as [H1 H2].
  assert (∀ u, u ∈ poolsAt (addIP url m i) ip ↔ u ∈ poolsAt m ip ∨ (ip = i ∧ u = StripUserinfo url)) as HA.
  { intros u. unfold addIP, poolsAt, appendUnique. destruct (decide (i = ip)) as [->|Hne].
    - rewrite lookup_insert. case_decide; [|done]. cbn [default]. case_bool_decide; set_solver.
    - rewrite lookup_insert_ne by done. naive_solver. }
  split.
  - intros u. rewrite H1, HA. set_solver.
  - intros Hn. apply H2. clear -Hn. unfold addIP, poolsAt, appendUnique in *. destruct (decide (i = ip)) as [->|Hne].
    + rewrite lookup_insert. case_decide; [|done]. cbn [default]. case_bool_decide; [done|]. apply NoDup_app.
      split; [done|]. split; [set_solver|apply NoDup_singleton].
    + by rewrite lookup_insert_ne.
Qed.

Lemma resolve_spec ps m n ip :
  let '(m', n') := foldl (resolveStep w) (m, n) ps in
  (∀ u, u ∈ poolsAt m' ip ↔ u ∈ poolsAt m ip ∨ ∃ p, p ∈ ps ∧ resolvesTo p ip ∧ u = StripUserinfo (URL p)) ∧
  (NoDup (poolsAt m ip) → NoDup (poolsAt m' ip)) ∧ n' = (n + length (List.filter resolves ps))%nat.
Proof.
  revert m n. induction ps as [|p ps IH]; intros m n; cbn [foldl List.filter]; [cbn; split_and!; [set_solver|done|lia]|].
  unfold resolveStep at 2. unfold resolves at 1.
  assert (∀ p0, p0 ∈ p :: ps ↔ p0 = p ∨ p0 ∈ ps) as Hcons by set_solver.
  case_bool_decide as E; cbn [negb andb].
  - specialize (IH m n). destruct (foldl _ _ ps) as [m' n']. destruct IH as (H1 & H2 & H3). split_and!; [|done|done].
    intros u. rewrite H1. setoid_rewrite Hcons. split; [|intros [?|(p0 & [->|?] & Hr & ->)]; [by left|by destruct Hr|right; by exists p0]].
    intros [?|(p0 & ? & ? & ->)]; [by left|right]. exists p0. auto.
  - destruct (poolIPResolver w _) as [ips|e] eqn:ER.
    + specialize (IH (foldl (addIP (URL p)) m ips) (S n)). destruct (foldl _ _ ps) as [m' n'].
      destruct IH as (H1 & H2 & H3). destruct (addIP_spec (URL p) ips m ip) as [A1 A2]. split_and!.
      * intros u. rewrite H1, A1. setoid_rewrite Hcons. split.
        -- intros [[?|[? ->]]|(p0 & ? & ? & ->)]; [by left|right; exists p; unfold resolvesTo; eauto 10|right; exists p0; auto].
        -- intros [?|(p0 & [->|?] & Hr & ->)]; [by left; left| |right; by exists p0].
           destruct Hr as (_ & ips' & Hi & ?). rewrite ER in Hi. apply Ok_inj in Hi as <-. left. by right.
      * auto.
      * cbn [length]. lia.
    + specialize (IH m n). destruct (foldl _ _ ps) as [m' n']. destruct IH as (H1 & H2 & H3). split_and!; [|done|done].
      intros u. rewrite H1. setoid_rewrite Hcons. split.
      * intros [?|(p0 & ? & ? & ->)]; [by left|right]. exists p0. auto.
      * intros [?|(p0 & [->|?] & Hr & ->)]; [by left| |right; by exists p0]. destruct Hr as (_ & ? & Hi & _). congruence.
Qed.

Lemma NoDup_two {A} (l : list A) : NoDup l → (2 ≤ length l)%nat ↔ ∃ x y, x ∈ l ∧ y ∈ l ∧ x ≠ y.
Proof.
  intros Hn. split.
  - destruct l as [|x [|y l]]; cbn; [lia|lia|]. intros _. exists x, y. apply NoDup_cons in Hn as [Hx _]. set_solver.
  - intros (x & y & Hx & Hy & Hxy). destruct l as [|a [|b l]]; cbn; [set_solver|set_solver|lia].
Qed.

(** Two pools shown differently share an address. *)
Definition sharedEndpoint (ps : list PoolConfig) : Prop :=
  ∃ ip p1 p2, p1 ∈ ps ∧ p2 ∈ ps ∧ resolvesTo p1 ip ∧ resolvesTo p2 ip ∧
    StripUserinfo (URL p1) ≠ StripUserinfo (URL p2).

(** The verdict does not depend on the order in which Go visits the map. *)
Lemma endpoint_status cfg :
  let st := r_Status (checkPoolEndpointDiversity w cfg) in
  (st = StatusWarn ↔ (2 ≤ length (List.filter resolves (Pools cfg)))%nat ∧ sharedEndpoint (Pools cfg)) ∧
  st ≠ StatusFail.
Proof.
  cbv zeta. unfold checkPoolEndpointDiversity.
  assert (length (List.filter resolves (Pools cfg)) ≤ length (Pools cfg))%nat as Hle by (apply filter_length_le).
  destruct (length (Pools cfg) <? 2)%nat eqn:E2; zbool; [split; [split; [done|intros [? _]; lia]|done]|].
  destruct (foldl _ _ _) as [m n] eqn:EF. pose proof (λ ip, resolve_spec (Pools cfg) ∅ 0%nat ip) as HS. rewrite EF in HS.
  assert (n = length (List.filter resolves (Pools cfg))) as -> by apply (HS []).
  destruct (_ <? 2)%nat eqn:E3; zbool; [split; [split; [done|intros [? _]; lia]|done]|].
  assert (∀ ip, (2 ≤ length (poolsAt m ip))%nat ↔ ∃ p1 p2, p1 ∈ Pools cfg ∧ p2 ∈ Pools cfg ∧ resolvesTo p1 ip ∧
    resolvesTo p2 ip ∧ StripUserinfo (URL p1) ≠ StripUserinfo (URL p2)) as H2.
  { intros ip. destruct (HS ip) as (H1 & HN & _). rewrite NoDup_two by (apply HN; unfold poolsAt; by rewrite lookup_empty, NoDup_nil).
    assert (∀ u, u ∈ poolsAt m ip ↔ ∃ p, p ∈ Pools cfg ∧ resolvesTo p ip ∧ u = StripUserinfo (URL p)) as H1'.
    { intros u. rewrite H1. unfold poolsAt. rewrite lookup_empty. cbn. set_solver. }
    split.
    - intros (x & y & (p1 & ? & ? & ->)%H1' & (p2 & ? & ? & ->)%H1' & ?). exists p1, p2. auto.
    - intros (p1 & p2 & ? & ? & ? & ? & ?). exists (StripUserinfo (URL p1)), (StripUserinfo (URL p2)).
      split_and!; [apply H1'; by exists p1|apply H1'; by exists p2|done]. }
  destruct (List.find _ _) as [[ip urls]|] eqn:Ef.
  - apply find_some in Ef as [Hin Hl]. cbn [snd] in Hl. apply list_elem_of_In in Hin. rewrite Hrange in Hin.
    apply elem_of_map_to_list in Hin. split; [|discriminate]. split; [intros _|intros _; reflexivity]. split; [lia|]. exists ip.
    apply H2. unfold poolsAt. rewrite Hin. cbn [default from_option id]. lia.
  - split; [|discriminate]. split; [discriminate|]. intros [_ (ip & Hex)]. exfalso. apply H2 in Hex. unfold poolsAt in Hex.
    destruct (m !! ip) as [urls|] eqn:Em; [|cbn in Hex; lia].
    apply elem_of_map_to_list in Em. rewrite <-Hrange in Em. apply list_elem_of_In in Em.
    pose proof (find_none _ _ Ef _ Em) as HF. cbn [snd] in HF. cbn [default from_option id] in Hex. lia.
Qed.
End Endpoints.

(** * CA files *)

Definition tlsScheme (p : PoolConfig) : Prop :=
  HasPrefix (URL p) (%"stratum+tls://") = true ∨ HasPrefix (URL p) (%"stratum+v2tls://") = true.
(** The pool has no CA file, or one the dialer would use. *)
Definition caUsable (w : machine) (p : PoolConfig) : Prop :=
  TLSCAFile p = [] ∨ (tlsScheme p ∧ ∃ pem, os_ReadFile w (TLSCAFile p) = Ok pem ∧ AppendCertsFromPEM w pem = true).

Lemma tlsCALoop_spec w n ps :
  match tlsCALoop w n ps with
  | inl r => (r_Status r = StatusWarn ∨ r_Status r = StatusFail) ∧ ¬ Forall (caUsable w) ps
  | inr _ => Forall (caUsable w) ps
  end.
Proof.
  revert n. induction ps as [|p ps IH]; intros n; cbn [tlsCALoop]; [constructor|].
  assert (∀ m, caUsable w p →
    match tlsCALoop w m ps with
    | inl r => (r_Status r = StatusWarn ∨ r_Status r = StatusFail) ∧ ¬ Forall (caUsable w) (p :: ps)
    | inr _ => Forall (caUsable w) (p :: ps)
    end) as Hstep.
  { intros m Hp. specialize (IH m). destruct (tlsCALoop w m ps).
    - destruct IH as [? Hno]. split; [done|]. by intros [_ ?]%Forall_cons.
    - by constructor. }
  assert (¬ caUsable w p → ¬ Forall (caUsable w) (p :: ps)) as Hbad by (by intros H [? _]%Forall_cons).
  case_bool_decide as E; [apply Hstep; by left|].
  destruct (HasPrefix (URL p) (%"stratum+tls://")) eqn:E1, (HasPrefix (URL p) (%"stratum+v2tls://")) eqn:E2; cbn [negb andb].
  4: { split; [by left|]. apply Hbad. intros [?|[[?|?] _]]; congruence. }
  all: destruct (os_ReadFile w (TLSCAFile p)) as [pem|e] eqn:ER;
    [destruct (AppendCertsFromPEM w pem) eqn:EP; cbn [negb]|].
  all: try (apply Hstep; right; split; [unfold tlsScheme; auto|eauto]).
  all: (split; [by right|]); apply Hbad; intros [?|[_ (pem' & Hr & Hp)]]; congruence.
Qed.

(** * What a report says about the system *)

Section Verdicts.
Context (w : machine) (Hup : upper_law (uUpper w)) (Hrange : ∀ m, rangeMap w m ≡ₚ map_to_list m).

Definition dataDirOf (cfg : Config) : list Z :=
  if bool_decide (DataDir cfg = []) then DefaultDataDir (w_host w) else DataDir cfg.
(** The file exists and is not accessible to other users. *)
Definition ownerOnlyFile (path : list Z) : Prop := ∃ d perm, os_Stat w path = StatInfo d perm ∧ openPerm w perm = false.

Lemma config_status cfg path d perm :
  path ≠ [] → os_Stat w path = StatInfo d perm → r_Status (checkConfig w cfg path) ≠ StatusFail →
  Validate (uLower w) (uUpper w) cfg = [].
Proof. intros Hp Hs. unfold checkConfig. rewrite bool_decide_false, Hs by done. by destruct (Validate _ _ cfg). Qed.

Lemma dataDir_status cfg :
  severity (r_Status (checkDataDir w (DataDir cfg))) = 0 → dataDirOf cfg ≠ [] →
  ∃ perm, os_Stat w (dataDirOf cfg) = StatInfo true perm ∧ openPerm w perm = false.
Proof.
  unfold checkDataDir, dataDirOf. cbv zeta. intros H Hne. rewrite bool_decide_false in H by done.
  destruct (os_Stat w _) as [|e|[] perm]; try done. destruct (openPerm w perm) eqn:E; [done|]. by exists perm.
Qed.
Lemma wallet_status cfg :
  severity (r_Status (checkWallet w (DataDir cfg))) = 0 → dataDirOf cfg ≠ [] →
  ownerOnlyFile (joinPath w [dataDirOf cfg; walletDatFile]).
Proof.
  unfold checkWallet, dataDirOf, ownerOnlyFile. cbv zeta. intros H Hne. rewrite bool_decide_false in H by done.
  destruct (os_Stat w _) as [|e|d perm] eqn:E; try done. destruct (openPerm w perm) eqn:Ep; [done|]. eauto.
Qed.
Lemma encryption_status cfg :
  severity (r_Status (checkPoolEncryption cfg)) = 0 →
  Forall (λ p, HasPrefix (URL p) (%"stratum+tcp://") = false) (Pools cfg).
Proof.
  unfold checkPoolEncryption. case_bool_decide as E; [rewrite E; constructor|]. case_bool_decide as E2; [|done]. intros _.
  apply map_eq_nil in E2. apply Forall_forall. intros p Hp. apply not_true_is_false. intros Ht.
  assert (p ∈ []) as Hn; [|by apply not_elem_of_nil in Hn].
  rewrite <-E2. by apply list_elem_of_In, filter_In; rewrite <-list_elem_of_In.
Qed.
Lemma diversity_status cfg : severity (r_Status (checkPoolDiversity cfg)) = 0 → (2 ≤ length (Pools cfg))%nat.
Proof. unfold checkPoolDiversity. destruct (Pools cfg) as [|p [|p' ps]]; cbn; lia. Qed.
Lemma tlsCA_status cfg : severity (r_Status (checkPoolTLSCA w cfg)) = 0 → Forall (caUsable w) (Pools cfg).
Proof.
  unfold checkPoolTLSCA. pose proof (tlsCALoop_spec w 0 (Pools cfg)) as H. destruct (tlsCALoop w 0 (Pools cfg)) as [r|n]; [|done].
  destruct H as [[-> | ->] _]; done.
Qed.
Lemma env_status : severity (r_Status (checkEnvVars w)) = 0 → EnvWarnings (os_Getenv w) (ParseFloat w) = [].
Proof. unfold checkEnvVars. by destruct (EnvWarnings _ _). Qed.
Lemma network_status : severity (r_Status (checkNetwork w)) ≠ 2 → ∃ d, tcpDial w networkCheckEndpoint = Ok d.
Proof. unfold checkNetwork. destruct (tcpDial w _); [eauto|done]. Qed.

(** A check of the list constrains the exit code. *)
Lemma exit_bound cfg path rep name r :
  Run (DefaultChecks w cfg path) rep → check name r ∈ DefaultChecks w cfg path → severity (r_Status r) ≤ ExitCode rep.
Proof. intros HR Hin. by apply (proj1 (Run_ExitCode _ _ _ HR eq_refl) _ Hin). Qed.
End Verdicts.

Ltac listed := unfold DefaultChecks; repeat (first [apply list_elem_of_here|apply list_elem_of_further]).

(** C38. What the exit code of [otedama doctor] says, for every configuration, host
    and schedule of the check goroutines.  Unless it is 2: a loaded configuration
    file is valid; the payout address is set and it and every failover address
    are, blanks aside, addresses the configuration accepts; the network endpoint
    answered; and one of the probed pools answered or has an empty URL.  When it
    is 0, moreover: two or more pools are configured, each probed one answered or
    has an empty URL, none uses stratum+tcp, every CA file set is readable, holds
    certificates and belongs to a TLS pool, two pools shown differently share no
    address unless fewer than two resolve, the data directory and the wallet exist
    and are closed to other users (unless there is no home directory), and no
    numeric environment variable is malformed. *)
Theorem doctor_verdicts w cfg path rep :
  upper_law (uUpper w) → (∀ m, rangeMap w m ≡ₚ map_to_list m) → Run (DefaultChecks w cfg path) rep →
  (ExitCode rep ≠ 2 →
     (path ≠ [] → (∃ d perm, os_Stat w path = StatInfo d perm) → Validate (uLower w) (uUpper w) cfg = []) ∧
     Forall (λ a, validateBitcoinAddress (uLower w) (uUpper w) (TrimSpace a) = Ok ())
       (Config.BitcoinAddress cfg :: BitcoinAddresses cfg) ∧
     (∃ d, tcpDial w networkCheckEndpoint = Ok d) ∧
     (∃ u, u ∈ probedURLs cfg ∧ (answers w u ∨ u = []))) ∧
  (ExitCode rep = 0 →
     (2 ≤ length (Pools cfg))%nat ∧
     (∀ u, u ∈ probedURLs cfg → answers w u ∨ u = []) ∧
     Forall (λ p, HasPrefix (URL p) (%"stratum+tcp://") = false ∧ caUsable w p) (Pools cfg) ∧
     ((2 ≤ length (List.filter (resolves w) (Pools cfg)))%nat → ¬ sharedEndpoint w (Pools cfg)) ∧
     (dataDirOf w cfg ≠ [] →
        (∃ perm, os_Stat w (dataDirOf w cfg) = StatInfo true perm ∧ openPerm w perm = false) ∧
        ownerOnlyFile w (joinPath w [dataDirOf w cfg; walletDatFile])) ∧
     EnvWarnings (os_Getenv w) (ParseFloat w) = []).
Proof.
  intros Hup Hrange HR.
  assert (∀ name r, check name r ∈ DefaultChecks w cfg path → severity (r_Status r) ≤ ExitCode rep) as HB
    by (intros name r; by apply exit_bound).
  assert (ExitCode rep ≤ 2) as H2 by (unfold ExitCode; repeat case_if; lia).
  destruct (reachability_status w cfg) as (RP & RF & RS). split.
  - intros Hne. assert (∀ name r, check name r ∈ DefaultChecks w cfg path → r_Status r ≠ StatusFail) as HF.
    { intros name r Hin E. specialize (HB name r Hin). rewrite E in HB. cbn in HB. lia. }
    split_and!.
    + intros Hp (d & perm & Hs). eapply config_status; [done..|]. eapply (HF (%"Configuration")). listed.
    + constructor.
      * apply address_pass; [done|]. destruct (decide (r_Status (checkBitcoinAddress w (Config.BitcoinAddress cfg)) = StatusPass))
          as [?|Hno]; [done|]. apply address_fails in Hno. exfalso. eapply (HF (%"Bitcoin address")); [|exact Hno]. listed.
      * apply failover_fail; [done|]. eapply (HF (%"Failover payout addresses")). listed.
    + apply network_status. intros E. eapply (HF (%"Network") (checkNetwork w)); [listed|].
      by destruct (r_Status (checkNetwork w)).
    + assert (r_Status (checkPoolReachability w cfg) ≠ StatusFail) as Hr by (eapply (HF (%"Pool reachability")); listed).
      destruct (decide (Exists (λ u, isUp (probe w u) = true) (probedURLs cfg))) as [HE|HE].
      * apply Exists_exists in HE as (u & Hu & Ha). exists u. split; [done|]. by apply probe_kind.
      * exfalso. apply Hr, RF. intros u Hu Ha. apply HE, Exists_exists. exists u. split; [done|]. by apply probe_kind.
  - intros E0. assert (∀ name r, check name r ∈ DefaultChecks w cfg path → severity (r_Status r) = 0) as HZ.
    { intros name r Hin. specialize (HB name r Hin). destruct (r_Status r); cbn in *; lia. }
    split_and!.
    + apply diversity_status. eapply (HZ (%"Pool diversity")). listed.
    + apply RP. assert (severity (r_Status (checkPoolReachability w cfg)) = 0) as Hs by (eapply (HZ (%"Pool reachability")); listed).
      destruct (r_Status (checkPoolReachability w cfg)); cbn in Hs; done.
    + apply Forall_and. split.
      * apply encryption_status. eapply (HZ (%"Pool connection encryption")). listed.
      * apply tlsCA_status. eapply (HZ (%"Pool TLS CA files")). listed.
    + intros Hr Hsh. destruct (endpoint_status w Hrange cfg) as [HW _].
      assert (severity (r_Status (checkPoolEndpointDiversity w cfg)) = 0) as Hs
        by (eapply (HZ (%"Pool endpoint diversity")); listed).
      by rewrite (proj2 HW (conj Hr Hsh)) in Hs.
    + intros Hd. split; [apply dataDir_status|apply wallet_status]; try done.
      * eapply (HZ (%"Data directory")). listed.
      * eapply (HZ (%"Lightning wallet")). listed.
    + apply env_status. eapply (HZ (%"Environment variables")). listed.
Qed.

Lemma upper_byte_law : upper_law (map upper_byte).
Proof. intros s Hs E. rewrite (HasPrefix_app _ _ Hs) in E. by vm_compute in E. Qed.

(** ** A healthy installation *)

Definition pool (url scheme : list Z) : PoolConfig :=
  {| URL := url; pc_User := []; pc_Password := []; PayoutScheme := scheme; TLSCAFile := [] |}.
Definition address : list Z := vec_lower.
Definition mkConfig (addr : list Z) (addrs : list (list Z)) (ps : list PoolConfig) : Config :=
  {| Config.BitcoinAddress := addr; BitcoinAddresses := addrs; Pools := ps; WorkerName := []; Language := [];
     LogLevel := []; LogFormat := []; DataDir := %"/d"; ArbitrationHysteresisPct := fzero; CurtailBelowBTCUSD := fzero;
     cfg_MinYieldSatsPerSec := fzero; PowerWatts := fzero; ElectricityPricePerKWh := fzero; HTTPAddr := [] |}.
Definition healthy : Config :=
  mkConfig address [] [pool (%"stratum+tls://a:1") (%"fpps"); pool (%"stratum+v2tls://b:2") (%"solo")].
(** Every endpoint answers within a millisecond and resolves to its own name. *)
Definition online : machine :=
  {| w_host := linuxHost; os_Stat := λ p, StatInfo (bool_decide (p = %"/d")) 0x180;
     os_ReadFile := λ _, Ok (%"a3f2b1c4" ++ [10]); os_ReadDir := λ _, Ok [%"card0"; %"renderD128"]; NumCPU := 8;
     AppendCertsFromPEM := λ _, true; tcpDial := λ _, Ok 1000000; LookupHost := λ h, Ok [h];
     newRequest := Ok tt; clockProbe := Ok (%"now"); ParseTime := λ _, Ok 0; now := 10 ^ 9; os_Getenv := λ _, [];
     ParseFloat := λ _, None; errText := λ _, []; issuesText := λ _, []; rangeMap := map_to_list;
     uLower := id; uUpper := map upper_byte; uPrint := λ _, true |}.

Lemma doctor_verdicts_witness :
  ExitCode {| Results := map (λ c, runCheck c 0) (DefaultChecks online healthy (%"c.yaml")); Duration := 0 |} = 0 ∧
  answers online (%"stratum+v2tls://b:2") ∧ ¬ sharedEndpoint online (Pools healthy).
Proof.
  assert (ExitCode {| Results := map (λ c, runCheck c 0) (DefaultChecks online healthy (%"c.yaml")); Duration := 0 |} = 0) as E
    by (vm_compute; reflexivity).
  destruct (doctor_verdicts online healthy (%"c.yaml") _ upper_byte_law (λ m, reflexivity _) (Run_sequential _)) as [_ H].
  specialize (H E) as (_ & Hu & _ & Hs & _). split; [exact E|]. split.
  - destruct (Hu (%"stratum+v2tls://b:2")) as [Ha|Ha]; [|exact Ha|discriminate Ha].
    unfold probedURLs, healthy. apply list_elem_of_further, list_elem_of_here.
  - apply Hs. apply Nat.leb_le. vm_compute. reflexivity.
Defined.

(** The verdict of the doctor on a payout address and the configuration's own
    validation agree: an address the configuration accepts is never flagged, and
    what the doctor passes is accepted once blanks around it are removed; every
    other address, the empty one included, is reported as a failure. *)
Theorem address_verdicts_agree w addr :
  upper_law (uUpper w) →
  let st := r_Status (checkBitcoinAddress w addr) in
  (st = StatusPass ↔ validateBitcoinAddress (uLower w) (uUpper w) (TrimSpace addr) = Ok ()) ∧
  (validateBitcoinAddress (uLower w) (uUpper w) addr = Ok () → st = StatusPass) ∧
  (st ≠ StatusPass → st = StatusFail).
Proof.
  intros Hup st. split; [by apply address_pass|]. split; [|apply address_fails].
  intros Hv. apply address_pass; [done|]. by rewrite (proj1 (validated_likely _ _ _ Hup Hv)).
Qed.
Lemma address_verdicts_agree_witness :
  r_Status (checkBitcoinAddress online address) = StatusPass.
Proof.
  apply (proj1 (proj2 (address_verdicts_agree online address upper_byte_law))). vm_compute. reflexivity.
Defined.

(** * Where the verdicts mislead *)

(** Blanks around the address: the doctor passes what [otedama run] refuses. *)
Lemma blank_address_passes :
  r_Status (checkBitcoinAddress online (32 :: address)) = StatusPass ∧
  validateBitcoinAddress id (map upper_byte) (32 :: address) ≠ Ok ().
Proof. split; [vm_compute; reflexivity|]. intros H. vm_compute in H. discriminate H. Qed.

(** Only failover addresses: valid for the configuration and the engine, which
    mines to them, but the doctor reports a failure. *)
Lemma failover_only_fails :
  let cfg := mkConfig [] [address] (Pools healthy) in
  Validate id (map upper_byte) cfg = [] ∧ payoutAddresses cfg = [address] ∧
  r_Status (checkBitcoinAddress online (Config.BitcoinAddress cfg)) = StatusFail.
Proof. vm_compute. split_and!; reflexivity. Qed.

(** A stratum+v2 pool is reported as encrypted; the engine dials it in plaintext. *)
Lemma v2_reported_encrypted :
  let url := %"stratum+v2://pool:3336" in
  checkPoolEncryption (mkConfig address [] [pool url []]) =
    res StatusPass (%"all 1 pool(s) use an encrypted transport") [] ∧
  connect openNetwork (λ r _, Ok r) {| po_url := url; po_user := []; po_password := []; po_caFile := [] |} =
    Ok (V2Transport Plain 0%nat).
Proof. vm_compute. split; reflexivity. Qed.

(** A pool with an empty URL counts as reachable, with nothing dialled. *)
Lemma empty_url_reachable w :
  checkPoolReachability w (mkConfig address [] [pool [] []]) = res StatusPass (%" (0s)") [].
Proof. vm_compute. reflexivity. Qed.

(** The same pool listed twice passes as two distinct endpoints. *)
Lemma duplicate_pool_distinct :
  let cfg := mkConfig address [] [pool (%"stratum+tls://a:1") []; pool (%"stratum+tls://a:1") []] in
  checkPoolEndpointDiversity online cfg = res StatusPass (%"2 pools resolve to distinct endpoints") [] ∧
  r_Status (checkPoolDiversity cfg) = StatusPass.
Proof. vm_compute. split; reflexivity. Qed.

(** An empty CA file: the doctor fails it, the dialer falls back to the system roots. *)
Lemma empty_ca_file_disagrees (w : machine) (n : network nat) :
  os_ReadFile w (%"ca") = Ok [] → AppendCertsFromPEM w [] = false → readFile n (%"ca") = Ok [] →
  r_Status (checkPoolTLSCA w (mkConfig address [] [
    {| URL := %"stratum+tls://a:1"; pc_User := []; pc_Password := []; PayoutScheme := []; TLSCAFile := %"ca" |}])) = StatusFail ∧
  v2TLSConfig n (%"ca") = Ok None.
Proof.
  intros H1 H2 H3. split.
  - unfold checkPoolTLSCA. cbn [Pools mkConfig tlsCALoop TLSCAFile URL]. rewrite bool_decide_false by discriminate.
    cbn [negb andb]. rewrite H1, H2. done.
  - unfold v2TLSConfig. rewrite bool_decide_false by discriminate. by rewrite H3.
Qed.

(** Credentials of a pool URL reach the payout-scheme line. *)
Lemma scheme_line_leaks :
  Detail (checkPayoutScheme (mkConfig address [] [pool (%"stratum+tcp://bob:s3cret@p:1") []])) =
  %"bob:s3cret@p:1: scheme not set".
Proof. vm_compute. reflexivity. Qed.
