(* ===== verification/I18n.v ===== *)
(** * internal/i18n: messages in the user's language

    Message identifiers, language tags, catalogues and the bundle with its
    fallbacks ([message.go]), the ten built-in catalogues and language detection
    ([messages/]), and rendering of the [{{.name}}] templates the catalogues use. *)
From S2P Require Import Prelude.
From S2P Require Import Utf8.
From S2P Require Import Text.
From S2P Require Import Bech32.
From S2P Require Import Poolproto.
From S2P Require Import Config.
From S2P Require Import Quoting.

Open Scope Z_scope.

Notation ID := (list Z) (only parsing).
Notation Lang := (list Z) (only parsing).

Definition lowerLetter (r : Z) : bool := (97 <=? r) && (r <=? 122).
Definition upperLetter (r : Z) : bool := (65 <=? r) && (r <=? 90).
Definition digit (r : Z) : bool := (48 <=? r) && (r <=? 57).

Definition ID_Valid (id : ID) : bool :=
  if bool_decide (id = []) then false
  else if bool_decide (head id = Some 46) || bool_decide (last id = Some 46) then false
  else forallb (λ r, lowerLetter r || digit r || (r =? 46) || (r =? 95)) (runes id).

Definition LangEnglish : Lang := %"en".
Definition LangJapanese : Lang := %"ja".
Definition LangChinese : Lang := %"zh".
Definition LangKorean : Lang := %"ko".
Definition LangSpanish : Lang := %"es".
Definition LangFrench : Lang := %"fr".
Definition LangGerman : Lang := %"de".
Definition LangPortuguese : Lang := %"pt".
Definition LangRussian : Lang := %"ru".
Definition LangArabic : Lang := %"ar".
Definition PriorityLanguages : list Lang :=
  [LangEnglish; LangJapanese; LangChinese; LangKorean; LangSpanish; LangFrench; LangGerman; LangPortuguese;
   LangRussian; LangArabic].

Definition Lang_Valid (l : Lang) : bool :=
  if (length l <? 2)%nat || (35 <? length l)%nat then false
  else forallb (λ r, lowerLetter r || upperLetter r || digit r || (r =? 45)) (runes l).
Definition Lang_Base (l : Lang) : Lang :=
  match IndexByte l 45 with Some idx => take idx l | None => l end.

(** ** Catalogues *)

Record Catalog := { cat_lang : Lang; messages : gmap (list Z) (list Z) }.

(** A nil map is [None]. *)
Definition NewCatalog (lang : Lang) (msgs : option (gmap (list Z) (list Z))) : result Catalog :=
  if negb (Lang_Valid lang) then Err (Sentinel "i18n: invalid language tag %q")
  else match msgs with
  | None => Err (Sentinel "i18n: messages map must not be nil")
  | Some m =>
      if forallb (λ kv, ID_Valid kv.1) (map_to_list m) then Ok {| cat_lang := lang; messages := m |}
      else Err (Sentinel "i18n: invalid message ID %q in catalog for %q")
  end.
Definition Catalog_Lookup (c : Catalog) (id : ID) : option (list Z) := messages c !! id.
Definition IDs (c : Catalog) : list ID := SortStableFunc bytes_compare (map fst (map_to_list (messages c))).

Record Bundle := { english : Catalog; catalogs : gmap (list Z) Catalog }.

Fixpoint addCatalogs (m : gmap (list Z) Catalog) (others : list (option Catalog)) : result (gmap (list Z) Catalog) :=
  match others with
  | [] => Ok m
  | None :: _ => Err (Sentinel "i18n: additional catalog must not be nil")
  | Some c :: others =>
      match m !! cat_lang c with
      | Some _ => Err (Sentinel "i18n: duplicate catalog for language %q")
      | None => addCatalogs (<[cat_lang c := c]> m) others
      end
  end.
Definition i18n_NewBundle (english : option Catalog) (others : list (option Catalog)) : result Bundle :=
  match english with
  | None => Err (Sentinel "i18n: English catalog is required")
  | Some en =>
      if negb (bool_decide (cat_lang en = LangEnglish)) then Err (Sentinel "i18n: expected English catalog, got %q")
      else
        cs ← addCatalogs {[LangEnglish := en]} others;
        Ok {| english := en; catalogs := cs |}
  end.

Definition lookupIn (b : Bundle) (lang : Lang) (id : ID) : option (list Z) :=
  c ← catalogs b !! lang; Catalog_Lookup c id.
(** The text, and whether it was found. *)
Definition Render (b : Bundle) (lang : Lang) (id : ID) : list Z * option error :=
  match lookupIn b lang id with
  | Some msg => (msg, None)
  | None =>
      let base := Lang_Base lang in
      match (if bool_decide (base = lang) then None else lookupIn b base id) with
      | Some msg => (msg, None)
      | None =>
          match Catalog_Lookup (english b) id with
          | Some msg => (msg, None)
          | None => (%"!" ++ id ++ %"!", Some (Sentinel "i18n: message %q not found in any catalog"))
          end
      end
  end.

(** ** text/template *)

(** A template of texts and field actions [{{.name}}]. *)
Inductive segment := Lit (s : list Z) | Field (name : list Z).

Definition nameStart (c : Z) : bool := lowerLetter c || upperLetter c || (c =? 95).
Definition fieldName (s : list Z) : bool :=
  match s with c :: t => nameStart c && forallb (λ c, nameStart c || digit c) t | [] => false end.
(** [None]: some action is not a field of ASCII letters, digits and underscores. *)
Fixpoint parseTemplate (fuel : nat) (s : list Z) : option (list segment) :=
  match fuel with
  | O => None
  | S fuel =>
      match Index s (%"{{") with
      | None => Some [Lit s]
      | Some i =>
          let rest := drop (i + 2) s in
          match Index rest (%"}}") with
          | None => None
          | Some j =>
              match take j rest with
              | 46 :: name =>
                  if fieldName name then
                    segs ← parseTemplate fuel (drop (j + 2) rest); Some (Lit (take i s) :: Field name :: segs)
                  else None
              | _ => None
              end
          end
      end
  end.
(** A key the map does not have prints as [<no value>]. *)
Definition execSegment (data : gmap (list Z) (list Z)) (g : segment) : list Z :=
  match g with Lit s => s | Field k => default (%"<no value>") (data !! k) end.
Definition execTemplate (data : gmap (list Z) (list Z)) (segs : list segment) : list Z :=
  concat (map (execSegment data) segs).

Section RenderWith.
(** The template library on templates with any other action. *)
Context {T : Type} (template_Parse : list Z → result T)
  (template_Execute : T → gmap (list Z) (list Z) → result (list Z)).

Definition runTemplate (raw : list Z) (data : gmap (list Z) (list Z)) : result (list Z) :=
  match parseTemplate (S (length raw)) raw with
  | Some segs => Ok (execTemplate data segs)
  | None =>
      tmpl ← wrapping "i18n: parse template for %q: %w" (template_Parse raw);
      wrapping "i18n: execute template for %q: %w" (template_Execute tmpl data)
  end.
(** A nil map is [None]; values are given by the text they print as. *)
Definition RenderWith (b : Bundle) (lang : Lang) (id : ID) (data : option (gmap (list Z) (list Z)))
    : list Z * option error :=
  match Render b lang id with
  | (raw, Some e) => (raw, Some e)
  | (raw, None) =>
      match data with
      | None => (raw, None)
      | Some data =>
          if bool_decide (Index raw (%"{{") = None) then (raw, None)
          else match runTemplate raw data with
          | Ok text => (text, None)
          | Err e => (raw, Some e)
          end
      end
  end.
End RenderWith.

(** ** Completeness *)

Definition missingIn (b : Bundle) (c : Catalog) : list ID :=
  SortStableFunc bytes_compare (List.filter (λ id, negb (bool_decide (is_Some (Catalog_Lookup c id)))) (IDs (english b))).
Definition MissingTranslations (b : Bundle) : gmap (list Z) (list ID) :=
  omap (λ c, match missingIn b c with [] => None | l => Some l end) (delete LangEnglish (catalogs b)).
Definition Languages (b : Bundle) : list Lang :=
  LangEnglish :: SortStableFunc bytes_compare (map fst (map_to_list (delete LangEnglish (catalogs b)))).

(** ** The built-in messages *)

Definition StartupReady : ID := %"startup.ready".
Definition StartupWalletCreated : ID := %"startup.wallet_created".
Definition StartupHardwareFound : ID := %"startup.hardware_found".
Definition StartupHardwareNone : ID := %"startup.hardware_none".
Definition StartupPoolConnecting : ID := %"startup.pool_connecting".
Definition StartupPoolConnected : ID := %"startup.pool_connected".
Definition ErrorPoolUnreachable : ID := %"error.pool_unreachable".
Definition ErrorInvalidAddress : ID := %"error.invalid_address".
Definition ErrorConfigMissing : ID := %"error.config_missing".
Definition ErrorWalletLocked : ID := %"error.wallet_locked".
Definition ErrorHardwareFailure : ID := %"error.hardware_failure".
Definition StatusMining : ID := %"status.mining".
Definition StatusIdle : ID := %"status.idle".
Definition StatusPaymentReceived : ID := %"status.payment_received".
Definition StatusShuttingDown : ID := %"status.shutting_down".
Definition AllIDs : list ID :=
  [ErrorConfigMissing; ErrorHardwareFailure; ErrorInvalidAddress; ErrorPoolUnreachable; ErrorWalletLocked; StartupHardwareFound; StartupHardwareNone; StartupPoolConnected; StartupPoolConnecting; StartupReady; StartupWalletCreated; StatusIdle; StatusMining; StatusPaymentReceived; StatusShuttingDown].

Definition English : result Catalog := NewCatalog LangEnglish (Some (list_to_map [
  (StartupReady, %"Otedama is ready. Mining will begin shortly.");
  (StartupWalletCreated, %"A new Lightning wallet has been created. Your recovery seed is stored securely on this device.");
  (StartupHardwareFound, %"Found {{.count}} mining device(s): {{.summary}}");
  (StartupHardwareNone, %"No mining devices detected. Otedama requires an ASIC, GPU, or supported CPU.");
  (StartupPoolConnecting, %"Connecting to pool {{.url}}...");
  (StartupPoolConnected, %"Connected to pool {{.url}}.");
  (ErrorPoolUnreachable, %"The pool at {{.url}} is unreachable. Check your internet connection or try a different pool.");
  (ErrorInvalidAddress, %"The Bitcoin address {{.address}} is not valid. Please check for typos.");
  (ErrorConfigMissing, %"Otedama needs a Bitcoin address before mining can begin. Pass --bitcoin-address or set OTEDAMA_BITCOIN_ADDRESS.");
  (ErrorWalletLocked, %"The Lightning wallet is locked. Unlock it with your passphrase to continue.");
  (ErrorHardwareFailure, %"Device {{.id}} reported a hardware failure and has been disabled.");
  (StatusMining, %"Mining on {{.devices}} device(s). Current hashrate: {{.hashrate}}.");
  (StatusIdle, %"Idle. No work available from the pool right now.");
  (StatusPaymentReceived, %"Received {{.amount}} from pool {{.pool}}.");
  (StatusShuttingDown, %"Shutting down gracefully. Your wallet remains safe on this device.")])).
Definition Japanese : result Catalog := NewCatalog LangJapanese (Some (list_to_map [
  (StartupReady, %"Otedama起動完了。まもなくマイニング開始。");
  (StartupWalletCreated, %"新規Lightningウォレットを作成。復元シードはこのデバイスに安全に保存済み。");
  (StartupHardwareFound, %"マイニングデバイスを{{.count}}台検出: {{.summary}}");
  (StartupHardwareNone, %"マイニングデバイス未検出。OtedamaにはASIC、GPU、対応CPUのいずれかが必要。");
  (StartupPoolConnecting, %"プール{{.url}}に接続中...");
  (StartupPoolConnected, %"プール{{.url}}に接続完了。");
  (ErrorPoolUnreachable, %"プール{{.url}}に到達不可。インターネット接続を確認するか別のプールを試してください。");
  (ErrorInvalidAddress, %"Bitcoinアドレス{{.address}}が無効。入力ミスを確認してください。");
  (ErrorConfigMissing, %"OtedamaはBitcoinアドレスが必要。--bitcoin-addressを指定するかOTEDAMA_BITCOIN_ADDRESSを設定してください。");
  (ErrorWalletLocked, %"Lightningウォレットがロック状態。パスフレーズで解錠してください。");
  (ErrorHardwareFailure, %"デバイス{{.id}}がハードウェア障害を報告。無効化済み。");
  (StatusMining, %"マイニング中: デバイス{{.devices}}台、現在のハッシュレート{{.hashrate}}。");
  (StatusIdle, %"待機中。プールから作業が届いていません。");
  (StatusPaymentReceived, %"プール{{.pool}}から{{.amount}}を受領。");
  (StatusShuttingDown, %"正常終了中。ウォレットはこのデバイスに安全に保持されます。")])).
Definition Chinese : result Catalog := NewCatalog LangChinese (Some (list_to_map [
  (StartupReady, %"Otedama 已就绪。即将开始挖矿。");
  (StartupWalletCreated, %"已创建新的闪电网络钱包。您的恢复助记词已安全存储在本设备上。");
  (StartupHardwareFound, %"检测到 {{.count}} 台挖矿设备：{{.summary}}");
  (StartupHardwareNone, %"未检测到挖矿设备。Otedama 需要 ASIC、GPU 或受支持的 CPU。");
  (StartupPoolConnecting, %"正在连接到矿池 {{.url}}...");
  (StartupPoolConnected, %"已连接到矿池 {{.url}}。");
  (ErrorPoolUnreachable, %"无法到达矿池 {{.url}}。请检查网络连接或尝试其他矿池。");
  (ErrorInvalidAddress, %"比特币地址 {{.address}} 无效。请检查是否有拼写错误。");
  (ErrorConfigMissing, %"Otedama 需要比特币地址才能开始挖矿。请通过 --bitcoin-address 传入或设置 OTEDAMA_BITCOIN_ADDRESS。");
  (ErrorWalletLocked, %"闪电网络钱包已锁定。请使用密码短语解锁以继续。");
  (ErrorHardwareFailure, %"设备 {{.id}} 报告硬件故障，已被禁用。");
  (StatusMining, %"挖矿中：{{.devices}} 台设备，当前哈希率：{{.hashrate}}。");
  (StatusIdle, %"空闲中。当前矿池暂无工作任务。");
  (StatusPaymentReceived, %"已从矿池 {{.pool}} 收到 {{.amount}}。");
  (StatusShuttingDown, %"正在优雅关闭。您的钱包已安全保存在本设备上。")])).
Definition Korean : result Catalog := NewCatalog LangKorean (Some (list_to_map [
  (StartupReady, %"Otedama 준비 완료. 곧 채굴이 시작됩니다.");
  (StartupWalletCreated, %"새 라이트닝 지갑이 생성되었습니다. 복구 시드가 이 기기에 안전하게 저장되어 있습니다.");
  (StartupHardwareFound, %"채굴 장치 {{.count}}개를 감지했습니다: {{.summary}}");
  (StartupHardwareNone, %"채굴 장치가 감지되지 않았습니다. Otedama에는 ASIC, GPU 또는 지원되는 CPU가 필요합니다.");
  (StartupPoolConnecting, %"풀 {{.url}}에 연결 중...");
  (StartupPoolConnected, %"풀 {{.url}}에 연결되었습니다.");
  (ErrorPoolUnreachable, %"풀 {{.url}}에 연결할 수 없습니다. 인터넷 연결을 확인하거나 다른 풀을 시도해 보세요.");
  (ErrorInvalidAddress, %"비트코인 주소 {{.address}}가 유효하지 않습니다. 오타를 확인해 주세요.");
  (ErrorConfigMissing, %"채굴을 시작하려면 비트코인 주소가 필요합니다. --bitcoin-address 옵션을 사용하거나 OTEDAMA_BITCOIN_ADDRESS를 설정하세요.");
  (ErrorWalletLocked, %"라이트닝 지갑이 잠겨 있습니다. 계속하려면 패스프레이즈로 잠금을 해제하세요.");
  (ErrorHardwareFailure, %"장치 {{.id}}에서 하드웨어 오류가 보고되어 비활성화되었습니다.");
  (StatusMining, %"채굴 중: {{.devices}}개 장치, 현재 해시레이트: {{.hashrate}}.");
  (StatusIdle, %"대기 중. 지금은 풀에서 작업이 없습니다.");
  (StatusPaymentReceived, %"풀 {{.pool}}에서 {{.amount}}를 수신했습니다.");
  (StatusShuttingDown, %"정상 종료 중입니다. 지갑은 이 기기에 안전하게 보관됩니다.")])).
Definition Spanish : result Catalog := NewCatalog LangSpanish (Some (list_to_map [
  (StartupReady, %"Otedama está listo. La minería comenzará en breve.");
  (StartupWalletCreated, %"Se ha creado una nueva cartera Lightning. Tu semilla de recuperación está almacenada de forma segura en este dispositivo.");
  (StartupHardwareFound, %"Se detectaron {{.count}} dispositivos de minería: {{.summary}}");
  (StartupHardwareNone, %"No se detectaron dispositivos de minería. Otedama requiere un ASIC, GPU o CPU compatible.");
  (StartupPoolConnecting, %"Conectando al pool {{.url}}...");
  (StartupPoolConnected, %"Conectado al pool {{.url}}.");
  (ErrorPoolUnreachable, %"El pool {{.url}} no es accesible. Verifica tu conexión a Internet o prueba con otro pool.");
  (ErrorInvalidAddress, %"La dirección Bitcoin {{.address}} no es válida. Por favor verifica si hay errores tipográficos.");
  (ErrorConfigMissing, %"Otedama necesita una dirección Bitcoin antes de comenzar la minería. Pasa --bitcoin-address o establece OTEDAMA_BITCOIN_ADDRESS.");
  (ErrorWalletLocked, %"La cartera Lightning está bloqueada. Desbloquéala con tu frase de contraseña para continuar.");
  (ErrorHardwareFailure, %"El dispositivo {{.id}} reportó un fallo de hardware y ha sido deshabilitado.");
  (StatusMining, %"Minando en {{.devices}} dispositivo(s). Tasa de hash actual: {{.hashrate}}.");
  (StatusIdle, %"Inactivo. No hay trabajo disponible del pool en este momento.");
  (StatusPaymentReceived, %"Recibido {{.amount}} del pool {{.pool}}.");
  (StatusShuttingDown, %"Apagando de forma segura. Tu cartera permanece a salvo en este dispositivo.")])).
Definition French : result Catalog := NewCatalog LangFrench (Some (list_to_map [
  (StartupReady, %"Otedama est prêt. Le minage va commencer sous peu.");
  (StartupWalletCreated, %"Un nouveau portefeuille Lightning a été créé. Votre phrase de récupération est stockée en sécurité sur cet appareil.");
  (StartupHardwareFound, %"{{.count}} appareil(s) de minage détecté(s) : {{.summary}}");
  (StartupHardwareNone, %"Aucun appareil de minage détecté. Otedama nécessite un ASIC, un GPU ou un CPU compatible.");
  (StartupPoolConnecting, %"Connexion au pool {{.url}} en cours...");
  (StartupPoolConnected, %"Connecté au pool {{.url}}.");
  (ErrorPoolUnreachable, %"Le pool {{.url}} est inaccessible. Vérifiez votre connexion Internet ou essayez un autre pool.");
  (ErrorInvalidAddress, %"L'adresse Bitcoin {{.address}} n'est pas valide. Vérifiez l'absence de fautes de frappe.");
  (ErrorConfigMissing, %"Otedama a besoin d'une adresse Bitcoin pour commencer le minage. Passez --bitcoin-address ou définissez OTEDAMA_BITCOIN_ADDRESS.");
  (ErrorWalletLocked, %"Le portefeuille Lightning est verrouillé. Déverrouillez-le avec votre phrase de passe pour continuer.");
  (ErrorHardwareFailure, %"L'appareil {{.id}} a signalé une défaillance matérielle et a été désactivé.");
  (StatusMining, %"Minage en cours sur {{.devices}} appareil(s). Taux de hachage actuel : {{.hashrate}}.");
  (StatusIdle, %"Inactif. Aucun travail disponible depuis le pool pour le moment.");
  (StatusPaymentReceived, %"{{.amount}} reçu depuis le pool {{.pool}}.");
  (StatusShuttingDown, %"Arrêt en cours. Votre portefeuille reste sécurisé sur cet appareil.")])).
Definition German : result Catalog := NewCatalog LangGerman (Some (list_to_map [
  (StartupReady, %"Otedama ist bereit. Mining beginnt in Kürze.");
  (StartupWalletCreated, %"Ein neues Lightning-Wallet wurde erstellt. Ihr Wiederherstellungs-Seed ist sicher auf diesem Gerät gespeichert.");
  (StartupHardwareFound, %"{{.count}} Mining-Gerät(e) erkannt: {{.summary}}");
  (StartupHardwareNone, %"Keine Mining-Geräte erkannt. Otedama benötigt einen ASIC, eine GPU oder eine unterstützte CPU.");
  (StartupPoolConnecting, %"Verbindung zu Pool {{.url}} wird hergestellt...");
  (StartupPoolConnected, %"Mit Pool {{.url}} verbunden.");
  (ErrorPoolUnreachable, %"Der Pool {{.url}} ist nicht erreichbar. Überprüfen Sie Ihre Internetverbindung oder versuchen Sie einen anderen Pool.");
  (ErrorInvalidAddress, %"Die Bitcoin-Adresse {{.address}} ist ungültig. Bitte auf Tippfehler überprüfen.");
  (ErrorConfigMissing, %"Otedama benötigt eine Bitcoin-Adresse, bevor das Mining beginnen kann. Übergeben Sie --bitcoin-address oder setzen Sie OTEDAMA_BITCOIN_ADDRESS.");
  (ErrorWalletLocked, %"Das Lightning-Wallet ist gesperrt. Entsperren Sie es mit Ihrer Passphrase, um fortzufahren.");
  (ErrorHardwareFailure, %"Gerät {{.id}} hat einen Hardwarefehler gemeldet und wurde deaktiviert.");
  (StatusMining, %"Mining auf {{.devices}} Gerät(en). Aktuelle Hashrate: {{.hashrate}}.");
  (StatusIdle, %"Inaktiv. Derzeit keine Arbeit vom Pool verfügbar.");
  (StatusPaymentReceived, %"{{.amount}} von Pool {{.pool}} empfangen.");
  (StatusShuttingDown, %"Wird sicher heruntergefahren. Ihr Wallet bleibt auf diesem Gerät sicher.")])).
Definition Portuguese : result Catalog := NewCatalog LangPortuguese (Some (list_to_map [
  (StartupReady, %"Otedama está pronto. A mineração começará em breve.");
  (StartupWalletCreated, %"Uma nova carteira Lightning foi criada. Sua semente de recuperação está armazenada com segurança neste dispositivo.");
  (StartupHardwareFound, %"{{.count}} dispositivo(s) de mineração detectado(s): {{.summary}}");
  (StartupHardwareNone, %"Nenhum dispositivo de mineração detectado. O Otedama requer um ASIC, GPU ou CPU compatível.");
  (StartupPoolConnecting, %"Conectando ao pool {{.url}}...");
  (StartupPoolConnected, %"Conectado ao pool {{.url}}.");
  (ErrorPoolUnreachable, %"O pool {{.url}} está inacessível. Verifique sua conexão com a Internet ou tente outro pool.");
  (ErrorInvalidAddress, %"O endereço Bitcoin {{.address}} não é válido. Por favor, verifique se há erros de digitação.");
  (ErrorConfigMissing, %"O Otedama precisa de um endereço Bitcoin antes de começar a mineração. Passe --bitcoin-address ou defina OTEDAMA_BITCOIN_ADDRESS.");
  (ErrorWalletLocked, %"A carteira Lightning está bloqueada. Desbloqueie-a com sua frase secreta para continuar.");
  (ErrorHardwareFailure, %"O dispositivo {{.id}} relatou uma falha de hardware e foi desativado.");
  (StatusMining, %"Minerando em {{.devices}} dispositivo(s). Taxa de hash atual: {{.hashrate}}.");
  (StatusIdle, %"Inativo. Nenhum trabalho disponível no pool agora.");
  (StatusPaymentReceived, %"Recebido {{.amount}} do pool {{.pool}}.");
  (StatusShuttingDown, %"Encerrando com segurança. Sua carteira permanece segura neste dispositivo.")])).
Definition Russian : result Catalog := NewCatalog LangRussian (Some (list_to_map [
  (StartupReady, %"Otedama готов. Майнинг начнётся в ближайшее время.");
  (StartupWalletCreated, %"Создан новый кошелёк Lightning. Фраза восстановления надёжно сохранена на этом устройстве.");
  (StartupHardwareFound, %"Обнаружено {{.count}} майнинговых устройств: {{.summary}}");
  (StartupHardwareNone, %"Майнинговые устройства не обнаружены. Otedama требует ASIC, GPU или совместимый CPU.");
  (StartupPoolConnecting, %"Подключение к пулу {{.url}}...");
  (StartupPoolConnected, %"Подключено к пулу {{.url}}.");
  (ErrorPoolUnreachable, %"Пул {{.url}} недоступен. Проверьте подключение к интернету или попробуйте другой пул.");
  (ErrorInvalidAddress, %"Адрес Bitcoin {{.address}} недействителен. Проверьте правильность написания.");
  (ErrorConfigMissing, %"Otedama требует адрес Bitcoin для начала майнинга. Передайте --bitcoin-address или установите OTEDAMA_BITCOIN_ADDRESS.");
  (ErrorWalletLocked, %"Кошелёк Lightning заблокирован. Разблокируйте его с помощью пароля для продолжения.");
  (ErrorHardwareFailure, %"Устройство {{.id}} сообщило об аппаратной ошибке и было отключено.");
  (StatusMining, %"Майнинг на {{.devices}} устройствах. Текущий хешрейт: {{.hashrate}}.");
  (StatusIdle, %"Простой. В данный момент пул не предоставляет задания.");
  (StatusPaymentReceived, %"Получено {{.amount}} от пула {{.pool}}.");
  (StatusShuttingDown, %"Корректное завершение работы. Ваш кошелёк в безопасности на этом устройстве.")])).
Definition Arabic : result Catalog := NewCatalog LangArabic (Some (list_to_map [
  (StartupReady, %"Otedama جاهز. سيبدأ التعدين قريبًا.");
  (StartupWalletCreated, %"تم إنشاء محفظة Lightning جديدة. تم تخزين عبارة الاسترداد بأمان على هذا الجهاز.");
  (StartupHardwareFound, %"تم اكتشاف {{.count}} جهاز تعدين: {{.summary}}");
  (StartupHardwareNone, %"لم يتم اكتشاف أجهزة تعدين. يتطلب Otedama ASIC أو GPU أو CPU متوافق.");
  (StartupPoolConnecting, %"جارٍ الاتصال بالمجمع {{.url}}...");
  (StartupPoolConnected, %"تم الاتصال بالمجمع {{.url}}.");
  (ErrorPoolUnreachable, %"المجمع {{.url}} غير قابل للوصول. تحقق من اتصالك بالإنترنت أو جرّب مجمعًا مختلفًا.");
  (ErrorInvalidAddress, %"عنوان Bitcoin {{.address}} غير صالح. يرجى التحقق من الأخطاء المطبعية.");
  (ErrorConfigMissing, %"يحتاج Otedama إلى عنوان Bitcoin قبل بدء التعدين. مرّر --bitcoin-address أو اضبط OTEDAMA_BITCOIN_ADDRESS.");
  (ErrorWalletLocked, %"محفظة Lightning مقفلة. افتحها بعبارة المرور للمتابعة.");
  (ErrorHardwareFailure, %"أبلغ الجهاز {{.id}} عن عطل في الأجهزة وتم تعطيله.");
  (StatusMining, %"جارٍ التعدين على {{.devices}} جهاز. معدل التجزئة الحالي: {{.hashrate}}.");
  (StatusIdle, %"خامل. لا يوجد عمل متاح من المجمع حاليًا.");
  (StatusPaymentReceived, %"تم استلام {{.amount}} من المجمع {{.pool}}.");
  (StatusShuttingDown, %"إيقاف التشغيل بأمان. تظل محفظتك في أمان على هذا الجهاز.")])).

(** Catalogues that cannot be built are left out. *)
Definition NewBundle : result Bundle :=
  en ← English;
  let others := [Japanese; Chinese; Korean; Spanish; French; German; Portuguese; Russian; Arabic] in
  let built := omap (λ c, match c with Ok c => Some (Some c) | Err _ => None end) others in
  i18n_NewBundle (Some en) built.

(** ** Choosing the language *)

Section Detect.
Context (unicodeToLower : list Z → list Z).

Definition DetectLang (tag : list Z) : Lang :=
  if bool_decide (tag = []) then LangEnglish
  else
    let candidate := ToLower unicodeToLower tag in
    match List.find (λ l, bool_decide (l = candidate)) PriorityLanguages with
    | Some l => l
    | None =>
        match List.find (λ l, bool_decide (l = Lang_Base candidate)) PriorityLanguages with
        | Some l => l
        | None => LangEnglish
        end
    end.

Definition localeEnvVars : list (list Z) := [%"LC_ALL"; %"LC_MESSAGES"; %"LANG"].
(** The text before the first byte of [cs]. *)
Fixpoint untilAny (cs s : list Z) : list Z :=
  match s with [] => [] | c :: t => if bool_decide (c ∈ cs) then [] else c :: untilAny cs t end.
Definition normalizePOSIXLocale (s : list Z) : list Z :=
  let s := untilAny [46; 64] s in
  if bool_decide (s ∈ [[]; %"C"; %"POSIX"]) then [] else map (λ c, if c =? 95 then 45 else c) s.
Fixpoint detectFrom (getenv : list Z → list Z) (keys : list (list Z)) : Lang :=
  match keys with
  | [] => LangEnglish
  | key :: keys =>
      let v := getenv key in
      if bool_decide (v = []) then detectFrom getenv keys
      else
        let tag := normalizePOSIXLocale v in
        if bool_decide (tag = []) then LangEnglish else DetectLang tag
  end.
Definition DetectLangFromEnv (getenv : list Z → list Z) : Lang := detectFrom getenv localeEnvVars.

(** cmd/otedama: the configured language, or the locale when none is set. *)
Definition detectRunBundle (getenv : list Z → list Z) (language : list Z) : result Bundle * Lang :=
  (NewBundle, if bool_decide (language = []) then DetectLangFromEnv getenv else DetectLang language).
End Detect.

Example locales :
  map (normalizePOSIXLocale) [%"ja_JP.UTF-8@cjk"; %"C.UTF-8"; %"POSIX"; %"pt_BR"] = [%"ja-JP"; []; []; %"pt-BR"] ∧
  map (DetectLang id) [%"JA-jp"; %"fi"; %"zh-Hant-TW"; %"de"; %"-de"] =
    [LangJapanese; LangEnglish; LangChinese; LangGerman; LangEnglish].
Proof. vm_compute. split; reflexivity. Qed.

(** * The built-in bundle *)

Definition builtin : Bundle :=
  match NewBundle with Ok b => b | Err _ => {| english := {| cat_lang := []; messages := ∅ |}; catalogs := ∅ |} end.

(** The fields a message refers to, in order. *)
Definition fieldsIn (segs : list segment) : list (list Z) :=
  omap (λ g, match g with Field k => Some k | Lit _ => None end) segs.
Definition fields (msg : list Z) : option (list (list Z)) := fieldsIn <$> parseTemplate (S (length msg)) msg.
Definition sameFields (a b : list (list Z)) : bool :=
  forallb (λ k, bool_decide (k ∈ b)) a && forallb (λ k, bool_decide (k ∈ a)) b.
(** A translation exists, is a template of texts and fields, and has the fields
    of the English message. *)
Definition translated (l : Lang) (id : ID) : bool :=
  match lookupIn builtin l id ≫= fields, Catalog_Lookup (english builtin) id ≫= fields with
  | Some a, Some b => sameFields a b
  | _, _ => false
  end.

Lemma builtin_built : NewBundle = Ok builtin.
Proof.
  assert ((match NewBundle with Ok _ => true | Err _ => false end) = true) as H by (vm_compute; reflexivity).
  unfold builtin. destruct NewBundle as [b|e]; [reflexivity|discriminate H].
Qed.
Lemma builtin_translated : forallb (λ l, forallb (translated l) AllIDs) PriorityLanguages = true.
Proof. vm_compute. reflexivity. Qed.
Lemma builtin_languages : map fst (map_to_list (catalogs builtin)) ≡ₚ PriorityLanguages.
Proof. apply (bool_decide_unpack _). vm_compute. exact I. Qed.
Lemma builtin_complete : MissingTranslations builtin = ∅ ∧ IDs (english builtin) = AllIDs.
Proof. vm_compute. split; reflexivity. Qed.

Lemma sameFields_spec a b : sameFields a b = true → ∀ k, k ∈ a ↔ k ∈ b.
Proof.
  unfold sameFields. rewrite andb_true_iff, !forallb_forall. intros [H1 H2] k.
  split; intros Hk%list_elem_of_In; [specialize (H1 k Hk)|specialize (H2 k Hk)]; by apply bool_decide_eq_true in H1 || apply bool_decide_eq_true in H2.
Qed.

Lemma translated_all l id : l ∈ PriorityLanguages → id ∈ AllIDs → translated l id = true.
Proof.
  intros Hl%list_elem_of_In Hi%list_elem_of_In. pose proof builtin_translated as H.
  rewrite forallb_forall in H. specialize (H l Hl). cbv beta in H. rewrite forallb_forall in H. exact (H id Hi).
Qed.

(** A text found in a catalogue of the bundle is in one of the ten languages. *)
Lemma found_language lang id msg : lookupIn builtin lang id = Some msg → lang ∈ PriorityLanguages.
Proof.
  unfold lookupIn. intros H. destruct (catalogs builtin !! lang) as [c|] eqn:E; [|discriminate H].
  rewrite <-builtin_languages. apply list_elem_of_fmap. exists (lang, c). split; [reflexivity|]. apply elem_of_map_to_list. exact E.
Qed.

Lemma addCatalogs_keeps others m m' l c : addCatalogs m others = Ok m' → m !! l = Some c → m' !! l = Some c.
Proof.
  revert m. induction others as [|[c'|] others IH]; intros m; cbn [addCatalogs]; [by intros <-%Ok_inj| |done].
  destruct (m !! cat_lang c') eqn:E; [done|]. intros H Hl. apply (IH _ H). rewrite lookup_insert_ne; [done|congruence].
Qed.
Lemma bundle_english en others b :
  i18n_NewBundle (Some en) others = Ok b → catalogs b !! LangEnglish = Some (english b).
Proof.
  unfold i18n_NewBundle. case_bool_decide; [|done]. cbn [negb].
  destruct (addCatalogs _ others) as [cs|] eqn:E; [|done]. intros <-%Ok_inj. cbn.
  apply (addCatalogs_keeps _ _ _ _ _ E). apply lookup_singleton_eq.
Qed.
Lemma english_entry id : Catalog_Lookup (english builtin) id = lookupIn builtin LangEnglish id.
Proof.
  unfold lookupIn. pose proof builtin_built as H. unfold NewBundle in H at 1.
  destruct English as [en|]; [|discriminate H]. cbn [mbind result_bind] in H. cbv zeta in H.
  rewrite (bundle_english _ _ _ H). reflexivity.
Qed.

#[local] Opaque builtin.

(** Whatever the tag, a message of the program is found, in one of the ten languages. *)
Lemma Render_builtin lang id :
  id ∈ AllIDs → ∃ l msg, l ∈ PriorityLanguages ∧ lookupIn builtin l id = Some msg ∧ Render builtin lang id = (msg, None).
Proof.
  intros Hid. unfold Render. destruct (lookupIn builtin lang id) as [msg|] eqn:E1.
  { exists lang, msg. split; [exact (found_language _ _ _ E1)|]. split; [exact E1|reflexivity]. }
  destruct (if bool_decide (Lang_Base lang = lang) then None else lookupIn builtin (Lang_Base lang) id) as [msg|] eqn:E2.
  { destruct (bool_decide (Lang_Base lang = lang)); [discriminate E2|]. exists (Lang_Base lang), msg.
    split; [exact (found_language _ _ _ E2)|]. split; [exact E2|reflexivity]. }
  rewrite english_entry. assert (LangEnglish ∈ PriorityLanguages) as Hen by apply list_elem_of_here.
  pose proof (translated_all _ _ Hen Hid) as HT. unfold translated in HT.
  destruct (lookupIn builtin LangEnglish id) as [msg|] eqn:E3; [|discriminate HT].
  exists LangEnglish, msg. split; [exact Hen|]. split; [exact E3|reflexivity].
Qed.

Lemma parse_plain msg : Index msg (%"{{") = None → parseTemplate (S (length msg)) msg = Some [Lit msg].
Proof. intros H. cbn [parseTemplate]. by rewrite H. Qed.



(** * Detection *)

Lemma priority_base : Forall (λ l, Lang_Base l = l) PriorityLanguages.
Proof. repeat (apply Forall_cons_2; [vm_compute; reflexivity|]). apply Forall_nil_2. Qed.

Lemma find_equal (l : list (list Z)) x :
  List.find (λ y, bool_decide (y = x)) l = if bool_decide (x ∈ l) then Some x else None.
Proof.
  induction l as [|y l IH]; cbn [List.find]; [done|]. rewrite IH. destruct (bool_decide_reflect (y = x)) as [E|E].
  - subst. by rewrite bool_decide_true by apply list_elem_of_here.
  - case_bool_decide as E1; case_bool_decide as E2; try done; exfalso.
    + apply E2. by apply list_elem_of_further.
    + apply elem_of_cons in E2 as [->|?]; done.
Qed.

(** The two passes of [DetectLang] are one lookup of the primary subtag, in
    lower case: the answer is always one of the ten languages, and English for a
    language that is not. *)
Theorem DetectLang_exact lo tag :
  let base := Lang_Base (ToLower lo tag) in
  DetectLang lo tag = (if bool_decide (tag ≠ [] ∧ base ∈ PriorityLanguages) then base else LangEnglish) ∧
  DetectLang lo tag ∈ PriorityLanguages.
Proof.
  cbv zeta. assert (LangEnglish ∈ PriorityLanguages) as Hen by apply list_elem_of_here.
  unfold DetectLang. rewrite !find_equal. case_bool_decide as E0.
  { rewrite bool_decide_false by tauto. by split. }
  case_bool_decide as E1.
  - pose proof priority_base as HB. rewrite Forall_forall in HB. rewrite (HB _ E1). rewrite bool_decide_true by done. by split.
  - case_bool_decide as E2.
    + rewrite bool_decide_true by done. by split.
    + rewrite bool_decide_false by tauto. by split.
Qed.

(** A locale variable that is set decides, even when it asks for no localization. *)
Lemma DetectLangFromEnv_first lo getenv k1 k2 key v :
  localeEnvVars = k1 ++ key :: k2 → Forall (λ k, getenv k = []) k1 → getenv key = v → v ≠ [] →
  DetectLangFromEnv lo getenv = DetectLang lo (normalizePOSIXLocale v).
Proof.
  unfold DetectLangFromEnv. intros -> H1 Hv Hne. induction H1 as [|k k1 Hk _ IH]; cbn [app detectFrom].
  - rewrite Hv, bool_decide_false by done. case_bool_decide as E; [|done]. by rewrite E.
  - by rewrite Hk, bool_decide_true.
Qed.

(** A key that is missing from the values is not an error. *)
Lemma missing_key_renders :
  RenderWith (λ _, Err EOF) (λ _ : unit, λ _, Err EOF) builtin LangEnglish StartupPoolConnected (Some ∅) =
  (%"Connected to pool <no value>.", None).
Proof. vm_compute. reflexivity. Qed.
