(* ===== verification/Tui.v ===== *)
(** * internal/tui: the terminal dashboard

    The lines of a frame byte for byte, with the measuring, padding and truncation
    of texts that carry escape sequences; the update queue; and the life cycle of
    the render loop.  The snapshot shown is the one of [EngineTick], with the count
    of idle devices, which the engine leaves at zero. *)
From S2P Require Import Prelude.
From S2P Require Import Float64.
From S2P Require Import Utf8.
From S2P Require Import Text.
From S2P Require Import Quoting.
From S2P Require Import JsonOut.
From S2P Require Import EngineStats.
From S2P Require Import EngineTick.

Open Scope Z_scope.

Record Stats := { st : tuiStats; DevicesIdle : Z }.

(** ** Escape sequences *)

Definition ESC : Z := 27.
Definition reset : list Z := ESC :: %"[0m".
Definition bold : list Z := ESC :: %"[1m".
Definition dim : list Z := ESC :: %"[2m".
Definition cyan : list Z := ESC :: %"[36m".
Definition green : list Z := ESC :: %"[32m".
Definition yellow : list Z := ESC :: %"[33m".
Definition red : list Z := ESC :: %"[31m".
Definition white : list Z := ESC :: %"[37m".
Definition cursorHome : list Z := ESC :: %"[H".
Definition clearLine : list Z := ESC :: %"[2K".
Definition clearScreen : list Z := (ESC :: %"[2J") ++ cursorHome.
Definition hideCursor : list Z := ESC :: %"[?25l".
Definition showCursor : list Z := ESC :: %"[?25h".

(** ** Measuring and cutting *)

(** The count of visible runes so far, and whether an escape sequence is open. *)
Definition endsEscape (r : Z) : bool := (64 <=? r) && (r <=? 126) && negb (r =? 91).
Definition visStep (s : Z * bool) (r : Z) : Z * bool :=
  let '(n, inEsc) := s in
  if inEsc : bool then (n, negb (endsEscape r))
  else if r =? ESC then (n, true) else (n + 1, false).
Definition visibleLen (s : list Z) : Z := (foldl visStep (0, false) (runes s)).1.

Fixpoint truncLoop (maxVisible n : Z) (inEsc : bool) (rs : list Z) : list Z :=
  match rs with
  | [] => []
  | r :: rs =>
      if inEsc then encode_rune r ++ truncLoop maxVisible n (negb (endsEscape r)) rs
      else if r =? ESC then encode_rune r ++ truncLoop maxVisible n true rs
      else if maxVisible <=? n then []
      else encode_rune r ++ truncLoop maxVisible (n + 1) false rs
  end.
Definition truncateVisible (s : list Z) (maxVisible : Z) : list Z :=
  if maxVisible <=? 0 then [] else truncLoop maxVisible 0 false (runes s) ++ reset.

Definition spaces (n : Z) : list Z := replicate (Z.to_nat n) 32.
Definition padRight (s : list Z) (width : Z) : list Z :=
  let pad := width - visibleLen s in if pad <=? 0 then s else s ++ spaces pad.
Definition padToVisibleWidth (s : list Z) (width : Z) : list Z :=
  let n := width - visibleLen s in if 0 <? n then s ++ spaces n else s.
Definition truncateToBudget (s : list Z) (budget : Z) : list Z :=
  if budget <=? 0 then []
  else if Z.of_nat (length s) <=? budget then s
  else if budget <? 4 then take (Z.to_nat budget) s
  else take (Z.to_nat (budget - 3)) s ++ %"...".
Definition shortenURL (url : list Z) (maxLen : Z) : list Z :=
  if Z.of_nat (length url) <=? maxLen then url
  else if maxLen <? 4 then url
  else take (Z.to_nat (maxLen - 3)) url ++ %"...".
(** [%-<n>s], which counts runes. *)
Definition padRunes (n : Z) (s : list Z) : list Z := s ++ spaces (n - Z.of_nat (length (runes s))).

(** ** Numbers *)

Definition formatHashRate (hps : float64) : list Z :=
  let unit p u := Sprintf_f 2 (fdiv hps (f64_of_Z p)) ++ u in
  if fle (f64_of_Z (10 ^ 12)) hps then unit (10 ^ 12) (%" TH/s")
  else if fle (f64_of_Z (10 ^ 9)) hps then unit (10 ^ 9) (%" GH/s")
  else if fle (f64_of_Z (10 ^ 6)) hps then unit (10 ^ 6) (%" MH/s")
  else if fle (f64_of_Z (10 ^ 3)) hps then unit (10 ^ 3) (%" kH/s")
  else Sprintf_f 0 hps ++ %" H/s".

(** [Duration.Hours] and [Duration.Minutes]; [int] of a float in range truncates. *)
Definition durUnits (unit d : Z) : float64 := fadd (f64_of_Z (Z.quot d unit)) (fdiv (f64_of_Z (Z.rem d unit)) (f64_of_Z unit)).
Definition formatDuration (d : Z) : list Z :=
  let h := big_Int (durUnits (3600 * 10 ^ 9) d) in
  let m := Z.rem (big_Int (durUnits (60 * 10 ^ 9) d)) 60 in
  let s := Z.rem (big_Int (durSeconds d)) 60 in
  if 0 <? h then FormatInt h ++ %"h " ++ FormatInt m ++ %"m " ++ FormatInt s ++ %"s"
  else if 0 <? m then FormatInt m ++ %"m " ++ FormatInt s ++ %"s"
  else FormatInt s ++ %"s".

(** The exact constant 3.125e8 / (1e21 * 600), rounded. *)
Definition defaultSatsPerHash : float64 := f64_const 1 1920000000000000.

Definition SatsToDisplay (sats : Z) : list Z :=
  let btc := fdiv (f64_of_Z sats) (f64_of_Z (10 ^ 8)) in
  if 10 ^ 8 <=? sats then Sprintf_f 4 btc ++ %" BTC"
  else if 1000 <=? sats then FormatUint sats ++ %" sats (" ++ Sprintf_f 5 btc ++ %" BTC)"
  else FormatUint sats ++ %" sats".

(** ** The lines *)

Definition header (cols : Z) : list Z :=
  padRight (bold ++ cyan ++ %"  Otedama" ++ reset ++ dim ++ %" — non-custodial compute arbitration" ++ reset) cols.

Definition miningLine (s : Stats) (cols : Z) : list Z :=
  let rate := padRunes 14 (formatHashRate (ts_HashRate (st s))) in
  let devs := FormatInt (ts_Devices (st s)) ++ %" device(s)" ++
              (if 0 <? DevicesIdle s then %", " ++ FormatInt (DevicesIdle s) ++ %" idle" else []) in
  let sharesFull := %"shares: " ++ FormatUint (ts_SharesSent (st s)) ++ %" sent / " ++
                    FormatUint (ts_SharesFound (st s)) ++ %" found" in
  let prefix :=
    if ts_Curtailed (st s) then %"  " ++ cyan ++ rate ++ %" ⏸ paused (price below threshold)" ++ reset ++ %"  "
    else if ts_Stalled (st s) then
      %"  " ++ yellow ++ rate ++ %" ⚠ stalled" ++ reset ++ %"  " ++ padToVisibleWidth (dim ++ devs ++ reset) 20 ++ %"  "
    else %"  " ++ green ++ rate ++ reset ++ %"  " ++ padToVisibleWidth (dim ++ devs ++ reset) 20 ++ %"  " in
  prefix ++ dim ++ truncateToBudget sharesFull (cols - visibleLen prefix) ++ reset.

Definition poolLatencyText (s : Stats) : list Z :=
  if 0 <? ts_PoolLatency (st s) then %" (" ++ FormatInt (Milliseconds (ts_PoolLatency (st s))) ++ %"ms)" else [].
Definition poolStatus (s : Stats) : list Z * list Z :=
  if ts_Connected (st s) then
    (%"✓ connected" ++ poolLatencyText s, green ++ %"✓ connected" ++ reset ++ dim ++ poolLatencyText s ++ reset)
  else (%"✗ disconnected", red ++ %"✗ disconnected" ++ reset).
Definition poolLine (s : Stats) (cols : Z) : list Z :=
  let '(statusPlain, status) := poolStatus s in
  let urlBudget := cols - 8 - Z.of_nat (length statusPlain) - 2 in
  let urlBudget := if urlBudget <? 8 then 8 else urlBudget in
  let url := dim ++ shortenURL (ts_PoolURL (st s)) urlBudget ++ reset in
  %"  Pool: " ++ padToVisibleWidth url urlBudget ++ %"  " ++ status.

Definition satsPerDay (s : Stats) : float64 :=
  foldl (λ acc p, if ps_Active p then fadd acc (fmul (ps_SatsPerSecond p) (f64_of_Z 86400)) else acc)
    (fmul (fmul (ts_HashRate (st s)) defaultSatsPerHash) (f64_of_Z 86400)) (ts_Providers (st s)).
Definition earningsLine (s : Stats) : list Z :=
  let total := bold ++ yellow ++ Sprintf_f 0 (satsPerDay s) ++ %" sats/day" ++ reset in
  let earned := dim ++ %"est. earned: ~" ++ FormatUint (ts_EstSatsEarned (st s)) ++ %" sats" ++ reset in
  %"  " ++ padToVisibleWidth total 30 ++ %"  " ++ earned.

Definition providerLine (p : ProviderStats) : list Z :=
  let active := if ps_Active p then green ++ %"● active" ++ reset else dim ++ %"○ idle" ++ reset in
  %"  " ++ padRunes 30 (ps_Name p) ++ %"  " ++ padRunes 12 (Sprintf_f 1 (ps_SatsPerSecond p) ++ %" sats/s") ++ %"  " ++ active.

Definition walletLine (s : Stats) : list Z :=
  let fp := if bool_decide (ts_Wallet (st s) = []) then %"not initialized" else ts_Wallet (st s) in
  %"  Fingerprint: " ++ cyan ++ fp ++ reset.

Definition footer (s : Stats) (cols : Z) : list Z :=
  let left := %"  uptime: " ++ formatDuration (ts_Uptime (st s)) in
  let right := dim ++ %"Ctrl+C to exit" ++ reset in
  let gap := cols - visibleLen left - visibleLen right - 2 in
  left ++ spaces (if gap <? 1 then 1 else gap) ++ right.

(** ** The frame *)

Definition fitted (content : list Z) (cols : Z) : list Z :=
  let content := if cols <? visibleLen content then truncateVisible content cols else content in
  let pad := cols - visibleLen content in
  if 0 <? pad then content ++ spaces pad else content.
Definition writeLine (content : list Z) (cols : Z) : list Z := clearLine ++ fitted content cols ++ [13; 10].
Definition section (label : list Z) : list Z := bold ++ white ++ label ++ reset.
Definition frameLines (s : Stats) (cols : Z) : list (list Z) :=
  [header cols; []; section (%"MINING"); miningLine s cols; poolLine s cols; []; section (%"EARNINGS"); earningsLine s] ++
  (if bool_decide (ts_Providers (st s) = []) then []
   else [[]; section (%"ARBITRATION")] ++ map providerLine (ts_Providers (st s))) ++
  [[]; section (%"WALLET"); walletLine s; []; footer s cols].
Definition render (s : Stats) (cols : Z) : list Z :=
  cursorHome ++ concat (map (λ l, writeLine l cols) (frameLines s cols)).

(** ** Width *)

Record width := { w_cols : Z; widthLocked : bool }.
Definition newWidth : width := {| w_cols := 80; widthLocked := false |}.
Definition SetWidth (cols : Z) (w : width) : width := if 40 <=? cols then {| w_cols := cols; widthLocked := true |} else w.
(** What the kernel reports for a terminal file; [None] for another writer. *)
Definition detectWidth (terminal : option Z) (w : width) : width :=
  if widthLocked w then w
  else match terminal with
  | None => w
  | Some cols => if 40 <=? cols then {| w_cols := cols; widthLocked := false |} else w
  end.

(** ** The update queue and the life cycle *)

Definition updateCap : nat := 8.
(** [Update]: the oldest snapshot makes room when the queue is full. *)
Definition Update {A} (s : A) (queue : list A) : list A :=
  if (length queue <? updateCap)%nat then queue ++ [s] else drop 1 queue ++ [s].

Inductive call := CallStart | CallStop.
Inductive life := Alive (started closed looping : bool) (out : list Z) | Panic.
Definition Start (d : life) : life :=
  match d with
  | Alive false closed _ out => Alive true closed (negb closed) (out ++ hideCursor ++ clearScreen)
  | _ => d
  end.
(** Closing [doneCh] twice panics; [wg.Wait] returns when the loop has ended. *)
Definition Stop (d : life) : life :=
  match d with
  | Alive true true _ _ => Panic
  | Alive true false _ out => Alive false true false (out ++ showCursor ++ [10])
  | _ => d
  end.
Definition calls (cs : list call) : life :=
  foldl (λ d c, match c with CallStart => Start d | CallStop => Stop d end) (Alive false false false []) cs.

Example hash_rates :
  map formatHashRate [fzero; f64_of_Z 999; f64_of_Z 1500; f64_of_Z 12345678; f64_of_Z (10 ^ 13)] =
  [%"0 H/s"; %"999 H/s"; %"1.50 kH/s"; %"12.35 MH/s"; %"10.00 TH/s"] ∧
  map formatDuration [0; 61 * 10 ^ 9; 3723 * 10 ^ 9] = [%"0s"; %"1m 1s"; %"1h 2m 3s"] ∧
  [SatsToDisplay 999; SatsToDisplay 123456; SatsToDisplay 250000000] =
  [%"999 sats"; %"123456 sats (0.00123 BTC)"; %"2.5000 BTC"].
Proof. vm_compute. split_and!; reflexivity. Qed.

(** * Runes of a concatenation *)

(** A byte below 128 ends whatever came before it. *)
Lemma decode_rune_app b s c t :
  bytes_ok (b :: s) → 0 ≤ c < 128 → decode_rune ((b :: s) ++ c :: t) = decode_rune (b :: s).
Proof.
  intros _ Hc. unfold decode_rune, cont. cbn [app]. destruct (b <? 0x80); [done|].
  destruct ((b <? 0xC2) || (0xF4 <? b)); [done|]. cbv zeta.
  assert (∀ x y : Z, 128 ≤ x → negb ((x <=? c) && (c <=? y)) = true) as Hno by (intros; lia).
  assert (128 ≤ (if b =? 0xE0 then 0xA0 else if b =? 0xF0 then 0x90 else 0x80)) as Hlo by (repeat case_if; lia).
  destruct s as [|b1 s]; cbn [app]; [by rewrite Hno|].
  destruct (negb (_ && _)); [done|]. destruct (b <? 0xE0); [done|].
  destruct s as [|b2 s]; cbn [app]; [by rewrite Hno|].
  destruct (negb (_ && _)); [done|]. destruct (b <? 0xF0); [done|].
  destruct s as [|b3 s]; cbn [app]; [by rewrite Hno|done].
Qed.

Lemma decode_width b s : bytes_ok (b :: s) → (1 ≤ (decode_rune (b :: s)).2 ≤ length (b :: s))%nat.
Proof.
  intros Hs. destruct (decode_rune (b :: s)) as [r w] eqn:E. cbn [snd].
  destruct (decide (w = 1%nat ∧ r = RuneError)) as [[-> _]|Hno]; [cbn; lia|].
  by apply (decode_take_encode _ _ _ Hs ltac:(done) E Hno).
Qed.

Lemma runes_fuel_enough n m s : bytes_ok s → (length s ≤ n)%nat → (length s ≤ m)%nat → runes_fuel n s = runes_fuel m s.
Proof.
  revert m s. induction n as [|n IH]; intros m s Hs Hn Hm; [by destruct s; [destruct m|cbn in Hn; lia]|].
  destruct s as [|b s]; [by destruct m|]. destruct m as [|m]; [cbn in Hm; lia|]. cbn [runes_fuel].
  pose proof (decode_width b s Hs) as Hw. destruct (decode_rune (b :: s)) as [r w]. cbn [snd] in Hw. f_equal.
  apply IH; [by apply Forall_drop|rewrite length_drop; cbn [length] in *; lia..].
Qed.

Lemma runes_app_r a c t : bytes_ok (a ++ c :: t) → c < 128 → runes (a ++ c :: t) = runes a ++ runes (c :: t).
Proof.
  intros Hb Hc. assert (0 ≤ c < 128) as Hc'.
  { apply Forall_app in Hb as [_ Hb]. apply Forall_cons in Hb as [Hb _]. unfold byte_ok in Hb. lia. }
  unfold runes. remember (length a) as n eqn:En. revert a En Hb. induction n as [n IH] using lt_wf_ind. intros a En Hb.
  destruct a as [|b a]; [subst n; done|].
  destruct n as [|n]; [done|]. cbn [app length runes_fuel].
  change (b :: a ++ c :: t) with ((b :: a) ++ c :: t). apply Forall_app in Hb as Hb'. destruct Hb' as [Hba Hct].
  rewrite decode_rune_app by done. pose proof (decode_width b a Hba) as Hw.
  destruct (decode_rune (b :: a)) as [r w]. cbn [snd] in Hw. rewrite <-(app_comm_cons _ _ r). f_equal.
  rewrite drop_app_le by lia.
  assert (bytes_ok (drop w (b :: a) ++ c :: t)) as Hd by (apply Forall_app; split; [by apply Forall_drop|done]).
  assert (length (drop w (b :: a)) < S n)%nat as Hl by (rewrite length_drop; cbn [length] in *; lia).
  pose proof (IH (length (drop w (b :: a))) ltac:(lia) (drop w (b :: a)) eq_refl Hd) as E.
  rewrite (runes_fuel_enough _ (length (drop w (b :: a) ++ c :: t))), E by
    (done || rewrite !length_app, length_drop; cbn [length] in *; lia).
  f_equal. apply runes_fuel_enough; [by apply Forall_drop|lia|cbn [length] in *; lia].
Qed.

Definition ascii (s : list Z) : Prop := Forall (λ c, 0 ≤ c < 128) s.
Lemma runes_app_l a b : ascii a → runes (a ++ b) = a ++ runes b.
Proof.
  unfold runes. induction 1 as [|c a Hc _ IH]; [done|]. cbn [app length runes_fuel]. unfold decode_rune.
  rewrite (proj2 (Z.ltb_lt c 0x80)) by lia. cbn [drop]. by rewrite drop_0, IH.
Qed.

(** * Measuring *)

Definition visFrom (s0 : Z * bool) (s : list Z) : Z * bool := foldl visStep s0 (runes s).

Lemma foldl_vis_shift rs n e k :
  foldl visStep (n + k, e) rs = ((foldl visStep (n, e) rs).1 + k, (foldl visStep (n, e) rs).2).
Proof.
  revert n e. induction rs as [|r rs IH]; intros n e; cbn [foldl]; [done|]. unfold visStep at 2 4 6.
  destruct e; [apply IH|]. destruct (r =? ESC); [apply IH|]. replace (n + k + 1) with (n + 1 + k) by lia. apply IH.
Qed.
Lemma foldl_vis_le rs n e : n ≤ (foldl visStep (n, e) rs).1 ≤ n + Z.of_nat (length rs).
Proof.
  revert n e. induction rs as [|r rs IH]; intros n e; cbn [foldl length]; [cbn; lia|]. unfold visStep at 2 4.
  destruct e; [specialize (IH n (negb (endsEscape r))); lia|].
  destruct (r =? ESC); [specialize (IH n true); lia|specialize (IH (n + 1) false); lia].
Qed.

(** A text after which no escape sequence is open. *)
Definition closed (s : list Z) : Prop := (visFrom (0, false) s).2 = false.

Lemma vis_closed s : closed s → visFrom (0, false) s = (visibleLen s, false).
Proof. unfold closed, visibleLen, visFrom. destruct (foldl _ _ _) as [n e]. cbn. by intros ->. Qed.

Lemma visFrom_app_r s0 a c t : bytes_ok (a ++ c :: t) → c < 128 → visFrom s0 (a ++ c :: t) = visFrom (visFrom s0 a) (c :: t).
Proof. intros Hb Hc. unfold visFrom. by rewrite runes_app_r, foldl_app. Qed.
Lemma visFrom_app_l s0 a b : ascii a → visFrom s0 (a ++ b) = visFrom (foldl visStep s0 a) b.
Proof. intros Ha. unfold visFrom. by rewrite runes_app_l, foldl_app. Qed.
Lemma visFrom_shift n e s : visFrom (n, e) s = ((visFrom (0, e) s).1 + n, (visFrom (0, e) s).2).
Proof. unfold visFrom. by rewrite <-(Z.add_0_l n), foldl_vis_shift, Z.add_0_l. Qed.

(** Closed texts compose when the second starts with an ASCII byte. *)
Lemma closed_app a c t :
  bytes_ok (a ++ c :: t) → c < 128 → closed a → closed (c :: t) →
  closed (a ++ c :: t) ∧ visibleLen (a ++ c :: t) = visibleLen a + visibleLen (c :: t).
Proof.
  intros Hb Hc Ha Ht. assert (visFrom (0, false) (a ++ c :: t) = (visibleLen a + visibleLen (c :: t), false)) as E.
  { rewrite visFrom_app_r, (vis_closed a Ha), visFrom_shift, (vis_closed _ Ht) by done. cbn. f_equal. lia. }
  split; [unfold closed; by rewrite E|]. unfold visibleLen at 1. fold (visFrom (0, false) (a ++ c :: t)). by rewrite E.
Qed.

Lemma foldl_vis_plain s n : Forall (λ c, c ≠ ESC) s → foldl visStep (n, false) s = (n + Z.of_nat (length s), false).
Proof.
  intros H. revert n. induction H as [|c s Hc _ IH]; intros n; cbn [foldl length]; [f_equal; lia|]. unfold visStep at 2.
  rewrite (proj2 (Z.eqb_neq c ESC)) by done. rewrite IH. f_equal. lia.
Qed.
Lemma runes_ascii_self s : ascii s → runes s = s.
Proof. intros H. pose proof (runes_app_l s [] H) as E. by rewrite !app_nil_r in E. Qed.
Lemma vis_plain s : ascii s → ESC ∉ s → closed s ∧ visibleLen s = Z.of_nat (length s).
Proof.
  intros Ha He. unfold closed, visibleLen, visFrom. rewrite runes_ascii_self, foldl_vis_plain by
    (done || apply Forall_forall; intros c Hc ->; done). done.
Qed.
Lemma spaces_plain n : ascii (spaces n) ∧ ESC ∉ spaces n ∧ bytes_ok (spaces n).
Proof.
  unfold spaces. split; [apply Forall_replicate; lia|]. split; [|apply Forall_replicate; unfold byte_ok; lia].
  intros H. by apply elem_of_replicate in H as [? _].
Qed.
Lemma closed_spaces a n :
  bytes_ok a → closed a → closed (a ++ spaces n) ∧ visibleLen (a ++ spaces n) = visibleLen a + Z.max 0 n.
Proof.
  intros Hb Ha. destruct (spaces_plain n) as (H1 & H2 & H3). destruct (vis_plain _ H1 H2) as [Hc Hv].
  unfold spaces in *. destruct (Z.to_nat n) as [|k] eqn:E; cbn [replicate] in *.
  - rewrite app_nil_r. split; [done|lia].
  - destruct (closed_app a 32 (replicate k 32)) as [? ->]; [by apply Forall_app|lia|done|done|]. split; [done|].
    rewrite Hv. cbn [length]. rewrite length_replicate. lia.
Qed.

(** Any text is closed by a reset. *)
Lemma closed_reset a : bytes_ok a → closed (a ++ reset) ∧ visibleLen (a ++ reset) = visibleLen a.
Proof.
  intros Hb. unfold reset. assert (visFrom (0, false) (a ++ ESC :: %"[0m") = (visibleLen a, false)) as E.
  { rewrite visFrom_app_r; [|apply Forall_app; split; [done|apply (bool_decide_unpack _); vm_compute; exact I]|unfold ESC; lia].
    unfold visibleLen. fold (visFrom (0, false) a). destruct (visFrom (0, false) a) as [n []]; reflexivity. }
  split; [unfold closed; by rewrite E|]. unfold visibleLen at 1. fold (visFrom (0, false) (a ++ ESC :: %"[0m")). by rewrite E.
Qed.

(** * Cutting and padding *)

Fixpoint truncRunes (maxVisible n : Z) (inEsc : bool) (rs : list Z) : list Z :=
  match rs with
  | [] => []
  | r :: rs =>
      if inEsc then r :: truncRunes maxVisible n (negb (endsEscape r)) rs
      else if r =? ESC then r :: truncRunes maxVisible n true rs
      else if maxVisible <=? n then []
      else r :: truncRunes maxVisible (n + 1) false rs
  end.
Lemma truncLoop_runes m n e rs : truncLoop m n e rs = string_of_runes (truncRunes m n e rs).
Proof.
  revert n e. induction rs as [|r rs IH]; intros n e; cbn [truncLoop truncRunes]; [done|].
  repeat case_if; try done; rewrite IH; done.
Qed.
Lemma truncRunes_ok (P : Z → Prop) m n e rs : Forall P rs → Forall P (truncRunes m n e rs).
Proof. intros H. revert n e. induction H; intros n e; cbn [truncRunes]; [constructor|]. repeat case_if; try constructor; auto. Qed.
Lemma truncRunes_vis m n e rs :
  n ≤ m → m < (foldl visStep (n, e) rs).1 → foldl visStep (n, e) (truncRunes m n e rs) = (m, false).
Proof.
  revert n e. induction rs as [|r rs IH]; intros n e Hn; cbn [foldl truncRunes]; [cbn; lia|]. unfold visStep at 2.
  destruct e; [intros H; cbn [foldl]; by apply IH|]. destruct (r =? ESC) eqn:Er.
  { intros H. cbn [foldl]. unfold visStep at 2. rewrite Er. by apply IH. }
  intros H. destruct (m <=? n) eqn:Em; [cbn; f_equal; lia|]. cbn [foldl]. unfold visStep at 2. rewrite Er. apply IH; [lia|done].
Qed.

Lemma truncate_exact s m :
  bytes_ok s → 0 < m → m < visibleLen s →
  closed (truncateVisible s m) ∧ visibleLen (truncateVisible s m) = m ∧ bytes_ok (truncateVisible s m).
Proof.
  intros Hs Hm Hv. unfold truncateVisible. rewrite (proj2 (Z.leb_gt _ _)) by lia. rewrite truncLoop_runes.
  set (rs := truncRunes m 0 false (runes s)).
  assert (Forall (λ r, rune_ok r = true) rs) as Hok by (by apply truncRunes_ok, runes_ok).
  pose proof (string_of_runes_bytes rs) as Hb. destruct (closed_reset _ Hb) as [Hc ->]. split; [done|]. split.
  - unfold visibleLen. rewrite runes_string_of_runes by done. unfold rs. by rewrite truncRunes_vis by (done || lia).
  - apply Forall_app. split; [done|]. apply (bool_decide_unpack _). vm_compute. exact I.
Qed.

(** A line written is exactly as wide as the terminal. *)
Lemma fitted_exact content cols :
  bytes_ok content → closed content → 0 < cols →
  closed (fitted content cols) ∧ visibleLen (fitted content cols) = cols ∧ bytes_ok (fitted content cols).
Proof.
  intros Hb Hc Hcols. unfold fitted. cbv zeta.
  assert (let c := if cols <? visibleLen content then truncateVisible content cols else content in
          closed c ∧ visibleLen c ≤ cols ∧ bytes_ok c) as (H1 & H2 & H3).
  { cbv zeta. destruct (Z.ltb_spec cols (visibleLen content)); [|done].
    destruct (truncate_exact content cols Hb Hcols) as (? & -> & ?); [done|]. done. }
  destruct (Z.ltb_spec 0 (cols - visibleLen (if cols <? visibleLen content then truncateVisible content cols else content))).
  - destruct (closed_spaces _ (cols - visibleLen (if cols <? visibleLen content then truncateVisible content cols else content)) H3 H1)
      as [? ->]. split; [done|]. split; [lia|]. apply Forall_app. split; [done|apply spaces_plain].
  - split; [done|]. split; [lia|done].
Qed.

(** * The lines of a frame *)

(** A byte that does not end the line. *)
Definition good (c : Z) : Prop := 0 ≤ c < 256 ∧ c ≠ 10 ∧ c ≠ 13.
Definition goodb (c : Z) : bool := (0 <=? c) && (c <? 256) && negb (c =? 10) && negb (c =? 13).

Lemma good_lit s : forallb goodb s = true → Forall good s.
Proof.
  rewrite forallb_forall, Forall_forall. unfold goodb, good. intros H c Hc%list_elem_of_In. specialize (H c Hc). lia.
Qed.
Lemma good_bytes s : Forall good s → bytes_ok s.
Proof. intros H. eapply Forall_impl; [exact H|]. unfold good, byte_ok. change (2 ^ 8) with 256. intros c. lia. Qed.
Lemma graphic_good s : Forall graphic s → Forall good s.
Proof. intros H. eapply Forall_impl; [exact H|]. unfold graphic, good. intros c. lia. Qed.
Lemma spaces_good n : Forall good (spaces n).
Proof. apply Forall_replicate. unfold good. lia. Qed.
Lemma FormatInt_good v : Forall good (FormatInt v).
Proof.
  apply graphic_good. unfold FormatInt. case_if; [constructor; [unfold graphic; lia|]|]; apply (formatDigits_graphic 20); lia.
Qed.
Lemma FormatUint_good v : 0 ≤ v → Forall good (FormatUint v).
Proof. intros. by apply graphic_good, (formatDigits_graphic 20). Qed.

Lemma roundEven_nonneg num den : 0 ≤ num → 0 < den → 0 ≤ roundEven num den.
Proof.
  intros Hn Hd. unfold roundEven. pose proof (Z.div_pos num den Hn Hd). repeat case_match; lia.
Qed.
Lemma Sprintf_f_good prec v : Forall good (Sprintf_f prec v).
Proof.
  assert (∀ q, 0 ≤ q → Forall good (
    let ds := replicate (S prec - length (allDigits q)) 48 ++ allDigits q in
    if (prec =? 0)%nat then take (length ds - prec) ds
    else take (length ds - prec) ds ++ [46] ++ drop (length ds - prec) ds)) as HF.
  { intros q Hq. cbv zeta. set (ds := replicate _ 48 ++ allDigits q).
    assert (Forall good ds) as Hd.
    { apply Forall_app. split; [apply Forall_replicate; unfold good; lia|]. by apply graphic_good, formatDigits_graphic. }
    case_if; [by apply Forall_take|]. rewrite !Forall_app. split_and!; [by apply Forall_take|by apply good_lit|by apply Forall_drop]. }
  assert (∀ b, Forall good (signOf b)) as HS by (intros []; by apply good_lit).
  destruct v as [b|b| |b m e]; cbn [Sprintf_f].
  - apply Forall_app. split; [done|]. by apply (HF 0).
  - destruct b; by apply good_lit.
  - by apply good_lit.
  - unfold scaled. apply Forall_app. split; [done|]. apply HF, roundEven_nonneg.
    + repeat apply Z.mul_nonneg_nonneg; try lia; apply Z.pow_nonneg; lia.
    + apply Z.mul_pos_pos; apply Z.pow_pos_nonneg; lia.
Qed.

Lemma runes_good s :
  Forall good s → Forall (λ r, rune_ok r = true ∧ Forall good (encode_rune r)) (runes s).
Proof.
  intros Hs. pose proof (good_bytes s Hs) as Hb. destruct (chunks_spec s Hb) as (Hc & Hok & <-).
  rewrite <-Hc in Hs. clear Hc Hb. induction Hok as [|[r bs] cs Hcs _ IH]; cbn [map concat fst snd] in *; [constructor|].
  apply Forall_app in Hs as [H1 H2]. constructor; [|by apply IH].
  destruct Hcs as [(b & [= -> ->] & _)|[Hr E]]; cbn [fst snd] in *; [split; [done|by apply good_lit]|]. by subst bs.
Qed.
Lemma truncate_good s m : Forall good s → Forall good (truncateVisible s m).
Proof.
  intros Hs. unfold truncateVisible. case_if; [constructor|]. apply Forall_app. split; [|by apply good_lit].
  rewrite truncLoop_runes. unfold string_of_runes. apply Forall_concat, Forall_fmap.
  apply (truncRunes_ok (λ r, Forall good (encode_rune r))). eapply Forall_impl; [by apply runes_good|]. by intros r [].
Qed.
Lemma fitted_good s m : Forall good s → Forall good (fitted s m).
Proof.
  intros Hs. unfold fitted. cbv zeta. assert (Forall good (if m <? visibleLen s then truncateVisible s m else s)) as H
    by (case_if; [by apply truncate_good|done]).
  case_if; [apply Forall_app; split; [done|apply spaces_good]|done].
Qed.

(** A line of the frame: no line end, and no escape sequence left open. *)
Definition lineOk (s : list Z) : Prop := Forall good s ∧ closed s.
Lemma lineOk_reset s : Forall good s → lineOk (s ++ reset).
Proof.
  intros Hs. split; [apply Forall_app; split; [done|by apply good_lit]|]. by apply closed_reset, good_bytes.
Qed.

Lemma lineOk_dim p t : Forall good p → Forall good t → lineOk (p ++ dim ++ t ++ reset).
Proof.
  intros Hp Ht. assert (p ++ dim ++ t ++ reset = (p ++ dim ++ t) ++ reset) as -> by (by rewrite <-!app_assoc).
  apply lineOk_reset. rewrite !Forall_app. split_and!; [done|by apply good_lit|done].
Qed.

Lemma formatHashRate_good v : Forall good (formatHashRate v).
Proof.
  unfold formatHashRate. repeat case_if; apply Forall_app; (split; [apply Sprintf_f_good|by apply good_lit]).
Qed.
Lemma formatDuration_good d : Forall good (formatDuration d).
Proof.
  unfold formatDuration. cbv zeta. repeat case_if; rewrite ?Forall_app; split_and!; auto using FormatInt_good; by apply good_lit.
Qed.
Lemma padRunes_good n s : Forall good s → Forall good (padRunes n s).
Proof. intros Hs. apply Forall_app. split; [done|apply spaces_good]. Qed.
Lemma padVisible_good s n : Forall good s → Forall good (padToVisibleWidth s n).
Proof. intros Hs. unfold padToVisibleWidth. case_if; [apply Forall_app; split; [done|apply spaces_good]|done]. Qed.
Lemma budget_good s n : Forall good s → Forall good (truncateToBudget s n).
Proof.
  intros Hs. unfold truncateToBudget. repeat case_if; try done; [by apply Forall_take|].
  apply Forall_app. split; [by apply Forall_take|by apply good_lit].
Qed.
Lemma shortenURL_good s n : Forall good s → Forall good (shortenURL s n).
Proof.
  intros Hs. unfold shortenURL. repeat case_if; try done. apply Forall_app. split; [by apply Forall_take|by apply good_lit].
Qed.

(** The snapshot's texts have no line ends and its counters are counts. *)
Record stats_ok (s : Stats) : Prop := {
  ok_url : Forall good (ts_PoolURL (st s));
  ok_wallet : Forall good (ts_Wallet (st s));
  ok_names : Forall (λ p, Forall good (ps_Name p)) (ts_Providers (st s));
  ok_counts : 0 ≤ ts_SharesSent (st s) ∧ 0 ≤ ts_SharesFound (st s) ∧ 0 ≤ ts_EstSatsEarned (st s)
}.

#[local] Hint Resolve formatHashRate_good formatDuration_good padRunes_good padVisible_good budget_good shortenURL_good
  FormatInt_good FormatUint_good Sprintf_f_good spaces_good : good.
Ltac good := repeat (rewrite Forall_app; split); first [by apply good_lit|solve [eauto with good]|idtac].

Lemma poolLatencyText_good s : Forall good (poolLatencyText s).
Proof. unfold poolLatencyText. case_if; [good|constructor]. Qed.
#[local] Hint Resolve poolLatencyText_good : good.

Lemma miningLine_ok s cols : stats_ok s → lineOk (miningLine s cols).
Proof.
  intros [_ _ _ (H1 & H2 & _)]. unfold miningLine. cbv zeta.
  assert (Forall good (FormatInt (ts_Devices (st s)) ++ %" device(s)" ++
    (if 0 <? DevicesIdle s then %", " ++ FormatInt (DevicesIdle s) ++ %" idle" else []))) as Hd.
  { good. case_if; [good|constructor]. }
  apply lineOk_dim; [|apply budget_good; good].
  repeat case_if; good; apply padVisible_good; good; done.
Qed.
Lemma poolLine_ok s cols : stats_ok s → lineOk (poolLine s cols).
Proof.
  intros [H _ _ _]. unfold poolLine, poolStatus.
  assert (∀ b status, Forall good status → lineOk (%"  Pool: " ++
    padToVisibleWidth (dim ++ shortenURL (ts_PoolURL (st s)) b ++ reset) b ++ %"  " ++ status ++ reset)) as HL.
  { intros b status Hs. rewrite !app_assoc. apply lineOk_reset. rewrite <-!app_assoc. good. apply padVisible_good. good. }
  destruct (ts_Connected (st s)); cbv zeta.
  - specialize (HL (if cols - 8 - Z.of_nat (length (%"✓ connected" ++ poolLatencyText s)) - 2 <? 8 then 8
      else cols - 8 - Z.of_nat (length (%"✓ connected" ++ poolLatencyText s)) - 2)
      (green ++ %"✓ connected" ++ reset ++ dim ++ poolLatencyText s) ltac:(good)).
    rewrite <-!app_assoc in HL. exact HL.
  - specialize (HL (if cols - 8 - Z.of_nat (length (%"✗ disconnected")) - 2 <? 8 then 8
      else cols - 8 - Z.of_nat (length (%"✗ disconnected")) - 2) (red ++ %"✗ disconnected") ltac:(good)).
    rewrite <-!app_assoc in HL. exact HL.
Qed.
Lemma earningsLine_ok s : stats_ok s → lineOk (earningsLine s).
Proof.
  intros [_ _ _ (_ & _ & H)]. unfold earningsLine. cbv zeta. rewrite !app_assoc. apply lineOk_reset. rewrite <-!app_assoc.
  good. apply padVisible_good. good.
Qed.
Lemma providerLine_ok p : Forall good (ps_Name p) → lineOk (providerLine p).
Proof.
  intros Hn. unfold providerLine. cbv zeta. destruct (ps_Active p); rewrite !app_assoc; apply lineOk_reset; rewrite <-!app_assoc;
    good; apply padRunes_good; good.
Qed.
Lemma walletLine_ok s : stats_ok s → lineOk (walletLine s).
Proof.
  intros [_ H _ _]. unfold walletLine. cbv zeta. rewrite !app_assoc. apply lineOk_reset. rewrite <-!app_assoc. good.
  case_bool_decide; [by apply good_lit|done].
Qed.
Lemma footer_ok s cols : lineOk (footer s cols).
Proof. unfold footer. cbv zeta. rewrite !app_assoc. apply lineOk_reset. rewrite <-!app_assoc. good. Qed.
Lemma section_ok label : forallb goodb label = true → lineOk (section label).
Proof. intros H. unfold section. rewrite !app_assoc. apply lineOk_reset. rewrite <-!app_assoc. good. Qed.
Lemma header_ok cols : lineOk (header cols).
Proof.
  unfold header, padRight. cbv zeta.
  assert (lineOk (bold ++ cyan ++ %"  Otedama" ++ reset ++ dim ++ %" — non-custodial compute arbitration" ++ reset)) as [Hg Hc].
  { rewrite !app_assoc. apply lineOk_reset. rewrite <-!app_assoc. good. }
  case_if; [by split|]. split; [apply Forall_app; split; [done|apply spaces_good]|]. by apply closed_spaces; [apply good_bytes|].
Qed.

Lemma frameLines_ok s cols : stats_ok s → Forall lineOk (frameLines s cols).
Proof.
  intros Hs. assert (lineOk []) as Hnil by (split; [constructor|done]). unfold frameLines.
  rewrite !Forall_app. split_and!.
  - repeat apply Forall_cons_2; auto using header_ok, miningLine_ok, poolLine_ok, earningsLine_ok; try by apply section_ok.
  - case_bool_decide; [constructor|]. apply Forall_app. split.
    + repeat apply Forall_cons_2; [done|by apply section_ok|apply Forall_nil_2].
    + apply Forall_fmap. eapply Forall_impl; [apply Hs|]. intros p. apply providerLine_ok.
  - repeat apply Forall_cons_2; auto using walletLine_ok, footer_ok; try by apply section_ok.
Qed.



(** * The connection status *)

Lemma formatDigits_bound fuel v k : 0 ≤ v < 10 ^ Z.of_nat (S k) → (length (formatDigits fuel v) ≤ S k)%nat.
Proof.
  revert fuel v. induction k as [|k IH]; intros [|fuel] v Hv; cbn [formatDigits length]; try lia.
  - change (10 ^ Z.of_nat 1) with 10 in Hv. by if_lia.
  - rewrite Nat2Z.inj_succ, Z.pow_succ_r in Hv by lia. case_if; [cbn; lia|]. rewrite length_app. cbn [length].
    specialize (IH fuel (v / 10)). assert (0 ≤ v / 10 < 10 ^ Z.of_nat (S k)) as H by (Z.to_euclidean_division_equations; lia).
    specialize (IH H). lia.
Qed.

Lemma latency_text s :
  ts_PoolLatency (st s) < 10 ^ 12 →
  (length (poolLatencyText s) ≤ 11)%nat ∧ ascii (poolLatencyText s) ∧ ESC ∉ poolLatencyText s.
Proof.
  intros Hl. unfold poolLatencyText. destruct (Z.ltb_spec 0 (ts_PoolLatency (st s))) as [H0|]; [|split; [cbn; lia|split; [constructor|set_solver]]].
  assert (0 ≤ Milliseconds (ts_PoolLatency (st s)) < 10 ^ 6) as Hm.
  { unfold Milliseconds. rewrite Z.quot_div_nonneg by lia. split; [apply Z.div_pos; lia|]. apply Z.div_lt_upper_bound; lia. }
  unfold FormatInt. if_lia. pose proof (formatDigits_bound 20 _ 5 Hm) as HL. fold (FormatUint (Milliseconds (ts_PoolLatency (st s)))) in HL.
  pose proof (formatDigits_graphic 20 _ (proj1 Hm)) as HG. fold (FormatUint (Milliseconds (ts_PoolLatency (st s)))) in HG.
  set (ds := FormatUint _) in *. split.
  { rewrite !length_app. change (length (%" (")) with 2%nat. change (length (%"ms)")) with 3%nat. lia. }
  assert (Forall (λ c, 0 ≤ c < 128 ∧ c ≠ ESC) (%" (" ++ ds ++ %"ms)")) as HF.
  { rewrite !Forall_app. split_and!.
    - apply (bool_decide_unpack _). vm_compute. exact I.
    - eapply Forall_impl; [exact HG|]. unfold graphic, ESC. lia.
    - apply (bool_decide_unpack _). vm_compute. exact I. }
  split; [eapply Forall_impl; [exact HF|]; by intros c []|]. intros Hin. rewrite Forall_forall in HF. by destruct (HF _ Hin).
Qed.

Lemma runes_length s : (length (runes s) ≤ length s)%nat.
Proof.
  unfold runes. generalize (length s) as n. intros n. revert s. induction n as [|n IH]; intros s; cbn [runes_fuel length]; [lia|].
  destruct s as [|b s]; [cbn; lia|]. destruct (decode_rune (b :: s)) as [r w]. cbn [length]. specialize (IH (drop w (b :: s))). lia.
Qed.

(** A text in one style is as wide as the text. *)
Lemma styled_vis u :
  bytes_ok u → closed (dim ++ u ++ reset) ∧ visibleLen (dim ++ u ++ reset) = visibleLen u ∧ 0 ≤ visibleLen u ≤ Z.of_nat (length u).
Proof.
  intros Hu. assert (ascii dim) as Ha by (apply (bool_decide_unpack _); vm_compute; exact I).
  assert (bytes_ok (dim ++ u)) as Hb.
  { apply Forall_app. split; [apply (bool_decide_unpack _); vm_compute; exact I|done]. }
  destruct (closed_reset _ Hb) as [H1 H2]. rewrite <-app_assoc in H1, H2. split; [done|]. split.
  - rewrite H2. unfold visibleLen. fold (visFrom (0, false) (dim ++ u)). by rewrite visFrom_app_l.
  - unfold visibleLen. pose proof (foldl_vis_le (runes u) 0 false). pose proof (runes_length u). lia.
Qed.

Lemma shortenURL_length u n : 8 ≤ n → Z.of_nat (length (shortenURL u n)) ≤ n.
Proof.
  intros Hn. unfold shortenURL. repeat case_if; try lia. rewrite length_app, length_take. cbn [length bytes_of_string]. cbn. lia.
Qed.

(** The width of a pool line around the width of its status. *)
Lemma poolLine_vis u b status_head status_tail w :
  bytes_ok u → 0 ≤ b → Z.of_nat (length u) ≤ b → bytes_ok (status_head :: status_tail) → status_head < 128 →
  closed (status_head :: status_tail) → visibleLen (status_head :: status_tail) = w →
  visibleLen (%"  Pool: " ++ padToVisibleWidth (dim ++ u ++ reset) b ++ %"  " ++ status_head :: status_tail) = 10 + b + w.
Proof.
  intros Hu Hb Hlen Hs Hh Hc Hw. destruct (styled_vis u Hu) as (Sc & Sv & Sb).
  assert (bytes_ok (dim ++ u ++ reset)) as HB.
  { rewrite !Forall_app. split_and!; [apply (bool_decide_unpack _); vm_compute; exact I|done|apply (bool_decide_unpack _); vm_compute; exact I]. }
  assert (∃ t, padToVisibleWidth (dim ++ u ++ reset) b = ESC :: t ∧ bytes_ok (ESC :: t) ∧ closed (ESC :: t) ∧ visibleLen (ESC :: t) = b)
    as (t & -> & Tb & Tc & Tv).
  { destruct (closed_spaces (dim ++ u ++ reset) (b - visibleLen (dim ++ u ++ reset)) HB Sc) as [Pc Pv].
    unfold padToVisibleWidth. cbv zeta. rewrite Sv in *. destruct (Z.ltb_spec 0 (b - visibleLen u)).
    - eexists. split; [reflexivity|]. split; [|split; [exact Pc|]].
      + apply (Forall_app _ (dim ++ u ++ reset)). split; [done|]. apply spaces_plain.
      + etransitivity; [exact Pv|]. lia.
    - eexists. split; [reflexivity|]. split; [exact HB|]. split; [exact Sc|]. etransitivity; [exact Sv|]. lia. }
  assert (bytes_ok (32 :: 32 :: status_head :: status_tail)) as H2b by (apply (Forall_app _ [32; 32]); split; [apply (bool_decide_unpack _); vm_compute; exact I|exact Hs]).
  destruct (closed_app (%"  ") status_head status_tail H2b Hh ltac:(reflexivity) Hc) as [E1 V1].
  change (%"  " ++ status_head :: status_tail) with (32 :: 32 :: status_head :: status_tail) in *.
  assert (bytes_ok ((ESC :: t) ++ 32 :: 32 :: status_head :: status_tail)) as H3b by (apply Forall_app; split; [exact Tb|exact H2b]).
  destruct (closed_app (ESC :: t) 32 (32 :: status_head :: status_tail) H3b ltac:(lia) Tc E1) as [E2 V2].
  assert (bytes_ok (%"  Pool: " ++ ESC :: t ++ 32 :: 32 :: status_head :: status_tail)) as H4b.
  { apply Forall_app. split; [apply (bool_decide_unpack _); vm_compute; exact I|exact H3b]. }
  destruct (closed_app (%"  Pool: ") ESC _ H4b ltac:(unfold ESC; lia) ltac:(reflexivity) E2) as [_ V3].
  cbn [app] in *. rewrite V3, V2, V1, Tv, Hw. change (visibleLen (%"  Pool: ")) with 8. change (visibleLen (%"  ")) with 2. lia.
Qed.

(** The connection status is never cut off.  On every terminal of the documented
    minimum of 40 columns or more, whatever the pool URL, and for a latency below
    a thousand seconds, the row of the pool line ends with the complete status and
    padding. *)
Theorem pool_status_visible s cols :
  Forall good (ts_PoolURL (st s)) → 40 ≤ cols → ts_PoolLatency (st s) < 10 ^ 12 →
  ∃ front k, fitted (poolLine s cols) cols = front ++ (poolStatus s).2 ++ spaces k.
Proof.
  intros Hu Hcols Hlat. destruct (latency_text s Hlat) as (HL & HA & HE).
  assert (∀ b status, fitted (%"  Pool: " ++ padToVisibleWidth (dim ++ shortenURL (ts_PoolURL (st s)) b ++ reset) b ++ %"  " ++ status) cols =
    fitted (%"  Pool: " ++ padToVisibleWidth (dim ++ shortenURL (ts_PoolURL (st s)) b ++ reset) b ++ %"  " ++ status) cols →
    visibleLen (%"  Pool: " ++ padToVisibleWidth (dim ++ shortenURL (ts_PoolURL (st s)) b ++ reset) b ++ %"  " ++ status) ≤ cols →
    ∃ front k, fitted (%"  Pool: " ++ padToVisibleWidth (dim ++ shortenURL (ts_PoolURL (st s)) b ++ reset) b ++ %"  " ++ status) cols =
      front ++ status ++ spaces k) as HF.
  { intros b status _ Hv. unfold fitted. rewrite (proj2 (Z.ltb_ge _ _) Hv). cbv zeta. case_if.
    - eexists (%"  Pool: " ++ padToVisibleWidth _ b ++ %"  "), _. rewrite <-!app_assoc. reflexivity.
    - exists (%"  Pool: " ++ padToVisibleWidth (dim ++ shortenURL (ts_PoolURL (st s)) b ++ reset) b ++ %"  "), 0.
      cbn [spaces Z.to_nat replicate]. rewrite app_nil_r, <-!app_assoc. reflexivity. }
  assert (∀ b, 8 ≤ b → bytes_ok (shortenURL (ts_PoolURL (st s)) b) ∧ Z.of_nat (length (shortenURL (ts_PoolURL (st s)) b)) ≤ b) as HU.
  { intros b Hb. split; [by apply good_bytes, shortenURL_good|by apply shortenURL_length]. }
  unfold poolLine, poolStatus. destruct (ts_Connected (st s)); cbn [snd]; cbv zeta.
  - set (lat := poolLatencyText s) in *. destruct (vis_plain lat HA HE) as [_ LV].
    assert (bytes_ok lat) as Lb by (eapply Forall_impl; [exact HA|]; unfold byte_ok; change (2 ^ 8) with 256; intros c; cbn; lia).
    destruct (styled_vis lat Lb) as (Sc & Sv & _).
    assert (bytes_ok (ESC :: %"[32m✓ connected" ++ reset)) as Kb by (apply (bool_decide_unpack _); vm_compute; exact I).
    destruct (closed_app (ESC :: %"[32m✓ connected" ++ reset) ESC (%"[2m" ++ lat ++ reset)) as [Cc Cv].
    { apply Forall_app. split; [exact Kb|]. apply (Forall_app _ dim (lat ++ reset)). split; [apply (bool_decide_unpack _); vm_compute; exact I|].
      apply Forall_app. split; [exact Lb|apply (bool_decide_unpack _); vm_compute; exact I]. }
    { unfold ESC; lia. } { vm_compute. reflexivity. } { exact Sc. }
    change (visibleLen (ESC :: %"[2m" ++ lat ++ reset)) with (visibleLen (dim ++ lat ++ reset)) in Cv. rewrite Sv, LV in Cv.
    rewrite length_app. change (length (%"✓ connected")) with 13%nat.
    set (b := if cols - 8 - Z.of_nat (13 + length lat) - 2 <? 8 then 8 else cols - 8 - Z.of_nat (13 + length lat) - 2).
    assert (8 ≤ b ∧ 21 + b + Z.of_nat (length lat) ≤ cols) as [Hb8 Hbc] by (unfold b; case_if; lia).
    destruct (HU b Hb8) as [U1 U2]. apply (HF b _ eq_refl).
    change (green ++ %"✓ connected" ++ reset ++ dim ++ lat ++ reset)
      with (ESC :: (%"[32m✓ connected" ++ reset) ++ ESC :: %"[2m" ++ lat ++ reset).
    rewrite (poolLine_vis _ b ESC _ (11 + Z.of_nat (length lat))); [lia|done|lia|done| |unfold ESC; lia|exact Cc|].
    + apply (Forall_app _ (ESC :: %"[32m✓ connected" ++ reset)). split; [exact Kb|].
      apply (Forall_app _ dim (lat ++ reset)). split; [apply (bool_decide_unpack _); vm_compute; exact I|].
      apply Forall_app. split; [exact Lb|apply (bool_decide_unpack _); vm_compute; exact I].
    + exact Cv.
  - change (length (%"✗ disconnected")) with 16%nat. set (b := if cols - 8 - Z.of_nat 16 - 2 <? 8 then 8 else cols - 8 - Z.of_nat 16 - 2).
    assert (8 ≤ b ∧ 24 + b ≤ cols) as [Hb8 Hbc] by (unfold b; case_if; lia).
    destruct (HU b Hb8) as [U1 U2]. apply (HF b _ eq_refl).
    change (red ++ %"✗ disconnected" ++ reset) with (ESC :: %"[31m✗ disconnected" ++ reset).
    rewrite (poolLine_vis _ b ESC _ 14); [lia|done|lia|done| |unfold ESC; lia| |].
    + apply (bool_decide_unpack _). vm_compute. exact I.
    + vm_compute. reflexivity.
    + vm_compute. reflexivity.
Qed.

Lemma pool_status_visible_witness :
  let s := {| st := {| ts_HashRate := fzero; ts_SharesFound := 0; ts_SharesSent := 0;
                       ts_PoolURL := %"stratum+tls://pool.example.com:3333/a/very/long/path";
                       ts_PoolLatency := 42 * 10 ^ 6; ts_Connected := true; ts_Stalled := false; ts_Curtailed := false;
                       ts_EstSatsEarned := 0; ts_Wallet := []; ts_Uptime := 0; ts_Devices := 1; ts_Providers := [] |};
              DevicesIdle := 0 |} in
  ∃ front k, fitted (poolLine s 40) 40 = front ++ (poolStatus s).2 ++ spaces k.
Proof.
  intros s. refine (pool_status_visible s 40 _ _ _); [|apply Z.leb_le; reflexivity|apply Z.ltb_lt; reflexivity].
  apply good_lit. vm_compute. reflexivity.
Defined.
