(* ===== verification/HttpServer.v ===== *)
(** * internal/httpserver: health, readiness and metrics over HTTP

    The server's state, its life cycle, the handlers with their complete
    responses, and the routing of the standard mux over the patterns the server
    registers.  The profiling handlers are the standard library's and only named. *)
From S2P Require Import Prelude.
From S2P Require Import Float64.
From S2P Require Import Text.
From S2P Require Import Bech32.
From S2P Require Import Metrics.
From S2P Require Import Poolproto.
From S2P Require Import Config.
From S2P Require Import Quoting.

Open Scope Z_scope.

Record Server := {
  srv_addr : list Z; registry : option Registry; pprofOn : bool; ready : bool;
  boundAddr : option (list Z); serveErr : option error; closed : bool
}.
Definition NewServer (addr : list Z) (reg : option Registry) (enablePprof : bool) : Server :=
  {| srv_addr := addr; registry := reg; pprofOn := enablePprof; ready := false; boundAddr := None; serveErr := None;
     closed := false |}.

(** ** Responses *)

Record response := { status : Z; contentType : list Z; body : list Z }.
Inductive reply := Respond (r : response) | Redirect (path : list Z) | Profile (name : list Z).

Definition plainText : list Z := %"text/plain; charset=utf-8".
(** [http.Error]. *)
Definition http_Error (msg : list Z) (code : Z) : response :=
  {| status := code; contentType := plainText; body := msg ++ [10] |}.

Definition handleHealthz : response := {| status := 200; contentType := plainText; body := %"ok" ++ [10] |}.
Definition handleReadyz (s : Server) : response :=
  if ready s then {| status := 200; contentType := plainText; body := %"ready" ++ [10] |}
  else {| status := 503; contentType := plainText; body := %"not ready" ++ [10] |}.
(** The bytes [WriteText] gives a connection that does not fail. *)
Definition metricsText (r : Registry) : list Z := written (WriteText r {| written := []; fails := None |}).1.
Definition handleMetrics (s : Server) : response :=
  match registry s with
  | None => http_Error (%"metrics registry not configured") 500
  | Some r => {| status := 200; contentType := %"text/plain; version=0.0.4; charset=utf-8"; body := metricsText r |}
  end.
Definition indexHTML : list Z := unlines
  [%"<!DOCTYPE html>"; %"<html>"; %"<head><title>Otedama</title></head>"; %"<body>"; %"<h1>Otedama</h1>";
   %"<p>Non-custodial compute arbitration — HTTP management interface.</p>"; %"<ul>";
   %"<li><a href=" ++ [34] ++ %"/metrics" ++ [34] ++ %">/metrics</a> — Prometheus scrape endpoint</li>";
   %"<li><a href=" ++ [34] ++ %"/healthz" ++ [34] ++ %">/healthz</a> — liveness probe</li>";
   %"<li><a href=" ++ [34] ++ %"/readyz" ++ [34] ++ %">/readyz</a> — readiness probe</li>"; %"</ul>"; %"</body>"; %"</html>"].
Definition handleIndex (path : list Z) : response :=
  if negb (bool_decide (path = %"/")) then http_Error (%"404 page not found") 404
  else {| status := 200; contentType := %"text/html; charset=utf-8"; body := indexHTML |}.

(** ** Routing *)

Inductive handler := HHealthz | HReadyz | HMetrics | HIndex | HProfile (name : list Z).
Definition profiles : list (list Z) :=
  [%"cmdline"; %"profile"; %"symbol"; %"trace"; %"heap"; %"goroutine"; %"allocs"; %"block"; %"mutex"; %"threadcreate"].
Definition registerPprofHandlers : list (list Z * handler) :=
  (%"/debug/pprof/", HProfile []) :: map (λ n, (%"/debug/pprof/" ++ n, HProfile n)) profiles.
Definition patterns (s : Server) : list (list Z * handler) :=
  [(%"/healthz", HHealthz); (%"/readyz", HReadyz); (%"/metrics", HMetrics)] ++
  (if pprofOn s then registerPprofHandlers else []) ++ [(%"/", HIndex)].

(** The mux: a pattern that ends in a slash covers its subtree, another only itself;
    the longest pattern wins. *)
Definition covers (pat path : list Z) : bool :=
  if bool_decide (last pat = Some 47) then HasPrefix path pat else bool_decide (path = pat).
Definition longest (best : option (list Z * handler)) (x : list Z * handler) : option (list Z * handler) :=
  match best with
  | Some b => if (length b.1 <? length x.1)%nat then Some x else best
  | None => Some x
  end.
Definition muxMatch (ps : list (list Z * handler)) (path : list Z) : option (list Z * handler) :=
  foldl longest None (List.filter (λ x, covers x.1 path) ps).
(** [cleanPath]: rooted and lexically clean, with its trailing slash kept. *)
Definition cleanPath (path : list Z) : list Z :=
  match path with
  | [] => %"/"
  | c :: _ =>
      let q := if c =? 47 then path else 47 :: path in
      let np := filepath_Clean q in
      if bool_decide (last q = Some 47) && negb (bool_decide (np = %"/")) then np ++ [47] else np
  end.
Definition serve (s : Server) (path : list Z) : reply :=
  let cleaned := cleanPath path in
  if negb (bool_decide (cleaned = path)) then Redirect cleaned
  else
    match muxMatch (patterns s) path with
    | None => Respond (http_Error (%"404 page not found") 404)
    | Some (pat, h) =>
        if negb (bool_decide (pat = path)) && negb (bool_decide (last path = Some 47)) &&
           bool_decide (fst <$> muxMatch (patterns s) (path ++ [47]) = Some (path ++ [47]))
        then Redirect (path ++ [47])
        else match h with
        | HHealthz => Respond handleHealthz
        | HReadyz => Respond (handleReadyz s)
        | HMetrics => Respond (handleMetrics s)
        | HIndex => Respond (handleIndex path)
        | HProfile n => Profile n
        end
    end.

(** ** Life cycle *)

Definition with_ready (b : bool) (s : Server) : Server :=
  {| srv_addr := srv_addr s; registry := registry s; pprofOn := pprofOn s; ready := b; boundAddr := boundAddr s;
     serveErr := serveErr s; closed := closed s |}.
Definition SetReady (b : bool) (s : Server) : Server := with_ready b s.
(** [net.Listen] answers the address bound. *)
Definition http_Start (listen : result (list Z)) (s : Server) : result Server :=
  bound ← wrapping "httpserver: listen on %s: %w" listen;
  Ok {| srv_addr := srv_addr s; registry := registry s; pprofOn := pprofOn s; ready := ready s; boundAddr := Some bound;
        serveErr := serveErr s; closed := closed s |}.
Definition ErrServerClosed : error := Sentinel "http: Server closed".
(** The background goroutine when [Serve] returns. *)
Definition serveReturns (err : option error) (s : Server) : Server :=
  match err with
  | Some e => if bool_decide (e = ErrServerClosed) then s
              else {| srv_addr := srv_addr s; registry := registry s; pprofOn := pprofOn s; ready := ready s;
                      boundAddr := boundAddr s; serveErr := Some e; closed := closed s |}
  | None => s
  end.
Definition http_Stop (s : Server) : Server :=
  {| srv_addr := srv_addr s; registry := registry s; pprofOn := pprofOn s; ready := ready s; boundAddr := boundAddr s;
     serveErr := serveErr s; closed := true |}.
Definition Addr (s : Server) : list Z := default (srv_addr s) (boundAddr s).
Definition ServeError (s : Server) : option error := serveErr s.

Example http_examples :
  let s := NewServer (%":0") None true in
  map (serve s) [%"/debug/pprof"; %"/debug/pprof/heap"; %"/debug/pprof/x"; %"//readyz"; %"/healthz/"] =
    [Redirect (%"/debug/pprof/"); Profile (%"heap"); Profile []; Redirect (%"/readyz");
     Respond (http_Error (%"404 page not found") 404)] ∧
  match serve s (%"/readyz") with Respond r => status r = 503 | _ => False end.
Proof. vm_compute. split; reflexivity. Qed.

(** * What is served *)

(** Every match is a registered pattern that covers the path. *)
Lemma foldl_longest_in l best x :
  foldl longest best l = Some x → best = Some x ∨ x ∈ l.
Proof.
  revert best. induction l as [|y l IH]; intros best; cbn [foldl]; [by left|]. intros H. destruct (IH _ H) as [E|E].
  - unfold longest in E. destruct best as [b|]; [case_match|]; [injection E as <-; right; apply list_elem_of_here|by left|].
    injection E as <-. right. apply list_elem_of_here.
  - right. by apply list_elem_of_further.
Qed.
Lemma muxMatch_in ps path x : muxMatch ps path = Some x → x ∈ ps ∧ covers x.1 path = true.
Proof.
  intros H. apply foldl_longest_in in H as [H|H]; [done|]. apply list_elem_of_In, filter_In in H as [H1 H2].
  split; [by apply list_elem_of_In|done].
Qed.

Lemma pattern_cases s x : x ∈ patterns s →
  x = (%"/healthz", HHealthz) ∨ x = (%"/readyz", HReadyz) ∨ x = (%"/metrics", HMetrics) ∨ x = (%"/", HIndex) ∨
  (pprofOn s = true ∧ ∃ n, x.2 = HProfile n ∧ HasPrefix x.1 (%"/debug/pprof/") = true).
Proof.
  unfold patterns. intros H. apply elem_of_app in H as [H|H].
  { repeat (apply elem_of_cons in H as [->|H]; [tauto|]). by apply elem_of_nil in H. }
  apply elem_of_app in H as [H|H]; [|apply list_elem_of_singleton in H; tauto].
  destruct (pprofOn s); [|by apply elem_of_nil in H]. do 4 right. split; [done|]. unfold registerPprofHandlers in H.
  apply elem_of_cons in H as [->|H]; [eexists; split; reflexivity|]. apply list_elem_of_fmap in H as (n & -> & _). exists n.
  split; [done|]. unfold HasPrefix. apply bool_decide_eq_true. apply take_app_length.
Qed.

(** A path that is a pattern goes to its handler. *)
Lemma serve_pattern s path h :
  cleanPath path = path → muxMatch (patterns s) path = Some (path, h) →
  serve s path = match h with
                 | HHealthz => Respond handleHealthz
                 | HReadyz => Respond (handleReadyz s)
                 | HMetrics => Respond (handleMetrics s)
                 | HIndex => Respond (handleIndex path)
                 | HProfile n => Profile n
                 end.
Proof.
  intros H1 H2. unfold serve. rewrite H1, H2. cbv zeta. rewrite !(bool_decide_true (path = path)) by done. reflexivity.
Qed.

(** What the server answers, on every path.  The liveness, readiness and metrics
    endpoints and the index answer whatever the profiler setting, the readiness
    endpoint with 200 exactly while the server is marked ready; every other answer
    is a redirect, a 404, or a profile, and a profile is served only under
    /debug/pprof/ and only when profiling was enabled. *)
Theorem http_endpoints_exact s path :
  serve s (%"/healthz") = Respond handleHealthz ∧
  serve s (%"/readyz") = Respond (handleReadyz s) ∧ (status (handleReadyz s) = if ready s then 200 else 503) ∧
  serve s (%"/metrics") = Respond (handleMetrics s) ∧
  serve s (%"/") = Respond {| status := 200; contentType := %"text/html; charset=utf-8"; body := indexHTML |} ∧
  match serve s path with
  | Profile _ => pprofOn s = true ∧ HasPrefix path (%"/debug/pprof/") = true
  | Respond r => path ∈ [%"/healthz"; %"/readyz"; %"/metrics"; %"/"] ∨ r = http_Error (%"404 page not found") 404
  | Redirect p => p ≠ path
  end.
Proof.
  split_and!.
  - apply (serve_pattern s _ HHealthz); [vm_compute; reflexivity|]. unfold patterns. destruct (pprofOn s); vm_compute; reflexivity.
  - apply (serve_pattern s _ HReadyz); [vm_compute; reflexivity|]. unfold patterns. destruct (pprofOn s); vm_compute; reflexivity.
  - unfold handleReadyz. by destruct (ready s).
  - apply (serve_pattern s _ HMetrics); [vm_compute; reflexivity|]. unfold patterns. destruct (pprofOn s); vm_compute; reflexivity.
  - etransitivity; [apply (serve_pattern s (%"/") HIndex)|reflexivity]; [vm_compute; reflexivity|]. unfold patterns. destruct (pprofOn s); vm_compute; reflexivity.
  - unfold serve. cbv zeta. case_bool_decide as Hc; cbn [negb]; [|by intros E].
    destruct (muxMatch (patterns s) path) as [[pat h]|] eqn:Em; [|by right].
    destruct (negb _ && negb _ && _); [intros E; apply (f_equal length) in E; rewrite length_app in E; cbn in E; lia|].
    apply muxMatch_in in Em as [Hin Hcov]. cbn [fst] in Hcov.
    destruct (pattern_cases s _ Hin) as [[= -> ->]|[[= -> ->]|[[= -> ->]|[[= -> ->]|(Hp & n & Hh & Hpre)]]]]; cbn [fst snd] in *.
    + left. unfold covers in Hcov. change (bool_decide (last (%"/healthz") = Some 47)) with false in Hcov.
      apply bool_decide_eq_true in Hcov as ->. apply list_elem_of_here.
    + left. unfold covers in Hcov. change (bool_decide (last (%"/readyz") = Some 47)) with false in Hcov.
      apply bool_decide_eq_true in Hcov as ->. apply list_elem_of_further, list_elem_of_here.
    + left. unfold covers in Hcov. change (bool_decide (last (%"/metrics") = Some 47)) with false in Hcov.
      apply bool_decide_eq_true in Hcov as ->. do 2 apply list_elem_of_further. apply list_elem_of_here.
    + unfold handleIndex. case_bool_decide as Hi; cbn [negb]; [|by right]. left. subst path.
      do 3 apply list_elem_of_further. apply list_elem_of_here.
    + subst h. split; [done|]. unfold covers in Hcov. apply HasPrefix_app in Hpre. case_bool_decide.
      * apply HasPrefix_app in Hcov. rewrite Hcov, Hpre, <-app_assoc. apply bool_decide_eq_true, take_app_length.
      * apply bool_decide_eq_true in Hcov as ->. rewrite Hpre. apply bool_decide_eq_true, take_app_length.
Qed.
