(* ===== verification/Logger.v ===== *)
(** * internal/logger: levels, sinks and the default logger

    Which records a logger writes and where, the adapter the engine logs through,
    loggers in contexts, and the default logger that goroutines create and read at
    the same time.  The layout of a record is log/slog's and is not modelled. *)
From S2P Require Import Prelude.
From S2P Require Import Text.
From S2P Require Import Bech32.
From S2P Require Import Quoting.

Open Scope Z_scope.

Inductive Format := FormatText | FormatJSON.
Definition LevelDebug : Z := -4.
Definition LevelInfo : Z := 0.
Definition LevelWarn : Z := 4.
Definition LevelError : Z := 8.

Inductive writer := Stderr | Stdout | LogFile | StdoutAndFile | DiscardAll.
Record LoggerConfig := { lc_Level : Z; lc_Format : Format; lc_Writer : option writer; AddSource : bool }.
Record Logger := { l_level : Z; l_format : Format; l_writer : writer }.

Section Levels.
Context (uLower : list Z → list Z).

Definition ParseLevel (s : list Z) : Z :=
  let s := ToLower uLower (TrimSpace s) in
  if bool_decide (s = %"debug") then LevelDebug
  else if bool_decide (s ∈ [%"warn"; %"warning"]) then LevelWarn
  else if bool_decide (s = %"error") then LevelError
  else LevelInfo.

Definition New (cfg : LoggerConfig) : Logger :=
  {| l_level := lc_Level cfg; l_format := lc_Format cfg; l_writer := default Stderr (lc_Writer cfg) |}.
Definition Discard : Logger :=
  New {| lc_Level := LevelError + 1; lc_Format := FormatText; lc_Writer := Some DiscardAll; AddSource := false |}.

(** A record of a level is written, to the logger's writer, when the level is
    enabled. *)
Definition logAt (l : Logger) (level : Z) (msg : list Z) : list (writer * list Z) :=
  if l_level l <=? level then [(l_writer l, msg)] else [].
(** The function handed to the engine. *)
Definition Adapter (l : Logger) (level msg : list Z) : list (writer * list Z) :=
  let level := ToLower uLower level in
  if bool_decide (level = %"debug") then logAt l LevelDebug msg
  else if bool_decide (level ∈ [%"warn"; %"warning"]) then logAt l LevelWarn msg
  else if bool_decide (level = %"error") then logAt l LevelError msg
  else logAt l LevelInfo msg.
End Levels.

(** ** Contexts *)

(** The values of a context, innermost first; a nil logger is [None]. *)
Definition IntoContext (ctx : list Logger) (l : option Logger) : list Logger :=
  match l with None => ctx | Some l => l :: ctx end.

(** ** The default logger *)

Definition builtinLogger : Logger :=
  New {| lc_Level := LevelInfo; lc_Format := FormatText; lc_Writer := None; AddSource := false |}.

(** A logger with the pointer that identifies it: every [New] makes a new one. *)
Notation pointer := (nat * Logger)%type (only parsing).
(** A goroutine in [FromContext]: before the first load, holding a logger it has
    built, after losing the exchange, and returned. *)
Inductive caller := CLoad | CSwap (l : pointer) | CReload | CDone (l : option pointer).
Record loggers := { defaultPtr : option pointer; fresh : nat; callers : list caller }.

Definition callStep (d : option pointer) (n : nat) (c : caller) : option (option pointer * nat * caller) :=
  match c with
  | CLoad => match d with
             | Some l => Some (d, n, CDone (Some l))
             | None => Some (d, S n, CSwap (n, builtinLogger))
             end
  | CSwap l => match d with
               | None => Some (Some l, n, CDone (Some l))
               | Some _ => Some (d, n, CReload)
               end
  | CReload => Some (d, n, CDone d)
  | CDone _ => None
  end.
(** [sets]: whether [SetDefault] may be called, with a logger that is not nil. *)
Inductive logStep (sets : bool) (s : loggers) : loggers → Prop :=
  | step_call i c d n c' :
      callers s !! i = Some c → callStep (defaultPtr s) (fresh s) c = Some (d, n, c') →
      logStep sets s {| defaultPtr := d; fresh := n; callers := <[i := c']> (callers s) |}
  | step_set l :
      sets = true → logStep sets s {| defaultPtr := Some (fresh s, l); fresh := S (fresh s); callers := callers s |}.
Definition logStart (k : nat) : loggers := {| defaultPtr := None; fresh := 0; callers := replicate k CLoad |}.

(** A caller that lost the exchange finds a logger, and without [SetDefault] what
    callers have returned is the one stored. *)
Definition callerOk (sets : bool) (d : option pointer) (c : caller) : Prop :=
  match c with
  | CReload => is_Some d
  | CDone l => is_Some l ∧ (sets = false → l = d)
  | _ => True
  end.
Definition agreed (sets : bool) (s : loggers) : Prop := Forall (callerOk sets (defaultPtr s)) (callers s).

Lemma agreed_step sets s s' : agreed sets s → logStep sets s s' → agreed sets s'.
Proof.
  unfold agreed. intros HS Hst. destruct Hst as [i c d n c' Hi Hc|l Hl]; cbn [defaultPtr callers].
  - assert (callerOk sets d c' ∧ ∀ x, callerOk sets (defaultPtr s) x → callerOk sets d x) as [Hc' Hx].
    { rewrite Forall_lookup in HS. specialize (HS i c Hi).
      destruct c as [|p| |r]; cbn [callStep] in Hc; [| | |done]; destruct (defaultPtr s) as [q|] eqn:E; injection Hc as <- <- <-;
        (split; [cbn; eauto|]); intros [|p'| |r'] Hr; cbn in *; eauto; destruct Hr as [[? ->] Hr]; split; eauto.
      intros Hs. by specialize (Hr Hs). }
    apply Forall_insert; [|done]. by eapply Forall_impl.
  - eapply Forall_impl; [exact HS|]. intros [|p| |r]; cbn; [done|done|eauto|]. intros [H _]. split; [done|]. by subst sets.
Qed.

(** The default logger is never nil and is created once.  However the goroutines
    that ask for it interleave, with or without calls of [SetDefault], each gets a
    logger; and as long as [SetDefault] is not called all get the same one, though
    several may have built one. *)
Theorem default_logger_shared k s i j l l' :
  rtc (logStep true) (logStart k) s → callers s !! i = Some (CDone l) →
  is_Some l ∧
  (rtc (logStep false) (logStart k) s → callers s !! j = Some (CDone l') → l = l').
Proof.
  assert (∀ sets, rtc (logStep sets) (logStart k) s → agreed sets s) as HA.
  { intros sets. apply (rtc_ind_r (λ s, agreed sets s)); [|intros; by eapply agreed_step].
    unfold agreed, logStart. cbn [callers]. by apply Forall_replicate. }
  intros H1 Hi. split.
  - specialize (HA true H1). unfold agreed in HA. rewrite Forall_lookup in HA. by apply (HA i _ Hi).
  - intros H2 Hj. specialize (HA false H2). unfold agreed in HA. rewrite Forall_lookup in HA.
    destruct (HA i _ Hi) as [_ ->]; [|done]. by destruct (HA j _ Hj) as [_ ->].
Qed.

(** Both goroutines build a logger; the second finds the first one's. *)
Lemma default_logger_shared_witness :
  let s := {| defaultPtr := Some (0%nat, builtinLogger); fresh := 2;
              callers := [CDone (Some (0%nat, builtinLogger)); CDone (Some (0%nat, builtinLogger))] |} in
  Some (0%nat, builtinLogger) = Some (0%nat, builtinLogger) ∧ rtc (logStep false) (logStart 2) s.
Proof.
  intros s. assert (∀ sets, rtc (logStep sets) (logStart 2) s) as HR.
  { intros sets.
    eapply rtc_l; [eapply (step_call sets _ 0); reflexivity|].
    eapply rtc_l; [eapply (step_call sets _ 1); reflexivity|].
    eapply rtc_l; [eapply (step_call sets _ 0); reflexivity|].
    eapply rtc_l; [eapply (step_call sets _ 1); reflexivity|].
    eapply rtc_l; [eapply (step_call sets _ 1); reflexivity|]. apply rtc_refl. }
  split; [|exact (HR false)].
  exact (proj2 (default_logger_shared 2 s 0 1 _ _ (HR true) eq_refl) (HR false) eq_refl).
Defined.

(** * Levels *)

(** The level texts that a configuration may have select the level they name, and a
    discarding logger writes nothing. *)
Lemma levels_exact uLower :
  map (ParseLevel uLower) [%"debug"; %"info"; %"warn"; %"error"; %" WARNING "; %"verbose"] =
    [LevelDebug; LevelInfo; LevelWarn; LevelError; LevelWarn; LevelInfo].
Proof. vm_compute. reflexivity. Qed.
Lemma discard_silent uLower level msg : Adapter uLower Discard level msg = [].
Proof. unfold Adapter. cbv zeta. repeat case_match; reflexivity. Qed.
