(* ===== verification/Gpu.v ===== *)
(** * internal/hal/gpu_linux.go: GPU detection on Linux

    The driver that lists render nodes under /sys/class/drm, with the identities it
    gives them.  The answers of the file system are a parameter. *)
From S2P Require Import Prelude.
From S2P Require Import Utf8.
From S2P Require Import Float64.
From S2P Require Import Text.
From S2P Require Import Bech32.
From S2P Require Import Quoting.
From S2P Require Import Worker.
From S2P Require Import Arbitration.
From S2P Require Import Provider.
From S2P Require Import EngineSetup.

Open Scope Z_scope.

Record sysfs := {
  os_ReadDir : list Z → result (list (list Z));
  filepath_EvalSymlinks : list Z → result (list Z);
  os_ReadFile : list Z → result (list Z)
}.

Section Driver.
Context (s : sysfs).

Definition drmBasePath : list Z := %"/sys/class/drm".

Definition readSysFile (path : list Z) : list Z :=
  match os_ReadFile s path with Err _ => [] | Ok b => TrimSpace b end.

Definition inferVendorName (vendorID : list Z) : list Z :=
  let v := TrimSpace vendorID in
  if bool_decide (v = %"0x10de") then %"NVIDIA"
  else if bool_decide (v = %"0x1002") then %"AMD"
  else if bool_decide (v = %"0x8086") then %"Intel"
  else %"Unknown GPU vendor".

(** The first line with a PCI ID decides. *)
Fixpoint pciModel (vendorID : list Z) (ls : list (list Z)) : option (list Z) :=
  match ls with
  | [] => None
  | l :: ls =>
      match CutPrefix l (%"PCI_ID=") with
      | Some pciID => Some (inferVendorName vendorID ++ %" GPU (" ++ pciID ++ %")")
      | None => pciModel vendorID ls
      end
  end.
Definition inferModel (devicePath vendorID : list Z) : list Z :=
  let uevent := readSysFile (filepath_Join [devicePath; %"uevent"]) in
  default (inferVendorName vendorID ++ %" GPU") (pciModel vendorID (strings_Split 10 uevent)).

(** The device, or the error its identity is skipped and logged with. *)
Definition parseGPUDevice (renderNode devicePath : list Z) : result DeviceRef :=
  let vendor := readSysFile (filepath_Join [devicePath; %"vendor"]) in
  let model := inferModel devicePath vendor in
  let vendorName := inferVendorName vendor in
  let id := {| ID := string_of_bytes (%"gpu-" ++ renderNode); id_Family := FamilyGPU;
               Vendor := string_of_bytes vendorName; Model := string_of_bytes model |} in
  _ ← Identity_Validate id;
  Ok {| dev_Identity := id; dev_Capabilities := {| cap_SHA256d := false; GeneralCompute := true |} |}.

Definition canonicalPath (name : list Z) : list Z :=
  let devPath := filepath_Join [drmBasePath; name; %"device"] in
  match filepath_EvalSymlinks s devPath with Ok c => c | Err _ => devPath end.
(** The render nodes of devices not seen before, with the devices they give. *)
Fixpoint enumLoop (seen : list (list Z)) (entries : list (list Z)) : list DeviceRef :=
  match entries with
  | [] => []
  | name :: entries =>
      if negb (HasPrefix name (%"renderD")) then enumLoop seen entries
      else
        let canonical := canonicalPath name in
        if bool_decide (canonical ∈ seen) then enumLoop seen entries
        else
          match parseGPUDevice name canonical with
          | Ok dev => dev :: enumLoop (canonical :: seen) entries
          | Err _ => enumLoop (canonical :: seen) entries
          end
  end.
Definition gpu_Enumerate : list DeviceRef * option error :=
  match os_ReadDir s drmBasePath with
  | Err _ => ([], None)
  | Ok entries => (enumLoop [] entries, None)
  end.
Definition gpuDriver : Driver := {| Name := "gpu_linux"; Enumerate := gpu_Enumerate |}.
Definition RegisterGPULinux (r : gmap string Driver) : result (gmap string Driver) := Register (Some gpuDriver) r.

(** * What is enumerated *)

Definition okDevice (r : result DeviceRef) : option DeviceRef := match r with Ok d => Some d | Err _ => None end.

Lemma parse_device node path d :
  parseGPUDevice node path = Ok d →
  ID (dev_Identity d) = string_of_bytes (%"gpu-" ++ node) ∧ id_Family (dev_Identity d) = FamilyGPU ∧
  Identity_Validate (dev_Identity d) = Ok () ∧ cap_SHA256d (dev_Capabilities d) = false ∧ GeneralCompute (dev_Capabilities d) = true.
Proof.
  unfold parseGPUDevice. cbv zeta. destruct (Identity_Validate _) as [[]|] eqn:E; [|done]. cbn [mbind result_bind].
  intros H. injection H as <-. done.
Qed.

(** The nodes taken: in order, one for each device not seen, and no device is missed. *)
Lemma enumLoop_nodes seen entries :
  ∃ nodes, nodes `sublist_of` entries ∧ Forall (λ n, HasPrefix n (%"renderD") = true) nodes ∧
    NoDup (map canonicalPath nodes) ∧ (∀ n, n ∈ nodes → canonicalPath n ∉ seen) ∧
    (∀ n, n ∈ entries → HasPrefix n (%"renderD") = true → canonicalPath n ∈ seen ∨ canonicalPath n ∈ map canonicalPath nodes) ∧
    enumLoop seen entries = omap (λ n, okDevice (parseGPUDevice n (canonicalPath n))) nodes.
Proof.
  revert seen. induction entries as [|name entries IH]; intros seen; cbn [enumLoop].
  { exists []. split; [done|]. split; [constructor|]. split; [constructor|]. split; [intros n Hn; by apply elem_of_nil in Hn|].
    split; [intros n Hn; by apply elem_of_nil in Hn|done]. }
  destruct (HasPrefix name (%"renderD")) eqn:Hp; cbn [negb].
  2:{ destruct (IH seen) as (ns & H1 & H2 & H3 & H4 & H5 & H6). exists ns. split_and!; try done; [by constructor|].
      intros n Hn Hr. apply elem_of_cons in Hn as [->|Hn]; [by rewrite Hp in Hr|by apply H5]. }
  case_bool_decide as Hs.
  { destruct (IH seen) as (ns & H1 & H2 & H3 & H4 & H5 & H6). exists ns. split_and!; try done; [by constructor|].
    intros n Hn Hr. apply elem_of_cons in Hn as [->|Hn]; [by left|by apply H5]. }
  destruct (IH (canonicalPath name :: seen)) as (ns & H1 & H2 & H3 & H4 & H5 & H6). exists (name :: ns). split_and!.
  - by constructor.
  - by constructor.
  - cbn [map]. constructor; [|done]. intros Hin. apply list_elem_of_fmap in Hin as (n & E & Hn).
    apply (H4 n Hn). rewrite <-E. apply list_elem_of_here.
  - intros n Hn. apply elem_of_cons in Hn as [->|Hn]; [done|]. specialize (H4 n Hn). by apply not_elem_of_cons in H4 as [_ ?].
  - intros n Hn Hr. cbn [map]. apply elem_of_cons in Hn as [->|Hn]; [right; apply list_elem_of_here|].
    destruct (H5 n Hn Hr) as [Hc|Hc]; [|right; by apply list_elem_of_further].
    apply elem_of_cons in Hc as [->|Hc]; [right; apply list_elem_of_here|by left].
  - cbn [omap list_omap]. rewrite <-H6. by destruct (parseGPUDevice name (canonicalPath name)).
Qed.

(** GPU detection, whatever the file system answers.  One render node is taken for
    each physical device that has any, and none twice; each device reported has a
    valid identity named after its node; none claims SHA-256d, so that adding GPUs to the devices of the engine
    changes nothing about the workers it starts. *)
Theorem gpu_enumerate_exact entries NumCPU now others :
  os_ReadDir s drmBasePath = Ok entries →
  ∃ nodes,
    gpu_Enumerate = (omap (λ n, okDevice (parseGPUDevice n (canonicalPath n))) nodes, None) ∧
    nodes `sublist_of` entries ∧ NoDup (map canonicalPath nodes) ∧
    (∀ n, n ∈ entries → HasPrefix n (%"renderD") = true → canonicalPath n ∈ map canonicalPath nodes) ∧
    Forall (λ d, Identity_Validate (dev_Identity d) = Ok () ∧ id_Family (dev_Identity d) = FamilyGPU ∧
                 ∃ n, n ∈ nodes ∧ ID (dev_Identity d) = string_of_bytes (%"gpu-" ++ n)) gpu_Enumerate.1 ∧
    startMinerWorkers NumCPU now (others ++ gpu_Enumerate.1) = startMinerWorkers NumCPU now others.
Proof.
  intros Hd. unfold gpu_Enumerate. rewrite Hd. destruct (enumLoop_nodes [] entries) as (ns & H1 & H2 & H3 & _ & H5 & H6).
  exists ns. rewrite H6. cbn [fst]. split; [done|]. split; [done|]. split; [done|].
  assert (∀ d, d ∈ omap (λ n, okDevice (parseGPUDevice n (canonicalPath n))) ns →
    ∃ n, n ∈ ns ∧ parseGPUDevice n (canonicalPath n) = Ok d) as HD.
  { intros d Hin. apply list_elem_of_omap in Hin as (n & Hn & E). exists n. split; [done|].
    unfold okDevice in E. by destruct (parseGPUDevice n _); [injection E as ->|]. }
  split; [|split].
  - intros n Hn Hr. destruct (H5 n Hn Hr) as [Hc|Hc]; [by apply elem_of_nil in Hc|done].
  - rewrite Forall_forall. intros d Hin. destruct (HD d Hin) as (n & Hn & E). destruct (parse_device _ _ _ E) as (E1 & E2 & E3 & _).
    split; [done|]. split; [done|]. eauto.
  - unfold startMinerWorkers, sha256dDevices. rewrite List.filter_app.
    set (gs := omap _ ns) in *. assert (List.filter (λ d, cap_SHA256d (dev_Capabilities d)) gs = []) as ->.
    { clearbody gs. clear -HD. induction gs as [|d gs IHg]; [done|]. cbn [List.filter].
      destruct (HD d (list_elem_of_here _ _)) as (n & _ & E). destruct (parse_device _ _ _ E) as (_ & _ & _ & -> & _).
      apply IHg. intros d' Hd'. apply HD. by apply list_elem_of_further. }
    by rewrite app_nil_r.
Qed.
End Driver.

(** Two nodes of one card, and a card with a name that cannot be an identifier. *)
Definition demo_sysfs : sysfs :=
  {| os_ReadDir _ := Ok [%"card0"; %"renderD128"; %"renderD129"; %"renderD 130"];
     filepath_EvalSymlinks p := if bool_decide (p = %"/sys/class/drm/renderD 130/device") then Err EOF else Ok (%"/sys/devices/gpu");
     os_ReadFile p := if bool_decide (p = %"/sys/devices/gpu/uevent") then Ok (%"DRIVER=amdgpu" ++ [10] ++ %"PCI_ID=1002:73DF")
                      else Ok (%"0x1002" ++ [10]) |}.

Lemma gpu_enumerate_exact_witness :
  (∃ nodes, gpu_Enumerate demo_sysfs = (omap (λ n, okDevice (parseGPUDevice demo_sysfs n (canonicalPath demo_sysfs n))) nodes, None)) ∧
  map (λ d, Model (dev_Identity d)) (gpu_Enumerate demo_sysfs).1 = ["AMD GPU (1002:73DF)"].
Proof.
  split; [|vm_compute; reflexivity].
  destruct (gpu_enumerate_exact demo_sysfs [%"card0"; %"renderD128"; %"renderD129"; %"renderD 130"] 4 0 [] eq_refl) as (ns & H & _).
  exists ns. exact H.
Defined.
