(* ===== verification/Flags.v ===== *)
(** * cmd/otedama: command-line flags

    The flag package of the language on string and boolean flags, the flag set
    shared by run, config show and config validate (run.go), the helpers of main.go
    that decide where help goes, and the flags of the service definitions. *)
From S2P Require Import Prelude.
From S2P Require Import Float64.
From S2P Require Import Text.
From S2P Require Import Bech32.
From S2P Require Import Poolproto.
From S2P Require Import Config.
From S2P Require Import Daemon.

Open Scope Z_scope.

(** ** The flag package *)

Inductive kind := StringFlag | BoolFlag.
Inductive fval := VStr (s : list Z) | VBool (b : bool).
Notation flagset := (list (list Z * kind)) (only parsing).

Definition ErrHelp : error := Sentinel "flag: help requested".
Definition trueTexts : list (list Z) := [%"1"; %"t"; %"T"; %"true"; %"TRUE"; %"True"].
Definition falseTexts : list (list Z) := [%"0"; %"f"; %"F"; %"false"; %"FALSE"; %"False"].
Definition ParseBool (s : list Z) : option bool :=
  if bool_decide (s ∈ trueTexts) then Some true
  else if bool_decide (s ∈ falseTexts) then Some false else None.

Definition kindOf (fs : flagset) (name : list Z) : option kind :=
  snd <$> List.find (λ f, bool_decide (f.1 = name)) fs.

(** What one argument is to [parseOne]. *)
Inductive token :=
  | NotFlag                              (* the flags end before it *)
  | Terminator                           (* [--]: they end after it *)
  | Bad (e : error)
  | Assign (name : list Z) (v : fval)
  | Wants (name : list Z).               (* a string flag whose value is the next argument *)

(** The name, and the value after an equals sign that is not its first byte. *)
Definition cutEquals (name : list Z) : list Z * option (list Z) :=
  match IndexByte (drop 1 name) 61 with
  | Some i => (take (S i) name, Some (drop (S (S i)) name))
  | None => (name, None)
  end.
Definition flagToken (fs : flagset) (body : list Z) : token :=
  if bool_decide (body = []) || bool_decide (head body = Some 45) || bool_decide (head body = Some 61)
  then Bad (Sentinel "bad flag syntax: %s")
  else
    let '(name, value) := cutEquals body in
    match kindOf fs name with
    | None =>
        if bool_decide (name ∈ [%"help"; %"h"]) then Bad ErrHelp
        else Bad (Sentinel "flag provided but not defined: -%s")
    | Some BoolFlag =>
        match value with
        | Some v => match ParseBool v with
                    | Some b => Assign name (VBool b)
                    | None => Bad (Sentinel "invalid boolean value %q for -%s: %v")
                    end
        | None => Assign name (VBool true)
        end
    | Some StringFlag => match value with Some v => Assign name (VStr v) | None => Wants name end
    end.
Definition parseOne (fs : flagset) (s : list Z) : token :=
  match s with
  | 45 :: c :: t =>
      if c =? 45 then (match t with [] => Terminator | _ => flagToken fs t end)
      else flagToken fs (c :: t)
  | _ => NotFlag
  end.

Definition consOk {A} (x : A) (r : result (list A)) : result (list A) :=
  match r with Ok l => Ok (x :: l) | Err e => Err e end.
(** The assignments in order, and the arguments left. *)
Fixpoint Parse (fs : flagset) (args : list (list Z)) : result (list (list Z * fval)) * list (list Z) :=
  match args with
  | [] => (Ok [], [])
  | s :: rest =>
      match parseOne fs s with
      | NotFlag => (Ok [], args)
      | Terminator => (Ok [], rest)
      | Bad e => (Err e, rest)
      | Assign name v => let '(r, args') := Parse fs rest in (consOk (name, v) r, args')
      | Wants name =>
          match rest with
          | [] => (Err (Sentinel "flag needs an argument: -%s"), [])
          | v :: rest => let '(r, args') := Parse fs rest in (consOk (name, VStr v) r, args')
          end
      end
  end.

(** The value a flag ends with. *)
Definition stringValue (asg : list (list Z * fval)) (name : list Z) : list Z :=
  foldl (λ acc a, match a with (n, VStr s) => if bool_decide (n = name) then s else acc | _ => acc end) [] asg.
Definition boolValue (asg : list (list Z * fval)) (name : list Z) : bool :=
  foldl (λ acc a, match a with (n, VBool b) => if bool_decide (n = name) then b else acc | _ => acc end) false asg.

(** ** main.go *)

Fixpoint hasHelpFlag (args : list (list Z)) : bool :=
  match args with
  | [] => false
  | a :: args =>
      if bool_decide (a ∈ [%"-h"; %"-help"; %"--help"]) then true
      else if bool_decide (a = %"--") then false else hasHelpFlag args
  end.

Inductive exit := ExitOK | ExitRuntime | ExitUsage | ExitConfig | ExitCode (n : Z).
Definition exitCode (e : exit) : Z :=
  match e with ExitOK => 0 | ExitRuntime => 1 | ExitUsage => 64 | ExitConfig => 78 | ExitCode n => n end.

(** The exit code of a failed parse, and whether its output is standard output. *)
Definition parseFailure (e : error) : exit := if bool_decide (e = ErrHelp) then ExitOK else ExitUsage.
Definition parseSubcommandFlags (fs : flagset) (args : list (list Z))
    : result (list (list Z * fval)) * bool :=
  ((Parse fs args).1, hasHelpFlag args).

(** ** The flags of run, config show and config validate *)

Record runFlags := {
  fvals : FlagValues; configFile : list Z; dryRun : bool; noTUI : bool;
  walletPassphrase : list Z; walletMnemonicPassphrase : list Z; pprofEnabled : bool;
  rf_logFile : list Z; showOrigin : bool; jsonOut : bool; setFlags : list (list Z)
}.
Definition runFlagSet : flagset :=
  [(%"bitcoin-address", StringFlag); (%"log-level", StringFlag); (%"language", StringFlag); (%"data-dir", StringFlag);
   (%"config", StringFlag); (%"dry-run", BoolFlag); (%"no-tui", BoolFlag); (%"wallet-passphrase", StringFlag);
   (%"wallet-mnemonic-passphrase", StringFlag); (%"log-format", StringFlag); (%"log-file", StringFlag);
   (%"http-addr", StringFlag); (%"pprof", BoolFlag); (%"origin", BoolFlag); (%"json", BoolFlag)].
Definition runFlagsOf (asg : list (list Z * fval)) : runFlags :=
  let str := stringValue asg in
  let bool := boolValue asg in
  {| fvals := {| fl_BitcoinAddress := str (%"bitcoin-address"); fl_LogLevel := str (%"log-level");
                 fl_LogFormat := str (%"log-format"); fl_Language := str (%"language");
                 fl_DataDir := str (%"data-dir"); fl_HTTPAddr := str (%"http-addr") |};
     configFile := str (%"config"); dryRun := bool (%"dry-run"); noTUI := bool (%"no-tui");
     walletPassphrase := str (%"wallet-passphrase"); walletMnemonicPassphrase := str (%"wallet-mnemonic-passphrase");
     pprofEnabled := bool (%"pprof"); rf_logFile := str (%"log-file"); showOrigin := bool (%"origin");
     jsonOut := bool (%"json"); setFlags := map fst asg |}.
Definition parseRunFlags (args : list (list Z)) : result runFlags :=
  match (Parse runFlagSet args).1 with Ok asg => Ok (runFlagsOf asg) | Err e => Err e end.

Example flag_examples :
  (λ f, (fl_Language (fvals f), dryRun f, setFlags f)) <$>
    match parseRunFlags [%"--language"; %"--help"; %"-dry-run=T"; %"x"; %"--bogus"] with Ok f => Some f | Err _ => None end =
    Some (%"--help", true, [%"language"; %"dry-run"]) ∧
  parseRunFlags [%"-h"] = Err ErrHelp ∧
  parseRunFlags [%"--config"] = Err (Sentinel "flag needs an argument: -%s") ∧
  parseRunFlags [%"--=x"] = Err (Sentinel "bad flag syntax: %s").
Proof. vm_compute. split_and!; reflexivity. Qed.

(** An argument that is not a flag ends the flags without an error, and what
    follows it is never looked at. *)
Lemma positional_hides_flags :
  match parseRunFlags [%"pool"; %"--dry-run"] with Ok f => dryRun f = false | Err _ => False end.
Proof. vm_compute. reflexivity. Qed.

(** * Spellings *)

(** Names the command line can spell. *)
Definition nameOk (name : list Z) : Prop := name ≠ [] ∧ head name ≠ Some 45 ∧ 61 ∉ name.
(** The arguments that say a flag has a value. *)
Inductive spells (fs : flagset) : list Z * fval → list (list Z) → Prop :=
  | spell_next d name v : (d = [45] ∨ d = [45; 45]) → nameOk name → kindOf fs name = Some StringFlag →
      spells fs (name, VStr v) [d ++ name; v]
  | spell_equals d name v : (d = [45] ∨ d = [45; 45]) → nameOk name → kindOf fs name = Some StringFlag →
      spells fs (name, VStr v) [d ++ name ++ 61 :: v]
  | spell_set d name : (d = [45] ∨ d = [45; 45]) → nameOk name → kindOf fs name = Some BoolFlag →
      spells fs (name, VBool true) [d ++ name]
  | spell_bool d name t b : (d = [45] ∨ d = [45; 45]) → nameOk name → kindOf fs name = Some BoolFlag →
      ParseBool t = Some b → spells fs (name, VBool b) [d ++ name ++ 61 :: t].

Lemma IndexByte_absent s c : c ∉ s → IndexByte s c = None.
Proof.
  induction s as [|x s IH]; [done|]. intros H. cbn [IndexByte]. apply not_elem_of_cons in H as [H1 H2].
  rewrite (proj2 (Z.eqb_neq x c)) by done. by rewrite IH.
Qed.

Lemma cutEquals_plain name : nameOk name → cutEquals name = (name, None).
Proof.
  intros (H1 & _ & H3). unfold cutEquals. destruct name as [|c name]; [done|]. cbn [drop].
  apply not_elem_of_cons in H3 as [_ H3]. rewrite drop_0, IndexByte_absent by done. done.
Qed.
Lemma cutEquals_value name v : nameOk name → cutEquals (name ++ 61 :: v) = (name, Some v).
Proof.
  intros (H1 & _ & H3). unfold cutEquals. destruct name as [|c name]; [done|]. cbn [drop app].
  apply not_elem_of_cons in H3 as [_ H3]. rewrite drop_0, IndexByte_app_notin by done. cbn [IndexByte Z.eqb fmap option_fmap option_map take].
  cbn. rewrite Nat.add_0_r.
  f_equal; [by rewrite take_app_length|]. f_equal.
  by rewrite (cons_middle 61 name v), app_assoc, drop_app_length' by (rewrite length_app; cbn; lia).
Qed.

Lemma parseOne_dashes fs d body :
  d = [45] ∨ d = [45; 45] → body ≠ [] → head body ≠ Some 45 → parseOne fs (d ++ body) = flagToken fs body.
Proof.
  intros Hd Hne Hh. destruct body as [|c t]; [done|]. cbn [head] in Hh. assert (c ≠ 45) as Hc by congruence.
  destruct Hd as [->| ->]; cbn [app parseOne]; [by rewrite (proj2 (Z.eqb_neq c 45))|done].
Qed.
Lemma flagToken_named fs name rest :
  nameOk name → flagToken fs (name ++ rest) =
    let '(n, value) := cutEquals (name ++ rest) in
    match kindOf fs n with
    | None => if bool_decide (n ∈ [%"help"; %"h"]) then Bad ErrHelp
              else Bad (Sentinel "flag provided but not defined: -%s")
    | Some BoolFlag =>
        match value with
        | Some v => match ParseBool v with
                    | Some b => Assign n (VBool b)
                    | None => Bad (Sentinel "invalid boolean value %q for -%s: %v")
                    end
        | None => Assign n (VBool true)
        end
    | Some StringFlag => match value with Some v => Assign n (VStr v) | None => Wants n end
    end.
Proof.
  intros (H1 & H2 & H3). unfold flagToken. destruct name as [|c t]; [done|]. cbn [app head] in *.
  apply not_elem_of_cons in H3 as [H3 _]. rewrite !bool_decide_false by congruence. reflexivity.
Qed.

(** One spelling is read as its assignment, whatever follows. *)
Lemma spells_parse fs a toks rest :
  spells fs a toks →
  Parse fs (toks ++ rest) = (consOk a (Parse fs rest).1, (Parse fs rest).2).
Proof.
  intros HS. destruct (Parse fs rest) as [r args'] eqn:ER. destruct HS as [d n v Hd Hn Hk|d n v Hd Hn Hk|d n Hd Hn Hk|d n t b Hd Hn Hk Ht];
    pose proof Hn as (N1 & N2 & _); cbn [app Parse].
  - rewrite (parseOne_dashes fs d n Hd N1 N2), <-(app_nil_r n), flagToken_named, app_nil_r, cutEquals_plain, Hk, ER by done. done.
  - rewrite (parseOne_dashes fs d _ Hd) by (by destruct n). rewrite flagToken_named, cutEquals_value, Hk, ER by done. done.
  - rewrite (parseOne_dashes fs d n Hd N1 N2), <-(app_nil_r n), flagToken_named, app_nil_r, cutEquals_plain, Hk, ER by done. done.
  - rewrite (parseOne_dashes fs d _ Hd) by (by destruct n). rewrite flagToken_named, cutEquals_value, Hk, Ht, ER by done. done.
Qed.

(** Where the flags end. *)
Definition flagsEnd (rest : list (list Z)) : Prop :=
  rest = [] ∨ ∃ a args, rest = a :: args ∧ ∀ c t, a ≠ 45 :: c :: t.

(** The command line is read as it is written.  For any flag set, and any choice
    among the spellings of each flag ([-f v], [--f v], [-f=v], [--f=v], [-f] and
    the twelve boolean texts), the arguments parse to the assignments they spell,
    in order, whatever bytes the values hold; parsing ends at the first argument
    that is not a flag, or after [--]. *)
Theorem flags_roundtrip fs asg toks rest :
  Forall2 (spells fs) asg toks →
  (flagsEnd rest → Parse fs (concat toks ++ rest) = (Ok asg, rest)) ∧
  Parse fs (concat toks ++ %"--" :: rest) = (Ok asg, rest).
Proof.
  intros HF. assert (flagsEnd rest → Parse fs rest = (Ok [], rest)) as Er.
  { intros He. destruct He as [->|(a & args & -> & Ha)]; [done|]. cbn [Parse]. assert (parseOne fs a = NotFlag) as ->; [|done].
    destruct a as [|c1 [|c2 t]]; [done| |]; cbn [parseOne]; repeat case_match; try done; subst; exfalso; by eapply Ha. }
  assert (∀ r, (∃ left, Parse fs r = (Ok [], left)) → Parse fs (concat toks ++ r) = (Ok asg, (Parse fs r).2)) as H.
  { intros r [left E]. induction HF as [|a tk asg toks Ha HF IH]; cbn [concat app]; [by rewrite E|].
    rewrite <-app_assoc, (spells_parse _ _ _ _ Ha), IH. done. }
  split; [intros He; rewrite H by eauto; by rewrite Er|]. by rewrite H by (eexists; reflexivity).
Qed.

Lemma flags_roundtrip_witness :
  Parse runFlagSet [%"--config"; %"-x"; %"-dry-run"; %"-json=F"; %"--language=ja"; %"--"; %"--no-tui"] =
  (Ok [(%"config", VStr (%"-x")); (%"dry-run", VBool true); (%"json", VBool false); (%"language", VStr (%"ja"))], [%"--no-tui"]).
Proof.
  assert (∀ n, bool_decide (n ≠ []) && bool_decide (head n ≠ Some 45) && bool_decide (61 ∉ n) = true → nameOk n) as HN.
  { intros n [[H1%bool_decide_eq_true H2%bool_decide_eq_true]%andb_true_iff H3%bool_decide_eq_true]%andb_true_iff. by split. }
  refine (proj2 (flags_roundtrip runFlagSet _
    [[%"--config"; %"-x"]; [%"-dry-run"]; [%"-json=F"]; [%"--language=ja"]] [%"--no-tui"] _)).
  constructor; [|constructor; [|constructor; [|constructor; [|constructor]]]].
  - apply (spell_next _ [45; 45] (%"config")); [by right|apply HN; vm_compute; reflexivity|reflexivity].
  - apply (spell_set _ [45] (%"dry-run")); [by left|apply HN; vm_compute; reflexivity|reflexivity].
  - apply (spell_bool _ [45] (%"json") (%"F") false); [by left|apply HN; vm_compute; reflexivity|reflexivity|vm_compute; reflexivity].
  - apply (spell_equals _ [45; 45] (%"language") (%"ja")); [by right|apply HN; vm_compute; reflexivity|reflexivity].
Defined.

(** * The command line of the service *)

Lemma dashes_pair fs n v rest :
  nameOk n → kindOf fs n = Some StringFlag →
  Parse fs (flagPair ([45; 45] ++ n) v ++ rest) =
    (if bool_decide (v = []) then (Parse fs rest).1 else consOk (n, VStr v) (Parse fs rest).1, (Parse fs rest).2).
Proof.
  intros Hn Hk. unfold flagPair. destruct (bool_decide (v = [])); [cbn [app]; by destruct (Parse fs rest)|].
  apply (spells_parse fs (n, VStr v) [[45; 45] ++ n; v]). apply spell_next; [by right|exact Hn|exact Hk].
Qed.

(** What a service definition runs is what was asked for: the arguments the daemon
    package writes into it are [run] and flags that parse to exactly the
    configuration file, data directory, payout address, log level, log format and
    language of the manager, whatever bytes they hold; every other flag keeps its
    default, so the terminal dashboard, the profiler and the dry run stay off and
    no wallet passphrase is on the command line. *)
Theorem service_flags_parse m :
  head (serviceArgv m) = Some (%"run") ∧
  ∃ given, parseRunFlags (tail (serviceArgv m)) = Ok {|
    fvals := {| fl_BitcoinAddress := Daemon.BitcoinAddress (serviceFlags m); fl_LogLevel := sf_LogLevel (serviceFlags m);
                fl_LogFormat := sf_LogFormat (serviceFlags m); fl_Language := sf_Language (serviceFlags m);
                fl_DataDir := dataDir m; fl_HTTPAddr := [] |};
    configFile := configPath m; dryRun := false; noTUI := false; walletPassphrase := []; walletMnemonicPassphrase := [];
    pprofEnabled := false; rf_logFile := []; showOrigin := false; jsonOut := false; setFlags := given |}.
Proof.
  split; [done|]. destruct m as [bin cfg dir [addr level format lang]]. unfold serviceArgv, parseRunFlags. cbn [app tail configPath dataDir serviceFlags Daemon.BitcoinAddress sf_LogLevel sf_LogFormat sf_Language].
  assert (∀ n, bool_decide (n ≠ []) && bool_decide (head n ≠ Some 45) && bool_decide (61 ∉ n) = true → nameOk n) as HN.
  { intros n [[H1%bool_decide_eq_true H2%bool_decide_eq_true]%andb_true_iff H3%bool_decide_eq_true]%andb_true_iff. by split. }
  change (%"--config") with ([45; 45] ++ %"config"). change (%"--data-dir") with ([45; 45] ++ %"data-dir").
  change (%"--bitcoin-address") with ([45; 45] ++ %"bitcoin-address"). change (%"--log-level") with ([45; 45] ++ %"log-level").
  change (%"--log-format") with ([45; 45] ++ %"log-format"). change (%"--language") with ([45; 45] ++ %"language").
  rewrite <-(app_nil_r (flagPair ([45; 45] ++ %"language") lang)).
  rewrite !dashes_pair by first [apply HN; vm_compute; reflexivity|vm_compute; reflexivity]. cbn [fst Parse].
  destruct cfg, dir, addr, level, format, lang; eexists; reflexivity.
Qed.
