(* ===== verification/ConfigCmd.v ===== *)
(** * cmd/otedama: configuration files and the config command

    Finding and reading the configuration file (configfile.go), and config show and
    config validate (config.go), with what they print.  What opening and decoding a
    file answers is a parameter: YAML is a third-party package. *)
From S2P Require Import Prelude.
From S2P Require Import Float64.
From S2P Require Import Utf8.
From S2P Require Import Text.
From S2P Require Import Bech32.
From S2P Require Import Poolproto.
From S2P Require Import Config.
From S2P Require Import Quoting.
From S2P Require Import JsonOut.
From S2P Require Import Doctor.
From S2P Require Import Flags.
From Stdlib Require Import SpecFloat.

Open Scope Z_scope.

(** ** The process around the commands *)

(** What opening a configuration file and decoding it answers. *)
Inductive fileAnswer :=
  | NotExist
  | CannotOpen (e : error)
  | NoDocument                  (* io.EOF: empty or comments only *)
  | CannotParse (e : error)
  | Decoded (c : Config).
Record process := {
  Getenv : list Z → list Z;
  UserHomeDir : result (list Z);
  readYAML : list Z → fileAnswer;
  ParseFloat : list Z → option float64;
  uLower : list Z → list Z; uUpper : list Z → list Z;   (* case mapping of text that is not ASCII *)
  unicodePrint : Z → bool;
  platformDataDir : list Z;                              (* config.DefaultDataDir *)
  errText : error → list Z                               (* what an error prints as *)
}.

Definition zeroConfig : Config :=
  {| BitcoinAddress := []; BitcoinAddresses := []; Pools := []; WorkerName := []; Language := []; LogLevel := [];
     LogFormat := []; DataDir := []; ArbitrationHysteresisPct := fzero; CurtailBelowBTCUSD := fzero;
     cfg_MinYieldSatsPerSec := fzero; PowerWatts := fzero; ElectricityPricePerKWh := fzero; HTTPAddr := [] |}.

Section Commands.
Context (p : process).

(** ** configfile.go *)

Definition defaultConfigPath : list Z :=
  let explicit := Getenv p (%"OTEDAMA_CONFIG") in
  if negb (bool_decide (explicit = [])) then explicit
  else
    let xdg := Getenv p (%"XDG_CONFIG_HOME") in
    if negb (bool_decide (xdg = [])) then filepath_Join [xdg; %"otedama"; %"config.yaml"]
    else match UserHomeDir p with
    | Err _ => []
    | Ok home => filepath_Join [home; %".config"; %"otedama"; %"config.yaml"]
    end.
(** The configuration, and the lines on standard error. *)
Definition loadConfigFile (path : list Z) : Config * list (list Z) :=
  let path := if bool_decide (path = []) then defaultConfigPath else path in
  if bool_decide (path = []) then (zeroConfig, [])
  else match readYAML p path with
  | NotExist | NoDocument => (zeroConfig, [])
  | CannotOpen e => (zeroConfig, [%"warning: cannot open config file " ++ Quote (unicodePrint p) path ++ %": " ++ errText p e])
  | CannotParse e => (zeroConfig, [%"warning: cannot parse config file " ++ Quote (unicodePrint p) path ++ %": " ++ errText p e])
  | Decoded c => (c, [])
  end.

Definition envOf (key : string) : list Z := Getenv p (bytes_of_string key).
(** The lines for unparseable numbers; the text of one is [%q] of its value. *)
Definition envWarningLines : list (list Z) :=
  map (λ key, %"config: warning: " ++ bytes_of_string key ++ %"=" ++ Quote (unicodePrint p) (envOf key) ++
              %" is not a valid number; ignoring it and using the default") (EnvWarnings envOf (ParseFloat p)).
(** The layers as a command resolves them, with the lines on standard error. *)
Definition resolved (f : runFlags) : (Config * Origins) * list (list Z) :=
  let '(fromFile, warnings) := loadConfigFile (configFile f) in
  (ResolveWithOrigins envOf (ParseFloat p) (platformDataDir p) fromFile (fvals f), warnings ++ envWarningLines).
Definition issues (c : Config) : list error := Validate (uLower p) (uUpper p) c.
(** The single error made of all issues. *)
Definition issueText (l : list error) : list Z :=
  %"config validation failed:" ++ [10] ++ %"  - " ++ strings_Join (10 :: %"  - ") (map (errText p) l).

(** ** config.go *)

Definition displayDefault : list Z := %"(default)".
Definition unsafeDisplayRune (r : Z) : bool := unsafePoolRune r.
Definition safeDisplay (v : list Z) : list Z :=
  if bool_decide (v = []) then displayDefault
  else if negb (existsb unsafeDisplayRune (runes v)) then v
  else
    let b := string_of_runes (List.filter (λ r, negb (unsafeDisplayRune r)) (runes v)) in
    if bool_decide (b = []) then displayDefault else b.

Definition origin_String (o : ValueOrigin) : list Z :=
  match o with OriginFile => %"file" | OriginEnv => %"env" | OriginFlag => %"flag" | OriginDefault => %"default" end.
Definition tag (show : bool) (o : ValueOrigin) : list Z :=
  if show then %" [" ++ origin_String o ++ %"]" else [].
Definition numbered (l : list (list Z)) : list (list Z) :=
  imap (λ i a, %"  [" ++ FormatInt (Z.of_nat i + 1) ++ %"] " ++ safeDisplay a) l.

(** The lines of config show. *)
Definition showLines (c : Config) (o : Origins) (origins : bool) : list (list Z) :=
  let t := tag origins in
  [%"bitcoin_address: " ++ safeDisplay (BitcoinAddress c) ++ t (o_BitcoinAddress o)] ++
  (if bool_decide (BitcoinAddresses c = []) then []
   else (%"bitcoin_addresses (failover): " ++ FormatInt (Z.of_nat (length (BitcoinAddresses c))) ++ t (o_BitcoinAddresses o)) ::
        numbered (BitcoinAddresses c)) ++
  [%"log_level:       " ++ safeDisplay (LogLevel c) ++ t (o_LogLevel o);
   %"log_format:      " ++ safeDisplay (LogFormat c) ++ t (o_LogFormat o);
   %"language:        " ++ safeDisplay (Language c) ++ t (o_Language o);
   %"data_dir:        " ++ safeDisplay (DataDir c) ++ t (o_DataDir o);
   %"worker_name:     " ++ safeDisplay (WorkerName c) ++ t (o_WorkerName o);
   %"arbitration_hysteresis_pct: " ++ Sprintf_g (ArbitrationHysteresisPct c) ++ t (o_ArbitrationHysteresisPct o);
   %"curtail_below_btc_usd:      " ++ Sprintf_g (CurtailBelowBTCUSD c) ++ t (o_CurtailBelowBTCUSD o);
   %"min_yield_sats_per_sec:     " ++ Sprintf_g (cfg_MinYieldSatsPerSec c) ++ t (o_MinYieldSatsPerSec o);
   %"power_watts:                " ++ Sprintf_g (PowerWatts c) ++ t (o_PowerWatts o);
   %"electricity_price_per_kwh:  " ++ Sprintf_g (ElectricityPricePerKWh c) ++ t (o_ElectricityPricePerKWh o);
   %"http_addr:                  " ++ safeDisplay (HTTPAddr c) ++ t (o_HTTPAddr o)] ++
  (if bool_decide (Pools c = []) then [%"pools:           (built-in default)" ++ t (o_Pools o)]
   else (%"pools:           " ++ FormatInt (Z.of_nat (length (Pools c))) ++ %" configured" ++ t (o_Pools o)) ::
        numbered (map (λ q, StripUserinfo (URL q)) (Pools c))).

(** A float64 in encoding/json; [None] for the values it refuses. *)
Definition jsonFloat (v : float64) : option (list Z) :=
  match v with
  | S754_nan | S754_infinity _ => None
  | S754_zero neg => Some ((if neg then [45] else []) ++ [48])
  | S754_finite neg m e =>
      let '(q, k) := decimal_of (Zpos m) e in
      let ds := FormatUint q in
      let dp := Z.of_nat (length ds) + k in
      let mag := S754_finite false m e in
      Some ((if neg then [45] else []) ++
            (if flt mag (f64_const 1 1000000) || fle (f64_of_Z (10 ^ 21)) mag then
               let s := fmtE ds dp in
               let n := length s in
               (* e-09 becomes e-9 *)
               if bool_decide (take 3 (drop (n - 4) s) = %"e-0") then take (n - 2) s ++ drop (n - 1) s else s
             else fmtF ds dp))
  end.
(** The object, or [None] when a number cannot be written. *)
Definition configJSON (c : Config) (o : Origins) (withOrigins : bool) : option (list Z) :=
  hyst ← jsonFloat (ArbitrationHysteresisPct c);
  curtail ← jsonFloat (CurtailBelowBTCUSD c);
  yield ← jsonFloat (cfg_MinYieldSatsPerSec c);
  watts ← jsonFloat (PowerWatts c);
  price ← jsonFloat (ElectricityPricePerKWh c);
  let str s := jsonString s in
  let strs l := encodeValue 1 (OArr (map OStr l)) in
  let fields :=
    [(%"bitcoin_address", str (BitcoinAddress c))] ++
    (if bool_decide (BitcoinAddresses c = []) then [] else [(%"bitcoin_addresses", strs (BitcoinAddresses c))]) ++
    [(%"log_level", str (LogLevel c)); (%"log_format", str (LogFormat c)); (%"language", str (Language c));
     (%"data_dir", str (DataDir c)); (%"worker_name", str (WorkerName c)); (%"arbitration_hysteresis_pct", hyst);
     (%"curtail_below_btc_usd", curtail); (%"min_yield_sats_per_sec", yield); (%"power_watts", watts);
     (%"electricity_price_per_kwh", price); (%"http_addr", str (HTTPAddr c));
     (%"pools", strs (map (λ q, StripUserinfo (URL q)) (Pools c)))] ++
    (if withOrigins then
       (* map keys in their sorted order *)
       [(%"origins", encodeValue 1 (OObj (map (λ kv, (kv.1, OStr (origin_String kv.2)))
          [(%"arbitration_hysteresis_pct", o_ArbitrationHysteresisPct o); (%"bitcoin_address", o_BitcoinAddress o);
           (%"bitcoin_addresses", o_BitcoinAddresses o); (%"curtail_below_btc_usd", o_CurtailBelowBTCUSD o);
           (%"data_dir", o_DataDir o); (%"electricity_price_per_kwh", o_ElectricityPricePerKWh o);
           (%"http_addr", o_HTTPAddr o); (%"language", o_Language o); (%"log_format", o_LogFormat o);
           (%"log_level", o_LogLevel o); (%"min_yield_sats_per_sec", o_MinYieldSatsPerSec o); (%"pools", o_Pools o);
           (%"power_watts", o_PowerWatts o); (%"worker_name", o_WorkerName o)])))]
     else []) in
  Some ([123] ++ items 0 (map (λ kv, jsonString kv.1 ++ %": " ++ kv.2) fields) ++ [125] ++ [10]).

(** Exit code, standard output, standard error. *)
Notation outcome := (exit * list Z * list Z)%type.
Definition writeConfigJSON (c : Config) (o : Origins) (withOrigins : bool) : outcome :=
  match configJSON c o withOrigins with
  | Some doc => (ExitOK, doc, [])
  | None => (ExitRuntime, [], unlines [%"otedama: config show: " ++ errText p (Sentinel "json: unsupported value")])
  end.

(** The flag package's own output goes to standard output or error as a whole and
    is not modelled. *)
Definition cmdConfigShow (args : list (list Z)) : outcome :=
  match parseRunFlags args with
  | Err e => (parseFailure e, [], [])
  | Ok f =>
      let '((c, o), warnings) := resolved f in
      if jsonOut f then
        let '(code, out, err) := writeConfigJSON c o (showOrigin f) in (code, out, unlines warnings ++ err)
      else (ExitOK, unlines (showLines c o (showOrigin f)), unlines warnings)
  end.
Definition cmdConfigValidate (args : list (list Z)) : outcome :=
  match parseRunFlags args with
  | Err e => (parseFailure e, [], [])
  | Ok f =>
      let '((c, _), warnings) := resolved f in
      match issues c with
      | [] => (ExitOK, unlines [%"configuration is valid"], unlines warnings)
      | l => (ExitConfig, [], unlines warnings ++ issueText l ++ [10])
      end
  end.
Definition cmdConfig (args : list (list Z)) : outcome :=
  match args with
  | [] => (ExitUsage, [], unlines [%"otedama config: expected subcommand (show|validate)"])
  | sub :: args =>
      if bool_decide (sub = %"show") then cmdConfigShow args
      else if bool_decide (sub = %"validate") then cmdConfigValidate args
      else if bool_decide (sub ∈ [%"help"; %"--help"; %"-h"])
      then (ExitOK, unlines [%"otedama config: expected subcommand (show|validate)"], [])
      else (ExitUsage, [], unlines [%"otedama config: unknown subcommand " ++ Quote (unicodePrint p) sub])
  end.
End Commands.

Example config_examples :
  map safeDisplay [[]; %"ja"; [27; 91; 50; 74]; [10; 13]; [0xE2; 0x80; 0xAE; 97]; [0x9B; 97]] =
    [%"(default)"; %"ja"; %"[2J"; %"(default)"; %"a"; [0x9B; 97]] ∧
  map jsonFloat [fzero; f64_const 1 10; f64_const 25 (10 ^ 10); f64_of_Z (10 ^ 21); f64_of_Z 95000; f64_const (-1) 3] =
    [Some (%"0"); Some (%"0.1"); Some (%"2.5e-9"); Some (%"1e+21"); Some (%"95000"); Some (%"-0.3333333333333333")].
Proof. vm_compute. split; reflexivity. Qed.

(** * What is shown *)

(** Values hold bytes. *)
Record config_bytes (c : Config) : Prop := {
  cb_texts : Forall bytes_ok [BitcoinAddress c; LogLevel c; LogFormat c; Language c; DataDir c; WorkerName c; HTTPAddr c];
  cb_addrs : Forall bytes_ok (BitcoinAddresses c);
  cb_pools : Forall (λ q, bytes_ok (URL q)) (Pools c)
}.

Lemma safe_rune_inline r : rune_ok r = true → unsafePoolRune r = false → Forall inline (encode_rune r).
Proof.
  intros Hok Hs. unfold unsafePoolRune, unsafeRanges in Hs. cbn [existsb fst snd] in Hs. unfold rune_ok in Hok.
  apply encode_inline; [done|lia..].
Qed.

Lemma safeDisplay_inline s : bytes_ok s → Forall inline (safeDisplay s).
Proof.
  intros Hs. unfold safeDisplay. case_bool_decide; [by apply inline_lit|].
  destruct (existsb unsafeDisplayRune (runes s)) eqn:E; cbn [negb].
  - assert (Forall inline (string_of_runes (List.filter (λ r, negb (unsafeDisplayRune r)) (runes s)))) as HF.
    { unfold string_of_runes. apply Forall_concat, Forall_fmap. pose proof (safe_runes_ok s Hs) as Hok. unfold safe_runes in Hok.
      rewrite Forall_forall in *. intros r Hr. apply safe_rune_inline; [by apply Hok|].
      apply list_elem_of_In, filter_In in Hr as [_ Hr]. by destruct (unsafeDisplayRune r) eqn:E'. }
    case_bool_decide; [by apply inline_lit|done].
  - destruct (chunks_spec s Hs) as (Hc & Hok & Hr). rewrite <-Hr in E. rewrite <-Hc. clear Hc Hr Hs.
    induction Hok as [|[r bs] cs Hcs _ IH]; cbn [map concat fst snd existsb] in *; [constructor|].
    apply orb_false_iff in E as [E1 E2]. apply Forall_app. split; [|by apply IH].
    destruct Hcs as [(b & [= -> ->] & Hb)|[Hr Eb]]; cbn [fst snd] in *.
    + apply Forall_singleton. unfold inline. lia.
    + subst bs. by apply safe_rune_inline.
Qed.

Lemma tag_inline b o : Forall inline (tag b o).
Proof. destruct b, o; by apply inline_lit. Qed.
Lemma numbered_inline l : Forall bytes_ok l → Forall (Forall inline) (numbered l).
Proof.
  intros H. apply Forall_lookup. intros i x Hx. unfold numbered in Hx. rewrite list_lookup_imap in Hx.
  destruct (l !! i) as [a|] eqn:E; [|done]. apply (inj Some) in Hx. subst x. rewrite Forall_lookup in H.
  rewrite !Forall_app. split_and!; [by apply inline_lit|apply FormatInt_inline|by apply inline_lit|by eapply safeDisplay_inline, H].
Qed.
Lemma strip_bytes u : bytes_ok u → bytes_ok (StripUserinfo u).
Proof.
  intros H. unfold StripUserinfo. destruct (Index u _) as [i|]; [|done]. cbv zeta. destruct (LastIndexByte _ 64) as [a|]; [|done].
  destruct (match IndexByte _ 47 with None => true | Some _ => _ end); [|done].
  apply Forall_app. split; [by apply Forall_take|by apply Forall_drop, Forall_drop].
Qed.

Ltac shown := rewrite ?Forall_app; split_and!;
  auto using safeDisplay_inline, tag_inline, FormatInt_inline, graphic_inline, Sprintf_g_graphic; try (by apply inline_lit).

Lemma showLines_inline c o b : config_bytes c → Forall (Forall inline) (showLines c o b).
Proof.
  intros [HT HA HP]. rewrite !Forall_cons in HT. destruct HT as (T1 & T2 & T3 & T4 & T5 & T6 & T7 & _).
  unfold showLines. cbv zeta. rewrite !Forall_app. split_and!.
  - apply Forall_singleton. shown.
  - case_bool_decide; [apply Forall_nil_2|]. apply Forall_cons_2; [shown|by apply numbered_inline].
  - repeat (apply Forall_cons_2; [shown|]). apply Forall_nil_2.
  - case_bool_decide; [apply Forall_singleton; shown|]. apply Forall_cons_2; [shown|]. apply numbered_inline, Forall_fmap.
    eapply Forall_impl; [exact HP|]. intros q. apply strip_bytes.
Qed.


Definition plainProcess : process :=
  {| Getenv _ := []; UserHomeDir := Ok (%"/home/u"); readYAML path := if bool_decide (path = %"/home/u/.config/otedama/config.yaml") then NoDocument else NotExist;
     ParseFloat _ := None; uLower s := s; uUpper s := s; unicodePrint _ := false; platformDataDir := %"/data"; errText _ := [] |}.

