(* ===== verification/RunCmd.v ===== *)
(** * cmd/otedama: the run command

    run.go from the arguments to the exit code, with the engine's start-up and
    shut-down order (engine/run.go, [Run]) in the middle.  A run is the sequence of
    what it prints, acquires and releases. *)
From S2P Require Import Prelude.
From S2P Require Import Float64.
From S2P Require Import Utf8.
From S2P Require Import Text.
From S2P Require Import Bech32.
From S2P Require Import Poolproto.
From S2P Require Import Config.
From S2P Require Import Quoting.
From S2P Require Import JsonOut.
From S2P Require Import WalletCmd.
From S2P Require Import Suggest.
From S2P Require Import I18n.
From S2P Require Import Logger.
From S2P Require Import Flags.
From S2P Require Import ConfigCmd.

Open Scope Z_scope.

(** ** Loopback addresses *)

(** [strings.Trim(s, "[]")]. *)
Fixpoint trimBracketsLeft (s : list Z) : list Z :=
  match s with c :: t => if (c =? 91) || (c =? 93) then trimBracketsLeft t else s | [] => [] end.
Definition trimBrackets (s : list Z) : list Z := reverse (trimBracketsLeft (reverse (trimBracketsLeft s))).

(** net/netip: four decimal fields without leading zeros. *)
Definition decimalField (s : list Z) : option Z :=
  if bool_decide (s = []) || (3 <? length s)%nat || negb (forallb digit s) then None
  else if (1 <? length s)%nat && bool_decide (head s = Some 48) then None
  else let v := foldl (λ a c, 10 * a + (c - 48)) 0 s in if 255 <? v then None else Some v.
Definition parseIPv4 (s : list Z) : option (list Z) :=
  let fs := strings_Split 46 s in
  if (length fs =? 4)%nat then mapM decimalField fs else None.

Definition hexValue (c : Z) : option Z :=
  if digit c then Some (c - 48)
  else if (97 <=? c) && (c <=? 102) then Some (c - 87)
  else if (65 <=? c) && (c <=? 70) then Some (c - 55) else None.
Fixpoint hexRun (s : list Z) : list Z * list Z :=
  match s with
  | c :: t => match hexValue c with Some v => let '(vs, r) := hexRun t in (v :: vs, r) | None => ([], s) end
  | [] => ([], [])
  end.
(** The groups read so far, as bytes, and where the ellipsis stands among them. *)
Fixpoint ipv6Loop (fuel : nat) (ip : list Z) (ellipsis : option nat) (s : list Z) : option (list Z * option nat * list Z) :=
  match fuel with
  | O => Some (ip, ellipsis, s)
  | S fuel =>
      if (16 <=? length ip)%nat then Some (ip, ellipsis, s)
      else
        let '(vs, rest) := hexRun s in
        if bool_decide (vs = []) || (4 <? length vs)%nat then None
        else if bool_decide (head rest = Some 46) then
          if bool_decide (ellipsis = None) && negb (length ip =? 12)%nat then None
          else if (16 <? length ip + 4)%nat then None
          else b ← parseIPv4 s; Some (ip ++ b, ellipsis, [])
        else
          let v := foldl (λ a d, 16 * a + d) 0 vs in
          let ip := ip ++ [Z.shiftr v 8; Z.land v 255] in
          match rest with
          | [] => Some (ip, ellipsis, [])
          | c :: t =>
              if negb (c =? 58) || bool_decide (t = []) then None
              else if bool_decide (head t = Some 58) then
                if bool_decide (ellipsis = None) then
                  match drop 1 t with
                  | [] => Some (ip, Some (length ip), [])
                  | t => ipv6Loop fuel ip (Some (length ip)) t
                  end
                else None
              else ipv6Loop fuel ip ellipsis t
          end
  end.
Definition parseIPv6 (s : list Z) : option (list Z) :=
  let '(ellipsis, s) := if bool_decide (take 2 s = %"::") then (Some O, drop 2 s) else (None, s) in
  if bool_decide (ellipsis = Some O) && bool_decide (s = []) then Some (replicate 16 0)
  else
    '(ip, ellipsis, rest) ← ipv6Loop 9 [] ellipsis s;
    if negb (bool_decide (rest = [])) then None
    else match ellipsis with
    | None => if (length ip <? 16)%nat then None else Some ip
    | Some e => if (length ip <? 16)%nat then Some (take e ip ++ replicate (16 - length ip) 0 ++ drop e ip) else None
    end.
(** [net.ParseIP]: the first dot or colon tells the family; zones are refused. *)
Definition ParseIP (s : list Z) : option (list Z) :=
  match List.find (λ c, (c =? 46) || (c =? 58) || (c =? 37)) s with
  | Some 46 => parseIPv4 s
  | Some 58 => if bool_decide (37 ∈ s) then None else parseIPv6 s
  | _ => None
  end.
Definition IsLoopback (ip : list Z) : bool :=
  let ip4 := if bool_decide (take 12 ip = replicate 10 0 ++ [255; 255]) then drop 12 ip else ip in
  if (length ip4 =? 4)%nat then bool_decide (head ip4 = Some 127) else bool_decide (ip = replicate 15 0 ++ [1]).

Section Run.
Context {T : Type} (template_Parse : list Z → result T) (template_Execute : T → gmap (list Z) (list Z) → result (list Z)).

Definition isLoopbackAddr (unicodeFold : Z → Z) (addr : list Z) : bool :=
  let host := match SplitHostPort addr with Ok (host, _) => host | Err _ => addr end in
  let host := trimBrackets host in
  if EqualFold unicodeFold host (%"localhost") then true
  else match ParseIP host with Some ip => IsLoopback ip | None => false end.

(** ** The run *)

Inductive resource := RLogFile | RHTTP | RWorkers | RMining | RAkash | RDashboard.
Record engineOptions := {
  eo_Config : Config; eo_NoTUI : bool; eo_WalletPassphrase : list Z; eo_WalletMnemonicPassphrase : list Z;
  eo_Logger : Logger; eo_Metrics : bool
}.
Inductive event :=
  | Out (line : list Z) | ErrOut (line : list Z)
  | Acquire (r : resource) | Release (r : resource)
  | Ready (b : bool)
  | Log (record : writer * list Z)         (* a structured record, by its message *)
  | OpenWallet (passphrase mnemonicPassphrase : list Z)   (* setupWallet *)
  | Mine (o : engineOptions).              (* the reconnect loop *)

(** The process, its standard output, and what the host and the engine answer. *)
Record runHost := {
  proc : process;
  stdoutFile : bool;                        (* standard output is an *os.File *)
  fileIsTerminal : bool;
  openLogFile : list Z → result unit;
  listenOn : list Z → result (list Z);
  unicodeFold : Z → Z;
  detected : result unit;                   (* detectDevices *)
  workersStarted : result unit;             (* startMinerWorkers *)
  sessions : list bool;                     (* what the reconnect loop reports as readiness *)
  loopError : option error                  (* how it ends *)
}.
Context (h : runHost).
Let p : process := proc h.

(** engine.Run: what is started, in order, and the deferred stops, last first.
    Phases 7 and 8: the dashboard and the pool. *)
Definition engineSessions (o : engineOptions) : list event :=
  let dash := negb (eo_NoTUI o) in
  (if dash then [Acquire RDashboard] else []) ++
  [Mine o] ++ map Ready (sessions h) ++
  [Ready false] ++ (if dash then [Release RDashboard] else []).
(** Phase 5: the providers. *)
Definition engineProviders (o : engineOptions) : list event :=
  [Acquire RMining; Acquire RAkash] ++ engineSessions o ++ [Release RAkash; Release RMining].
(** Phases 1 to 3: the wallet, the devices and their workers. *)
Definition engine_Run (o : engineOptions) : list event * option error :=
  let wallet := [OpenWallet (eo_WalletPassphrase o) (eo_WalletMnemonicPassphrase o)] in
  match detected h with
  | Err e => (wallet, Some e)
  | Ok _ =>
      match workersStarted h with
      | Err e => (wallet, Some e)
      | Ok _ => (wallet ++ [Acquire RWorkers] ++ engineProviders o ++ [Release RWorkers], loopError h)
      end
  end.

Definition applyRunEnvFallbacks (f : runFlags) : runFlags :=
  {| fvals := fvals f; configFile := configFile f; dryRun := dryRun f; noTUI := noTUI f;
     walletPassphrase := if bool_decide (walletPassphrase f = []) then Getenv p (%"OTEDAMA_WALLET_PASSPHRASE") else walletPassphrase f;
     walletMnemonicPassphrase := if bool_decide (walletMnemonicPassphrase f = []) then Getenv p (%"OTEDAMA_WALLET_MNEMONIC_PASSPHRASE")
                                 else walletMnemonicPassphrase f;
     pprofEnabled := pprofEnabled f; rf_logFile := rf_logFile f; showOrigin := showOrigin f; jsonOut := jsonOut f;
     setFlags := setFlags f |}.
Definition argvWarning : list Z :=
  %"warning: a wallet passphrase given on the command line is visible in process lists; prefer the OTEDAMA_WALLET_PASSPHRASE / OTEDAMA_WALLET_MNEMONIC_PASSPHRASE environment variables".
Definition isTerminal : bool := fileIsTerminal h.
(** The dashboard is off when asked for, and when standard output is a file that is
    not a terminal. *)
Definition noDashboard (f : runFlags) : bool := noTUI f || (stdoutFile h && negb isTerminal).

Definition resolveRunConfig (f : runFlags) : list event * result Config :=
  let '((c, _), warnings) := resolved p f in
  match issues p c with
  | [] => (map ErrOut warnings, Ok c)
  | l => (map ErrOut warnings ++ [ErrOut (issueText p l)], Err (Sentinel "invalid configuration"))
  end.

(** The logger, the events of opening its file, and whether one is open. *)
Definition buildLogger (noTUI : bool) (f : runFlags) (c : Config) : Logger * list event * bool :=
  let '(tr, file) :=
    if bool_decide (rf_logFile f = []) then ([], false)
    else match openLogFile h (rf_logFile f) with
    | Err e => ([ErrOut (%"warning: cannot open --log-file " ++ Quote (unicodePrint p) (rf_logFile f) ++ %": " ++ errText p e)], false)
    | Ok _ => ([Acquire RLogFile], true)
    end in
  let format := if bool_decide (LogFormat c = %"json") then FormatJSON else FormatText in
  let build w := New {| lc_Level := ParseLevel (uLower p) (LogLevel c); lc_Format := format; lc_Writer := Some w; AddSource := false |} in
  if negb noTUI then (if file : bool then build LogFile else Discard, tr, file)
  else (build (if file : bool then StdoutAndFile else Stdout), tr, file).

(** The registry exists, the events, and whether the server runs. *)
Definition startHTTPServer (httpAddr : list Z) (pprof : bool) : bool * list event * bool :=
  if bool_decide (httpAddr = []) then (false, [], false)
  else
    let warning :=
      if isLoopbackAddr (unicodeFold h) httpAddr then []
      else [ErrOut (%"warning: --http-addr " ++ httpAddr ++ %" exposes metrics/health endpoints" ++
                    (if pprof then %" and pprof heap/goroutine profiles" else []) ++ %" to non-loopback clients")] in
    match listenOn h httpAddr with
    | Err e => (true, warning ++ [ErrOut (%"warning: cannot start HTTP server: " ++ errText p (Wrapf "httpserver: listen on %s: %w" e))], false)
    | Ok _ => (true, warning ++ [Acquire RHTTP; Out (%"[info] http: listening on " ++ httpAddr)], true)
    end.

Definition Canceled : error := Sentinel "context canceled".
Definition cmdRun (args : list (list Z)) : exit * list event :=
  match parseRunFlags args with
  | Err e => (parseFailure e, [])
  | Ok f =>
      let f := applyRunEnvFallbacks f in
      let warned := if bool_decide (%"wallet-passphrase" ∈ setFlags f) || bool_decide (%"wallet-mnemonic-passphrase" ∈ setFlags f)
                    then [ErrOut argvWarning] else [] in
      let noTUI := noDashboard f in
      match resolveRunConfig f with
      | (tr, Err _) => (ExitConfig, warned ++ tr)
      | (tr, Ok c) =>
          let '(bundle, lang) := detectRunBundle (uLower p) (Getenv p) (Language c) in
          let b := match bundle with Ok b => b | Err _ => builtin end in
          let logln level id data := Out (%"[" ++ level ++ %"] " ++ (RenderWith template_Parse template_Execute b lang id data).1) in
          let head := warned ++ tr in
          if dryRun f then (ExitOK, head ++ [Out (%"dry-run: configuration is valid; would start run")])
          else
            let poolURL := match Pools c with q :: _ => URL q | [] => DefaultPoolURL end in
            let greeting := [logln (%"info") StartupReady None;
                             logln (%"info") StartupPoolConnecting (Some {[%"url" := poolURL]})] in
            let '(structlog, ltr, logOpen) := buildLogger noTUI f c in
            let '(metrics, htr, httpUp) := startHTTPServer (HTTPAddr c) (pprofEnabled f) in
            let '(etr, err) := engine_Run
              {| eo_Config := c; eo_NoTUI := noTUI; eo_WalletPassphrase := walletPassphrase f;
                 eo_WalletMnemonicPassphrase := walletMnemonicPassphrase f; eo_Logger := structlog; eo_Metrics := metrics |} in
            let '(code, last) :=
              match err with
              | Some e => if errors_Is e Canceled then (ExitOK, [logln (%"info") StatusShuttingDown None])
                          else (ExitRuntime, map Log (logAt structlog LevelError (%"engine")) ++ [Out (%"[error] " ++ errText p e)])
              | None => (ExitOK, [logln (%"info") StatusShuttingDown None])
              end in
            (code, head ++ greeting ++ ltr ++ htr ++ etr ++ last ++
                   (if httpUp : bool then [Release RHTTP] else []) ++ (if logOpen : bool then [Release RLogFile] else []))
      end
  end.
End Run.

Example loopback_examples :
  map (isLoopbackAddr (λ r, r)) [%"127.0.0.1:9090"; %"[::1]:9090"; %"LocalHost:80"; %":9090"; %"0.0.0.0:9090"; %"127.1:9090";
    %"[::ffff:127.0.0.1]:1"; %"10.0.0.1"; %"::1"; %"127.00.0.1:1"; %"[1::2::3]:1"; %"[0:0:0:0:0:0:0:1]:1"; %"[fe80::1%lo]:1"] =
  [true; true; true; false; false; false; true; false; true; false; false; true; false].
Proof. vm_compute. reflexivity. Qed.

(** * What a run acquires it releases *)

#[export] Instance resource_dec : EqDecision resource.
Proof. solve_decision. Defined.

(** The resources held after a run's events, innermost first; [None] when one is
    released that was not acquired last. *)
Fixpoint held (stack : list resource) (tr : list event) : option (list resource) :=
  match tr with
  | [] => Some stack
  | Acquire r :: tr => held (r :: stack) tr
  | Release r :: tr =>
      match stack with
      | r' :: stack => if bool_decide (r' = r) then held stack tr else None
      | [] => None
      end
  | _ :: tr => held stack tr
  end.

Lemma held_app st tr tr' : held st (tr ++ tr') = (held st tr ≫= λ st', held st' tr').
Proof.
  revert st. induction tr as [|e tr IH]; intros st; [done|]. destruct e; cbn [app held]; try apply IH.
  destruct st as [|r' st]; [done|]. case_bool_decide; [apply IH|done].
Qed.
(** Events that hold what was held. *)
Definition neutral (tr : list event) : Prop := ∀ st, held st tr = Some st.
Lemma neutral_app tr tr' : neutral tr → neutral tr' → neutral (tr ++ tr').
Proof. intros H1 H2 st. rewrite held_app, H1. apply H2. Qed.
Lemma neutral_bracket r tr : neutral tr → neutral (Acquire r :: tr ++ [Release r]).
Proof. intros H st. cbn [held]. rewrite held_app, H. cbn. by rewrite bool_decide_true. Qed.
Lemma neutral_map {A} (f : A → event) l : (∀ a, neutral [f a]) → neutral (map f l).
Proof. intros H. induction l as [|a l IH]; [done|]. apply (neutral_app [f a]); auto. Qed.

Lemma sessions_neutral h o : neutral (engineSessions h o).
Proof.
  assert (neutral ([Mine o] ++ map Ready (sessions h) ++ [Ready false])) as HN by (repeat apply neutral_app; try done; by apply neutral_map).
  unfold engineSessions. cbv zeta. destruct (negb (eo_NoTUI o)).
  - pose proof (neutral_bracket RDashboard _ HN) as HB. rewrite <-!app_assoc in HB. exact HB.
  - by rewrite app_nil_r.
Qed.
Lemma engine_neutral h o : neutral (engine_Run h o).1.
Proof.
  unfold engine_Run. destruct (detected h); [|done]. destruct (workersStarted h); [|done]. cbn [fst].
  pose proof (neutral_bracket RWorkers _ (neutral_bracket RMining _ (neutral_bracket RAkash _ (sessions_neutral h o)))) as HB.
  apply (neutral_app [OpenWallet _ _]); [done|]. unfold engineProviders.
  cbn [app] in *. rewrite <-!app_assoc in *. cbn [app] in *. exact HB.
Qed.

Section Properties.
Context {T : Type} (template_Parse : list Z → result T) (template_Execute : T → gmap (list Z) (list Z) → result (list Z)).
Context (h : runHost).

(** The events of opening the log and the server, with those that undo them. *)
Lemma logger_neutral noTUI f c tr :
  neutral tr → let '(_, ltr, isOpen) := buildLogger h noTUI f c in neutral (ltr ++ tr ++ (if isOpen : bool then [Release RLogFile] else [])).
Proof.
  intros HN. unfold buildLogger. destruct (bool_decide (rf_logFile f = [])).
  { destruct (negb noTUI); cbn [app]; by rewrite app_nil_r. }
  destruct (openLogFile h (rf_logFile f)); destruct (negb noTUI); try (by apply neutral_bracket); rewrite app_nil_r; by apply (neutral_app [_]).
Qed.
Lemma http_neutral addr pprof tr :
  neutral tr → let '(_, htr, up) := startHTTPServer h addr pprof in neutral (htr ++ tr ++ (if up : bool then [Release RHTTP] else [])).
Proof.
  intros HN. unfold startHTTPServer. destruct (bool_decide (addr = [])); [cbn [app]; by rewrite app_nil_r|].
  assert (∀ w : bool, neutral (if w then [] else [ErrOut (%"warning: --http-addr " ++ addr ++ %" exposes metrics/health endpoints" ++
    (if pprof then %" and pprof heap/goroutine profiles" else []) ++ %" to non-loopback clients")])) as Hw by (by intros []).
  destruct (listenOn h addr); rewrite <-app_assoc; (apply neutral_app; [apply Hw|]).
  - cbn [app]. apply (neutral_bracket RHTTP (Out _ :: tr)). by apply (neutral_app [Out _]).
  - rewrite app_nil_r. by apply (neutral_app [ErrOut _]).
Qed.

(** ** The shape of a run *)

(** Events that only print. *)
Definition prints (e : event) : bool := match e with Out _ | ErrOut _ | Log _ => true | _ => false end.
Lemma prints_neutral tr : Forall prints tr → neutral tr.
Proof. induction 1 as [|e l He _ IH]; [done|]. intros st. destruct e; try done; apply IH. Qed.

(** The configurations a run mines with, the readiness it leaves, and what it
    acquires. *)
Definition mined : list event → list engineOptions := omap (λ e, match e with Mine o => Some o | _ => None end).
Definition readyFrom (b : bool) (tr : list event) : bool := foldl (λ b e, match e with Ready b' => b' | _ => b end) b tr.
Definition acquired : list event → list resource := omap (λ e, match e with Acquire r => Some r | _ => None end).
Lemma prints_nothing tr : Forall prints tr → mined tr = [] ∧ acquired tr = [] ∧ ∀ b, readyFrom b tr = b.
Proof. induction 1 as [|e l He _ (IH1 & IH2 & IH3)]; [done|]. unfold readyFrom in *. by destruct e. Qed.

(** How the engine ends. *)
Definition engineError : option error :=
  match detected h with
  | Err e => Some e
  | Ok _ => match workersStarted h with Err e => Some e | Ok _ => loopError h end
  end.
Definition runCode : exit :=
  match engineError with Some e => if errors_Is e Canceled then ExitOK else ExitRuntime | None => ExitOK end.
Definition engineStarts : bool := match detected h, workersStarted h with Ok _, Ok _ => true | _, _ => false end.

Lemma resolve_prints f : Forall prints (resolveRunConfig h f).1.
Proof.
  unfold resolveRunConfig. destruct (resolved (proc h) f) as [[c o] w].
  assert (Forall prints (map ErrOut w)) as HW by (apply Forall_fmap, Forall_true; done).
  destruct (issues (proc h) c) as [|i l]; cbn [fst]; [done|]. apply Forall_app. split; [done|]. by apply Forall_singleton.
Qed.
Lemma resolve_result f :
  (resolveRunConfig h f).2 = match issues (proc h) (resolved (proc h) f).1.1 with
                             | [] => Ok (resolved (proc h) f).1.1 | _ => Err (Sentinel "invalid configuration") end.
Proof. unfold resolveRunConfig. destruct (resolved (proc h) f) as [[c o] w]. cbn [fst]. by destruct (issues (proc h) c). Qed.

(** A run that reaches the engine. *)
Lemma cmdRun_started args f :
  let c := (resolved (proc h) f).1.1 in
  parseRunFlags args = Ok f → issues (proc h) c = [] → dryRun f = false →
  let L := buildLogger h (noDashboard h f) f c in
  let H := startHTTPServer h (HTTPAddr c) (pprofEnabled f) in
  let f' := applyRunEnvFallbacks h f in
  ∃ front last, Forall prints front ∧ Forall prints last ∧
    (∀ e, runCode = ExitRuntime → engineError = Some e → Out (%"[error] " ++ errText (proc h) e) ∈ last) ∧
    cmdRun template_Parse template_Execute h args =
      (runCode, front ++ L.1.2 ++ H.1.2 ++
        (engine_Run h {| eo_Config := c; eo_NoTUI := noDashboard h f; eo_WalletPassphrase := walletPassphrase f';
           eo_WalletMnemonicPassphrase := walletMnemonicPassphrase f'; eo_Logger := L.1.1; eo_Metrics := H.1.1 |}).1 ++ last ++
        (if H.2 then [Release RHTTP] else []) ++ (if L.2 then [Release RLogFile] else [])).
Proof.
  cbv zeta. intros Hf Hi Hd. unfold cmdRun. rewrite Hf.
  pose proof (resolve_prints (applyRunEnvFallbacks h f)) as HP. pose proof (resolve_result (applyRunEnvFallbacks h f)) as HR.
  change (resolved (proc h) (applyRunEnvFallbacks h f)) with (resolved (proc h) f) in HR. rewrite Hi in HR.
  destruct (resolveRunConfig h (applyRunEnvFallbacks h f)) as [tr r]. cbn [fst snd] in HP, HR. subst r. cbv zeta.
  set (c := (resolved (proc h) f).1.1) in *. destruct (detectRunBundle _ _ _) as [bundle lang].
  change (dryRun (applyRunEnvFallbacks h f)) with (dryRun f). rewrite Hd.
  change (noDashboard h (applyRunEnvFallbacks h f)) with (noDashboard h f).
  change (buildLogger h (noDashboard h f) (applyRunEnvFallbacks h f) c) with (buildLogger h (noDashboard h f) f c).
  change (pprofEnabled (applyRunEnvFallbacks h f)) with (pprofEnabled f).
  destruct (buildLogger h (noDashboard h f) f c) as [[lg ltr] lo]. destruct (startHTTPServer h (HTTPAddr c) (pprofEnabled f)) as [[m htr] up].
  cbn [fst snd]. set (o := {| eo_Config := c |}).
  assert ((engine_Run h o).2 = engineError) as HE.
  { unfold engine_Run, engineError. destruct (detected h); [|done]. by destruct (workersStarted h). }
  destruct (engine_Run h o) as [etr err]. cbn [fst snd] in *. subst err. unfold runCode.
  assert (∀ b : bool, Forall prints (if b then [ErrOut argvWarning] else [])) as HW by (intros []; repeat constructor).
  assert (∀ g, Forall prints [Out g]) as HG1 by (repeat constructor).
  assert (∀ g1 g2, Forall prints [Out g1; Out g2]) as HG by (repeat constructor).
  assert (∀ l e, Forall prints (map Log l ++ [Out e])) as HL.
  { intros l e. apply Forall_app. split; [by apply Forall_fmap, Forall_true|apply HG1]. }
  destruct engineError as [e|] eqn:Ee; [destruct (errors_Is e Canceled)|];
    match goal with |- context [(?w ++ tr) ++ ?g ++ ltr ++ htr ++ etr ++ ?l ++ _] => exists ((w ++ tr) ++ g), l end;
    (split; [rewrite !Forall_app; split; [split; [apply HW|exact HP]|apply HG]|]).
  - split; [apply HG1|]. split; [intros ? [=]|]. by rewrite <-!app_assoc.
  - split; [apply HL|]. split; [|by rewrite <-!app_assoc].
    intros e' _ [= <-]. apply elem_of_app. right. by apply list_elem_of_singleton.
  - split; [apply HG1|]. split; [intros ? [=]|]. by rewrite <-!app_assoc.
Qed.
(** A run that stops before it. *)
Lemma cmdRun_stopped args f :
  let c := (resolved (proc h) f).1.1 in
  parseRunFlags args = Ok f → issues (proc h) c ≠ [] ∨ dryRun f = true →
  ∃ tr, Forall prints tr ∧ (issues (proc h) c ≠ [] → ErrOut (issueText (proc h) (issues (proc h) c)) ∈ tr) ∧
    cmdRun template_Parse template_Execute h args = (if bool_decide (issues (proc h) c = []) then ExitOK else ExitConfig, tr).
Proof.
  cbv zeta. intros Hf Hs. unfold cmdRun. rewrite Hf.
  pose proof (resolve_prints (applyRunEnvFallbacks h f)) as HP.
  assert (∀ b : bool, Forall prints (if b then [ErrOut argvWarning] else [])) as HW by (intros []; repeat constructor).
  assert (∀ g, Forall prints [Out g]) as HG1 by (repeat constructor).
  unfold resolveRunConfig in *. change (resolved (proc h) (applyRunEnvFallbacks h f)) with (resolved (proc h) f) in *.
  destruct (resolved (proc h) f) as [[c o] w]. cbn [fst snd] in *. destruct (issues (proc h) c) as [|i l] eqn:Ei; cbn [fst] in HP.
  - destruct Hs as [Hs|Hd]; [done|]. destruct (detectRunBundle _ _ _) as [bundle lang]. cbv zeta.
    change (dryRun (applyRunEnvFallbacks h f)) with (dryRun f). rewrite Hd, (bool_decide_true (@nil error = [])) by done.
    eexists. split; [|split; [intros Hn; by destruct (Hn eq_refl)|reflexivity]]. rewrite !Forall_app. split; [split; [apply HW|exact HP]|apply HG1].
  - rewrite (bool_decide_false (i :: l = [])) by done. cbv zeta. eexists. split; [|split; [|reflexivity]].
    + apply Forall_app. split; [apply HW|exact HP].
    + intros _. apply elem_of_app. right. apply elem_of_app. right. by apply list_elem_of_singleton.
Qed.

Lemma validate_code args f :
  parseRunFlags args = Ok f →
  (cmdConfigValidate (proc h) args).1.1 = if bool_decide (issues (proc h) (resolved (proc h) f).1.1 = []) then ExitOK else ExitConfig.
Proof.
  intros Hf. unfold cmdConfigValidate. rewrite Hf. destruct (resolved (proc h) f) as [[c o] w]. cbn [fst].
  by destruct (issues (proc h) c).
Qed.
Lemma logger_quiet f c : l_writer (buildLogger h false f c).1.1 ∈ [DiscardAll; LogFile].
Proof.
  unfold buildLogger. destruct (if bool_decide (rf_logFile f = []) then _ else _) as [tr file]. cbn [negb fst snd].
  destruct file; cbn; set_solver.
Qed.
Lemma logger_trace noTUI f c : mined (buildLogger h noTUI f c).1.2 = [] ∧ ∀ b, readyFrom b (buildLogger h noTUI f c).1.2 = b.
Proof.
  unfold buildLogger. destruct (bool_decide (rf_logFile f = [])); [by destruct (negb noTUI)|].
  by destruct (openLogFile h (rf_logFile f)), (negb noTUI).
Qed.
Lemma http_trace addr pprof : mined (startHTTPServer h addr pprof).1.2 = [] ∧ ∀ b, readyFrom b (startHTTPServer h addr pprof).1.2 = b.
Proof.
  unfold startHTTPServer. destruct (bool_decide (addr = [])); [done|]. cbv zeta.
  by destruct (isLoopbackAddr _ _), (listenOn h addr).
Qed.
Lemma http_registry addr pprof : (startHTTPServer h addr pprof).1.1 = bool_decide (addr ≠ []).
Proof.
  unfold startHTTPServer. destruct (bool_decide_reflect (addr = [])) as [->|Hn]; [done|]. rewrite bool_decide_true by done.
  by destruct (listenOn h addr).
Qed.
Lemma engine_trace o :
  mined (engine_Run h o).1 = (if engineStarts then [o] else []) ∧ readyFrom false (engine_Run h o).1 = false.
Proof.
  unfold engine_Run, engineStarts. destruct (detected h); [|done]. destruct (workersStarted h); [|done]. cbn [fst].
  assert (∀ l, mined (map Ready l) = []) as HM by (induction l; done).
  assert (∀ l l', mined (l ++ l') = mined l ++ mined l') as Ha by (intros; apply omap_app).
  assert (∀ b l l', readyFrom b (l ++ l') = readyFrom (readyFrom b l) l') as Hr by (intros; apply foldl_app).
  unfold engineProviders, engineSessions. cbv zeta. split.
  - rewrite !Ha, HM. by destruct (negb (eo_NoTUI o)).
  - rewrite !Hr. by destruct (negb (eo_NoTUI o)).
Qed.

(** C28. What the run command answers on every path.  Arguments that do not parse end it
    with the code of the failure and nothing done; an invalid configuration ends it
    with the configuration code, the issues on standard error and nothing acquired
    or mined; a dry run ends there successfully, so that it answers as config
    validate does.  Otherwise the engine is run once, with exactly the validated
    configuration, and the code is the runtime code when it ends with an error that
    is not a cancellation, which is then printed; while the dashboard owns the
    terminal no log record is written to standard output. *)
Theorem run_exit_codes args :
  let code := (cmdRun template_Parse template_Execute h args).1 in
  let tr := (cmdRun template_Parse template_Execute h args).2 in
  let validate := (cmdConfigValidate (proc h) args).1.1 in
  match parseRunFlags args with
  | Err e => code = parseFailure e ∧ code = validate ∧ tr = []
  | Ok f =>
      let c := (resolved (proc h) f).1.1 in
      let f' := applyRunEnvFallbacks h f in
      match issues (proc h) c, dryRun f with
      | (_ :: _) as l, _ => code = ExitConfig ∧ code = validate ∧ Forall prints tr ∧ ErrOut (issueText (proc h) l) ∈ tr
      | [], true => code = ExitOK ∧ code = validate ∧ Forall prints tr
      | [], false =>
          code = runCode ∧ validate = ExitOK ∧
          (∀ e, runCode = ExitRuntime → engineError = Some e → Out (%"[error] " ++ errText (proc h) e) ∈ tr) ∧
          ∃ lg, mined tr = (if engineStarts then
                              [{| eo_Config := c; eo_NoTUI := noDashboard h f; eo_WalletPassphrase := walletPassphrase f';
                                  eo_WalletMnemonicPassphrase := walletMnemonicPassphrase f'; eo_Logger := lg;
                                  eo_Metrics := bool_decide (HTTPAddr c ≠ []) |}] else []) ∧
                (noDashboard h f = false → l_writer lg ∈ [DiscardAll; LogFile])
      end
  end.
Proof.
  cbv zeta. destruct (parseRunFlags args) as [f|e] eqn:Hf; cycle 1.
  { unfold cmdRun, cmdConfigValidate. by rewrite Hf. }
  rewrite (validate_code args f Hf). pose proof (cmdRun_stopped args f Hf) as HS. pose proof (cmdRun_started args f Hf) as HT.
  cbv zeta in HT. destruct (issues (proc h) _) as [|i l] eqn:Ei; [destruct (dryRun f) eqn:Ed|].
  - destruct HS as (tr & HP & _ & ->); [by right|]. by rewrite (bool_decide_true (@nil error = [])).
  - destruct HT as (front & last & HF & HL & HE & ->); [done..|]. cbn [fst snd]. rewrite (bool_decide_true (@nil error = [])) by done.
    split; [done|]. split; [done|]. split.
    { intros e H1 H2. specialize (HE e H1 H2). rewrite !elem_of_app. tauto. }
    exists (buildLogger h (noDashboard h f) f (resolved (proc h) f).1.1).1.1. split; [|intros ->; apply logger_quiet].
    assert (∀ l l', mined (l ++ l') = mined l ++ mined l') as Ha by (intros; apply omap_app).
    rewrite !Ha, (proj1 (prints_nothing _ HF)), (proj1 (prints_nothing _ HL)), (proj1 (logger_trace _ _ _)), (proj1 (http_trace _ _)),
      (proj1 (engine_trace _)).
    rewrite http_registry. cbn [app]. rewrite <-(app_nil_r (if engineStarts then _ else _)) at 2. f_equal.
    by destruct (startHTTPServer _ _ _).2, (buildLogger _ _ _ _).2.
  - destruct HS as (tr & HP & HI & ->); [by left|]. rewrite (bool_decide_false (i :: l = [])) by done.
    cbn [fst snd]. split_and!; [done..|]. by apply HI.
Qed.

(** Nothing outlives a run.  On every path (refused arguments, invalid
    configuration, dry run, a log file or an HTTP server that cannot be opened, no
    device, workers that do not start, a session that fails) the resources acquired
    (log file, HTTP server, workers, mining and Akash loops, dashboard) are released
    in the reverse order, each after everything that was started on top of it; and
    the readiness endpoint is back to not ready. *)
Theorem run_releases args :
  held [] (cmdRun template_Parse template_Execute h args).2 = Some [] ∧
  readyFrom false (cmdRun template_Parse template_Execute h args).2 = false.
Proof.
  destruct (parseRunFlags args) as [f|e] eqn:Hf; cycle 1.
  { unfold cmdRun. by rewrite Hf. }
  destruct (decide (issues (proc h) (resolved (proc h) f).1.1 ≠ [] ∨ dryRun f = true)) as [HS|HS].
  { destruct (cmdRun_stopped args f Hf HS) as (tr & HP & _ & ->). split; [by apply prints_neutral|by apply prints_nothing]. }
  destruct (cmdRun_started args f Hf) as (front & last & HF & HL & _ & ->).
  { destruct (issues (proc h) _); [done|]. destruct HS. by left. }
  { destruct (dryRun f); [destruct HS; by right|done]. }
  cbn [snd]. pose proof (prints_neutral _ HF) as NF. pose proof (prints_neutral _ HL) as NL. split.
  - revert NF. generalize front. intros l NF. rewrite held_app, NF. cbn [mbind option_bind].
    match goal with |- context [engine_Run h ?o] => pose proof (neutral_app _ _ (engine_neutral h o) NL) as NE end.
    pose proof (http_neutral (HTTPAddr (resolved (proc h) f).1.1) (pprofEnabled f) _ NE) as NH.
    destruct (startHTTPServer h _ _) as [[m htr] up]. cbn [fst snd] in *.
    pose proof (logger_neutral (noDashboard h f) f (resolved (proc h) f).1.1 _ NH) as NB.
    destruct (buildLogger h _ f _) as [[lg ltr] lo]. cbn [fst snd] in *. rewrite <-!app_assoc in NB. apply NB.
  - assert (∀ b l l', readyFrom b (l ++ l') = readyFrom (readyFrom b l) l') as Hr by (intros; apply foldl_app).
    rewrite !Hr. destruct (prints_nothing _ HF) as (_ & _ & ->). rewrite (proj2 (logger_trace _ _ _)), (proj2 (http_trace _ _)),
      (proj2 (engine_trace _)). destruct (prints_nothing _ HL) as (_ & _ & ->).
    by destruct (startHTTPServer h _ _).2, (buildLogger h _ f _).2.
Qed.
End Properties.
