(* ===== verification/MainCmd.v ===== *)
(** * cmd/otedama: the other commands and the dispatcher

    The version (internal/version, version.go), service (service.go), doctor
    (doctor.go) and completion (completion.go) commands, the flags and the
    directory of the wallet commands (wallet.go), and the dispatcher of main.go. *)
From S2P Require Import Prelude.
From S2P Require Import Float64.
From S2P Require Import Utf8.
From S2P Require Import Json.
From S2P Require Import Text.
From S2P Require Import Bech32.
From S2P Require Import Poolproto.
From S2P Require Import Config.
From S2P Require Import Quoting.
From S2P Require Import JsonOut.
From S2P Require Import Daemon.
From S2P Require Import Suggest.
From S2P Require Import Doctor.
From S2P Require Import DoctorChecks.
From S2P Require Import Flags.
From S2P Require Import ConfigCmd.

Open Scope Z_scope.

(** ** version *)

Record Info := { i_Version : list Z; i_Commit : list Z; i_BuildDate : list Z; GoVersion : list Z; Platform : list Z }.
(** The variables the linker sets, with the defaults of a plain build. *)
Record buildVars := { b_Version : list Z; b_Commit : list Z; b_BuildDate : list Z }.
Definition developmentBuild : buildVars :=
  {| b_Version := %"v3.0.0-alpha.1-dev"; b_Commit := %"unknown"; b_BuildDate := %"unknown" |}.
(** The runtime's version, GOOS and GOARCH are arguments. *)
Definition Info_Get (b : buildVars) (runtimeVersion goos goarch : list Z) : Info :=
  {| i_Version := b_Version b; i_Commit := b_Commit b; i_BuildDate := b_BuildDate b;
     GoVersion := runtimeVersion; Platform := goos ++ %"/" ++ goarch |}.
Definition Info_String (i : Info) : list Z :=
  %"otedama " ++ i_Version i ++ %" (" ++ i_Commit i ++ %") built " ++ i_BuildDate i ++ %" with " ++ GoVersion i ++
  %" for " ++ Platform i.
(** The fields in the order of the struct, under their tags. *)
Definition infoDoc (i : Info) : jout :=
  OObj [(%"version", OStr (i_Version i)); (%"commit", OStr (i_Commit i)); (%"build_date", OStr (i_BuildDate i));
        (%"go_version", OStr (GoVersion i)); (%"platform", OStr (Platform i))].
Definition cmdVersion (i : Info) (args : list (list Z)) : exit * list Z :=
  match parseSubcommandFlags [(%"json", BoolFlag)] args with
  | (Err e, _) => (parseFailure e, [])
  | (Ok asg, _) => (ExitOK, if boolValue asg (%"json") then Encode (infoDoc i) else unlines [Info_String i])
  end.

(** ** completion *)

Definition completionShells : list (list Z) := [%"bash"; %"zsh"; %"fish"].
Definition joinOr (l : list (list Z)) : list Z :=
  match l with
  | [] => []
  | [s] => s
  | _ => foldl (λ out s, out ++ s) []
           (imap (λ i s, if (i =? 0)%nat then s else if (i =? length l - 1)%nat then %" or " ++ s else %", " ++ s) l)
  end.
(** A caret stands for a double quote in these texts. *)
Definition caret (s : list Z) : list Z := map (λ c, if c =? 94 then 34 else c) s.
Definition bashCompletion : list Z := caret (%"# bash completion for otedama
_otedama() {
    local cur=^${COMP_WORDS[COMP_CWORD]}^
    local commands=^run version config service doctor wallet help completion^
    if [ ^${COMP_CWORD}^ -eq 1 ]; then
        COMPREPLY=( $(compgen -W ^${commands}^ -- ^${cur}^) )
        return
    fi
    case ^${COMP_WORDS[1]}^ in
        config)     COMPREPLY=( $(compgen -W ^show validate^ -- ^${cur}^) ) ;;
        service)    COMPREPLY=( $(compgen -W ^install uninstall status^ -- ^${cur}^) ) ;;
        completion) COMPREPLY=( $(compgen -W ^bash zsh fish^ -- ^${cur}^) ) ;;
        wallet)     COMPREPLY=( $(compgen -W ^verify change-passphrase^ -- ^${cur}^) ) ;;
    esac
}
complete -F _otedama otedama
").
Definition zshCompletion : list Z := %"#compdef otedama
# zsh completion for otedama
_otedama() {
    local -a commands
    commands=(run version config service doctor wallet help completion)
    if (( CURRENT == 2 )); then
        _describe 'otedama command' commands
        return
    fi
    case $words[2] in
        config)     _values 'config subcommand' show validate ;;
        service)    _values 'service subcommand' install uninstall status ;;
        completion) _values 'shell' bash zsh fish ;;
        wallet)     _values 'wallet subcommand' verify change-passphrase ;;
    esac
}
compdef _otedama otedama
".
Definition fishCompletion : list Z := %"# fish completion for otedama
complete -c otedama -f
complete -c otedama -n __fish_use_subcommand -a run        -d 'Start mining and/or compute workloads'
complete -c otedama -n __fish_use_subcommand -a version    -d 'Print version information'
complete -c otedama -n __fish_use_subcommand -a config     -d 'Inspect or validate configuration'
complete -c otedama -n __fish_use_subcommand -a service    -d 'Install/uninstall background service'
complete -c otedama -n __fish_use_subcommand -a doctor     -d 'Run self-diagnostic checks'
complete -c otedama -n __fish_use_subcommand -a wallet     -d 'Manage the Lightning wallet'
complete -c otedama -n __fish_use_subcommand -a help       -d 'Print help'
complete -c otedama -n __fish_use_subcommand -a completion -d 'Generate shell completion'
complete -c otedama -n '__fish_seen_subcommand_from config'     -a 'show validate'
complete -c otedama -n '__fish_seen_subcommand_from service'    -a 'install uninstall status'
complete -c otedama -n '__fish_seen_subcommand_from completion' -a 'bash zsh fish'
complete -c otedama -n '__fish_seen_subcommand_from wallet'     -a 'verify change-passphrase'
".
Definition scriptOf (shell : list Z) : option (list Z) :=
  if bool_decide (shell = %"bash") then Some bashCompletion
  else if bool_decide (shell = %"zsh") then Some zshCompletion
  else if bool_decide (shell = %"fish") then Some fishCompletion else None.

Section Commands.
Context (p : process).

(** Exit code, standard output, standard error. *)
Notation outcome := (exit * list Z * list Z)%type.

Definition cmdCompletion (args : list (list Z)) : outcome :=
  match args with
  | [shell] =>
      match scriptOf shell with
      | Some script => (ExitOK, script, [])
      | None => (ExitUsage, [], unlines [%"otedama completion: unsupported shell " ++ Quote (unicodePrint p) shell ++
                                         %" (want " ++ joinOr completionShells ++ %")"])
      end
  | _ => (ExitUsage, [], unlines [%"otedama completion: expected one shell argument (" ++ joinOr completionShells ++ %")"])
  end.

(** ** service *)

Definition serviceFlagSet : list (list Z * kind) :=
  [(%"config", StringFlag); (%"data-dir", StringFlag); (%"bitcoin-address", StringFlag); (%"log-level", StringFlag);
   (%"log-format", StringFlag); (%"language", StringFlag)].
Definition serviceFlagsOf (asg : list (list Z * fval)) : ServiceFlags :=
  {| Daemon.BitcoinAddress := stringValue asg (%"bitcoin-address"); sf_LogLevel := stringValue asg (%"log-level");
     sf_LogFormat := stringValue asg (%"log-format"); sf_Language := stringValue asg (%"language") |}.
Definition noServiceFlags : ServiceFlags := serviceFlagsOf [].
(** The outcome and what was attempted on the host. *)
Definition cmdServiceInstall (h : host) (args : list (list Z)) : outcome * list act :=
  match parseSubcommandFlags serviceFlagSet args with
  | (Err e, _) => ((parseFailure e, [], []), [])
  | (Ok asg, _) =>
      match NewManager h (stringValue asg (%"config")) (stringValue asg (%"data-dir")) (serviceFlagsOf asg) with
      | Err e => ((ExitRuntime, [], unlines [%"service: " ++ errText p e]), [])
      | Ok mgr =>
          match Install (unicodePrint p) h mgr [] with
          | (Err e, acts) => ((ExitRuntime, [], unlines [%"service install failed: " ++ errText p e]), acts)
          | (Ok _, acts) => ((ExitOK, unlines [%"Otedama service installed and started."; %"It will start automatically on login."], []), acts)
          end
      end
  end.
Definition cmdServiceUninstall (h : host) : outcome * list act :=
  match NewManager h [] [] noServiceFlags with
  | Err e => ((ExitRuntime, [], unlines [%"service: " ++ errText p e]), [])
  | Ok _ =>
      match Uninstall h [] with
      | (Err e, acts) => ((ExitRuntime, [], unlines [%"service uninstall failed: " ++ errText p e]), acts)
      | (Ok _, acts) => ((ExitOK, unlines [%"Otedama service uninstalled."], []), acts)
      end
  end.
Definition cmdServiceStatus (h : host) : outcome * list act :=
  match NewManager h [] [] noServiceFlags with
  | Err e => ((ExitRuntime, [], unlines [%"service: " ++ errText p e]), [])
  | Ok _ =>
      match Daemon.Status h [] with
      | (Err e, acts) => ((ExitRuntime, [], unlines [%"service status: " ++ errText p e]), acts)
      | (Ok status, acts) =>
          ((ExitOK, if Installed status
                    then unlines [%"Otedama service: installed, " ++ (if Daemon.Running status then %"running" else %"stopped")]
                    else unlines [%"Otedama service: not installed"; %"Run 'otedama service install' to install."], []), acts)
      end
  end.
Definition serviceUsage : list Z := %"otedama service: expected subcommand (install|uninstall|status)".
Definition cmdService (h : host) (args : list (list Z)) : outcome * list act :=
  match args with
  | [] => ((ExitUsage, [], unlines [serviceUsage]), [])
  | sub :: args =>
      if bool_decide (sub = %"install") then cmdServiceInstall h args
      else if bool_decide (sub = %"uninstall") then cmdServiceUninstall h
      else if bool_decide (sub = %"status") then cmdServiceStatus h
      else if bool_decide (sub ∈ [helpSubcommand; %"--help"; %"-h"]) then ((ExitOK, unlines [serviceUsage], []), [])
      else ((ExitUsage, [], unlines [%"otedama service: unknown subcommand " ++ Quote (unicodePrint p) sub]), [])
  end.

(** ** doctor *)

Definition doctorFlagSet : list (list Z * kind) :=
  [(%"config", StringFlag); (%"bitcoin-address", StringFlag); (%"data-dir", StringFlag); (%"json", BoolFlag)].
Definition noFlagValues : FlagValues :=
  {| fl_BitcoinAddress := []; fl_LogLevel := []; fl_LogFormat := []; fl_Language := []; fl_DataDir := []; fl_HTTPAddr := [] |}.
Definition doctorConfig (asg : list (list Z * fval)) : Config :=
  (ResolveWithOrigins (envOf p) (ParseFloat p) (platformDataDir p) (loadConfigFile p (stringValue asg (%"config"))).1
     {| fl_BitcoinAddress := stringValue asg (%"bitcoin-address"); fl_LogLevel := []; fl_LogFormat := []; fl_Language := [];
        fl_DataDir := stringValue asg (%"data-dir"); fl_HTTPAddr := [] |}).1.
(** What the command can answer: the checks run concurrently. *)
Definition cmdDoctor (w : machine) (args : list (list Z)) (code : Z) (out : list Z) : Prop :=
  match parseSubcommandFlags doctorFlagSet args with
  | (Err e, _) => code = exitCode (parseFailure e) ∧ out = []
  | (Ok asg, _) =>
      ∃ rep, Doctor.Run (DefaultChecks w (doctorConfig asg) (stringValue asg (%"config"))) rep ∧
        out = (if boolValue asg (%"json") then WriteJSON rep else Print rep) ∧ code = Doctor.ExitCode rep
  end.

(** ** The flags of the wallet commands *)

Record walletFlags := { wf_dataDir : list Z; wf_configFile : list Z }.
Definition walletFlagSet : list (list Z * kind) := [(%"data-dir", StringFlag); (%"config", StringFlag)].
Definition parseWalletFlags (args : list (list Z)) : result walletFlags :=
  match parseSubcommandFlags walletFlagSet args with
  | (Err e, _) => Err e
  | (Ok asg, _) => Ok {| wf_dataDir := stringValue asg (%"data-dir"); wf_configFile := stringValue asg (%"config") |}
  end.
Definition walletDataDir (f : walletFlags) : list Z :=
  DataDir (ResolveWithOrigins (envOf p) (ParseFloat p) (platformDataDir p) (loadConfigFile p (wf_configFile f)).1
    {| fl_BitcoinAddress := []; fl_LogLevel := []; fl_LogFormat := []; fl_Language := [];
       fl_DataDir := wf_dataDir f; fl_HTTPAddr := [] |}).1.

(** The dispatch of [cmdWallet]: the verb and its arguments, or the exit code and
    what is printed before the usage text. *)
Inductive walletVerb := WVerify | WChangePassphrase.
Definition cmdWallet (args : list (list Z)) : walletVerb * list (list Z) + exit * list (list Z) :=
  match args with
  | [] => inr (ExitUsage, [])
  | verb :: args =>
      if bool_decide (verb = %"verify") then inl (WVerify, args)
      else if bool_decide (verb = %"change-passphrase") then inl (WChangePassphrase, args)
      else if bool_decide (verb ∈ [helpSubcommand; %"--help"; %"-h"]) then inr (ExitOK, [])
      else inr (ExitUsage, [%"otedama: unknown wallet subcommand " ++ Quote (unicodePrint p) verb])
  end.

(** ** The dispatcher *)

Inductive command := CRun | CVersion | CConfig | CService | CDoctor | CWallet | CCompletion | CHelp.
(** The switch of [run]; [None] is its default. *)
Definition commandOf (arg : list Z) : option command :=
  if bool_decide (arg = %"run") then Some CRun
  else if bool_decide (arg ∈ [%"version"; %"--version"; %"-v"]) then Some CVersion
  else if bool_decide (arg = %"config") then Some CConfig
  else if bool_decide (arg = %"service") then Some CService
  else if bool_decide (arg = %"doctor") then Some CDoctor
  else if bool_decide (arg = %"wallet") then Some CWallet
  else if bool_decide (arg = %"completion") then Some CCompletion
  else if bool_decide (arg ∈ [helpSubcommand; %"--help"; %"-h"]) then Some CHelp
  else None.
(** What an unknown first argument prints before the usage. *)
Definition unknownSubcommand (arg : list Z) : list (list Z) :=
  let s := suggestSubcommand arg in
  (%"otedama: unknown subcommand " ++ Quote (unicodePrint p) arg) ::
  (if bool_decide (s = []) then [] else [%"otedama: did you mean " ++ Quote (unicodePrint p) s ++ %"?"]).
(** The command and its arguments, or the exit code and what is printed of it,
    the usage text apart. *)
Definition dispatch (args : list (list Z)) : command * list (list Z) + exit * list (list Z) :=
  match args with
  | [] => inr (ExitUsage, [])
  | a :: args =>
      match commandOf a with
      | Some CHelp => inr (ExitOK, [])
      | Some c => inl (c, args)
      | None => inr (ExitUsage, unknownSubcommand a)
      end
  end.
End Commands.

(** * One command line, one configuration *)

(** The flags of [fs] are flags of [fs'], of the same kind. *)
Definition flagsIn (fs fs' : list (list Z * kind)) : Prop := ∀ n k, kindOf fs n = Some k → kindOf fs' n = Some k.

#[export] Instance kind_dec : EqDecision kind.
Proof. solve_decision. Defined.
Lemma flagsIn_list fs fs' : forallb (λ f, bool_decide (kindOf fs' f.1 = kindOf fs f.1)) fs = true → flagsIn fs fs'.
Proof.
  intros H n k Hk. pose proof Hk as Hk'. rewrite forallb_forall in H. unfold kindOf in Hk.
  destruct (List.find _ fs) as [[n' k']|] eqn:E; [|done]. apply find_some in E as [Hin En].
  apply bool_decide_eq_true in En. cbn in En. subst n'. specialize (H _ Hin). apply bool_decide_eq_true in H. cbn [fst] in H.
  by rewrite H.
Qed.

Lemma parseOne_more fs fs' s :
  flagsIn fs fs' → match parseOne fs s with Bad _ => True | t => parseOne fs' s = t end.
Proof.
  intros HI. assert (∀ b, match flagToken fs b with Bad _ => True | t => flagToken fs' b = t end) as HT.
  { intros b. unfold flagToken. destruct (bool_decide (b = []) || _ || _); [done|]. destruct (cutEquals b) as [name value].
    destruct (kindOf fs name) as [k|] eqn:Ek; [rewrite (HI _ _ Ek)|by destruct (bool_decide _)].
    destruct k, value as [v|]; try done. by destruct (ParseBool v). }
  destruct s as [|c1 [|c2 t]]; [done| |].
  - unfold parseOne. by repeat case_match.
  - assert (∀ g, parseOne g (c1 :: c2 :: t) =
      if c1 =? 45 then if c2 =? 45 then match t with [] => Terminator | _ => flagToken g t end else flagToken g (c2 :: t) else NotFlag) as E.
    { intros g. unfold parseOne. destruct (Z.eqb_spec c1 45) as [->|Hn]; [done|]. repeat case_match; try done; congruence. }
    rewrite !E. destruct (c1 =? 45); [|done]. destruct (c2 =? 45); [destruct t; [done|]|]; apply HT.
Qed.

(** What a command accepts, a command with more flags accepts as well, and reads
    the same. *)
Lemma Parse_more fs fs' args asg rest : flagsIn fs fs' → Parse fs args = (Ok asg, rest) → Parse fs' args = (Ok asg, rest).
Proof.
  intros HI. revert asg rest. enough (∀ n args asg rest, (length args ≤ n)%nat →
    Parse fs args = (Ok asg, rest) → Parse fs' args = (Ok asg, rest)) as H by (intros ??; by apply (H (length args))).
  clear args. induction n as [|n IH]; intros args asg rest Hn; destruct args as [|s args]; cbn [length] in Hn; [done|lia|done|].
  cbn [Parse]. pose proof (parseOne_more fs fs' s HI) as HP.
  assert (∀ args' x, (length args' ≤ n)%nat →
    (let '(r, a) := Parse fs args' in (consOk x r, a)) = (Ok asg, rest) →
    (let '(r, a) := Parse fs' args' in (consOk x r, a)) = (Ok asg, rest)) as HC.
  { intros args' x Hl. destruct (Parse fs args') as [[l|e] a] eqn:E; [|done]. intros [= <- <-]. by rewrite (IH _ _ _ Hl E). }
  destruct (parseOne fs s); rewrite ?HP; try done; [apply HC; lia|].
  destruct args as [|v args]; [done|]. apply HC. cbn in *. lia.
Qed.

(** An assignment outside a flag set does not come from it. *)
Lemma Parse_names fs args asg rest : Parse fs args = (Ok asg, rest) → Forall (λ a, is_Some (kindOf fs a.1)) asg.
Proof.
  revert asg rest. enough (∀ n args asg rest, (length args ≤ n)%nat →
    Parse fs args = (Ok asg, rest) → Forall (λ a, is_Some (kindOf fs a.1)) asg) as H by (intros ??; by apply (H (length args))).
  clear args. induction n as [|n IH]; intros args asg rest Hn; destruct args as [|s args]; cbn [length] in Hn; try lia;
    [by intros [= <- _]..|].
  assert (∀ args' name v, (length args' ≤ n)%nat → is_Some (kindOf fs name) →
    (let '(r, a) := Parse fs args' in (consOk (name, v) r, a)) = (Ok asg, rest) → Forall (λ a, is_Some (kindOf fs a.1)) asg) as HC.
  { intros args' name v Hl Hk. destruct (Parse fs args') as [[l|e] a] eqn:E; [|done]. intros [= <- _].
    constructor; [done|by eapply IH]. }
  assert (∀ b, match flagToken fs b with Assign name _ | Wants name => is_Some (kindOf fs name) | _ => True end) as HT.
  { intros b. unfold flagToken. destruct (bool_decide (b = []) || _ || _); [done|]. destruct (cutEquals b) as [name value].
    destruct (kindOf fs name) as [k|] eqn:Ek; [|by destruct (bool_decide _)]. destruct k, value as [v|]; try (by eexists).
    by destruct (ParseBool v). }
  assert (match parseOne fs s with Assign name _ | Wants name => is_Some (kindOf fs name) | _ => True end) as HP.
  { unfold parseOne. repeat case_match; try done; first [apply HT|match goal with H : flagToken fs ?b = _ |- _ => pose proof (HT b) as X; rewrite H in X; exact X end]. }
  cbn [Parse]. destruct (parseOne fs s); try (by intros [= <- _]); [intros HE; eapply HC; [|exact HP|exact HE]; lia|].
  destruct args as [|v args]; [done|]. intros HE; eapply HC; [|exact HP|exact HE]. cbn in *. lia.
Qed.
Lemma stringValue_unknown fs asg n : Forall (λ a, is_Some (kindOf fs a.1)) asg → kindOf fs n = None → stringValue asg n = [].
Proof.
  intros HF Hn. unfold stringValue. enough (∀ acc, foldl (λ acc a, match a with (m, VStr s) => if bool_decide (m = n) then s else acc | _ => acc end) acc asg = acc) by done.
  induction HF as [|[m v] asg Hm _ IH]; intros acc; [done|]. cbn [foldl]. rewrite IH. destruct v; [|done].
  case_bool_decide; [|done]. subst m. cbn in Hm. rewrite Hn in Hm. by destruct Hm.
Qed.

Lemma resolved_config p f :
  (resolved p f).1.1 = (ResolveWithOrigins (envOf p) (ParseFloat p) (platformDataDir p) (loadConfigFile p (configFile f)).1 (fvals f)).1.
Proof. unfold resolved. by destruct (loadConfigFile p (configFile f)). Qed.
Lemma resolved_flags p f g : fvals f = fvals g → configFile f = configFile g → resolved p f = resolved p g.
Proof. unfold resolved. by intros -> ->. Qed.
(** The data directory depends on no other flag. *)
Lemma DataDir_flags getEnv pf dir file fl fl' :
  fl_DataDir fl = fl_DataDir fl' →
  DataDir (ResolveWithOrigins getEnv pf dir file fl).1 = DataDir (ResolveWithOrigins getEnv pf dir file fl').1.
Proof.
  intros H. unfold ResolveWithOrigins. destruct (applyEnvLayer _ _ _) as [c o]. cbn [applyFlagLayer fst DataDir]. rewrite H.
  by destruct (is_set (ovr _ _ _)).
Qed.
(** Flags that a command has no name for are at their default in run. *)
Lemma run_accepts fs args asg :
  forallb (λ f, bool_decide (kindOf runFlagSet f.1 = kindOf fs f.1)) fs = true → (Parse fs args).1 = Ok asg →
  parseRunFlags args = Ok (runFlagsOf asg) ∧ ∀ n, kindOf fs n = None → stringValue asg n = [].
Proof.
  intros HI HP. destruct (Parse fs args) as [r rest] eqn:E. cbn [fst] in HP. subst r. split.
  - unfold parseRunFlags. by rewrite (Parse_more _ _ _ _ _ (flagsIn_list _ _ HI) E).
  - intros n. apply stringValue_unknown. by eapply Parse_names.
Qed.


(** * The dispatcher, the hints and the completions *)

(** What stands between two markers, at their first occurrence. *)
Definition between (a b s : list Z) : list Z :=
  match Index s a with
  | None => []
  | Some i => let t := drop (i + length a) s in match Index t b with Some j => take j t | None => t end
  end.
(** The subcommands each script completes. *)
Definition bashWords : list (list Z) := strings_Split 32 (between (caret (%"local commands=^")) [34] bashCompletion).
Definition zshWords : list (list Z) := strings_Split 32 (between (%"commands=(") (%")") zshCompletion).
Definition fishWords : list (list Z) :=
  map (between (%"__fish_use_subcommand -a ") [32])
    (List.filter (λ l, bool_decide (is_Some (Index l (%"__fish_use_subcommand -a ")))) (lines fishCompletion)).

Lemma commandOf_known a : is_Some (commandOf a) ↔ a ∈ knownSubcommands ++ [%"--version"; %"-v"; %"--help"; %"-h"].
Proof.
  split.
  - intros [c Hc]. apply elem_of_app. unfold commandOf in Hc.
    repeat (case_bool_decide as E; [subst; try (left; by apply (bool_decide_unpack _));
      try (apply elem_of_cons in E as [->|E]; [left; by apply (bool_decide_unpack _)|right]) |clear E]); try done.
    all: repeat (apply elem_of_cons in E as [->|E]; [by apply (bool_decide_unpack _)|]); by apply elem_of_nil in E.
  - intros E. unfold knownSubcommands in E. cbn [app] in E.
    repeat (apply elem_of_cons in E as [->|E]; [by eexists|]). by apply elem_of_nil in E.
Qed.
Lemma suggestion_known a : suggestSubcommand a ≠ [] → suggestSubcommand a ∈ knownSubcommands.
Proof.
  unfold suggestSubcommand. destruct (foldl_closest (levenshtein (trimDashes a)) knownSubcommands ([], 3%nat)) as (H1 & _ & _).
  destruct (foldl _ ([], 3%nat) knownSubcommands) as [s n]. cbn [fst snd] in *.
  destruct H1 as [[= -> ->]|(Hin & _ & _)]; done.
Qed.

(** The lists of subcommands that have to be kept in step are in step.  The
    dispatcher runs a command for a first argument exactly when it is a known
    subcommand or one of the four option spellings of version and help; a hint
    after a typo always names a subcommand that the dispatcher runs; and each of
    the three completion scripts offers the known subcommands, each once. *)
Theorem subcommands_in_step :
  (∀ a, is_Some (commandOf a) ↔ a ∈ knownSubcommands ++ [%"--version"; %"-v"; %"--help"; %"-h"]) ∧
  (∀ a, suggestSubcommand a ≠ [] → is_Some (commandOf (suggestSubcommand a))) ∧
  (∀ l, l ∈ [bashWords; zshWords; fishWords] → l ≡ₚ knownSubcommands ∧ NoDup l).
Proof.
  split_and!; [apply commandOf_known| |].
  - intros a Ha. apply commandOf_known, elem_of_app. left. by apply suggestion_known.
  - intros l Hl. rewrite !elem_of_cons, elem_of_nil in Hl.
    assert (∀ l, bool_decide (l ≡ₚ knownSubcommands) && bool_decide (NoDup l) = true → l ≡ₚ knownSubcommands ∧ NoDup l) as HB.
    { intros l' [H1%bool_decide_eq_true H2%bool_decide_eq_true]%andb_true_iff. done. }
    destruct_or! Hl; try done; subst l; apply HB; vm_compute; reflexivity.
Qed.

(** * The version *)

Lemma split_word a rest sep : sep ∉ a → strings_Split sep (a ++ sep :: rest) = a :: strings_Split sep rest.
Proof.
  induction a as [|c a IH]; intros Ha; cbn [app strings_Split]; [by rewrite Z.eqb_refl|].
  apply not_elem_of_cons in Ha as [H1 H2]. rewrite (proj2 (Z.eqb_neq c sep)) by done. by rewrite IH.
Qed.
Lemma split_last a sep : sep ∉ a → strings_Split sep a = [a].
Proof.
  induction a as [|c a IH]; intros Ha; cbn [strings_Split]; [done|].
  apply not_elem_of_cons in Ha as [H1 H2]. rewrite (proj2 (Z.eqb_neq c sep)) by done. by rewrite IH.
Qed.

(** The version can be read by programs.  The line has a stable form: if no field
    holds a blank, its words are the nine words that carry the fields in their
    documented places; and the JSON document has the five fields under their
    names, whatever bytes they hold. *)
Theorem version_reads_back i args :
  Forall bytes_ok [i_Version i; i_Commit i; i_BuildDate i; GoVersion i; Platform i] →
  (Forall (λ s, 32 ∉ s) [i_Version i; i_Commit i; i_BuildDate i; GoVersion i; Platform i] →
     strings_Split 32 (Info_String i) =
       [%"otedama"; i_Version i; [40] ++ i_Commit i ++ [41]; %"built"; i_BuildDate i; %"with"; GoVersion i; %"for"; Platform i]) ∧
  (cmdVersion i (%"--json" :: args)).1 = (cmdVersion i args).1 ∧
  ∃ doc, json_parse (Encode (infoDoc i)) = Some doc ∧
    Forall (λ kv, (field kv.1 doc ≫= as_string) = Some (utf8 kv.2))
      [(%"version", i_Version i); (%"commit", i_Commit i); (%"build_date", i_BuildDate i); (%"go_version", GoVersion i);
       (%"platform", Platform i)].
Proof.
  intros HB. split_and!.
  - intros HS. rewrite !Forall_cons in HS. destruct HS as (S1 & S2 & S3 & S4 & S5 & _). destruct i as [v c b g pl]. cbn in S1, S2, S3, S4, S5.
    assert (∀ x, (%" (" ++ x = 32 :: [40] ++ x) ∧ (%") built " ++ x = [41] ++ 32 :: %"built" ++ 32 :: x) ∧
      (%" with " ++ x = 32 :: %"with" ++ 32 :: x) ∧ (%" for " ++ x = 32 :: %"for" ++ 32 :: x) ∧ (%"otedama " ++ x = %"otedama" ++ 32 :: x)) as E
      by (intros x; split_and!; reflexivity).
    unfold Info_String. cbn [i_Version i_Commit i_BuildDate GoVersion Platform].
    rewrite (proj2 (proj2 (proj2 (proj2 (E _))))), (proj1 (E _)), (proj1 (proj2 (E _))), (proj1 (proj2 (proj2 (E _)))),
      (proj1 (proj2 (proj2 (proj2 (E _))))).
    rewrite split_word by (by apply (bool_decide_unpack _)). rewrite split_word by done.
    rewrite (app_assoc [40]), (app_assoc ([40] ++ c)), split_word by (rewrite !elem_of_app, !list_elem_of_singleton; lia || tauto || (intros [[?|?]|?]; [lia|done|lia])).
    rewrite split_word by (by apply (bool_decide_unpack _)). rewrite split_word by done.
    rewrite split_word by (by apply (bool_decide_unpack _)). rewrite split_word by done.
    rewrite split_word by (by apply (bool_decide_unpack _)). rewrite split_last by done. by rewrite <-app_assoc.
  - unfold cmdVersion, parseSubcommandFlags. cbn [Parse]. change (parseOne [(%"json", BoolFlag)] (%"--json")) with (Assign (%"json") (VBool true)).
    destruct (Parse [(%"json", BoolFlag)] args) as [[asg|e] rest]; done.
  - exists (decoded (infoDoc i)). rewrite !Forall_cons in HB. destruct HB as (B1 & B2 & B3 & B4 & B5 & _). split.
    + apply Encode_reads. apply jout_ok_obj. repeat apply Forall_cons_2; try apply Forall_nil_2; (split; [lit_ok|]); cbn [snd]; by apply jout_ok_str.
    + unfold infoDoc. cbn [decoded map fst snd]. plain_keys. by repeat constructor.
Qed.

Lemma version_reads_back_witness :
  strings_Split 32 (Info_String (Info_Get developmentBuild (%"go1.26") (%"linux") (%"amd64"))) =
  [%"otedama"; %"v3.0.0-alpha.1-dev"; %"(unknown)"; %"built"; %"unknown"; %"with"; %"go1.26"; %"for"; %"linux/amd64"].
Proof.
  refine (proj1 (version_reads_back (Info_Get developmentBuild (%"go1.26") (%"linux") (%"amd64")) [] _) _);
    apply (bool_decide_unpack _); vm_compute; exact I.
Defined.
