(* ===== verification/Noise.v ===== *)
(** * internal/stratum: the Noise handshake and the encrypted connection

    [noise.go] and [noise_pool.go]: HMAC and HKDF over the hashers of a pool, the
    initiator's handshake state, the cipher states with their nonce counters, and
    [EncryptedConn], which frames, encrypts and decrypts over another connection.
    The connection is shown to be one more lawful reader of [Wire], so that the
    frame decoder's theorems hold over it.

    P-256 and ChaCha20-Poly1305 are code of other packages and parameters here. *)
From S2P Require Import Prelude.
From S2P Require Import Sha256.
From S2P Require Import Text.
From S2P Require Import Wire.
From S2P Require Import Frame.

Open Scope Z_scope.

(** ** HMAC-SHA256 *)

(** A hasher is what was written to it since its last [Reset]. *)
Notation hasher := (list Z) (only parsing).

Definition blockSize : nat := 64.
Definition padKey (key : list Z) : list Z := take blockSize key ++ replicate (blockSize - length key) 0.
Definition xorAll (c : Z) (s : list Z) : list Z := map (λ b, Z.lxor b c) s.

(** The reference implementation of [noise.go]. *)
Definition hmacSHA256 (key data : list Z) : list Z :=
  let key := if (blockSize <? length key)%nat then Sum256 key else key in
  let ipad := xorAll 0x36 (padKey key) in
  let opad := xorAll 0x5C (padKey key) in
  let innerSum := Sum256 (ipad ++ data) in
  Sum256 (opad ++ innerSum).

Section Pooled.
(** [sync.Pool]: [Get] may hand out any hasher that was put back, with whatever was
    last written to it, or none; [Put] keeps the hasher or drops it. *)
Context {pool : Type} (pool_Get : pool → option hasher * pool) (pool_Put : hasher → pool → pool).

Definition newHasher : hasher := [].
Definition Reset (h : hasher) : hasher := [].
Definition getHasher (p : pool) : hasher * pool :=
  match pool_Get p with
  | (Some h, p') => (Reset h, p')
  | (None, p') => (newHasher, p')
  end.
Definition putHasher (h : hasher) (p : pool) : pool := pool_Put h p.

Definition hmacSHA256Pooled (key data : list Z) (p : pool) : list Z * pool :=
  let '(key, p) :=
    if (blockSize <? length key)%nat then
      let '(h, p) := getHasher p in
      let h := h ++ key in
      (Sum256 h, putHasher h p)
    else (key, p) in
  let ipad := xorAll 0x36 (padKey key) in
  let opad := xorAll 0x5C (padKey key) in
  let '(inner, p) := getHasher p in
  let inner := (inner ++ ipad) ++ data in
  let innerSum := Sum256 inner in
  let p := putHasher inner p in
  let '(outer, p) := getHasher p in
  let outer := (outer ++ opad) ++ innerSum in
  let result := Sum256 outer in
  (result, putHasher outer p).

Definition hkdf2 (ck input : list Z) (p : pool) : (list Z * list Z) * pool :=
  let '(tempKey, p) := hmacSHA256Pooled ck input p in
  let '(out1, p) := hmacSHA256Pooled tempKey [0x01] p in
  let '(out2, p) := hmacSHA256Pooled tempKey (out1 ++ [0x02]) p in
  ((out1, out2), p).
Definition hkdf3 (ck : list Z) (p : pool) : (list Z * list Z * list Z) * pool :=
  let '(tempKey, p) := hmacSHA256Pooled ck [] p in
  let '(out1, p) := hmacSHA256Pooled tempKey [0x01] p in
  let '(out2, p) := hmacSHA256Pooled tempKey (out1 ++ [0x02]) p in
  let '(out3, p) := hmacSHA256Pooled tempKey (out2 ++ [0x03]) p in
  ((out1, out2, out3), p).

(** The pooled hashers compute HMAC whatever the pool holds. *)
Lemma pooled_reference key data p : (hmacSHA256Pooled key data p).1 = hmacSHA256 key data.
Proof.
  assert (∀ q, ∃ q', getHasher q = ([], q')) as HG.
  { intros q. unfold getHasher. destruct (pool_Get q) as [[?|] q']; eauto. }
  unfold hmacSHA256Pooled, hmacSHA256.
  assert (∃ q, (if (blockSize <? length key)%nat
     then let '(h, p) := getHasher p in (Sum256 (h ++ key), putHasher (h ++ key) p) else (key, p)) =
     (if (blockSize <? length key)%nat then Sum256 key else key, q)) as [q ->].
  { case_if; [|eauto]. destruct (HG p) as [q ->]. eauto. }
  cbv zeta. destruct (HG q) as [q1 ->].
  match goal with |- context [getHasher (putHasher ?h q1)] => destruct (HG (putHasher h q1)) as [q2 ->] end. reflexivity.
Qed.
End Pooled.

(** RFC 5869 over the reference HMAC. *)
Definition hkdf2_ref (ck input : list Z) : list Z * list Z :=
  let tempKey := hmacSHA256 ck input in
  let out1 := hmacSHA256 tempKey [1] in (out1, hmacSHA256 tempKey (out1 ++ [2])).
Definition hkdf3_ref (ck : list Z) : list Z * list Z * list Z :=
  let tempKey := hmacSHA256 ck [] in
  let out1 := hmacSHA256 tempKey [1] in
  let out2 := hmacSHA256 tempKey (out1 ++ [2]) in (out1, out2, hmacSHA256 tempKey (out2 ++ [3])).

Ltac pooled := repeat match goal with |- context [hmacSHA256Pooled ?g ?q ?k ?d ?p] =>
  let H := fresh in pose proof (pooled_reference g q k d p) as H;
  destruct (hmacSHA256Pooled g q k d p); cbn [fst] in H; subst end.
Lemma hkdf2_reference {pool} g q ck input (p : pool) : (hkdf2 g q ck input p).1 = hkdf2_ref ck input.
Proof. unfold hkdf2. by pooled. Qed.
Lemma hkdf3_reference {pool} g q ck (p : pool) : (hkdf3 g q ck p).1 = hkdf3_ref ck.
Proof. unfold hkdf3. by pooled. Qed.

(** ** Cipher states *)

(** ChaCha20-Poly1305 (golang.org/x/crypto): [New] refuses keys that are not of 32
    bytes; [Open] gives the plaintext or an error. *)
Class AEAD := {
  aead : Type;
  chacha_New : list Z → result aead;
  aead_Seal : aead → list Z → list Z → list Z → list Z;
  aead_Open : aead → list Z → list Z → list Z → result (list Z);
}.
(** Arguments: nonce, text, additional data. *)
Class AEADShape `{AEAD} : Prop := {
  Open_length : ∀ a nonce ct ad pt, aead_Open a nonce ct ad = Ok pt → length ct = (length pt + 16)%nat;
}.
Class AEADLaws `{AEAD} : Prop := {
  AEADLaws_shape :: AEADShape;
  Open_Seal : ∀ a nonce pt ad, aead_Open a nonce (aead_Seal a nonce pt ad) ad = Ok pt;
  Seal_length : ∀ a nonce pt ad, length (aead_Seal a nonce pt ad) = (length pt + 16)%nat;
}.

Section Cipher.
Context `{AEAD}.

Record CipherState := { key : list Z; nonce : Z; cs_aead : option aead }.

Definition aeadFor (c : CipherState) : result aead :=
  match cs_aead c with Some a => Ok a | None => chacha_New (key c) end.
Definition nonceBytes (n : Z) : list Z := replicate 4 0 ++ le_bytes 8 n.
Definition advanced (c : CipherState) : CipherState :=
  {| key := key c; nonce := wrap 64 (nonce c + 1); cs_aead := cs_aead c |}.

Definition Encrypt (c : CipherState) (ad plaintext : list Z) : result (list Z) * CipherState :=
  match aeadFor c with
  | Err e => (Err e, c)
  | Ok a => (Ok (aead_Seal a (nonceBytes (nonce c)) plaintext ad), advanced c)
  end.
Definition Decrypt (c : CipherState) (ad ciphertext : list Z) : result (list Z) * CipherState :=
  match aeadFor c with
  | Err e => (Err e, c)
  | Ok a => (aead_Open a (nonceBytes (nonce c)) ciphertext ad, advanced c)
  end.

(** The error of [New] is dropped: a nil cipher is built on use. *)
Definition newCipherState (k : list Z) : CipherState :=
  {| key := k; nonce := 0; cs_aead := match chacha_New k with Ok a => Some a | Err _ => None end |}.
End Cipher.
Arguments CipherState {_}.

(** ** The handshake *)

(** crypto/ecdh's P-256: a point is written uncompressed, in 65 bytes starting with
    4, and [NewPublicKey] refuses everything else. *)
Class ECDH := {
  PrivateKey : Type;
  PublicKey : Type;
  GenerateKey : result PrivateKey;
  Public : PrivateKey → PublicKey;
  PublicBytes : PublicKey → list Z;
  NewPublicKey : list Z → result PublicKey;
  ECDH_shared : PrivateKey → PublicKey → result (list Z);
}.
Class ECDHLaws `{ECDH} : Prop := {
  NewPublicKey_only : ∀ bs pk, NewPublicKey bs = Ok pk → PublicBytes pk = bs ∧ length bs = 65%nat ∧ head bs = Some 4;
  NewPublicKey_Bytes : ∀ pk, NewPublicKey (PublicBytes pk) = Ok pk;
}.

Section Handshake.
Context `{AEAD} `{ECDH} {pool : Type} (pool_Get : pool → option (list Z) * pool) (pool_Put : list Z → pool → pool).

Record HandshakeState := {
  localEphemeral : PrivateKey; h : list Z; ck : list Z; complete : bool;
  sendCipher : option CipherState; recvCipher : option CipherState
}.

Definition initialize (protocolName : list Z) (hs : HandshakeState) : HandshakeState :=
  let start := if (length protocolName <=? 32)%nat
               then protocolName ++ replicate (32 - length protocolName) 0 else Sum256 protocolName in
  {| localEphemeral := localEphemeral hs; h := start; ck := start; complete := complete hs;
     sendCipher := sendCipher hs; recvCipher := recvCipher hs |}.
Definition protocolName : list Z := %"Noise_NX_secp256k1_ChaChaPoly_SHA256".
Definition NewHandshakeInitiator : result HandshakeState :=
  ephemeral ← wrapping "noise: generate ephemeral key: %w" GenerateKey;
  Ok (initialize protocolName
        {| localEphemeral := ephemeral; h := replicate 32 0; ck := replicate 32 0; complete := false;
           sendCipher := None; recvCipher := None |}).

Definition mixHash (data : list Z) (hs : HandshakeState) : HandshakeState :=
  {| localEphemeral := localEphemeral hs; h := Sum256 (h hs ++ data); ck := ck hs; complete := complete hs;
     sendCipher := sendCipher hs; recvCipher := recvCipher hs |}.
Definition mixKey (inputKey : list Z) (hs : HandshakeState) (p : pool) : HandshakeState * pool :=
  let '((ck', _), p) := hkdf2 pool_Get pool_Put (ck hs) inputKey p in
  ({| localEphemeral := localEphemeral hs; h := h hs; ck := ck'; complete := complete hs;
      sendCipher := sendCipher hs; recvCipher := recvCipher hs |}, p).
Definition deriveTransportKeys (hs : HandshakeState) (p : pool) : HandshakeState * pool :=
  let '((_, k1, k2), p) := hkdf3 pool_Get pool_Put (ck hs) p in
  ({| localEphemeral := localEphemeral hs; h := h hs; ck := ck hs; complete := complete hs;
      sendCipher := Some (newCipherState k1); recvCipher := Some (newCipherState k2) |}, p).
Definition completed (hs : HandshakeState) : HandshakeState :=
  {| localEphemeral := localEphemeral hs; h := h hs; ck := ck hs; complete := true;
     sendCipher := sendCipher hs; recvCipher := recvCipher hs |}.

Definition WriteMessage1 (hs : HandshakeState) : list Z * HandshakeState :=
  let pub := PublicBytes (Public (localEphemeral hs)) in (pub, mixHash pub hs).

(** The server's ephemeral key: 65 bytes, then 33, when either parses. *)
Definition parseAt (n : nat) (payload : list Z) : option PublicKey :=
  if (n <=? length payload)%nat then
    match NewPublicKey (take n payload) with Ok pk => Some pk | Err _ => None end
  else None.
Definition remoteEph (payload : list Z) : option PublicKey :=
  match parseAt 65 payload with Some pk => Some pk | None => parseAt 33 payload end.

Definition ReadMessage2 (payload : list Z) (hs : HandshakeState) (p : pool)
    : result unit * HandshakeState * pool :=
  if (length payload <? 32)%nat then
    (Err (Errorf "noise: message2 too short (%d < 32)" [Z.of_nat (length payload)]), hs, p)
  else match remoteEph payload with
  | None =>
      let hs := completed (mixHash (take 32 payload) hs) in
      let '(hs, p) := deriveTransportKeys hs p in (Ok (), hs, p)
  | Some remote =>
      let hs := mixHash (PublicBytes remote) hs in
      match ECDH_shared (localEphemeral hs) remote with
      | Err e => (Err (Wrapf "noise: DH failed: %w" e), hs, p)
      | Ok shared =>
          let '(hs, p) := mixKey shared hs p in
          let '(hs, p) := deriveTransportKeys (completed hs) p in (Ok (), hs, p)
      end
  end.

Definition Transport (hs : HandshakeState) : result (option CipherState * option CipherState) :=
  if negb (complete hs) then Err (Sentinel "noise: Transport called before handshake complete")
  else Ok (sendCipher hs, recvCipher hs).

(** The whole exchange of an initiator: the first message sent, the second received. *)
Definition initiate (payload : list Z) (p : pool) : result (list Z * (CipherState * CipherState)) :=
  hs ← NewHandshakeInitiator;
  let '(msg1, hs) := WriteMessage1 hs in
  let '(r, hs, _) := ReadMessage2 payload hs p in
  _ ← r;
  cs ← Transport hs;
  match cs with
  | (Some s, Some r) => Ok (msg1, (s, r))
  | _ => Err (Sentinel "nil cipher state")
  end.

Definition transportOf (chainingKey : list Z) : CipherState * CipherState :=
  let '(_, k1, k2) := hkdf3_ref chainingKey in (newCipherState k1, newCipherState k2).

Lemma derive_reference hs p :
  ∃ p', deriveTransportKeys hs p =
    ({| localEphemeral := localEphemeral hs; h := h hs; ck := ck hs; complete := complete hs;
        sendCipher := Some (transportOf (ck hs)).1; recvCipher := Some (transportOf (ck hs)).2 |}, p').
Proof.
  unfold deriveTransportKeys, transportOf. pose proof (hkdf3_reference pool_Get pool_Put (ck hs) p) as E.
  destruct (hkdf3 _ _ _ _) as [[[o1 o2] o3] p']. cbn [fst] in E. rewrite <-E. eauto.
Qed.
Lemma mixKey_reference k hs p :
  ∃ p', mixKey k hs p =
    ({| localEphemeral := localEphemeral hs; h := h hs; ck := (hkdf2_ref (ck hs) k).1; complete := complete hs;
        sendCipher := sendCipher hs; recvCipher := recvCipher hs |}, p').
Proof.
  unfold mixKey. pose proof (hkdf2_reference pool_Get pool_Put (ck hs) k p) as E.
  destruct (hkdf2 _ _ _ _ _) as [[o1 o2] p']. cbn [fst] in E. rewrite <-E. eauto.
Qed.

#[local] Opaque Sum256 transportOf hkdf2_ref.
(** What the initiator ends with, in terms of the key agreement only. *)
Lemma initiate_exact priv payload p :
  GenerateKey = Ok priv →
  initiate payload p =
    if (length payload <? 32)%nat then Err (Errorf "noise: message2 too short (%d < 32)" [Z.of_nat (length payload)])
    else
      let msg1 := PublicBytes (Public priv) in
      match remoteEph payload with
      | None => Ok (msg1, transportOf (Sum256 protocolName))
      | Some remote =>
          match ECDH_shared priv remote with
          | Err e => Err (Wrapf "noise: DH failed: %w" e)
          | Ok shared => Ok (msg1, transportOf (hkdf2_ref (Sum256 protocolName) shared).1)
          end
      end.
Proof.
  intros Hg. set (start := Sum256 protocolName). unfold initiate, NewHandshakeInitiator. rewrite Hg. cbn [wrapping mbind result_bind]. unfold initialize.
  change (length protocolName <=? 32)%nat with false. cbv iota. fold start. clearbody start. unfold WriteMessage1, ReadMessage2. cbn [localEphemeral complete sendCipher recvCipher].
  case_if; [done|]. cbv zeta. destruct (remoteEph payload) as [remote|].
  - cbn [mixHash localEphemeral]. destruct (ECDH_shared priv remote) as [shared|e]; [|done].
    unfold mixHash; cbn [localEphemeral h ck complete sendCipher recvCipher].
    match goal with |- context [mixKey ?k ?hs ?q] => destruct (mixKey_reference k hs q) as [p1 ->] end.
    match goal with |- context [deriveTransportKeys ?hs ?q] => destruct (derive_reference hs q) as [p2 ->] end.
    cbn. destruct (transportOf _). reflexivity.
  - match goal with |- context [deriveTransportKeys ?hs ?q] => destruct (derive_reference hs q) as [p2 ->] end.
    cbn. destruct (transportOf _). reflexivity.
Qed.
End Handshake.

(** ** The encrypted connection *)

Definition maxNoiseFrame : Z := 65535.

Section Conn.
Context `{AEAD}.

Record EncryptedConn (R : Type) := { rw : R; recv : CipherState; readbuf : list Z }.
Arguments rw {R}. Arguments recv {R}. Arguments readbuf {R}.

(** One side of the connection: what it sends, over a transport whose [Write] may
    fail. *)
Section Write.
Context {W : Type} (tr_Write : list Z → W → option error * W).

Definition EncryptedConn_Write (p : list Z) (c : CipherState * W) : (Z * option error) * (CipherState * W) :=
  let '(send, w) := c in
  match Encrypt send [] p with
  | (Err e, send) => ((0, Some e), (send, w))
  | (Ok ct, send) =>
      if maxNoiseFrame <? Z.of_nat (length ct) then
        ((0, Some (Errorf "noise: message too large: %d-byte ciphertext exceeds %d (plaintext %d)"
                     [Z.of_nat (length ct); maxNoiseFrame; Z.of_nat (length p)])), (send, w))
      else
        match tr_Write (le_bytes 2 (Z.of_nat (length ct))) w with
        | (Some e, w) => ((0, Some e), (send, w))
        | (None, w) =>
            match tr_Write ct w with
            | (Some e, w) => ((0, Some e), (send, w))
            | (None, w) => ((Z.of_nat (length p), None), (send, w))
            end
        end
  end.

(** Writes in a row, up to the first that fails. *)
Fixpoint writes (ps : list (list Z)) (c : CipherState * W) : option error * (CipherState * W) :=
  match ps with
  | [] => (None, c)
  | p :: ps =>
      match EncryptedConn_Write p c with
      | ((_, Some e), c) => (Some e, c)
      | ((_, None), c) => writes ps c
      end
  end.
End Write.

(** The other side, over any reader. *)
Definition deliver {R} (n : nat) (r : R) (rc : CipherState) (buf : list Z) : (list Z * option error) * EncryptedConn R :=
  ((take n buf, None), {| rw := r; recv := rc; readbuf := drop n buf |}).
Definition EncryptedConn_Read `{Reader R} (n : nat) (c : EncryptedConn R) : (list Z * option error) * EncryptedConn R :=
  if bool_decide (readbuf c = []) then
    match ReadFull 2 (rw c) with
    | (Err e, r) => (([], Some e), {| rw := r; recv := recv c; readbuf := [] |})
    | (Ok lenBuf, r) =>
        match ReadFull (Z.to_nat (le_Z lenBuf)) r with
        | (Err e, r) => (([], Some e), {| rw := r; recv := recv c; readbuf := [] |})
        | (Ok ct, r) =>
            match Decrypt (recv c) [] ct with
            | (Err e, rc) => (([], Some (Wrapf "noise: decrypt failed: %w" e)), {| rw := r; recv := rc; readbuf := [] |})
            | (Ok pt, rc) => deliver n r rc pt
            end
        end
    end
  else deliver n (rw c) (recv c) (readbuf c).

(** The plaintext of a ciphertext stream that ends in fault [e], and the error that
    ends it. *)
Fixpoint plainOf (fuel : nat) (rc : CipherState) (s : list Z) (e : error) : list Z * error :=
  match fuel with
  | O => ([], Diverges)
  | S fuel =>
      match read_outcome 2 s e with
      | Err e' => ([], e')
      | Ok lenBuf =>
          let n := Z.to_nat (le_Z lenBuf) in
          match read_outcome n (drop 2 s) e with
          | Err e' => ([], e')
          | Ok ct =>
              match Decrypt rc [] ct with
              | (Err e', _) => ([], Wrapf "noise: decrypt failed: %w" e')
              | (Ok pt, rc) => let '(pts, e') := plainOf fuel rc (drop n (drop 2 s)) e in (pt ++ pts, e')
              end
          end
      end
  end.
Definition plain (rc : CipherState) (s : list Z) (e : error) : list Z * error := plainOf (S (length s)) rc s e.

Lemma read_outcome_Ok n s e bs : read_outcome n s e = Ok bs → bs = take n s ∧ (n ≤ length s)%nat.
Proof. unfold read_outcome. destruct (Nat.leb_spec n (length s)); [|done]. by intros [= <-]. Qed.

Lemma plainOf_fuel f g rc s e : (length s < f)%nat → (length s < g)%nat → plainOf f rc s e = plainOf g rc s e.
Proof.
  revert g rc s. induction f as [|f IH]; intros [|g] rc s Hf Hg; try lia. cbn [plainOf].
  destruct (read_outcome 2 s e) as [lb|] eqn:E1; [|done]. apply read_outcome_Ok in E1 as [_ Hl]. cbv zeta.
  destruct (read_outcome _ (drop 2 s) e) as [ct|]; [|done]. destruct (Decrypt rc [] ct) as [[pt|] rc']; [|done].
  rewrite (IH g); [done|rewrite !length_drop; lia..].
Qed.

(** One frame at the head of the stream. *)
Lemma plain_step rc s e :
  plain rc s e =
    match read_outcome 2 s e with
    | Err e' => ([], e')
    | Ok lenBuf =>
        let n := Z.to_nat (le_Z lenBuf) in
        match read_outcome n (drop 2 s) e with
        | Err e' => ([], e')
        | Ok ct =>
            match Decrypt rc [] ct with
            | (Err e', _) => ([], Wrapf "noise: decrypt failed: %w" e')
            | (Ok pt, rc) => let '(pts, e') := plain rc (drop n (drop 2 s)) e in (pt ++ pts, e')
            end
        end
    end.
Proof.
  unfold plain at 1. cbn [plainOf]. destruct (read_outcome 2 s e) as [lb|] eqn:E1; [|done]. apply read_outcome_Ok in E1 as [_ Hl]. cbv zeta.
  destruct (read_outcome _ (drop 2 s) e) as [ct|]; [|done]. destruct (Decrypt rc [] ct) as [[pt|] rc']; [|done].
  unfold plain. rewrite (plainOf_fuel _ (S (length (drop (Z.to_nat (le_Z lb)) (drop 2 s))))); [done|rewrite !length_drop; lia..].
Qed.

Section Lawful.
Context `{!AEADShape} {R : Type} `{StreamReader R}.

#[global] Instance EncryptedConn_Reader : Reader (EncryptedConn R) := {|
  Read := EncryptedConn_Read;
  budget c := (length (readbuf c) + length (stream (rw c)))%nat;
|}.

Lemma Decrypt_length rc ct pt rc' : Decrypt rc [] ct = (Ok pt, rc') → (length pt ≤ length ct)%nat.
Proof.
  unfold Decrypt. destruct (aeadFor rc) as [a|]; [|done]. intros E. injection E as E _. apply Open_length in E. lia.
Qed.

#[global, refine] Instance EncryptedConn_StreamReader : StreamReader (EncryptedConn R) := {|
  stream c := readbuf c ++ (plain (recv c) (stream (rw c)) (fault (rw c))).1;
  fault c := (plain (recv c) (stream (rw c)) (fault (rw c))).2;
  Read_lawful := _;
|}.
Proof.
  intros n [r rc buf] Hn. cbn [Read EncryptedConn_Reader rw recv readbuf budget]. unfold EncryptedConn_Read. cbn [rw recv readbuf].
  case_bool_decide as Hb; [subst buf|].
  - rewrite plain_step. destruct (ReadFull_spec 2 r) as (r1 & -> & K1).
    destruct (read_outcome 2 (stream r) (fault r)) as [lb|e1] eqn:E1; [|done]. apply read_outcome_Ok in E1 as [_ L1].
    destruct (K1 L1) as [S1 F1]. destruct (ReadFull_spec (Z.to_nat (le_Z lb)) r1) as (r2 & -> & K2). cbv zeta. rewrite S1, F1 in *.
    destruct (read_outcome _ (drop 2 (stream r)) (fault r)) as [ct|e2] eqn:E2; [|done]. apply read_outcome_Ok in E2 as [-> L2].
    destruct (K2 L2) as [S2 F2]. destruct (Decrypt rc [] _) as [[pt|e3] rc'] eqn:E3; [|done].
    apply Decrypt_length in E3. rewrite length_take in E3. unfold deliver. cbn [rw recv readbuf]. rewrite S2, F2.
    destruct (plain rc' _ (fault r)) as [pts ef]. cbn [fst snd app length].
    rewrite app_assoc, take_drop. split; [done|]. split; [rewrite length_take; lia|]. split; [done|].
    rewrite !length_drop in *. lia.
  - unfold deliver. cbn [rw recv readbuf]. rewrite app_assoc, take_drop. split; [done|].
    split; [rewrite length_take; lia|]. split; [done|]. rewrite length_drop. destruct buf; [done|]. cbn [length]. lia.
Defined.
End Lawful.
End Conn.
Arguments rw {_ _}. Arguments recv {_ _}. Arguments readbuf {_ _}.

(** * The two ends of a connection *)

(** One frame of the wire, and a run of them from a nonce on. *)
Definition frameOf `{AEAD} (a : aead) (n : Z) (p : list Z) : list Z :=
  let ct := aead_Seal a (nonceBytes n) p [] in le_bytes 2 (Z.of_nat (length ct)) ++ ct.
Fixpoint wireFrames `{AEAD} (a : aead) (n : Z) (ps : list (list Z)) : list Z :=
  match ps with [] => [] | p :: ps => frameOf a n p ++ wireFrames a (wrap 64 (n + 1)) ps end.
Definition nonceAfter (n : Z) (ps : list (list Z)) : Z := foldl (λ n _, wrap 64 (n + 1)) n ps.
(** What fits a frame with its tag. *)
Definition fits (p : list Z) : Prop := Z.of_nat (length p) + 16 ≤ maxNoiseFrame.

Definition withNonce `{AEAD} (c : CipherState) (n : Z) : CipherState := {| key := key c; nonce := n; cs_aead := cs_aead c |}.
Lemma aeadFor_nonce `{AEAD} c n : aeadFor (withNonce c n) = aeadFor c.
Proof. done. Qed.
Lemma advanced_nonce `{AEAD} c : advanced c = withNonce c (wrap 64 (nonce c + 1)).
Proof. done. Qed.
Lemma with_own_nonce `{AEAD} c : withNonce c (nonce c) = c.
Proof. by destruct c. Qed.

Section Sender.
Context `{AEADLaws} {W : Type} (tr_Write : list Z → W → option error * W) (wire : W → list Z).
(** A write that succeeds put all its bytes on the wire. *)
Hypothesis tr_lawful : ∀ bs w w', tr_Write bs w = (None, w') → wire w' = wire w ++ bs.

Lemma write_frame p send w send' w' n a :
  aeadFor send = Ok a → EncryptedConn_Write tr_Write p (send, w) = ((n, None), (send', w')) →
  fits p ∧ n = Z.of_nat (length p) ∧ send' = advanced send ∧ wire w' = wire w ++ frameOf a (nonce send) p.
Proof.
  intros Ha. unfold EncryptedConn_Write, Encrypt, fits, maxNoiseFrame. rewrite Ha, Seal_length, Nat2Z.inj_add. change (Z.of_nat 16) with 16. case_if; [done|].
  destruct (tr_Write _ w) as [[e|] w1] eqn:E1; [done|]. destruct (tr_Write (aead_Seal _ _ _ _) w1) as [[e|] w2] eqn:E2; [done|].
  intros [= <- <- <-]. split; [lia|]. split; [done|]. split; [done|].
  rewrite (tr_lawful _ _ _ E2), (tr_lawful _ _ _ E1), <-app_assoc. unfold frameOf. by rewrite Seal_length, Nat2Z.inj_add.
Qed.

Lemma writes_frames ps send w send' w' a :
  aeadFor send = Ok a → writes tr_Write ps (send, w) = (None, (send', w')) →
  Forall fits ps ∧ send' = withNonce send (nonceAfter (nonce send) ps) ∧ wire w' = wire w ++ wireFrames a (nonce send) ps.
Proof.
  intros Ha. revert send w Ha. induction ps as [|p ps IH]; intros send w Ha; cbn [writes].
  { intros [= <- <-]. unfold nonceAfter. cbn [foldl wireFrames]. rewrite app_nil_r, with_own_nonce. split; [constructor|done]. }
  destruct (EncryptedConn_Write tr_Write p (send, w)) as [[n [e|]] [s1 w1]] eqn:E; [done|].
  destruct (write_frame _ _ _ _ _ _ _ Ha E) as (Hf & _ & -> & Hw). intros HW.
  destruct (IH (advanced send) w1 Ha HW) as (H1 & -> & ->). split; [by constructor|]. split; [done|].
  rewrite Hw, <-app_assoc. done.
Qed.

(** On a transport that accepts every byte, writes that fit succeed. *)
Lemma writes_total ps send w a :
  aeadFor send = Ok a → (∀ bs w, ∃ w', tr_Write bs w = (None, w')) → Forall fits ps →
  ∃ c', writes tr_Write ps (send, w) = (None, c').
Proof.
  intros Ha Htr Hf. revert send w Ha. induction Hf as [|p ps Hp _ IH]; intros send w Ha; cbn [writes]; [eauto|].
  unfold EncryptedConn_Write, Encrypt. rewrite Ha, Seal_length. unfold fits in Hp.
  rewrite (proj2 (Z.ltb_ge _ _)) by lia. destruct (Htr (le_bytes 2 (Z.of_nat (length p + 16))) w) as [w1 ->].
  destruct (Htr (aead_Seal a (nonceBytes (nonce send)) p []) w1) as [w2 ->]. by apply IH.
Qed.
End Sender.

Section Receiver.
Context `{AEADLaws}.

Lemma read_outcome_app bs rest e : read_outcome (length bs) (bs ++ rest) e = Ok bs.
Proof. unfold read_outcome. rewrite length_app, (proj2 (Nat.leb_le _ _)) by lia. by rewrite take_app_length. Qed.

Lemma plain_frame rc a p rest e :
  aeadFor rc = Ok a → fits p →
  plain rc (frameOf a (nonce rc) p ++ rest) e =
    (p ++ (plain (advanced rc) rest e).1, (plain (advanced rc) rest e).2).
Proof.
  intros Ha Hf. rewrite plain_step. unfold frameOf. cbv zeta. set (ct := aead_Seal _ _ _ _).
  assert (length ct = (length p + 16)%nat) as Hl by apply Seal_length.
  set (lb := le_bytes 2 (Z.of_nat (length ct))). rewrite <-app_assoc.
  pose proof (read_outcome_app lb (ct ++ rest) e) as E1. change (length lb) with 2%nat in E1. rewrite E1.
  assert (drop 2 (lb ++ ct ++ rest) = ct ++ rest) as -> by apply (drop_app_length lb).
  unfold fits, maxNoiseFrame in Hf. assert (Z.to_nat (le_Z lb) = length ct) as ->.
  { unfold lb. rewrite le_Z_le_bytes; [lia|]. change (256 ^ Z.of_nat 2) with 65536. lia. }
  rewrite read_outcome_app, drop_app_length. unfold Decrypt. rewrite Ha. unfold ct. rewrite Open_Seal.
  by destruct (plain _ _ _).
Qed.

Lemma plain_frames ps rc a rest e :
  aeadFor rc = Ok a → Forall fits ps →
  plain rc (wireFrames a (nonce rc) ps ++ rest) e =
    (concat ps ++ (plain (withNonce rc (nonceAfter (nonce rc) ps)) rest e).1,
     (plain (withNonce rc (nonceAfter (nonce rc) ps)) rest e).2).
Proof.
  intros Ha Hf. revert rc Ha. induction Hf as [|p ps Hp Hf IH]; intros rc Ha; cbn [wireFrames concat].
  { unfold nonceAfter. cbn [foldl app]. rewrite with_own_nonce. by destruct (plain _ _ _). }
  rewrite <-app_assoc, plain_frame by done. pose proof (IH (advanced rc) Ha) as E. cbn [nonce advanced] in E.
  rewrite E. cbn [fst snd]. by rewrite <-app_assoc.
Qed.
End Receiver.

(** Frames read in a row. *)
Fixpoint readFrames `{Reader R} (k : nat) (d : Decoder R) : result (list Frame) * Decoder R :=
  match k with
  | O => (Ok [], d)
  | S k =>
      match ReadFrame d with
      | (Err e, d) => (Err e, d)
      | (Ok f, d) => match readFrames k d with (Err e, d) => (Err e, d) | (Ok fs, d) => (Ok (f :: fs), d) end
      end
  end.
(** A frame with the length field the encoder fills in. *)
Definition lengthSet (f : Frame) : Frame :=
  {| FHeader := {| ExtensionType := ExtensionType (FHeader f); MsgType := MsgType (FHeader f);
                   MsgLength := Z.of_nat (length (Payload f)) |};
     Payload := Payload f |}.

Lemma readFrames_complete `{StreamReader R} fs bss (d : Decoder R) rest :
  Forall2 (λ f bs, frame_ok f ∧ EncodeFrame f = Ok bs ∧ Z.of_nat (length bs) ≤ MaxFrameSize d) fs bss →
  stream (dec_r d) = concat bss ++ rest →
  ∃ d', readFrames (length fs) d = (Ok (map lengthSet fs), d') ∧ stream (dec_r d') = rest.
Proof.
  intros HF. revert d rest HF. intros d rest HF. remember (MaxFrameSize d) as mx eqn:Em. revert d Em rest.
  induction HF as [|f bs fs bss (H1 & H2 & H3) _ IH]; intros d Em rest Hs; cbn [length readFrames map concat] in *; [eauto|].
  rewrite <-app_assoc in Hs. subst mx. destruct (ReadFrame_complete d f bs _ H1 H2 H3 Hs) as (d1 & -> & Hs1 & Hm).
  destruct (IH d1 (eq_sym Hm) rest Hs1) as (d2 & -> & Hs2). eauto.
Qed.

(** C21. The encrypted connection carries the protocol.  Frames that the sender writes
    one by one, without an error, over any transport are read back by a frame
    decoder at the other end, equal and in order and with nothing left over, when
    the transport delivers the written bytes, in pieces of any size, and the two
    ends hold the same key and nonce. *)
Theorem noise_channel_delivers `{AEADLaws} {W} (tr_Write : list Z → W → option error * W) (wire : W → list Z)
    `{StreamReader R} fs bss send w send' w' (d : Decoder (EncryptedConn R)) a :
  (∀ bs w w', tr_Write bs w = (None, w') → wire w' = wire w ++ bs) →
  Forall2 (λ f bs, frame_ok f ∧ EncodeFrame f = Ok bs ∧ Z.of_nat (length bs) ≤ MaxFrameSize d) fs bss →
  writes tr_Write bss (send, w) = (None, (send', w')) →
  aeadFor send = Ok a → aeadFor (recv (dec_r d)) = Ok a → nonce (recv (dec_r d)) = nonce send → readbuf (dec_r d) = [] →
  wire w ++ stream (rw (dec_r d)) = wire w' → fault (rw (dec_r d)) = EOF →
  ∃ d', readFrames (length fs) d = (Ok (map lengthSet fs), d') ∧ stream (dec_r d') = [].
Proof.
  intros Htr HF HW Hs Hr Hn Hb Hwire HE. destruct (writes_frames _ _ Htr _ _ _ _ _ _ Hs HW) as (Hfit & _ & Hw').
  rewrite Hw' in Hwire. apply app_inv_head in Hwire. apply (readFrames_complete _ bss); [done|].
  cbn [stream EncryptedConn_StreamReader]. rewrite Hb, Hwire, HE, <-Hn, <-(app_nil_r (wireFrames _ _ _)).
  rewrite plain_frames by done. reflexivity.
Qed.

(** What passes for plaintext from nonce [i] on, when only sent messages open. *)
Lemma plain_sent `{AEAD} a ps n0 rc j s e :
  aeadFor rc = Ok a → 0 ≤ n0 → n0 + Z.of_nat (length ps) < 2 ^ 64 → (j ≤ length ps)%nat → nonce rc = n0 + Z.of_nat j →
  (∀ i ct pt, 0 ≤ i < 2 ^ 64 → aead_Open a (nonceBytes i) ct [] = Ok pt → ∃ k, i = n0 + Z.of_nat k ∧ ps !! k = Some pt) →
  ∃ k, (plain rc s e).1 = concat (take k (drop j ps)).
Proof.
  intros Ha Hz Hlen Hj Hn Hun. unfold plain. set (fuel := S (length s)). clearbody fuel.
  revert rc j s Ha Hj Hn. induction fuel as [|fuel IH]; intros rc j s Ha Hj Hn; cbn [plainOf]; [by exists 0%nat|].
  destruct (read_outcome 2 s e) as [lb|]; [|by exists 0%nat]. cbv zeta.
  destruct (read_outcome _ (drop 2 s) e) as [ct|]; [|by exists 0%nat].
  unfold Decrypt. rewrite Ha. destruct (aead_Open a (nonceBytes (nonce rc)) ct []) as [pt|] eqn:Eo; [|by exists 0%nat].
  apply Hun in Eo as (k & Hk & Hp); [|lia]. assert (k = j) as -> by lia. apply lookup_lt_Some in Hp as Hlt.
  destruct (IH (advanced rc) (S j) (drop (Z.to_nat (le_Z lb)) (drop 2 s)) Ha) as [k Ek]; [lia| |].
  { cbn [nonce advanced]. rewrite Hn. unfold wrap. rewrite Z.mod_small by lia. lia. }
  destruct (plainOf fuel (advanced rc) _ e) as [pts e']. cbn [fst] in *. exists (S k).
  rewrite (drop_S _ _ _ Hp). cbn [take concat]. by rewrite Ek.
Qed.


(** A write that is refused for its size uses up a nonce all the same. *)
Lemma oversized_write_desyncs `{AEADLaws} {W} (tr_Write : list Z → W → option error * W) (wire : W → list Z)
    `{StreamReader R} a big p send w send' w' n (c : EncryptedConn R) :
  (∀ bs w w', tr_Write bs w = (None, w') → wire w' = wire w ++ bs) →
  (∀ i j pt, i ≠ j → ∃ e, aead_Open a (nonceBytes i) (aead_Seal a (nonceBytes j) pt []) [] = Err e) →
  aeadFor send = Ok a → aeadFor (recv c) = Ok a → nonce (recv c) = nonce send → readbuf c = [] →
  0 ≤ nonce send < 2 ^ 64 → ¬ fits big →
  (∃ e, EncryptedConn_Write tr_Write big (send, w) = ((0, Some e), (advanced send, w))) ∧
  (EncryptedConn_Write tr_Write p (advanced send, w) = ((n, None), (send', w')) →
   wire w ++ stream (rw c) = wire w' → stream c = [] ∧ ∃ e, fault c = Wrapf "noise: decrypt failed: %w" e).
Proof.
  intros Htr Hbind Ha Hr Hn Hb Hz Hbig. split.
  - unfold EncryptedConn_Write, Encrypt. rewrite Ha, Seal_length, (proj2 (Z.ltb_lt _ _)); [eauto|].
    unfold fits, maxNoiseFrame in *. lia.
  - intros HW Hwire. destruct (write_frame _ _ Htr p (advanced send) _ _ _ _ a Ha HW) as (Hf & _ & _ & Hw').
    rewrite Hw' in Hwire. apply app_inv_head in Hwire. cbn [stream fault EncryptedConn_StreamReader]. rewrite Hb, Hwire, plain_step.
    unfold frameOf. cbv zeta. set (ct := aead_Seal _ _ _ _). set (lb := le_bytes 2 (Z.of_nat (length ct))).
    assert (length ct = (length p + 16)%nat) as Hl by apply Seal_length.
    pose proof (read_outcome_app lb ct (fault (rw c))) as E1. change (length lb) with 2%nat in E1. rewrite E1.
    assert (drop 2 (lb ++ ct) = ct) as -> by apply (drop_app_length lb).
    unfold fits, maxNoiseFrame in Hf. assert (Z.to_nat (le_Z lb) = length ct) as ->.
    { unfold lb. rewrite le_Z_le_bytes; [lia|]. change (256 ^ Z.of_nat 2) with 65536. lia. }
    pose proof (read_outcome_app ct [] (fault (rw c))) as E2. rewrite app_nil_r in E2. rewrite E2.
    unfold Decrypt. rewrite Hr. destruct (Hbind (nonce (recv c)) (nonce (advanced send)) p) as [e He].
    { rewrite Hn. cbn [nonce advanced]. unfold wrap. intros E. destruct (decide (nonce send + 1 < 2 ^ 64)).
      - rewrite Z.mod_small in E by lia. lia.
      - assert (nonce send + 1 = 2 ^ 64) as E' by lia. rewrite E', Z.mod_same in E; lia. }
    unfold ct. rewrite He. cbn. eauto.
Qed.

(** ** The handshake *)

(** The initiator's handshake, for every answer of the server.  An answer shorter
    than 32 bytes is an error.  If its first 65 bytes are a point, the transport
    keys are derived from the Diffie-Hellman secret with it, or the failure of the
    exchange is the error.  Every other answer is accepted, with transport keys that
    are the same for every initiator and every such answer: they depend on nothing
    but the protocol name.  The message sent has 65 bytes. *)
Theorem handshake_exact `{AEAD} `{ECDHLaws} {pool} (get : pool → option (list Z) * pool) put priv payload p :
  GenerateKey = Ok priv →
  let msg1 := PublicBytes (Public priv) in
  let keysFrom ck := transportOf ck in
  length msg1 = 65%nat ∧
  initiate get put payload p =
    if (length payload <? 32)%nat then Err (Errorf "noise: message2 too short (%d < 32)" [Z.of_nat (length payload)])
    else
      match (if (65 <=? length payload)%nat then NewPublicKey (take 65 payload) else Err EOF) with
      | Ok remote =>
          match ECDH_shared priv remote with
          | Ok shared => Ok (msg1, keysFrom (hkdf2_ref (Sum256 protocolName) shared).1)
          | Err e => Err (Wrapf "noise: DH failed: %w" e)
          end
      | Err _ => Ok (msg1, keysFrom (Sum256 protocolName))
      end.
Proof.
  intros Hg. cbv zeta. split.
  { by apply (NewPublicKey_only _ _ (NewPublicKey_Bytes (Public priv))). }
  rewrite (initiate_exact get put priv payload p Hg). case_if; [done|]. cbv zeta. unfold remoteEph.
  assert (parseAt 33 payload = None) as ->.
  { unfold parseAt. case_if; [|done]. destruct (NewPublicKey (take 33 payload)) as [pk|] eqn:En; [|done].
    destruct (NewPublicKey_only _ _ En) as (_ & Hl & _). rewrite length_take in Hl. lia. }
  unfold parseAt. case_if; [|done]. destruct (NewPublicKey (take 65 payload)) as [pk|]; [|done].
  by destruct (ECDH_shared priv pk).
Qed.

(** The hashers handed out by the pool compute HMAC whatever they were last used
    for: the pooled routine is the reference one for every pool, however the pool
    hands out, keeps or drops its hashers. *)
Theorem hmac_pooled_reference {pool} (get : pool → option (list Z) * pool) put key data p :
  (hmacSHA256Pooled get put key data p).1 = hmacSHA256 key data.
Proof. apply pooled_reference. Qed.

(** * Concrete instances *)

(** A cipher that only appends the nonce as a tag, to run the definitions on. *)
Definition tagOf (nb : list Z) : list Z := take 16 (nb ++ replicate 16 0).
#[local] Instance clearAEAD : AEAD := {|
  aead := list Z;
  chacha_New key := if (length key =? 32)%nat then Ok key else Err (Sentinel "chacha20poly1305: bad key length");
  aead_Seal _ nb pt _ := pt ++ tagOf nb;
  aead_Open _ nb ct _ :=
    let n := (length ct - 16)%nat in
    if (16 <=? length ct)%nat && bool_decide (drop n ct = tagOf nb) then Ok (take n ct)
    else Err (Sentinel "chacha20poly1305: message authentication failed")
|}.
Lemma length_tagOf nb : length (tagOf nb) = 16%nat.
Proof. unfold tagOf. rewrite length_take, length_app, length_replicate. lia. Qed.
#[local] Instance clearAEAD_shape : AEADShape.
Proof.
  split. intros a nb ct ad pt. cbv [aead_Open clearAEAD]. destruct (Nat.leb_spec 16 (length ct)) as [E|E]; [|discriminate].
  case_bool_decide; [|discriminate]. intros [= <-]. rewrite length_take. lia.
Qed.
#[local] Instance clearAEAD_laws : AEADLaws.
Proof.
  split; [apply _|..].
  - intros a nb pt ad. cbv [aead_Open aead_Seal clearAEAD]. pose proof (length_tagOf nb) as Hl. rewrite length_app, Hl.
    replace (length pt + 16 - 16)%nat with (length pt) by lia. rewrite drop_app_length, take_app_length.
    rewrite bool_decide_true, andb_true_r by done. by rewrite (proj2 (Nat.leb_le _ _)) by lia.
  - intros a nb pt ad. cbn. rewrite length_app, length_tagOf. lia.
Qed.

(** A pipe that accepts everything. *)
Definition pipe_Write (bs w : list Z) : option error * list Z := (None, w ++ bs).
Definition wit_key : CipherState := newCipherState (replicate 32 7).
Definition wit_wire : list Z := wireFrames (H := clearAEAD) (replicate 32 7) 0 [wit_bytes; wit_bytes].

Definition wit_end : Decoder (EncryptedConn segmentConn) :=
  {| dec_r := {| rw := {| segments := [take 3 wit_wire; drop 3 wit_wire] |}; recv := wit_key; readbuf := [] |};
     MaxFrameSize := 100 |}.

Lemma noise_channel_delivers_witness :
  ∃ d', readFrames 2 wit_end = (Ok [lengthSet wit_frame; lengthSet wit_frame], d') ∧ stream (dec_r d') = [].
Proof.
  refine (noise_channel_delivers pipe_Write (λ w, w) [wit_frame; wit_frame] [wit_bytes; wit_bytes] wit_key []
            (withNonce wit_key 2) wit_wire wit_end (replicate 32 7) _ _ _ eq_refl eq_refl eq_refl eq_refl _ eq_refl).
  - intros bs w w' E. injection E as <-. reflexivity.
  - assert (frame_ok wit_frame ∧ EncodeFrame wit_frame = Ok wit_bytes ∧ Z.of_nat (length wit_bytes) ≤ 100) as Hf.
    { split; [exact wit_frame_ok|]. split; [vm_compute; reflexivity|apply Z.leb_le; reflexivity]. }
    constructor; [exact Hf|]. constructor; [exact Hf|]. constructor.
  - vm_compute. reflexivity.
  - vm_compute. reflexivity.
Defined.

(** A cipher that opens the two messages it was built for, and nothing else. *)
Definition wit_messages : list (list Z) := [[1; 2]; [3]].
Definition tableAEAD : AEAD := {|
  aead := unit;
  chacha_New _ := Ok ();
  aead_Seal _ _ pt _ := pt ++ replicate 16 0;
  aead_Open _ nb ct _ :=
    match wit_messages !! Z.to_nat (le_Z (drop 4 nb)) with
    | Some pt => if bool_decide (ct = pt ++ replicate 16 0) then Ok pt else Err EOF
    | None => Err EOF
    end
|}.


#[local] Instance onePointECDH : ECDH := {|
  PrivateKey := unit; PublicKey := unit; GenerateKey := Ok (); Public _ := (); PublicBytes _ := 4 :: replicate 64 0;
  NewPublicKey bs := if bool_decide (bs = 4 :: replicate 64 0) then Ok () else Err (Sentinel "crypto/ecdh: invalid public key");
  ECDH_shared _ _ := Ok (replicate 32 1)
|}.
#[local] Instance onePointECDH_laws : ECDHLaws.
Proof.
  split.
  - intros bs pk. cbn. case_bool_decide as E; [|done]. intros _. by subst bs.
  - intros []. vm_compute. reflexivity.
Qed.

Lemma handshake_exact_witness :
  initiate (λ p : unit, (None, p)) (λ _ p, p) (replicate 32 9) () =
  Ok (PublicBytes (), transportOf (Sum256 protocolName)).
Proof. exact (proj2 (handshake_exact (λ p : unit, (None, p)) (λ _ p, p) () (replicate 32 9) () eq_refl)). Defined.
