(* ===== verification/RateSources.v ===== *)
(** * internal/rates: what the sources' documents mean

    The [extract] function of each price and hashrate source, from the bytes of an
    answer to a number: encoding/json decoding into the anonymous structs and maps
    of fetcher.go and hashrate.go. *)
From S2P Require Import Prelude.
From S2P Require Import Float64.
From S2P Require Import Utf8.
From S2P Require Import Json.
From S2P Require Import Text.
From S2P Require Import Rates.
From S2P Require Import JsonOut.
From Stdlib Require Import SpecFloat.

Open Scope Z_scope.

(** ** Decoding into structs and maps

    A decoder takes what the target holds and yields what it holds afterwards;
    [None] is a type error.  [encoding/json] goes on after a type error, but
    returns it. *)
Definition decoder (A : Type) : Type := A → json → option A.

Definition intoString : decoder (list Z) := λ old j,
  match j with JStr s => Some s | JNull => Some old | _ => None end.
Definition intoFloat : decoder float64 := λ old j,
  match j with JNum n => num_float n | JNull => Some old | _ => None end.
(** A slice: null makes it nil; a null element keeps what the slice held there. *)
Fixpoint intoStrings (old : list (list Z)) (l : list json) : option (list (list Z)) :=
  match l with
  | [] => Some []
  | j :: l => s ← intoString (default [] (head old)) j; ss ← intoStrings (tail old) l; Some (s :: ss)
  end.
Definition intoSlice : decoder (list (list Z)) := λ old j,
  match j with JArr l => intoStrings old l | JNull => Some [] | _ => None end.
(** A struct with one field. *)
Definition intoStruct {A} (name : string) (field : decoder A) : decoder A := λ old j,
  match j with
  | JObj l => foldl (λ acc kv, a ← acc; if key_matches name kv.1 then field a kv.2 else Some a) (Some old) l
  | JNull => Some old
  | _ => None
  end.
(** A map with text keys, whose elements are decoded into a zero value. *)
Definition intoMap {A} (zero : A) (elem : decoder A) : decoder (gmap (list Z) A) := λ old j,
  match j with
  | JObj l => foldl (λ acc kv, m ← acc; a ← elem zero kv.2; Some (<[kv.1 := a]> m)) (Some old) l
  | JNull => Some ∅
  | _ => None
  end.
Definition Unmarshal {A} (zero : A) (d : decoder A) (b : list Z) : result A :=
  match json_parse b with
  | None => Err (Sentinel "json: syntax error")
  | Some j => match d zero j with None => Err (Sentinel "json: cannot unmarshal") | Some a => Ok a end
  end.

(** ** The sources *)

Section Sources.
Context (ParseFloat : list Z → result float64).

Definition coinbaseDoc : decoder (list Z) := intoStruct "data" (intoStruct "amount" intoString).
Definition coinbaseExtract (b : list Z) : result float64 :=
  amount ← Unmarshal [] coinbaseDoc b; parseRate ParseFloat amount.

Definition krakenDoc : decoder (gmap (list Z) (list (list Z))) := intoStruct "result" (intoMap [] (intoStruct "c" intoSlice)).
(** [order] is the order in which range visits the map. *)
Definition krakenExtract (order : gmap (list Z) (list (list Z)) → list (list Z * list (list Z))) (b : list Z) : result float64 :=
  m ← Unmarshal ∅ krakenDoc b;
  match List.filter (λ kv, negb (bool_decide (kv.2 = []))) (order m) with
  | (_, price :: _) :: _ => parseRate ParseFloat price
  | _ => Err (Sentinel "rates: kraken: no ticker data")
  end.

Definition coinGeckoDoc : decoder (gmap (list Z) (gmap (list Z) float64)) := intoMap ∅ (intoMap fzero intoFloat).
Definition coinGeckoExtract (b : list Z) : result float64 :=
  m ← Unmarshal ∅ coinGeckoDoc b;
  match m !! bytes_of_string "bitcoin" ≫= λ btc, btc !! bytes_of_string "usd" with
  | Some usd => Ok usd
  | None => Err (Sentinel "rates: coingecko: missing bitcoin.usd field")
  end.

Definition mempoolSource (b : list Z) : result float64 :=
  mempoolExtract (Unmarshal fzero (intoStruct "currentHashrate" intoFloat) b).

Record Source := { s_Name : list Z; s_URL : list Z; extract : list Z → result float64 }.
Definition defaultSources (order : gmap (list Z) (list (list Z)) → list (list Z * list (list Z))) : list Source :=
  [{| s_Name := %"Coinbase"; s_URL := %"https://api.coinbase.com/v2/prices/BTC-USD/spot"; extract := coinbaseExtract |};
   {| s_Name := %"Kraken"; s_URL := %"https://api.kraken.com/0/public/Ticker?pair=XBTUSD"; extract := krakenExtract order |};
   {| s_Name := %"CoinGecko"; s_URL := %"https://api.coingecko.com/api/v3/simple/price?ids=bitcoin&vs_currencies=usd";
      extract := coinGeckoExtract |}].
Definition defaultHashrateSources : list Source :=
  [{| s_Name := %"mempool.space"; s_URL := %"https://mempool.space/api/v1/mining/hashrate/1d"; extract := mempoolSource |};
   {| s_Name := %"blockchain.info"; s_URL := %"https://blockchain.info/q/hashrate"; extract := blockchainExtract ParseFloat |}].
End Sources.

(** Decimal integers only, for the examples. *)
Definition demoParse (s : list Z) : result float64 :=
  if forallb (λ c, (48 <=? c) && (c <=? 57)) s && negb (bool_decide (s = [])) then Ok (f64_of_Z (of_digits 10 (map (λ c, c - 48) s)))
  else Err (Sentinel "invalid syntax").

Example extract_examples :
  coinbaseExtract demoParse (dq "{'data':{'base':'BTC','AMOUNT':'95000','amount':null}}") = Ok (f64_of_Z 95000) ∧
  krakenExtract demoParse map_to_list (dq "{'error':[],'result':{'XXBTZUSD':{'a':['1'],'c':['94000','0.1']}}}") = Ok (f64_of_Z 94000) ∧
  coinGeckoExtract (dq "{'bitcoin':{'usd':93000}}") = Ok (f64_of_Z 93000) ∧
  coinGeckoExtract (dq "{'bitcoin':{'usd':null}}") = Ok fzero ∧
  coinGeckoExtract (dq "{'Bitcoin':{'usd':1}}") = Err (Sentinel "rates: coingecko: missing bitcoin.usd field") ∧
  coinGeckoExtract (dq "{'bitcoin':{'usd':1},'status':3}") = Err (Sentinel "json: cannot unmarshal") ∧
  mempoolSource (dq "{'currentHashrate':0}") = Err (Errorf "currentHashrate %v not positive" []).
Proof. vm_compute. split_and!; reflexivity. Qed.

(** * The readings are numbers *)

Lemma fdiv_not_nan m1 e1 m2 e2 s1 s2 : IsNaN (fdiv (S754_finite s1 m1 e1) (S754_finite s2 m2 e2)) = false.
Proof.
  unfold fdiv. cbn [SFdiv]. unfold SFdiv_core_binary. cbv zeta.
  set (d1 := Zdigits2 (Zpos m1)). set (d2 := Zdigits2 (Zpos m2)).
  set (e' := Z.min (fexp f64_prec f64_emax (d1 + e1 - (d2 + e2))) (e1 - e2)).
  set (s := e1 - e2 - e'). assert (0 ≤ s) as Hs by (unfold s, e'; lia).
  set (m' := match s with Zpos _ => Z.shiftl (Zpos m1) s | Z0 => Zpos m1 | Zneg _ => 0 end).
  assert (m' = Zpos m1 * 2 ^ s) as Em.
  { unfold m'. destruct s as [|p|p]; [lia|by rewrite Z.shiftl_mul_pow2|lia]. }
  pose proof (Z.div_eucl_eq m' (Zpos m2) ltac:(lia)) as Hq. pose proof (Z.mod_pos_bound m' (Zpos m2) ltac:(lia)) as Hb.
  unfold Z.modulo in Hb. destruct (Z.div_eucl m' (Zpos m2)) as [q r].
  assert (0 ≤ q) as Hq0 by nia.
  refine (proj1 (proj2 (binary_round_aux_spec _ q e' _ Hq0 _))).
  assert (d1 + s - d2 ≤ Zdigits2 q) as Hd.
  { unfold d1, d2. rewrite !Zdigits2_log2 by lia. pose proof (Z.log2_spec (Zpos m1) ltac:(lia)) as [L1 _].
    pose proof (Z.log2_spec (Zpos m2) ltac:(lia)) as [_ L2]. pose proof (Z.log2_nonneg (Zpos m1)). pose proof (Z.log2_nonneg (Zpos m2)).
    destruct (Z_lt_le_dec (Z.log2 (Zpos m1) + s - Z.log2 (Zpos m2) - 1) 0) as [Hl|Hl].
    { destruct (Z.eq_dec q 0) as [->|Hn]; [change (Zdigits2 0) with 0; lia|]. rewrite Zdigits2_log2 by lia. pose proof (Z.log2_nonneg q). lia. }
    set (k := Z.log2 (Zpos m1) + s - Z.log2 (Zpos m2) - 1) in *.
    assert (2 ^ k ≤ q) as Hk.
    { assert (2 ^ k * 2 ^ (Z.succ (Z.log2 (Zpos m2))) ≤ m') as H1.
      { rewrite <-Z.pow_add_r by lia. replace (k + Z.succ (Z.log2 (Zpos m2))) with (Z.log2 (Zpos m1) + s) by (unfold k; lia).
        rewrite Z.pow_add_r, Em by lia. apply Z.mul_le_mono_nonneg_r; lia. }
      assert (0 < 2 ^ k) by (by apply Z.pow_pos_nonneg). nia. }
    assert (0 < 2 ^ k) as Hp by (by apply Z.pow_pos_nonneg). assert (0 < q) by lia.
    apply Z.log2_le_mono in Hk. rewrite Z.log2_pow2 in Hk by lia. rewrite Zdigits2_log2 by lia. unfold k in *. lia. }
  rewrite f64_fexp_eq. assert (e' ≤ f64_fexp (d1 + e1 - (d2 + e2))) as He by (unfold e', f64_fexp; lia).
  rewrite f64_fexp_eq in He. unfold s in *. lia.
Qed.

Definition finite (f : float64) : Prop := IsNaN f = false ∧ IsInf f = false.
Lemma f64_of_Z_not_nan n : IsNaN (f64_of_Z n) = false.
Proof. unfold f64_of_Z. destruct n as [|q|q]; [done| |]; cbn [binary_normalize]; apply binary_round_spec. Qed.
Lemma num_float_finite n f : num_float n = Some f → finite f.
Proof.
  unfold num_float. cbv zeta. set (m := of_digits _ _). set (e := default 0 _ - _).
  destruct (IsInf _) eqn:EI; [done|]. intros H. injection H as <-.
  assert (IsNaN (if m =? 0 then fzero else if 0 <=? e then f64_of_Z (m * 10 ^ e) else fdiv (big_SetInt m) (big_SetInt (10 ^ (- e)))) = false) as HN.
  { destruct (Z.eqb_spec m 0); [done|]. destruct (Z.leb_spec 0 e); [apply f64_of_Z_not_nan|].
    assert (0 < 10 ^ (- e)) by (apply Z.pow_pos_nonneg; lia). unfold big_SetInt.
    destruct m as [|pm|pm]; [done| |]; (destruct (10 ^ (- e)) as [|pe|pe]; [lia| |lia]); apply fdiv_not_nan. }
  unfold finite. destruct (num_neg n); [|done]. revert HN EI. generalize (if m =? 0 then fzero else if 0 <=? e then f64_of_Z (m * 10 ^ e) else fdiv (big_SetInt m) (big_SetInt (10 ^ (- e)))).
  by intros [].
Qed.

(** What holds of every decoded element holds of a decoded map. *)
Lemma intoMap_all {A} (P : A → Prop) zero elem old j m :
  (∀ j a, elem zero j = Some a → P a) → map_Forall (λ _ : list Z, P) old → intoMap zero elem old j = Some m → map_Forall (λ _, P) m.
Proof.
  intros He. destruct j as [| | | | |l]; cbn [intoMap]; try done; [by intros _ [= <-]|].
  enough (∀ acc, (∀ x, acc = Some x → map_Forall (λ _ : list Z, P) x) →
    foldl (λ acc kv, m ← acc; a ← elem zero kv.2; Some (<[kv.1 := a]> m)) acc l = Some m → map_Forall (λ _, P) m) as H.
  { intros Ho. apply H. by intros x [= <-]. }
  induction l as [|kv l IH]; intros acc Ha; [by apply Ha|]. cbn [foldl]. apply IH. intros x Hx.
  destruct acc as [y|]; [|done]. cbn [mbind option_bind] in Hx. destruct (elem zero kv.2) as [a|] eqn:E; [|done].
  injection Hx as <-. apply map_Forall_insert_2; [by eapply He|by apply Ha].
Qed.

Lemma parseRate_finite pf s v : parseRate pf s = Ok v → finite v.
Proof.
  unfold parseRate. destruct (pf s) as [x|e]; [|done]. cbn [mbind result_bind]. destruct (IsNaN x) eqn:E1, (IsInf x) eqn:E2; try done.
  intros H. injection H as <-. by split.
Qed.

(** No price source yields a number that is not finite.  Whatever bytes are
    answered, whatever the standard library makes of numerals such as NaN, Inf or
    1e999, and in whatever order a map is visited, a reading of one of the three
    price sources is neither NaN nor infinite. *)
Theorem price_sources_finite pf order src b v :
  src ∈ defaultSources pf order → extract src b = Ok v → IsNaN v = false ∧ IsInf v = false.
Proof.
  intros Hs Hv. change (finite v). unfold defaultSources in Hs. rewrite !elem_of_cons, elem_of_nil in Hs.
  destruct_or! Hs; try done; subst src; cbn [extract] in Hv.
  - unfold coinbaseExtract in Hv. destruct (Unmarshal _ _ _); [|done]. by eapply parseRate_finite.
  - unfold krakenExtract in Hv. destruct (Unmarshal _ _ _); [|done]. cbn [mbind result_bind] in Hv.
    destruct (List.filter _ _) as [|[k [|price l]] rest]; try done. by eapply parseRate_finite.
  - unfold coinGeckoExtract, Unmarshal in Hv. destruct (json_parse b) as [j|]; [|done].
    destruct (coinGeckoDoc ∅ j) as [m|] eqn:Em; [|done]. cbn [mbind result_bind] in Hv.
    assert (map_Forall (λ _ : list Z, map_Forall (λ _ : list Z, finite)) m) as HF.
    { eapply (intoMap_all (map_Forall (λ _ : list Z, finite))); [|apply map_Forall_empty|exact Em].
      intros j' a Ha. eapply (intoMap_all finite); [|apply map_Forall_empty|exact Ha].
      intros j'' x Hx. destruct j''; try done; cbn in Hx; [by injection Hx as <-|by eapply num_float_finite]. }
    destruct (m !! bytes_of_string "bitcoin") as [btc|] eqn:E1; cbn [mbind option_bind] in Hv; [|done].
    destruct (btc !! bytes_of_string "usd") as [usd|] eqn:E2; [|done]. injection Hv as <-. by eapply (HF _ _ E1).
Qed.

Lemma price_sources_finite_witness :
  IsNaN (f64_of_Z 93000) = false ∧ IsInf (f64_of_Z 93000) = false.
Proof.
  refine (price_sources_finite demoParse map_to_list
    {| s_Name := %"CoinGecko"; s_URL := %"https://api.coingecko.com/api/v3/simple/price?ids=bitcoin&vs_currencies=usd";
       extract := coinGeckoExtract |} (dq "{'bitcoin':{'usd':93000}}") _ _ _);
    [by apply list_elem_of_further, list_elem_of_further, list_elem_of_here|vm_compute; reflexivity].
Defined.

(** * The documented documents are read *)

Definition others (name : string) (l : list (list Z * jout)) : Prop :=
  Forall (λ kv, key_matches name (string_of_runes (runes kv.1)) = false) l.
Definition jfields (l : list (list Z * jout)) : list (list Z * json) := map (λ kv, (string_of_runes (runes kv.1), decoded kv.2)) l.

Lemma fold_none {A} name (field : decoder A) l :
  foldl (λ acc kv, a ← acc; if key_matches name kv.1 then field a kv.2 else Some a) None l = None.
Proof. by induction l. Qed.
Lemma fold_others {A} name (field : decoder A) x l :
  others name l → foldl (λ acc kv, a ← acc; if key_matches name kv.1 then field a kv.2 else Some a) x (jfields l) = x.
Proof.
  intros H. destruct x as [a|]; [|apply fold_none]. unfold others, jfields in *.
  induction H as [|kv l Hk _ IH]; [done|]. cbn [map foldl fst mbind option_bind]. by rewrite Hk.
Qed.
(** A field is read wherever it stands among others. *)
Lemma intoStruct_one {A} name (field : decoder A) a pre k v post :
  others name pre → others name post → key_matches name (string_of_runes (runes k)) = true →
  intoStruct name field a (decoded (OObj (pre ++ (k, v) :: post))) = field a (decoded v).
Proof.
  intros H1 H2 Hk. cbn [decoded]. rewrite map_app. cbn [map fst snd]. change (map _ pre) with (jfields pre). change (map _ post) with (jfields post).
  unfold intoStruct. rewrite foldl_app, fold_others by done. cbn [foldl fst snd mbind option_bind]. rewrite Hk. by apply fold_others.
Qed.

Lemma Unmarshal_encoded {A} (zero : A) d v :
  jout_ok 100 v → Unmarshal zero d (Encode v) = match d zero (decoded v) with None => Err (Sentinel "json: cannot unmarshal") | Some a => Ok a end.
Proof. intros H. unfold Unmarshal. by rewrite Encode_reads. Qed.

Lemma intoStrings_texts old l : ∃ ss, intoStrings old (map decoded (map OStr l)) = Some ss.
Proof.
  revert old. induction l as [|v l IH]; intros old; [by eexists|]. cbn [map intoStrings decoded intoString mbind option_bind].
  destruct (IH (tail old)) as [ss ->]. by eexists.
Qed.

(** Answers of the documented shape are read as what they say, whatever other
    fields surround the one that counts, at any level, whatever text stands there,
    and in whatever order maps are visited: Coinbase's data.amount, and the last
    trade of Kraken's only pair. *)
Theorem sources_read pf order doc (p1 p2 q1 q2 : list (list Z * jout)) pair s vols :
  jout_ok 100 doc → (∀ m, order m ≡ₚ map_to_list m) →
  (doc = OObj (p1 ++ (%"data", OObj (q1 ++ (%"amount", OStr s) :: q2)) :: p2) →
     others "data" p1 → others "data" p2 → others "amount" q1 → others "amount" q2 →
     coinbaseExtract pf (Encode doc) = parseRate pf (string_of_runes (runes s))) ∧
  (doc = OObj (p1 ++ (%"result", OObj [(pair, OObj (q1 ++ (%"c", OArr (OStr s :: map OStr vols)) :: q2))]) :: p2) →
     others "result" p1 → others "result" p2 → others "c" q1 → others "c" q2 →
     krakenExtract pf order (Encode doc) = parseRate pf (string_of_runes (runes s))).
Proof.
  intros Hok Ho. split; intros E P1 P2 Q1 Q2; unfold coinbaseExtract, krakenExtract; rewrite Unmarshal_encoded by done; subst doc.
  - unfold coinbaseDoc. by rewrite !intoStruct_one by done.
  - unfold krakenDoc. rewrite intoStruct_one by done. cbn [decoded map fst snd]. unfold intoMap. cbn [foldl mbind option_bind fst snd].
    change (JObj _) with (decoded (OObj (q1 ++ (%"c", OArr (OStr s :: map OStr vols)) :: q2))). rewrite intoStruct_one by done.
    cbn [decoded map intoSlice intoStrings intoString head tail default mbind option_bind].
    destruct (intoStrings_texts [] vols) as [ss ->]. cbn [mbind option_bind result_bind].
    rewrite insert_empty. specialize (Ho {[string_of_runes (runes pair) := string_of_runes (runes s) :: ss]}).
    rewrite map_to_list_singleton in Ho. symmetry in Ho. apply Permutation_length_1_inv in Ho. by rewrite Ho.
Qed.

Lemma sources_read_witness :
  krakenExtract demoParse map_to_list
    (Encode (OObj [(%"error", OArr []); (%"result", OObj [(%"XXBTZUSD", OObj [(%"c", OArr [OStr (%"94000"); OStr (%"0.1")])])])])) =
  Ok (f64_of_Z 94000).
Proof.
  assert (∀ l, forallb (λ kv, negb (key_matches "result" (string_of_runes (runes kv.1)))) l = true → others "result" l) as HO.
  { intros l Hl. apply Forall_forall. intros kv Hin. rewrite forallb_forall in Hl. apply list_elem_of_In, Hl in Hin.
    by destruct (key_matches _ _). }
  refine (eq_trans (proj2 (sources_read demoParse map_to_list _ [(%"error", OArr [])] [] [] [] (%"XXBTZUSD") (%"94000") [%"0.1"] _ _) eq_refl _ _ _ _) _).
  - apply jout_ok_obj. repeat apply Forall_cons_2; try apply Forall_nil_2; (split; [apply (bool_decide_unpack _); vm_compute; exact I|]); cbn [snd].
    + apply jout_ok_arr, Forall_nil_2.
    + apply jout_ok_obj, Forall_singleton. split; [apply (bool_decide_unpack _); vm_compute; exact I|].
      apply jout_ok_obj, Forall_singleton. split; [apply (bool_decide_unpack _); vm_compute; exact I|].
      apply jout_ok_arr, Forall_cons_2; [|apply Forall_singleton]; apply jout_ok_str, (bool_decide_unpack _); vm_compute; exact I.
  - done.
  - apply HO. vm_compute. reflexivity.
  - constructor.
  - constructor.
  - constructor.
  - vm_compute. reflexivity.
Defined.
